(* ===== verification/_CoqProject ===== *)
-Q . S2P
Prelude.v
SegBuffer.v
Codec.v
Options.v
Address.v
Reconnect.v
Greeting.v
Ready.v
Session.v
ByteOrder.v
Subscription.v
SubIndex.v
RouterHub.v
PubSubHub.v
Backpressure.v
CurveMessage.v
Stream.v
Proc.v
Zap.v
ZapAuth.v
Plain.v
CurveHandshake.v
Handshake.v
Inproc.v
Base.v
BaseWire.v
Recv.v
Sockets.v
Pipeline.v
Arrival.v
PushPull.v
ReqRep.v
RouterPair.v
Subscriber.v
Publisher.v
PubSubSync.v
XPub.v
Proxy.v
Fan.v
StreamSocket.v
Adapters.v
Connect.v
Facade.v
Transport.v
SocketTrait.v
Support.v
DealerRouter.v
PubSubNet.v
Backends.v
Runtime.v
Redaction.v
CurveBox.v
Broker.v
