(* ===== verification/Prelude.v ===== *)
(** * Monocoque: a verification library for a ZeroMQ-compatible runtime

    Monocoque is a ZeroMQ implementation in Rust.  monocoque-core holds the
    parts without protocol knowledge (segmented receive buffer, options,
    reconnection backoff, subscriptions, the ROUTER and PUB/SUB hubs,
    backpressure, the poison guard); monocoque-zmtp holds the ZMTP 3.x wire
    protocol (codec, greeting, READY, the sans-IO session, PLAIN and CURVE
    security) and the sockets, all built on [SocketBase]; the monocoque crate is
    a facade over the sockets.  A socket reads bytes from its stream into a
    segmented buffer, decodes frames from it, assembles them into multipart
    messages, and encodes messages into the stream under a poison guard; the
    hubs route messages between the peers of a multi-peer socket.

    ** Files

    - [Prelude] (this file): bytes, slices, machine-width integers, big-endian
      conversion, UTF-8 validity, the [result] monad, tactics and the [mono]
      hint database.  [len l] is a length as an integer.
    - [SegBuffer]: monocoque-core/src/buffer.rs, [SegmentedBuffer].
    - [Codec]: monocoque-zmtp/src/codec.rs, [ZmtpDecoder::decode], the encoders,
      and the stateless specification [parse_frame].
    - [Options]: monocoque-core/src/options.rs, the configuration record, its
      builders and validations; [ErrorKind] stands for [io::Error].
    - [Address]: socket addresses as the standard library reads and prints them,
      monocoque-core/src/endpoint.rs (paths printed with the replacement characters
      of [Path::display]), and the endpoint parser of the facade.
    - [Reconnect]: monocoque-core/src/reconnect.rs and [jittered_backoff] of
      monocoque-zmtp/src/base.rs.
    - [Greeting]: monocoque-zmtp/src/greeting.rs and the greeting builder and
      mechanism parser of handshake.rs.
    - [Ready]: the READY command: builder (utils.rs) and parser (handshake.rs).
    - [Session]: monocoque-zmtp/src/session.rs, [ZmtpSession::on_bytes], and the
      abstract protocol machine [spec_step]/[srun].
    - [ByteOrder]: lexicographic order, binary search and sorted-set operations
      of the Rust standard library the next files use.
    - [Subscription]: monocoque-core/src/subscription.rs; the class [TopicFilter]
      is what a topic matcher promises.
    - [SubIndex]: monocoque-core/src/pubsub/index.rs.
    - [RouterHub]: monocoque-core/src/router.rs.
    - [PubSubHub]: monocoque-core/src/pubsub/hub.rs, on [SubIndex].
    - [Backpressure]: monocoque-core/src/backpressure.rs, as an interleaving of
      task steps ([sem_step]).
    - [CurveMessage]: [CurveMessageCipher] of monocoque-zmtp/src/security/curve.rs.
      The AEAD is a library outside the repository: the class [Aead].
    - [Stream]: the streams sockets read and write, as the class [AsyncStream],
      and [WireStream], what a stream promises about the bytes it has put on the
      wire.  [ScriptStream] and [SinkStream] are executable instances.
    - [Base]: monocoque-zmtp/src/base.rs, [SocketBase] with every operation that
      changes it, and the poison guard (monocoque-core/src/poison.rs) around
      each write.  [Connector] is what a reconnection needs from outside.
    - [BaseWire]: theorems on sequences of base operations and the wire.
    - [Proc]: handshakes as processes that read and write, the step relation of
      two processes joined by byte streams, and monocoque-core/src/timeout.rs.
    - [Zap], [ZapAuth]: monocoque-zmtp/src/security/zap.rs, zap_client.rs and
      zap_handler.rs.
    - [Plain]: security/plain.rs and protocol.rs, whose READY parser equals that of
      handshake.rs ([protocol_ready_agrees]).
    - [CurveHandshake]: the handshake of security/curve.rs.  The primitives are
      the class [CurveCrypto], what is relied on is [CurveCryptoLaws].
    - [Handshake]: handshake.rs, [perform_handshake_with_options].
    - [Inproc]: monocoque-core/src/inproc.rs and monocoque-zmtp/src/inproc_stream.rs.
    - [Recv]: the receive loop the single-peer sockets share, heartbeats,
      reconnection.
    - [Sockets]: monocoque-zmtp/src/dealer.rs, req.rs and rep.rs.
    - [Pipeline]: push.rs and pull.rs.
    - [Arrival]: connections whose bytes arrive any number at a time and in any
      pieces: a [Lane] of messages with the bytes of them that have arrived, and the
      receive loop on a partly arrived message ([collecting]).
    - [PushPull]: a PUSH and a PULL socket joined by a connection.
    - [RouterPair]: router.rs, pair.rs and the in-process constructors.
    - [Subscriber]: subscriber.rs and xsub.rs.
    - [Publisher]: publisher.rs: readers, shared union, workers, dispatch.
    - [PubSubSync]: a SUB socket and the publisher's reader joined by a wire.
    - [XPub]: xpub.rs.
    - [Proxy]: proxy.rs; the class [ProxySocket] is the trait, [ProxySpec] what
      a socket promises to a proxy (with the log of its calls), [relays] the runs a
      proxy may have.
    - [Fan]: monocoque/src/zmq/push_fanout.rs and pull_fanin.rs.
    - [StreamSocket]: stream.rs.
    - [ReqRep]: a REQ and a REP socket joined by a connection, against the machine
      [rr_spec].
    - [Adapters]: adapters.rs, stream_sink.rs, and monocoque-core/src/monitor.rs
      and socket_type.rs.
    - [Connect]: the TCP constructors of the sockets: connect, tuning, handshake
      and what the socket remembers.  The class [Network] is what they need from
      below, [TcpSocket] what the sockets with a connector have in common.
    - [Facade]: monocoque/src/zmq, the wrappers around the sockets, their monitors
      and error conversion, and an application that uses any number of them as a
      step relation ([app_step]).
    - [Transport]: monocoque-core/src/tcp.rs over a table of file descriptors,
      ipc.rs over a file system of nodes, the read slab of io.rs; [Socket2] is what
      is relied on of that crate's keepalive call.
    - [SocketTrait]: socket_trait.rs, the trait [Socket], its macro and its uses.
    - [Support]: message_builder.rs, error.rs and config.rs of monocoque-core.
    - [DealerRouter]: a DEALER and a ROUTER socket joined by a connection, against
      two lanes ([link_spec]).
    - [PubSubNet]: a PUB socket, its readers and workers, and any number of SUB
      sockets, as one system that steps ([net_step]).
    - [Backends]: the stream adapters of monocoque-core/src/rt/smol.rs and
      tokio.rs, with [fill_read] and [with_vectored_slices] of io.rs.  The
      libraries below them are the classes [Reactor], [SockRef] and [TokioIo] with
      their laws; the adapters are instances of [AsyncStream] and [WireStream],
      which the files above only assume.
    - [Runtime]: the rest of monocoque-core/src/rt: choice of the backend, smol's
      [timeout], spawned tasks, connect, accept and [bind_reuseport]; the accept
      loops at descriptor exhaustion (utils.rs).
    - [Redaction]: the Debug implementations written by hand, and the drop of a
      CURVE secret key.
    - [CurveBox]: the message box of security/curve.rs ([encrypt_message] and
      [decrypt_message] of both ends).
    - [Broker]: publishers, an XSUB socket, the proxy, an XPUB socket and its
      subscribers, against a scheduler on two queues ([broker_spec]).

    ** How the code is read

    [Bytes], [BytesMut], [Vec<u8>] and slices are the list of their bytes; a
    [usize] or [u64] is an integer with its checks and wrap-around written out
    where the code has them; a Rust panic (failed index, slice or subtraction)
    is [None] of an [option], and theorems state that it does not happen;
    [Result] is [result].  A [HashMap] is a [gmap]; where its iteration order
    reaches the outside (the fan-out of a publish), theorems hold up to
    permutation.  An [await] either completes or stalls ([completion]); a
    stalled one is ended by the timer the code puts around it or by the drop of
    the future ([outcome]: [Pending]), and every definition says which state
    each of these leaves behind, so cancellation at every suspension point is
    part of the model.  [Instant::now()] is an argument.  Channels of the hubs
    are identified by a number; what a hub sends is the list of (channel,
    command) pairs.  Logging and capacity hints are left out.

    ** What the theorems show

    - The decoder and the buffer under it refine a stateless parser on a flat
      byte string: segmentation is not observable, nothing panics, encode and
      decode are inverse ([decode_refines], [encode_decode_roundtrip],
      [segbuf_refines_queue], [encode_multipart_spec]).
    - The session refines a small protocol machine, gives the same events under
      every segmentation, and understands what this library itself sends
      ([on_bytes_refines], [on_bytes_chunking], [session_end_to_end]); greeting
      and READY parsing accept exactly what they should and round trip.
    - Sending: whatever sequence of operations, failures, timeouts and
      cancellations, only whole messages reach the wire, except behind a poison
      flag that nothing but a reconnection clears ([wire_integrity],
      [poisoned_never_writes]); on a healthy connection nothing is lost,
      duplicated or reordered ([buffered_sends_fifo]), and the vectored path
      sends the same bytes as the copying one ([vectored_matches_copy]).
    - Receiving: messages arrive whole and in order however they are cut
      ([recv_returns_messages]); heartbeat and reconnection behaviour.
    - Handshakes: two peers with the same mechanism complete in every
      interleaving and agree on types, identities and keys; whatever the peer
      sends, PLAIN and CURVE servers admit only whom they should
      ([null_handshakes_complete], [curve_handshakes_complete],
      [curve_server_authenticates], [plain_handshakes_complete]).
    - Sockets: request-reply lock step, request correlation, the bound of the
      high-water mark, the ROUTER envelope, SUB filtering, resubscription.
    - Composition, over plaintext connections whose writes complete, without
      heartbeats, the bytes arriving a few at a time between any calls: what PUSH
      sends PULL returns, however it is sent, cut and received
      ([pipeline_end_to_end]); a REQ and a REP socket behave as a request-reply
      machine in and out of turn ([request_reply_conversation]); DEALER and ROUTER
      are a lane of messages each way ([dealer_router_queues]); publisher and subscriber agree on the
      subscriptions ([subscriptions_synchronised]), and every subscriber gets what
      it subscribed to as long as no worker channel overflows
      ([pubsub_end_to_end]); the proxy and the PULL-PUSH
      forwarder relay exactly once ([proxy_exactly_once], [forwarder_relays]); a
      broker of XSUB, proxy and XPUB gives every subscriber what it asked for and
      tells the publishers what is asked for, unless the proxy asks XSUB while a
      message of several frames is partly there ([broker_delivers]).
    - Backends: reads never show memory that was not written and writes put a
      front part of what they are given on the connection ([backend_reads],
      [backend_writes]), so that the sockets run on the adapters as they run on
      the streams they assume; a timeout ends at its deadline and not before
      ([timeout_outcome]); what becomes of detached and dropped tasks
      ([detached_and_dropped_tasks]); a shared port ([bind_reuseport_outcome]).
    - Debug output does not depend on a secret ([debug_hides_secrets]).
    - PUB: the shared union and its cached copy (which contains every update that
      was completed) never lose a wanted message and
      coalescing is invisible ([union_exact], [prefilter_never_stale],
      [coalescing_invisible]); XPUB stays well formed, never panics, sends by subscription and
      reports the wanted topics of subscribers that do not repeat themselves.
    - Fan-out, fan-in and STREAM: round robin, merging and per-connection order
      under every interleaving of the tasks.
    - Hubs: routing tables and rotation are consistent with the peer events for
      every interleaving, routing and round robin reach exactly the intended
      peers, publishing reaches exactly the subscribers, stale disconnects are
      ignored; the subscription structures are sets of prefixes.
    - CURVE messages round trip and are not accepted twice; byte permits are
      conserved and do not deadlock.
    - Endpoints (of UTF-8 paths) round trip through their text
      ([endpoint_roundtrip]); a connected
      socket can find its peer again ([connect_remembers_peer]); tuning sets what
      was asked for ([tuning_outcome]); read buffers never overlap
      ([read_buffers_apart]); IPC listeners spare files ([ipc_spares_files]).
    - Facade: a proxy over it is one over the wrapped sockets, cut short at the
      first error ([facade_proxy_ends_early]); [facade_mandatory_fixed] and
      [monitors_stay_silent] say which calls have no effect.
    - Where the code does less than its documentation says, a theorem says what
      it does: [reconnect_keeps_partial_frame], [poisoned_send_never_reconnects],
      [req_recv_after_reconnect_fails], [recv_loop_never_pings],
      [cancelled_acquire_leaks], [reconnect_plateau_below_max],
      [close_can_leave_connected], [long_ready_refused], [rebind_breaks_endpoint],
      [push_heartbeat_drops_live_peer], [inproc_pair_unreachable],
      [failed_resubscription_forgets], [xsub_abandoned_recv_truncates],
      [xpub_miscounts], [forwarder_never_waits], [fanout_discards_healthy],
      [stream_send_truncates], [unaware_server_refused], [unflushed_item_lost],
      [facade_req_options_forget], [failed_tuning_closes_foreign_fd],
      [stale_drop_unlinks], [socket_trait_recursion], [drop_keeps_secret].

    ** Fuel

    Loops that are not structural run on fuel, and theorems show it is enough:
    [on_bytes] gets the number of bytes held plus 12 (each round consumes a byte
    or moves to a later phase), the READY loop the body length plus 1 (each
    property has at least 5 bytes), the binary search the length plus 1, the
    rotation search of [pick_rr_peer] the list length plus 2.  The receive loop
    of the sockets is unbounded in the code; [None] is exhausted fuel there, and
    [recv_returns_messages] shows that twice the number of reads plus the number
    of parts is enough for a message.  The retry loops are unbounded as well
    when no attempt limit is set.  The theorems on
    joined sockets ask for more than twice the number of pieces that arrive plus the
    parts of the longest message; [pull_run] and the fan-in readers get
    [enough_fuel], the same measure over all messages still to come; SUB's
    receive loop terminates for every fuel above some bound ([sub_recv_filters]);
    a publisher's worker needs as many steps as it has commands.  [recv_budget]
    of [PubSubNet] is a bound computed from the bytes a SUB socket has to read.
    Proxies run for a given list of scheduling decisions: the theorems hold for
    all lists.

    ** Not modelled

    The runtime libraries (compio, tokio, smol, socket2) and the operating system
    are outside the repository: they are classes with laws, each with an executable
    instance.  The functions of monocoque-core/src/rt that pass straight to them
    ([block_on], [sleep], [spawn], address getters, the streams and timers of compio
    that are re-exported) have nothing to model.  JSON and MessagePack of the
    message builder call serialisers outside the repository.  [dev_tracing.rs] sets
    up logging.  The loom and fuzz crates and the programs under scripts/,
    examples/ and benches/ use the library and are not part of it.  Accessors and Display texts are left out. *)

From Stdlib Require Export ZArith.
From Stdlib Require Export Lia.
From Stdlib Require Import Init.Byte Strings.Byte.
From stdpp Require Export prelude gmap sorting strings list numbers.

#[export] Set Warnings "-clear-no-such-hyp".

(** ** Bytes

    A Rust [u8] is a [byte]; [Bytes], [BytesMut], [Vec<u8>] and [&[u8]] are all
    [bytes], the sequence of bytes they hold: sharing of the underlying
    allocation is not observable, since a frozen [Bytes] is never mutated. *)

Abbreviation byte := Corelib.Init.Byte.byte.
Abbreviation bytes := (list byte).

Declare Scope mono_scope.
Delimit Scope mono_scope with mono.
Open Scope Z_scope.

#[export] Instance byte_eq_dec : EqDecision byte := Byte.byte_eq_dec.

#[export] Program Instance byte_countable : Countable byte :=
  inj_countable Byte.to_N Byte.of_N _.
Next Obligation. intros b. apply Byte.of_to_N. Qed.

(** The value of a [u8], and the truncating cast [z as u8]. *)
Definition u8_val (b : byte) : Z := Z.of_N (Byte.to_N b).

Definition u8 (z : Z) : byte :=
  match Byte.of_N (Z.to_N (z mod 256)) with
  | Some b => b
  | None => x00
  end.

Lemma u8_val_range b : 0 <= u8_val b < 256.
Proof.
  unfold u8_val. pose proof (Byte.to_N_bounded b). lia.
Qed.

Lemma u8_val_u8 z : u8_val (u8 z) = z mod 256.
Proof.
  unfold u8, u8_val. pose proof (Z.mod_pos_bound z 256 ltac:(lia)).
  destruct (Byte.of_N _) as [b|] eqn:E.
  - apply Byte.to_of_N in E. rewrite E. lia.
  - apply Byte.of_N_None_iff in E. lia.
Qed.

Lemma u8_u8_val b : u8 (u8_val b) = b.
Proof.
  unfold u8, u8_val. rewrite Z.mod_small.
  - rewrite N2Z.id, Byte.of_to_N. done.
  - pose proof (Byte.to_N_bounded b). lia.
Qed.

Lemma u8_val_small z : 0 <= z < 256 -> u8_val (u8 z) = z.
Proof. intros. rewrite u8_val_u8. by apply Z.mod_small. Qed.

#[export] Instance u8_val_inj : Inj (=) (=) u8_val.
Proof. intros a b E. rewrite <- (u8_u8_val a), <- (u8_u8_val b). by f_equal. Qed.

(** Deciding a property of every [u8] by enumeration. *)
Definition all_bytes : list byte := (λ n, u8 (Z.of_nat n)) <$> seq 0 256.

Lemma elem_of_all_bytes b : b ∈ all_bytes.
Proof.
  unfold all_bytes. apply list_elem_of_fmap. exists (Z.to_nat (u8_val b)).
  pose proof (u8_val_range b). split.
  - rewrite Z2Nat.id by lia. by rewrite u8_u8_val.
  - apply elem_of_seq. lia.
Qed.

Lemma byte_forall_bool (f : byte -> bool) b :
  forallb f all_bytes = true -> f b = true.
Proof.
  intros H. rewrite forallb_forall in H. apply H.
  apply list_elem_of_In, elem_of_all_bytes.
Qed.

(** ASCII literals. *)
Definition ascii_bytes (s : string) : bytes := String.list_byte_of_string s.

(** ** [usize] lengths and slices

    Lengths, capacities and offsets ([usize]) are non-negative [Z]; every
    buffer the code holds is resident, so its length is far below [2^64]. *)

Definition len {A} (l : list A) : Z := Z.of_nat (length l).

Definition ztake {A} (n : Z) (l : list A) : list A := take (Z.to_nat n) l.
Definition zdrop {A} (n : Z) (l : list A) : list A := drop (Z.to_nat n) l.

(** [l[a..b]]; [None] is the panic of an out-of-range slice. *)
Definition slice {A} (l : list A) (a b : Z) : option (list A) :=
  if (0 <=? a) && (a <=? b) && (b <=? len l)
  then Some (ztake (b - a) (zdrop a l)) else None.

(** [l[i]]; [None] is the panic of an out-of-range index. *)
Definition index {A} (l : list A) (i : Z) : option A :=
  if 0 <=? i then l !! Z.to_nat i else None.

(** [a - b] on [usize]: [None] where the subtraction would underflow. *)
Definition usize_sub (a b : Z) : option Z :=
  if b <=? a then Some (a - b) else None.

Definition usize_max : Z := 2 ^ 64 - 1.
Definition u64_max : Z := 2 ^ 64 - 1.
Definition u32_max : Z := 2 ^ 32 - 1.
Definition u32_wrap (z : Z) : Z := z mod 2 ^ 32.

(** [usize::checked_add]. *)
Definition checked_add (a b : Z) : option Z :=
  if a + b <=? usize_max then Some (a + b) else None.

(** [slice::starts_with]. *)
Fixpoint starts_with (topic prefix : bytes) : bool :=
  match prefix, topic with
  | [], _ => true
  | p :: ps, t :: ts => bool_decide (t = p) && starts_with ts ps
  | _ :: _, [] => false
  end.

(** [Iterator::position]. *)
Fixpoint position {A} (f : A -> bool) (l : list A) : option nat :=
  match l with
  | [] => None
  | x :: l => if f x then Some O else S <$> position f l
  end.

(** [Vec::remove] at an index that is in range. *)
Definition vec_remove {A} (i : nat) (l : list A) : list A :=
  take i l ++ drop (S i) l.

(** [Vec::insert] at an index that is in range. *)
Definition vec_insert {A} (i : nat) (x : A) (l : list A) : list A :=
  take i l ++ x :: drop i l.

(** ** Results *)

Inductive result (E A : Type) : Type :=
| Ok (a : A)
| Err (e : E).
Arguments Ok {E A} _.
Arguments Err {E A} _.

#[export] Instance Ok_inj {E A} : Inj (=) (=) (@Ok E A).
Proof. by intros x y [= ->]. Qed.

#[export] Instance result_eq_dec {E A} `{EqDecision E, EqDecision A} :
  EqDecision (result E A).
Proof. solve_decision. Defined.

(** [r?] followed by the rest of the function. *)
Definition res_bind {E A B} (r : result E A) (k : A -> result E B) : result E B :=
  match r with Ok a => k a | Err e => Err e end.

Notation "'try!' x := r 'in' k" := (res_bind r (fun x => k))
  (at level 10, x pattern, r at level 100, k at level 200) : mono_scope.
Open Scope mono_scope.

(** ** Big-endian integers: [to_be_bytes] and [from_be_bytes] *)

Fixpoint be_bytes (n : nat) (z : Z) : bytes :=
  match n with
  | O => []
  | S n => be_bytes n (z / 256) ++ [u8 z]
  end.

Definition be_val (bs : bytes) : Z := foldl (λ acc b, acc * 256 + u8_val b) 0 bs.

(** ** Tactics and hints *)

Create HintDb mono discriminated.

(** Split every boolean test of the goal and the context into its proposition. *)
Ltac bool_prop :=
  repeat match goal with
  | H : _ && _ = true |- _ => apply andb_true_iff in H; destruct H
  | H : _ && _ = false |- _ => apply andb_false_iff in H
  | H : _ || _ = true |- _ => apply orb_true_iff in H
  | H : _ || _ = false |- _ => apply orb_false_iff in H; destruct H
  | H : negb _ = true |- _ => apply negb_true_iff in H
  | H : negb _ = false |- _ => apply negb_false_iff in H
  | H : (_ <=? _) = true |- _ => apply Z.leb_le in H
  | H : (_ <=? _) = false |- _ => apply Z.leb_gt in H
  | H : (_ <? _) = true |- _ => apply Z.ltb_lt in H
  | H : (_ <? _) = false |- _ => apply Z.ltb_ge in H
  | H : (_ =? _) = true |- _ => apply Z.eqb_eq in H
  | H : (_ =? _) = false |- _ => apply Z.eqb_neq in H
  | H : bool_decide _ = true |- _ => apply bool_decide_eq_true in H
  | H : bool_decide _ = false |- _ => apply bool_decide_eq_false in H
  end.

(** Case analysis on the scrutinee of the first [if] of the goal. *)
Ltac case_if :=
  match goal with
  | |- context [if ?b then _ else _] => let E := fresh "E" in destruct b eqn:E
  end; bool_prop.

Ltac case_if_in H :=
  match type of H with
  | context [if ?b then _ else _] => let E := fresh "E" in destruct b eqn:E
  end; bool_prop.

(** ** Lists and slices *)

Section lists.
Context {A : Type}.
Implicit Types l k : list A.

Lemma len_nonneg l : 0 <= len l.
Proof. unfold len. lia. Qed.

Lemma len_app l k : len (l ++ k) = len l + len k.
Proof. unfold len. rewrite length_app. lia. Qed.

Lemma len_cons (x : A) l : len (x :: l) = 1 + len l.
Proof. unfold len. cbn [length]. lia. Qed.

Lemma len_nil : len (@nil A) = 0.
Proof. done. Qed.

Lemma len_zero_nil l : len l = 0 -> l = [].
Proof. destruct l; [done|]. rewrite len_cons. pose proof (len_nonneg l). lia. Qed.

Lemma len_ztake n l : 0 <= n <= len l -> len (ztake n l) = n.
Proof. unfold len, ztake. rewrite length_take. lia. Qed.

Lemma len_zdrop n l : 0 <= n <= len l -> len (zdrop n l) = len l - n.
Proof. unfold len, zdrop. rewrite length_drop. lia. Qed.

Lemma ztake_zdrop n l : ztake n l ++ zdrop n l = l.
Proof. apply take_drop. Qed.

Lemma ztake_0 l : ztake 0 l = [].
Proof. done. Qed.

Lemma zdrop_0 l : zdrop 0 l = l.
Proof. done. Qed.

Lemma ztake_ge n l : len l <= n -> ztake n l = l.
Proof. unfold len, ztake. intros. apply take_ge. lia. Qed.

Lemma zdrop_ge n l : len l <= n -> zdrop n l = [].
Proof. unfold len, zdrop. intros. apply drop_ge. lia. Qed.

Lemma ztake_app_le n l k : n <= len l -> ztake n (l ++ k) = ztake n l.
Proof. unfold len, ztake. intros. apply take_app_le. lia. Qed.

Lemma ztake_app_ge n l k : len l <= n -> ztake n (l ++ k) = l ++ ztake (n - len l) k.
Proof.
  unfold len, ztake. intros. rewrite take_app_ge by lia. do 2 f_equal. lia.
Qed.

Lemma zdrop_app_le n l k : n <= len l -> zdrop n (l ++ k) = zdrop n l ++ k.
Proof. unfold len, zdrop. intros. apply drop_app_le. lia. Qed.

Lemma zdrop_app_ge n l k : len l <= n -> zdrop n (l ++ k) = zdrop (n - len l) k.
Proof. unfold len, zdrop. intros. rewrite drop_app_ge by lia. f_equal. lia. Qed.

Lemma zdrop_zdrop n m l : 0 <= n -> 0 <= m -> zdrop n (zdrop m l) = zdrop (m + n) l.
Proof. unfold zdrop. intros. rewrite drop_drop. f_equal. lia. Qed.

Lemma slice_spec l a b :
  0 <= a -> a <= b -> b <= len l -> slice l a b = Some (ztake (b - a) (zdrop a l)).
Proof.
  intros. unfold slice.
  by rewrite !(proj2 (Z.leb_le _ _)) by lia.
Qed.

Lemma slice_app_mid l k m a b :
  a = len l -> b = len l + len k -> slice (l ++ k ++ m) a b = Some k.
Proof.
  intros -> ->. pose proof (len_nonneg l). pose proof (len_nonneg k). pose proof (len_nonneg m).
  rewrite slice_spec by (rewrite ?len_app; lia).
  rewrite zdrop_app_ge, Z.sub_diag, zdrop_0 by lia.
  by rewrite ztake_app_le, ztake_ge by lia.
Qed.

Lemma vec_remove_length i l : (i < length l)%nat -> length (vec_remove i l) = pred (length l).
Proof. intros. unfold vec_remove. rewrite length_app, length_take, length_drop. lia. Qed.

Lemma vec_remove_perm i x l : l !! i = Some x -> l ≡ₚ x :: vec_remove i l.
Proof.
  intros H. unfold vec_remove.
  rewrite <- (take_drop_middle l i x H) at 1. by rewrite <- Permutation_middle.
Qed.

Lemma position_Some (f : A -> bool) l i :
  position f l = Some i -> exists x, l !! i = Some x /\ f x = true.
Proof.
  revert i. induction l as [|x l IH]; intros i; cbn; [done|].
  destruct (f x) eqn:E.
  - intros [= <-]. eauto.
  - destruct (position f l) as [j|]; [|done]. intros [= <-]. cbn. by apply IH.
Qed.

Lemma position_None (f : A -> bool) l :
  position f l = None -> forall x, x ∈ l -> f x = false.
Proof.
  induction l as [|x l IH]; cbn; [set_solver|].
  destruct (f x) eqn:E; [done|]. destruct (position f l); [done|].
  intros _ y [->|?]%elem_of_cons; [done|]. by apply IH.
Qed.

Lemma len_vec_insert i (x : A) l : len (vec_insert i x l) = 1 + len l.
Proof.
  unfold vec_insert. rewrite len_app, len_cons.
  unfold len. rewrite length_take, length_drop. lia.
Qed.
End lists.

Create Rewrite HintDb len.
#[export] Hint Rewrite @len_app @len_cons @len_nil : len.

(** Arithmetic about lengths. *)
Ltac len_lia :=
  autorewrite with len in *;
  repeat match goal with
  | |- context [len ?l] => lazymatch goal with
      | _ : 0 <= len l |- _ => fail | _ => pose proof (len_nonneg l) end
  | _ : context [len ?l] |- _ => lazymatch goal with
      | _ : 0 <= len l |- _ => fail | _ => pose proof (len_nonneg l) end
  end; lia.

Lemma starts_with_spec topic prefix :
  starts_with topic prefix = true <-> prefix `prefix_of` topic.
Proof.
  revert topic. induction prefix as [|p ps IH]; intros [|t ts]; cbn.
  - split; [intros _; apply prefix_nil|done].
  - split; [intros _; apply prefix_nil|done].
  - split; [done|]. intros H. by apply prefix_nil_not in H.
  - rewrite andb_true_iff, bool_decide_eq_true, IH. split.
    + intros [-> ?]. by apply prefix_cons.
    + intros H. split; [by apply prefix_cons_inv_1 in H|by apply prefix_cons_inv_2 in H].
Qed.

Lemma starts_with_app l k : starts_with (l ++ k) l = true.
Proof. apply starts_with_spec. by exists k. Qed.

(** ** Big-endian round trips *)

Lemma length_be_bytes n z : length (be_bytes n z) = n.
Proof. revert z. induction n; intros; cbn; [done|]. rewrite length_app, IHn. cbn. lia. Qed.

Lemma len_be_bytes n z : len (be_bytes n z) = Z.of_nat n.
Proof. unfold len. by rewrite length_be_bytes. Qed.

Lemma be_val_snoc bs b : be_val (bs ++ [b]) = be_val bs * 256 + u8_val b.
Proof. unfold be_val. by rewrite foldl_snoc. Qed.

Lemma be_val_be_bytes n z : 0 <= z < 256 ^ Z.of_nat n -> be_val (be_bytes n z) = z.
Proof.
  revert z. induction n as [|n IH]; intros z Hz.
  - change (256 ^ Z.of_nat 0) with 1 in Hz. cbn. lia.
  - cbn [be_bytes]. rewrite be_val_snoc, u8_val_u8, IH.
    + pose proof (Z.div_mod z 256). lia.
    + rewrite Nat2Z.inj_succ, Z.pow_succ_r in Hz by lia.
      split; [apply Z.div_pos; lia|]. apply Z.div_lt_upper_bound; lia.
Qed.

Lemma be_val_bound bs : 0 <= be_val bs < 256 ^ len bs.
Proof.
  induction bs as [|b bs IH] using rev_ind; [by cbn|].
  rewrite be_val_snoc. pose proof (u8_val_range b).
  replace (len (bs ++ [b])) with (Z.succ (len bs)) by len_lia.
  rewrite Z.pow_succ_r by apply len_nonneg. lia.
Qed.

Lemma be_bytes_be_val bs : be_bytes (length bs) (be_val bs) = bs.
Proof.
  induction bs as [|b bs IH] using rev_ind; [done|].
  replace (length (bs ++ [b])) with (S (length bs)) by (rewrite length_app; cbn; lia).
  cbn [be_bytes]. rewrite be_val_snoc. pose proof (u8_val_range b) as Hb.
  assert (Hdiv : (be_val bs * 256 + u8_val b) / 256 = be_val bs).
  { rewrite Z.div_add_l by lia. rewrite (Z.div_small (u8_val b) 256) by lia. lia. }
  assert (Hmod : u8 (be_val bs * 256 + u8_val b) = b).
  { apply (inj u8_val). rewrite u8_val_u8, Z.add_comm, Z_mod_plus_full. by apply Z.mod_small. }
  by rewrite Hdiv, Hmod, IH.
Qed.

(** ** UTF-8 validity, as [String::from_utf8] and [str::from_utf8] decide it *)

Definition in_range (lo hi : Z) (b : byte) : bool := (lo <=? u8_val b) && (u8_val b <=? hi).

(** The well-formed byte sequences of the Unicode standard, table 3-7. *)
Fixpoint utf8_valid (bs : bytes) : bool :=
  match bs with
  | [] => true
  | b :: bs1 =>
      if in_range 0x00 0x7F b then utf8_valid bs1
      else match bs1 with
      | c1 :: bs2 =>
          if in_range 0xC2 0xDF b then in_range 0x80 0xBF c1 && utf8_valid bs2
          else match bs2 with
          | c2 :: bs3 =>
              if (in_range 0xE0 0xE0 b && in_range 0xA0 0xBF c1)
                 || (in_range 0xE1 0xEC b && in_range 0x80 0xBF c1)
                 || (in_range 0xED 0xED b && in_range 0x80 0x9F c1)
                 || (in_range 0xEE 0xEF b && in_range 0x80 0xBF c1)
              then in_range 0x80 0xBF c2 && utf8_valid bs3
              else match bs3 with
              | c3 :: bs4 =>
                  ((in_range 0xF0 0xF0 b && in_range 0x90 0xBF c1)
                   || (in_range 0xF1 0xF3 b && in_range 0x80 0xBF c1)
                   || (in_range 0xF4 0xF4 b && in_range 0x80 0x8F c1))
                  && in_range 0x80 0xBF c2 && in_range 0x80 0xBF c3 && utf8_valid bs4
              | [] => false
              end
          | [] => false
          end
      | [] => false
      end
  end.

Lemma utf8_valid_ascii bs : forallb (in_range 0x00 0x7F) bs = true -> utf8_valid bs = true.
Proof.
  induction bs as [|b bs IH]; cbn; [done|]. intros H. bool_prop. rewrite H. by apply IH.
Qed.
