(* ===== verification/SegBuffer.v ===== *)
(** * The segmented receive buffer

    [SegmentedBuffer] of monocoque-core/src/buffer.rs: a queue of non-empty
    chunks with a cached total length.  The specification of the buffer is the
    flat byte string it holds, [flat]; every operation is shown to implement
    the corresponding list operation, on the single-segment fast path and on
    the copying slow path alike, and never to panic within its contract. *)

From S2P Require Import Prelude.

Record SegmentedBuffer := mk_segbuf {
  segs : list bytes;
  sb_len : Z;
}.

Definition segbuf_new : SegmentedBuffer := mk_segbuf [] 0.

Definition segbuf_len (b : SegmentedBuffer) : Z := sb_len b.

Definition segbuf_is_empty (b : SegmentedBuffer) : bool := sb_len b =? 0.

Definition front_chunk (b : SegmentedBuffer) : bytes :=
  match segs b with
  | [] => []
  | s :: _ => s
  end.

Definition push (b : SegmentedBuffer) (bs : bytes) : SegmentedBuffer :=
  match bs with
  | [] => b
  | _ => mk_segbuf (segs b ++ [bs]) (sb_len b + len bs)
  end.

(** The loop of [copy_prefix]: the bytes written at the front of [dst]. *)
Fixpoint copy_prefix_loop (ss : list bytes) (remaining : Z) : bytes :=
  match ss with
  | [] => []
  | seg :: ss =>
      if remaining =? 0 then []
      else let take := Z.min remaining (len seg) in
           ztake take seg ++ copy_prefix_loop ss (remaining - take)
  end.

(** [copy_prefix n dst]: the new contents of [dst], or [None] for [false]. *)
Definition copy_prefix (b : SegmentedBuffer) (n : Z) (dst : bytes) : option bytes :=
  if (sb_len b <? n) || (len dst <? n) then None
  else let out := copy_prefix_loop (segs b) n in
       Some (out ++ zdrop (len out) dst).

Fixpoint advance_loop (ss : list bytes) (n : Z) : list bytes :=
  if n <=? 0 then ss
  else match ss with
       | [] => []
       | front :: rest =>
           if n <? len front then zdrop n front :: rest
           else advance_loop rest (n - len front)
       end.

(** [None] is the panic of the assertion [n <= self.len]. *)
Definition advance (b : SegmentedBuffer) (n : Z) : option SegmentedBuffer :=
  if n <=? sb_len b
  then Some (mk_segbuf (advance_loop (segs b) n) (sb_len b - n))
  else None.

(** The copying loop of [take_bytes]; [None] is the panic of [expect] on an
    empty queue (or the fuel running out, which [take_bytes_spec] excludes). *)
Fixpoint take_loop (fuel : nat) (ss : list bytes) (blen : Z) (remaining : Z) (out : bytes)
    : option (bytes * SegmentedBuffer) :=
  match fuel with
  | O => None
  | S fuel =>
      if remaining <=? 0 then Some (out, mk_segbuf ss blen)
      else match ss with
           | [] => None
           | seg :: rest =>
               let take := Z.min remaining (len seg) in
               let ss' := if take <? len seg then zdrop take seg :: rest else rest in
               take_loop fuel ss' (blen - take) (remaining - take) (out ++ ztake take seg)
           end
  end.

(** [take_bytes n]: outer [None] is a panic, inner [None] the returned [None]. *)
Definition take_bytes (b : SegmentedBuffer) (n : Z)
    : option (option bytes * SegmentedBuffer) :=
  if n =? 0 then Some (Some [], b)
  else if sb_len b <? n then Some (None, b)
  else match segs b with
       | [] => Some (None, b)
       | front :: rest =>
           if n <=? len front then
             if len front =? n then Some (Some front, mk_segbuf rest (sb_len b - n))
             else
               let front' := zdrop n front in
               let ss := if len front' =? 0 then rest else front' :: rest in
               Some (Some (ztake n front), mk_segbuf ss (sb_len b - n))
           else
             '(out, b') ← take_loop (S (length (segs b))) (segs b) (sb_len b) n [];
             Some (Some out, b')
       end.

(** [take_bytes_after_available]: [None] is one of its three panics. *)
Definition take_bytes_after_available (b : SegmentedBuffer) (skip n : Z)
    : option (bytes * SegmentedBuffer) :=
  total ← checked_add skip n;
  if total <=? sb_len b then
    if n =? 0 then
      b' ← advance b skip; Some ([], b')
    else match segs b with
         | [] => None
         | front :: rest =>
             if total <=? len front then
               let front1 := zdrop skip front in
               let out := ztake n front1 in
               let front2 := zdrop n front1 in
               let ss := if len front2 =? 0 then rest else front2 :: rest in
               Some (out, mk_segbuf ss (sb_len b - total))
             else
               b1 ← advance b skip;
               '(o, b2) ← take_bytes b1 n;
               out ← o;
               Some (out, b2)
         end
  else None.

Definition take_bytes_after (b : SegmentedBuffer) (skip n : Z)
    : option (option bytes * SegmentedBuffer) :=
  match checked_add skip n with
  | None => Some (None, b)
  | Some total =>
      if sb_len b <? total then Some (None, b)
      else '(out, b') ← take_bytes_after_available b skip n; Some (Some out, b')
  end.

(** ** Specification *)

(** The byte string the buffer holds. *)
Definition flat (b : SegmentedBuffer) : bytes := concat (segs b).

(** The cached length is exact and no segment is empty. *)
Record segbuf_wf (b : SegmentedBuffer) : Prop := {
  wf_len : sb_len b = len (flat b);
  wf_segs : Forall (λ s, s ≠ []) (segs b);
}.

Lemma segbuf_new_wf : segbuf_wf segbuf_new.
Proof. by split. Qed.

Lemma flat_cons s ss n : flat (mk_segbuf (s :: ss) n) = s ++ concat ss.
Proof. done. Qed.

Lemma flat_push b bs : flat (push b bs) = flat b ++ bs.
Proof.
  unfold flat, push. destruct bs; cbn; [by rewrite app_nil_r|].
  by rewrite concat_app, concat_cons, concat_nil, app_nil_r.
Qed.

Lemma push_wf b bs : segbuf_wf b -> segbuf_wf (push b bs).
Proof.
  intros [Hl Hs]. pose proof (flat_push b bs) as Hf. split.
  - rewrite Hf. unfold push. destruct bs; cbn [sb_len]; len_lia.
  - unfold push. destruct bs; [done|]. cbn. by apply Forall_app_2; [|constructor].
Qed.

Lemma nonempty_len (s : bytes) : s ≠ [] -> 0 < len s.
Proof. destruct s; [done|]. rewrite len_cons. len_lia. Qed.

Lemma len_pos_nonempty (s : bytes) : 0 < len s -> s ≠ [].
Proof. by destruct s. Qed.

#[export] Hint Resolve segbuf_new_wf push_wf nonempty_len len_pos_nonempty : mono.

(** A chunk that is split keeps a non-empty tail exactly when it is not exhausted. *)
Lemma split_front_wf (front : bytes) rss n :
  0 <= n < len front -> Forall (λ s, s ≠ []) rss ->
  Forall (λ s, s ≠ []) (zdrop n front :: rss).
Proof.
  intros. constructor; [|done]. apply len_pos_nonempty. rewrite len_zdrop by lia. lia.
Qed.

Lemma advance_loop_concat ss n :
  0 <= n <= len (concat ss) -> concat (advance_loop ss n) = zdrop n (concat ss).
Proof.
  revert n. induction ss as [|s ss IH]; intros n Hn; cbn.
  - case_if; by destruct (Z.to_nat n) eqn:?; unfold zdrop; rewrite drop_nil.
  - rewrite concat_cons in Hn. case_if.
    { assert (n = 0) as -> by lia. done. }
    case_if; cbn.
    + rewrite zdrop_app_le by lia. done.
    + rewrite zdrop_app_ge by lia. apply IH. len_lia.
Qed.

Lemma advance_loop_segs ss n :
  0 <= n -> Forall (λ s, s ≠ []) ss -> Forall (λ s, s ≠ []) (advance_loop ss n).
Proof.
  revert n. induction ss as [|s ss IH]; intros n Hn Hss; cbn; case_if; try done.
  apply Forall_cons_1 in Hss as [Hs Hss]. case_if.
  - by apply split_front_wf.
  - apply IH; [lia|done].
Qed.

Lemma advance_spec b n :
  segbuf_wf b -> 0 <= n <= len (flat b) ->
  exists b', advance b n = Some b' /\ flat b' = zdrop n (flat b) /\ segbuf_wf b'.
Proof.
  intros [Hl Hs] Hn. unfold advance. rewrite (proj2 (Z.leb_le _ _)) by lia.
  eexists. split; [done|].
  assert (Hf : flat (mk_segbuf (advance_loop (segs b) n) (sb_len b - n)) = zdrop n (flat b))
    by by apply advance_loop_concat.
  split; [done|]. split; cbn [sb_len segs].
  - rewrite Hf, len_zdrop; lia.
  - apply advance_loop_segs; [lia|done].
Qed.

(** The copying loop takes the first [remaining] bytes of the queue. *)
Lemma take_loop_spec fuel ss blen remaining out :
  (length ss < fuel)%nat -> Forall (λ s, s ≠ []) ss ->
  blen = len (concat ss) -> 0 <= remaining <= len (concat ss) ->
  exists b', take_loop fuel ss blen remaining out = Some (out ++ ztake remaining (concat ss), b') /\
    flat b' = zdrop remaining (concat ss) /\ segbuf_wf b'.
Proof.
  revert ss blen remaining out. induction fuel as [|fuel IH]; intros ss blen remaining out Hf Hss -> Hr; [lia|].
  cbn [take_loop]. case_if.
  { assert (remaining = 0) as -> by lia. rewrite ztake_0, app_nil_r. eexists. by split_and!. }
  destruct ss as [|seg rest]; [cbn in Hr; len_lia|].
  apply Forall_cons_1 in Hss as [Hseg Hrest]. rewrite concat_cons in Hr |- *. cbn [length] in Hf.
  destruct (decide (remaining < len seg)) as [Hlt|Hge].
  - rewrite (Z.min_l remaining (len seg)) by lia. rewrite (proj2 (Z.ltb_lt _ _)) by lia.
    destruct fuel as [|fuel]; [lia|]. cbn [take_loop]. rewrite Z.sub_diag. cbn.
    rewrite ztake_app_le by lia. eexists. split; [done|].
    rewrite zdrop_app_le by lia. split; [done|]. split.
    + rewrite flat_cons, !len_app, len_zdrop by lia. cbn [sb_len]. len_lia.
    + apply split_front_wf; [lia|done].
  - rewrite (Z.min_r remaining (len seg)) by lia. rewrite (proj2 (Z.ltb_ge _ _)) by lia.
    destruct (IH rest (len (seg ++ concat rest) - len seg) (remaining - len seg) (out ++ ztake (len seg) seg))
      as (b' & -> & Hfl & Hwf); [lia|done|len_lia|len_lia|].
    exists b'. rewrite ztake_app_ge, zdrop_app_ge, (ztake_ge (len seg) seg), app_assoc by lia. done.
Qed.

(** [take_bytes] returns [None], leaving the buffer alone, exactly when fewer
    than [n] bytes are held; otherwise it splits off the first [n] bytes. *)
Lemma take_bytes_spec b n :
  segbuf_wf b -> 0 <= n ->
  if n <=? len (flat b)
  then exists b', take_bytes b n = Some (Some (ztake n (flat b)), b') /\
         flat b' = zdrop n (flat b) /\ segbuf_wf b'
  else take_bytes b n = Some (None, b).
Proof.
  intros Hwf Hn. pose proof Hwf as [Hl Hs]. unfold take_bytes.
  destruct (n =? 0) eqn:E0; bool_prop.
  { subst n. rewrite (proj2 (Z.leb_le _ _)) by len_lia. by exists b. }
  rewrite Hl. case_if; [|by rewrite (proj2 (Z.ltb_lt _ _)) by lia].
  rewrite (proj2 (Z.ltb_ge _ _)) by lia.
  unfold flat in *. destruct (segs b) as [|front rest] eqn:Eb; [cbn in *; len_lia|].
  apply Forall_cons_1 in Hs as [Hf Hr]. rewrite concat_cons in *.
  destruct (n <=? len front) eqn:E1; bool_prop.
  - rewrite ztake_app_le, zdrop_app_le by lia.
    destruct (len front =? n) eqn:E2; bool_prop.
    + eexists. split; [by rewrite ztake_ge by lia|]. rewrite zdrop_ge by lia.
      split; [done|]. split; [unfold flat; cbn; len_lia|done].
    + rewrite len_zdrop, (proj2 (Z.eqb_neq _ _)) by lia. eexists. split; [done|]. split; [done|].
      split; [rewrite flat_cons, !len_app, len_zdrop by lia; cbn [sb_len]; len_lia|].
      apply split_front_wf; [lia|done].
  - destruct (take_loop_spec (S (length (front :: rest))) (front :: rest) (len (front ++ concat rest)) n [])
      as (b' & -> & Hfl & Hwf'); [lia|by constructor|done|rewrite concat_cons; lia|].
    cbn. by exists b'.
Qed.

(** Skipping then taking is a slice of the held bytes, whichever path is taken. *)
Lemma take_bytes_after_available_spec b skip n :
  segbuf_wf b -> 0 <= skip -> 0 <= n -> skip + n <= len (flat b) -> skip + n <= usize_max ->
  exists b', take_bytes_after_available b skip n = Some (ztake n (zdrop skip (flat b)), b') /\
    flat b' = zdrop (skip + n) (flat b) /\ segbuf_wf b'.
Proof.
  intros Hwf Hs Hn Htot Hmax. pose proof Hwf as [Hl Hss].
  unfold take_bytes_after_available, checked_add.
  rewrite (proj2 (Z.leb_le _ _)) by lia. cbn [mbind option_bind].
  rewrite (proj2 (Z.leb_le _ _)) by lia.
  destruct (n =? 0) eqn:E0; bool_prop.
  { subst n. destruct (advance_spec b skip Hwf) as (b' & -> & Hfl & Hwf'); [lia|].
    exists b'. by rewrite Z.add_0_r. }
  destruct (segs b) as [|front rest] eqn:Eb.
  { unfold flat in Htot. rewrite Eb in Htot. cbn in Htot. len_lia. }
  destruct (skip + n <=? len front) eqn:E1; bool_prop.
  - assert (Hfl : flat b = front ++ concat rest) by (unfold flat; by rewrite Eb).
    apply Forall_cons_1 in Hss as [Hf Hr]. rewrite Hfl in *.
    rewrite zdrop_zdrop, len_zdrop, (zdrop_app_le skip), ztake_app_le by (rewrite ?len_zdrop; lia).
    rewrite zdrop_app_le by lia. eexists. split; [done|].
    destruct (len front - (skip + n) =? 0) eqn:E2; bool_prop.
    + rewrite zdrop_ge by lia. split; [done|]. split; [unfold flat; cbn; len_lia|done].
    + split; [done|]. split.
      * rewrite flat_cons, !len_app, len_zdrop by lia. cbn [sb_len]. len_lia.
      * apply split_front_wf; [lia|done].
  - destruct (advance_spec b skip Hwf) as (b1 & -> & Hf1 & Hwf1); [lia|]. cbn [mbind option_bind].
    pose proof (take_bytes_spec b1 n Hwf1 Hn) as Htake.
    rewrite Hf1, len_zdrop, (proj2 (Z.leb_le _ _)) in Htake by lia.
    destruct Htake as (b2 & -> & Hf2 & Hwf2). cbn. exists b2.
    by rewrite Hf2, zdrop_zdrop by lia.
Qed.

Lemma copy_prefix_loop_spec ss n :
  0 <= n <= len (concat ss) -> copy_prefix_loop ss n = ztake n (concat ss).
Proof.
  revert n. induction ss as [|s ss IH]; intros n Hn; cbn.
  - cbn in Hn. unfold ztake. by rewrite take_nil.
  - rewrite concat_cons in Hn. case_if; [subst n; done|].
    destruct (decide (n < len s)).
    + rewrite Z.min_l, ztake_app_le, Z.sub_diag, IH by len_lia. by rewrite ztake_0, app_nil_r.
    + rewrite Z.min_r, ztake_app_ge, (ztake_ge (len s)), IH by len_lia. done.
Qed.

(** A successful [copy_prefix] overwrites the front of [dst] with the first
    [n] held bytes and leaves the rest of [dst]. *)
Lemma copy_prefix_spec b n dst :
  segbuf_wf b -> 0 <= n <= len (flat b) -> n <= len dst ->
  copy_prefix b n dst = Some (ztake n (flat b) ++ zdrop n dst).
Proof.
  intros [Hl _] Hn Hd. unfold copy_prefix.
  rewrite !(proj2 (Z.ltb_ge _ _)) by lia. cbn [orb].
  unfold flat in *. rewrite copy_prefix_loop_spec by done. by rewrite len_ztake by lia.
Qed.

Lemma front_chunk_prefix b : exists rest, flat b = front_chunk b ++ rest.
Proof.
  unfold flat, front_chunk. destruct (segs b) as [|s ss]; cbn; eauto.
Qed.

(** ** The buffer as a byte queue

    One operation of the buffer's interface with what it returns, on the
    implementation and on the byte string; [None] is a panic. *)

Inductive buf_op :=
| PushOp (bs : bytes)
| AdvanceOp (n : Z)
| CopyPrefixOp (n : Z) (dst : bytes)
| TakeOp (n : Z)
| TakeAfterOp (skip n : Z)
| TakeAfterAvailableOp (skip n : Z).

Inductive buf_obs :=
| ObsUnit
| ObsBytes (o : option bytes).

Definition buf_step (b : SegmentedBuffer) (op : buf_op) : option (buf_obs * SegmentedBuffer) :=
  match op with
  | PushOp bs => Some (ObsUnit, push b bs)
  | AdvanceOp n => b' ← advance b n; Some (ObsUnit, b')
  | CopyPrefixOp n dst => Some (ObsBytes (copy_prefix b n dst), b)
  | TakeOp n => '(o, b') ← take_bytes b n; Some (ObsBytes o, b')
  | TakeAfterOp skip n => '(o, b') ← take_bytes_after b skip n; Some (ObsBytes o, b')
  | TakeAfterAvailableOp skip n =>
      '(o, b') ← take_bytes_after_available b skip n; Some (ObsBytes (Some o), b')
  end.

Definition queue_step (l : bytes) (op : buf_op) : option (buf_obs * bytes) :=
  match op with
  | PushOp bs => Some (ObsUnit, l ++ bs)
  | AdvanceOp n => if n <=? len l then Some (ObsUnit, zdrop n l) else None
  | CopyPrefixOp n dst =>
      Some (ObsBytes (if (n <=? len l) && (n <=? len dst)
                      then Some (ztake n l ++ zdrop n dst) else None), l)
  | TakeOp n =>
      if n <=? len l then Some (ObsBytes (Some (ztake n l)), zdrop n l)
      else Some (ObsBytes None, l)
  | TakeAfterOp skip n =>
      if (skip + n <=? usize_max) && (skip + n <=? len l)
      then Some (ObsBytes (Some (ztake n (zdrop skip l))), zdrop (skip + n) l)
      else Some (ObsBytes None, l)
  | TakeAfterAvailableOp skip n =>
      if (skip + n <=? usize_max) && (skip + n <=? len l)
      then Some (ObsBytes (Some (ztake n (zdrop skip l))), zdrop (skip + n) l)
      else None
  end.

(** The arguments are [usize] values. *)
Definition buf_op_ok (op : buf_op) : Prop :=
  match op with
  | PushOp _ => True
  | AdvanceOp n | CopyPrefixOp n _ | TakeOp n => 0 <= n
  | TakeAfterOp skip n | TakeAfterAvailableOp skip n => 0 <= skip /\ 0 <= n
  end.

Fixpoint run_ops {S} (step : S -> buf_op -> option (buf_obs * S)) (s : S) (ops : list buf_op)
    : option (list buf_obs * S) :=
  match ops with
  | [] => Some ([], s)
  | op :: ops =>
      '(o, s) ← step s op;
      '(os, s) ← run_ops step s ops;
      Some (o :: os, s)
  end.

Lemma take_bytes_after_unfold b skip n :
  segbuf_wf b -> 0 <= skip -> 0 <= n ->
  if (skip + n <=? usize_max) && (skip + n <=? len (flat b))
  then exists b', take_bytes_after_available b skip n = Some (ztake n (zdrop skip (flat b)), b') /\
    take_bytes_after b skip n = Some (Some (ztake n (zdrop skip (flat b))), b') /\
    flat b' = zdrop (skip + n) (flat b) /\ segbuf_wf b'
  else take_bytes_after_available b skip n = None /\ take_bytes_after b skip n = Some (None, b).
Proof.
  intros Hwf Hs Hn. pose proof Hwf as [Hl _].
  destruct (_ && _) eqn:E; bool_prop.
  - destruct (take_bytes_after_available_spec b skip n) as (b' & Ht & Hf & Hwf'); try done.
    exists b'. split_and!; try done.
    unfold take_bytes_after, checked_add.
    rewrite (proj2 (Z.leb_le _ _)), (proj2 (Z.ltb_ge _ _)), Ht by lia. done.
  - unfold take_bytes_after, take_bytes_after_available, checked_add.
    destruct (skip + n <=? usize_max); [|done]. destruct E as [E|E]; [done|]. bool_prop.
    cbn [mbind option_bind].
    by rewrite Hl, (proj2 (Z.leb_gt _ _)), (proj2 (Z.ltb_lt _ _)) by lia.
Qed.

(** One step of the buffer is one step of the byte queue. *)
Lemma buf_step_refines b op :
  segbuf_wf b -> buf_op_ok op ->
  match buf_step b op with
  | Some (o, b') => queue_step (flat b) op = Some (o, flat b') /\ segbuf_wf b'
  | None => queue_step (flat b) op = None
  end.
Proof.
  intros Hwf Hop. pose proof Hwf as [Hl _]. destruct op as [bs|n|n dst|n|skip n|skip n]; cbn in *.
  - split; [by rewrite flat_push|auto with mono].
  - destruct (decide (n <= len (flat b))).
    + destruct (advance_spec b n Hwf) as (b' & -> & Hf & ?); [lia|]. cbn.
      by rewrite Hf, (proj2 (Z.leb_le _ _)) by lia.
    + unfold advance. rewrite Hl, !(proj2 (Z.leb_gt _ _)) by lia. done.
  - split; [|done]. destruct (_ && _) eqn:E; bool_prop.
    + by rewrite copy_prefix_spec by (done || lia).
    + unfold copy_prefix. rewrite Hl. case_if; [done|]. destruct E; bool_prop; lia.
  - pose proof (take_bytes_spec b n Hwf Hop) as Ht. destruct (n <=? len (flat b)) eqn:E.
    + destruct Ht as (b' & -> & Hf & ?). cbn. by rewrite Hf.
    + by rewrite Ht.
  - destruct Hop as [Hk Hn]. pose proof (take_bytes_after_unfold b skip n Hwf Hk Hn) as Ht.
    destruct (_ && _); [|by destruct Ht as [_ ->]].
    destruct Ht as (b' & _ & -> & Hf & ?). cbn. by rewrite Hf.
  - destruct Hop as [Hk Hn]. pose proof (take_bytes_after_unfold b skip n Hwf Hk Hn) as Ht.
    destruct (_ && _); [|by destruct Ht as [-> _]].
    destruct Ht as (b' & -> & _ & Hf & ?). cbn. by rewrite Hf.
Qed.

(** C29: the segmented buffer refines a byte queue.  Starting from an empty
    buffer, any sequence of pushes, skips, prefix copies and takes returns the
    same results as on the flat byte string, panics exactly where that
    specification says so, and ends in a buffer holding the same bytes: how the
    bytes were segmented on arrival is never observable. *)
Theorem segbuf_refines_queue (ops : list buf_op) :
  Forall buf_op_ok ops ->
  prod_map id flat <$> run_ops buf_step segbuf_new ops = run_ops queue_step [] ops.
Proof.
  intros Hops.
  enough (forall b, segbuf_wf b ->
    prod_map id flat <$> run_ops buf_step b ops = run_ops queue_step (flat b) ops) as H
    by apply (H segbuf_new segbuf_new_wf).
  induction Hops as [|op ops Hop Hops IH]; intros b Hwf; [done|]. cbn.
  pose proof (buf_step_refines b op Hwf Hop) as Hstep.
  destruct (buf_step b op) as [[o b']|]; cbn.
  - destruct Hstep as [-> Hwf']. cbn. rewrite <- (IH b' Hwf').
    by destruct (run_ops buf_step b' ops) as [[os b'']|].
  - by rewrite Hstep.
Qed.

Lemma segbuf_refines_queue_witness :
  let ops := [PushOp (ascii_bytes "hhpay"); PushOp (ascii_bytes "loadtail");
              TakeAfterOp 2 7; TakeOp 4] in
  Forall buf_op_ok ops /\
  run_ops queue_step [] ops =
    Some ([ObsUnit; ObsUnit; ObsBytes (Some (ascii_bytes "payload"));
           ObsBytes (Some (ascii_bytes "tail"))], []).
Proof.
  cbn zeta.
  assert (H : Forall buf_op_ok [PushOp (ascii_bytes "hhpay"); PushOp (ascii_bytes "loadtail");
              TakeAfterOp 2 7; TakeOp 4]) by (repeat constructor; cbn; lia).
  split; [exact H|]. rewrite <- (segbuf_refines_queue _ H). vm_compute. reflexivity.
Defined.
