(* ===== verification/Codec.v ===== *)
(** * The ZMTP frame codec

    monocoque-zmtp/src/codec.rs: frames, the stateful decoder with its
    header-parsing and reassembly modes, and the frame encoders.

    The decoder is specified by [parse_frame], a stateless parser of one frame
    from a byte string.  [logical] is the byte string a decoder and its buffer
    still have to deliver; [decode_refines] says that a call of [decode] is a
    call of [parse_frame] on it. *)

From S2P Require Import Prelude.
From S2P Require Import SegBuffer.

Inductive ZmtpError :=
| Incomplete
| ReservedBits
| SizeTooLarge
| Protocol
| AuthenticationFailed.

#[export] Instance ZmtpError_eq_dec : EqDecision ZmtpError.
Proof. solve_decision. Defined.

Record ZmtpFrame := mk_frame {
  flags : byte;
  payload : bytes;
}.

#[export] Instance ZmtpFrame_eq_dec : EqDecision ZmtpFrame.
Proof. solve_decision. Defined.

(** [x & mask != 0] on a [u8]. *)
Definition has_bits (b : byte) (mask : Z) : bool := negb (Z.land (u8_val b) mask =? 0).

Definition more (f : ZmtpFrame) : bool := has_bits (flags f) 0x01.
Definition is_command (f : ZmtpFrame) : bool := has_bits (flags f) 0x04.

Record ZmtpDecoder := mk_decoder {
  pending_flags : option byte;
  expected_body_len : Z;
  staging : bytes;
  max_frame_size : Z;
}.

Definition default_max_frame_size : Z := 64 * 1024 * 1024.

Definition decoder_new : ZmtpDecoder := mk_decoder None 0 [] default_max_frame_size.

Definition decoder_with_max_frame_size (max : Z) : ZmtpDecoder := mk_decoder None 0 [] max.

Definition set_max_body_len (d : ZmtpDecoder) (max : option Z) : ZmtpDecoder :=
  mk_decoder (pending_flags d) (expected_body_len d) (staging d)
    (default default_max_frame_size max).

Definition has_more (d : ZmtpDecoder) : bool := bool_decide (is_Some (pending_flags d)).

(** The header's body length, read from [hdr] for a short frame and from the
    nine header bytes for a long one.  Outer [None] is a panic, [Ok None] the
    early [return Ok(None)]. *)
Definition decode_body_len (d : ZmtpDecoder) (src : SegmentedBuffer) (front hdr : bytes)
    (is_long : bool) : option (result ZmtpError (option Z)) :=
  if is_long then
    match (if 9 <=? len front then slice front 0 9 else copy_prefix src 9 hdr) with
    | None => Some (Ok None)
    | Some hdr =>
        buf ← slice hdr 1 9;
        let size := be_val buf in
        if 0x7FFFFFFFFFFFFFFF <? size then Some (Err SizeTooLarge)
        else if max_frame_size d <? size then Some (Err SizeTooLarge)
        else Some (Ok (Some size))
    end
  else
    b ← index hdr 1;
    let body_len := u8_val b in
    if max_frame_size d <? body_len then Some (Err SizeTooLarge)
    else Some (Ok (Some body_len)).

(** [decode]: [None] is a panic (an index, slice, assertion or [usize]
    subtraction failing); otherwise the returned value with the new states of
    the decoder and of the source buffer. *)
Definition decode (d : ZmtpDecoder) (src : SegmentedBuffer)
    : option (result ZmtpError (option ZmtpFrame) * ZmtpDecoder * SegmentedBuffer) :=
  match pending_flags d with
  | Some flags =>
      needed ← usize_sub (expected_body_len d) (len (staging d));
      let take := Z.min needed (segbuf_len src) in
      '(o, src) ← take_bytes src take;
      let staging' := match o with Some bs => staging d ++ bs | None => staging d end in
      if len staging' <? expected_body_len d then
        Some (Ok None, mk_decoder (Some flags) (expected_body_len d) staging' (max_frame_size d), src)
      else
        Some (Ok (Some (mk_frame flags staging')), mk_decoder None 0 [] (max_frame_size d), src)
  | None =>
      if segbuf_len src <? 2 then Some (Ok None, d, src) else
      let front := front_chunk src in
      let hdr := repeat Byte.x00 9 in
      match (if 2 <=? len front
             then h0 ← index front 0; h1 ← index front 1; Some (<[0%nat := h0]> (<[1%nat := h1]> hdr))
             else copy_prefix src 2 hdr) with
      | None => Some (Ok None, d, src)
      | Some hdr =>
          flags ← index hdr 0;
          if Z.land (u8_val flags) 0x05 =? 0x05 then Some (Err Protocol, d, src)
          else if has_bits flags 0xF8 then Some (Err ReservedBits, d, src)
          else
          let is_long := has_bits flags 0x02 in
          let header_len := if is_long then 9 else 2 in
          if segbuf_len src <? header_len then Some (Ok None, d, src) else
          r ← decode_body_len d src front hdr is_long;
          match r with
          | Err e => Some (Err e, d, src)
          | Ok None => Some (Ok None, d, src)
          | Ok (Some body_len) =>
              let total_len := header_len + body_len in
              if total_len <=? segbuf_len src then
                '(payload, src) ← take_bytes_after_available src header_len body_len;
                Some (Ok (Some (mk_frame flags payload)), d, src)
              else
                src ← advance src header_len;
                let available := Z.min (segbuf_len src) body_len in
                '(o, src) ← take_bytes src available;
                let staging' := match o with Some bs => bs | None => [] end in
                Some (Ok None, mk_decoder (Some flags) body_len staging' (max_frame_size d), src)
          end
      end
  end.

(** ** Encoders *)

(** [ZmtpFrame::data] and [ZmtpFrame::command]. *)
Definition frame_data (payload : bytes) (more : bool) : ZmtpFrame :=
  let f0 := if more then 0x01 else 0 in
  let f1 := if 255 <? len payload then Z.lor f0 0x02 else f0 in
  mk_frame (u8 f1) payload.

Definition frame_command (payload : bytes) : ZmtpFrame :=
  let f := if 255 <? len payload then Z.lor 0x04 0x02 else 0x04 in
  mk_frame (u8 f) payload.

(** [ZmtpFrame::encode]. *)
Definition encode (f : ZmtpFrame) : bytes :=
  let body_len := len (payload f) in
  let is_long := 256 <=? body_len in
  let fl := if is_long then u8 (Z.lor (u8_val (flags f)) 0x02)
            else u8 (Z.land (u8_val (flags f)) 0xFD) in
  [fl] ++ (if is_long then be_bytes 8 body_len else [u8 body_len]) ++ payload f.

(** The functions below append to the buffer they are given. *)
Definition write_frame_header (buf : bytes) (body_len : Z) (more : bool) : bytes * Z :=
  let is_long := 256 <=? body_len in
  let f0 := if more then Z.lor 0 0x01 else 0 in
  let f1 := if is_long then Z.lor f0 0x02 else f0 in
  let buf := buf ++ [u8 f1] in
  if is_long then (buf ++ be_bytes 8 body_len, 9)
  else (buf ++ [u8 body_len], 2).

Definition encode_single (part buf : bytes) : bytes :=
  let is_long := 256 <=? len part in
  let buf := if is_long then (buf ++ [u8 0x02]) ++ be_bytes 8 (len part)
             else buf ++ [u8 0x00; u8 (len part)] in
  buf ++ part.

(** The loop of [encode_multipart] from part [i] of [n]. *)
Fixpoint encode_multipart_loop (parts : list bytes) (i n : Z) (buf : bytes) : bytes :=
  match parts with
  | [] => buf
  | part :: parts =>
      let more := i <? n - 1 in
      let is_long := 256 <=? len part in
      let f0 := if more then Z.lor 0 0x01 else 0 in
      let f1 := if is_long then Z.lor f0 0x02 else f0 in
      let buf := buf ++ [u8 f1] in
      let buf := if is_long then buf ++ be_bytes 8 (len part) else buf ++ [u8 (len part)] in
      encode_multipart_loop parts (i + 1) n (buf ++ part)
  end.

Definition encode_multipart (msg : list bytes) (buf : bytes) : bytes :=
  match msg with
  | [] => buf
  | [part] => encode_single part buf
  | _ => encode_multipart_loop msg 0 (len msg) buf
  end.

(** ** Reference parser *)

Inductive parsed :=
| NeedMore
| Bad (e : ZmtpError)
| Parsed (f : ZmtpFrame) (rest : bytes).

(** Split a body of [n] bytes off [body]. *)
Definition parse_body (max : Z) (fl : byte) (n : Z) (body : bytes) : parsed :=
  if (0x7FFFFFFFFFFFFFFF <? n) || (max <? n) then Bad SizeTooLarge
  else if len body <? n then NeedMore
  else Parsed (mk_frame fl (ztake n body)) (zdrop n body).

(** A legal flags byte: not both COMMAND and MORE, reserved bits clear. *)
Definition check_flags (fl : byte) : option ZmtpError :=
  if Z.land (u8_val fl) 0x05 =? 0x05 then Some Protocol
  else if has_bits fl 0xF8 then Some ReservedBits else None.

(** One frame of ZMTP 3.x from a byte string. *)
Definition parse_frame (max : Z) (bs : bytes) : parsed :=
  match bs with
  | fl :: b1 :: tl =>
      match check_flags fl with
      | Some e => Bad e
      | None =>
          if has_bits fl 0x02 then
            if len tl <? 7 then NeedMore
            else parse_body max fl (be_val (b1 :: ztake 7 tl)) (zdrop 7 tl)
          else parse_body max fl (u8_val b1) tl
      end
  | _ => NeedMore
  end.

(** The header of a frame whose body has [n] bytes, for a given flags byte. *)
Definition header_of (fl : byte) (n : Z) : bytes :=
  fl :: (if has_bits fl 0x02 then be_bytes 8 n else [u8 n]).

(** The bytes a decoder and its buffer still have to deliver: in reassembly
    mode the consumed header and the staged bytes come first. *)
Definition logical (d : ZmtpDecoder) (src : SegmentedBuffer) : bytes :=
  match pending_flags d with
  | None => flat src
  | Some fl => header_of fl (expected_body_len d) ++ staging d ++ flat src
  end.

Lemma header_length fl n : (length (header_of fl n) <= 9)%nat.
Proof.
  unfold header_of. destruct (has_bits fl 2); cbn [length]; [|lia].
  pose proof (len_be_bytes 8 n) as E. unfold len in E. lia.
Qed.

Lemma logical_fuel d src : (length (logical d src) < length (flat src) + length (staging d) + 10)%nat.
Proof.
  unfold logical. destruct (pending_flags d) as [fl|]; [|lia]. rewrite !length_app.
  pose proof (header_length fl (expected_body_len d)). lia.
Qed.

(** In reassembly mode some of the announced body is missing, and the header
    that was consumed was legal and within the limit. *)
Definition decoder_wf (d : ZmtpDecoder) : Prop :=
  match pending_flags d with
  | None => expected_body_len d = 0 /\ staging d = []
  | Some fl =>
      check_flags fl = None /\
      len (staging d) < expected_body_len d <= max_frame_size d /\
      (if has_bits fl 0x02 then expected_body_len d <= 0x7FFFFFFFFFFFFFFF
       else expected_body_len d <= 255)
  end.

#[global] Arguments header_of : simpl never.
#[global] Arguments check_flags : simpl never.
#[global] Arguments has_bits : simpl never.
#[global] Arguments be_bytes : simpl never.
#[global] Arguments be_val : simpl never.

(** ** The decoder refines the reference parser *)

Section decode_idle.
Context (d : ZmtpDecoder) (src : SegmentedBuffer) (fl b1 : byte) (tl : bytes).
Context (Hwf : segbuf_wf src) (Hflat : flat src = fl :: b1 :: tl).

Let front := front_chunk src.

Lemma segbuf_len_flat : segbuf_len src = 2 + len tl.
Proof using Hwf Hflat. destruct Hwf as [Hl _]. unfold segbuf_len. rewrite Hl, Hflat. len_lia. Qed.

(** The first two header bytes, whichever path fetches them. *)
Lemma header_prefix :
  (if 2 <=? len front
   then h0 ← index front 0; h1 ← index front 1;
        Some (<[0%nat := h0]> (<[1%nat := h1]> (repeat Byte.x00 9)))
   else copy_prefix src 2 (repeat Byte.x00 9)) = Some (fl :: b1 :: repeat Byte.x00 7).
Proof using Hwf Hflat.
  destruct (front_chunk_prefix src) as [rest Hfr]. fold front in Hfr. rewrite Hflat in Hfr.
  case_if.
  - destruct front as [|x [|y fr]]; [by cbn in E|by cbn in E|].
    simplify_eq/=. done.
  - rewrite copy_prefix_spec; [|done|rewrite Hflat; len_lia|done]. by rewrite Hflat.
Qed.

Lemma long_body_len hdr :
  7 <= len tl -> len hdr = 9 ->
  decode_body_len d src front hdr true =
    Some (let size := be_val (b1 :: ztake 7 tl) in
          if 0x7FFFFFFFFFFFFFFF <? size then Err SizeTooLarge
          else if max_frame_size d <? size then Err SizeTooLarge
          else Ok (Some size)).
Proof using Hwf Hflat.
  intros Htl Hhdr. unfold decode_body_len.
  assert (Heq : (if 9 <=? len front then slice front 0 9 else copy_prefix src 9 hdr)
                = Some (fl :: b1 :: ztake 7 tl)).
  { assert (H9 : ztake 9 (flat src) = fl :: b1 :: ztake 7 tl) by (rewrite Hflat; done).
    case_if.
    - rewrite slice_spec by lia. rewrite <- H9.
      destruct (front_chunk_prefix src) as [rest ->]. fold front.
      by rewrite ztake_app_le by lia.
    - rewrite copy_prefix_spec; [|done|rewrite Hflat; len_lia|lia].
      rewrite H9, zdrop_ge, app_nil_r by lia. done. }
  rewrite Heq, slice_spec by (rewrite ?len_cons, ?len_ztake; lia). cbn [mbind option_bind].
  assert (Hb : ztake (9 - 1) (zdrop 1 (fl :: b1 :: ztake 7 tl)) = b1 :: ztake 7 tl).
  { change (zdrop 1 (fl :: b1 :: ztake 7 tl)) with (b1 :: ztake 7 tl).
    apply ztake_ge. rewrite len_cons, len_ztake; lia. }
  rewrite Hb. cbn zeta. by repeat case_if.
Qed.
End decode_idle.

(** Once the body length is known, [decode] finishes the frame or stages it. *)
Definition decode_finish (d : ZmtpDecoder) (src : SegmentedBuffer) (fl : byte) (header_len body_len : Z)
    : option (result ZmtpError (option ZmtpFrame) * ZmtpDecoder * SegmentedBuffer) :=
  if header_len + body_len <=? segbuf_len src then
    '(payload, src) ← take_bytes_after_available src header_len body_len;
    Some (Ok (Some (mk_frame fl payload)), d, src)
  else
    src ← advance src header_len;
    '(o, src) ← take_bytes src (Z.min (segbuf_len src) body_len);
    Some (Ok None, mk_decoder (Some fl) body_len (match o with Some bs => bs | None => [] end)
                     (max_frame_size d), src).

(** What a call of [decode] must do, according to the reference parser. *)
Definition decode_post (d : ZmtpDecoder) (src : SegmentedBuffer) (p : parsed)
    (out : option (result ZmtpError (option ZmtpFrame) * ZmtpDecoder * SegmentedBuffer)) : Prop :=
  exists r d' src', out = Some (r, d', src') /\
    decoder_wf d' /\ segbuf_wf src' /\ max_frame_size d' = max_frame_size d /\
    match p with
    | NeedMore => r = Ok None /\ logical d' src' = logical d src
    | Bad e => r = Err e /\ d' = d /\ src' = src
    | Parsed f rest => r = Ok (Some f) /\ pending_flags d' = None /\ logical d' src' = rest
    end.

Lemma decode_finish_post d src fl header body_len body :
  decoder_wf d -> pending_flags d = None -> segbuf_wf src ->
  flat src = header ++ body -> header = header_of fl body_len ->
  check_flags fl = None ->
  0 <= body_len <= 0x7FFFFFFFFFFFFFFF -> body_len <= max_frame_size d ->
  (has_bits fl 0x02 = false -> body_len <= 255) ->
  decode_post d src (if len body <? body_len then NeedMore
                     else Parsed (mk_frame fl (ztake body_len body)) (zdrop body_len body))
    (decode_finish d src fl (len header) body_len).
Proof.
  intros Hd Hp Hwf Hflat Hhdr Hfl Hn Hmax Hshort. pose proof Hwf as [Hl _].
  assert (Hlog : logical d src = header ++ body) by (unfold logical; by rewrite Hp).
  unfold decode_post, decode_finish, segbuf_len. rewrite Hl, Hflat, len_app.
  pose proof (len_nonneg header). pose proof (len_nonneg body).
  assert (Hh : len header <= 9).
  { subst header. unfold header_of. rewrite len_cons.
    destruct (has_bits fl 2); [rewrite len_be_bytes; lia|len_lia]. }
  destruct (len body <? body_len) eqn:E; bool_prop.
  - rewrite (proj2 (Z.leb_gt _ _)) by lia.
    destruct (advance_spec src (len header) Hwf) as (s1 & -> & Hf1 & Hwf1).
    { rewrite Hflat. len_lia. }
    rewrite Hflat, zdrop_app_ge, Z.sub_diag, zdrop_0 in Hf1 by lia.
    cbn [mbind option_bind]. pose proof (wf_len _ Hwf1) as Hl1. rewrite Hf1 in Hl1.
    rewrite Hl1, Z.min_l by lia.
    pose proof (take_bytes_spec s1 (len body) Hwf1 ltac:(lia)) as Ht.
    rewrite Hf1, Z.leb_refl, ztake_ge, zdrop_ge in Ht by lia.
    destruct Ht as (s2 & -> & Hf2 & Hwf2). cbn [mbind option_bind].
    eexists _, _, _. split; [done|]. split_and!; try done.
    + unfold decoder_wf; cbn. split_and!; try done; try lia. destruct (has_bits fl 2) eqn:Hb; [lia|by apply Hshort].
    + unfold logical at 1; cbn. by rewrite Hlog, Hf2, app_nil_r, <- Hhdr.
  - rewrite (proj2 (Z.leb_le _ _)) by lia.
    destruct (take_bytes_after_available_spec src (len header) body_len Hwf)
      as (s1 & -> & Hf1 & Hwf1); [lia|lia|rewrite Hflat; len_lia|unfold usize_max; lia|].
    rewrite Hflat, zdrop_app_ge, Z.sub_diag, zdrop_0 by lia.
    rewrite Hflat, zdrop_app_ge, Z.add_simpl_l in Hf1 by lia.
    eexists _, d, _. split; [done|]. split_and!; try done.
    unfold logical. by rewrite Hp.
Qed.

Lemma header_of_short fl b : has_bits fl 0x02 = false -> header_of fl (u8_val b) = [fl; b].
Proof. intros H. unfold header_of. by rewrite H, u8_u8_val. Qed.

Lemma header_of_long fl b tl :
  has_bits fl 0x02 = true -> 7 <= len tl ->
  header_of fl (be_val (b :: ztake 7 tl)) = fl :: b :: ztake 7 tl.
Proof.
  intros H Ht. unfold header_of. rewrite H. f_equal.
  pose proof (len_ztake 7 tl ltac:(lia)) as Hlen.
  replace 8%nat with (length (b :: ztake 7 tl)); [apply be_bytes_be_val|].
  unfold len in Hlen. cbn. lia.
Qed.

(** Reassembly mode. *)
Lemma decode_pending_post d src fl :
  decoder_wf d -> pending_flags d = Some fl -> segbuf_wf src ->
  decode_post d src
    (let body := staging d ++ flat src in
     if len body <? expected_body_len d then NeedMore
     else Parsed (mk_frame fl (ztake (expected_body_len d) body)) (zdrop (expected_body_len d) body))
    (decode d src).
Proof.
  intros Hd Hp Hwf. pose proof Hwf as [Hl _].
  unfold decoder_wf in Hd. rewrite Hp in Hd. destruct Hd as (Hfl & Hst & Hsz).
  unfold decode_post, decode. rewrite Hp. unfold usize_sub, segbuf_len.
  rewrite (proj2 (Z.leb_le _ _)), Hl by lia. cbn [mbind option_bind]. cbn zeta.
  set (n := expected_body_len d) in *. set (st := staging d) in *.
  set (k := Z.min (n - len st) (len (flat src))).
  pose proof (len_nonneg (flat src)). pose proof (len_nonneg st).
  pose proof (take_bytes_spec src k Hwf ltac:(lia)) as Ht.
  rewrite (proj2 (Z.leb_le _ _)) in Ht by lia. destruct Ht as (s1 & -> & Hf1 & Hwf1). cbn [mbind option_bind].
  rewrite !len_app, len_ztake by lia.
  destruct (len st + len (flat src) <? n) eqn:E; bool_prop.
  - assert (k = len (flat src)) as -> by lia.
    rewrite ztake_ge, (proj2 (Z.ltb_lt _ _)) by lia. rewrite zdrop_ge in Hf1 by lia.
    eexists _, _, _. split; [done|]. split_and!; try done.
    + unfold decoder_wf; cbn. rewrite len_app. split_and!; try done; lia.
    + unfold logical; cbn. by rewrite Hp, Hf1, app_nil_r.
  - assert (k = n - len st) as -> by lia. rewrite (proj2 (Z.ltb_ge _ _)) by lia.
    eexists _, _, _. split; [done|]. split_and!; try done.
    + rewrite ztake_app_ge by lia. done.
    + unfold logical; cbn. rewrite Hf1, zdrop_app_ge by lia. done.
Qed.

(** The flags byte and the body length of a consumed header parse back. *)
Lemma parse_header_of max fl n body :
  check_flags fl = None -> 0 <= n ->
  (if has_bits fl 0x02 then n <= 0x7FFFFFFFFFFFFFFF else n <= 255) ->
  parse_frame max (header_of fl n ++ body) = parse_body max fl n body.
Proof.
  intros Hfl Hn Hb. unfold header_of, parse_frame.
  destruct (has_bits fl 2) eqn:E; cbn [app].
  - assert (Hlen : length (be_bytes 8 n) = 8%nat) by apply length_be_bytes.
    destruct (be_bytes 8 n) as [|b1 tl] eqn:Eb; [done|]. cbn [app]. rewrite Hfl, E.
    assert (Htl : len tl = 7) by (unfold len; cbn in Hlen; lia).
    rewrite (proj2 (Z.ltb_ge _ _)) by len_lia.
    rewrite ztake_app_le, ztake_ge, zdrop_app_ge, Htl by lia. rewrite Z.sub_diag, zdrop_0.
    rewrite <- Eb, be_val_be_bytes; [done|]. change (256 ^ Z.of_nat 8) with (2 ^ 64). lia.
  - rewrite Hfl, E, u8_val_small by lia. done.
Qed.

Lemma parse_body_ok max fl n body :
  n <= 0x7FFFFFFFFFFFFFFF -> n <= max ->
  parse_body max fl n body =
    if len body <? n then NeedMore else Parsed (mk_frame fl (ztake n body)) (zdrop n body).
Proof.
  intros. unfold parse_body. rewrite !(proj2 (Z.ltb_ge _ n)) by lia. done.
Qed.

Lemma parse_logical_pending d src fl :
  decoder_wf d -> pending_flags d = Some fl ->
  parse_frame (max_frame_size d) (logical d src) =
    (let body := staging d ++ flat src in
     if len body <? expected_body_len d then NeedMore
     else Parsed (mk_frame fl (ztake (expected_body_len d) body)) (zdrop (expected_body_len d) body)).
Proof.
  intros Hd Hp. unfold decoder_wf in Hd. rewrite Hp in Hd. destruct Hd as (Hfl & Hst & Hsz).
  unfold logical. rewrite Hp. pose proof (len_nonneg (staging d)).
  rewrite parse_header_of, parse_body_ok; [done| |lia|done|lia|done].
  destruct (has_bits fl 2); lia.
Qed.

(** An idle decoder. *)
Lemma decode_idle_post d src :
  decoder_wf d -> pending_flags d = None -> segbuf_wf src ->
  decode_post d src (parse_frame (max_frame_size d) (flat src)) (decode d src).
Proof.
  intros Hd Hp Hwf. pose proof Hwf as [Hl _].
  assert (Hsame : forall r, match r with Ok (Some _) => False | _ => True end ->
     forall p, match p with NeedMore => r = Ok None | Bad e => r = Err e | Parsed _ _ => False end ->
     decode_post d src p (Some (r, d, src))).
  { intros r Hr p Hpr. exists r, d, src. split_and!; try done. by destruct p; naive_solver. }
  unfold decode. rewrite Hp. unfold segbuf_len at 1. rewrite Hl.
  destruct (flat src) as [|fl [|b1 tl]] eqn:Hflat; [by apply Hsame|by apply Hsame|].
  rewrite (proj2 (Z.ltb_ge _ _)) by len_lia. cbn zeta.
  rewrite (header_prefix src fl b1 tl Hwf Hflat).
  unfold parse_frame, check_flags. change (index (fl :: b1 :: repeat Byte.x00 7) 0) with (Some fl).
  cbn [mbind option_bind].
  destruct (Z.land (u8_val fl) 5 =? 5) eqn:Ecm; [by apply Hsame|].
  destruct (has_bits fl 248) eqn:Eres; [by apply Hsame|].
  assert (Hfl : check_flags fl = None) by (unfold check_flags; by rewrite Ecm, Eres).
  rewrite (segbuf_len_flat src fl b1 tl Hwf Hflat).
  destruct (has_bits fl 2) eqn:Elong.
  - destruct (len tl <? 7) eqn:E7; bool_prop.
    { rewrite (proj2 (Z.ltb_lt _ _)) by lia. by apply Hsame. }
    rewrite (proj2 (Z.ltb_ge _ _)) by lia.
    rewrite (long_body_len d src fl b1 tl Hwf Hflat) by done. cbn [mbind option_bind]. cbn zeta.
    set (size := be_val (b1 :: ztake 7 tl)).
    pose proof (be_val_bound (b1 :: ztake 7 tl)) as Hsz. fold size in Hsz.
    unfold parse_body.
    destruct (9223372036854775807 <? size) eqn:E1; [by apply Hsame|]. cbn [orb].
    destruct (max_frame_size d <? size) eqn:E2; [by apply Hsame|]. bool_prop.
    rewrite <- (segbuf_len_flat src fl b1 tl Hwf Hflat).
    assert (Hh : len (fl :: b1 :: ztake 7 tl) = 9) by (rewrite !len_cons, len_ztake; lia).
    rewrite <- Hh.
    apply (decode_finish_post d src fl (fl :: b1 :: ztake 7 tl) size (zdrop 7 tl)); try done.
    + rewrite Hflat. cbn. by rewrite ztake_zdrop.
    + unfold size. by rewrite header_of_long.
    + lia.
    + congruence.
  - rewrite (proj2 (Z.ltb_ge _ _)) by len_lia. unfold decode_body_len.
    change (index (fl :: b1 :: repeat Byte.x00 7) 1) with (Some b1). cbn [mbind option_bind]. cbn zeta.
    pose proof (u8_val_range b1). unfold parse_body.
    rewrite (proj2 (Z.ltb_ge 9223372036854775807 _)) by lia. cbn [orb].
    destruct (max_frame_size d <? u8_val b1) eqn:E2; [by apply Hsame|]. bool_prop.
    rewrite <- (segbuf_len_flat src fl b1 tl Hwf Hflat).
    apply (decode_finish_post d src fl [fl; b1] (u8_val b1) tl); try done; try lia.
    by rewrite header_of_short.
Qed.

(** One call of [decode], in either mode. *)
Lemma decode_ok d src :
  decoder_wf d -> segbuf_wf src ->
  decode_post d src (parse_frame (max_frame_size d) (logical d src)) (decode d src).
Proof.
  intros Hd Hwf. destruct (pending_flags d) as [fl|] eqn:Hp.
  - rewrite (parse_logical_pending d src fl Hd Hp). by apply decode_pending_post.
  - assert (Hlog : logical d src = flat src) by (unfold logical; by rewrite Hp).
    pose proof (decode_idle_post d src Hd Hp Hwf) as H. rewrite <- Hlog in H. exact H.
Qed.

(** C1: the decoder refines the stateless frame parser.  For a decoder in any
    reachable mode and any segmentation of the received bytes, one call of
    [decode] never panics and returns a frame, "need more data" or a protocol
    error exactly as [parse_frame] does on the bytes still to be delivered
    (consumed header and staged body included); it consumes exactly the frame,
    loses no byte when it waits, and changes nothing when it fails.  (A limit
    lowered below the body the decoder is waiting for is no reachable mode.) *)
Theorem decode_refines (d : ZmtpDecoder) (src : SegmentedBuffer) :
  decoder_wf d -> segbuf_wf src ->
  exists r d' src', decode d src = Some (r, d', src') /\
    decoder_wf d' /\ segbuf_wf src' /\ max_frame_size d' = max_frame_size d /\
    match parse_frame (max_frame_size d) (logical d src) with
    | NeedMore => r = Ok None /\ logical d' src' = logical d src
    | Bad e => r = Err e /\ d' = d /\ src' = src
    | Parsed f rest => r = Ok (Some f) /\ pending_flags d' = None /\ logical d' src' = rest
    end.
Proof. apply decode_ok. Qed.

Lemma decode_refines_witness :
  let d := mk_decoder (Some (u8 0)) 3 (ascii_bytes "a") 10 in
  let src := push (push segbuf_new (ascii_bytes "b")) (ascii_bytes "cd") in
  decoder_wf d /\ segbuf_wf src /\
  exists d' src', decode d src = Some (Ok (Some (mk_frame (u8 0) (ascii_bytes "abc"))), d', src') /\
    logical d' src' = ascii_bytes "d".
Proof.
  cbn zeta. set (d := mk_decoder _ _ _ _). set (src := push _ _).
  assert (Hd : decoder_wf d) by (vm_compute; split_and!; congruence).
  assert (Hs : segbuf_wf src) by (unfold src; auto with mono).
  split; [exact Hd|]. split; [exact Hs|].
  destruct (decode_refines d src Hd Hs) as (r & d' & src' & Heq & _ & _ & _ & H).
  assert (Hp : parse_frame (max_frame_size d) (logical d src) =
               Parsed (mk_frame (u8 0) (ascii_bytes "abc")) (ascii_bytes "d")) by (vm_compute; reflexivity).
  rewrite Hp in H. destruct H as (-> & _ & Hl). exists d', src'. split; [exact Heq|exact Hl].
Defined.

(** ** Stability of the reference parser under more input *)

Lemma parse_body_app max fl n body more :
  0 <= n -> match parse_body max fl n body with
  | NeedMore => True
  | Bad e => parse_body max fl n (body ++ more) = Bad e
  | Parsed f rest => parse_body max fl n (body ++ more) = Parsed f (rest ++ more)
  end.
Proof.
  intros Hn. unfold parse_body. pose proof (len_nonneg more). rewrite len_app.
  destruct (_ || _); [done|]. destruct (len body <? n) eqn:E; [done|]. bool_prop.
  rewrite (proj2 (Z.ltb_ge _ _)) by lia. by rewrite ztake_app_le, zdrop_app_le by lia.
Qed.

(** A decision taken on a prefix of the input stands whatever follows it. *)
Lemma parse_frame_app max bs more :
  match parse_frame max bs with
  | NeedMore => True
  | Bad e => parse_frame max (bs ++ more) = Bad e
  | Parsed f rest => parse_frame max (bs ++ more) = Parsed f (rest ++ more)
  end.
Proof.
  destruct bs as [|fl [|b1 tl]]; [done..|]. cbn [parse_frame app].
  destruct (check_flags fl); [done|]. pose proof (len_nonneg more).
  destruct (has_bits fl 2); [|apply parse_body_app; apply u8_val_range].
  destruct (len tl <? 7) eqn:E; [done|]. bool_prop.
  rewrite (proj2 (Z.ltb_ge _ _)) by len_lia.
  rewrite ztake_app_le, zdrop_app_le by lia. apply parse_body_app, be_val_bound.
Qed.

Lemma parse_body_length max fl n body f rest :
  parse_body max fl n body = Parsed f rest -> (length rest <= length body)%nat.
Proof.
  unfold parse_body. destruct (_ || _); [done|]. destruct (len body <? n); [done|].
  intros [= _ <-]. unfold zdrop. rewrite length_drop. lia.
Qed.

(** A frame takes at least its two header bytes. *)
Lemma parse_frame_length max bs f rest :
  parse_frame max bs = Parsed f rest -> (S (length rest) < length bs)%nat.
Proof.
  destruct bs as [|fl [|b1 tl]]; [done..|]. cbn [parse_frame length].
  destruct (check_flags fl); [done|].
  destruct (has_bits fl 2); [|intros H%parse_body_length; lia].
  destruct (len tl <? 7); [done|]. intros H%parse_body_length. revert H.
  unfold zdrop. rewrite length_drop. lia.
Qed.

(** ** Encoding *)

(** The flags byte [encode] writes: the LONG bit set from the body length. *)
Definition wire_flags (fl : byte) (body_len : Z) : byte :=
  if 256 <=? body_len then u8 (Z.lor (u8_val fl) 0x02) else u8 (Z.land (u8_val fl) 0xFD).

Definition eqb_option_err (a : option ZmtpError) : bool := match a with None => true | _ => false end.

Lemma wire_flags_spec fl n :
  check_flags fl = None ->
  check_flags (wire_flags fl n) = None /\
  has_bits (wire_flags fl n) 0x02 = (256 <=? n) /\
  has_bits (wire_flags fl n) 0x01 = has_bits fl 0x01 /\
  has_bits (wire_flags fl n) 0x04 = has_bits fl 0x04.
Proof.
  intros H.
  assert (forall b, (negb (eqb_option_err (check_flags b)) ||
     (eqb_option_err (check_flags (u8 (Z.lor (u8_val b) 2))) && has_bits (u8 (Z.lor (u8_val b) 2)) 2
      && Bool.eqb (has_bits (u8 (Z.lor (u8_val b) 2)) 1) (has_bits b 1)
      && Bool.eqb (has_bits (u8 (Z.lor (u8_val b) 2)) 4) (has_bits b 4)
      && eqb_option_err (check_flags (u8 (Z.land (u8_val b) 253))) && negb (has_bits (u8 (Z.land (u8_val b) 253)) 2)
      && Bool.eqb (has_bits (u8 (Z.land (u8_val b) 253)) 1) (has_bits b 1)
      && Bool.eqb (has_bits (u8 (Z.land (u8_val b) 253)) 4) (has_bits b 4))) = true) as Hall.
  { intros b. apply (byte_forall_bool (fun b => _) b). vm_compute. reflexivity. }
  specialize (Hall fl). rewrite H in Hall. cbn [eqb_option_err negb orb] in Hall. bool_prop.
  unfold wire_flags. repeat match goal with H : Bool.eqb _ _ = true |- _ => apply eqb_prop in H end.
  destruct (256 <=? n); split_and!; try done.
  - destruct (check_flags (u8 (Z.lor (u8_val fl) 2))); done.
  - destruct (check_flags (u8 (Z.land (u8_val fl) 253))); done.
Qed.

Lemma encode_header f :
  check_flags (flags f) = None ->
  encode f = header_of (wire_flags (flags f) (len (payload f))) (len (payload f)) ++ payload f.
Proof.
  intros E. destruct (wire_flags_spec (flags f) (len (payload f)) E) as (_ & Hl & _).
  unfold encode, header_of. rewrite Hl. unfold wire_flags. by destruct (256 <=? _).
Qed.

(** An encoded frame parses back, whatever follows it on the wire. *)
Lemma parse_encode max f rest :
  check_flags (flags f) = None -> len (payload f) <= max -> len (payload f) <= 0x7FFFFFFFFFFFFFFF ->
  parse_frame max (encode f ++ rest) =
    Parsed (mk_frame (wire_flags (flags f) (len (payload f))) (payload f)) rest.
Proof.
  intros Hfl Hmax Hsz. destruct (wire_flags_spec (flags f) (len (payload f)) Hfl) as (Hw & Hl & _).
  pose proof (len_nonneg (payload f)).
  rewrite encode_header, <- app_assoc, parse_header_of, parse_body_ok; try done.
  - rewrite (proj2 (Z.ltb_ge _ _)) by len_lia.
    by rewrite ztake_app_le, ztake_ge, zdrop_app_ge, Z.sub_diag, zdrop_0 by lia.
  - rewrite Hl. by case_if; lia.
Qed.

(** C27: encode/decode round trip.  A frame whose payload is within the
    decoder's limit, encoded and delivered in any segmentation and followed by
    any bytes, is decoded in one call: same payload, same MORE and COMMAND
    bits, LONG set from the payload length, and exactly its bytes consumed. *)
Theorem encode_decode_roundtrip (d : ZmtpDecoder) (src : SegmentedBuffer) (f : ZmtpFrame) (rest : bytes) :
  decoder_wf d -> pending_flags d = None -> segbuf_wf src ->
  check_flags (flags f) = None ->
  len (payload f) <= max_frame_size d -> len (payload f) <= 0x7FFFFFFFFFFFFFFF ->
  flat src = encode f ++ rest ->
  exists f' d' src', decode d src = Some (Ok (Some f'), d', src') /\
    payload f' = payload f /\ more f' = more f /\ is_command f' = is_command f /\
    has_bits (flags f') 0x02 = (256 <=? len (payload f)) /\
    pending_flags d' = None /\ flat src' = rest.
Proof.
  intros Hd Hp Hwf Hfl Hmax Hsz Hflat.
  destruct (wire_flags_spec (flags f) (len (payload f)) Hfl) as (_ & Hl & Hm & Hc).
  destruct (decode_ok d src Hd Hwf) as (r & d' & src' & Heq & _ & _ & _ & H).
  unfold logical in H at 1. rewrite Hp, Hflat, parse_encode in H by done.
  destruct H as (-> & Hp' & Hlog). unfold logical in Hlog. rewrite Hp' in Hlog.
  eexists _, d', src'. split; [exact Heq|]. by cbn.
Qed.

Lemma encode_decode_roundtrip_witness :
  let f := mk_frame (u8 1) (ascii_bytes "hello") in
  let src := push (push segbuf_new (ztake 3 (encode f))) (zdrop 3 (encode f) ++ ascii_bytes "zz") in
  exists f' d' src', decode decoder_new src = Some (Ok (Some f'), d', src') /\
    payload f' = ascii_bytes "hello" /\ more f' = true /\ flat src' = ascii_bytes "zz".
Proof.
  cbn zeta. set (f := mk_frame _ _). set (src := push _ _).
  assert (Hs : segbuf_wf src) by (unfold src; auto with mono).
  destruct (encode_decode_roundtrip decoder_new src f (ascii_bytes "zz"))
    as (f' & d' & src' & Heq & Hp & Hm & _ & _ & _ & Hr);
    [by split|done|exact Hs|reflexivity|vm_compute; discriminate|vm_compute; discriminate|reflexivity|].
  exists f', d', src'. split_and!; [exact Heq|exact Hp|exact Hm|exact Hr].
Defined.

(** The frames of a multipart message: MORE on every part but the last. *)
Fixpoint message_frames (msg : list bytes) : list ZmtpFrame :=
  match msg with
  | [] => []
  | [part] => [frame_data part false]
  | part :: msg => frame_data part true :: message_frames msg
  end.

Lemma frame_data_flags part m :
  check_flags (flags (frame_data part m)) = None /\
  wire_flags (flags (frame_data part m)) (len part) = flags (frame_data part m) /\
  more (frame_data part m) = m /\ is_command (frame_data part m) = false.
Proof.
  unfold frame_data, wire_flags, more, is_command; cbn [flags].
  destruct m, (255 <? len part) eqn:E; bool_prop.
  1, 3: rewrite (proj2 (Z.leb_le 256 _)) by lia; vm_compute; done.
  all: rewrite (proj2 (Z.leb_gt 256 _)) by lia; vm_compute; done.
Qed.

(** Each way the code writes a data frame writes [encode (frame_data _ _)]. *)
Lemma write_frame_header_spec buf part m :
  (write_frame_header buf (len part) m).1 ++ part = buf ++ encode (frame_data part m) /\
  (write_frame_header buf (len part) m).2 = (if 256 <=? len part then 9 else 2).
Proof.
  unfold write_frame_header, encode, frame_data; cbn [flags payload].
  destruct (256 <=? len part) eqn:E; bool_prop.
  - rewrite (proj2 (Z.ltb_lt 255 _)) by lia. split; [cbn [fst]; rewrite <- !app_assoc; by destruct m|done].
  - rewrite (proj2 (Z.ltb_ge 255 _)) by lia. split; [cbn [fst]; rewrite <- !app_assoc; by destruct m|done].
Qed.

Lemma encode_single_spec part buf : encode_single part buf = buf ++ encode (frame_data part false).
Proof.
  unfold encode_single, encode, frame_data; cbn [flags payload].
  destruct (256 <=? len part) eqn:E; bool_prop.
  - rewrite (proj2 (Z.ltb_lt 255 _)) by lia. by rewrite <- !app_assoc.
  - rewrite (proj2 (Z.ltb_ge 255 _)) by lia. by rewrite <- !app_assoc.
Qed.

Lemma encode_multipart_loop_spec parts i n buf :
  n = i + len parts ->
  encode_multipart_loop parts i n buf = buf ++ concat (encode <$> message_frames parts).
Proof.
  revert i buf. induction parts as [|part parts IH]; intros i buf Hn; [by rewrite app_nil_r|].
  rewrite len_cons in Hn. cbn [encode_multipart_loop]. rewrite IH by lia. clear IH.
  assert (Hlast : (i <? n - 1) = match parts with [] => false | _ => true end).
  { destruct parts; [apply Z.ltb_ge; len_lia|apply Z.ltb_lt; len_lia]. }
  destruct (write_frame_header_spec buf part (i <? n - 1)) as [Hw _].
  unfold write_frame_header in Hw.
  destruct (256 <=? len part); cbn [fst] in Hw; rewrite Hw, Hlast, <- app_assoc;
    destruct parts; cbn [message_frames]; by rewrite ?fmap_cons, ?concat_cons.
Qed.

Lemma encode_multipart_frames msg buf :
  encode_multipart msg buf = buf ++ concat (encode <$> message_frames msg).
Proof.
  unfold encode_multipart. destruct msg as [|part [|part' msg]].
  - by rewrite app_nil_r.
  - rewrite encode_single_spec. cbn. by rewrite app_nil_r.
  - by apply encode_multipart_loop_spec.
Qed.

(** The multipart encoders agree.  [encode_multipart], with its
    single-frame fast path, appends exactly the concatenation of the encoded
    frames of the message (MORE on all but the last, LONG by size) to the
    buffer, whatever the buffer already holds; nothing for an empty message. *)
Theorem encode_multipart_spec (msg : list bytes) (buf : bytes) :
  encode_multipart msg buf = buf ++ concat (encode <$> message_frames msg).
Proof. apply encode_multipart_frames. Qed.
