(* ===== verification/Options.v ===== *)
(** * Socket options

    monocoque-core/src/options.rs: the configuration record with its defaults,
    presets, queries and identity validation.  A [Duration] is its number of
    nanoseconds; [i32] and [u32] fields are [Z]; strings and keys are [bytes]. *)

From S2P Require Import Prelude.

(** ** [std::time::Duration] *)

Definition from_secs (s : Z) : Z := s * 1000000000.
Definition from_millis (ms : Z) : Z := ms * 1000000.

(** [Duration::MAX]: [u64::MAX] seconds and 999,999,999 nanoseconds. *)
Definition duration_max : Z := (2 ^ 64 - 1) * 1000000000 + 999999999.

Definition checked_mul (d n : Z) : option Z :=
  if d * n <=? duration_max then Some (d * n) else None.

Definition saturating_mul (d n : Z) : Z := Z.min (d * n) duration_max.

(** [2u32.saturating_pow(attempt)]. *)
Definition saturating_pow2 (attempt : Z) : Z :=
  if attempt <? 32 then 2 ^ attempt else u32_max.

(** ** [io::Error], by its kind *)

Inductive ErrorKind :=
| InvalidInput
| InvalidData
| WouldBlock
| TimedOut
| NotConnected
| BrokenPipe
| ConnectionReset
| ConnectionAborted
| UnexpectedEof
| WriteZero
| Unsupported
| NotFound
| AddrInUse
| AlreadyExists
| ConnectionRefused
| Interrupted
| OtherError.

#[export] Instance ErrorKind_eq_dec : EqDecision ErrorKind.
Proof. solve_decision. Defined.

Abbreviation io_result A := (result ErrorKind A).

(** ** The record *)

Record SocketOptions := mk_options {
  read_buffer_size : Z;
  write_buffer_size : Z;
  recv_timeout : option Z;
  send_timeout : option Z;
  handshake_timeout : Z;
  linger : option Z;
  reconnect_ivl : Z;
  reconnect_ivl_max : Z;
  connect_timeout : Z;
  recv_hwm : Z;
  send_hwm : Z;
  immediate : bool;
  max_msg_size : option Z;
  routing_id : option bytes;
  connect_routing_id : option bytes;
  router_mandatory : bool;
  router_handover : bool;
  probe_router : bool;
  xpub_verbose : bool;
  xpub_manual : bool;
  xpub_welcome_msg : option bytes;
  xsub_verbose_unsubs : bool;
  conflate : bool;
  tcp_keepalive : Z;
  tcp_keepalive_cnt : Z;
  tcp_keepalive_idle : Z;
  tcp_keepalive_intvl : Z;
  req_correlate : bool;
  req_relaxed : bool;
  rate : Z;
  recovery_ivl : Z;
  sndbuf : Z;
  rcvbuf : Z;
  reuse_port : bool;
  multicast_hops : Z;
  tos : Z;
  multicast_maxtpdu : Z;
  ipv6 : bool;
  bind_to_device : option bytes;
  plain_server : bool;
  plain_username : option bytes;
  plain_password : option bytes;
  curve_server : bool;
  curve_publickey : option bytes;
  curve_secretkey : option bytes;
  curve_serverkey : option bytes;
  zap_domain : bytes;
  subscriptions : list bytes;
  unsubscriptions : list bytes;
  max_reconnect_attempts : option Z;
  heartbeat_ivl : option Z;
  heartbeat_ttl : option Z;
  heartbeat_timeout : option Z;
  router_raw : bool;
  stream_notify : bool;
  xpub_nodrop : bool;
  invert_matching : bool;
  write_coalescing : bool;
  write_coalesce_threshold : Z;
  vectored_write_threshold : Z;
}.

Definition default_options : SocketOptions := {|
  read_buffer_size := 8192;
  write_buffer_size := 8192;
  recv_timeout := None;
  send_timeout := None;
  handshake_timeout := from_secs 30;
  linger := Some (from_secs 30);
  reconnect_ivl := from_millis 100;
  reconnect_ivl_max := 0;
  connect_timeout := 0;
  recv_hwm := 1000;
  send_hwm := 1000;
  immediate := false;
  max_msg_size := None;
  routing_id := None;
  connect_routing_id := None;
  router_mandatory := false;
  router_handover := false;
  probe_router := false;
  xpub_verbose := false;
  xpub_manual := false;
  xpub_welcome_msg := None;
  xsub_verbose_unsubs := false;
  conflate := false;
  tcp_keepalive := (-1);
  tcp_keepalive_cnt := (-1);
  tcp_keepalive_idle := (-1);
  tcp_keepalive_intvl := (-1);
  req_correlate := false;
  req_relaxed := false;
  rate := 100;
  recovery_ivl := from_secs 10;
  sndbuf := 0;
  rcvbuf := 0;
  reuse_port := false;
  multicast_hops := 1;
  tos := 0;
  multicast_maxtpdu := 1500;
  ipv6 := false;
  bind_to_device := None;
  plain_server := false;
  plain_username := None;
  plain_password := None;
  curve_server := false;
  curve_publickey := None;
  curve_secretkey := None;
  curve_serverkey := None;
  zap_domain := [];
  subscriptions := [];
  unsubscriptions := [];
  max_reconnect_attempts := None;
  heartbeat_ivl := None;
  heartbeat_ttl := None;
  heartbeat_timeout := None;
  router_raw := false;
  stream_notify := true;
  xpub_nodrop := false;
  invert_matching := false;
  write_coalescing := false;
  write_coalesce_threshold := 65536;
  vectored_write_threshold := 32768;
|}.

(** ** Field update

    [o <| f := v |>] is [o] with field [f] set to [v], the assignment
    [self.f = v] of the builder methods. *)

Ltac pick_field f p r v := tryif constr_eq f p then exact v else exact (p r).

Ltac update_options r f v :=
  let go p := pick_field f p r v in
  unshelve refine (mk_options
    _ _ _ _ _ _ _ _ _ _ _ _ _ _ _ _ _ _ _ _ _ _ _ _ _ _ _ _ _ _
    _ _ _ _ _ _ _ _ _ _ _ _ _ _ _ _ _ _ _ _ _ _ _ _ _ _ _ _ _ _);
  [
    go read_buffer_size | go write_buffer_size | go recv_timeout | go send_timeout | go handshake_timeout |
    go linger | go reconnect_ivl | go reconnect_ivl_max | go connect_timeout | go recv_hwm | go send_hwm |
    go immediate | go max_msg_size | go routing_id | go connect_routing_id | go router_mandatory |
    go router_handover | go probe_router | go xpub_verbose | go xpub_manual | go xpub_welcome_msg |
    go xsub_verbose_unsubs | go conflate | go tcp_keepalive | go tcp_keepalive_cnt | go tcp_keepalive_idle |
    go tcp_keepalive_intvl | go req_correlate | go req_relaxed | go rate | go recovery_ivl | go sndbuf |
    go rcvbuf | go reuse_port | go multicast_hops | go tos | go multicast_maxtpdu | go ipv6 |
    go bind_to_device | go plain_server | go plain_username | go plain_password | go curve_server |
    go curve_publickey | go curve_secretkey | go curve_serverkey | go zap_domain | go subscriptions |
    go unsubscriptions | go max_reconnect_attempts | go heartbeat_ivl | go heartbeat_ttl |
    go heartbeat_timeout | go router_raw | go stream_notify | go xpub_nodrop | go invert_matching |
    go write_coalescing | go write_coalesce_threshold | go vectored_write_threshold ].

Notation "r <| f := v |>" := (ltac:(update_options r f v)) (at level 1, v at level 200, left associativity, only parsing) : mono_scope.

(** ** Presets *)

Definition options_small : SocketOptions := default_options <| read_buffer_size := 4096 |> <| write_buffer_size := 4096 |>.
Definition options_large : SocketOptions := default_options <| read_buffer_size := 16384 |> <| write_buffer_size := 16384 |>.

(** [crate::io::READ_SLAB_SIZE]. *)
Definition read_slab_size : Z := 64 * 1024.

(** ** Builder methods *)

Definition with_recv_timeout (o : SocketOptions) (timeout : Z) : SocketOptions :=
  o <| recv_timeout := Some timeout |>.

Definition with_send_timeout (o : SocketOptions) (timeout : Z) : SocketOptions :=
  o <| send_timeout := Some timeout |>.

Definition with_handshake_timeout (o : SocketOptions) (timeout : Z) : SocketOptions :=
  o <| handshake_timeout := timeout |>.

Definition with_linger (o : SocketOptions) (linger' : option Z) : SocketOptions :=
  o <| linger := linger' |>.

Definition with_reconnect_ivl (o : SocketOptions) (ivl : Z) : SocketOptions :=
  o <| reconnect_ivl := ivl |>.

Definition with_reconnect_ivl_max (o : SocketOptions) (max : Z) : SocketOptions :=
  o <| reconnect_ivl_max := max |>.

Definition with_max_reconnect_attempts (o : SocketOptions) (max : option Z) : SocketOptions :=
  o <| max_reconnect_attempts := max |>.

Definition with_connect_timeout (o : SocketOptions) (timeout : Z) : SocketOptions :=
  o <| connect_timeout := timeout |>.

Definition with_heartbeat_ivl (o : SocketOptions) (ivl : Z) : SocketOptions :=
  o <| heartbeat_ivl := Some ivl |>.

Definition with_heartbeat_ttl (o : SocketOptions) (ttl : Z) : SocketOptions :=
  o <| heartbeat_ttl := Some ttl |>.

Definition with_heartbeat_timeout (o : SocketOptions) (timeout : Z) : SocketOptions :=
  o <| heartbeat_timeout := Some timeout |>.

Definition with_router_raw (o : SocketOptions) (raw : bool) : SocketOptions :=
  o <| router_raw := raw |>.

Definition with_stream_notify (o : SocketOptions) (notify : bool) : SocketOptions :=
  o <| stream_notify := notify |>.

Definition with_xpub_nodrop (o : SocketOptions) (nodrop : bool) : SocketOptions :=
  o <| xpub_nodrop := nodrop |>.

Definition with_invert_matching (o : SocketOptions) (invert : bool) : SocketOptions :=
  o <| invert_matching := invert |>.

Definition with_write_coalescing (o : SocketOptions) (enabled : bool) : SocketOptions :=
  o <| write_coalescing := enabled |>.

Definition with_write_coalesce_threshold (o : SocketOptions) (threshold : Z) : SocketOptions :=
  o <| write_coalesce_threshold := threshold |>.

Definition with_vectored_write_threshold (o : SocketOptions) (threshold : Z) : SocketOptions :=
  o <| vectored_write_threshold := threshold |>.

Definition with_recv_hwm (o : SocketOptions) (hwm : Z) : SocketOptions :=
  o <| recv_hwm := hwm |>.

Definition with_send_hwm (o : SocketOptions) (hwm : Z) : SocketOptions :=
  o <| send_hwm := hwm |>.

Definition with_immediate (o : SocketOptions) (immediate' : bool) : SocketOptions :=
  o <| immediate := immediate' |>.

Definition with_max_msg_size (o : SocketOptions) (size : option Z) : SocketOptions :=
  o <| max_msg_size := size |>.

Definition with_read_buffer_size (o : SocketOptions) (size : Z) : SocketOptions :=
  o <| read_buffer_size := if read_slab_size <? size then read_slab_size else size |>.

Definition with_write_buffer_size (o : SocketOptions) (size : Z) : SocketOptions :=
  o <| write_buffer_size := size |>.

Definition with_buffer_sizes (o : SocketOptions) (read_size write_size : Z) : SocketOptions :=
  o <| read_buffer_size := if read_slab_size <? read_size then read_slab_size else read_size |>
    <| write_buffer_size := write_size |>.

Definition with_routing_id (o : SocketOptions) (id : bytes) : SocketOptions :=
  o <| routing_id := Some id |>.

Definition with_connect_routing_id (o : SocketOptions) (id : bytes) : SocketOptions :=
  o <| connect_routing_id := Some id |>.

Definition with_router_mandatory (o : SocketOptions) (enabled : bool) : SocketOptions :=
  o <| router_mandatory := enabled |>.

Definition with_router_handover (o : SocketOptions) (enabled : bool) : SocketOptions :=
  o <| router_handover := enabled |>.

Definition with_probe_router (o : SocketOptions) (enabled : bool) : SocketOptions :=
  o <| probe_router := enabled |>.

Definition with_xpub_verbose (o : SocketOptions) (enabled : bool) : SocketOptions :=
  o <| xpub_verbose := enabled |>.

Definition with_xpub_manual (o : SocketOptions) (enabled : bool) : SocketOptions :=
  o <| xpub_manual := enabled |>.

Definition with_xpub_welcome_msg (o : SocketOptions) (msg : bytes) : SocketOptions :=
  o <| xpub_welcome_msg := Some msg |>.

Definition with_xsub_verbose_unsubs (o : SocketOptions) (enabled : bool) : SocketOptions :=
  o <| xsub_verbose_unsubs := enabled |>.

Definition with_conflate (o : SocketOptions) (enabled : bool) : SocketOptions :=
  o <| conflate := enabled |>.

Definition with_tcp_keepalive (o : SocketOptions) (mode : Z) : SocketOptions :=
  o <| tcp_keepalive := mode |>.

Definition with_tcp_keepalive_cnt (o : SocketOptions) (count : Z) : SocketOptions :=
  o <| tcp_keepalive_cnt := count |>.

Definition with_tcp_keepalive_idle (o : SocketOptions) (seconds : Z) : SocketOptions :=
  o <| tcp_keepalive_idle := seconds |>.

Definition with_tcp_keepalive_intvl (o : SocketOptions) (seconds : Z) : SocketOptions :=
  o <| tcp_keepalive_intvl := seconds |>.

Definition with_req_correlate (o : SocketOptions) (enabled : bool) : SocketOptions :=
  o <| req_correlate := enabled |>.

Definition with_req_relaxed (o : SocketOptions) (enabled : bool) : SocketOptions :=
  o <| req_relaxed := enabled |>.

Definition with_rate (o : SocketOptions) (rate' : Z) : SocketOptions :=
  o <| rate := rate' |>.

Definition with_recovery_ivl (o : SocketOptions) (interval : Z) : SocketOptions :=
  o <| recovery_ivl := interval |>.

Definition with_sndbuf (o : SocketOptions) (size : Z) : SocketOptions :=
  o <| sndbuf := size |>.

Definition with_rcvbuf (o : SocketOptions) (size : Z) : SocketOptions :=
  o <| rcvbuf := size |>.

Definition with_reuse_port (o : SocketOptions) (enabled : bool) : SocketOptions :=
  o <| reuse_port := enabled |>.

Definition with_multicast_hops (o : SocketOptions) (hops : Z) : SocketOptions :=
  o <| multicast_hops := hops |>.

Definition with_tos (o : SocketOptions) (tos' : Z) : SocketOptions :=
  o <| tos := tos' |>.

Definition with_multicast_maxtpdu (o : SocketOptions) (mtu : Z) : SocketOptions :=
  o <| multicast_maxtpdu := mtu |>.

Definition with_ipv6 (o : SocketOptions) (enabled : bool) : SocketOptions :=
  o <| ipv6 := enabled |>.

Definition with_bind_to_device (o : SocketOptions) (device : bytes) : SocketOptions :=
  o <| bind_to_device := Some device |>.

Definition with_plain_server (o : SocketOptions) (enabled : bool) : SocketOptions :=
  o <| plain_server := enabled |>.

Definition with_plain_credentials (o : SocketOptions) (username : bytes) (password : bytes) : SocketOptions :=
  o <| plain_username := Some username |> <| plain_password := Some password |>.

Definition with_curve_server (o : SocketOptions) (enabled : bool) : SocketOptions :=
  o <| curve_server := enabled |>.

Definition with_curve_keypair (o : SocketOptions) (publickey : bytes) (secretkey : bytes) : SocketOptions :=
  o <| curve_publickey := Some publickey |> <| curve_secretkey := Some secretkey |>.

Definition with_curve_serverkey (o : SocketOptions) (serverkey : bytes) : SocketOptions :=
  o <| curve_serverkey := Some serverkey |>.

Definition with_zap_domain (o : SocketOptions) (domain : bytes) : SocketOptions :=
  o <| zap_domain := domain |>.

Definition with_subscribe (o : SocketOptions) (filter : bytes) : SocketOptions :=
  o <| subscriptions := subscriptions o ++ [filter] |>.

Definition with_subscriptions (o : SocketOptions) (filters : list bytes) : SocketOptions :=
  o <| subscriptions := subscriptions o ++ filters |>.

Definition with_unsubscribe (o : SocketOptions) (filter : bytes) : SocketOptions :=
  o <| unsubscriptions := unsubscriptions o ++ [filter] |>.

(** ** Queries *)

(** [SocketOptions::read_buffer_size()]: the configured size, capped at the slab. *)
Definition effective_read_buffer_size (o : SocketOptions) : Z :=
  if read_slab_size <? read_buffer_size o then read_slab_size else read_buffer_size o.

Definition is_zero_timeout (t : option Z) : bool :=
  match t with Some d => d =? 0 | None => false end.

Definition is_recv_nonblocking (o : SocketOptions) : bool := is_zero_timeout (recv_timeout o).
Definition is_send_nonblocking (o : SocketOptions) : bool := is_zero_timeout (send_timeout o).

Definition validate_router_identity (id : bytes) : io_result unit :=
  match id with
  | [] => Err InvalidInput
  | b :: _ =>
      if 255 <? len id then Err InvalidInput
      else if u8_val b =? 0 then Err InvalidInput
      else Ok tt
  end.

Definition validate_routing_id (id : bytes) : io_result unit :=
  if 255 <? len id then Err InvalidInput else Ok tt.

Definition next_reconnect_ivl (o : SocketOptions) (attempt : Z) : Z :=
  if reconnect_ivl_max o =? 0 then reconnect_ivl o
  else Z.min (saturating_mul (reconnect_ivl o) (saturating_pow2 attempt)) (reconnect_ivl_max o).
