(* ===== verification/Address.v ===== *)
(** * Endpoints and socket addresses

    monocoque-core/src/endpoint.rs: [Endpoint], its parser and its [Display],
    with what it uses of the standard library: parsing and printing of
    [SocketAddr] ([core::net]); and [parse_tcp_endpoint] of
    monocoque/src/zmq/common.rs.

    A parser takes a text and returns what it read and the rest; [None] leaves
    the position where it was ([read_atomically]). *)

From S2P Require Import Prelude.
From S2P Require Import Options.

(** ** Socket addresses *)

(** An IPv4 address is its four octets, an IPv6 address its eight segments. *)
Inductive SocketAddr :=
| V4 (octets : list Z) (port : Z)
| V6 (segments : list Z) (port flowinfo scope_id : Z).

#[export] Instance socket_addr_eq_dec : EqDecision SocketAddr.
Proof. solve_decision. Defined.

Definition octet_ok (n : Z) : Prop := 0 <= n <= 255.
Definition u16_ok (n : Z) : Prop := 0 <= n <= 65535.

Definition addr_ok (a : SocketAddr) : Prop :=
  match a with
  | V4 octets port => length octets = 4%nat /\ Forall octet_ok octets /\ u16_ok port
  | V6 segments port flowinfo scope_id =>
      length segments = 8%nat /\ Forall u16_ok segments /\ u16_ok port /\ 0 <= scope_id <= u32_max
  end.

(** ** Printing *)

Definition digit_char (d : Z) : byte := if d <? 10 then u8 (48 + d) else u8 (87 + d).

(** The digits of a number, most significant first. *)
Fixpoint digits (radix : Z) (fuel : nat) (n : Z) : list Z :=
  match fuel with
  | O => []
  | S fuel => if n <? radix then [n] else digits radix fuel (n / radix) ++ [n mod radix]
  end.

(** [{}] and [{:x}]; ten digits are enough for a [u32], four for a segment. *)
Definition fmt_dec (n : Z) : bytes := digit_char <$> digits 10 10 n.
Definition fmt_hex (n : Z) : bytes := digit_char <$> digits 16 4 n.

Definition sep_by (c : Z) (parts : list bytes) : bytes :=
  match parts with
  | [] => []
  | p :: ps => p ++ concat ((λ q, u8 c :: q) <$> ps)
  end.

Definition display_v4 (octets : list Z) : bytes := sep_by 46 (fmt_dec <$> octets).

Definition fmt_subslice (segments : list Z) : bytes := sep_by 58 (fmt_hex <$> segments).

(** The first longest run of zero segments, as (start, length). *)
Fixpoint zero_span (segments : list Z) (i : nat) (current longest : nat * nat) : nat * nat :=
  match segments with
  | [] => longest
  | s :: segments =>
      if s =? 0 then
        let current := if bool_decide (current.2 = 0%nat) then (i, 1%nat) else (current.1, S current.2) in
        zero_span segments (S i) current (if bool_decide (longest.2 < current.2)%nat then current else longest)
      else zero_span segments (S i) (0, 0)%nat longest
  end.

(** [Ipv6Addr::to_ipv4_mapped]. *)
Definition to_ipv4_mapped (segments : list Z) : option (list Z) :=
  match segments with
  | [a; b; c; d; e; f; g; h] =>
      if forallb (λ x, x =? 0) [a; b; c; d; e] && (f =? 65535)
      then Some [g / 256; g mod 256; h / 256; h mod 256] else None
  | _ => None
  end.

Definition display_v6 (segments : list Z) : bytes :=
  match to_ipv4_mapped segments with
  | Some octets => ascii_bytes "::ffff:" ++ display_v4 octets
  | None =>
      let '(start, n) := zero_span segments 0 (0, 0)%nat (0, 0)%nat in
      if (1 <? n)%nat then
        fmt_subslice (take start segments) ++ ascii_bytes "::" ++ fmt_subslice (drop (start + n) segments)
      else fmt_subslice segments
  end.

Definition display_addr (a : SocketAddr) : bytes :=
  match a with
  | V4 octets port => display_v4 octets ++ u8 58 :: fmt_dec port
  | V6 segments port _ scope_id =>
      u8 91 :: display_v6 segments ++ (if scope_id =? 0 then [] else u8 37 :: fmt_dec scope_id) ++
        u8 93 :: u8 58 :: fmt_dec port
  end.

(** ** Parsing *)

(** [char::to_digit]. *)
Definition to_digit (radix : Z) (b : byte) : option Z :=
  let v := u8_val b in
  let d := if (48 <=? v) && (v <=? 57) then v - 48
           else if (97 <=? v) && (v <=? 122) then v - 87
           else if (65 <=? v) && (v <=? 90) then v - 55 else radix in
  if d <? radix then Some d else None.

Definition read_given_char (c : Z) (s : bytes) : option bytes :=
  match s with b :: s => if bool_decide (b = u8 c) then Some s else None | [] => None end.

Definition read_separator {A} (c : Z) (first : bool) (inner : bytes -> option (A * bytes)) (s : bytes) : option (A * bytes) :=
  if first then inner s else s ← read_given_char c s; inner s.

(** Digits up to the first character that is none: value, count and rest.
    [None]: the value exceeds [max] or there are too many digits. *)
Fixpoint read_digits (radix max : Z) (max_digits : option Z) (result count : Z) (s : bytes) : option (Z * Z * bytes) :=
  match s with
  | [] => Some (result, count, [])
  | b :: s' =>
      match to_digit radix b with
      | None => Some (result, count, s)
      | Some d =>
          let result := result * radix + d in
          if max <? result then None
          else if match max_digits with Some m => m <? count + 1 | None => false end then None
          else read_digits radix max max_digits result (count + 1) s'
      end
  end.

Definition read_number (radix max : Z) (max_digits : option Z) (allow_zero_prefix : bool) (s : bytes) : option (Z * bytes) :=
  '(result, count, rest) ← read_digits radix max max_digits 0 0 s;
  let has_leading_zero := bool_decide (head s = Some (u8 48)) in
  if count =? 0 then None
  else if negb allow_zero_prefix && has_leading_zero && (1 <? count) then None
  else Some (result, rest).

Definition read_octet : bytes -> option (Z * bytes) := read_number 10 255 (Some 3) false.
Definition read_group : bytes -> option (Z * bytes) := read_number 16 65535 (Some 4) true.

Definition read_ipv4_addr (s : bytes) : option (list Z * bytes) :=
  '(a, s) ← read_separator 46 true read_octet s;
  '(b, s) ← read_separator 46 false read_octet s;
  '(c, s) ← read_separator 46 false read_octet s;
  '(d, s) ← read_separator 46 false read_octet s;
  Some ([a; b; c; d], s).

Definition groups_of (octets : list Z) : list Z :=
  match octets with [a; b; c; d] => [a * 256 + b; c * 256 + d] | _ => [] end.

(** [read_groups] with [slots] slots to fill: the groups read, and whether the
    last two were an IPv4 address. *)
Fixpoint read_groups (slots : nat) (first : bool) (s : bytes) : list Z * bool * bytes :=
  match slots with
  | O => ([], false, s)
  | S slots =>
      match (if bool_decide (slots = O) then None else read_separator 58 first read_ipv4_addr s) with
      | Some (octets, s) => (groups_of octets, true, s)
      | None =>
          match read_separator 58 first read_group s with
          | Some (g, s) => let '(gs, v4, s) := read_groups slots false s in (g :: gs, v4, s)
          | None => ([], false, s)
          end
      end
  end.

Definition read_ipv6_addr (s : bytes) : option (list Z * bytes) :=
  let '(head, head_ipv4, s) := read_groups 8 true s in
  if bool_decide (length head = 8%nat) then Some (head, s)
  else if head_ipv4 then None
  else
    s ← read_given_char 58 s;
    s ← read_given_char 58 s;
    let '(tail, _, s) := read_groups (8 - (length head + 1)) true s in
    Some (head ++ replicate (8 - length head - length tail) 0 ++ tail, s).

Definition read_port (s : bytes) : option (Z * bytes) := s ← read_given_char 58 s; read_number 10 65535 None true s.
Definition read_scope_id (s : bytes) : option (Z * bytes) := s ← read_given_char 37 s; read_number 10 u32_max None true s.

Definition read_socket_addr_v4 (s : bytes) : option (SocketAddr * bytes) :=
  '(ip, s) ← read_ipv4_addr s;
  '(port, s) ← read_port s;
  Some (V4 ip port, s).

Definition read_socket_addr_v6 (s : bytes) : option (SocketAddr * bytes) :=
  s ← read_given_char 91 s;
  '(ip, s) ← read_ipv6_addr s;
  let '(scope_id, s) := default (0, s) (read_scope_id s) in
  s ← read_given_char 93 s;
  '(port, s) ← read_port s;
  Some (V6 ip port 0 scope_id, s).

(** [str::parse::<SocketAddr>]. *)
Definition parse_socket_addr (s : bytes) : option SocketAddr :=
  match (match read_socket_addr_v4 s with Some r => Some r | None => read_socket_addr_v6 s end) with
  | Some (a, []) => Some a
  | _ => None
  end.

(** ** Endpoints *)

Inductive Endpoint :=
| Tcp (addr : SocketAddr)
| Ipc (path : bytes)
| Inproc (name : bytes).

Inductive EndpointError :=
| InvalidScheme (s : bytes)
| InvalidTcpAddress (s : bytes)
| InvalidInprocName (reason : bytes)
| IpcNotSupported
| EndpointIo (e : ErrorKind).

Definition strip_prefix (s prefix : bytes) : option bytes :=
  if starts_with s prefix then Some (drop (length prefix) s) else None.

Definition endpoint_from_str (s : bytes) : result EndpointError Endpoint :=
  match strip_prefix s (ascii_bytes "tcp://") with
  | Some addr =>
      match parse_socket_addr addr with
      | Some a => Ok (Tcp a)
      | None => Err (InvalidTcpAddress addr)
      end
  | None =>
      match strip_prefix s (ascii_bytes "ipc://") with
      | Some path => if negb (starts_with path (ascii_bytes "/")) then Err (InvalidScheme s) else Ok (Ipc path)
      | None =>
          match strip_prefix s (ascii_bytes "inproc://") with
          | Some name =>
              if bool_decide (name = []) then Err (InvalidInprocName (ascii_bytes "inproc name cannot be empty"))
              else Ok (Inproc name)
          | None => Err (InvalidScheme s)
          end
      end
  end.

(** [Path::display]: every maximal malformed sequence, as [Utf8Chunks] cuts them, is
    printed as U+FFFD. *)
Definition is_cont (b : byte) : bool := in_range 0x80 0xBF b.
Definition lead3 (b c : byte) : bool :=
  (in_range 0xE0 0xE0 b && in_range 0xA0 0xBF c) || (in_range 0xE1 0xEC b && in_range 0x80 0xBF c)
  || (in_range 0xED 0xED b && in_range 0x80 0x9F c) || (in_range 0xEE 0xEF b && in_range 0x80 0xBF c).
Definition lead4 (b c : byte) : bool :=
  (in_range 0xF0 0xF0 b && in_range 0x90 0xBF c) || (in_range 0xF1 0xF3 b && in_range 0x80 0xBF c)
  || (in_range 0xF4 0xF4 b && in_range 0x80 0x8F c).

Definition replacement : bytes := [u8 0xEF; u8 0xBF; u8 0xBD].

Fixpoint path_display (bs : bytes) : bytes :=
  match bs with
  | [] => []
  | b :: bs1 =>
      if in_range 0x00 0x7F b then b :: path_display bs1
      else match bs1 with
      | [] => replacement
      | c1 :: bs2 =>
          if in_range 0xC2 0xDF b && is_cont c1 then b :: c1 :: path_display bs2
          else if lead3 b c1 then
            match bs2 with
            | [] => replacement
            | c2 :: bs3 => if is_cont c2 then b :: c1 :: c2 :: path_display bs3 else replacement ++ path_display bs2
            end
          else if lead4 b c1 then
            match bs2 with
            | [] => replacement
            | c2 :: bs3 =>
                if is_cont c2 then
                  match bs3 with
                  | [] => replacement
                  | c3 :: bs4 => if is_cont c3 then b :: c1 :: c2 :: c3 :: path_display bs4 else replacement ++ path_display bs3
                  end
                else replacement ++ path_display bs2
            end
          else replacement ++ path_display bs1
      end
  end.

Definition endpoint_display (e : Endpoint) : bytes :=
  match e with
  | Tcp addr => ascii_bytes "tcp://" ++ display_addr addr
  | Ipc path => ascii_bytes "ipc://" ++ path_display path
  | Inproc name => ascii_bytes "inproc://" ++ name
  end.

Definition is_tcp (e : Endpoint) : bool := match e with Tcp _ => true | _ => false end.
Definition is_ipc (e : Endpoint) : bool := match e with Ipc _ => true | _ => false end.
Definition is_inproc (e : Endpoint) : bool := match e with Inproc _ => true | _ => false end.

(** [parse_tcp_endpoint]: with or without the scheme. *)
Definition parse_tcp_endpoint (endpoint : bytes) : io_result SocketAddr :=
  match endpoint_from_str endpoint with
  | Ok (Tcp addr) => Ok addr
  | _ => match parse_socket_addr endpoint with Some a => Ok a | None => Err InvalidInput end
  end.

(** ** Numbers round trip *)

Definition value (radix acc : Z) (ds : list Z) : Z := foldl (λ acc d, acc * radix + d) acc ds.

Definition stops (radix : Z) (rest : bytes) : Prop := match rest with [] => True | b :: _ => to_digit radix b = None end.

Lemma to_digit_char radix d : 0 <= d < radix -> radix <= 16 -> to_digit radix (digit_char d) = Some d.
Proof.
  intros Hd Hr. unfold to_digit, digit_char. destruct (Z.ltb_spec d 10); rewrite u8_val_small by lia.
  - rewrite (proj2 (Z.leb_le 48 _)), (proj2 (Z.leb_le (48 + d) 57)) by lia. cbn [andb].
    replace (48 + d - 48) with d by lia. by rewrite (proj2 (Z.ltb_lt _ _)) by lia.
  - rewrite (proj2 (Z.leb_gt (87 + d) 57)), andb_false_r, (proj2 (Z.leb_le 97 _)), (proj2 (Z.leb_le (87 + d) 122)) by lia.
    cbn [andb]. replace (87 + d - 87) with d by lia. by rewrite (proj2 (Z.ltb_lt _ _)) by lia.
Qed.

Lemma value_ge radix ds acc : 1 <= radix -> 0 <= acc -> Forall (λ d, 0 <= d) ds -> acc <= value radix acc ds.
Proof.
  intros Hr. revert acc. induction ds as [|d ds IH]; intros acc Hacc Hds; [cbn; lia|].
  apply list.Forall_cons in Hds as [Hd Hds]. cbn. etrans; [|apply IH; [nia|done]]. nia.
Qed.

Lemma read_digits_app radix max md ds result count rest :
  2 <= radix <= 16 -> Forall (λ d, 0 <= d < radix) ds -> 0 <= result -> value radix result ds <= max ->
  match md with Some m => count + len ds <= m | None => True end -> stops radix rest ->
  read_digits radix max md result count ((digit_char <$> ds) ++ rest) = Some (value radix result ds, count + len ds, rest).
Proof.
  intros Hr. revert result count. induction ds as [|d ds IH]; intros result count Hds Hres Hv Hm Hrest.
  - change (len []) with 0. rewrite Z.add_0_r. destruct rest as [|b rest]; cbn [fmap list_fmap app read_digits]; [done|]. by rewrite Hrest.
  - apply list.Forall_cons in Hds as [Hd Hds]. rewrite len_cons in *. cbn [fmap list_fmap app read_digits].
    rewrite to_digit_char by lia. pose proof (value_ge radix ds (result * radix + d)) as Hge.
    assert (Hge' : result * radix + d <= max).
    { etrans; [apply Hge; [lia|nia|]|exact Hv]. eapply list.Forall_impl; [exact Hds|]. intros x Hx; cbn in Hx; lia. }
    rewrite (proj2 (Z.ltb_ge _ _)) by lia.
    assert (Hmd : match md with Some m => m <? count + 1 | None => false end = false).
    { destruct md as [m|]; [|done]. apply Z.ltb_ge. pose proof (len_nonneg ds). lia. }
    rewrite Hmd, IH; [by rewrite <- Z.add_assoc|done|nia|exact Hv| |done].
    destruct md; [lia|done].
Qed.

Lemma digits_spec radix fuel n :
  2 <= radix -> 0 <= n < radix ^ Z.of_nat fuel -> (0 < fuel)%nat ->
  value radix 0 (digits radix fuel n) = n /\ Forall (λ d, 0 <= d < radix) (digits radix fuel n) /\
  (length (digits radix fuel n) <= fuel)%nat /\ digits radix fuel n <> [] /\
  (head (digits radix fuel n) = Some 0 -> n = 0).
Proof.
  intros Hr. revert n. induction fuel as [|fuel IH]; intros n Hn Hpos; [lia|].
  rewrite Nat2Z.inj_succ, Z.pow_succ_r in Hn by lia. cbn [digits]. destruct (Z.ltb_spec n radix) as [Hlt|Hge].
  - split_and!; [cbn; lia|by constructor; [lia|constructor]|cbn; lia|done|by intros [= ->]].
  - destruct (IH (n / radix)) as (Hv & Hf & Hl & Hne & Hz).
    { split; [apply Z.div_pos; lia|apply Z.div_lt_upper_bound; lia]. }
    { destruct fuel; [cbn in Hn|]; lia. }
    pose proof (Z.mod_pos_bound n radix ltac:(lia)). split_and!.
    + unfold value in *. rewrite foldl_snoc, Hv. rewrite (Z.div_mod n radix) at 3 by lia. lia.
    + apply Forall_app. split; [done|]. by constructor; [lia|constructor].
    + rewrite length_app. cbn. lia.
    + intros E. by apply app_nil in E as [_ ?].
    + destruct (digits radix fuel (n / radix)) as [|d ds]; [done|]. cbn [app head]. intros E. specialize (Hz E).
      apply Z.div_small_iff in Hz; lia.
Qed.

Lemma digit_char_zero d : 0 <= d < 16 -> digit_char d = u8 48 -> d = 0.
Proof.
  intros Hd E. apply (f_equal u8_val) in E. unfold digit_char in E.
  destruct (Z.ltb_spec d 10); rewrite !u8_val_small in E by lia; lia.
Qed.

(** Reading back a printed number. *)
Lemma read_number_digits radix max md zero fuel n rest :
  2 <= radix <= 16 -> 0 <= n <= max -> n < radix ^ Z.of_nat fuel -> (0 < fuel)%nat ->
  match md with Some m => Z.of_nat fuel <= m | None => True end -> stops radix rest ->
  read_number radix max md zero ((digit_char <$> digits radix fuel n) ++ rest) = Some (n, rest).
Proof.
  intros Hr Hn Hf Hpos Hm Hrest. destruct (digits_spec radix fuel n) as (Hv & Hds & Hl & Hne & Hz); [lia..|].
  unfold read_number. rewrite read_digits_app; [|lia|done|lia|lia| |done].
  2:{ destruct md; [unfold len; lia|done]. }
  cbn [mbind option_bind]. rewrite Hv, Z.add_0_l. destruct (digits radix fuel n) as [|d ds] eqn:E; [done|].
  rewrite len_cons. pose proof (len_nonneg ds). rewrite (proj2 (Z.eqb_neq _ _)) by lia.
  cbn [fmap list_fmap app head]. case_bool_decide as Hz0; [|by rewrite andb_false_r].
  injection Hz0 as Hz0. apply list.Forall_cons in Hds as [Hd _]. apply digit_char_zero in Hz0; [|lia]. subst d.
  rewrite (Hz eq_refl) in E. assert (ds = []) as ->; [|by rewrite andb_comm].
  destruct fuel as [|fuel]; [lia|]. cbn [digits] in E. rewrite (proj2 (Z.ltb_lt _ _)) in E by lia. by injection E.
Qed.

Lemma read_octet_fmt n rest : octet_ok n -> stops 10 rest -> read_octet (fmt_dec n ++ rest) = Some (n, rest).
Proof.
  intros Hn Hrest. unfold octet_ok in Hn. unfold read_octet, fmt_dec.
  assert (E : digits 10 10 n = digits 10 3 n).
  { destruct (decide (n < 10)); [cbn [digits]; by rewrite (proj2 (Z.ltb_lt _ _)) by lia|].
    cbn [digits]. rewrite (proj2 (Z.ltb_ge n 10)) by lia. f_equal.
    destruct (decide (n / 10 < 10)); [by rewrite (proj2 (Z.ltb_lt _ _)) by lia|].
    rewrite (proj2 (Z.ltb_ge (n / 10) 10)) by lia. f_equal.
    assert (n / 10 / 10 < 10) by (rewrite Z.div_div by lia; apply Z.div_lt_upper_bound; lia).
    by rewrite (proj2 (Z.ltb_lt _ _)) by lia. }
  rewrite E. apply read_number_digits; try done; cbn; lia.
Qed.

Lemma read_group_fmt n rest : u16_ok n -> stops 16 rest -> read_group (fmt_hex n ++ rest) = Some (n, rest).
Proof. intros Hn Hrest. unfold u16_ok in Hn. apply read_number_digits; try done; cbn; lia. Qed.

(** ** Addresses round trip *)

Lemma stops_16_10 rest : stops 16 rest -> stops 10 rest.
Proof.
  destruct rest as [|b rest]; [done|]. cbn. intros E.
  pose proof (byte_forall_bool (λ b, bool_decide (is_Some (to_digit 16 b)) || bool_decide (to_digit 10 b = None)) b) as H.
  rewrite orb_true_iff, !bool_decide_eq_true in H. destruct H as [[x H]|H]; [vm_compute; reflexivity|congruence|done].
Qed.

Lemma read_given_char_eq c s : read_given_char c (u8 c :: s) = Some s.
Proof. cbn. by rewrite bool_decide_eq_true_2. Qed.

Lemma read_number_none radix max md zero rest : stops radix rest -> read_number radix max md zero rest = None.
Proof.
  intros Hs. unfold read_number. destruct rest as [|b rest]; [done|]. cbn [read_digits]. by rewrite Hs.
Qed.

Lemma read_ipv4_none rest : stops 10 rest -> read_ipv4_addr rest = None.
Proof. intros Hs. unfold read_ipv4_addr, read_separator, read_octet. by rewrite read_number_none. Qed.

Lemma read_ipv4_display octets rest :
  length octets = 4%nat -> Forall octet_ok octets -> stops 10 rest ->
  read_ipv4_addr (display_v4 octets ++ rest) = Some (octets, rest).
Proof.
  intros Hl Hok Hrest. destruct octets as [|a [|b [|c [|d []]]]]; try done.
  repeat (apply list.Forall_cons in Hok as [? Hok]). unfold read_ipv4_addr, read_separator, display_v4.
  cbn [fmap list_fmap sep_by concat app]. rewrite <- !app_assoc. cbn [app]. rewrite app_nil_r, <- !app_assoc.
  do 3 (rewrite read_octet_fmt by done; cbn [app mbind option_bind]; rewrite read_given_char_eq, <- ?app_assoc; cbn [app mbind option_bind]).
  by rewrite read_octet_fmt.
Qed.

(** Hexadecimal digits that no dot follows are no IPv4 address. *)
Lemma read_digits_hex max md result count ds rest r n k :
  Forall (λ d, 0 <= d < 16) ds -> stops 10 rest -> head rest <> Some (u8 46) ->
  read_digits 10 max md result count ((digit_char <$> ds) ++ rest) = Some (n, k, r) -> head r <> Some (u8 46).
Proof.
  revert result count. induction ds as [|d ds IH]; intros result count Hds Hrest Hdot.
  - cbn [fmap list_fmap app]. destruct rest as [|b rest]; cbn [read_digits]; [by intros [= _ _ <-]|].
    cbn in Hrest. rewrite Hrest. by intros [= _ _ <-].
  - apply list.Forall_cons in Hds as [Hd Hds]. cbn [fmap list_fmap app read_digits].
    destruct (to_digit 10 (digit_char d)) as [x|].
    + case_match; [done|]. case_match; [done|]. by apply IH.
    + intros [= _ _ <-]. cbn. intros [= E]. apply (f_equal u8_val) in E. unfold digit_char in E.
      destruct (Z.ltb_spec d 10); rewrite !u8_val_small in E by lia; lia.
Qed.

Lemma read_ipv4_hex ds rest :
  Forall (λ d, 0 <= d < 16) ds -> stops 10 rest -> head rest <> Some (u8 46) ->
  read_ipv4_addr ((digit_char <$> ds) ++ rest) = None.
Proof.
  intros Hds Hrest Hdot. unfold read_ipv4_addr, read_separator.
  destruct (read_octet ((digit_char <$> ds) ++ rest)) as [[n r]|] eqn:E; [|done]. cbn [mbind option_bind].
  assert (Hr : list.head r <> Some (u8 46)).
  { unfold read_octet, read_number in E.
    destruct (read_digits 10 255 (Some 3) 0 0 _) as [[[n' k] r']|] eqn:E' in E; [|done]. cbn [mbind option_bind] in E.
    apply read_digits_hex in E'; [|done..]. case_match; [done|]. case_match; [done|]. by injection E as _ <-. }
  destruct r as [|b r]; [done|]. cbn [read_given_char]. case_bool_decide as Hb; [|done]. by subst b.
Qed.

(** Where a list of groups ends. *)
Definition group_stop (rest : bytes) : Prop :=
  stops 16 rest /\ head rest <> Some (u8 46) /\ forall r, rest = u8 58 :: r -> stops 16 r.

Lemma read_groups_stop slots first rest : group_stop rest -> read_groups slots first rest = ([], false, rest).
Proof.
  intros (Hs & _ & Hr). destruct slots as [|slots]; [done|]. cbn [read_groups].
  assert (Hnone : read_separator 58 first read_ipv4_addr rest = None /\ read_separator 58 first read_group rest = None).
  { unfold read_separator, read_group. destruct first.
    - split; [by apply read_ipv4_none, stops_16_10|by apply read_number_none].
    - destruct rest as [|b rest]; [done|]. cbn [read_given_char]. case_bool_decide as Hb; [|done]. subst b.
      specialize (Hr rest eq_refl). cbn [mbind option_bind]. split; [by apply read_ipv4_none, stops_16_10|by apply read_number_none]. }
  destruct Hnone as [-> ->]. by destruct (bool_decide _).
Qed.

Lemma fmt_hex_digits n : u16_ok n -> Forall (λ d, 0 <= d < 16) (digits 16 4 n).
Proof. intros Hn. unfold u16_ok in Hn. apply digits_spec; cbn; lia. Qed.

(** One group, whatever separator was read before it. *)
Lemma read_group_step slots g rest :
  u16_ok g -> stops 16 rest -> head rest <> Some (u8 46) ->
  (if bool_decide (slots = O) then None else read_ipv4_addr (fmt_hex g ++ rest)) = None /\
  read_group (fmt_hex g ++ rest) = Some (g, rest).
Proof.
  intros Hg Hs Hdot. split; [|by apply read_group_fmt]. case_bool_decide; [done|].
  apply read_ipv4_hex; [by apply fmt_hex_digits|by apply stops_16_10|done].
Qed.

Definition more_groups (gs : list Z) : bytes := concat ((λ q, u8 58 :: q) <$> (fmt_hex <$> gs)).

Lemma more_groups_stop gs rest : stops 16 rest -> head rest <> Some (u8 46) ->
  stops 16 (more_groups gs ++ rest) /\ head (more_groups gs ++ rest) <> Some (u8 46).
Proof. by destruct gs. Qed.

Lemma read_more_groups gs slots rest :
  Forall u16_ok gs -> (length gs <= slots)%nat -> group_stop rest ->
  read_groups slots false (more_groups gs ++ rest) = (gs, false, rest).
Proof.
  intros Hgs. revert slots. induction Hgs as [|g gs Hg Hgs IH]; intros slots Hl Hstop; [by apply read_groups_stop|].
  cbn [length] in Hl. destruct slots as [|slots]; [lia|]. destruct (more_groups_stop gs rest (proj1 Hstop) (proj1 (proj2 Hstop))) as [Hs Hdot].
  change (more_groups (g :: gs)) with (u8 58 :: fmt_hex g ++ more_groups gs). cbn [app read_groups read_separator].
  rewrite !read_given_char_eq. cbn [mbind option_bind]. rewrite <- app_assoc.
  destruct (read_group_step slots g _ Hg Hs Hdot) as [-> ->]. rewrite IH by (done || lia). done.
Qed.

Lemma read_groups_fmt gs slots rest :
  Forall u16_ok gs -> (length gs <= slots)%nat -> group_stop rest ->
  read_groups slots true (fmt_subslice gs ++ rest) = (gs, false, rest).
Proof.
  intros Hgs Hl Hstop. destruct gs as [|g gs]; [by apply read_groups_stop|].
  apply list.Forall_cons in Hgs as [Hg Hgs]. cbn [length] in Hl. destruct slots as [|slots]; [lia|].
  destruct (more_groups_stop gs rest (proj1 Hstop) (proj1 (proj2 Hstop))) as [Hs Hdot].
  change (fmt_subslice (g :: gs)) with (fmt_hex g ++ more_groups gs). rewrite <- app_assoc. cbn [read_groups read_separator].
  destruct (read_group_step slots g _ Hg Hs Hdot) as [-> ->]. rewrite read_more_groups by (done || lia). done.
Qed.

(** A span of zeros of [l]. *)
Definition zero_run (l : list Z) (span : nat * nat) : Prop :=
  span.2 <> 0%nat -> forall k, (span.1 <= k < span.1 + span.2)%nat -> l !! k = Some 0.

Lemma zero_run_nil l : zero_run l (0, 0)%nat.
Proof. by intros []. Qed.

Lemma zero_span_run segments l i current longest :
  drop i l = segments -> zero_run l current -> (current.2 = 0 \/ current.1 + current.2 = i)%nat -> zero_run l longest ->
  zero_run l (zero_span segments i current longest).
Proof.
  revert i current longest. induction segments as [|s segments IH]; intros i current longest Hd Hc Hi Hl; [done|].
  cbn [zero_span].
  assert (Hs : l !! i = Some s).
  { apply (f_equal (lookup 0%nat)) in Hd. by rewrite lookup_drop, Nat.add_0_r in Hd. }
  assert (Hd' : drop (S i) l = segments).
  { apply (f_equal (drop 1)) in Hd. rewrite drop_drop, Nat.add_1_r in Hd. by rewrite Hd. }
  destruct (Z.eqb_spec s 0) as [->|]; [|apply IH; [done|apply zero_run_nil|by left|done]].
  set (current' := if bool_decide _ then _ else _).
  assert (Hc' : zero_run l current' /\ (current'.1 + current'.2 = S i)%nat).
  { unfold current'. case_bool_decide as H0; cbn [fst snd].
    - split; [|lia]. intros _ k Hk. cbn in Hk. by replace k with i by lia.
    - destruct Hi as [?|Hi]; [done|]. split; [|lia]. intros _ k Hk. cbn in Hk.
      destruct (decide (k = i)) as [->|]; [done|]. apply Hc; [done|lia]. }
  destruct Hc' as [Hc' Hi']. apply IH; [done|done|by right|]. by case_bool_decide.
Qed.

Lemma zero_run_split l start n :
  zero_run l (start, n) -> n <> 0%nat -> take start l ++ replicate n 0 ++ drop (start + n) l = l /\ (start + n <= length l)%nat.
Proof.
  intros Hr Hn. specialize (Hr Hn). cbn in Hr.
  assert (Hle : (start + n <= length l)%nat).
  { pose proof (Hr (start + n - 1)%nat ltac:(lia)) as Hk. apply lookup_lt_Some in Hk. lia. }
  split; [|done]. rewrite <- (take_drop start l) at 3. f_equal. rewrite <- (take_drop n (drop start l)). f_equal; [|by rewrite drop_drop].
  apply replicate_as_elem_of. split; [rewrite length_take, length_drop; lia|].
  intros x Hx. apply list_elem_of_lookup in Hx as [k Hk]. apply lookup_take_Some in Hk as [Hk Hlt].
  rewrite lookup_drop, Hr in Hk by lia. by injection Hk.
Qed.

Lemma colons_stop rest : group_stop (ascii_bytes "::" ++ rest).
Proof. split_and!; [done|done|]. by intros r [= <-]. Qed.

Lemma mapped_groups g h : u16_ok g -> u16_ok h ->
  Forall octet_ok [g / 256; g mod 256; h / 256; h mod 256] /\ groups_of [g / 256; g mod 256; h / 256; h mod 256] = [g; h].
Proof.
  unfold u16_ok. intros Hg Hh. pose proof (Z.mod_pos_bound g 256). pose proof (Z.mod_pos_bound h 256).
  pose proof (Z.div_mod g 256). pose proof (Z.div_mod h 256). split.
  - repeat constructor; unfold octet_ok; try lia; (apply Z.div_pos || (assert (g / 256 < 256 /\ h / 256 < 256) by
      (split; apply Z.div_lt_upper_bound; lia))); lia.
  - cbn. f_equal; [lia|f_equal; lia].
Qed.

Lemma read_mapped g h rest :
  u16_ok g -> u16_ok h -> stops 10 rest ->
  read_ipv6_addr (ascii_bytes "::ffff:" ++ display_v4 [g / 256; g mod 256; h / 256; h mod 256] ++ rest) =
    Some ([0; 0; 0; 0; 0; 65535; g; h], rest).
Proof.
  intros Hg Hh Hrest. destruct (mapped_groups g h Hg Hh) as [Hok Hgs]. set (octets := [_; _; _; _]) in *.
  set (v4 := display_v4 octets ++ rest).
  change (ascii_bytes "::ffff:" ++ v4) with (ascii_bytes "::" ++ (ascii_bytes "ffff:" ++ v4)).
  unfold read_ipv6_addr. rewrite read_groups_stop by apply colons_stop. cbn [length bool_decide].
  rewrite bool_decide_eq_false_2 by done. change (ascii_bytes "::" ++ ?x) with (u8 58 :: u8 58 :: x).
  rewrite read_given_char_eq. cbn [mbind option_bind]. rewrite read_given_char_eq. cbn [mbind option_bind].
  change (ascii_bytes "ffff:" ++ v4) with (fmt_hex 65535 ++ u8 58 :: v4). change (8 - (0 + 1))%nat with 7%nat.
  destruct (read_group_step 6 65535 (u8 58 :: v4)) as [E1 E2]; [done..|].
  cbn [read_groups read_separator]. rewrite E1, E2. rewrite bool_decide_eq_false_2 by done.
  rewrite read_given_char_eq. cbn [mbind option_bind]. unfold v4. rewrite read_ipv4_display by done. by rewrite Hgs.
Qed.

Lemma read_ipv6_display segments rest :
  length segments = 8%nat -> Forall u16_ok segments -> group_stop rest ->
  read_ipv6_addr (display_v6 segments ++ rest) = Some (segments, rest).
Proof.
  intros Hl Hok Hstop. unfold display_v6. destruct (to_ipv4_mapped segments) as [octets|] eqn:Em.
  { unfold to_ipv4_mapped in Em. destruct segments as [|a [|b [|c [|d [|e [|f [|g [|h []]]]]]]]]; try done.
    destruct (forallb _ _ && _) eqn:Ez in Em; [|done]. injection Em as <-. cbn [forallb] in Ez. bool_prop. subst.
    repeat (apply list.Forall_cons in Hok as [? Hok]). rewrite <- app_assoc. apply read_mapped; [done..|].
    apply stops_16_10, (proj1 Hstop). }
  destruct (zero_span segments 0 (0, 0)%nat (0, 0)%nat) as [start n] eqn:Ez.
  assert (Hr : zero_run segments (start, n)).
  { rewrite <- Ez. apply zero_span_run; [done|apply zero_run_nil|by left|apply zero_run_nil]. }
  destruct (Nat.ltb_spec 1 n) as [Hn|Hn].
  2:{ unfold read_ipv6_addr. rewrite read_groups_fmt by (done || lia). by rewrite bool_decide_eq_true_2. }
  destruct (zero_run_split segments start n Hr) as [Hsplit Hle]; [lia|].
  unfold read_ipv6_addr. rewrite <- app_assoc.
  assert (Hlt : length (take start segments) = start) by (rewrite length_take; lia).
  rewrite read_groups_fmt; [|by apply Forall_take|lia|rewrite <- app_assoc; apply colons_stop].
  rewrite Hlt, bool_decide_eq_false_2 by lia. rewrite <- app_assoc. change (ascii_bytes "::" ++ ?x) with (u8 58 :: u8 58 :: x).
  rewrite read_given_char_eq. cbn [mbind option_bind]. rewrite read_given_char_eq. cbn [mbind option_bind].
  rewrite read_groups_fmt; [|by apply Forall_drop|rewrite length_drop; lia|done].
  rewrite length_drop, Hl. replace (8 - start - (8 - (start + n)))%nat with n by lia. by rewrite Hsplit.
Qed.

(** ** Addresses round trip *)

Lemma read_port_fmt port : u16_ok port -> read_port (u8 58 :: fmt_dec port) = Some (port, []).
Proof.
  intros Hp. unfold read_port. rewrite read_given_char_eq. cbn [mbind option_bind]. rewrite <- (app_nil_r (fmt_dec port)).
  apply read_number_digits; unfold u16_ok in Hp; (done || lia).
Qed.

Lemma read_scope_fmt scope_id rest :
  0 <= scope_id <= u32_max -> stops 10 rest -> read_scope_id (u8 37 :: fmt_dec scope_id ++ rest) = Some (scope_id, rest).
Proof.
  intros Hs Hrest. unfold read_scope_id. rewrite read_given_char_eq. cbn [mbind option_bind].
  apply read_number_digits; unfold u32_max in *; (done || lia).
Qed.

Lemma read_v4_bracket rest : read_socket_addr_v4 (u8 91 :: rest) = None.
Proof. unfold read_socket_addr_v4. by rewrite read_ipv4_none. Qed.

(** What the text of an address keeps: everything but the flow label. *)
Definition printable (a : SocketAddr) : Prop :=
  addr_ok a /\ match a with V4 _ _ => True | V6 _ _ flowinfo _ => flowinfo = 0 end.

Lemma addr_roundtrip a : printable a -> parse_socket_addr (display_addr a) = Some a.
Proof.
  intros [Ha Hf]. unfold parse_socket_addr. destruct a as [octets port|segments port flowinfo scope_id]; cbn in Ha, Hf; unfold display_addr.
  - destruct Ha as (Hl & Ho & Hp). unfold read_socket_addr_v4. rewrite read_ipv4_display by done.
    cbn [mbind option_bind]. by rewrite read_port_fmt.
  - destruct Ha as (Hl & Ho & Hp & Hs). subst flowinfo. rewrite read_v4_bracket. unfold read_socket_addr_v6.
    rewrite read_given_char_eq. cbn [mbind option_bind]. rewrite read_ipv6_display; [|done..|].
    2:{ destruct (scope_id =? 0); split_and!; try done; intros r [=]. }
    cbn [mbind option_bind]. destruct (Z.eqb_spec scope_id 0) as [->|Hne]; cbn [app].
    + unfold read_scope_id at 1. cbn [read_given_char mbind option_bind default].
      rewrite bool_decide_eq_false_2 by done. cbn [default mbind option_bind]. rewrite read_given_char_eq. cbn [mbind option_bind].
      by rewrite read_port_fmt.
    + rewrite read_scope_fmt by done. cbn [default]. unfold id. rewrite read_given_char_eq. cbn [mbind option_bind].
      by rewrite read_port_fmt.
Qed.

(** ** What the parser returns is an address *)

Lemma to_digit_nonneg radix b d : 0 < radix -> to_digit radix b = Some d -> 0 <= d.
Proof.
  intros Hr. unfold to_digit. set (v := u8_val b). intros E. case_match; [|done]. injection E as <-.
  destruct ((48 <=? v) && (v <=? 57)) eqn:E1; [bool_prop; lia|].
  destruct ((97 <=? v) && (v <=? 122)) eqn:E2; [bool_prop; lia|].
  destruct ((65 <=? v) && (v <=? 90)) eqn:E3; [bool_prop; lia|lia].
Qed.

Lemma read_digits_bounds radix max md s result count r :
  0 < radix -> 0 <= result <= max -> read_digits radix max md result count s = Some r -> 0 <= r.1.1 <= max.
Proof.
  intros Hr. revert result count. induction s as [|b s IH]; intros result count Hres E; cbn [read_digits] in E; [by injection E as <-|].
  destruct (to_digit radix b) as [d|] eqn:Ed; [|by injection E as <-]. apply to_digit_nonneg in Ed; [|done].
  destruct (Z.ltb_spec max (result * radix + d)); [done|]. destruct (match md with Some _ => _ | None => _ end); [done|].
  eapply IH; [|exact E]. nia.
Qed.

Lemma read_number_bounds radix max md zero s n rest :
  0 < radix -> 0 <= max -> read_number radix max md zero s = Some (n, rest) -> 0 <= n <= max.
Proof.
  intros Hr Hm. unfold read_number. destruct (read_digits radix max md 0 0 s) as [[[v c] r]|] eqn:E; [|done].
  apply read_digits_bounds in E; [|lia..]. cbn in E |- *. intros H. repeat case_match; by simplify_eq.
Qed.

Lemma read_separator_inv {A} c first (inner : bytes -> option (A * bytes)) s r :
  read_separator c first inner s = Some r -> exists s', inner s' = Some r.
Proof. unfold read_separator. destruct first; [by exists s|]. intros (s' & _ & E)%bind_Some. by exists s'. Qed.

Lemma read_octet_sound c first s n rest : read_separator c first read_octet s = Some (n, rest) -> octet_ok n.
Proof. intros (s' & E)%read_separator_inv. by eapply read_number_bounds in E. Qed.

Lemma read_ipv4_sound s octets rest :
  read_ipv4_addr s = Some (octets, rest) -> length octets = 4%nat /\ Forall octet_ok octets.
Proof.
  unfold read_ipv4_addr. intros H.
  repeat (apply bind_Some in H as ([? ?] & ?%read_octet_sound & H)).
  simplify_eq. split; [done|]. by repeat (apply list.Forall_cons; split; [done|]).
Qed.

Lemma groups_of_ok octets : length octets = 4%nat -> Forall octet_ok octets ->
  length (groups_of octets) = 2%nat /\ Forall u16_ok (groups_of octets).
Proof.
  intros Hl Ho. destruct octets as [|a [|b [|c [|d []]]]]; try done.
  repeat (apply list.Forall_cons in Ho as [? Ho]). unfold octet_ok, u16_ok in *.
  split; [done|]. repeat constructor; lia.
Qed.

Lemma read_groups_sound slots first s gs v4 rest :
  read_groups slots first s = (gs, v4, rest) -> (length gs <= slots)%nat /\ Forall u16_ok gs.
Proof.
  revert first s gs v4 rest. induction slots as [|slots IH]; intros first s gs v4 rest E; cbn [read_groups] in E; [by simplify_eq|].
  destruct (if bool_decide _ then _ else _) as [[octets s']|] eqn:E4.
  - case_bool_decide as Hs; [done|]. apply read_separator_inv in E4 as (s0 & E4). apply read_ipv4_sound in E4 as [Hl Ho].
    injection E as <- <- <-. destruct (groups_of_ok octets Hl Ho) as [Hg ?]. split; [lia|done].
  - destruct (read_separator 58 first read_group s) as [[g s']|] eqn:Eg; [|by simplify_eq; split; [cbn; lia|]].
    apply read_separator_inv in Eg as (s0 & Eg%read_number_bounds); [|done..].
    destruct (read_groups slots false s') as [[gs' v4'] s''] eqn:Er. simplify_eq. apply IH in Er as [Hl Hg].
    split; [cbn; lia|by constructor].
Qed.

Lemma read_ipv6_sound s segments rest :
  read_ipv6_addr s = Some (segments, rest) -> length segments = 8%nat /\ Forall u16_ok segments.
Proof.
  unfold read_ipv6_addr. destruct (read_groups 8 true s) as [[hd v4] s'] eqn:E. apply read_groups_sound in E as [Hl Hg].
  case_bool_decide as H8; [by intros [= <- <-]|]. destruct v4; [done|].
  intros (s1 & _ & (s2 & _ & H)%bind_Some)%bind_Some.
  destruct (read_groups _ true s2) as [[tl v4'] s3] eqn:E. apply read_groups_sound in E as [Hl' Hg']. injection H as <- <-.
  split; [rewrite !length_app, length_replicate; lia|].
  apply Forall_app. split; [done|]. apply Forall_app. split; [|done]. by apply Forall_replicate.
Qed.

Lemma parse_addr_printable s a : parse_socket_addr s = Some a -> printable a.
Proof.
  unfold parse_socket_addr, read_socket_addr_v4, read_socket_addr_v6. intros H.
  destruct (read_ipv4_addr s ≫= _) as [[a' r]|] eqn:E4.
  - destruct r; [|done]. injection H as ->. apply bind_Some in E4 as ([ip s1] & Hip%read_ipv4_sound & E4).
    apply bind_Some in E4 as ([port s2] & Hp & [= <- _]). unfold read_port in Hp.
    apply bind_Some in Hp as (s3 & _ & Hp%read_number_bounds); [|done..]. by split; [split_and!; apply Hip || apply Hp|].
  - destruct (read_given_char 91 s ≫= _) as [[a' r]|] eqn:E6; [|done]. destruct r; [|done]. injection H as ->.
    apply bind_Some in E6 as (s0 & _ & E6). apply bind_Some in E6 as ([ip s1] & Hip%read_ipv6_sound & E6).
    assert (Hsc : 0 <= (default (0, s1) (read_scope_id s1)).1 <= u32_max).
    { destruct (read_scope_id s1) as [[sc s2]|] eqn:Es; [|done]. apply bind_Some in Es as (s3 & _ & Es%read_number_bounds); [|done..]. done. }
    destruct (default (0, s1) (read_scope_id s1)) as [sc s2]. cbn in Hsc.
    apply bind_Some in E6 as (s3 & _ & E6). apply bind_Some in E6 as ([port s4] & Hp & [= <- _]).
    apply bind_Some in Hp as (s5 & _ & Hp%read_number_bounds); [|done..].
    by split; [split_and!; try apply Hip; try apply Hp; apply Hsc|].
Qed.

(** ** Endpoints *)

(** A valid text is printed as it is, and what is printed is valid. *)
Lemma utf8_replacement bs : utf8_valid (replacement ++ bs) = utf8_valid bs.
Proof. reflexivity. Qed.

(** The width of a leading byte is determined by it. *)
Lemma lead_apart b c : (in_range 0xC2 0xDF b = true -> lead3 b c = false /\ lead4 b c = false) /\ (lead3 b c = true -> lead4 b c = false).
Proof.
  unfold lead3, lead4, in_range.
  split; [intros [H1%Z.leb_le H2%Z.leb_le]%andb_true_iff; split|intros Hl];
    repeat (match goal with
    | |- context [Z.leb ?a (u8_val b)] => destruct (Z.leb_spec a (u8_val b))
    | |- context [Z.leb (u8_val b) ?a] => destruct (Z.leb_spec (u8_val b) a)
    | H : context [Z.leb ?a (u8_val b)] |- _ => destruct (Z.leb_spec a (u8_val b))
    | H : context [Z.leb (u8_val b) ?a] |- _ => destruct (Z.leb_spec (u8_val b) a)
    end; try lia); cbn in *; try done; lia.
Qed.

Lemma utf8_valid_step b bs1 :
  utf8_valid (b :: bs1) =
    if in_range 0x00 0x7F b then utf8_valid bs1
    else match bs1 with
    | [] => false
    | c1 :: bs2 =>
        if in_range 0xC2 0xDF b then is_cont c1 && utf8_valid bs2
        else match bs2 with
        | [] => false
        | c2 :: bs3 =>
            if lead3 b c1 then is_cont c2 && utf8_valid bs3
            else match bs3 with [] => false | c3 :: bs4 => lead4 b c1 && is_cont c2 && is_cont c3 && utf8_valid bs4 end
        end
    end.
Proof. reflexivity. Qed.

Lemma path_display_valid bs : utf8_valid bs = true -> path_display bs = bs.
Proof.
  remember (length bs) as n eqn:En. revert bs En. induction n as [n IH] using (well_founded_induction lt_wf). intros bs ->.
  assert (Hgo : forall bs', (length bs' < length bs)%nat -> utf8_valid bs' = true -> path_display bs' = bs') by (intros; by eapply IH).
  clear IH. destruct bs as [|b bs1]; [done|]. rewrite utf8_valid_step. cbn [path_display].
  destruct (in_range 0x00 0x7F b); [intros Hv; by rewrite Hgo by (cbn; first [done|lia])|].
  destruct bs1 as [|c1 bs2]; [done|]. destruct (in_range 0xC2 0xDF b) eqn:E2; cbn [andb].
  { intros [-> Hv]%andb_true_iff. by rewrite Hgo by (cbn; first [done|lia]). }
  destruct bs2 as [|c2 bs3]; [done|]. destruct (lead3 b c1) eqn:E3.
  { intros [-> Hv]%andb_true_iff. by rewrite Hgo by (cbn; first [done|lia]). }
  destruct bs3 as [|c3 bs4]; [done|]. intros [[[-> ->]%andb_true_iff ->]%andb_true_iff Hv]%andb_true_iff.
  by rewrite Hgo by (cbn; first [done|lia]).
Qed.

Lemma path_display_utf8 bs : utf8_valid (path_display bs) = true.
Proof.
  remember (length bs) as n eqn:En. revert bs En. induction n as [n IH] using (well_founded_induction lt_wf). intros bs ->.
  assert (Hgo : forall bs', (length bs' < length bs)%nat -> utf8_valid (path_display bs') = true) by (intros; by eapply IH).
  assert (Hrep : forall bs', (length bs' < length bs)%nat -> utf8_valid (replacement ++ path_display bs') = true)
    by (intros; rewrite utf8_replacement; by apply Hgo).
  clear IH. destruct bs as [|b bs1]; [done|]. cbn [path_display].
  destruct (in_range 0x00 0x7F b) eqn:E1; [rewrite utf8_valid_step, E1; apply Hgo; cbn; lia|].
  destruct bs1 as [|c1 bs2]; [done|]. destruct (lead_apart b c1) as [H2 H3].
  destruct (in_range 0xC2 0xDF b && is_cont c1) eqn:E2.
  { apply andb_true_iff in E2 as [E2 Ec]. rewrite utf8_valid_step, E1, E2, Ec. apply Hgo. cbn. lia. }
  destruct (lead3 b c1) eqn:E3; [|destruct (lead4 b c1) eqn:E4; [|apply Hrep; cbn; lia]].
  - destruct (in_range 0xC2 0xDF b) eqn:E5; [by destruct (H2 eq_refl)|]. destruct bs2 as [|c2 bs3]; [done|].
    destruct (is_cont c2) eqn:Ec; [rewrite utf8_valid_step, E1, E5, E3, Ec; apply Hgo|apply Hrep]; cbn; lia.
  - destruct (in_range 0xC2 0xDF b) eqn:E5; [by destruct (H2 eq_refl)|]. destruct bs2 as [|c2 bs3]; [done|].
    destruct (is_cont c2) eqn:Ec; [|apply Hrep; cbn; lia]. destruct bs3 as [|c3 bs4]; [done|].
    destruct (is_cont c3) eqn:Ed; [rewrite utf8_valid_step, E1, E5, E3, E4, Ec, Ed; apply Hgo|apply Hrep]; cbn; lia.
Qed.

Lemma path_display_slash path : starts_with path (ascii_bytes "/") = true -> starts_with (path_display path) (ascii_bytes "/") = true.
Proof.
  intros [r ->]%starts_with_spec. apply starts_with_spec. change (path_display (ascii_bytes "/" ++ r)) with (ascii_bytes "/" ++ path_display r).
  by eexists.
Qed.

(** The endpoints a text can name. *)
Definition endpoint_ok (e : Endpoint) : Prop :=
  match e with
  | Tcp addr => printable addr
  | Ipc path => starts_with path (ascii_bytes "/") = true /\ utf8_valid path = true
  | Inproc name => name <> [] /\ utf8_valid name = true
  end.

Lemma strip_prefix_app p s : strip_prefix (p ++ s) p = Some s.
Proof. unfold strip_prefix. by rewrite starts_with_app, drop_app_length. Qed.

Lemma strip_prefix_some s p r : strip_prefix s p = Some r -> s = p ++ r.
Proof.
  unfold strip_prefix. destruct (starts_with s p) eqn:E; [|done]. intros [= <-].
  apply starts_with_spec in E as [k ->]. by rewrite drop_app_length.
Qed.

Lemma ipc_text path :
  starts_with path (ascii_bytes "/") = true -> endpoint_from_str (ascii_bytes "ipc://" ++ path) = Ok (Ipc path).
Proof.
  intros Hp. unfold endpoint_from_str. change (strip_prefix _ (ascii_bytes "tcp://")) with (@None bytes). cbn match.
  by rewrite strip_prefix_app, Hp.
Qed.

Lemma endpoint_print_parse e : endpoint_ok e -> endpoint_from_str (endpoint_display e) = Ok e.
Proof.
  intros He. destruct e as [addr|path|name]; cbn [endpoint_display endpoint_ok] in He |- *.
  - unfold endpoint_from_str. by rewrite strip_prefix_app, addr_roundtrip.
  - destruct He as [Hp Hu]. rewrite path_display_valid by done. by apply ipc_text.
  - unfold endpoint_from_str. change (strip_prefix _ (ascii_bytes "tcp://")) with (@None bytes). cbn match.
    change (strip_prefix _ (ascii_bytes "ipc://")) with (@None bytes). cbn match. destruct He as [He _].
    by rewrite strip_prefix_app, bool_decide_eq_false_2.
Qed.

Lemma endpoint_from_str_ok s e : utf8_valid s = true -> endpoint_from_str s = Ok e -> endpoint_ok e.
Proof.
  intros Hu. unfold endpoint_from_str. destruct (strip_prefix s (ascii_bytes "tcp://")) as [addr|].
  { destruct (parse_socket_addr addr) eqn:E; [|done]. intros [= <-]. by apply parse_addr_printable in E. }
  destruct (strip_prefix s (ascii_bytes "ipc://")) as [path|] eqn:Es.
  { apply strip_prefix_some in Es as ->. destruct (starts_with path _) eqn:E; [|done]. intros [= <-]. by split. }
  destruct (strip_prefix s (ascii_bytes "inproc://")) as [name|] eqn:En; [|done]. apply strip_prefix_some in En as ->.
  case_bool_decide; [done|]. intros [= <-]. by split.
Qed.

(** C32: printing an endpoint and parsing the text gives the endpoint back, for every
    endpoint a text can name: an IPv4 or IPv6 address with its port and scope (zero
    flow label), an absolute IPC path in UTF-8, a non-empty inproc name. Whatever the
    parser accepts of a text (which is UTF-8) is such an endpoint, so a parsed endpoint
    survives any number of prints and parses, and two such endpoints are never printed
    alike.  An absolute path that is not UTF-8 is printed with replacement characters:
    its text names another path, so that an IPC endpoint survives printing exactly when
    its path is UTF-8. *)
Theorem endpoint_roundtrip s e :
  utf8_valid s = true -> endpoint_from_str s = Ok e ->
  endpoint_ok e /\ endpoint_from_str (endpoint_display e) = Ok e /\
  (forall e', endpoint_ok e' -> endpoint_from_str (endpoint_display e') = Ok e') /\
  (forall e', endpoint_ok e' -> endpoint_display e' = endpoint_display e -> e' = e) /\
  (forall path, starts_with path (ascii_bytes "/") = true ->
     exists path', endpoint_from_str (endpoint_display (Ipc path)) = Ok (Ipc path') /\ (path' = path <-> utf8_valid path = true)).
Proof.
  intros Hu He%endpoint_from_str_ok; [|done]. split_and!; [done|by apply endpoint_print_parse|apply endpoint_print_parse| |].
  - intros e' He' E. apply endpoint_print_parse in He, He'. congruence.
  - intros path Hp. exists (path_display path). split; [by apply ipc_text, path_display_slash|].
    split; [|apply path_display_valid]. intros <-. apply path_display_utf8.
Qed.

(** Non-canonical text: leading zeros of segments and of the port, an uncompressed zero run. *)
Lemma endpoint_roundtrip_witness :
  endpoint_from_str (endpoint_display (Tcp (V6 [0x2001; 0xdb8; 0; 0; 0; 0; 0; 1] 5555 0 0))) =
    Ok (Tcp (V6 [0x2001; 0xdb8; 0; 0; 0; 0; 0; 1] 5555 0 0)).
Proof.
  destruct (endpoint_roundtrip (ascii_bytes "tcp://[2001:0DB8:0:0:0:0:0:1]:05555")
              (Tcp (V6 [0x2001; 0xdb8; 0; 0; 0; 0; 0; 1] 5555 0 0))) as (_ & H & _); [by vm_compute|by vm_compute|exact H].
Defined.

(** Two paths that are printed alike. *)
Example lossy_paths :
  endpoint_display (Ipc [u8 47; u8 0xFF]) = endpoint_display (Ipc [u8 47; u8 0xFE]) /\
  endpoint_from_str (endpoint_display (Ipc [u8 47; u8 0xFF])) = Ok (Ipc (u8 47 :: replacement)) /\
  path_display [u8 0xE2; u8 0x82; u8 0x41; u8 0xED; u8 0xA0; u8 0x80] = replacement ++ [u8 0x41] ++ replacement ++ replacement ++ replacement.
Proof. by vm_compute. Qed.

Lemma parse_scheme_none s : parse_socket_addr (ascii_bytes "tcp://" ++ s) = None.
Proof. unfold parse_socket_addr, read_socket_addr_v4. by rewrite read_ipv4_none. Qed.

(** The facade accepts an address with and without the scheme. *)
Lemma parse_tcp_endpoint_forms a :
  printable a ->
  parse_tcp_endpoint (display_addr a) = Ok a /\ parse_tcp_endpoint (ascii_bytes "tcp://" ++ display_addr a) = Ok a.
Proof.
  intros Ha. unfold parse_tcp_endpoint. split.
  - destruct (endpoint_from_str (display_addr a)) as [[addr| |]|] eqn:E; rewrite ?addr_roundtrip by done; try done.
    unfold endpoint_from_str in E. destruct (strip_prefix (display_addr a) (ascii_bytes "tcp://")) as [r|] eqn:Es.
    + apply strip_prefix_some in Es. apply addr_roundtrip in Ha. by rewrite Es, parse_scheme_none in Ha.
    + repeat case_match; done.
  - change (ascii_bytes "tcp://" ++ display_addr a) with (endpoint_display (Tcp a)). by rewrite endpoint_print_parse.
Qed.

Example endpoint_texts :
  endpoint_from_str (ascii_bytes "tcp://[::ffff:10.0.0.1%7]:80") = Ok (Tcp (V6 [0; 0; 0; 0; 0; 65535; 2560; 1] 80 0 7)) /\
  endpoint_from_str (ascii_bytes "tcp://localhost:5555") = Err (InvalidTcpAddress (ascii_bytes "localhost:5555")) /\
  endpoint_from_str (ascii_bytes "tcp://127.0.0.01:5555") = Err (InvalidTcpAddress (ascii_bytes "127.0.0.01:5555")) /\
  endpoint_from_str (ascii_bytes "ipc://relative") = Err (InvalidScheme (ascii_bytes "ipc://relative")) /\
  endpoint_from_str (ascii_bytes "inproc://") = Err (InvalidInprocName (ascii_bytes "inproc name cannot be empty")) /\
  endpoint_display (Tcp (V6 [1; 0; 0; 2; 0; 0; 0; 3] 80 9 0)) = ascii_bytes "tcp://[1:0:0:2::3]:80" /\
  parse_tcp_endpoint (ascii_bytes "127.0.0.1:5555") = Ok (V4 [127; 0; 0; 1] 5555).
Proof. by vm_compute. Qed.
