(* ===== verification/Reconnect.v ===== *)
(** * Reconnection backoff

    [ReconnectState] of monocoque-core/src/reconnect.rs and the jitter applied
    to its delays by monocoque-zmtp/src/base.rs.  Delays are nanoseconds. *)

From S2P Require Import Prelude.
From S2P Require Import Options.

Record ReconnectState := mk_reconnect {
  base_interval : Z;
  max_interval : Z;
  attempt : Z;
  current_interval : Z;
}.

Definition reconnect_new (options : SocketOptions) : ReconnectState :=
  mk_reconnect (reconnect_ivl options) (reconnect_ivl_max options) 0 (reconnect_ivl options).

(** [attempt += 1] on a [u32] wraps in a release build. *)
Definition next_delay (s : ReconnectState) : Z * ReconnectState :=
  let delay := current_interval s in
  let attempt' := u32_wrap (attempt s + 1) in
  let current' :=
    if (max_interval s =? 0) || (max_interval s <=? base_interval s) then base_interval s
    else Z.min (default (max_interval s)
                  (checked_mul (base_interval s) (Z.shiftl 1 (Z.min attempt' 10))))
               (max_interval s) in
  (delay, mk_reconnect (base_interval s) (max_interval s) attempt' current').

Definition reset (s : ReconnectState) : ReconnectState :=
  mk_reconnect (base_interval s) (max_interval s) 0 (base_interval s).

(** [jittered_backoff]: [draw] is what [gen_range(0..=half_ns)] returns. *)
Definition jittered_backoff (delay draw : Z) : Z :=
  if delay =? 0 then delay
  else let half_ns := (delay / 2) mod 2 ^ 64 in half_ns + draw.

(** ** The sequence of delays *)

(** The delays of [n] consecutive attempts. *)
Fixpoint delays (n : nat) (s : ReconnectState) : list Z :=
  match n with
  | O => []
  | S n => let '(d, s) := next_delay s in d :: delays n s
  end.

(** Exponential backoff from [base], doubling ten times at most, capped at
    [max]; constant when [max] leaves no room to grow. *)
Definition backoff_delay (base max : Z) (k : nat) : Z :=
  if max <=? base then base else Z.min (base * 2 ^ Z.min (Z.of_nat k) 10) max.

(** Intervals are [Duration] values. *)
Definition intervals_ok (s : ReconnectState) : Prop :=
  0 <= base_interval s <= duration_max /\ 0 <= max_interval s <= duration_max.

(** The state after [k] attempts since the last reset. *)
Definition at_attempt (s : ReconnectState) (k : nat) : Prop :=
  attempt s = Z.of_nat k /\
  current_interval s = backoff_delay (base_interval s) (max_interval s) k.

Lemma at_attempt_0 s :
  0 <= base_interval s -> attempt s = 0 -> current_interval s = base_interval s -> at_attempt s 0.
Proof.
  intros Hb Ha Hc. split; [done|]. rewrite Hc. unfold backoff_delay. case_if; [done|].
  change (2 ^ Z.min (Z.of_nat 0) 10) with 1. lia.
Qed.

Lemma next_delay_step s k :
  intervals_ok s -> at_attempt s k -> Z.of_nat k < u32_max ->
  (next_delay s).1 = backoff_delay (base_interval s) (max_interval s) k /\
  intervals_ok (next_delay s).2 /\ at_attempt (next_delay s).2 (S k) /\
  base_interval (next_delay s).2 = base_interval s /\ max_interval (next_delay s).2 = max_interval s.
Proof.
  intros [Hb Hm] [Ha Hc] Hk. unfold u32_max in Hk. unfold next_delay. cbn [fst snd]. split; [done|].
  split; [done|]. split; [|done]. unfold at_attempt, u32_wrap. cbn -[backoff_delay Z.shiftl Z.of_nat].
  rewrite Z.mod_small by lia. split; [lia|]. rewrite Ha.
  replace (Z.of_nat k + 1) with (Z.of_nat (S k)) by lia.
  unfold backoff_delay. case_if.
  - case_if; [done|]. lia.
  - rewrite (proj2 (Z.leb_gt _ _)) by lia. rewrite Z.shiftl_mul_pow2, Z.mul_1_l by lia.
    unfold checked_mul. case_if; cbn; lia.
Qed.

Lemma delays_spec n s k :
  intervals_ok s -> at_attempt s k -> Z.of_nat k + Z.of_nat n <= u32_max ->
  delays n s = backoff_delay (base_interval s) (max_interval s) <$> seq k n.
Proof.
  revert s k. induction n as [|n IH]; intros s k Hok Hat Hk; [done|].
  destruct (next_delay_step s k Hok Hat) as (Hd & Hok' & Hat' & Hbi & Hmi); [lia|].
  cbn [delays seq]. rewrite fmap_cons. destruct (next_delay s) as [d s']. cbn [fst snd] in *.
  rewrite (IH s' (S k)) by (done || lia). by rewrite Hd, Hbi, Hmi.
Qed.

Lemma backoff_delay_bounds base max k :
  0 <= base -> 0 <= max ->
  base <= backoff_delay base max k <= Z.max base max.
Proof.
  intros Hb Hm. unfold backoff_delay. case_if; [lia|].
  assert (1 <= 2 ^ Z.min (Z.of_nat k) 10) by (apply (Z.pow_le_mono_r 2 0); lia). nia.
Qed.

Lemma backoff_delay_mono base max k : 0 <= base -> backoff_delay base max k <= backoff_delay base max (S k).
Proof.
  intros. unfold backoff_delay. case_if; [lia|].
  assert (2 ^ Z.min (Z.of_nat k) 10 <= 2 ^ Z.min (Z.of_nat (S k)) 10) by (apply Z.pow_le_mono_r; lia). nia.
Qed.

(** The reconnection schedule.  After a fresh start or a [reset], the
    first [n] delays are the base interval doubled at each attempt, at most ten
    times, and capped at the maximum; they never fall below the base interval
    (so a zero maximum cannot cause a hot loop), never exceed the larger of the
    two intervals, and never decrease. *)
Theorem reconnect_schedule (s : ReconnectState) (n : nat) :
  intervals_ok s -> Z.of_nat n <= u32_max ->
  delays n (reset s) = backoff_delay (base_interval s) (max_interval s) <$> seq 0 n /\
  (forall k, base_interval s <= backoff_delay (base_interval s) (max_interval s) k
             <= Z.max (base_interval s) (max_interval s)) /\
  (forall k, backoff_delay (base_interval s) (max_interval s) k
             <= backoff_delay (base_interval s) (max_interval s) (S k)).
Proof.
  intros Hok Hn. pose proof Hok as [Hb Hm]. split_and!.
  - rewrite (delays_spec n (reset s) 0); [done|done| |lia]. apply at_attempt_0; cbn; lia.
  - intros k. apply backoff_delay_bounds; lia.
  - intros k. apply backoff_delay_mono; lia.
Qed.

Lemma reconnect_schedule_witness :
  let s := mk_reconnect (from_millis 100) (from_millis 500) 7 3 in
  delays 5 (reset s) = from_millis <$> [100; 200; 400; 500; 500].
Proof.
  cbn zeta. destruct (reconnect_schedule (mk_reconnect (from_millis 100) (from_millis 500) 7 3) 5)
    as [-> _]; [vm_compute; split_and!; discriminate|vm_compute; discriminate|].
  vm_compute. reflexivity.
Defined.

(** The backoff stops growing at 1024 times the base interval: with a
    larger configured maximum, no delay ever reaches that maximum. *)
Theorem reconnect_plateau_below_max (s : ReconnectState) (n k : nat) (d : Z) :
  intervals_ok s -> Z.of_nat n <= u32_max ->
  0 < base_interval s -> base_interval s * 1024 < max_interval s ->
  delays n (reset s) !! k = Some d ->
  d < max_interval s /\ ((10 <= k)%nat -> d = base_interval s * 1024).
Proof.
  intros Hok Hn Hb Hm Hd. pose proof Hok as [Hb' Hm'].
  rewrite (delays_spec n (reset s) 0) in Hd; [|done|apply at_attempt_0; cbn; lia|lia].
  apply list_lookup_fmap_Some_1 in Hd as (i & -> & Hi). apply lookup_seq in Hi as [-> _].
  unfold backoff_delay, reset; cbn [base_interval max_interval].
  rewrite (proj2 (Z.leb_gt _ _)) by lia.
  assert (2 ^ Z.min (Z.of_nat (0 + k)) 10 <= 2 ^ 10) by (apply Z.pow_le_mono_r; lia).
  change (2 ^ 10) with 1024 in *. split; [nia|]. intros Hk.
  rewrite (Z.min_r (Z.of_nat (0 + k)) 10) by lia. change (2 ^ 10) with 1024. lia.
Qed.

Lemma reconnect_plateau_below_max_witness :
  let s := mk_reconnect 1 5000 0 1 in
  delays 12 (reset s) !! 11%nat = Some 1024 /\ 1024 < max_interval s.
Proof.
  cbn zeta.
  assert (H : delays 12 (reset (mk_reconnect 1 5000 0 1)) !! 11%nat = Some 1024) by (vm_compute; reflexivity).
  split; [exact H|].
  apply (reconnect_plateau_below_max (mk_reconnect 1 5000 0 1) 12 11 1024);
    [vm_compute; split_and!; discriminate|vm_compute; discriminate|vm_compute; reflexivity
    |vm_compute; reflexivity|exact H].
Defined.

(** Equal jitter.  For every delay below [2^64] nanoseconds the jittered
    delay lies between half the delay and the delay, whatever the draw. *)
Theorem jittered_backoff_range (delay draw : Z) :
  0 <= delay < 2 ^ 64 -> 0 <= draw <= (delay / 2) mod 2 ^ 64 ->
  delay / 2 <= jittered_backoff delay draw <= delay.
Proof.
  intros Hd Hr. unfold jittered_backoff. case_if; [subst; done|].
  assert (0 <= delay / 2 <= delay) by (split; [apply Z.div_pos|apply Z.div_le_upper_bound]; lia).
  rewrite Z.mod_small in * by lia. pose proof (Z.mul_div_le delay 2). lia.
Qed.

Lemma jittered_backoff_range_witness : 50 <= jittered_backoff 100 7 <= 100.
Proof. apply (jittered_backoff_range 100 7); vm_compute; split; congruence. Defined.
