(* ===== verification/Greeting.v ===== *)
(** * Greetings and security mechanisms

    The 64-byte ZMTP greeting: [ZmtpGreeting] of monocoque-zmtp/src/greeting.rs,
    and the mechanism selection and greeting builders of
    monocoque-zmtp/src/handshake.rs. *)

From S2P Require Import Prelude.
From S2P Require Import Options.
From S2P Require Import SegBuffer.
From S2P Require Import Codec.

Definition GREETING_SIZE : Z := 64.
Definition SIGNATURE_HEAD : Z := 0xFF.
Definition SIGNATURE_TAIL : Z := 0x7F.

Record ZmtpGreeting := mk_greeting {
  mechanism : bytes;
  as_server : bool;
}.

(** [src[i]], for an index the length check has put in range. *)
Definition byte_at (src : bytes) (i : nat) : Z := u8_val (default Byte.x00 (src !! i)).

Definition is_mechanism_char (b : byte) : bool := in_range 65 90 b || in_range 48 57 b.

Definition is_nul (b : byte) : bool := u8_val b =? 0.

(** The index of the first NUL, or the whole length. *)
Definition mech_end (m : bytes) : nat := default (length m) (position is_nul m).

Definition greeting_parse (src : bytes) : result ZmtpError ZmtpGreeting :=
  if len src <? GREETING_SIZE then Err Incomplete
  else if negb (len src =? GREETING_SIZE) then Err Protocol
  else if negb (byte_at src 0 =? SIGNATURE_HEAD) || negb (byte_at src 9 =? SIGNATURE_TAIL)
  then Err Protocol
  else if byte_at src 10 <? 3 then Err Protocol
  else
    let mechanism := ztake 20 (zdrop 12 src) in
    let e := mech_end mechanism in
    if (e =? 0)%nat
       || negb (forallb is_mechanism_char (take e mechanism))
       || existsb (λ b, negb (is_nul b)) (drop e mechanism)
    then Err Protocol
    else if 1 <? byte_at src 32 then Err Protocol
    else Ok (mk_greeting mechanism (negb (byte_at src 32 =? 0))).

Definition mechanism_str (g : ZmtpGreeting) : bytes :=
  let name := take (mech_end (mechanism g)) (mechanism g) in
  if utf8_valid name then name else ascii_bytes "UNKNOWN".

(** ** Mechanisms *)

Inductive SecurityMechanism := Null | Plain | Curve.

#[export] Instance SecurityMechanism_eq_dec : EqDecision SecurityMechanism.
Proof. solve_decision. Defined.

Definition mechanism_from_options (options : SocketOptions) : SecurityMechanism :=
  if bool_decide (is_Some (curve_secretkey options)) || curve_server options then Curve
  else if plain_server options || bool_decide (is_Some (plain_username options)) then Plain
  else Null.

Definition as_greeting_bytes (m : SecurityMechanism) : bytes :=
  match m with
  | Null => ascii_bytes "NULL"
  | Plain => ascii_bytes "PLAIN"
  | Curve => ascii_bytes "CURVE"
  end.

Definition zeros (n : nat) : bytes := repeat Byte.x00 n.

Definition build_greeting_with_mechanism (m : SecurityMechanism) (options : SocketOptions) : bytes :=
  let as_server := match m with
                   | Curve => curve_server options
                   | Plain => plain_server options
                   | Null => false
                   end in
  [u8 0xFF] ++ zeros 8 ++ [u8 0x7F] ++ [u8 3; u8 0]
  ++ as_greeting_bytes m ++ zeros (20 - length (as_greeting_bytes m))
  ++ [if as_server then u8 1 else u8 0] ++ zeros 31.

(** [ZmtpSession::local_greeting]. *)
Definition local_greeting : bytes :=
  [u8 0xFF] ++ zeros 8 ++ [u8 0x7F] ++ [u8 3; u8 0]
  ++ ascii_bytes "NULL" ++ zeros 16 ++ [u8 0] ++ zeros 31.

Definition parse_greeting_mechanism (field : bytes) : result ZmtpError SecurityMechanism :=
  let name := take (mech_end field) field in
  if bool_decide (name = ascii_bytes "NULL") then Ok Null
  else if bool_decide (name = ascii_bytes "PLAIN") then Ok Plain
  else if bool_decide (name = ascii_bytes "CURVE") then Ok Curve
  else Err Protocol.

(** ** Properties *)

(** The greeting a side builds for the mechanism its options select is 64
    bytes long and is accepted by the peer's parser, which reads back that
    mechanism and the server role; the NULL greeting of a session is the one
    built for NULL. *)
Theorem greeting_roundtrip (m : SecurityMechanism) (options : SocketOptions) :
  let g := build_greeting_with_mechanism m options in
  len g = GREETING_SIZE /\
  exists p, greeting_parse g = Ok p /\ mechanism_str p = as_greeting_bytes m /\
    parse_greeting_mechanism (mechanism p) = Ok m /\
    as_server p = match m with Curve => curve_server options | Plain => plain_server options | Null => false end /\
    (m = Null -> g = local_greeting).
Proof.
  cbn zeta. unfold build_greeting_with_mechanism.
  destruct m; [|destruct (plain_server options)|destruct (curve_server options)];
    (split; [reflexivity|eexists; split; [reflexivity|]; split_and!; (reflexivity || discriminate)]).
Qed.

Lemma mech_end_bound m : (mech_end m <= length m)%nat.
Proof.
  unfold mech_end. destruct (position is_nul m) as [i|] eqn:E; cbn; [|lia].
  apply position_Some in E as (x & Hx & _). apply lookup_lt_Some in Hx. lia.
Qed.

Lemma mechanism_char_ascii b : is_mechanism_char b = true -> in_range 0 127 b = true.
Proof.
  intros H. apply (implb_true_iff (is_mechanism_char b) (in_range 0 127 b)); [|done].
  apply (byte_forall_bool (λ b, implb (is_mechanism_char b) (in_range 0 127 b))). vm_compute. reflexivity.
Qed.

Lemma nul_padding l : existsb (λ b, negb (is_nul b)) l = false -> l = zeros (length l).
Proof.
  induction l as [|b l IH]; cbn; [done|]. intros H. bool_prop. unfold is_nul in *. bool_prop.
  f_equal; [by apply (inj u8_val)|by apply IH].
Qed.

(** What an accepted greeting guarantees.  It is exactly 64 bytes, carries
    the signature bytes and a major version of at least 3, and its mechanism
    field is a non-empty name of upper-case letters and digits padded with
    NULs, which [mechanism_str] returns as it is; the server flag is 0 or 1. *)
Theorem greeting_parse_sound (src : bytes) (g : ZmtpGreeting) :
  greeting_parse src = Ok g ->
  len src = 64 /\ byte_at src 0 = 0xFF /\ byte_at src 9 = 0x7F /\ 3 <= byte_at src 10 /\
  (exists name, mechanism g = name ++ zeros (20 - length name) /\ name <> [] /\ (length name <= 20)%nat /\
     Forall (λ b, is_mechanism_char b = true) name /\ mechanism_str g = name) /\
  byte_at src 32 = if as_server g then 1 else 0.
Proof.
  unfold greeting_parse, GREETING_SIZE, SIGNATURE_HEAD, SIGNATURE_TAIL.
  destruct (len src <? 64) eqn:E1; [done|]. destruct (negb (len src =? 64)) eqn:E2; [done|].
  destruct (_ || _) eqn:E3; [done|]. destruct (byte_at src 10 <? 3) eqn:E4; [done|]. cbn zeta.
  set (m := ztake 20 (zdrop 12 src)).
  destruct ((mech_end m =? 0)%nat || _ || _) eqn:E5; [done|].
  destruct (1 <? byte_at src 32) eqn:E6; [done|]. intros [= <-]. cbn [mechanism as_server].
  apply orb_false_iff in E5 as [[E5 Ech]%orb_false_iff Enul]. apply orb_false_iff in E3 as [E3 E3'].
  bool_prop. apply Nat.eqb_neq in E5. pose proof (mech_end_bound m) as Hbound.
  assert (Hm : length m = 20%nat).
  { unfold m. apply Nat2Z.inj. change (len (ztake 20 (zdrop 12 src)) = 20).
    rewrite len_ztake; rewrite ?len_zdrop; lia. }
  assert (Hchars : Forall (λ b, is_mechanism_char b = true) (take (mech_end m) m)).
  { apply List.Forall_forall; rewrite forallb_forall in Ech; exact Ech. }
  split_and!; try lia.
  - exists (take (mech_end m) m). rewrite length_take_le by done. split_and!.
    + rewrite <- (take_drop (mech_end m) m) at 1. f_equal.
      rewrite (nul_padding _ Enul), length_drop, Hm. done.
    + intros Hn%(f_equal length). rewrite length_take_le in Hn by done. done.
    + lia.
    + done.
    + unfold mechanism_str. cbn [mechanism]. rewrite utf8_valid_ascii; [done|].
      apply forallb_forall. intros b Hb. apply mechanism_char_ascii.
      rewrite List.Forall_forall in Hchars. by apply Hchars.
  - pose proof (u8_val_range (default Byte.x00 (src !! 32%nat))). unfold byte_at in *. case_if; lia.
Qed.

Lemma greeting_parse_sound_witness :
  byte_at local_greeting 10 = 3 /\ 3 <= byte_at local_greeting 10.
Proof.
  split; [reflexivity|].
  apply (greeting_parse_sound local_greeting
           (mk_greeting (ascii_bytes "NULL" ++ zeros 16) false) eq_refl).
Defined.
