(* ===== verification/Ready.v ===== *)
(** * READY metadata

    The READY command of the ZMTP handshake: [SocketType] of
    monocoque-zmtp/src/session.rs, the builders of monocoque-zmtp/src/utils.rs
    and the property parser of monocoque-zmtp/src/handshake.rs.

    A READY body is specified as a property list: [encode_props] is its wire
    form and [announces] its meaning. *)

From S2P Require Import Prelude.
From S2P Require Import SegBuffer.
From S2P Require Import Codec.

Inductive SocketType :=
| Pair | Dealer | Router | Pub | Sub | Req | Rep | Push | Pull | Xpub | Xsub.

#[export] Instance SocketType_eq_dec : EqDecision SocketType.
Proof. solve_decision. Defined.

Definition as_str (t : SocketType) : bytes :=
  match t with
  | Pair => ascii_bytes "PAIR"
  | Dealer => ascii_bytes "DEALER"
  | Router => ascii_bytes "ROUTER"
  | Pub => ascii_bytes "PUB"
  | Sub => ascii_bytes "SUB"
  | Req => ascii_bytes "REQ"
  | Rep => ascii_bytes "REP"
  | Push => ascii_bytes "PUSH"
  | Pull => ascii_bytes "PULL"
  | Xpub => ascii_bytes "XPUB"
  | Xsub => ascii_bytes "XSUB"
  end.

Definition parse_socket_type (value : bytes) : result ZmtpError SocketType :=
  if bool_decide (value = ascii_bytes "PAIR") then Ok Pair
  else if bool_decide (value = ascii_bytes "DEALER") then Ok Dealer
  else if bool_decide (value = ascii_bytes "ROUTER") then Ok Router
  else if bool_decide (value = ascii_bytes "PUB") then Ok Pub
  else if bool_decide (value = ascii_bytes "SUB") then Ok Sub
  else if bool_decide (value = ascii_bytes "XPUB") then Ok Xpub
  else if bool_decide (value = ascii_bytes "XSUB") then Ok Xsub
  else if bool_decide (value = ascii_bytes "REQ") then Ok Req
  else if bool_decide (value = ascii_bytes "REP") then Ok Rep
  else if bool_decide (value = ascii_bytes "PUSH") then Ok Push
  else if bool_decide (value = ascii_bytes "PULL") then Ok Pull
  else Err Protocol.

(** ** Builders *)

Definition FLAG_LONG : Z := 0x02.
Definition FLAG_COMMAND : byte := u8 0x04.

(** [utils::encode_frame]. *)
Definition encode_frame (fl : byte) (body : bytes) : bytes :=
  if len body <=? 255
  then [u8 (Z.land (u8_val fl) 0xFD); u8 (len body)] ++ body
  else [u8 (Z.lor (u8_val fl) FLAG_LONG)] ++ be_bytes 8 (len body) ++ body.

(** The casts truncate: [name.len() as u8], [value.len() as u32]. *)
Definition put_property (dst name value : bytes) : bytes :=
  dst ++ [u8 (len name)] ++ name ++ be_bytes 4 (u32_wrap (len value)) ++ value.

Definition build_ready (socket_type : bytes) (identity : option bytes) : bytes :=
  let body := [u8 5] ++ ascii_bytes "READY" in
  let body := put_property body (ascii_bytes "Socket-Type") socket_type in
  match identity with
  | Some id => put_property body (ascii_bytes "Identity") id
  | None => body
  end.

(** ** Parser *)

(** The effect of one property on the values collected so far. *)
Definition ready_property (key value : bytes) (st : option SocketType) (id : option bytes)
    : result ZmtpError (option SocketType * option bytes) :=
  if bool_decide (key = ascii_bytes "Socket-Type") then
    match st with
    | Some _ => Err Protocol
    | None => try! t := parse_socket_type value in Ok (Some t, id)
    end
  else if bool_decide (key = ascii_bytes "Identity") then
    match id with
    | Some _ => Err Protocol
    | None => if 255 <? len value then Err Protocol else Ok (st, Some value)
    end
  else Ok (st, id).

(** One property at an offset of a buffer: a one-byte key length, the key, a
    four-byte value length, the value.  The loops that read property lists
    ([parse_ready_command], and [ZapResponse::parse_metadata]) differ in what
    they report: [key_err], [len_err] and [value_err] are their errors for a
    field that leaves the buffer, [check_key] what they ask of a key.  [None]
    is a panic. *)
Definition read_property {E} (key_err len_err value_err : E) (check_key : bytes -> result E unit)
    (body : bytes) (offset : Z) : option (result E (bytes * bytes * Z)) :=
  b ← index body offset;
  let key_len := u8_val b in
  let offset := offset + 1 in
  if len body <? offset + key_len then Some (Err key_err) else
  key ← slice body offset (offset + key_len);
  match check_key key with
  | Err e => Some (Err e)
  | Ok _ =>
      let offset := offset + key_len in
      if len body <? offset + 4 then Some (Err len_err) else
      lenb ← slice body offset (offset + 4);
      let value_len := be_val lenb in
      let offset := offset + 4 in
      if len body <? offset + value_len then Some (Err value_err) else
      value ← slice body offset (offset + value_len);
      Some (Ok (key, value, offset + value_len))
  end.

(** The [while offset < body.len()] loop; [None] is a panic (or the fuel
    running out, which does not happen). *)
Fixpoint ready_loop (fuel : nat) (body : bytes) (offset : Z) (st : option SocketType) (id : option bytes)
    : option (result ZmtpError (option SocketType * option bytes)) :=
  match fuel with
  | O => None
  | S fuel =>
      if len body <=? offset then Some (Ok (st, id))
      else
        p ← read_property Protocol Protocol Protocol (λ _, Ok tt) body offset;
        match p with
        | Err e => Some (Err e)
        | Ok (key, value, offset) =>
            match ready_property key value st id with
            | Err e => Some (Err e)
            | Ok (st, id) => ready_loop fuel body offset st id
            end
        end
  end.

Definition parse_ready_command (body : bytes) : option (result ZmtpError (SocketType * option bytes)) :=
  if len body <? 6 then Some (Err Protocol)
  else
    b ← index body 0;
    name ← slice body 1 6;
    if negb (u8_val b =? 5) || negb (bool_decide (name = ascii_bytes "READY")) then Some (Err Protocol)
    else
      r ← ready_loop (S (length body)) body 6 None None;
      match r with
      | Err e => Some (Err e)
      | Ok (Some st, id) => Some (Ok (st, id))
      | Ok (None, _) => Some (Err Protocol)
      end.

(** ** Specification *)

Definition encode_prop (p : bytes * bytes) : bytes :=
  [u8 (len p.1)] ++ p.1 ++ be_bytes 4 (len p.2) ++ p.2.

Definition encode_props (ps : list (bytes * bytes)) : bytes := concat (encode_prop <$> ps).

Definition prop_ok (p : bytes * bytes) : Prop := len p.1 <= 255 /\ len p.2 <= u32_max.

Fixpoint interp_props (ps : list (bytes * bytes)) (st : option SocketType) (id : option bytes)
    : result ZmtpError (option SocketType * option bytes) :=
  match ps with
  | [] => Ok (st, id)
  | (k, v) :: ps => try! (st, id) := ready_property k v st id in interp_props ps st id
  end.

(** The names of the socket types, and the values of the properties of a name. *)
Definition socket_type_names : list (string * SocketType) :=
  [("PAIR", Pair); ("DEALER", Dealer); ("ROUTER", Router); ("PUB", Pub); ("SUB", Sub); ("REQ", Req); ("REP", Rep);
   ("PUSH", Push); ("PULL", Pull); ("XPUB", Xpub); ("XSUB", Xsub)]%string.

Definition values_of (name : string) (ps : list (bytes * bytes)) : list bytes := (filter (λ p, p.1 = ascii_bytes name) ps).*2.

(** What a READY property list announces: one socket type, by its name, and at most
    one identity, of at most 255 bytes, with any other properties besides. *)
Definition announces (ps : list (bytes * bytes)) (st : SocketType) (id : option bytes) : Prop :=
  (exists name, values_of "Socket-Type" ps = [ascii_bytes name] /\ (name, st) ∈ socket_type_names) /\
  match id with
  | None => values_of "Identity" ps = []
  | Some i => values_of "Identity" ps = [i] /\ len i <= 255
  end.

Lemma parse_socket_type_spec value t :
  parse_socket_type value = Ok t <-> exists name, value = ascii_bytes name /\ (name, t) ∈ socket_type_names.
Proof.
  split.
  - unfold parse_socket_type. intros Hv. repeat (case_bool_decide; [simplify_eq; eexists; split; [done|]; set_solver|]). done.
  - intros (name & -> & Hin). unfold socket_type_names in Hin. repeat (apply elem_of_cons in Hin as [[= -> ->]|Hin]; [done|]).
    by apply elem_of_nil in Hin.
Qed.

Lemma values_of_cons name k v ps :
  values_of name ((k, v) :: ps) = if bool_decide (k = ascii_bytes name) then v :: values_of name ps else values_of name ps.
Proof. unfold values_of. rewrite filter_cons. cbn [fst]. case_bool_decide; [by rewrite decide_True|by rewrite decide_False]. Qed.

(** The properties add one socket type and one identity at most to what is known. *)
Lemma interp_props_spec ps st id st' id' :
  interp_props ps st id = Ok (st', id') <->
  match values_of "Socket-Type" ps with
  | [] => st' = st
  | [v] => st = None /\ exists t, parse_socket_type v = Ok t /\ st' = Some t
  | _ => False
  end /\
  match values_of "Identity" ps with
  | [] => id' = id
  | [v] => id = None /\ len v <= 255 /\ id' = Some v
  | _ => False
  end.
Proof.
  revert st id. induction ps as [|[k v] ps IH]; intros st id; [cbn; naive_solver|]. cbn [interp_props].
  rewrite !values_of_cons. unfold ready_property. case_bool_decide as Ek.
  - subst k. rewrite bool_decide_eq_false_2 by done. destruct st as [t|]; cbn [res_bind].
    { split; [done|]. destruct (values_of "Socket-Type" ps); naive_solver. }
    destruct (parse_socket_type v) as [t|e] eqn:Ev; cbn [res_bind].
    + rewrite IH. destruct (values_of "Socket-Type" ps) as [|v' [|]]; naive_solver.
    + destruct (values_of "Socket-Type" ps); naive_solver.
  - case_bool_decide as Ei; cbn [res_bind]; [|apply IH]. destruct id as [i|]; cbn [res_bind].
    { split; [done|]. destruct (values_of "Identity" ps); naive_solver. }
    destruct (Z.ltb_spec 255 (len v)); cbn [res_bind].
    + split; [done|]. destruct (values_of "Identity" ps); naive_solver lia.
    + rewrite IH. destruct (values_of "Identity" ps) as [|v' [|]]; naive_solver.
Qed.

Lemma announces_spec ps st id : announces ps st id <-> interp_props ps None None = Ok (Some st, id).
Proof.
  rewrite interp_props_spec. unfold announces. split.
  - intros [(name & -> & Hin) Hid]. split.
    + split; [done|]. exists st. split; [|done]. apply parse_socket_type_spec. eauto.
    + destruct id as [i|]; [destruct Hid as [-> Hl]; by split_and!|by rewrite Hid].
  - intros [Hs Hid]. split.
    + destruct (values_of "Socket-Type" ps) as [|v [|]]; [done| |done]. destruct Hs as (_ & t & Ht & [= <-]).
      apply parse_socket_type_spec in Ht as (name & -> & Hin). eauto.
    + destruct (values_of "Identity" ps) as [|v [|]]; [by subst id| |done]. by destruct Hid as (_ & Hl & ->).
Qed.

Definition ready_header : bytes := [u8 5] ++ ascii_bytes "READY".

Lemma len_encode_prop k v : len (encode_prop (k, v)) = len k + len v + 5.
Proof. unfold encode_prop. cbn [fst snd]. rewrite !len_app, len_cons, len_nil, len_be_bytes. lia. Qed.

Lemma len_encode_props_cons p ps : len (encode_props (p :: ps)) = len (encode_prop p) + len (encode_props ps).
Proof. unfold encode_props. cbn [fmap list_fmap concat]. apply len_app. Qed.

(** Split one property off a byte string. *)
Definition split_prop (bs : bytes) : option (bytes * bytes * bytes) :=
  match bs with
  | [] => None
  | b :: tl =>
      let k := u8_val b in
      if len tl <? k + 4 then None
      else let n := be_val (ztake 4 (zdrop k tl)) in
           let rest := zdrop (k + 4) tl in
           if len rest <? n then None
           else Some (ztake k tl, ztake n rest, zdrop n rest)
  end.

Lemma split_encode_prop p rest :
  prop_ok p -> split_prop (encode_prop p ++ rest) = Some (p.1, p.2, rest).
Proof.
  intros [Hk Hv]. destruct p as [k v]. unfold u32_max in Hv. cbn [fst snd] in *.
  unfold split_prop, encode_prop. cbn [fst snd]. rewrite <- !app_assoc. cbn [app].
  pose proof (len_nonneg k). pose proof (len_nonneg v). pose proof (len_nonneg rest).
  rewrite u8_val_small by lia.
  rewrite (proj2 (Z.ltb_ge _ _)) by (autorewrite with len; rewrite len_be_bytes; lia). cbn zeta.
  rewrite (zdrop_app_ge (len k)), Z.sub_diag, zdrop_0 by lia.
  rewrite (ztake_app_le 4 (be_bytes 4 _)), (ztake_ge 4 (be_bytes 4 _)) by (rewrite len_be_bytes; lia).
  rewrite be_val_be_bytes by (change (256 ^ Z.of_nat 4) with (2 ^ 32); lia).
  rewrite (zdrop_app_ge (len k + 4)), Z.add_simpl_l by lia.
  rewrite (zdrop_app_ge 4 (be_bytes 4 _)) by (rewrite len_be_bytes; lia).
  rewrite len_be_bytes. change (4 - Z.of_nat 4) with 0. rewrite zdrop_0.
  rewrite (proj2 (Z.ltb_ge _ _)) by (rewrite len_app; lia).
  by rewrite !ztake_app_le, !ztake_ge, zdrop_app_ge, Z.sub_diag, zdrop_0 by lia.
Qed.

Lemma split_prop_sound bs k v rest :
  split_prop bs = Some (k, v, rest) -> bs = encode_prop (k, v) ++ rest /\ prop_ok (k, v).
Proof.
  destruct bs as [|b tl]; [done|]. cbn [split_prop]. pose proof (u8_val_range b) as Hb.
  destruct (len tl <? u8_val b + 4) eqn:E1; [done|]. cbn zeta.
  set (lenb := ztake 4 (zdrop (u8_val b) tl)). set (rest0 := zdrop (u8_val b + 4) tl).
  destruct (len rest0 <? be_val lenb) eqn:E2; [done|]. intros [= <- <- <-]. bool_prop.
  assert (Hlb : len lenb = 4) by (unfold lenb; rewrite len_ztake; rewrite ?len_zdrop; lia).
  pose proof (be_val_bound lenb) as Hbv. rewrite Hlb in Hbv. change (256 ^ 4) with (2 ^ 32) in Hbv.
  assert (Hk : len (ztake (u8_val b) tl) = u8_val b) by (rewrite len_ztake; lia).
  assert (Hv : len (ztake (be_val lenb) rest0) = be_val lenb) by (rewrite len_ztake; lia).
  split; [|split; cbn [fst snd]; unfold u32_max; lia].
  unfold encode_prop; cbn [fst snd]. rewrite Hk, Hv, u8_u8_val, <- !app_assoc. cbn [app]. f_equal.
  rewrite ztake_zdrop. replace (be_bytes 4 (be_val lenb)) with lenb.
  - rewrite <- (ztake_zdrop (u8_val b) tl) at 1. f_equal.
    rewrite <- (ztake_zdrop 4 (zdrop (u8_val b) tl)). fold lenb. f_equal.
    unfold rest0. rewrite zdrop_zdrop by lia. done.
  - symmetry. replace 4%nat with (length lenb) by (unfold len in Hlb; lia). apply be_bytes_be_val.
Qed.

Lemma split_prop_length bs k v rest :
  split_prop bs = Some (k, v, rest) -> (length rest < length bs)%nat.
Proof. intros [-> _]%split_prop_sound. unfold encode_prop. rewrite !length_app. cbn. lia. Qed.

Lemma ready_loop_nil fuel body st id :
  ready_loop (S fuel) body (len body) st id = Some (Ok (st, id)).
Proof. cbn [ready_loop]. by rewrite Z.leb_refl. Qed.

(** Reading a property splits it off the unread bytes, without panicking. *)
Lemma read_property_spec {E} (ke le ve : E) ck pre rest :
  rest ≠ [] ->
  exists r, read_property ke le ve ck (pre ++ rest) (len pre) = Some r /\
    match r with
    | Ok (k, v, o) => exists rest', split_prop rest = Some (k, v, rest') /\ ck k = Ok tt /\
                        o = len (pre ++ rest) - len rest'
    | Err e => (split_prop rest = None /\ (e = ke \/ e = le \/ e = ve)) \/ (exists k, ck k = Err e)
    end /\
    (forall k v rest', split_prop rest = Some (k, v, rest') ->
       r = match ck k with Ok _ => Ok (k, v, len (pre ++ rest) - len rest') | Err e => Err e end).
Proof.
  intros Hne. destruct rest as [|b tl]; [done|]. pose proof (u8_val_range b) as Hb.
  pose proof (len_nonneg pre). pose proof (len_nonneg tl).
  unfold read_property. cbn [split_prop]. set (body := pre ++ b :: tl).
  assert (Hbody : len body = len pre + 1 + len tl) by (unfold body; len_lia).
  replace (index body (len pre)) with (Some b).
  2: { unfold index, body. rewrite (proj2 (Z.leb_le _ _)) by lia.
       unfold len. rewrite Nat2Z.id. by rewrite list_lookup_middle. }
  cbn [mbind option_bind]. cbn zeta.
  set (k := u8_val b). fold k in Hb.
  assert (Hdrop : forall n, 0 <= n -> zdrop (len pre + 1 + n) body = zdrop n tl).
  { intros n Hn. unfold body. rewrite zdrop_app_ge by lia.
    replace (len pre + 1 + n - len pre) with (1 + n) by lia.
    rewrite <- zdrop_zdrop by lia. done. }
  assert (Hslice : forall n m, 0 <= n -> 0 <= m -> n + m <= len tl ->
    slice body (len pre + 1 + n) (len pre + 1 + n + m) = Some (ztake m (zdrop n tl))).
  { intros n m Hn Hm Hle. rewrite slice_spec, Hdrop by lia. do 2 f_equal. lia. }
  pose proof (Hslice 0 k ltac:(lia) ltac:(lia)) as Hkey. rewrite Z.add_0_r, zdrop_0 in Hkey.
  destruct (len body <? len pre + 1 + k) eqn:E1; bool_prop.
  { rewrite (proj2 (Z.ltb_lt (len tl) (k + 4))) by lia.
    exists (Err ke). split; [done|]. split; [left; eauto|done]. }
  rewrite Hkey by lia. cbn [mbind option_bind].
  destruct (len tl <? k + 4) eqn:E2; bool_prop.
  { destruct (ck (ztake k tl)) as [[]|e] eqn:Eck.
    - rewrite (proj2 (Z.ltb_lt _ _)) by lia.
      exists (Err le). split; [done|]. split; [left; eauto|done].
    - exists (Err e). split; [done|]. split; [right; eauto|done]. }
  rewrite (proj2 (Z.ltb_ge _ (len pre + 1 + k + 4))) by lia.
  rewrite (Hslice k 4) by lia. cbn [mbind option_bind].
  set (n := be_val (ztake 4 (zdrop k tl))).
  pose proof (be_val_bound (ztake 4 (zdrop k tl))) as Hn. fold n in Hn.
  assert (Hrest : len (zdrop (k + 4) tl) = len tl - (k + 4)) by (rewrite len_zdrop; lia).
  rewrite Hrest.
  destruct (len tl - (k + 4) <? n) eqn:E3; bool_prop.
  { rewrite (proj2 (Z.ltb_lt (len body) _)) by lia.
    destruct (ck (ztake k tl)) as [[]|e] eqn:Eck.
    - exists (Err ve). split; [done|]. split; [left; eauto|done].
    - exists (Err e). split; [done|]. split; [right; eauto|done]. }
  rewrite (proj2 (Z.ltb_ge (len body) _)) by lia.
  pose proof (Hslice (k + 4) n ltac:(lia) ltac:(lia) ltac:(lia)) as Hval.
  rewrite !Z.add_assoc in Hval. rewrite Hval. cbn [mbind option_bind].
  assert (Ho : len body - len (zdrop n (zdrop (k + 4) tl)) = len pre + 1 + k + 4 + n).
  { rewrite (len_zdrop n) by lia. lia. }
  destruct (ck (ztake k tl)) as [[]|e] eqn:Eck; eexists; (split; [done|]); split.
  - eexists. split; [done|]. split; [done|]. by rewrite Ho.
  - intros k' v' rest' [= <- <- <-]. by rewrite Eck, Ho.
  - right; eauto.
  - intros k' v' rest' [= <- <- <-]. by rewrite Eck.
Qed.

(** One iteration splits one property off the unread bytes, without panicking. *)
Lemma ready_loop_step fuel pre rest st id :
  rest ≠ [] ->
  ready_loop (S fuel) (pre ++ rest) (len pre) st id =
    match split_prop rest with
    | None => Some (Err Protocol)
    | Some (k, v, rest') =>
        match ready_property k v st id with
        | Err e => Some (Err e)
        | Ok (st, id) => ready_loop fuel (pre ++ rest) (len (pre ++ rest) - len rest') st id
        end
    end.
Proof.
  intros Hne. cbn [ready_loop]. rewrite (proj2 (Z.leb_gt _ _)).
  2: { destruct rest; [done|]. len_lia. }
  destruct (read_property_spec Protocol Protocol Protocol (λ _, Ok tt) pre rest Hne) as (r & -> & Hr & Hs).
  cbn [mbind option_bind]. destruct (split_prop rest) as [[[k v] rest']|] eqn:E.
  - by rewrite (Hs k v rest' eq_refl).
  - destruct r as [[[k v] o]|e]; [by destruct Hr as (? & ? & _)|].
    destruct Hr as [[_ [->|[->| ->]]]|[k Hk]]; done.
Qed.

(** A loop that starts past [pre] reads the property list that follows it. *)
Lemma ready_loop_spec fuel pre rest st id :
  (length rest < fuel)%nat ->
  exists r, ready_loop fuel (pre ++ rest) (len pre) st id = Some r /\
    match r with
    | Err e => e = Protocol
    | Ok v => exists ps, Forall prop_ok ps /\ rest = encode_props ps /\ interp_props ps st id = Ok v
    end.
Proof.
  revert pre rest st id. induction fuel as [|fuel IH]; intros pre rest st id Hf; [lia|].
  destruct rest as [|b tl] eqn:Er.
  { rewrite app_nil_r, ready_loop_nil. eexists. split; [done|]. by exists []. }
  rewrite <- Er in *. rewrite ready_loop_step by (by rewrite Er).
  destruct (split_prop rest) as [[[k v] rest']|] eqn:Es; [|by eexists].
  pose proof (split_prop_length _ _ _ _ Es) as Hlt.
  apply split_prop_sound in Es as [Hrest Hok].
  destruct (ready_property k v st id) as [[st' id']|e] eqn:Ep.
  - assert (Hpre : pre ++ rest = (pre ++ encode_prop (k, v)) ++ rest') by (by rewrite Hrest, app_assoc).
    rewrite Hpre. replace (len ((pre ++ encode_prop (k, v)) ++ rest') - len rest')
      with (len (pre ++ encode_prop (k, v))) by len_lia.
    destruct (IH (pre ++ encode_prop (k, v)) rest' st' id') as (r & Hr & Hpost); [lia|].
    exists r. split; [done|]. destruct r as [x|e]; [|done].
    destruct Hpost as (ps & Hps & -> & Hi). exists ((k, v) :: ps).
    split; [by constructor|]. split; [done|]. cbn. by rewrite Ep.
  - eexists. split; [done|]. unfold ready_property in Ep. repeat case_match; simplify_eq; try done.
    unfold res_bind, parse_socket_type in Ep. repeat case_match; by simplify_eq.
Qed.

(** Conversely the loop accepts every encoded property list with the meaning
    [interp_props] gives it. *)
Lemma ready_loop_complete fuel pre ps st id :
  Forall prop_ok ps -> (length (encode_props ps) < fuel)%nat ->
  ready_loop fuel (pre ++ encode_props ps) (len pre) st id = Some (interp_props ps st id).
Proof.
  intros Hps. revert fuel pre st id. induction Hps as [|[k v] ps Hp Hps IH]; intros fuel pre st id Hf;
    (destruct fuel as [|fuel]; [lia|]).
  { by rewrite app_nil_r, ready_loop_nil. }
  change (encode_props ((k, v) :: ps)) with (encode_prop (k, v) ++ encode_props ps) in *.
  rewrite ready_loop_step, split_encode_prop by (done || unfold encode_prop; done).
  cbn [fst snd interp_props]. destruct (ready_property k v st id) as [[st' id']|e]; [|done].
  cbn [res_bind]. rewrite app_assoc.
  replace (len ((pre ++ encode_prop (k, v)) ++ encode_props ps) - len (encode_props ps))
    with (len (pre ++ encode_prop (k, v))) by len_lia.
  apply IH. rewrite length_app in Hf. unfold encode_prop in Hf. cbn in Hf. lia.
Qed.

(** A body without the READY name is refused; one with it is read from offset 6. *)
Lemma parse_ready_header body :
  (exists rest, body = ready_header ++ rest /\
     parse_ready_command body =
       (r ← ready_loop (S (length body)) body (len ready_header) None None;
        match r with
        | Err e => Some (Err e)
        | Ok (Some st, id) => Some (Ok (st, id))
        | Ok (None, _) => Some (Err Protocol)
        end)) \/
  ((forall rest, body ≠ ready_header ++ rest) /\ parse_ready_command body = Some (Err Protocol)).
Proof.
  unfold parse_ready_command. destruct (len body <? 6) eqn:E; bool_prop.
  { right. split; [|done]. intros rest ->. revert E. rewrite len_app. pose proof (len_nonneg rest).
    change (len ready_header) with 6. lia. }
  destruct body as [|b tl]; [change (len []) with 0 in E; lia|]. rewrite len_cons in E.
  change (index (b :: tl) 0) with (Some b). cbn [mbind option_bind].
  rewrite slice_spec by (rewrite ?len_cons; lia). cbn [mbind option_bind].
  change (ztake (6 - 1) (zdrop 1 (b :: tl))) with (ztake 5 tl).
  destruct (u8_val b =? 5) eqn:Eb; cbn [negb orb]; bool_prop.
  2: { right. split; [|done]. intros rest [= -> _]. done. }
  case_bool_decide as En; cbn [negb].
  - left. exists (zdrop 5 tl). split; [|done]. unfold ready_header. cbn [app].
    rewrite <- En, ztake_zdrop, <- Eb. by rewrite u8_u8_val.
  - right. split; [|done]. intros rest [= -> ->]. by apply En.
Qed.

(** C30: the READY parser never panics, answers every malformed body with a
    protocol error, and accepts exactly the bodies made of the READY name and a
    list of properties that [announces] the socket type and the identity it
    returns: one property Socket-Type whose value is a name of the table, at most one
    property Identity, of at most 255 bytes, and any others, which are skipped. *)
Theorem parse_ready_exact (body : bytes) :
  exists r, parse_ready_command body = Some r /\
    (forall e, r = Err e -> e = Protocol) /\
    (forall st id, r = Ok (st, id) <->
       exists ps, Forall prop_ok ps /\ body = ready_header ++ encode_props ps /\ announces ps st id).
Proof.
  destruct (parse_ready_header body) as [(rest & -> & ->)|[Hno ->]].
  2: { eexists. split; [done|]. split; [by intros e [= <-]|]. intros st id. split; [done|].
       intros (ps & _ & Hb & _). by edestruct Hno. }
  assert (Hf : (length rest < S (length (ready_header ++ rest)))%nat) by (rewrite length_app; lia).
  destruct (ready_loop_spec _ ready_header rest None None Hf) as (r & Hr & Hpost).
  assert (Hcomplete : forall ps, Forall prop_ok ps -> rest = encode_props ps -> r = interp_props ps None None).
  { intros ps Hps ->. rewrite ready_loop_complete in Hr by done. by simplify_eq. }
  rewrite Hr. cbn [mbind option_bind].
  set (out := match r with Ok (Some st, id) => Ok (st, id) | Ok (None, _) => Err Protocol | Err e => Err e end).
  exists out. split; [unfold out; by repeat case_match|]. split.
  - intros e He. unfold out in He. destruct r as [[[]]|]; simplify_eq; done.
  - intros st id. split.
    + intros He. unfold out in He. destruct r as [[[st'|] id']|]; simplify_eq.
      destruct Hpost as (ps & Hps & -> & Hi). exists ps. split_and!; [done..|]. by apply announces_spec.
    + intros (ps & Hps & Hb & Hi%announces_spec). apply app_inv_head in Hb. by rewrite <- (Hcomplete ps Hps Hb) in Hi; unfold out; rewrite Hi.
Qed.

(** ** Round trip *)

Definition ready_props (t : SocketType) (id : option bytes) : list (bytes * bytes) :=
  (ascii_bytes "Socket-Type", as_str t) ::
  match id with Some i => [(ascii_bytes "Identity", i)] | None => [] end.

Lemma put_property_spec dst name value :
  len value <= u32_max -> put_property dst name value = dst ++ encode_prop (name, value).
Proof.
  intros H. unfold put_property, encode_prop, u32_wrap. cbn [fst snd]. unfold u32_max in H.
  pose proof (len_nonneg value). by rewrite Z.mod_small by lia.
Qed.

Lemma as_str_len t : len (as_str t) <= 6.
Proof. by destruct t. Qed.

Lemma build_ready_spec t id :
  from_option len 0 id <= u32_max ->
  build_ready (as_str t) id = ready_header ++ encode_props (ready_props t id).
Proof.
  intros H. pose proof (as_str_len t). unfold build_ready, ready_props, encode_props.
  rewrite put_property_spec by (unfold u32_max; lia).
  destruct id as [i|]; cbn [fmap list_fmap concat].
  - rewrite put_property_spec by done. by rewrite app_nil_r, <- !app_assoc.
  - by rewrite app_nil_r.
Qed.

Lemma parse_as_str t : parse_socket_type (as_str t) = Ok t.
Proof. by destruct t. Qed.

Lemma ready_property_identity i st :
  ready_property (ascii_bytes "Identity") i st None =
    if len i <=? 255 then Ok (st, Some i) else Err Protocol.
Proof.
  unfold ready_property. rewrite bool_decide_eq_false_2, bool_decide_eq_true_2 by done.
  rewrite Z.ltb_antisym. by destruct (len i <=? 255).
Qed.

Lemma ready_parses_back t id :
  from_option len 0 id <= u32_max ->
  parse_ready_command (build_ready (as_str t) id) =
    Some (if from_option len 0 id <=? 255 then Ok (t, id) else Err Protocol).
Proof.
  intros Hid. rewrite build_ready_spec by done. set (body := ready_header ++ _).
  destruct (parse_ready_header body) as [(rest & Hb & ->)|[Hno _]]; [|by destruct (Hno (encode_props (ready_props t id)))].
  unfold body. rewrite ready_loop_complete.
  - cbn [mbind option_bind]. unfold ready_props. cbn [interp_props].
    unfold ready_property at 1. rewrite bool_decide_eq_true_2 by done. rewrite parse_as_str.
    cbn [res_bind]. destruct id as [i|]; [|done]. cbn [interp_props from_option].
    rewrite ready_property_identity. by destruct (len i <=? 255).
  - pose proof (as_str_len t). constructor; [split; cbn [fst snd]; unfold u32_max; [done|lia]|].
    destruct id; repeat constructor; done.
  - rewrite length_app. lia.
Qed.

(** What [build_ready] announces is what [parse_ready_command] reads, for
    every socket type and every identity of at most 255 bytes; a longer one
    (which fits the length field) is refused by the peer. *)
Theorem ready_roundtrip (t : SocketType) (id : option bytes) (Hid : from_option len 0 id <= u32_max) :
  parse_ready_command (build_ready (as_str t) id) =
    Some (if from_option len 0 id <=? 255 then Ok (t, id) else Err Protocol).
Proof. by apply ready_parses_back. Qed.

Lemma ready_roundtrip_witness :
  parse_ready_command (build_ready (as_str Dealer) (Some (ascii_bytes "worker-1")))
    = Some (Ok (Dealer, Some (ascii_bytes "worker-1"))).
Proof. apply (ready_roundtrip Dealer (Some (ascii_bytes "worker-1"))). vm_compute. discriminate. Defined.
