(* ===== verification/Session.v ===== *)
(** * The sans-IO session

    [ZmtpSession] of monocoque-zmtp/src/session.rs: the Greeting / Handshake /
    Active state machine that turns received bytes into events.

    [on_bytes] is specified by [srun], a step relation on an abstract state (the
    phase and the bytes not yet consumed) that reads whole greetings and frames
    from a byte string, with no buffering, staging or segmentation. *)

From S2P Require Import Prelude.
From S2P Require Import Options.
From S2P Require Import SegBuffer.
From S2P Require Import Codec.
From S2P Require Import Greeting.
From S2P Require Import Ready.

Inductive SessionEvent :=
| SendBytes (bs : bytes)
| Frame (f : ZmtpFrame)
| HandshakeComplete (peer_identity : option bytes) (peer_socket_type : SocketType)
| Error (e : ZmtpError).

Inductive State :=
| StGreeting (buffer : bytes)
| StHandshake (decoder : ZmtpDecoder) (peer_socket_type : option SocketType) (peer_identity : option bytes)
| StActive (decoder : ZmtpDecoder).

Record ZmtpSession := mk_session {
  state : State;
  local_socket_type : SocketType;
  recv : SegmentedBuffer;
  session_max : option Z;  (** the field [max_frame_size] *)
}.

Definition make_decoder (max_frame_size : option Z) : ZmtpDecoder :=
  match max_frame_size with
  | None => decoder_new
  | Some m => decoder_with_max_frame_size m
  end.

Definition session_with_max_frame_size (t : SocketType) (max : option Z) : ZmtpSession :=
  mk_session (StGreeting []) t segbuf_new max.

Definition session_new (t : SocketType) : ZmtpSession := session_with_max_frame_size t None.

Definition session_new_active_with_max_frame_size (t : SocketType) (max : option Z) : ZmtpSession :=
  mk_session (StActive (make_decoder max)) t segbuf_new max.

Definition session_new_active (t : SocketType) : ZmtpSession :=
  session_new_active_with_max_frame_size t None.

Definition set_state (s : ZmtpSession) (st : State) (r : SegmentedBuffer) : ZmtpSession :=
  mk_session st (local_socket_type s) r (session_max s).

(** One iteration of the loop of [on_bytes]: the events it pushes, the new
    session, and whether the loop goes on ([false] is a [break]).  [None] is a
    panic. *)
Definition session_step (s : ZmtpSession) : option (list SessionEvent * ZmtpSession * bool) :=
  match state s with
  | StGreeting buffer =>
      needed ← usize_sub 64 (len buffer);
      let take := Z.min needed (segbuf_len (recv s)) in
      '(o, r) ← take_bytes (recv s) take;
      let buffer := match o with Some bs => buffer ++ bs | None => buffer end in
      if len buffer <? 64 then Some ([], set_state s (StGreeting buffer) r, false)
      else
        (* [buffer.split()] leaves an empty buffer behind *)
        match greeting_parse buffer with
        | Ok _ =>
            let ready_body := build_ready (as_str (local_socket_type s)) None in
            Some ([SendBytes (encode_frame FLAG_COMMAND ready_body)],
                  set_state s (StHandshake (make_decoder (session_max s)) None None) r, true)
        | Err e => Some ([Error e], set_state s (StGreeting []) r, false)
        end
  | StHandshake decoder pst pid =>
      '(res, decoder, r) ← decode decoder (recv s);
      match res with
      | Ok (Some frame) =>
          if negb (is_command frame)
          then Some ([Error Protocol], set_state s (StHandshake decoder pst pid) r, false)
          else
            p ← parse_ready_command (payload frame);
            match p with
            | Err e => Some ([Error e], set_state s (StHandshake decoder pst pid) r, false)
            | Ok (t, id) =>
                let peer_st := default (local_socket_type s) (Some t) in
                Some ([HandshakeComplete id peer_st], set_state s (StActive decoder) r, true)
            end
      | Ok None => Some ([], set_state s (StHandshake decoder pst pid) r, false)
      | Err e => Some ([Error e], set_state s (StHandshake decoder pst pid) r, false)
      end
  | StActive decoder =>
      '(res, decoder, r) ← decode decoder (recv s);
      match res with
      | Ok (Some frame) => Some ([Frame frame], set_state s (StActive decoder) r, true)
      | Ok None => Some ([], set_state s (StActive decoder) r, false)
      | Err e => Some ([Error e], set_state s (StActive decoder) r, false)
      end
  end.

(** The loop, with fuel; [None] is a panic or exhausted fuel. *)
Fixpoint session_loop (fuel : nat) (s : ZmtpSession) : option (list SessionEvent * ZmtpSession) :=
  match fuel with
  | O => None
  | S fuel =>
      '(evs, s, continue) ← session_step s;
      if (continue : bool) then '(evs', s) ← session_loop fuel s; Some (evs ++ evs', s)
      else Some (evs, s)
  end.

(** The bytes a session holds, in its buffers and in a frame in reassembly. *)
Definition held_bytes (s : ZmtpSession) : nat :=
  (length (flat (recv s)) +
   match state s with
   | StGreeting buffer => length buffer
   | StHandshake d _ _ | StActive d => length (staging d)
   end)%nat.

(** Every iteration but the last consumes input; a reassembly has at most nine
    header bytes on top of the bytes held, and two iterations change the phase. *)
Definition on_bytes (s : ZmtpSession) (src : bytes) : option (list SessionEvent * ZmtpSession) :=
  let s := set_state s (state s) (push (recv s) src) in
  session_loop (held_bytes s + 12)%nat s.

(** ** Specification *)

Inductive phase := PGreeting | PHandshake | PActive.

Definition effective_max (max : option Z) : Z := default default_max_frame_size max.

Section spec.
Context (t : SocketType) (max : option Z).

(** Read one greeting or one frame off the bytes. *)
Definition spec_step (p : phase) (bs : bytes) : list SessionEvent * phase * bytes * bool :=
  match p with
  | PGreeting =>
      if len bs <? 64 then ([], PGreeting, bs, false)
      else match greeting_parse (ztake 64 bs) with
           | Ok _ => ([SendBytes (encode_frame FLAG_COMMAND (build_ready (as_str t) None))],
                      PHandshake, zdrop 64 bs, true)
           | Err e => ([Error e], PGreeting, zdrop 64 bs, false)
           end
  | PHandshake =>
      match parse_frame (effective_max max) bs with
      | NeedMore => ([], PHandshake, bs, false)
      | Bad e => ([Error e], PHandshake, bs, false)
      | Parsed f rest =>
          if negb (is_command f) then ([Error Protocol], PHandshake, rest, false)
          else match parse_ready_command (payload f) with
               | Some (Ok (pt, id)) => ([HandshakeComplete id pt], PActive, rest, true)
               | Some (Err e) => ([Error e], PHandshake, rest, false)
               | None => ([], PHandshake, rest, false)
               end
      end
  | PActive =>
      match parse_frame (effective_max max) bs with
      | NeedMore => ([], PActive, bs, false)
      | Bad e => ([Error e], PActive, bs, false)
      | Parsed f rest => ([Frame f], PActive, rest, true)
      end
  end.

Inductive srun : phase -> bytes -> list SessionEvent -> phase -> bytes -> Prop :=
| srun_stop p bs evs p' bs' :
    spec_step p bs = (evs, p', bs', false) -> srun p bs evs p' bs'
| srun_go p bs evs p1 bs1 evs' p' bs' :
    spec_step p bs = (evs, p1, bs1, true) -> srun p1 bs1 evs' p' bs' ->
    srun p bs (evs ++ evs') p' bs'.

Lemma srun_det p bs evs1 p1 bs1 evs2 p2 bs2 :
  srun p bs evs1 p1 bs1 -> srun p bs evs2 p2 bs2 -> evs1 = evs2 /\ p1 = p2 /\ bs1 = bs2.
Proof.
  intros H1. revert evs2 p2 bs2. induction H1 as [p bs evs p' bs' H|p bs evs p1 bs1 evs' p' bs' H _ IH];
    intros evs2 p2 bs2 H2; inversion H2 as [????? H'|???????? H' Hrest]; subst;
    rewrite H in H'; simplify_eq; [done|].
  edestruct IH as (-> & -> & ->); [eassumption|done].
Qed.
End spec.

(** ** Refinement *)

Definition session_phase (s : ZmtpSession) : phase :=
  match state s with StGreeting _ => PGreeting | StHandshake _ _ _ => PHandshake | StActive _ => PActive end.

Definition session_bytes (s : ZmtpSession) : bytes :=
  match state s with
  | StGreeting buffer => buffer ++ flat (recv s)
  | StHandshake d _ _ | StActive d => logical d (recv s)
  end.

Definition session_wf (s : ZmtpSession) : Prop :=
  segbuf_wf (recv s) /\
  match state s with
  | StGreeting buffer => len buffer < 64
  | StHandshake d _ _ | StActive d => decoder_wf d /\ max_frame_size d = effective_max (session_max s)
  end.

Lemma make_decoder_wf max :
  decoder_wf (make_decoder max) /\ max_frame_size (make_decoder max) = effective_max max /\
  pending_flags (make_decoder max) = None.
Proof. by destruct max. Qed.

Lemma parse_ready_total body : exists r, parse_ready_command body = Some r.
Proof.
  destruct (parse_ready_header body) as [(rest & -> & ->)|[_ ->]]; [|by eexists].
  destruct (ready_loop_spec (S (length (ready_header ++ rest))) ready_header rest None None)
    as (r & -> & _); [rewrite length_app; lia|].
  destruct r as [[[st|] id]|e]; by eexists.
Qed.

(** One iteration performs the abstract step. *)
Lemma session_step_refines s :
  session_wf s ->
  exists evs s' c, session_step s = Some (evs, s', c) /\ session_wf s' /\
    local_socket_type s' = local_socket_type s /\ session_max s' = session_max s /\
    spec_step (local_socket_type s) (session_max s) (session_phase s) (session_bytes s) =
      (evs, session_phase s', session_bytes s', c).
Proof.
  intros [Hwf Hst]. destruct s as [st t r max]. cbn [recv state session_max] in *.
  unfold session_step, session_bytes, session_phase. cbn [recv state session_max local_socket_type].
  destruct st as [buffer|d pst pid|d].
  - unfold usize_sub. rewrite (proj2 (Z.leb_le _ _)) by lia. cbn [mbind option_bind]. cbn zeta.
    unfold segbuf_len. rewrite (wf_len _ Hwf).
    pose proof (len_nonneg buffer). pose proof (len_nonneg (flat r)).
    set (k := Z.min _ _). pose proof (take_bytes_spec r k Hwf ltac:(lia)) as Ht.
    rewrite (proj2 (Z.leb_le _ _)) in Ht by lia. destruct Ht as (r' & -> & Hf & Hwf').
    cbn [mbind option_bind spec_step]. rewrite !len_app, len_ztake by lia.
    destruct (len buffer + len (flat r) <? 64) eqn:E; bool_prop.
    + assert (k = len (flat r)) as Hk by lia. rewrite (proj2 (Z.ltb_lt _ _)) by lia.
      eexists _, _, _. split; [done|]. unfold session_wf, session_bytes; cbn [recv state set_state session_max].
      split_and!; try done; [rewrite len_app, len_ztake; lia|].
      by rewrite Hf, Hk, ztake_ge, zdrop_ge, app_nil_r by lia.
    + assert (k = 64 - len buffer) as Hk by lia. rewrite (proj2 (Z.ltb_ge _ _)) by lia.
      replace (buffer ++ ztake k (flat r)) with (ztake 64 (buffer ++ flat r)) by (rewrite ztake_app_ge, Hk by lia; done).
      replace (zdrop 64 (buffer ++ flat r)) with (flat r') by (rewrite Hf, zdrop_app_ge, Hk by lia; done).
      destruct (greeting_parse _) as [g|e]; eexists _, _, _; (split; [done|]);
        unfold session_wf, session_bytes; cbn [recv state set_state session_max local_socket_type].
      * destruct (make_decoder_wf max) as (H1 & H2 & H3). split_and!; try done.
        unfold logical. by rewrite H3.
      * by split_and!.
  - destruct Hst as [Hd Hm]. destruct (decode_ok d r Hd Hwf) as (res & d' & r' & -> & Hd' & Hwf' & Hm' & H).
    cbn [mbind option_bind spec_step]. rewrite <- Hm. rewrite Hm in Hm'.
    destruct (parse_frame _ _) as [|e|f rest].
    + destruct H as (-> & <-). eexists _, _, _. split; [done|]. by split_and!.
    + destruct H as (-> & -> & ->). eexists _, _, _. split; [done|]. by split_and!.
    + destruct H as (-> & _ & <-). destruct (is_command f); cbn [negb].
      2: { eexists _, _, _. split; [done|]. by split_and!. }
      destruct (parse_ready_total (payload f)) as [p ->]. cbn [mbind option_bind].
      destruct p as [[pt id]|e]; eexists _, _, _; (split; [done|]); by split_and!.
  - destruct Hst as [Hd Hm]. destruct (decode_ok d r Hd Hwf) as (res & d' & r' & -> & Hd' & Hwf' & Hm' & H).
    cbn [mbind option_bind spec_step]. rewrite <- Hm. rewrite Hm in Hm'.
    destruct (parse_frame _ _) as [|e|f rest].
    + destruct H as (-> & <-). eexists _, _, _. split; [done|]. by split_and!.
    + destruct H as (-> & -> & ->). eexists _, _, _. split; [done|]. by split_and!.
    + destruct H as (-> & _ & <-). eexists _, _, _. split; [done|]. by split_and!.
Qed.

Definition phase_rank (p : phase) : nat :=
  match p with PGreeting => 2 | PHandshake => 1 | PActive => 0 end%nat.

(** Every step that goes on consumes input or advances the phase. *)
Lemma spec_step_decreases t max p bs evs p' bs' :
  spec_step t max p bs = (evs, p', bs', true) ->
  (phase_rank p' + length bs' < phase_rank p + length bs)%nat.
Proof.
  destruct p; cbn [spec_step].
  - destruct (len bs <? 64) eqn:E; [done|]. destruct (greeting_parse _); intros [= _ <- <-].
    bool_prop. unfold zdrop. rewrite length_drop. unfold len in E. cbn [phase_rank]. lia.
  - destruct (parse_frame _ _) as [| |f rest] eqn:E; [done..|]. apply parse_frame_length in E.
    repeat case_match; intros; simplify_eq. cbn [phase_rank]. lia.
  - destruct (parse_frame _ _) as [| |f rest] eqn:E; [done..|]. apply parse_frame_length in E.
    intros [= _ <- <-]. cbn [phase_rank]. lia.
Qed.

Lemma session_loop_refines fuel s :
  session_wf s -> (phase_rank (session_phase s) + length (session_bytes s) < fuel)%nat ->
  exists evs s', session_loop fuel s = Some (evs, s') /\ session_wf s' /\
    local_socket_type s' = local_socket_type s /\ session_max s' = session_max s /\
    srun (local_socket_type s) (session_max s) (session_phase s) (session_bytes s)
      evs (session_phase s') (session_bytes s').
Proof.
  revert s. induction fuel as [|fuel IH]; intros s Hwf Hf; [lia|].
  destruct (session_step_refines s Hwf) as (evs & s1 & c & Hs & Hwf1 & Ht & Hm & Hstep).
  cbn [session_loop]. rewrite Hs. cbn [mbind option_bind]. destruct c.
  - pose proof (spec_step_decreases _ _ _ _ _ _ _ Hstep).
    destruct (IH s1 Hwf1) as (evs2 & s2 & -> & Hwf2 & Ht2 & Hm2 & Hrun); [lia|].
    cbn [mbind option_bind]. rewrite Ht, Hm in *.
    eexists _, _. split; [done|]. split_and!; try done. by eapply srun_go.
  - eexists _, _. split; [done|]. split_and!; try done. by apply srun_stop.
Qed.

Lemma session_bytes_held s :
  session_wf s -> (phase_rank (session_phase s) + length (session_bytes s) < held_bytes s + 12)%nat.
Proof.
  assert (Hl : forall d r, decoder_wf d -> (length (logical d r) <= 9 + length (staging d) + length (flat r))%nat).
  { intros d r Hd. unfold logical, decoder_wf in *. destruct (pending_flags d) as [fl|]; [|lia].
    rewrite !length_app. unfold header_of. cbn [length].
    destruct (has_bits fl 2); [rewrite length_be_bytes|cbn]; lia. }
  intros [Hwf Hst]. unfold session_bytes, held_bytes, session_phase.
  destruct (state s) as [buf|d ? ?|d]; cbn [phase_rank].
  - rewrite length_app. lia.
  - destruct Hst as [Hd _]. specialize (Hl d (recv s) Hd). lia.
  - destruct Hst as [Hd _]. specialize (Hl d (recv s) Hd). lia.
Qed.

Lemma session_push s src :
  session_wf s ->
  let s1 := set_state s (state s) (push (recv s) src) in
  session_wf s1 /\ session_bytes s1 = session_bytes s ++ src /\ session_phase s1 = session_phase s.
Proof.
  intros [Hwf Hst]. cbn zeta. unfold session_wf, session_bytes, session_phase, set_state, logical.
  cbn [state recv session_max]. rewrite flat_push. split_and!; [by apply push_wf|done| |done].
  destruct (state s) as [buf|d ? ?|d]; [by rewrite app_assoc|..];
    destruct (pending_flags d); by rewrite <- ?app_assoc.
Qed.

(** What [on_bytes] does, in terms of the abstract machine. *)
Lemma on_bytes_spec s src :
  session_wf s ->
  exists evs s', on_bytes s src = Some (evs, s') /\ session_wf s' /\
    local_socket_type s' = local_socket_type s /\ session_max s' = session_max s /\
    srun (local_socket_type s) (session_max s) (session_phase s) (session_bytes s ++ src)
      evs (session_phase s') (session_bytes s').
Proof.
  intros Hwf. destruct (session_push s src Hwf) as (Hwf1 & <- & <-). cbn zeta in *.
  destruct (session_loop_refines _ _ Hwf1 (session_bytes_held _ Hwf1)) as (evs & s' & Heq & H).
  exists evs, s'. split; [exact Heq|exact H].
Qed.

(** C10: the session refines its protocol machine.  [on_bytes] terminates
    without panicking on every input in every reachable state, keeps the
    session well formed, and its events, phase and unconsumed bytes are those
    of the abstract machine [srun] run on the bytes held and the bytes given. *)
Theorem on_bytes_refines (s : ZmtpSession) (src : bytes) :
  session_wf s ->
  exists evs s', on_bytes s src = Some (evs, s') /\ session_wf s' /\
    srun (local_socket_type s) (session_max s) (session_phase s) (session_bytes s ++ src)
      evs (session_phase s') (session_bytes s').
Proof. intros Hwf. destruct (on_bytes_spec s src Hwf) as (evs & s' & ? & ? & _ & _ & ?). eauto. Qed.

Lemma session_new_wf t max : session_wf (session_with_max_frame_size t max).
Proof. by split; [apply segbuf_new_wf|]. Qed.
#[export] Hint Resolve session_new_wf : mono.

Lemma on_bytes_refines_witness :
  exists evs s', on_bytes (session_new Router) (local_greeting ++ ascii_bytes "x") = Some (evs, s') /\
    session_wf s' /\ srun Router None PGreeting (local_greeting ++ ascii_bytes "x") evs
      (session_phase s') (session_bytes s').
Proof.
  exact (on_bytes_refines (session_new Router) (local_greeting ++ ascii_bytes "x") (session_new_wf Router None)).
Defined.

(** ** Chunking *)

Definition is_error (ev : SessionEvent) : bool := match ev with Error _ => true | _ => false end.

(** Feed the chunks of a byte stream in order. *)
Fixpoint feed (s : ZmtpSession) (chunks : list bytes) : option (list SessionEvent * ZmtpSession) :=
  match chunks with
  | [] => Some ([], s)
  | c :: chunks =>
      '(evs, s) ← on_bytes s c;
      '(evs', s) ← feed s chunks;
      Some (evs ++ evs', s)
  end.

(** More input does not change a step that did not wait for it; a step that
    waits does nothing. *)
Lemma spec_step_app t max p bs more evs p' bs' c :
  spec_step t max p bs = (evs, p', bs', c) ->
  existsb is_error evs = false ->
  (c = true -> spec_step t max p (bs ++ more) = (evs, p', bs' ++ more, true)) /\
  (c = false -> evs = [] /\ p' = p /\ bs' = bs).
Proof.
  pose proof (len_nonneg more). destruct p; cbn [spec_step].
  - destruct (len bs <? 64) eqn:E; [by intros [= <- <- <- <-]|]. bool_prop.
    rewrite (proj2 (Z.ltb_ge _ _)) by len_lia. rewrite ztake_app_le, zdrop_app_le by lia.
    destruct (greeting_parse _); by intros [= <- <- <- <-].
  - pose proof (parse_frame_app (effective_max max) bs more) as Happ.
    destruct (parse_frame _ bs) as [|e|f rest]; [by intros [= <- <- <- <-]..|]. rewrite Happ.
    destruct (parse_ready_total (payload f)) as [r ->].
    destruct (negb (is_command f)), r as [[pt id]|e]; by intros [= <- <- <- <-].
  - pose proof (parse_frame_app (effective_max max) bs more) as Happ.
    destruct (parse_frame _ bs) as [|e|f rest]; [by intros [= <- <- <- <-]..|]. rewrite Happ.
    by intros [= <- <- <- <-].
Qed.

(** A run on a prefix of the input is a prefix of the run. *)
Lemma srun_app t max p bs evs p' bs' more evs2 p2 bs2 :
  srun t max p bs evs p' bs' -> existsb is_error evs = false ->
  srun t max p' (bs' ++ more) evs2 p2 bs2 ->
  srun t max p (bs ++ more) (evs ++ evs2) p2 bs2.
Proof.
  intros Hrun. revert evs2 p2 bs2.
  induction Hrun as [p bs evs p' bs' H|p bs evs p1 bs1 evs' p' bs' H Hrun IH]; intros evs2 p2 bs2 Hne H2.
  - edestruct (spec_step_app _ _ _ _ more _ _ _ _ H Hne) as [_ Hstop].
    by destruct Hstop as (-> & -> & ->).
  - rewrite existsb_app in Hne. apply orb_false_iff in Hne as [Hne Hne'].
    edestruct (spec_step_app _ _ _ _ more _ _ _ _ H Hne) as [Hgo _].
    rewrite <- app_assoc. eapply srun_go; [by apply Hgo|]. by apply IH.
Qed.

(** An error is found in the whole input if it is found in a prefix. *)
Lemma srun_error_prefix t max p bs evs p' bs' more evs2 p2 bs2 :
  srun t max p bs evs p' bs' -> existsb is_error evs = true ->
  srun t max p (bs ++ more) evs2 p2 bs2 -> existsb is_error evs2 = true.
Proof.
  intros Hrun. revert evs2 p2 bs2.
  induction Hrun as [p bs evs p' bs' H|p bs evs p1 bs1 evs' p' bs' H Hrun IH]; intros evs2 p2 bs2 He H2.
  - assert (Hstep : exists p1 bs1, spec_step t max p (bs ++ more) = (evs, p1, bs1, false)).
    { revert H. destruct p; cbn [spec_step].
      - destruct (len bs <? 64) eqn:E; [by intros [= <- <- <-]|]. bool_prop. pose proof (len_nonneg more).
        rewrite (proj2 (Z.ltb_ge _ _)) by len_lia. rewrite ztake_app_le by lia.
        destruct (greeting_parse _); intros [= <- <- <-]. eauto.
      - pose proof (parse_frame_app (effective_max max) bs more) as Happ.
        destruct (parse_frame _ bs) as [|e|f rest]; [by intros [= <- <- <-]|rewrite Happ; naive_solver|].
        rewrite Happ. repeat case_match; naive_solver.
      - pose proof (parse_frame_app (effective_max max) bs more) as Happ.
        destruct (parse_frame _ bs) as [|e|f rest]; [by intros [= <- <- <-]|rewrite Happ; naive_solver|].
        rewrite Happ. naive_solver. }
    destruct Hstep as (q & bq & Hstep). inversion H2 as [????? H'|???????? H' ?]; subst; rewrite Hstep in H'; by simplify_eq.
  - destruct (existsb is_error evs) eqn:E.
    { exfalso. clear -H E. revert H E. destruct p; cbn [spec_step]; repeat case_match; intros; by simplify_eq/=. }
    rewrite existsb_app, E in He. cbn in He.
    edestruct (spec_step_app _ _ _ _ more _ _ _ _ H E) as [Hgo _]. specialize (Hgo eq_refl).
    inversion H2 as [????? H'|???????? H' Hrest]; subst; rewrite Hgo in H'; simplify_eq.
    rewrite existsb_app. by erewrite (IH _ _ _ He Hrest), orb_true_r.
Qed.

(** A session that waits for input. *)
Definition quiescent (s : ZmtpSession) : Prop :=
  spec_step (local_socket_type s) (session_max s) (session_phase s) (session_bytes s) =
    ([], session_phase s, session_bytes s, false).

Lemma srun_quiescent t max p bs evs p' bs' :
  srun t max p bs evs p' bs' -> existsb is_error evs = false ->
  spec_step t max p' bs' = ([], p', bs', false).
Proof.
  induction 1 as [p bs evs p' bs' H|p bs evs p1 bs1 evs' p' bs' H _ IH]; intros He.
  - edestruct (spec_step_app _ _ _ _ [] _ _ _ _ H He) as [_ Hstop].
    by destruct Hstop as (-> & -> & ->).
  - rewrite existsb_app in He. apply orb_false_iff in He as [_ He]. by apply IH.
Qed.

Lemma feed_spec chunks s evs p bs :
  session_wf s -> quiescent s ->
  srun (local_socket_type s) (session_max s) (session_phase s) (session_bytes s ++ concat chunks) evs p bs ->
  existsb is_error evs = false ->
  exists s', feed s chunks = Some (evs, s') /\ session_wf s' /\ session_phase s' = p /\ session_bytes s' = bs.
Proof.
  revert s evs. induction chunks as [|c chunks IH]; intros s evs Hwf Hq Hrun He; cbn [feed concat].
  - rewrite app_nil_r in Hrun.
    destruct (srun_det _ _ _ _ _ _ _ _ _ _ Hrun (srun_stop _ _ _ _ _ _ _ Hq)) as (-> & -> & ->). eauto.
  - cbn [concat] in Hrun. rewrite app_assoc in Hrun.
    destruct (on_bytes_spec s c Hwf) as (evs1 & s1 & -> & Hwf1 & Ht & Hm & Hrun1). cbn [mbind option_bind].
    destruct (existsb is_error evs1) eqn:He1.
    { by rewrite (srun_error_prefix _ _ _ _ _ _ _ _ _ _ _ Hrun1 He1 Hrun) in He. }
    assert (Hq1 : quiescent s1) by (unfold quiescent; rewrite Ht, Hm; by eapply srun_quiescent).
    (* the run of the remaining chunks, from the state the first one leaves *)
    set (s2 := set_state s1 (state s1) (push (recv s1) (concat chunks))).
    destruct (session_push s1 (concat chunks) Hwf1) as (Hwf2 & Hb2 & Hp2). fold s2 in Hwf2, Hb2, Hp2.
    destruct (session_loop_refines _ _ Hwf2 (session_bytes_held _ Hwf2)) as (evs2 & s3 & _ & _ & _ & _ & Hrun2).
    rewrite Hb2, Hp2 in Hrun2. change (local_socket_type s2) with (local_socket_type s1) in Hrun2.
    change (session_max s2) with (session_max s1) in Hrun2.
    pose proof Hrun2 as Hrun2'. rewrite Ht, Hm in Hrun2'.
    destruct (srun_det _ _ _ _ _ _ _ _ _ _ Hrun (srun_app _ _ _ _ _ _ _ _ _ _ _ Hrun1 He1 Hrun2'))
      as (-> & -> & ->).
    rewrite existsb_app, He1 in He. cbn in He.
    destruct (IH s1 evs2 Hwf1 Hq1 Hrun2 He) as (s' & -> & Hwf' & Hp' & Hb'). cbn [mbind option_bind]. eauto.
Qed.

(** Segmentation does not matter.  However the network cuts a byte stream
    into chunks, a session that is waiting for input emits the same events in
    the same order and ends in the same phase with the same unconsumed bytes as
    if it had been given the stream in one piece, as long as no error occurs. *)
Theorem on_bytes_chunking (s s1 : ZmtpSession) (chunks : list bytes) (evs : list SessionEvent) :
  session_wf s -> quiescent s ->
  on_bytes s (concat chunks) = Some (evs, s1) -> existsb is_error evs = false ->
  exists s2, feed s chunks = Some (evs, s2) /\ session_wf s2 /\
    session_phase s2 = session_phase s1 /\ session_bytes s2 = session_bytes s1.
Proof.
  intros Hwf Hq Hon He. destruct (on_bytes_spec s (concat chunks) Hwf) as (evs' & s1' & Heq & _ & _ & _ & Hrun).
  simplify_eq. by apply feed_spec.
Qed.

(** ** End to end *)

(** What a peer of type [t] with identity [id] puts on the wire: its greeting,
    its READY command, then the messages. *)
Definition peer_wire (m : SecurityMechanism) (o : SocketOptions) (t : SocketType) (id : option bytes)
    (msgs : list (list bytes)) : bytes :=
  build_greeting_with_mechanism m o ++ encode_frame FLAG_COMMAND (build_ready (as_str t) id) ++
  concat ((λ msg, encode_multipart msg []) <$> msgs).

Lemma encode_frame_spec fl body : encode_frame fl body = encode (mk_frame fl body).
Proof.
  unfold encode_frame, encode, FLAG_LONG; cbn [flags payload].
  destruct (len body <=? 255) eqn:E; bool_prop.
  - by rewrite (proj2 (Z.leb_gt 256 _)) by lia.
  - by rewrite (proj2 (Z.leb_le 256 _)) by lia.
Qed.

(** A run of whole frames. *)
Lemma srun_frames t max fs :
  Forall (λ f, check_flags (flags f) = None /\ wire_flags (flags f) (len (payload f)) = flags f /\
    len (payload f) <= effective_max max /\ len (payload f) <= 0x7FFFFFFFFFFFFFFF) fs ->
  srun t max PActive (concat (encode <$> fs)) (Frame <$> fs) PActive [].
Proof.
  induction 1 as [|[fl pl] fs (Hf & Hw & Hm & Hs) _ IH]; cbn [fmap list_fmap concat].
  - by apply srun_stop.
  - eapply (srun_go _ _ _ _ [_]); [|exact IH]. cbn [spec_step]. rewrite parse_encode by done.
    cbn [flags payload] in *. by rewrite Hw.
Qed.

Lemma message_frames_Forall (P : ZmtpFrame -> Prop) msg :
  (forall part m, part ∈ msg -> P (frame_data part m)) -> Forall P (message_frames msg).
Proof.
  induction msg as [|part msg IH]; intros H; cbn [message_frames]; [done|].
  destruct msg as [|part' msg]; [constructor; [apply H; left|done]|].
  constructor; [apply H; left|]. apply IH. intros; apply H; by right.
Qed.

Definition fits (max : option Z) (l : bytes) : Prop :=
  len l <= effective_max max /\ len l <= 0x7FFFFFFFFFFFFFFF.

Lemma srun_messages t max msgs :
  Forall (Forall (fits max)) msgs ->
  srun t max PActive (concat ((λ msg, encode_multipart msg []) <$> msgs))
    (Frame <$> concat (message_frames <$> msgs)) PActive [].
Proof.
  intros Hall.
  assert (Hw : concat ((λ msg, encode_multipart msg []) <$> msgs) = concat (encode <$> concat (message_frames <$> msgs))).
  { clear. induction msgs as [|msg msgs IH]; cbn [fmap list_fmap concat]; [done|].
    rewrite encode_multipart_frames, fmap_app, concat_app. cbn [app]. f_equal. exact IH. }
  rewrite Hw. apply srun_frames. clear Hw.
  induction Hall as [|msg msgs Hm _ IH]; cbn [fmap list_fmap concat]; [constructor|].
  apply Forall_app. split; [|exact IH]. apply message_frames_Forall. intros part m Hin.
  rewrite Forall_forall in Hm. destruct (Hm part (proj1 (list_elem_of_In _ _) Hin)).
  destruct (frame_data_flags part m) as (H1 & H2 & _). done.
Qed.

Lemma srun_handshake t max m o pt id rest evs p bs :
  from_option len 0 id <= 255 -> 320 <= effective_max max ->
  srun t max PActive rest evs p bs ->
  srun t max PGreeting (build_greeting_with_mechanism m o ++ encode_frame FLAG_COMMAND (build_ready (as_str pt) id) ++ rest)
    (SendBytes (encode_frame FLAG_COMMAND (build_ready (as_str t) None)) :: HandshakeComplete id pt :: evs) p bs.
Proof.
  intros Hid Hmax Hrun. set (g := build_greeting_with_mechanism m o).
  assert (Hg : len g = 64 /\ exists gr, greeting_parse g = Ok gr).
  { unfold g, build_greeting_with_mechanism.
    destruct m; [|destruct (plain_server o)|destruct (curve_server o)]; (split; [reflexivity|eexists; reflexivity]). }
  destruct Hg as [Hlg [gr Hgr]].
  eapply (srun_go _ _ _ _ [_]).
  { cbn [spec_step]. rewrite (proj2 (Z.ltb_ge _ _)) by len_lia.
    rewrite ztake_app_le, ztake_ge, Hgr by lia.
    by rewrite zdrop_app_ge, Hlg, Z.sub_diag, zdrop_0 by lia. }
  set (body := build_ready (as_str pt) id).
  assert (Hu : from_option len 0 id <= u32_max) by (unfold u32_max; lia).
  assert (Hlen : len body <= 320).
  { unfold body. rewrite build_ready_spec by done. pose proof (as_str_len pt).
    unfold ready_props, encode_props. destruct id as [i|]; cbn [fmap list_fmap concat encode_prop fst snd];
      unfold encode_prop; cbn [fst snd]; rewrite !len_app, !len_be_bytes;
      cbn [from_option] in Hid; change (len (ascii_bytes "Socket-Type")) with 11;
      change (len (ascii_bytes "Identity")) with 8; change (len ready_header) with 6;
      rewrite ?len_cons; change (@len byte []) with 0; lia. }
  eapply (srun_go _ _ _ _ [_]); [|exact Hrun].
  cbn [spec_step]. rewrite encode_frame_spec.
  assert (Hcf : check_flags FLAG_COMMAND = None) by reflexivity.
  rewrite parse_encode by (done || (cbn [payload]; lia)). unfold is_command. cbn [flags payload].
  destruct (wire_flags_spec FLAG_COMMAND (len body) Hcf) as (_ & _ & _ & ->).
  cbn [negb]. unfold body. change (has_bits FLAG_COMMAND 4) with true. cbn [negb].
  rewrite ready_parses_back by done. by rewrite (proj2 (Z.leb_le _ _)).
Qed.

(** End to end on the wire.  A fresh session fed, in any segmentation, what
    a monocoque peer of any type, mechanism and options sends (greeting, READY
    with an identity of at most 255 bytes, then any multipart messages within
    the frame limit) answers with its own READY, reports the peer's type and
    identity, and delivers exactly the frames of the messages in order, leaving
    no byte behind. *)
Theorem session_end_to_end (t pt : SocketType) (max : option Z) (m : SecurityMechanism) (o : SocketOptions)
    (id : option bytes) (msgs : list (list bytes)) (chunks : list bytes) :
  from_option len 0 id <= 255 -> 320 <= effective_max max -> Forall (Forall (fits max)) msgs ->
  concat chunks = peer_wire m o pt id msgs ->
  exists s', feed (session_with_max_frame_size t max) chunks =
    Some (SendBytes (encode_frame FLAG_COMMAND (build_ready (as_str t) None)) ::
          HandshakeComplete id pt :: (Frame <$> concat (message_frames <$> msgs)), s') /\
    session_phase s' = PActive /\ session_bytes s' = [].
Proof.
  intros Hid Hmax Hmsgs Hwire.
  edestruct (feed_spec chunks (session_with_max_frame_size t max)) as (s' & Hf & _ & Hp & Hb).
  - apply session_new_wf.
  - done.
  - cbn [session_bytes session_phase state session_with_max_frame_size local_socket_type session_max recv].
    rewrite Hwire. apply srun_handshake; [done|done|]. by apply srun_messages.
  - cbn [existsb is_error orb]. clear. induction (concat (message_frames <$> msgs)); done.
  - exists s'. done.
Qed.

Lemma session_end_to_end_witness :
  exists s', feed (session_new Router)
      [ztake 70 (peer_wire Null default_options Dealer None [[ascii_bytes "a"; ascii_bytes "b"]]);
       zdrop 70 (peer_wire Null default_options Dealer None [[ascii_bytes "a"; ascii_bytes "b"]])] =
    Some ([SendBytes (encode_frame FLAG_COMMAND (build_ready (as_str Router) None));
           HandshakeComplete None Dealer;
           Frame (frame_data (ascii_bytes "a") true); Frame (frame_data (ascii_bytes "b") false)], s') /\
    session_phase s' = PActive /\ session_bytes s' = [].
Proof.
  apply (session_end_to_end Router Dealer None Null default_options None [[ascii_bytes "a"; ascii_bytes "b"]]).
  - vm_compute. discriminate.
  - vm_compute. discriminate.
  - repeat constructor; vm_compute; discriminate.
  - vm_compute. reflexivity.
Defined.

Lemma on_bytes_chunking_witness :
  exists s2, feed (session_new Router) [ztake 10 local_greeting; zdrop 10 local_greeting] =
    Some ([SendBytes (encode_frame FLAG_COMMAND (build_ready (as_str Router) None))], s2) /\
    session_phase s2 = PHandshake.
Proof.
  edestruct on_bytes_chunking with (s := session_new Router)
    (chunks := [ztake 10 local_greeting; zdrop 10 local_greeting]) as (s2 & Hf & _ & Hp & _).
  - apply session_new_wf.
  - reflexivity.
  - vm_compute. reflexivity.
  - reflexivity.
  - exists s2. split; [exact Hf|exact Hp].
Defined.
