(* ===== verification/ByteOrder.v ===== *)
(** * Ordered byte strings

    The lexicographic order of [[u8]] and [Bytes], and what the pub/sub code
    uses of it: [slice::binary_search_by] on a vector sorted by a byte-string
    key, and [BTreeSet<Vec<u8>>]. *)

From S2P Require Import Prelude.

(** [Ord::cmp] on byte slices. *)
Fixpoint bytes_cmp (a b : bytes) : comparison :=
  match a, b with
  | [], [] => Eq
  | [], _ :: _ => Lt
  | _ :: _, [] => Gt
  | x :: a, y :: b =>
      match u8_val x ?= u8_val y with
      | Eq => bytes_cmp a b
      | c => c
      end
  end.

Definition bytes_lt (a b : bytes) : Prop := bytes_cmp a b = Lt.

Lemma bytes_cmp_eq a b : bytes_cmp a b = Eq <-> a = b.
Proof.
  revert b. induction a as [|x a IH]; intros [|y b]; cbn; [done..|].
  destruct (Z.compare_spec (u8_val x) (u8_val y)) as [E|E|E].
  - apply (inj u8_val) in E as ->. rewrite IH. split; [by intros ->|by intros [= ->]].
  - split; [done|]. intros [= -> ->]. lia.
  - split; [done|]. intros [= -> ->]. lia.
Qed.

Lemma bytes_cmp_refl a : bytes_cmp a a = Eq.
Proof. by apply bytes_cmp_eq. Qed.

Lemma bytes_cmp_antisym a b : bytes_cmp b a = CompOpp (bytes_cmp a b).
Proof.
  revert b. induction a as [|x a IH]; intros [|y b]; cbn; [done..|].
  rewrite (Z.compare_antisym (u8_val x)). destruct (u8_val x ?= u8_val y); cbn; [apply IH|done..].
Qed.

Lemma bytes_cmp_gt a b : bytes_cmp a b = Gt <-> bytes_lt b a.
Proof. unfold bytes_lt. rewrite (bytes_cmp_antisym a b). by destruct (bytes_cmp a b). Qed.

#[export] Instance bytes_lt_trans : Transitive bytes_lt.
Proof.
  unfold bytes_lt. intros a. induction a as [|x a IH]; intros [|y b] [|z c]; cbn; try done.
  destruct (Z.compare_spec (u8_val x) (u8_val y)) as [->|E|E]; [|intros _|done].
  - destruct (u8_val y ?= u8_val z); [apply IH|done..].
  - destruct (Z.compare_spec (u8_val y) (u8_val z)) as [<-|E'|E']; intros; try done;
      by rewrite (proj2 (Z.compare_lt_iff _ _)) by lia.
Qed.

#[export] Instance bytes_lt_irrefl : Irreflexive bytes_lt.
Proof. intros a. unfold complement, bytes_lt. by rewrite bytes_cmp_refl. Qed.

#[export] Instance bytes_lt_dec : RelDecision bytes_lt.
Proof. intros a b. unfold bytes_lt. destruct (bytes_cmp a b); (left; done) || (right; done). Defined.

Lemma bytes_lt_not_eq a b : bytes_lt a b -> a <> b.
Proof. intros H ->. by apply (irreflexivity bytes_lt b). Qed.

Lemma bytes_lt_asym a b : bytes_lt a b -> bytes_lt b a -> False.
Proof. intros H1 H2. apply (irreflexivity bytes_lt a). by trans b. Qed.

(** A prefix is never greater than what it is a prefix of. *)
Lemma prefix_not_gt p t : p `prefix_of` t -> bytes_cmp p t <> Gt.
Proof.
  intros [k ->]. induction p as [|x p IH]; cbn; [by destruct k|]. by rewrite Z.compare_refl.
Qed.

(** ** Sorted vectors *)

Section search.
Context {A : Type} (key : A -> bytes).

(** Strictly increasing keys. *)
Definition keys_sorted (l : list A) : Prop := StronglySorted (λ a b, bytes_lt (key a) (key b)) l.

(** The loop of [binary_search_by]: it halves the range [base .. base+size]. *)
Fixpoint search_loop (fuel : nat) (l : list A) (k : bytes) (base size : nat) : option nat :=
  match fuel with
  | O => None
  | S fuel =>
      if (size <=? 1)%nat then Some base
      else
        let half := (size / 2)%nat in
        let mid := (base + half)%nat in
        x ← l !! mid;
        let base := match bytes_cmp (key x) k with Gt => base | _ => mid end in
        search_loop fuel l k base (size - half)
  end.

(** [Ok i] is the index of the key, [Err i] the place to insert it. *)
Definition binary_search (l : list A) (k : bytes) : option (result nat nat) :=
  match l with
  | [] => Some (Err 0%nat)
  | _ =>
      base ← search_loop (S (length l)) l k 0 (length l);
      x ← l !! base;
      match bytes_cmp (key x) k with
      | Eq => Some (Ok base)
      | Lt => Some (Err (S base))
      | Gt => Some (Err base)
      end
  end.

Lemma sorted_lookup_lt l i j x y :
  keys_sorted l -> l !! i = Some x -> l !! j = Some y -> (i < j)%nat -> bytes_lt (key x) (key y).
Proof.
  intros Hs. revert i j. induction Hs as [|a l _ IH Hall]; intros i j Hi Hj Hij; [done|].
  destruct j as [|j]; [lia|]. destruct i as [|i]; cbn in *; simplify_eq; [|by eapply IH; eauto; lia].
  rewrite List.Forall_forall in Hall. apply Hall, list_elem_of_In. by eapply list_elem_of_lookup_2.
Qed.

Lemma search_loop_spec fuel l k base size :
  keys_sorted l -> (0 < size)%nat -> (size < fuel)%nat -> (base + size <= length l)%nat ->
  (forall x, l !! base = Some x -> (0 < base)%nat -> bytes_cmp (key x) k <> Gt) ->
  (forall j x, l !! j = Some x -> (base + size <= j)%nat -> bytes_lt k (key x)) ->
  exists b, search_loop fuel l k base size = Some b /\ (b < length l)%nat /\
    (forall x, l !! b = Some x -> (0 < b)%nat -> bytes_cmp (key x) k <> Gt) /\
    (forall j x, l !! j = Some x -> (b < j)%nat -> bytes_lt k (key x)).
Proof.
  intros Hs. revert base size. induction fuel as [|fuel IH]; intros base size Hpos Hf Hlen Hlo Hhi; [lia|].
  cbn [search_loop]. destruct (size <=? 1)%nat eqn:E.
  - apply Nat.leb_le in E. exists base. split_and!; [done|lia|done|]. intros j x Hj Hb. apply (Hhi j); [done|lia].
  - apply Nat.leb_gt in E. cbn zeta.
    assert (Hh : (0 < size / 2 < size)%nat).
    { split; [apply Nat.div_str_pos; lia|apply Nat.div_lt; lia]. }
    destruct (lookup_lt_is_Some_2 l (base + size / 2)) as [x Hx]; [lia|]. rewrite Hx. cbn [mbind option_bind].
    destruct (bytes_cmp (key x) k) eqn:Ec; apply IH; try lia.
    + intros y Hy _. rewrite Hy in Hx. simplify_eq. by rewrite Ec.
    + intros j y Hj Hb. apply (Hhi j); [done|lia].
    + intros y Hy _. rewrite Hy in Hx. simplify_eq. by rewrite Ec.
    + intros j y Hj Hb. apply (Hhi j); [done|lia].
    + done.
    + intros j y Hj Hb. apply bytes_cmp_gt in Ec.
      destruct (decide (j = (base + size / 2)%nat)) as [->|]; [rewrite Hx in Hj; by simplify_eq|].
      trans (key x); [done|]. eapply (sorted_lookup_lt l (base + size / 2) j); eauto. 
      pose proof (Nat.div_mod_eq size 2). pose proof (Nat.mod_upper_bound size 2). lia.
Qed.

(** [binary_search_by] on a sorted vector splits it around the key. *)
Lemma binary_search_spec l k :
  keys_sorted l ->
  exists r, binary_search l k = Some r /\
    match r with
    | Ok i => exists x, l !! i = Some x /\ key x = k
    | Err i => (i <= length l)%nat /\ Forall (λ x, bytes_lt (key x) k) (take i l) /\
               Forall (λ x, bytes_lt k (key x)) (drop i l)
    end.
Proof.
  intros Hs. destruct l as [|a l0] eqn:El; [by eexists|]. rewrite <- El in *.
  destruct (search_loop_spec (S (length l)) l k 0 (length l) Hs) as (b & Hb & Hlt & Hlo & Hhi);
    [subst l; cbn; lia|lia|lia|lia|intros j x Hj%lookup_lt_Some; lia|].
  assert (Heq : binary_search l k =
    (x ← l !! b; match bytes_cmp (key x) k with Eq => Some (Ok b) | Lt => Some (Err (S b)) | Gt => Some (Err b) end)).
  { unfold binary_search. rewrite Hb. by subst l. }
  rewrite Heq. clear Heq El. destruct (lookup_lt_is_Some_2 l b Hlt) as [x Hx]. rewrite Hx. cbn [mbind option_bind].
  destruct (bytes_cmp (key x) k) eqn:Ec; (eexists; split; [done|]); cbn beta iota.
  - exists x. split; [done|]. by apply bytes_cmp_eq.
  - split; [lia|]. split; apply Forall_lookup_2; intros i y Hi.
    + apply lookup_take_Some in Hi as [Hi Hib]. destruct (decide (i = b)) as [->|]; [rewrite Hx in Hi; by simplify_eq|].
      trans (key x); [|done]. eapply (sorted_lookup_lt l i b); eauto. lia.
    + rewrite lookup_drop in Hi. eapply Hhi; [done|lia].
  - assert (b = 0%nat) as ->.
    { destruct b; [done|]. by destruct (Hlo x Hx ltac:(lia)). }
    split; [lia|]. split; [constructor|]. apply bytes_cmp_gt in Ec.
    apply Forall_lookup_2; intros i y Hi. rewrite lookup_drop in Hi. destruct i as [|i]; [cbn in Hi; rewrite Hx in Hi; by simplify_eq|].
    eapply Hhi; [done|lia].
Qed.
End search.

(** ** [BTreeSet<Vec<u8>>] as the ordered list of its elements *)

Fixpoint btree_insert (k : bytes) (s : list bytes) : list bytes :=
  match s with
  | [] => [k]
  | x :: s' =>
      match bytes_cmp k x with
      | Lt => k :: s
      | Eq => s
      | Gt => x :: btree_insert k s'
      end
  end.

Definition btree_remove (k : bytes) (s : list bytes) : list bytes := filter (λ x, x <> k) s.

Definition btree_contains (k : bytes) (s : list bytes) : bool := bool_decide (k ∈ s).

Definition btree_sorted (s : list bytes) : Prop := StronglySorted bytes_lt s.

Lemma btree_insert_elem k x s : x ∈ btree_insert k s <-> x = k \/ x ∈ s.
Proof.
  induction s as [|y s IH]; cbn; [set_solver|].
  destruct (bytes_cmp k y) eqn:E; [apply bytes_cmp_eq in E as ->|..]; rewrite !elem_of_cons; tauto.
Qed.

Lemma btree_insert_sorted k s : btree_sorted s -> btree_sorted (btree_insert k s).
Proof.
  induction 1 as [|y s Hs IH Hall]; cbn; [by repeat constructor|].
  destruct (bytes_cmp k y) eqn:E; [by constructor| |].
  - constructor; [by constructor|]. constructor; [done|].
    eapply List.Forall_impl; [|exact Hall]. intros z Hz. by trans y.
  - constructor; [exact IH|]. apply List.Forall_forall. intros z Hz%list_elem_of_In.
    apply btree_insert_elem in Hz as [->|Hz]; [by apply bytes_cmp_gt|].
    rewrite List.Forall_forall in Hall. by apply Hall, list_elem_of_In.
Qed.

Lemma sorted_filter {A} (R : A -> A -> Prop) (P : A -> Prop) `{!forall x, Decision (P x)} l :
  StronglySorted R l -> StronglySorted R (filter P l).
Proof.
  induction 1 as [|x l Hs IH Hall]; [constructor|]. rewrite filter_cons.
  destruct (decide (P x)); [|done]. constructor; [done|].
  apply List.Forall_forall. intros z Hz%list_elem_of_In.
  apply list_elem_of_filter in Hz as [_ Hz]. rewrite List.Forall_forall in Hall. by apply Hall, list_elem_of_In.
Qed.

Lemma btree_remove_elem k x s : x ∈ btree_remove k s <-> x <> k /\ x ∈ s.
Proof. unfold btree_remove. by rewrite list_elem_of_filter. Qed.

Lemma btree_remove_sorted k s : btree_sorted s -> btree_sorted (btree_remove k s).
Proof. apply sorted_filter. Qed.

#[export] Hint Resolve btree_insert_sorted btree_remove_sorted : mono.

(** ** Sorted vectors, split around an element *)

Section sorted.
Context {A : Type} (key : A -> bytes).

Lemma keys_sorted_middle l1 x l2 :
  keys_sorted key (l1 ++ x :: l2) <->
  keys_sorted key (l1 ++ l2) /\ Forall (λ y, bytes_lt (key y) (key x)) l1 /\
  Forall (λ y, bytes_lt (key x) (key y)) l2.
Proof.
  induction l1 as [|a l1 IH]; cbn [app].
  - split; [intros H; apply StronglySorted_inv in H as [? ?]; done|]. intros (? & _ & ?). by constructor.
  - split.
    + intros H. apply StronglySorted_inv in H as [Hs Hall]. apply IH in Hs as (Hs & H1 & H2).
      apply Forall_app in Hall as [Ha1 Ha2]. apply Forall_cons_1 in Ha2 as [Hax Ha2].
      split; [constructor; [done|apply Forall_app; done]|]. split; [by constructor|done].
    + intros (Hs & H1 & H2). apply StronglySorted_inv in Hs as [Hs Hall].
      apply Forall_cons_1 in H1 as [Hax H1]. apply Forall_app in Hall as [Ha1 Ha2].
      constructor; [by apply IH|]. apply Forall_app. split; [done|]. by constructor.
Qed.

(** The vector a binary search has looked at: around the entry it found, or
    around the place to insert. *)
Lemma binary_search_split l k :
  keys_sorted key l ->
  (exists l1 x l2, l = l1 ++ x :: l2 /\ key x = k /\ binary_search key l k = Some (Ok (length l1))) \/
  (exists l1 l2, l = l1 ++ l2 /\ Forall (λ y, bytes_lt (key y) k) l1 /\
     Forall (λ y, bytes_lt k (key y)) l2 /\ binary_search key l k = Some (Err (length l1))).
Proof.
  intros Hs. destruct (binary_search_spec key l k Hs) as ([i|i] & -> & H).
  - destruct H as (x & Hx & Hk). left. exists (take i l), x, (drop (S i) l).
    pose proof (lookup_lt_Some _ _ _ Hx). rewrite take_drop_middle, length_take_le by (done || lia). done.
  - destruct H as (Hi & H1 & H2). right. exists (take i l), (drop i l).
    rewrite take_drop, length_take_le by lia. done.
Qed.
End sorted.

Section surgery.
Context {A : Type}.
Implicit Types (l : list A) (x : A).

Lemma vec_remove_middle l1 x l2 : vec_remove (length l1) (l1 ++ x :: l2) = l1 ++ l2.
Proof. unfold vec_remove. rewrite take_app_length. rewrite drop_app_ge by lia. by replace (S (length l1) - length l1)%nat with 1%nat by lia. Qed.

Lemma vec_insert_middle l1 x l2 : vec_insert (length l1) x (l1 ++ l2) = l1 ++ x :: l2.
Proof. unfold vec_insert. by rewrite take_app_length, drop_app_length. Qed.

Lemma insert_middle l1 x y l2 : <[length l1 := y]> (l1 ++ x :: l2) = l1 ++ y :: l2.
Proof. rewrite insert_app_r_alt by lia. by rewrite Nat.sub_diag. Qed.

Lemma lookup_middle l1 x l2 : (l1 ++ x :: l2) !! length l1 = Some x.
Proof. by apply list_lookup_middle. Qed.
End surgery.
