(* ===== verification/Subscription.v ===== *)
(** * Topic subscriptions

    monocoque-core/src/subscription.rs: prefix subscriptions, the
    [SubscriptionTrie] of SUB and XSUB sockets, the linear matcher
    [topic_matches_prefixes] of the PUB side, and the subscription messages of
    XPUB and XSUB.

    [TopicFilter] is the interface the sockets rely on: a store of prefixes
    that accepts exactly the topics one of them is a prefix of. *)

From S2P Require Import Prelude.
From S2P Require Import ByteOrder.

Record Subscription := mk_subscription { prefix : bytes }.

(** [Subscription::matches]. *)
Definition subscription_matches (s : Subscription) (topic : bytes) : bool :=
  if bool_decide (prefix s = []) then true
  else (len (prefix s) <=? len topic) && bool_decide (ztake (len (prefix s)) topic = prefix s).

Record SubscriptionTrie := mk_trie { prefixes : list bytes }.

Definition trie_new : SubscriptionTrie := mk_trie [].

Definition trie_subscribe (t : SubscriptionTrie) (p : bytes) : SubscriptionTrie :=
  mk_trie (btree_insert p (prefixes t)).

Definition trie_unsubscribe (t : SubscriptionTrie) (p : bytes) : SubscriptionTrie :=
  mk_trie (btree_remove p (prefixes t)).

Definition trie_is_empty (t : SubscriptionTrie) : bool := bool_decide (prefixes t = []).

(** [(0..=topic.len()).any(|len| prefixes.contains(&topic[..len]))]. *)
Definition trie_matches (t : SubscriptionTrie) (topic : bytes) : bool :=
  if trie_is_empty t then false
  else existsb (λ n, btree_contains (take n topic) (prefixes t)) (seq 0 (S (length topic))).

Definition trie_subscriptions (t : SubscriptionTrie) : list Subscription := mk_subscription <$> prefixes t.

Definition trie_len (t : SubscriptionTrie) : Z := len (prefixes t).

Definition trie_clear (_ : SubscriptionTrie) : SubscriptionTrie := mk_trie [].

Definition topic_matches_prefixes (topic : bytes) (ps : list bytes) : bool :=
  existsb (λ p, bool_decide (p = []) || starts_with topic p) ps.

Inductive SubscriptionEvent :=
| Subscribe (p : bytes)
| Unsubscribe (p : bytes).

#[export] Instance SubscriptionEvent_eq_dec : EqDecision SubscriptionEvent.
Proof. solve_decision. Defined.

(** [from_message] and [from_bytes], which differ only in copying. *)
Definition from_message (msg : bytes) : option SubscriptionEvent :=
  match msg with
  | [] => None
  | b :: p =>
      if u8_val b =? 0x01 then Some (Subscribe p)
      else if u8_val b =? 0x00 then Some (Unsubscribe p)
      else None
  end.

Definition to_message (e : SubscriptionEvent) : bytes :=
  match e with
  | Subscribe p => [u8 0x01] ++ p
  | Unsubscribe p => [u8 0x00] ++ p
  end.

Definition event_prefix (e : SubscriptionEvent) : bytes :=
  match e with Subscribe p | Unsubscribe p => p end.

Definition is_subscribe (e : SubscriptionEvent) : bool :=
  match e with Subscribe _ => true | Unsubscribe _ => false end.

(** ** The interface *)

Class TopicFilter (F : Type) := {
  tf_accepts : F -> bytes -> bool;
  tf_prefixes : F -> list bytes;
  tf_spec f topic : tf_accepts f topic = true <-> exists p, p ∈ tf_prefixes f /\ p `prefix_of` topic;
}.

(** ** Properties *)

Lemma subscription_matches_spec s topic :
  subscription_matches s topic = true <-> prefix s `prefix_of` topic.
Proof.
  unfold subscription_matches. case_bool_decide as E.
  - rewrite E. split; [intros _; apply prefix_nil|done].
  - rewrite andb_true_iff, Z.leb_le, bool_decide_eq_true. split.
    + intros [_ H]. exists (zdrop (len (prefix s)) topic). rewrite <- H at 1. by rewrite ztake_zdrop.
    + intros [k ->]. split; [len_lia|]. rewrite ztake_app_le, ztake_ge by lia. done.
Qed.

Lemma trie_matches_spec t topic :
  trie_matches t topic = true <-> exists p, p ∈ prefixes t /\ p `prefix_of` topic.
Proof.
  unfold trie_matches, trie_is_empty. case_bool_decide as E.
  { rewrite E. split; [done|]. by intros (p & []%not_elem_of_nil & _). }
  rewrite existsb_exists. unfold btree_contains. split.
  - intros (n & _ & Hc%bool_decide_eq_true). exists (take n topic). split; [done|].
    exists (drop n topic). by rewrite take_drop.
  - intros (p & Hp & [k ->]). exists (length p). split.
    + apply in_seq. rewrite length_app. lia.
    + by rewrite bool_decide_eq_true, take_app_length.
Qed.

Lemma topic_matches_prefixes_spec topic ps :
  topic_matches_prefixes topic ps = true <-> exists p, p ∈ ps /\ p `prefix_of` topic.
Proof.
  unfold topic_matches_prefixes. rewrite existsb_exists. split.
  - intros (p & Hp & H). exists p. split; [by apply list_elem_of_In|]. apply orb_true_iff in H as [H|H].
    + apply bool_decide_eq_true in H as ->. apply prefix_nil.
    + by apply starts_with_spec.
  - intros (p & Hp & H). exists p. split; [by apply list_elem_of_In|].
    apply orb_true_iff. right. by apply starts_with_spec.
Qed.

#[export] Instance trie_filter : TopicFilter SubscriptionTrie :=
  {| tf_accepts := trie_matches; tf_prefixes := prefixes; tf_spec := trie_matches_spec |}.

#[export] Instance prefix_list_filter : TopicFilter (list bytes) :=
  {| tf_accepts ps topic := topic_matches_prefixes topic ps; tf_prefixes ps := ps;
     tf_spec ps topic := topic_matches_prefixes_spec topic ps |}.

(** Two filters with the same prefixes accept the same topics. *)
Lemma filters_agree {F G} `{TopicFilter F, TopicFilter G} (f : F) (g : G) topic :
  (forall p, p ∈ tf_prefixes f <-> p ∈ tf_prefixes g) -> tf_accepts f topic = tf_accepts g topic.
Proof.
  intros Heq. apply eq_true_iff_eq. rewrite !tf_spec. split; intros (p & Hp & ?); exists p; split; try done; by apply Heq.
Qed.

(** The operations on a trie, and the set of prefixes they denote. *)
Inductive trie_op := TSub (p : bytes) | TUnsub (p : bytes) | TClear.

Definition trie_step (t : SubscriptionTrie) (op : trie_op) : SubscriptionTrie :=
  match op with
  | TSub p => trie_subscribe t p
  | TUnsub p => trie_unsubscribe t p
  | TClear => trie_clear t
  end.

Definition prefix_set_step (s : gset bytes) (op : trie_op) : gset bytes :=
  match op with
  | TSub p => {[p]} ∪ s
  | TUnsub p => s ∖ {[p]}
  | TClear => ∅
  end.

Lemma trie_step_refines t s op :
  btree_sorted (prefixes t) -> (forall p, p ∈ prefixes t <-> p ∈ s) ->
  btree_sorted (prefixes (trie_step t op)) /\
  (forall p, p ∈ prefixes (trie_step t op) <-> p ∈ prefix_set_step s op).
Proof.
  intros Hs Heq. destruct op as [q|q|]; cbn.
  - split; [auto with mono|]. intros p. by rewrite btree_insert_elem, Heq, elem_of_union, elem_of_singleton.
  - split; [auto with mono|]. intros p. rewrite btree_remove_elem, Heq, elem_of_difference, elem_of_singleton. tauto.
  - split; [constructor|]. intros p. by rewrite elem_of_nil, elem_of_empty.
Qed.

Lemma trie_run_refines ops t s :
  btree_sorted (prefixes t) -> (forall p, p ∈ prefixes t <-> p ∈ s) ->
  btree_sorted (prefixes (fold_left trie_step ops t)) /\
  (forall p, p ∈ prefixes (fold_left trie_step ops t) <-> p ∈ fold_left prefix_set_step ops s).
Proof.
  revert t s. induction ops as [|op ops IH]; intros t s Hs Heq; [done|]. cbn.
  destruct (trie_step_refines t s op Hs Heq). by apply IH.
Qed.

(** After any sequence of subscribe, unsubscribe and clear operations the
    trie holds exactly the prefixes subscribed since (each once, in order, so
    [len] counts them), and the three matchers agree on every topic: it is
    accepted if and only if one of these prefixes is a prefix of it. *)
Theorem trie_matching (ops : list trie_op) (topic : bytes) :
  let t := fold_left trie_step ops trie_new in
  let s := fold_left prefix_set_step ops (∅ : gset bytes) in
  btree_sorted (prefixes t) /\
  (forall p, p ∈ prefixes t <-> p ∈ s) /\
  (trie_matches t topic = true <-> exists p, p ∈ s /\ p `prefix_of` topic) /\
  topic_matches_prefixes topic (prefixes t) = trie_matches t topic /\
  existsb (λ sub, subscription_matches sub topic) (trie_subscriptions t) = trie_matches t topic.
Proof.
  cbn zeta. destruct (trie_run_refines ops trie_new ∅) as [Hs Heq]; [constructor|set_solver|].
  set (t := fold_left trie_step ops trie_new) in *. split_and!; try done.
  - rewrite trie_matches_spec. split; intros (p & Hp & ?); exists p; split; try done; by apply Heq.
  - change (tf_accepts (prefixes t) topic = tf_accepts t topic). by apply filters_agree.
  - apply eq_true_iff_eq. rewrite existsb_exists, trie_matches_spec. unfold trie_subscriptions. split.
    + intros (sub & Hin%list_elem_of_In & H%subscription_matches_spec).
      apply list_elem_of_fmap in Hin as (p & -> & Hp). by exists p.
    + intros (p & Hp & H). exists (mk_subscription p). rewrite subscription_matches_spec, <- list_elem_of_In.
      split; [|done]. apply list_elem_of_fmap. by exists p.
Qed.

(** Subscription messages round trip, and a message that is not a
    subscription (empty, or with another first byte) is not read as one. *)
Theorem subscription_message_roundtrip (e : SubscriptionEvent) (msg : bytes) :
  from_message (to_message e) = Some e /\
  (from_message msg = Some e <-> msg = to_message e).
Proof.
  assert (Hrt : from_message (to_message e) = Some e) by (by destruct e).
  split; [done|]. split; [|by intros ->]. destruct msg as [|b p]; cbn; [done|].
  destruct (u8_val b =? 1) eqn:E1; [|destruct (u8_val b =? 0) eqn:E0; [|done]];
    intros [= <-]; bool_prop; cbn; f_equal; apply (inj u8_val); rewrite u8_val_small; lia.
Qed.
