(* ===== verification/SubIndex.v ===== *)
(** * The subscription index

    [SubscriptionIndex] of monocoque-core/src/pubsub/index.rs: a vector of
    (prefix, peers) entries sorted by prefix, searched by binary search and
    scanned forward with an early exit.

    It is specified as a set of (peer, prefix) pairs ([pairs]). *)

From S2P Require Import Prelude.
From S2P Require Import ByteOrder.

Abbreviation PeerKey := Z (only parsing).

(** The struct [Subscription] of index.rs. *)
Record IndexSub := mk_sub {
  sub_prefix : bytes;
  sub_peers : list PeerKey;
}.

Record SubscriptionIndex := mk_index { subs : list IndexSub }.

Definition index_new : SubscriptionIndex := mk_index [].

Definition index_is_empty (ix : SubscriptionIndex) : bool := bool_decide (subs ix = []).

(** [Vec::swap_remove]; [None] is its panic. *)
Definition swap_remove {A} (i : nat) (l : list A) : option (list A) :=
  z ← list.last l;
  if bool_decide (i < length l)%nat then Some (take (pred (length l)) (<[i := z]> l)) else None.

(** Every function that indexes the vector returns [None] where Rust panics. *)
Definition index_subscribe (ix : SubscriptionIndex) (peer : PeerKey) (prefix : bytes) : option SubscriptionIndex :=
  r ← binary_search sub_prefix (subs ix) prefix;
  match r with
  | Ok idx =>
      s ← subs ix !! idx;
      if bool_decide (peer ∈ sub_peers s) then Some ix
      else Some (mk_index (<[idx := mk_sub (sub_prefix s) (sub_peers s ++ [peer])]> (subs ix)))
  | Err idx => Some (mk_index (vec_insert idx (mk_sub prefix [peer]) (subs ix)))
  end.

(** [if let Some(pos) = peers.iter().position(..) { peers.swap_remove(pos); }] *)
Definition peers_remove (peers : list PeerKey) (peer : PeerKey) : option (list PeerKey) :=
  match position (Z.eqb peer) peers with
  | Some pos => swap_remove pos peers
  | None => Some peers
  end.

Definition index_unsubscribe (ix : SubscriptionIndex) (peer : PeerKey) (prefix : bytes) : option SubscriptionIndex :=
  r ← binary_search sub_prefix (subs ix) prefix;
  match r with
  | Ok idx =>
      s ← subs ix !! idx;
      peers ← peers_remove (sub_peers s) peer;
      if bool_decide (peers = []) then Some (mk_index (vec_remove idx (subs ix)))
      else Some (mk_index (<[idx := mk_sub (sub_prefix s) peers]> (subs ix)))
  | Err _ => Some ix
  end.

(** The [while i < self.subs.len()] loop. *)
Fixpoint remove_peer_loop (fuel : nat) (l : list IndexSub) (peer : PeerKey) (i : nat) : option (list IndexSub) :=
  match fuel with
  | O => None
  | S fuel =>
      if bool_decide (i < length l)%nat then
        s ← l !! i;
        peers ← peers_remove (sub_peers s) peer;
        if bool_decide (peers = []) then remove_peer_loop fuel (vec_remove i l) peer i
        else remove_peer_loop fuel (<[i := mk_sub (sub_prefix s) peers]> l) peer (S i)
      else Some l
  end.

Definition remove_peer_everywhere (ix : SubscriptionIndex) (peer : PeerKey) : option SubscriptionIndex :=
  l ← remove_peer_loop (S (length (subs ix))) (subs ix) peer 0;
  Some (mk_index l).

(** The [for] loop of [match_topic], with its [break]. *)
Fixpoint match_loop (l : list IndexSub) (topic : bytes) (out : list PeerKey) : list PeerKey :=
  match l with
  | [] => out
  | s :: l =>
      match bytes_cmp (sub_prefix s) topic with
      | Gt => out
      | _ => match_loop l topic (if starts_with topic (sub_prefix s) then out ++ sub_peers s else out)
      end
  end.

(** [Vec::dedup]. *)
Fixpoint dedup (l : list PeerKey) : list PeerKey :=
  match l with
  | x :: (y :: _) as l' => if x =? y then dedup l' else x :: dedup l'
  | _ => l
  end.

Definition match_topic (ix : SubscriptionIndex) (topic : bytes) : list PeerKey :=
  let out := match_loop (subs ix) topic [] in
  if 1 <? len out then dedup (merge_sort Z.le out) else out.

(** ** Specification *)

Definition entry_pairs (s : IndexSub) : gset (PeerKey * bytes) :=
  list_to_set ((λ p, (p, sub_prefix s)) <$> sub_peers s).

Definition pairs_of (l : list IndexSub) : gset (PeerKey * bytes) := ⋃ (entry_pairs <$> l).

Definition pairs (ix : SubscriptionIndex) : gset (PeerKey * bytes) := pairs_of (subs ix).

Definition entry_ok (s : IndexSub) : Prop := sub_peers s <> [] /\ NoDup (sub_peers s).

(** Prefixes strictly increasing; no entry empty; no peer twice in an entry. *)
Definition index_wf (ix : SubscriptionIndex) : Prop :=
  keys_sorted sub_prefix (subs ix) /\ Forall entry_ok (subs ix).

Lemma elem_of_entry_pairs s p pre : (p, pre) ∈ entry_pairs s <-> sub_prefix s = pre /\ p ∈ sub_peers s.
Proof.
  unfold entry_pairs. rewrite elem_of_list_to_set, list_elem_of_fmap. split.
  - by intros (q & [= -> ->] & ?).
  - intros [<- H]. by exists p.
Qed.

Lemma elem_of_pairs_of l p pre :
  (p, pre) ∈ pairs_of l <-> exists s, s ∈ l /\ sub_prefix s = pre /\ p ∈ sub_peers s.
Proof.
  unfold pairs_of. rewrite elem_of_union_list. split.
  - intros (X & HX & Hp). apply list_elem_of_fmap in HX as (s & -> & Hs).
    apply elem_of_entry_pairs in Hp. eauto.
  - intros (s & Hs & Hp). exists (entry_pairs s). rewrite elem_of_entry_pairs. split; [|done].
    apply list_elem_of_fmap. by exists s.
Qed.

Lemma pairs_of_cons s l : pairs_of (s :: l) = entry_pairs s ∪ pairs_of l.
Proof. done. Qed.

Lemma pairs_of_app l k : pairs_of (l ++ k) = pairs_of l ∪ pairs_of k.
Proof. unfold pairs_of. by rewrite fmap_app, union_list_app_L. Qed.

(** ** Removing a peer from an entry *)

Lemma swap_remove_perm {A} (i : nat) (l : list A) x :
  l !! i = Some x -> exists l', swap_remove i l = Some l' /\ l ≡ₚ x :: l'.
Proof.
  intros Hi. pose proof (lookup_lt_Some _ _ _ Hi) as Hlt. unfold swap_remove.
  destruct l as [|z l _] using rev_ind; [done|]. rewrite list.last_snoc. cbn [mbind option_bind].
  rewrite bool_decide_eq_true_2 by done. eexists. split; [done|]. rewrite length_app. cbn [length].
  replace (pred (length l + 1)) with (length l) by lia.
  destruct (decide (i = length l)) as [->|Hne].
  - rewrite lookup_middle in Hi. simplify_eq. rewrite insert_middle, take_app_length.
    by rewrite Permutation_app_comm.
  - rewrite length_app in Hlt. cbn in Hlt. rewrite lookup_app_l in Hi by lia.
    rewrite insert_app_l, take_app_length' by (rewrite ?length_insert; lia).
    rewrite <- (take_drop_middle l i x Hi), insert_app_r_alt by (rewrite length_take; lia).
    rewrite length_take_le, Nat.sub_diag by lia. cbn.
    rewrite <- app_assoc. cbn. rewrite <- Permutation_middle. apply perm_skip, Permutation_app_head.
    apply (Permutation_app_comm _ [z]).
Qed.

Lemma peers_remove_spec peers peer :
  NoDup peers ->
  exists ps, peers_remove peers peer = Some ps /\ NoDup ps /\ (forall q, q ∈ ps <-> q <> peer /\ q ∈ peers).
Proof.
  intros Hnd. unfold peers_remove. destruct (position (Z.eqb peer) peers) as [pos|] eqn:E.
  - apply position_Some in E as (x & Hx & Heq). apply Z.eqb_eq in Heq as <-.
    destruct (swap_remove_perm _ _ _ Hx) as (ps & -> & Hp). exists ps. split; [done|].
    rewrite Hp in Hnd. apply list.NoDup_cons in Hnd as [Hni Hnd]. split; [done|].
    intros q. rewrite Hp, elem_of_cons. split; [|naive_solver]. intros Hq. split; [by intros ->|auto].
  - exists peers. split; [done|]. split; [done|]. intros q. split; [|naive_solver].
    intros Hq. split; [|done]. intros ->.
    pose proof (position_None _ _ E peer Hq) as Hf. by rewrite Z.eqb_refl in Hf.
Qed.

(** ** Subscribing *)

Lemma index_wf_middle l1 s l2 :
  index_wf (mk_index (l1 ++ s :: l2)) <->
  index_wf (mk_index (l1 ++ l2)) /\ entry_ok s /\
  Forall (λ y, bytes_lt (sub_prefix y) (sub_prefix s)) l1 /\
  Forall (λ y, bytes_lt (sub_prefix s) (sub_prefix y)) l2.
Proof. unfold index_wf. cbn [subs]. rewrite keys_sorted_middle, !Forall_app, list.Forall_cons. tauto. Qed.

Lemma pairs_of_middle l1 s l2 : pairs_of (l1 ++ s :: l2) = entry_pairs s ∪ pairs_of (l1 ++ l2).
Proof. rewrite !pairs_of_app, pairs_of_cons. set_solver. Qed.

Lemma other_prefix l1 s l2 p :
  index_wf (mk_index (l1 ++ s :: l2)) -> (p, sub_prefix s) ∉ pairs_of (l1 ++ l2).
Proof.
  rewrite index_wf_middle. intros (_ & _ & H1 & H2) (y & Hy & Heq & _)%elem_of_pairs_of.
  rewrite list.Forall_forall in H1. rewrite list.Forall_forall in H2.
  apply elem_of_app in Hy as [Hy|Hy].
  - apply (bytes_lt_not_eq _ _ (H1 y Hy)). done.
  - apply (bytes_lt_not_eq _ _ (H2 y Hy)). done.
Qed.

Lemma index_subscribe_spec ix peer pre :
  index_wf ix ->
  exists ix', index_subscribe ix peer pre = Some ix' /\ index_wf ix' /\
    pairs ix' = {[(peer, pre)]} ∪ pairs ix.
Proof.
  intros Hwf. destruct ix as [l]. pose proof Hwf as [Hs Hok]. cbn [subs] in *.
  unfold index_subscribe, pairs. cbn [subs].
  destruct (binary_search_split sub_prefix l pre Hs) as [(l1 & s & l2 & -> & <- & ->)|(l1 & l2 & -> & H1 & H2 & ->)];
    cbn [mbind option_bind].
  - rewrite lookup_middle. cbn [mbind option_bind]. case_bool_decide as Hin.
    + eexists. split; [done|]. split; [done|]. cbn [subs]. rewrite pairs_of_middle.
      assert ((peer, sub_prefix s) ∈ entry_pairs s) by (by apply elem_of_entry_pairs). set_solver.
    + eexists. split; [done|]. rewrite insert_middle. split.
      * rewrite index_wf_middle in *. destruct Hwf as (? & [Hne Hnd] & ? & ?). split_and!; try done.
        split; [by destruct (sub_peers s)|]. cbn. apply list.NoDup_app. split_and!; [done| |apply NoDup_singleton].
        intros q Hq ->%list_elem_of_singleton. done.
      * cbn [subs]. rewrite !pairs_of_middle, (union_assoc_L {[_]}). f_equal.
        apply set_eq. intros [q pre']. rewrite elem_of_union, elem_of_singleton, !elem_of_entry_pairs. cbn [sub_prefix sub_peers].
        rewrite elem_of_app, list_elem_of_singleton. naive_solver.
  - eexists. split; [done|]. rewrite vec_insert_middle. split.
    + rewrite index_wf_middle. split_and!; try done. split; [done|apply NoDup_singleton].
    + cbn [subs]. rewrite pairs_of_middle. f_equal. apply set_eq. intros [q pre'].
      rewrite elem_of_entry_pairs, elem_of_singleton. cbn. rewrite list_elem_of_singleton. naive_solver.
Qed.

(** An entry from which a peer has been removed. *)
Lemma entry_pairs_remove s ps peer :
  (forall q, q ∈ ps <-> q <> peer /\ q ∈ sub_peers s) ->
  entry_pairs (mk_sub (sub_prefix s) ps) = entry_pairs s ∖ {[(peer, sub_prefix s)]}.
Proof.
  intros Hps. apply set_eq. intros [q pre]. rewrite elem_of_difference, elem_of_singleton, !elem_of_entry_pairs.
  cbn. rewrite Hps. naive_solver.
Qed.

Lemma index_unsubscribe_spec ix peer pre :
  index_wf ix ->
  exists ix', index_unsubscribe ix peer pre = Some ix' /\ index_wf ix' /\
    pairs ix' = pairs ix ∖ {[(peer, pre)]}.
Proof.
  intros Hwf. destruct ix as [l]. pose proof Hwf as [Hs Hok]. cbn [subs] in *.
  unfold index_unsubscribe, pairs. cbn [subs].
  destruct (binary_search_split sub_prefix l pre Hs) as [(l1 & s & l2 & -> & <- & ->)|(l1 & l2 & -> & H1 & H2 & ->)];
    cbn [mbind option_bind].
  - rewrite lookup_middle. cbn [mbind option_bind].
    pose proof (other_prefix l1 s l2 peer Hwf) as Hother.
    rewrite index_wf_middle in Hwf. destruct Hwf as (Hwf & [Hne Hnd] & ? & ?).
    destruct (peers_remove_spec (sub_peers s) peer Hnd) as (ps & -> & Hnd' & Hps). cbn [mbind option_bind].
    pose proof (entry_pairs_remove s ps peer Hps) as Hent.
    case_bool_decide as Hem; (eexists; split; [done|]).
    + rewrite vec_remove_middle. split; [done|]. cbn [subs]. subst ps.
      change (entry_pairs (mk_sub (sub_prefix s) [])) with (∅ : gset (PeerKey * bytes)) in Hent.
      rewrite pairs_of_middle. set_solver.
    + rewrite insert_middle. split; [by rewrite index_wf_middle|]. cbn [subs].
      rewrite !pairs_of_middle, Hent. set_solver.
  - eexists. split; [done|]. split; [done|]. cbn [subs].
    assert ((peer, pre) ∉ pairs_of (l1 ++ l2)); [|set_solver].
    intros (y & Hy & <- & _)%elem_of_pairs_of. rewrite list.Forall_forall in H1. rewrite list.Forall_forall in H2.
    apply elem_of_app in Hy as [Hy|Hy]; [apply (bytes_lt_not_eq _ _ (H1 y Hy))|apply (bytes_lt_not_eq _ _ (H2 y Hy))]; done.
Qed.

(** ** Removing a peer everywhere *)

(** What the loop does to the entries it has not visited yet. *)
Fixpoint purge (l : list IndexSub) (peer : PeerKey) : option (list IndexSub) :=
  match l with
  | [] => Some []
  | s :: l =>
      peers ← peers_remove (sub_peers s) peer;
      l' ← purge l peer;
      Some (if bool_decide (peers = []) then l' else mk_sub (sub_prefix s) peers :: l')
  end.

Lemma list_cons_middle {A} (l : list A) x k : l ++ x :: k = (l ++ [x]) ++ k.
Proof. by rewrite <- app_assoc. Qed.

Lemma remove_peer_loop_purge fuel pre rest peer :
  (length rest < fuel)%nat ->
  remove_peer_loop fuel (pre ++ rest) peer (length pre) = (l ← purge rest peer; Some (pre ++ l)).
Proof.
  revert pre rest. induction fuel as [|fuel IH]; intros pre rest Hf; [lia|]. cbn [remove_peer_loop].
  destruct rest as [|s rest]; cbn [purge].
  - rewrite bool_decide_eq_false_2 by (rewrite length_app; cbn; lia). done.
  - rewrite bool_decide_eq_true_2 by (rewrite length_app; cbn; lia).
    rewrite lookup_middle. cbn [mbind option_bind length] in *.
    destruct (peers_remove (sub_peers s) peer) as [ps|]; [|done]. cbn [mbind option_bind].
    case_bool_decide as E.
    + rewrite vec_remove_middle, IH by lia. by destruct (purge rest peer).
    + rewrite insert_middle. replace (S (length pre)) with (length (pre ++ [mk_sub (sub_prefix s) ps]))
        by (rewrite length_app; cbn; lia).
      rewrite (list_cons_middle pre), IH by lia.
      destruct (purge rest peer); cbn; [|done]. by rewrite <- app_assoc.
Qed.

Lemma purge_spec l peer :
  index_wf (mk_index l) ->
  exists l', purge l peer = Some l' /\ index_wf (mk_index l') /\
    (forall s, s ∈ l' -> exists s0, s0 ∈ l /\ sub_prefix s = sub_prefix s0) /\
    pairs_of l' = filter (λ x, x.1 <> peer) (pairs_of l).
Proof.
  induction l as [|s l IH]; intros Hwf; cbn [purge].
  - eexists. split; [done|]. split; [done|]. split; [set_solver|].
    change (pairs_of []) with (∅ : gset (PeerKey * bytes)). set_solver.
  - apply (index_wf_middle [] s l) in Hwf. cbn [app] in Hwf. destruct Hwf as (Hwf & [Hne Hnd] & _ & Hlt).
    destruct (peers_remove_spec (sub_peers s) peer Hnd) as (ps & -> & Hnd' & Hps).
    destruct (IH Hwf) as (l' & -> & Hwf' & Hsub & Hp). cbn [mbind option_bind].
    eexists. split; [done|].
    assert (Hent : entry_pairs (mk_sub (sub_prefix s) ps) = filter (λ x, x.1 <> peer) (entry_pairs s)).
    { apply set_eq. intros [q pre]. rewrite elem_of_filter, !elem_of_entry_pairs. cbn. rewrite Hps. naive_solver. }
    assert (Hcons : filter (λ x, x.1 <> peer) (pairs_of (s :: l)) = entry_pairs (mk_sub (sub_prefix s) ps) ∪ pairs_of l')
      by (rewrite pairs_of_cons, Hent, Hp; set_solver).
    rewrite Hcons. clear Hcons. case_bool_decide as E.
    + subst ps. change (entry_pairs (mk_sub (sub_prefix s) [])) with (∅ : gset (PeerKey * bytes)).
      split; [done|]. split; [|by rewrite (left_id_L ∅ (∪))].
      intros s' Hs'. destruct (Hsub s' Hs') as (s0 & ? & ?). exists s0. split; [by right|done].
    + split_and!.
      * apply (index_wf_middle [] _ l'). cbn [app sub_prefix sub_peers]. split_and!; [done|done|constructor|].
        apply list.Forall_forall. intros s' Hs'. destruct (Hsub s' Hs') as (s0 & Hs0 & ->).
        rewrite list.Forall_forall in Hlt. by apply Hlt.
      * intros s' [->|Hs']%elem_of_cons; [exists s; split; [left|done]|].
        destruct (Hsub s' Hs') as (s0 & ? & ?). exists s0. split; [by right|done].
      * done.
Qed.

Lemma remove_peer_everywhere_spec ix peer :
  index_wf ix ->
  exists ix', remove_peer_everywhere ix peer = Some ix' /\ index_wf ix' /\
    pairs ix' = filter (λ x, x.1 <> peer) (pairs ix).
Proof.
  destruct ix as [l]. intros Hwf. unfold remove_peer_everywhere. cbn [subs].
  rewrite (remove_peer_loop_purge _ [] l) by lia.
  destruct (purge_spec l peer Hwf) as (l' & -> & Hwf' & _ & Hp). cbn. eauto.
Qed.

(** ** Matching *)

Lemma match_loop_elem l topic out p :
  keys_sorted sub_prefix l ->
  p ∈ match_loop l topic out <->
    p ∈ out \/ exists pre, (p, pre) ∈ pairs_of l /\ pre `prefix_of` topic.
Proof.
  intros Hs. revert out. induction Hs as [|s l Hs IH Hall]; intros out; cbn [match_loop].
  - split; [by left|]. intros [?|(pre & Hp & _)]; [done|]. apply elem_of_pairs_of in Hp as (? & ?%not_elem_of_nil & _). done.
  - assert (Hcons : (exists pre, (p, pre) ∈ pairs_of (s :: l) /\ pre `prefix_of` topic) <->
        (p ∈ sub_peers s /\ sub_prefix s `prefix_of` topic) \/
        (exists pre, (p, pre) ∈ pairs_of l /\ pre `prefix_of` topic)).
    { setoid_rewrite pairs_of_cons. setoid_rewrite elem_of_union. setoid_rewrite elem_of_entry_pairs. naive_solver. }
    rewrite Hcons. destruct (bytes_cmp (sub_prefix s) topic) eqn:E.
    3: { (* the early exit: no later prefix can match *)
      split; [by left|]. intros [?|[[_ Hpre]|(pre & (s' & Hs' & <- & _)%elem_of_pairs_of & Hpre)]]; [done|..].
      - by destruct (prefix_not_gt _ _ Hpre).
      - exfalso. apply (prefix_not_gt _ _ Hpre). apply bytes_cmp_gt. apply bytes_cmp_gt in E.
        rewrite list.Forall_forall in Hall. trans (sub_prefix s); [done|by apply Hall]. }
    all: rewrite IH; pose proof (starts_with_spec topic (sub_prefix s)) as Hsw;
      destruct (starts_with topic (sub_prefix s)); rewrite ?elem_of_app; naive_solver.
Qed.

Lemma dedup_elem l p : p ∈ dedup l <-> p ∈ l.
Proof.
  induction l as [|x [|y l] IH]; [done..|]. cbn [dedup]. destruct (x =? y) eqn:E; bool_prop.
  - rewrite IH. subst. set_solver.
  - rewrite !(elem_of_cons _ _ x), IH. done.
Qed.

Lemma dedup_sorted l : StronglySorted Z.le l -> StronglySorted Z.lt (dedup l).
Proof.
  induction l as [|x [|y l] IH]; intros Hs; [constructor|by repeat constructor|].
  apply StronglySorted_inv in Hs as [Hs Hall]. cbn [dedup]. destruct (x =? y) eqn:E; bool_prop; [by apply IH|].
  constructor; [by apply IH|]. apply list.Forall_forall. intros z Hz.
  apply (proj1 (dedup_elem (y :: l) z)) in Hz.
  rewrite list.Forall_forall in Hall. assert (x <= y) by (apply Hall; left).
  apply StronglySorted_inv in Hs as [_ Hall']. rewrite list.Forall_forall in Hall'.
  apply elem_of_cons in Hz as [->|Hz]; [lia|]. specialize (Hall' z Hz). lia.
Qed.

Lemma match_topic_elem ix topic p :
  index_wf ix -> p ∈ match_topic ix topic <-> exists pre, (p, pre) ∈ pairs ix /\ pre `prefix_of` topic.
Proof.
  intros [Hs _]. pose proof (match_loop_elem (subs ix) topic [] p Hs) as H. unfold match_topic, pairs. cbn zeta.
  case_if; [rewrite dedup_elem, merge_sort_Permutation|]; rewrite H; set_solver.
Qed.

Lemma match_topic_sorted ix topic : StronglySorted Z.lt (match_topic ix topic).
Proof.
  unfold match_topic. cbn zeta. case_if.
  - apply dedup_sorted, StronglySorted_merge_sort; apply _.
  - destruct (match_loop _ _ _) as [|x [|y l]]; [constructor|by repeat constructor|len_lia].
Qed.

(** ** Sequences of operations *)

Inductive index_op :=
| ISubscribe (peer : PeerKey) (prefix : bytes)
| IUnsubscribe (peer : PeerKey) (prefix : bytes)
| IRemovePeer (peer : PeerKey).

Definition index_step (ix : SubscriptionIndex) (op : index_op) : option SubscriptionIndex :=
  match op with
  | ISubscribe p pre => index_subscribe ix p pre
  | IUnsubscribe p pre => index_unsubscribe ix p pre
  | IRemovePeer p => remove_peer_everywhere ix p
  end.

Definition pair_step (s : gset (PeerKey * bytes)) (op : index_op) : gset (PeerKey * bytes) :=
  match op with
  | ISubscribe p pre => {[(p, pre)]} ∪ s
  | IUnsubscribe p pre => s ∖ {[(p, pre)]}
  | IRemovePeer p => filter (λ x, x.1 <> p) s
  end.

Fixpoint index_run (ix : SubscriptionIndex) (ops : list index_op) : option SubscriptionIndex :=
  match ops with
  | [] => Some ix
  | op :: ops => ix ← index_step ix op; index_run ix ops
  end.

Lemma index_step_spec ix op :
  index_wf ix ->
  exists ix', index_step ix op = Some ix' /\ index_wf ix' /\ pairs ix' = pair_step (pairs ix) op.
Proof.
  intros Hwf. destruct op; cbn [index_step pair_step].
  - by apply index_subscribe_spec.
  - by apply index_unsubscribe_spec.
  - by apply remove_peer_everywhere_spec.
Qed.

Lemma index_run_spec ops ix :
  index_wf ix ->
  exists ix', index_run ix ops = Some ix' /\ index_wf ix' /\ pairs ix' = fold_left pair_step ops (pairs ix).
Proof.
  revert ix. induction ops as [|op ops IH]; intros ix Hwf; cbn [index_run fold_left]; [eauto|].
  destruct (index_step_spec ix op Hwf) as (ix1 & -> & Hwf1 & Hp). cbn [mbind option_bind].
  rewrite <- Hp. by apply IH.
Qed.

Lemma index_new_wf : index_wf index_new.
Proof. split; constructor. Qed.
#[export] Hint Resolve index_new_wf : mono.

(** C28: the subscription index is a set of (peer, prefix) pairs.  After any
    sequence of subscribe, unsubscribe and peer-removal operations, none of
    which panics, it is well formed and holds exactly the pairs of the abstract
    set, and [match_topic] (binary-searched, early-exit scan, sort, dedup)
    returns, each once and in increasing order, exactly the peers with a
    subscribed prefix of the topic. *)
Theorem index_refines_pair_set (ops : list index_op) (topic : bytes) :
  exists ix, index_run index_new ops = Some ix /\ index_wf ix /\
    pairs ix = fold_left pair_step ops ∅ /\
    StronglySorted Z.lt (match_topic ix topic) /\
    (forall p, p ∈ match_topic ix topic <->
       exists pre, (p, pre) ∈ fold_left pair_step ops (∅ : gset (PeerKey * bytes)) /\ pre `prefix_of` topic).
Proof.
  destruct (index_run_spec ops index_new index_new_wf) as (ix & Hrun & Hwf & Hp).
  change (pairs index_new) with (∅ : gset (PeerKey * bytes)) in Hp.
  exists ix. split_and!; try done; [apply match_topic_sorted|]. intros p. rewrite <- Hp. by apply match_topic_elem.
Qed.
