(* ===== verification/RouterHub.v ===== *)
(** * The ROUTER hub

    [RouterHub] of monocoque-core/src/router.rs: the task that keeps the routing
    table of a ROUTER socket and dispatches outbound messages, by identity
    (Standard) or round robin (LoadBalancer).

    A [Sender] is a handle on a peer's command channel; what the hub sends is
    the ordered list of (handle, command) pairs its handlers return.  The
    [select!] of [run] chooses some interleaving of peer events and user
    commands: a run is a list of inputs, and the theorems hold for every list. *)

From S2P Require Import Prelude.
From S2P Require Import ByteOrder.

Abbreviation Sender := nat (only parsing).

Inductive RouterCmd :=
| RSendMessage (parts : list bytes)
| RClose.

Inductive PeerCmd :=
| SendBody (body : list bytes)
| PClose.

Inductive HubEvent :=
| PeerUp (routing_id : bytes) (tx : Sender)
| PeerDown (routing_id : bytes).

Inductive RouterBehavior := Standard | LoadBalancer.

Record RouterHub := mk_router {
  peers : gmap bytes Sender;
  lb_list : list bytes;
  lb_cursor : nat;
  behavior : RouterBehavior;
}.

Definition router_new (b : RouterBehavior) : RouterHub := mk_router ∅ [] 0 b.

(** What a handler sends, in order. *)
Abbreviation outputs := (list (Sender * PeerCmd)) (only parsing).

(** Removal from the rotation list, with the cursor reset that follows it. *)
Definition lb_remove (h : RouterHub) (id : bytes) : RouterHub :=
  match position (λ x, bool_decide (x = id)) (lb_list h) with
  | Some pos =>
      let l := vec_remove pos (lb_list h) in
      mk_router (peers h) l (if (length l <=? lb_cursor h)%nat then 0%nat else lb_cursor h) (behavior h)
  | None => h
  end.

Definition handle_peer_event (h : RouterHub) (ev : HubEvent) : RouterHub :=
  match ev with
  | PeerUp id tx =>
      let h := if bool_decide (is_Some (peers h !! id)) then lb_remove h id else h in
      mk_router (<[id := tx]> (peers h)) (lb_list h ++ [id]) (lb_cursor h) (behavior h)
  | PeerDown id =>
      lb_remove (mk_router (delete id (peers h)) (lb_list h) (lb_cursor h) (behavior h)) id
  end.

(** The loop of [pick_rr_peer]; [None] is a panic or exhausted fuel. *)
Fixpoint pick_loop (fuel : nat) (h : RouterHub) (attempts max_attempts : nat) : option (option bytes * RouterHub) :=
  match fuel with
  | O => None
  | S fuel =>
      if negb (bool_decide (lb_list h = [])) && (attempts <=? max_attempts)%nat then
        let cursor := if (length (lb_list h) <=? lb_cursor h)%nat then 0%nat else lb_cursor h in
        id ← lb_list h !! cursor;
        let cursor := ((cursor + 1) mod length (lb_list h))%nat in
        if bool_decide (is_Some (peers h !! id))
        then Some (Some id, mk_router (peers h) (lb_list h) cursor (behavior h))
        else
          let l := match position (λ x, bool_decide (x = id)) (lb_list h) with
                   | Some pos => vec_remove pos (lb_list h)
                   | None => lb_list h
                   end in
          pick_loop fuel (mk_router (peers h) l cursor (behavior h)) (S attempts) max_attempts
      else Some (None, h)
  end.

Definition pick_rr_peer (h : RouterHub) : option (option bytes * RouterHub) :=
  pick_loop (S (S (length (lb_list h)))) h 0 (length (lb_list h)).

Definition route_outbound (h : RouterHub) (parts : list bytes) : option (outputs * RouterHub) :=
  match parts with
  | [] => Some ([], h)
  | first :: rest =>
      match behavior h with
      | Standard =>
          let body := match rest with [] :: tl => tl | _ => rest end in
          match peers h !! first with
          | Some tx => Some ([(tx, SendBody body)], h)
          | None => Some ([], h)
          end
      | LoadBalancer =>
          '(o, h) ← pick_rr_peer h;
          match o with
          | Some id =>
              match peers h !! id with
              | Some tx => Some ([(tx, SendBody parts)], h)
              | None => Some ([], h)
              end
          | None => Some ([], h)
          end
      end
  end.

(** [for tx in self.peers.values()]: the order of a hash map is unspecified. *)
Definition close_all (h : RouterHub) : outputs := (λ x, (x.2, PClose)) <$> map_to_list (peers h).

Definition handle_user_cmd (h : RouterHub) (cmd : RouterCmd) : option (outputs * RouterHub) :=
  match cmd with
  | RSendMessage parts => route_outbound h parts
  | RClose => Some (close_all h, h)
  end.

(** What [select!] takes next; both channels closing ends the loop. *)
Inductive router_input :=
| RPeer (ev : HubEvent)
| RUser (cmd : RouterCmd).

Definition router_step (h : RouterHub) (i : router_input) : option (outputs * RouterHub) :=
  match i with
  | RPeer ev => Some ([], handle_peer_event h ev)
  | RUser cmd => handle_user_cmd h cmd
  end.

(** The loop of [run] up to the closing of a channel, and the final broadcast. *)
Fixpoint router_loop (h : RouterHub) (ins : list router_input) : option (outputs * RouterHub) :=
  match ins with
  | [] => Some ([], h)
  | i :: ins =>
      '(out, h) ← router_step h i;
      '(out', h) ← router_loop h ins;
      Some (out ++ out', h)
  end.

Definition router_run (h : RouterHub) (ins : list router_input) : option outputs :=
  '(out, h) ← router_loop h ins;
  Some (out ++ close_all h).

(** ** Invariant *)

(** The rotation list enumerates the routing table, each peer once, and the
    cursor is in range. *)
Record router_wf (h : RouterHub) : Prop := {
  rw_nodup : NoDup (lb_list h);
  rw_dom : forall id, id ∈ lb_list h <-> is_Some (peers h !! id);
  rw_cursor : (lb_cursor h < length (lb_list h))%nat \/ lb_cursor h = 0%nat;
}.

Lemma position_split (l : list bytes) (id : bytes) :
  match position (λ x, bool_decide (x = id)) l with
  | Some pos => exists l1 l2, l = l1 ++ id :: l2 /\ length l1 = pos /\ id ∉ l1
  | None => id ∉ l
  end.
Proof.
  induction l as [|x l IH]; cbn [position]; [set_solver|]. case_bool_decide as E.
  - subst x. exists [], l. set_solver.
  - destruct (position _ l) as [pos|]; cbn; [|set_solver].
    destruct IH as (l1 & l2 & -> & <- & Hni). exists (x :: l1), l2. set_solver.
Qed.

Lemma lb_remove_spec h id :
  NoDup (lb_list h) ->
  peers (lb_remove h id) = peers h /\ behavior (lb_remove h id) = behavior h /\
  NoDup (lb_list (lb_remove h id)) /\
  (forall x, x ∈ lb_list (lb_remove h id) <-> x <> id /\ x ∈ lb_list h) /\
  ((lb_cursor h < length (lb_list h))%nat \/ lb_cursor h = 0%nat ->
   (lb_cursor (lb_remove h id) < length (lb_list (lb_remove h id)))%nat \/ lb_cursor (lb_remove h id) = 0%nat).
Proof.
  intros Hnd. unfold lb_remove. pose proof (position_split (lb_list h) id) as H.
  destruct (position _ _) as [pos|].
  - destruct H as (l1 & l2 & Hl & <- & _). rewrite Hl in *. cbn [peers behavior lb_list lb_cursor].
    rewrite vec_remove_middle. rewrite <- Permutation_middle in Hnd. apply list.NoDup_cons in Hnd as [Hni Hnd].
    split_and!; try done.
    + intros x. rewrite <- (Permutation_middle l1 l2), elem_of_cons. split; [|tauto]. intros Hx. split; [by intros ->|by right].
    + intros _. destruct (length (l1 ++ l2) <=? lb_cursor h)%nat eqn:E; [by right|]. left. by apply Nat.leb_gt.
  - split_and!; try done. intros x. split; [|tauto]. intros Hx. split; [by intros ->|done].
Qed.

Lemma router_new_wf b : router_wf (router_new b).
Proof. split; cbn; [constructor| |by right]. intros id. rewrite lookup_empty, is_Some_alt. set_solver. Qed.

Lemma handle_peer_event_wf h ev : router_wf h -> router_wf (handle_peer_event h ev).
Proof.
  intros [Hnd Hdom Hcur]. destruct ev as [id tx|id]; cbn [handle_peer_event].
  - set (h1 := if bool_decide _ then _ else _).
    assert (H1 : peers h1 = peers h /\ NoDup (lb_list h1) /\ (forall x, x ∈ lb_list h1 <-> x <> id /\ x ∈ lb_list h) /\
      ((lb_cursor h1 < length (lb_list h1))%nat \/ lb_cursor h1 = 0%nat)).
    { unfold h1. case_bool_decide as E.
      - destruct (lb_remove_spec h id Hnd) as (? & ? & ? & ? & ?). by split_and!; auto.
      - rewrite <- Hdom in E. split_and!; try done. intros x. split; [|tauto]. intros Hx. split; [by intros ->|done]. }
    destruct H1 as (-> & Hnd1 & Hel & Hcur1). split; cbn [peers lb_list lb_cursor].
    + apply list.NoDup_app. split_and!; [done| |apply NoDup_singleton].
      intros x Hx ->%list_elem_of_singleton. by apply Hel in Hx as [].
    + intros x. rewrite elem_of_app, list_elem_of_singleton, Hel, Hdom.
      destruct (decide (x = id)) as [->|Hne]; [rewrite lookup_insert_eq|rewrite lookup_insert_ne by done]; naive_solver.
    + rewrite length_app. cbn. destruct Hcur1 as [?|?]; [left; lia|by right].
  - set (h1 := mk_router _ _ _ _). destruct (lb_remove_spec h1 id Hnd) as (Hp & _ & Hnd1 & Hel & Hcur1).
    split; [done| |by apply Hcur1]. intros x. rewrite Hp, Hel. cbn [lb_list peers h1]. rewrite Hdom.
    destruct (decide (x = id)) as [->|Hne]; [rewrite lookup_delete_eq|rewrite lookup_delete_ne by done].
    + split; [naive_solver|by intros []].
    + naive_solver.
Qed.

(** ** Round robin *)

(** In a well-formed hub the entry at the cursor is live. *)
Lemma pick_rr_peer_live h id :
  router_wf h -> lb_list h !! lb_cursor h = Some id ->
  pick_rr_peer h =
    Some (Some id, mk_router (peers h) (lb_list h) ((lb_cursor h + 1) mod length (lb_list h)) (behavior h)).
Proof.
  intros Hwf Hid. unfold pick_rr_peer. cbn [pick_loop].
  pose proof (lookup_lt_Some _ _ _ Hid) as Hlt.
  rewrite bool_decide_eq_false_2 by (intros E; rewrite E in Hlt; cbn in Hlt; lia). cbn [negb andb Nat.leb].
  rewrite (proj2 (Nat.leb_gt _ _)) by done. rewrite Hid. cbn [mbind option_bind].
  rewrite bool_decide_eq_true_2; [done|]. apply (rw_dom h Hwf). by eapply list_elem_of_lookup_2.
Qed.

(** The self-healing pick, in any state: it ends, returns a live peer of the
    list unless there is none, and only drops stale entries. *)
Lemma pick_loop_spec fuel h attempts max_attempts :
  (length (lb_list h) < fuel)%nat -> (attempts + length (lb_list h) <= max_attempts + 1)%nat ->
  exists o h', pick_loop fuel h attempts max_attempts = Some (o, h') /\
    peers h' = peers h /\ behavior h' = behavior h /\
    (forall x, is_Some (peers h !! x) -> x ∈ lb_list h' <-> x ∈ lb_list h) /\
    match o with
    | Some id => id ∈ lb_list h /\ is_Some (peers h !! id)
    | None => forall x, x ∈ lb_list h -> peers h !! x = None
    end.
Proof.
  revert h attempts. induction fuel as [|fuel IH]; intros h attempts Hf Ha; [lia|]. cbn [pick_loop].
  case_bool_decide as Hnil; cbn [negb andb].
  { eexists _, h. split; [done|]. split_and!; try done. rewrite Hnil. set_solver. }
  assert (0 < length (lb_list h))%nat by (destruct (lb_list h); [done|cbn; lia]).
  rewrite (proj2 (Nat.leb_le _ _)) by lia.
  set (c := if (_ <=? _)%nat then _ else _).
  assert (Hc : (c < length (lb_list h))%nat).
  { unfold c. destruct (_ <=? _)%nat eqn:E; [done|]. by apply Nat.leb_gt in E. }
  destruct (lookup_lt_is_Some_2 _ _ Hc) as [id Hid]. rewrite Hid. cbn [mbind option_bind].
  pose proof (list_elem_of_lookup_2 _ _ _ Hid) as Hin.
  case_bool_decide as Hlive.
  { eexists _, _. split; [done|]. by split_and!. }
  pose proof (position_split (lb_list h) id) as Hpos. destruct (position _ _) as [pos|]; [|done].
  destruct Hpos as (l1 & l2 & Hl & <- & _). rewrite Hl, vec_remove_middle.
  assert (Hlen : length (lb_list h) = S (length (l1 ++ l2))) by (rewrite Hl, !length_app; cbn; lia).
  edestruct (IH (mk_router (peers h) (l1 ++ l2) ((c + 1) mod length (l1 ++ id :: l2)) (behavior h)) (S attempts))
    as (o & h' & -> & Hp & Hb & Hel & Ho); cbn [lb_list]; [lia|lia|].
  cbn [peers behavior lb_list] in *. eexists _, h'. split; [done|].
  assert (Hsub : forall x, x ∈ l1 ++ id :: l2 <-> x = id \/ x ∈ l1 ++ l2) by set_solver.
  rewrite Hl in *. split_and!; try done.
  - intros x Hx. rewrite Hsub, (Hel x Hx). split; [by right|]. intros [->|]; done.
  - destruct o as [id'|].
    + rewrite Hsub. naive_solver.
    + intros x Hx. apply Hsub in Hx as [->|Hx]; [by apply eq_None_not_Some|by apply Ho].
Qed.

Lemma pick_rr_peer_wf h :
  router_wf h -> exists o h', pick_rr_peer h = Some (o, h') /\ router_wf h' /\ peers h' = peers h.
Proof.
  intros Hwf. destruct (lb_list h !! lb_cursor h) as [id|] eqn:E.
  - rewrite (pick_rr_peer_live h id Hwf E). eexists _, _. split; [done|]. split; [|done].
    destruct Hwf as [Hnd Hdom Hcur]. split; cbn; [done..|]. left. apply Nat.mod_upper_bound.
    apply lookup_lt_Some in E. lia.
  - exists None, h. split; [|done]. destruct (rw_cursor h Hwf) as [Hlt|H0].
    + apply lookup_lt_is_Some_2 in Hlt as [? ?]. congruence.
    + rewrite H0 in E. destruct (lb_list h) eqn:El; [|done]. unfold pick_rr_peer. rewrite El. cbn. by rewrite El.
Qed.

Lemma router_step_wf h i :
  router_wf h -> exists out h', router_step h i = Some (out, h') /\ router_wf h'.
Proof.
  intros Hwf. destruct i as [ev|[parts|]]; cbn [router_step handle_user_cmd].
  - eexists _, _. split; [done|]. by apply handle_peer_event_wf.
  - destruct parts as [|p parts]; cbn [route_outbound]; [eauto|]. destruct (behavior h); [|].
    + destruct (peers h !! p); eauto.
    + destruct (pick_rr_peer_wf h Hwf) as (o & h' & -> & Hwf' & _). cbn [mbind option_bind].
      destruct o as [id|]; [destruct (peers h' !! id)|]; eauto.
  - eauto.
Qed.

Lemma router_loop_wf ins h :
  router_wf h -> exists out h', router_loop h ins = Some (out, h') /\ router_wf h'.
Proof.
  revert h. induction ins as [|i ins IH]; intros h Hwf; cbn [router_loop]; [eauto|].
  destruct (router_step_wf h i Hwf) as (out & h1 & -> & Hwf1). cbn [mbind option_bind].
  destruct (IH h1 Hwf1) as (out' & h2 & -> & Hwf2). cbn [mbind option_bind]. eauto.
Qed.

(** The routing table according to the peer events alone. *)
Definition table_step (t : gmap bytes Sender) (i : router_input) : gmap bytes Sender :=
  match i with
  | RPeer (PeerUp id tx) => <[id := tx]> t
  | RPeer (PeerDown id) => delete id t
  | RUser _ => t
  end.

Lemma router_step_table h i out h' :
  router_wf h -> router_step h i = Some (out, h') ->
  peers h' = table_step (peers h) i /\ behavior h' = behavior h.
Proof.
  intros Hwf. destruct i as [ev|[parts|]]; cbn [router_step handle_user_cmd table_step].
  - intros [= _ <-]. destruct ev as [id tx|id]; cbn [handle_peer_event peers behavior].
    + case_bool_decide; [|done]. by destruct (lb_remove_spec h id (rw_nodup h Hwf)) as (-> & -> & _).
    + by destruct (lb_remove_spec (mk_router (delete id (peers h)) (lb_list h) (lb_cursor h) (behavior h)) id (rw_nodup h Hwf))
        as (-> & -> & _).
  - destruct parts as [|p parts]; cbn [route_outbound]; [by intros [= _ <-]|].
    destruct (behavior h) eqn:Eb; [destruct (peers h !! p); by intros [= _ <-]|].
    destruct (pick_loop_spec (S (S (length (lb_list h)))) h 0 (length (lb_list h))) as (o & h1 & Hpick & Hp & Hb & _); [lia|lia|].
    unfold pick_rr_peer. rewrite Hpick. cbn [mbind option_bind].
    destruct o as [id|]; [destruct (peers h1 !! id)|]; intros [= _ <-]; by rewrite Hp, Hb.
  - by intros [= _ <-].
Qed.

Lemma router_loop_table ins h out h' :
  router_wf h -> router_loop h ins = Some (out, h') ->
  peers h' = fold_left table_step ins (peers h) /\ behavior h' = behavior h.
Proof.
  revert h out. induction ins as [|i ins IH]; intros h out Hwf; cbn [router_loop fold_left]; [by intros [= _ <-]|].
  destruct (router_step_wf h i Hwf) as (out1 & h1 & Hs & Hwf1). rewrite Hs. cbn [mbind option_bind].
  destruct (router_step_table _ _ _ _ Hwf Hs) as [<- <-].
  destruct (router_loop h1 ins) as [[out2 h2]|] eqn:E; [|done]. intros [= _ <-]. by eapply IH.
Qed.

(** C11: whatever interleaving of peer events and user commands the hub's loop
    takes, it never panics, its routing table is the one the peer events
    describe, its rotation list enumerates exactly that table (each peer once,
    cursor in range), and the shutdown closes every peer still connected. *)
Theorem router_hub_invariant (b : RouterBehavior) (ins : list router_input) :
  exists out h, router_loop (router_new b) ins = Some (out, h) /\ router_wf h /\
    peers h = fold_left table_step ins ∅ /\
    router_run (router_new b) ins = Some (out ++ close_all h) /\
    (forall tx, (tx, PClose) ∈ close_all h <-> exists id, fold_left table_step ins ∅ !! id = Some tx).
Proof.
  destruct (router_loop_wf ins (router_new b) (router_new_wf b)) as (out & h & Hl & Hwf).
  destruct (router_loop_table ins _ _ _ (router_new_wf b) Hl) as [Hp _]. cbn [peers router_new] in Hp.
  exists out, h. split_and!; try done.
  - unfold router_run. by rewrite Hl.
  - intros tx. rewrite <- Hp. unfold close_all. rewrite list_elem_of_fmap. split.
    + intros ([id tx'] & [= ->] & Hin). exists id. by apply elem_of_map_to_list in Hin.
    + intros [id Hid]. exists (id, tx). split; [done|]. by apply elem_of_map_to_list.
Qed.

(** Standard routing, after any history.  Once the hub has taken any
    sequence of events and commands, a message [id; body...] or
    [id; empty; body...] is sent, without identity and delimiter, to the channel
    of the last connection of [id] that has not gone down, once and to nobody
    else; it is dropped if there is none, and sending does not change the hub. *)
Theorem standard_routing (ins : list router_input) (id first : bytes) (body : list bytes) :
  exists out h, router_loop (router_new Standard) ins = Some (out, h) /\
    (let deliver m := match fold_left table_step ins ∅ !! id with Some tx => [(tx, SendBody m)] | None => [] end in
     router_step h (RUser (RSendMessage [])) = Some ([], h) /\
     router_step h (RUser (RSendMessage [id])) = Some (deliver [], h) /\
     (first <> [] -> router_step h (RUser (RSendMessage (id :: first :: body))) = Some (deliver (first :: body), h)) /\
     router_step h (RUser (RSendMessage (id :: [] :: first :: body))) = Some (deliver (first :: body), h)).
Proof.
  destruct (router_loop_wf ins (router_new Standard) (router_new_wf Standard)) as (out & h & Hl & Hwf).
  destruct (router_loop_table ins _ _ _ (router_new_wf Standard) Hl) as [Hp Hb]. cbn [peers router_new behavior] in *.
  exists out, h. split; [done|]. cbn zeta. rewrite <- Hp. cbn [router_step handle_user_cmd].
  cbn [route_outbound]. rewrite Hb. split; [done|].
  destruct first as [|c first], (peers h !! id); done.
Qed.

(** The peer the [k]-th send from now goes to. *)
Definition rr_target (h : RouterHub) (k : nat) : option Sender :=
  id ← lb_list h !! ((lb_cursor h + k) mod length (lb_list h))%nat;
  peers h !! id.

Lemma lb_send h parts :
  router_wf h -> behavior h = LoadBalancer -> lb_list h <> [] -> parts <> [] ->
  exists tx, rr_target h 0 = Some tx /\
    router_step h (RUser (RSendMessage parts)) =
      Some ([(tx, SendBody parts)],
            mk_router (peers h) (lb_list h) ((lb_cursor h + 1) mod length (lb_list h)) (behavior h)).
Proof.
  intros Hwf Hb Hne Hparts.
  assert (Hlt : (lb_cursor h < length (lb_list h))%nat).
  { destruct (rw_cursor h Hwf) as [?| ->]; [done|]. destruct (lb_list h); [done|cbn; lia]. }
  destruct (lookup_lt_is_Some_2 _ _ Hlt) as [id Hid].
  assert (Hin : id ∈ lb_list h) by (by eapply list_elem_of_lookup_2).
  apply (rw_dom h Hwf) in Hin as [tx Htx]. exists tx. split.
  - unfold rr_target. rewrite Nat.add_0_r, Nat.mod_small, Hid by done. done.
  - destruct parts as [|p parts]; [done|]. cbn [router_step handle_user_cmd route_outbound]. rewrite Hb.
    rewrite (pick_rr_peer_live h id Hwf Hid). cbn [mbind option_bind peers]. by rewrite Htx, Hb.
Qed.

Lemma rr_target_next h k :
  lb_list h <> [] ->
  rr_target (mk_router (peers h) (lb_list h) ((lb_cursor h + 1) mod length (lb_list h)) (behavior h)) k = rr_target h (S k).
Proof.
  intros Hne. unfold rr_target. cbn [lb_list lb_cursor peers].
  rewrite Nat.Div0.add_mod_idemp_l. by replace (lb_cursor h + 1 + k)%nat with (lb_cursor h + S k)%nat by lia.
Qed.

Lemma lb_sends msgs h :
  router_wf h -> behavior h = LoadBalancer -> lb_list h <> [] -> Forall (λ m, m <> []) msgs ->
  exists out h', router_loop h (RUser ∘ RSendMessage <$> msgs) = Some (out, h') /\
    length out = length msgs /\
    forall k m, msgs !! k = Some m -> exists tx, rr_target h k = Some tx /\ out !! k = Some (tx, SendBody m).
Proof.
  revert h. induction msgs as [|m msgs IH]; intros h Hwf Hb Hne Hall; cbn [fmap list_fmap router_loop compose].
  - eexists _, _. split; [done|]. split; [done|]. intros k m Hk. done.
  - apply list.Forall_cons in Hall as [Hm Hall].
    destruct (lb_send h m Hwf Hb Hne Hm) as (tx & Htx & Hs).
    destruct (router_step_wf h (RUser (RSendMessage m)) Hwf) as (out1 & h1 & Hs' & Hwf1).
    rewrite Hs in Hs'. injection Hs' as <- Hh1. rewrite Hs. cbn [mbind option_bind]. rewrite Hh1.
    destruct (IH h1 Hwf1) as (out & h2 & Hl & Hlen & Hk); [by rewrite <- Hh1|by rewrite <- Hh1|done|].
    change (list_fmap _ _ (RUser ∘ RSendMessage) msgs) with (RUser ∘ RSendMessage <$> msgs).
    rewrite Hl. cbn [mbind option_bind]. eexists _, _. split; [done|]. split; [cbn; by rewrite Hlen|].
    intros [|k] m' Hm'; cbn in *; [simplify_eq; eauto|].
    destruct (Hk k m' Hm') as (tx' & Ht' & Ho). exists tx'. split; [|done].
    rewrite <- Hh1 in Ht'. by rewrite rr_target_next in Ht'.
Qed.

(** Load balancing is a strict rotation.  With at least one peer, any run
    of non-empty messages is delivered in full: the k-th message goes, body
    unchanged, to the peer k places after the cursor in the rotation list; so
    as many consecutive messages as there are peers reach every peer once. *)
Theorem load_balancing_round_robin (h : RouterHub) (msgs : list (list bytes)) :
  router_wf h -> behavior h = LoadBalancer -> lb_list h <> [] -> Forall (λ m, m <> []) msgs ->
  exists out h', router_loop h (RUser ∘ RSendMessage <$> msgs) = Some (out, h') /\
    length out = length msgs /\
    (forall k m, msgs !! k = Some m -> exists tx, rr_target h k = Some tx /\ out !! k = Some (tx, SendBody m)) /\
    (length msgs = length (lb_list h) -> forall id tx, peers h !! id = Some tx ->
       exists k m, msgs !! k = Some m /\ out !! k = Some (tx, SendBody m)).
Proof.
  intros Hwf Hb Hne Hall. destruct (lb_sends msgs h Hwf Hb Hne Hall) as (out & h' & Hl & Hlen & Hk).
  exists out, h'. split_and!; try done. intros Hn id tx Hid.
  assert (Hin : id ∈ lb_list h) by (apply (rw_dom h Hwf); by eexists).
  apply list_elem_of_lookup_1 in Hin as [i Hi]. pose proof (lookup_lt_Some _ _ _ Hi) as Hlt.
  set (n := length (lb_list h)) in *. set (c := lb_cursor h) in *.
  assert (Hc : (c < n)%nat) by (destruct (rw_cursor h Hwf) as [?| ?]; subst c n; lia).
  assert (Hmod : exists k, (k < n)%nat /\ ((c + k) mod n)%nat = i).
  { destruct (le_lt_dec c i).
    - exists (i - c)%nat. split; [lia|]. replace (c + (i - c))%nat with i by lia. by apply Nat.mod_small.
    - exists (n - c + i)%nat. split; [lia|]. replace (c + (n - c + i))%nat with (i + 1 * n)%nat by lia.
      rewrite Nat.Div0.mod_add. by apply Nat.mod_small. }
  destruct Hmod as (k & Hkn & Hki). destruct (lookup_lt_is_Some_2 msgs k) as [m Hm]; [lia|].
  exists k, m. split; [done|]. destruct (Hk k m Hm) as (tx' & Ht & ->).
  unfold rr_target in Ht. fold n c in Ht. rewrite Hki, Hi in Ht. cbn in Ht. rewrite Hid in Ht. by simplify_eq.
Qed.

(** C40: self-healing selection.  In any state, even with stale or duplicated
    rotation entries, [pick_rr_peer] ends within one pass, returns a connected
    peer of the list whenever there is one, and removes only stale entries. *)
Theorem pick_rr_peer_heals (h : RouterHub) :
  exists o h', pick_rr_peer h = Some (o, h') /\ peers h' = peers h /\
    (forall x, is_Some (peers h !! x) -> x ∈ lb_list h' <-> x ∈ lb_list h) /\
    match o with
    | Some id => id ∈ lb_list h /\ is_Some (peers h !! id)
    | None => forall x, x ∈ lb_list h -> peers h !! x = None
    end.
Proof.
  destruct (pick_loop_spec (S (S (length (lb_list h)))) h 0 (length (lb_list h))) as (o & h' & H1 & H2 & _ & H3 & H4); [lia|lia|].
  exists o, h'. done.
Qed.

Definition sample_router : RouterHub :=
  mk_router (<[ascii_bytes "a" := 1%nat]> (<[ascii_bytes "b" := 2%nat]> ∅)) [ascii_bytes "a"; ascii_bytes "b"] 1 LoadBalancer.

Lemma sample_router_wf : router_wf sample_router.
Proof.
  assert (H : handle_peer_event (handle_peer_event (router_new LoadBalancer) (PeerUp (ascii_bytes "a") 1))
     (PeerUp (ascii_bytes "b") 2) = mk_router (peers sample_router) (lb_list sample_router) 0 LoadBalancer) by (vm_compute; reflexivity).
  pose proof (handle_peer_event_wf _ (PeerUp (ascii_bytes "b") 2)
    (handle_peer_event_wf _ (PeerUp (ascii_bytes "a") 1) (router_new_wf LoadBalancer))) as Hwf.
  rewrite H in Hwf. destruct Hwf as [H1 H2 _]. split; [exact H1|exact H2|]. left. cbn. lia.
Qed.

Lemma load_balancing_round_robin_witness :
  exists out h', router_loop sample_router [RUser (RSendMessage [ascii_bytes "x"]); RUser (RSendMessage [ascii_bytes "y"])]
      = Some (out, h') /\ exists tx, rr_target sample_router 0 = Some tx /\ out !! 0%nat = Some (tx, SendBody [ascii_bytes "x"]).
Proof.
  destruct (load_balancing_round_robin sample_router [[ascii_bytes "x"]; [ascii_bytes "y"]]) as (out & h' & Hl & _ & Hk & _).
  - exact sample_router_wf.
  - reflexivity.
  - discriminate.
  - repeat constructor; discriminate.
  - exists out, h'. split; [exact Hl|]. apply (Hk 0%nat). reflexivity.
Defined.
