(* ===== verification/PubSubHub.v ===== *)
(** * The PUB/SUB hub

    [PubSubHub] of monocoque-core/src/pubsub/hub.rs: the task that maps routing
    identities to compact peer keys, applies subscriptions to the index and
    fans published messages out.

    It is specified by [live_step] on a map from the identities of connected
    peers to their epoch, channel and set of prefixes; keys, reverse map and
    sorted index disappear. *)

From S2P Require Import Prelude.
From S2P Require Import ByteOrder.
From S2P Require Import SubIndex.
From S2P Require Import RouterHub.

Inductive PubSubCmd :=
| Publish (parts : list bytes)
| PSClose.

Inductive PubSubEvent :=
| PSPeerUp (routing_id : bytes) (epoch : Z) (tx : Sender)
| PSPeerDown (routing_id : bytes) (epoch : Z)
| PSSubscribe (routing_id prefix : bytes)
| PSUnsubscribe (routing_id prefix : bytes).

Record PubSubHub := mk_hub {
  hub_index : SubscriptionIndex;
  rid_to_key : gmap bytes PeerKey;
  key_to_rid : gmap PeerKey bytes;
  hub_peers : gmap PeerKey (Z * Sender);
  next_key : PeerKey;
}.

Definition hub_new : PubSubHub := mk_hub index_new ∅ ∅ ∅ 1.

Definition with_index (h : PubSubHub) (ix : SubscriptionIndex) : PubSubHub :=
  mk_hub ix (rid_to_key h) (key_to_rid h) (hub_peers h) (next_key h).

(** Resolve or allocate the key of an identity; the [u64] counter wraps. *)
Definition alloc_key (h : PubSubHub) (rid : bytes) : PeerKey * PubSubHub :=
  match rid_to_key h !! rid with
  | Some k => (k, h)
  | None =>
      let k := next_key h in
      (k, mk_hub (hub_index h) (<[rid := k]> (rid_to_key h)) (<[k := rid]> (key_to_rid h)) (hub_peers h)
            ((k + 1) mod 2 ^ 64))
  end.

Definition on_hub_event (h : PubSubHub) (ev : PubSubEvent) : option PubSubHub :=
  match ev with
  | PSPeerUp rid epoch tx =>
      let '(key, h) := alloc_key h rid in
      Some (mk_hub (hub_index h) (rid_to_key h) (key_to_rid h) (<[key := (epoch, tx)]> (hub_peers h)) (next_key h))
  | PSPeerDown rid epoch =>
      match rid_to_key h !! rid with
      | Some key =>
          match hub_peers h !! key with
          | Some (current_epoch, _) =>
              if current_epoch =? epoch then
                ix ← remove_peer_everywhere (hub_index h) key;
                Some (mk_hub ix (rid_to_key h) (key_to_rid h) (delete key (hub_peers h)) (next_key h))
              else Some h
          | None => Some h
          end
      | None => Some h
      end
  | PSSubscribe rid prefix =>
      match rid_to_key h !! rid with
      | Some key =>
          if bool_decide (is_Some (hub_peers h !! key))
          then ix ← index_subscribe (hub_index h) key prefix; Some (with_index h ix)
          else Some h
      | None => Some h
      end
  | PSUnsubscribe rid prefix =>
      match rid_to_key h !! rid with
      | Some key => ix ← index_unsubscribe (hub_index h) key prefix; Some (with_index h ix)
      | None => Some h
      end
  end.

Definition publish (h : PubSubHub) (parts : list bytes) : outputs :=
  match parts with
  | [] => []
  | topic :: _ =>
      if index_is_empty (hub_index h) then []
      else omap (λ key, '(_, tx) ← hub_peers h !! key; Some (tx, SendBody parts))
                (match_topic (hub_index h) topic)
  end.

Definition on_user_cmd (h : PubSubHub) (cmd : PubSubCmd) : outputs :=
  match cmd with
  | Publish parts => publish h parts
  | PSClose => (λ x, (x.2.2, PClose)) <$> map_to_list (hub_peers h)
  end.

(** What [select!] takes next from the two channels. *)
Inductive hub_input :=
| HEvent (ev : PubSubEvent)
| HUser (cmd : PubSubCmd).

Definition hub_step (h : PubSubHub) (i : hub_input) : option (outputs * PubSubHub) :=
  match i with
  | HEvent ev => h ← on_hub_event h ev; Some ([], h)
  | HUser cmd => Some (on_user_cmd h cmd, h)
  end.

(** ** Specification *)

Record live_peer := mk_live {
  lp_epoch : Z;
  lp_tx : Sender;
  lp_prefixes : gset bytes;
}.

Abbreviation live_map := (gmap bytes live_peer) (only parsing).

Definition live_step (m : live_map) (ev : PubSubEvent) : live_map :=
  match ev with
  | PSPeerUp rid epoch tx =>
      <[rid := mk_live epoch tx (from_option lp_prefixes ∅ (m !! rid))]> m
  | PSPeerDown rid epoch =>
      match m !! rid with
      | Some p => if lp_epoch p =? epoch then delete rid m else m
      | None => m
      end
  | PSSubscribe rid prefix =>
      match m !! rid with
      | Some p => <[rid := mk_live (lp_epoch p) (lp_tx p) ({[prefix]} ∪ lp_prefixes p)]> m
      | None => m
      end
  | PSUnsubscribe rid prefix =>
      match m !! rid with
      | Some p => <[rid := mk_live (lp_epoch p) (lp_tx p) (lp_prefixes p ∖ {[prefix]})]> m
      | None => m
      end
  end.

Definition wants (topic : bytes) (p : live_peer) : Prop :=
  Exists (λ pre, pre `prefix_of` topic) (elements (lp_prefixes p)).

#[export] Instance wants_dec topic p : Decision (wants topic p).
Proof. unfold wants. apply _. Defined.

(** One copy for each connected peer with a prefix of the topic. *)
Definition live_publish (m : live_map) (parts : list bytes) : outputs :=
  match parts with
  | [] => []
  | topic :: _ => (λ x, (lp_tx x.2, SendBody parts)) <$> filter (λ x, wants topic x.2) (map_to_list m)
  end.

Definition live_outputs (m : live_map) (cmd : PubSubCmd) : outputs :=
  match cmd with
  | Publish parts => live_publish m parts
  | PSClose => (λ x, (lp_tx x.2, PClose)) <$> map_to_list m
  end.

Definition live_input (m : live_map) (i : hub_input) : outputs * live_map :=
  match i with
  | HEvent ev => ([], live_step m ev)
  | HUser cmd => (live_outputs m cmd, m)
  end.

(** ** Abstraction and invariant *)

Definition prefixes_of (ix : SubscriptionIndex) (k : PeerKey) : gset bytes :=
  set_map snd (filter (λ x, x.1 = k) (pairs ix)).

Definition live_of (h : PubSubHub) (k : PeerKey) : option live_peer :=
  '(epoch, tx) ← hub_peers h !! k; Some (mk_live epoch tx (prefixes_of (hub_index h) k)).

(** The connected peers of a hub. *)
Definition abs (h : PubSubHub) : live_map := omap (live_of h) (rid_to_key h).

Record hub_wf (h : PubSubHub) : Prop := {
  hw_index : index_wf (hub_index h);
  hw_maps rid k : rid_to_key h !! rid = Some k <-> key_to_rid h !! k = Some rid;
  hw_fresh rid k : rid_to_key h !! rid = Some k -> 1 <= k < next_key h;
  hw_next : 1 <= next_key h;
  hw_peers k : is_Some (hub_peers h !! k) -> is_Some (key_to_rid h !! k);
  hw_pairs k pre : (k, pre) ∈ pairs (hub_index h) -> is_Some (hub_peers h !! k);
}.

Lemma elem_of_prefixes_of ix k pre : pre ∈ prefixes_of ix k <-> (k, pre) ∈ pairs ix.
Proof.
  unfold prefixes_of. rewrite elem_of_map. split.
  - intros ([k' pre'] & -> & [Hk Hin]%elem_of_filter). cbn in Hk. by subst k'.
  - intros Hin. exists (k, pre). split; [done|]. by apply elem_of_filter.
Qed.

Lemma prefixes_of_ext ix ix' k :
  (forall pre, (k, pre) ∈ pairs ix <-> (k, pre) ∈ pairs ix') -> prefixes_of ix k = prefixes_of ix' k.
Proof. intros H. apply set_eq. intros pre. by rewrite !elem_of_prefixes_of. Qed.

Lemma lookup_abs h rid : abs h !! rid = (k ← rid_to_key h !! rid; live_of h k).
Proof. apply lookup_omap. Qed.

Section hub.
Context (h : PubSubHub) (Hwf : hub_wf h).

Lemma rid_to_key_inj rid rid' k :
  rid_to_key h !! rid = Some k -> rid_to_key h !! rid' = Some k -> rid = rid'.
Proof using Hwf. rewrite !(hw_maps h Hwf). congruence. Qed.

(** A peer that is not connected has no subscriptions. *)
Lemma prefixes_of_dead k : hub_peers h !! k = None -> prefixes_of (hub_index h) k = ∅.
Proof using Hwf.
  intros Hk. apply set_eq. intros pre. rewrite elem_of_prefixes_of, elem_of_empty. split; [|done].
  intros H%(hw_pairs h Hwf). rewrite Hk in H. by destruct H.
Qed.

Lemma next_key_unused : key_to_rid h !! next_key h = None /\ hub_peers h !! next_key h = None.
Proof using Hwf.
  assert (Hk : key_to_rid h !! next_key h = None).
  { apply eq_None_not_Some. intros [rid Hr]. apply (hw_maps h Hwf) in Hr. apply (hw_fresh h Hwf) in Hr. lia. }
  split; [done|]. apply eq_None_not_Some. intros H%(hw_peers h Hwf). rewrite Hk in H. by destruct H.
Qed.

Lemma alloc_key_spec rid :
  next_key h < u64_max ->
  let '(k, h1) := alloc_key h rid in
  hub_wf h1 /\ rid_to_key h1 !! rid = Some k /\ abs h1 = abs h /\
  hub_index h1 = hub_index h /\ hub_peers h1 = hub_peers h /\
  next_key h <= next_key h1 <= next_key h + 1.
Proof using Hwf.
  unfold u64_max. intros Hb. pose proof (hw_next h Hwf). unfold alloc_key. destruct (rid_to_key h !! rid) as [k|] eqn:Hr.
  { split_and!; try done; lia. }
  destruct next_key_unused as [Hk Hp]. rewrite Z.mod_small by lia.
  split; [|split_and!; cbn [next_key]; try done; try lia; [cbn; by rewrite lookup_insert_eq|]].
  - destruct Hwf as [H1 H2 H3 Hn H4 H5]. split; cbn [hub_index rid_to_key key_to_rid hub_peers next_key]; try done; try lia.
    + intros r k. rewrite !lookup_insert_Some, H2. split.
      * intros [[-> ->]|[Hne Hr']]; [by left|]. right. split; [|done]. intros <-. congruence.
      * intros [[-> ->]|[Hne Hr']]; [by left|]. right. split; [|done]. intros ->. apply H2 in Hr'. congruence.
    + intros r k [[-> <-]|[_ Hr']]%lookup_insert_Some; [lia|]. apply H3 in Hr'. lia.
    + intros k Hk'. destruct (decide (k = next_key h)) as [->|Hne]; [by rewrite lookup_insert_eq|].
      rewrite lookup_insert_ne by done. by apply H4.
  - apply map_eq. intros r. rewrite !lookup_abs. cbn [rid_to_key].
    destruct (decide (r = rid)) as [->|Hne].
    + rewrite lookup_insert_eq, Hr. cbn. unfold live_of. cbn [hub_peers]. by rewrite Hp.
    + by rewrite lookup_insert_ne by done.
Qed.

(** Replacing the data of one key changes one entry of the abstraction. *)
Lemma abs_update h' rid k :
  rid_to_key h !! rid = Some k -> rid_to_key h' = rid_to_key h ->
  (forall k', k' <> k -> live_of h' k' = live_of h k') ->
  abs h' = partial_alter (λ _, live_of h' k) rid (abs h).
Proof using Hwf.
  intros Hr Hrids Hother. apply map_eq. intros r. rewrite lookup_abs, Hrids.
  destruct (decide (rid = r)) as [<-|Hne].
  - by rewrite lookup_partial_alter_eq, Hr.
  - rewrite lookup_partial_alter_ne, lookup_abs by done.
    destruct (rid_to_key h !! r) as [k'|] eqn:Hr'; [|done]. cbn. apply Hother.
    intros ->. apply Hne. by eapply rid_to_key_inj.
Qed.
End hub.

Lemma live_of_ext h h' k :
  hub_peers h !! k = hub_peers h' !! k ->
  (forall pre, (k, pre) ∈ pairs (hub_index h) <-> (k, pre) ∈ pairs (hub_index h')) -> live_of h k = live_of h' k.
Proof. intros Hp Hpre. unfold live_of. by rewrite Hp, (prefixes_of_ext _ (hub_index h')). Qed.

(** ** Refinement of the event handlers *)

Section events.
Context (h : PubSubHub) (Hwf : hub_wf h).

Lemma peer_up_refines rid epoch tx :
  next_key h < u64_max ->
  exists h', on_hub_event h (PSPeerUp rid epoch tx) = Some h' /\ hub_wf h' /\
    abs h' = live_step (abs h) (PSPeerUp rid epoch tx) /\ next_key h' <= next_key h + 1.
Proof using Hwf.
  intros Hb. cbn [on_hub_event]. pose proof (alloc_key_spec h Hwf rid Hb) as Ha.
  destruct (alloc_key h rid) as [k h1]. destruct Ha as (Hwf1 & Hk & Habs & Hix & Hps & Hn).
  eexists. split; [done|]. split; [|split; [|cbn; lia]].
  - destruct Hwf1 as [H1 H2 H3 H3' H4 H5].
    split; cbn [hub_index rid_to_key key_to_rid hub_peers next_key]; try done.
    + intros k'. destruct (decide (k' = k)) as [->|]; [|rewrite lookup_insert_ne by done; apply H4].
      intros _. exists rid. by apply H2.
    + intros k' pre Hin%H5. destruct (decide (k' = k)) as [->|]; [by rewrite lookup_insert_eq|by rewrite lookup_insert_ne].
  - rewrite (abs_update h1 Hwf1 _ rid k Hk); [|done|].
    + cbn [live_step]. rewrite Habs. apply partial_alter_ext. intros p Hp. unfold live_of. cbn [hub_peers hub_index].
      rewrite lookup_insert_eq. cbn. do 2 f_equal. rewrite <- Habs in Hp |- *. rewrite lookup_abs, Hk in Hp |- *. cbn.
      unfold live_of. destruct (hub_peers h1 !! k) as [[e t]|] eqn:E; [done|]. cbn. by apply (prefixes_of_dead h1 Hwf1).
    + intros k' Hne. apply live_of_ext; [|done]. cbn. by rewrite lookup_insert_ne.
Qed.

Lemma peer_down_refines rid epoch :
  exists h', on_hub_event h (PSPeerDown rid epoch) = Some h' /\ hub_wf h' /\
    abs h' = live_step (abs h) (PSPeerDown rid epoch) /\ next_key h' = next_key h.
Proof using Hwf.
  cbn [on_hub_event live_step]. rewrite lookup_abs. unfold live_of at 1.
  destruct (rid_to_key h !! rid) as [k|] eqn:Hk; cbn [mbind option_bind]; [|by exists h].
  destruct (hub_peers h !! k) as [[e t]|] eqn:Hp; cbn [mbind option_bind lp_epoch]; [|by exists h].
  destruct (e =? epoch); [|by exists h].
  destruct (remove_peer_everywhere_spec (hub_index h) k (hw_index h Hwf)) as (ix & -> & Hixwf & Hpairs).
  cbn [mbind option_bind]. eexists. split; [done|]. split; [|split; [|done]].
  - destruct Hwf as [H1 H2 H3 H3' H4 H5].
    split; cbn [hub_index rid_to_key key_to_rid hub_peers next_key]; try done.
    + intros k' [? [_ Hs]%lookup_delete_Some]. apply H4. by eexists.
    + intros k' pre. rewrite Hpairs, elem_of_filter. cbn. intros [Hne Hin%H5]. by rewrite lookup_delete_ne.
  - rewrite (abs_update h Hwf _ rid k Hk); [|done|].
    + unfold live_of. cbn [hub_peers]. by rewrite lookup_delete_eq.
    + intros k' Hne. apply live_of_ext; cbn [hub_peers hub_index]; [by rewrite lookup_delete_ne|].
      intros pre. rewrite Hpairs, elem_of_filter. cbn. naive_solver.
Qed.

(** Changing the prefixes of one connected peer. *)
Lemma with_index_refines rid k ix e t S :
  rid_to_key h !! rid = Some k -> hub_peers h !! k = Some (e, t) -> index_wf ix ->
  (forall k' pre, k' <> k -> (k', pre) ∈ pairs ix <-> (k', pre) ∈ pairs (hub_index h)) ->
  prefixes_of ix k = S ->
  hub_wf (with_index h ix) /\ abs (with_index h ix) = <[rid := mk_live e t S]> (abs h).
Proof using Hwf.
  intros Hk Hp Hix Hother HS. split.
  - destruct Hwf as [H1 H2 H3 H3' H4 H5]. split; cbn; try done. intros k' pre Hin.
    destruct (decide (k' = k)) as [->|Hne]; [by rewrite Hp|]. apply (H5 k' pre). by apply Hother.
  - rewrite (abs_update h Hwf _ rid k Hk); [|done|].
    + apply partial_alter_ext. intros ? _. unfold live_of. cbn. by rewrite Hp, HS.
    + intros k' Hne. apply live_of_ext; [done|]. intros pre. by apply Hother.
Qed.

Lemma subscribe_refines rid prefix :
  exists h', on_hub_event h (PSSubscribe rid prefix) = Some h' /\ hub_wf h' /\
    abs h' = live_step (abs h) (PSSubscribe rid prefix) /\ next_key h' = next_key h.
Proof using Hwf.
  cbn [on_hub_event live_step]. rewrite lookup_abs. unfold live_of at 1.
  destruct (rid_to_key h !! rid) as [k|] eqn:Hk; cbn [mbind option_bind]; [|by exists h].
  destruct (hub_peers h !! k) as [[e t]|] eqn:Hp; cbn [mbind option_bind]; [|by exists h].
  rewrite bool_decide_eq_true_2 by done. cbn [lp_epoch lp_tx lp_prefixes].
  destruct (index_subscribe_spec (hub_index h) k prefix (hw_index h Hwf)) as (ix & -> & Hixwf & Hpairs).
  cbn [mbind option_bind]. exists (with_index h ix). split; [done|].
  edestruct (with_index_refines rid k ix e t) as [H1 H2]; [done|done|done| |done|].
  - intros k' pre Hne. rewrite Hpairs. set_solver.
  - split; [done|]. split; [|done]. rewrite H2. do 2 f_equal. apply set_eq. intros pre.
    rewrite elem_of_union, elem_of_singleton, !elem_of_prefixes_of, Hpairs. set_solver.
Qed.

Lemma unsubscribe_refines rid prefix :
  exists h', on_hub_event h (PSUnsubscribe rid prefix) = Some h' /\ hub_wf h' /\
    abs h' = live_step (abs h) (PSUnsubscribe rid prefix) /\ next_key h' = next_key h.
Proof using Hwf.
  cbn [on_hub_event live_step]. rewrite lookup_abs. unfold live_of at 1.
  destruct (rid_to_key h !! rid) as [k|] eqn:Hk; cbn [mbind option_bind]; [|by exists h].
  destruct (index_unsubscribe_spec (hub_index h) k prefix (hw_index h Hwf)) as (ix & -> & Hixwf & Hpairs).
  cbn [mbind option_bind]. exists (with_index h ix). split; [done|].
  destruct (hub_peers h !! k) as [[e t]|] eqn:Hp; cbn [mbind option_bind].
  - edestruct (with_index_refines rid k ix e t) as [H1 H2]; [done|done|done| |done|].
    + intros k' pre Hne. rewrite Hpairs. set_solver.
    + split; [done|]. split; [|done]. rewrite H2. do 2 f_equal. apply set_eq. intros pre.
      cbn [lp_prefixes]. rewrite elem_of_difference, elem_of_singleton, !elem_of_prefixes_of, Hpairs. set_solver.
  - (* a peer that is not connected has nothing to remove *)
    assert (Heq : pairs ix = pairs (hub_index h)).
    { rewrite Hpairs. apply set_eq. intros [k' pre].
      rewrite elem_of_difference, elem_of_singleton. split; [tauto|]. intros Hin. split; [done|].
      intros [= -> ->]. apply (hw_pairs h Hwf) in Hin. rewrite Hp in Hin. by destruct Hin. }
    split_and!; [| |done].
    + destruct Hwf as [H1 H2 H3 H3' H4 H5]. split; cbn; try done. intros k' pre. rewrite Heq. apply H5.
    + apply map_eq. intros r. rewrite !lookup_abs. cbn [with_index rid_to_key].
      destruct (rid_to_key h !! r) as [k'|]; [|done]. cbn. apply live_of_ext; [done|].
      intros pre. cbn [with_index hub_index]. by rewrite Heq.
Qed.

Lemma on_hub_event_refines ev :
  next_key h < u64_max ->
  exists h', on_hub_event h ev = Some h' /\ hub_wf h' /\ abs h' = live_step (abs h) ev /\
    next_key h' <= next_key h + 1.
Proof using Hwf.
  intros Hb. destruct ev as [rid e t|rid e|rid p|rid p].
  - by apply peer_up_refines.
  - destruct (peer_down_refines rid e) as (h' & H1 & H2 & H3 & H4). exists h'. split_and!; try done; lia.
  - destruct (subscribe_refines rid p) as (h' & H1 & H2 & H3 & H4). exists h'. split_and!; try done; lia.
  - destruct (unsubscribe_refines rid p) as (h' & H1 & H2 & H3 & H4). exists h'. split_and!; try done; lia.
Qed.
End events.

(** ** Fan-out *)

Lemma omap_fmap {A B} (g : A -> option B) (f : A -> B) (l : list A) :
  (forall x, x ∈ l -> g x = Some (f x)) -> omap g l = f <$> l.
Proof.
  induction l as [|x l IH]; intros H; [done|]. cbn. rewrite (H x) by left. f_equal. apply IH.
  intros y Hy. apply H. by right.
Qed.

Lemma fmap_ext_in {A B} (f g : A -> B) (l : list A) : (forall x, x ∈ l -> f x = g x) -> f <$> l = g <$> l.
Proof.
  induction l as [|x l IH]; intros H; [done|]. cbn. f_equal; [apply H; left|]. apply IH.
  intros y Hy. apply H. by right.
Qed.

Lemma sorted_lt_NoDup (l : list Z) : StronglySorted Z.lt l -> NoDup l.
Proof.
  induction 1 as [|x l _ IH Hall]; [constructor|]. constructor; [|done].
  intros Hin. rewrite list.Forall_forall in Hall. specialize (Hall x Hin). lia.
Qed.

Lemma wants_spec topic p : wants topic p <-> exists pre, pre ∈ lp_prefixes p /\ pre `prefix_of` topic.
Proof. unfold wants. rewrite list.Exists_exists. by setoid_rewrite elem_of_elements. Qed.

Section publish.
Context (h : PubSubHub) (Hwf : hub_wf h).

Definition key_of (rid : bytes) : PeerKey := default 0 (rid_to_key h !! rid).

Lemma elem_of_live rid p :
  (rid, p) ∈ map_to_list (abs h) <->
  exists k e t, rid_to_key h !! rid = Some k /\ hub_peers h !! k = Some (e, t) /\
    p = mk_live e t (prefixes_of (hub_index h) k).
Proof using.
  rewrite elem_of_map_to_list, lookup_abs. unfold live_of. split.
  - destruct (rid_to_key h !! rid) as [k|]; [|done]. cbn. destruct (hub_peers h !! k) as [[e t]|] eqn:E; [|done].
    intros [= <-]. eauto 7.
  - intros (k & e & t & -> & Hp & ->). cbn. by rewrite Hp.
Qed.

Lemma key_of_inj x y :
  x ∈ map_to_list (abs h) -> y ∈ map_to_list (abs h) -> (key_of ∘ fst) x = (key_of ∘ fst) y -> x = y.
Proof using Hwf.
  destruct x as [r1 p1], y as [r2 p2]. intros H1 H2.
  pose proof H1 as (k1 & ? & ? & Hk1 & _)%elem_of_live. pose proof H2 as (k2 & ? & ? & Hk2 & _)%elem_of_live.
  unfold compose, key_of. cbn. rewrite Hk1, Hk2. cbn. intros ->.
  assert (r1 = r2) as -> by (by eapply (rid_to_key_inj h Hwf)). f_equal.
  apply elem_of_map_to_list in H1, H2. congruence.
Qed.

(** The keys the index matches are those of the peers that want the topic. *)
Lemma matched_keys topic :
  match_topic (hub_index h) topic ≡ₚ
    (key_of ∘ fst) <$> filter (λ x, wants topic x.2) (map_to_list (abs h)).
Proof using Hwf.
  apply list.NoDup_Permutation.
  - apply sorted_lt_NoDup, match_topic_sorted.
  - apply NoDup_fmap_2_strong.
    + intros x y [_ H1]%list_elem_of_filter [_ H2]%list_elem_of_filter. by apply key_of_inj.
    + apply list.NoDup_filter, NoDup_map_to_list.
  - intros k. rewrite (match_topic_elem _ _ _ (hw_index h Hwf)), list_elem_of_fmap. split.
    + intros (pre & Hin & Hpre). destruct (hw_pairs h Hwf k pre Hin) as [[e t] Hp].
      destruct (hw_peers h Hwf k) as [rid Hr]; [by rewrite Hp|]. apply (hw_maps h Hwf) in Hr.
      exists (rid, mk_live e t (prefixes_of (hub_index h) k)). split.
      * unfold compose, key_of. cbn. by rewrite Hr.
      * apply list_elem_of_filter. split; [|apply elem_of_live; eauto 7].
        apply wants_spec. exists pre. cbn. by rewrite elem_of_prefixes_of.
    + intros ([rid p] & -> & [Hw Hin]%list_elem_of_filter). apply elem_of_live in Hin as (k & e & t & Hk & Hp & ->).
      apply wants_spec in Hw as (pre & Hpre & ?). cbn in Hpre. rewrite elem_of_prefixes_of in Hpre.
      exists pre. unfold compose, key_of. cbn. by rewrite Hk.
Qed.

Lemma publish_refines parts : publish h parts ≡ₚ live_publish (abs h) parts.
Proof using Hwf.
  destruct parts as [|topic rest]; [done|]. set (parts := topic :: rest). cbn [publish live_publish].
  set (out k := (from_option snd 0%nat (hub_peers h !! k), SendBody parts)).
  assert (Hpub : publish h parts = out <$> match_topic (hub_index h) topic).
  { unfold publish, parts. unfold index_is_empty. case_bool_decide as E.
    - unfold match_topic. by rewrite E.
    - apply omap_fmap. intros k Hk. apply (match_topic_elem _ _ _ (hw_index h Hwf)) in Hk as (pre & Hin & _).
      destruct (hw_pairs h Hwf k pre Hin) as [[e t] Hp]. unfold out. by rewrite Hp. }
  change (publish h parts ≡ₚ live_publish (abs h) parts). rewrite Hpub, matched_keys. cbn [live_publish].
  rewrite <- list_fmap_compose. unfold parts. fold parts.
  rewrite (fmap_ext_in _ (λ x, (lp_tx x.2, SendBody parts))); [done|].
  intros [rid p] [_ Hin]%list_elem_of_filter. apply elem_of_live in Hin as (k & e & t & Hk & Hp & ->).
  unfold compose, out, key_of. cbn. rewrite Hk. cbn. by rewrite Hp.
Qed.

Lemma close_refines : on_user_cmd h PSClose ≡ₚ live_outputs (abs h) PSClose.
Proof using Hwf.
  cbn [on_user_cmd live_outputs].
  assert (Hk : (map_to_list (hub_peers h)).*1 ≡ₚ (key_of ∘ fst) <$> map_to_list (abs h)).
  { apply list.NoDup_Permutation; [apply NoDup_fst_map_to_list| |].
    - apply NoDup_fmap_2_strong; [apply key_of_inj|apply NoDup_map_to_list].
    - intros k. rewrite !list_elem_of_fmap. split.
      + intros ([k' [e t]] & -> & Hp%elem_of_map_to_list). cbn.
        destruct (hw_peers h Hwf k') as [rid Hr]; [by rewrite Hp|]. apply (hw_maps h Hwf) in Hr.
        exists (rid, mk_live e t (prefixes_of (hub_index h) k')). unfold compose, key_of. cbn. rewrite Hr.
        split; [done|]. apply elem_of_live. eauto 7.
      + intros ([rid p] & -> & Hin). apply elem_of_live in Hin as (k & e & t & Hk & Hp & ->).
        exists (k, (e, t)). unfold compose, key_of. cbn. rewrite Hk. split; [done|]. by apply elem_of_map_to_list. }
  set (out k := (from_option snd 0%nat (hub_peers h !! k), PClose)).
  trans (out <$> (map_to_list (hub_peers h)).*1).
  - rewrite <- list_fmap_compose. apply reflexive_eq, fmap_ext_in. intros [k [e t]] Hp%elem_of_map_to_list.
    unfold compose, out. cbn. by rewrite Hp.
  - rewrite Hk, <- list_fmap_compose. apply reflexive_eq, fmap_ext_in. intros [rid p] Hin.
    apply elem_of_live in Hin as (k & e & t & Hk' & Hp & ->). unfold compose, out, key_of. cbn. rewrite Hk'. cbn. by rewrite Hp.
Qed.
End publish.

(** ** Runs *)

Fixpoint hub_run (h : PubSubHub) (ins : list hub_input) : option (list outputs * PubSubHub) :=
  match ins with
  | [] => Some ([], h)
  | i :: ins =>
      '(out, h) ← hub_step h i;
      '(outs, h) ← hub_run h ins;
      Some (out :: outs, h)
  end.

Fixpoint live_run (m : live_map) (ins : list hub_input) : list outputs * live_map :=
  match ins with
  | [] => ([], m)
  | i :: ins =>
      let '(out, m) := live_input m i in
      let '(outs, m) := live_run m ins in
      (out :: outs, m)
  end.

Lemma hub_new_wf : hub_wf hub_new.
Proof.
  split; cbn; try done.
  - apply index_new_wf.
  - intros k. rewrite lookup_empty. by intros [].
Qed.

Lemma hub_step_refines h i :
  hub_wf h -> next_key h < u64_max ->
  exists out h', hub_step h i = Some (out, h') /\ hub_wf h' /\ next_key h' <= next_key h + 1 /\
    out ≡ₚ (live_input (abs h) i).1 /\ abs h' = (live_input (abs h) i).2.
Proof.
  intros Hwf Hb. destruct i as [ev|cmd]; cbn [hub_step live_input].
  - destruct (on_hub_event_refines h Hwf ev Hb) as (h' & -> & Hwf' & Habs & Hn). cbn. eauto 10.
  - eexists _, h. split; [done|]. split; [done|]. split; [lia|]. split; [|done].
    destruct cmd as [parts|]; [by apply publish_refines|by apply close_refines].
Qed.

Lemma hub_run_refines ins h :
  hub_wf h -> next_key h + len ins <= u64_max ->
  exists outs h', hub_run h ins = Some (outs, h') /\ hub_wf h' /\
    Forall2 (≡ₚ) outs (live_run (abs h) ins).1 /\ abs h' = (live_run (abs h) ins).2.
Proof.
  revert h. induction ins as [|i ins IH]; intros h Hwf Hb; cbn [hub_run live_run]; [eauto 10|].
  destruct (hub_step_refines h i Hwf) as (out & h1 & -> & Hwf1 & Hn & Hout & Habs); [len_lia|].
  cbn [mbind option_bind]. destruct (IH h1 Hwf1) as (outs & h2 & -> & Hwf2 & Houts & Habs2); [len_lia|].
  cbn [mbind option_bind]. destruct (live_input (abs h) i) as [o m]. cbn in Hout, Habs. subst m.
  destruct (live_run (abs h1) ins) as [os m']. cbn in *. eauto 10.
Qed.

(** C12: the PUB/SUB hub refines its specification.  For every interleaving of
    peer events and user commands shorter than the range of the key counter,
    the hub never panics, its invariant holds, the connected peers with their
    epochs, channels and subscriptions are those of the abstract map, and every
    publish sends exactly one copy to each connected peer with a subscribed
    prefix of the topic (a close, one command to each connected peer), up to
    the order of the sends. *)
Theorem pubsub_hub_refines (ins : list hub_input) :
  len ins < u64_max ->
  exists outs h, hub_run hub_new ins = Some (outs, h) /\ hub_wf h /\
    Forall2 (≡ₚ) outs (live_run ∅ ins).1 /\ abs h = (live_run ∅ ins).2.
Proof.
  intros Hb. assert (H0 : abs hub_new = ∅) by (apply map_eq; intros r; by rewrite lookup_abs).
  rewrite <- H0. apply hub_run_refines; [apply hub_new_wf|]. cbn [next_key hub_new]. lia.
Qed.

Lemma pubsub_hub_refines_witness :
  let ins := [HEvent (PSPeerUp (ascii_bytes "s1") 1 7); HEvent (PSSubscribe (ascii_bytes "s1") (ascii_bytes "A"));
              HUser (Publish [ascii_bytes "AB"; ascii_bytes "body"])] in
  exists outs h, hub_run hub_new ins = Some (outs, h) /\ hub_wf h /\
    Forall2 (≡ₚ) outs [[]; []; [(7%nat, SendBody [ascii_bytes "AB"; ascii_bytes "body"])]].
Proof.
  cbn zeta. set (ins := [_; _; _]).
  destruct (pubsub_hub_refines ins) as (outs & h & Hrun & Hwf & Houts & _); [vm_compute; reflexivity|].
  exists outs, h. split; [exact Hrun|]. split; [exact Hwf|].
  assert (Hspec : (live_run ∅ ins).1 = [[]; []; [(7%nat, SendBody [ascii_bytes "AB"; ascii_bytes "body"])]])
    by (vm_compute; reflexivity).
  rewrite <- Hspec. exact Houts.
Defined.

Lemma live_down_stale m rid e epoch tx pre :
  m !! rid = Some (mk_live epoch tx pre) -> e <> epoch -> live_step m (PSPeerDown rid e) = m.
Proof. intros Hm He. cbn. rewrite Hm. cbn. by rewrite (proj2 (Z.eqb_neq _ _)) by done. Qed.

(** No ghost-peer removal.  When a peer has reconnected (a later PeerUp
    with a new epoch), the late PeerDown of its previous connection changes
    neither its registration nor its subscriptions, while the PeerDown of the
    current epoch removes both, and a message published afterwards does not
    reach it under that identity. *)
Theorem stale_peer_down_ignored (h : PubSubHub) (rid : bytes) (epoch old : Z) (tx : Sender) :
  hub_wf h -> next_key h < u64_max -> old <> epoch ->
  exists h1, on_hub_event h (PSPeerUp rid epoch tx) = Some h1 /\
    (exists h2, on_hub_event h1 (PSPeerDown rid old) = Some h2 /\ abs h2 = abs h1 /\
       exists p, abs h2 !! rid = Some p /\ lp_epoch p = epoch /\ lp_tx p = tx) /\
    (exists h3, on_hub_event h1 (PSPeerDown rid epoch) = Some h3 /\ abs h3 = delete rid (abs h1) /\
       forall k, rid_to_key h3 !! rid = Some k -> forall topic, k ∉ match_topic (hub_index h3) topic).
Proof.
  intros Hwf Hb Hne. destruct (peer_up_refines h Hwf rid epoch tx Hb) as (h1 & Hup & Hwf1 & Habs1 & _).
  exists h1. split; [done|]. cbn [live_step] in Habs1.
  assert (Hrid : abs h1 !! rid = Some (mk_live epoch tx (from_option lp_prefixes ∅ (abs h !! rid))))
    by (by rewrite Habs1, lookup_insert_eq).
  split.
  - destruct (peer_down_refines h1 Hwf1 rid old) as (h2 & Hd & Hwf2 & Habs2 & _). exists h2.
    rewrite (live_down_stale _ _ _ _ _ _ Hrid Hne) in Habs2. rewrite Habs2. eauto 10.
  - destruct (peer_down_refines h1 Hwf1 rid epoch) as (h3 & Hd & Hwf3 & Habs3 & _). exists h3. split; [done|].
    cbn [live_step] in Habs3. rewrite Hrid in Habs3. cbn [lp_epoch] in Habs3. rewrite Z.eqb_refl in Habs3.
    split; [done|]. intros k Hk topic (pre & Hin & _)%(match_topic_elem _ _ _ (hw_index h3 Hwf3)).
    destruct (hw_pairs h3 Hwf3 k pre Hin) as [[e t] Hp].
    assert (Hgone : abs h3 !! rid = None) by (by rewrite Habs3, lookup_delete_eq).
    rewrite lookup_abs, Hk in Hgone. cbn in Hgone. unfold live_of in Hgone. by rewrite Hp in Hgone.
Qed.

Lemma stale_peer_down_ignored_witness :
  exists h1, on_hub_event hub_new (PSPeerUp (ascii_bytes "s") 2 9) = Some h1 /\
    exists h2, on_hub_event h1 (PSPeerDown (ascii_bytes "s") 1) = Some h2 /\ abs h2 = abs h1.
Proof.
  destruct (stale_peer_down_ignored hub_new (ascii_bytes "s") 2 1 9) as (h1 & H1 & (h2 & H2 & H3 & _) & _).
  - exact hub_new_wf.
  - vm_compute. reflexivity.
  - discriminate.
  - exists h1. split; [exact H1|]. exists h2. split; [exact H2|exact H3].
Defined.
