(* ===== verification/Backpressure.v ===== *)
(** * Byte-based backpressure

    [SemaphorePermits] of monocoque-core/src/backpressure.rs: a counting
    semaphore whose critical sections run under one mutex.  Each critical
    section is one step of [sem_step]; a task is one call of [acquire] with the
    permit it returns.  The two halves of a permit's [Drop] (the release under
    the lock and the [notify_all] after it) are separate steps, so every
    interleaving of releases, claims, parks and wake-ups is covered; [cancel]
    is the drop of an [acquire] future whose blocking closure is still waiting. *)

From S2P Require Import Prelude.

Record SemInner := mk_sem {
  available : Z;
  max_bytes : Z;
}.

Definition sem_new (max : Z) : SemInner := mk_sem max max.

(** [n_bytes.min(guard.max_bytes)]. *)
Definition claim_of (s : SemInner) (n : Z) : Z := Z.min n (max_bytes s).

(** The claim under the lock, when there is room for it. *)
Definition try_claim (s : SemInner) (n : Z) : option SemInner :=
  if claim_of s n <=? available s then Some (mk_sem (available s - claim_of s n) (max_bytes s)) else None.

(** [Drop for Permit], the part under the lock. *)
Definition release (s : SemInner) (n : Z) : SemInner := mk_sem (available s + n) (max_bytes s).

Inductive task :=
| TNoop                  (** holds a no-op permit *)
| TSlow (n : Z)          (** its closure is about to check the capacity *)
| TParked (n : Z)        (** its closure waits on the condition variable *)
| THeld (claim : Z)      (** holds a permit *)
| TNotify                (** has released, not yet notified *)
| TOrphan (n : Z)        (** cancelled; its closure is about to check the capacity *)
| TOrphanParked (n : Z)  (** cancelled; its closure waits *)
| TLeaked (claim : Z)    (** cancelled; its closure has claimed *)
| TDone.

(** [condvar.notify_all()]. *)
Definition wake (t : task) : task :=
  match t with
  | TParked n => TSlow n
  | TOrphanParked n => TOrphan n
  | t => t
  end.

Definition system : Type := SemInner * list task.

Inductive sem_step : system -> system -> Prop :=
| acquire_zero s ts : sem_step (s, ts) (s, ts ++ [TNoop])
| acquire_fast s ts n s' :
    0 < n -> try_claim s n = Some s' -> sem_step (s, ts) (s', ts ++ [THeld (claim_of s n)])
| acquire_slow s ts n :
    0 < n -> sem_step (s, ts) (s, ts ++ [TSlow n])
| slow_claim s ts i n s' :
    ts !! i = Some (TSlow n) -> try_claim s n = Some s' ->
    sem_step (s, ts) (s', <[i := THeld (claim_of s n)]> ts)
| slow_park s ts i n :
    ts !! i = Some (TSlow n) -> try_claim s n = None -> sem_step (s, ts) (s, <[i := TParked n]> ts)
| drop_release s ts i c :
    ts !! i = Some (THeld c) -> sem_step (s, ts) (release s c, <[i := TNotify]> ts)
| drop_notify s ts i :
    ts !! i = Some TNotify -> sem_step (s, ts) (s, wake <$> <[i := TDone]> ts)
| drop_noop s ts i :
    ts !! i = Some TNoop -> sem_step (s, ts) (s, <[i := TDone]> ts)
| cancel_slow s ts i n :
    ts !! i = Some (TSlow n) -> sem_step (s, ts) (s, <[i := TOrphan n]> ts)
| cancel_parked s ts i n :
    ts !! i = Some (TParked n) -> sem_step (s, ts) (s, <[i := TOrphanParked n]> ts)
| orphan_claim s ts i n s' :
    ts !! i = Some (TOrphan n) -> try_claim s n = Some s' ->
    sem_step (s, ts) (s', <[i := TLeaked (claim_of s n)]> ts)
| orphan_park s ts i n :
    ts !! i = Some (TOrphan n) -> try_claim s n = None -> sem_step (s, ts) (s, <[i := TOrphanParked n]> ts).

Definition reachable (max : Z) (sys : system) : Prop := rtc sem_step (sem_new max, []) sys.

(** ** Invariant *)

(** Bytes a task has taken from the semaphore. *)
Definition taken (t : task) : Z := match t with THeld c | TLeaked c => c | _ => 0 end.

Definition leaked (t : task) : Z := match t with TLeaked c => c | _ => 0 end.

Fixpoint total (f : task -> Z) (ts : list task) : Z :=
  match ts with [] => 0 | t :: ts => f t + total f ts end.

Definition task_ok (max : Z) (t : task) : Prop :=
  match t with
  | TSlow n | TParked n | TOrphan n | TOrphanParked n => 0 < n
  | THeld c | TLeaked c => 0 <= c <= max
  | _ => True
  end.

Definition waiting (t : task) : option Z := match t with TParked n | TOrphanParked n => Some n | _ => None end.

(** Nothing is lost or made up; a parked task has too little room or is about
    to be notified. *)
Record sem_ok (max : Z) (sys : system) : Prop := {
  so_max : max_bytes sys.1 = max;
  so_sum : available sys.1 + total taken sys.2 = max;
  so_avail : 0 <= available sys.1;
  so_tasks : Forall (task_ok max) sys.2;
  so_wait : forall t n, t ∈ sys.2 -> waiting t = Some n ->
    available sys.1 < Z.min n max \/ TNotify ∈ sys.2;
}.

Lemma total_app f ts ts' : total f (ts ++ ts') = total f ts + total f ts'.
Proof. induction ts as [|t ts IH]; cbn [total app]; lia. Qed.

Lemma total_insert f ts i t t' :
  ts !! i = Some t -> total f (<[i := t']> ts) = total f ts - f t + f t'.
Proof.
  intros Hi. pose proof (lookup_lt_Some _ _ _ Hi). rewrite <- (take_drop_middle ts i t Hi) at 2.
  rewrite insert_take_drop by done. rewrite !total_app. cbn [total]. lia.
Qed.

Lemma total_nonneg ts max : Forall (task_ok max) ts -> 0 <= total taken ts.
Proof. induction 1 as [|t ts Ht _ IH]; [done|]. cbn [total]. destruct t; cbn [taken task_ok] in *; lia. Qed.

Lemma total_wake f ts : (forall t, f (wake t) = f t) -> total f (wake <$> ts) = total f ts.
Proof. intros H. induction ts as [|t ts IH]; [done|]. rewrite fmap_cons. cbn [total]. rewrite H. lia. Qed.

Lemma try_claim_Some s n s' :
  try_claim s n = Some s' ->
  claim_of s n <= available s /\ available s' = available s - claim_of s n /\ max_bytes s' = max_bytes s.
Proof. unfold try_claim. destruct (_ <=? _) eqn:E; [|done]. intros [= <-]. bool_prop. done. Qed.

Lemma try_claim_None s n : try_claim s n = None -> available s < claim_of s n.
Proof. unfold try_claim. destruct (_ <=? _) eqn:E; [done|]. bool_prop. done. Qed.

(** A step that adds a task which does not wait. *)
Lemma sem_ok_add max s s' ts t :
  sem_ok max (s, ts) -> max_bytes s' = max -> available s' = available s - taken t -> 0 <= available s' ->
  0 <= taken t -> task_ok max t -> waiting t = None -> sem_ok max (s', ts ++ [t]).
Proof.
  intros [H1 H2 H3 H4 H5] Hm Ha Hp Ht Hok Hw. cbn in *. split; cbn; try done.
  - rewrite total_app. cbn [total]. lia.
  - apply list.Forall_app. by split; [|repeat constructor].
  - intros t' n [Hin|Hin%list_elem_of_singleton]%elem_of_app Hn; [|congruence].
    destruct (H5 t' n Hin Hn) as [?|?]; [left; lia|right; set_solver].
Qed.

(** A step that changes one task without releasing anything. *)
Lemma sem_ok_update max s s' ts i t0 t :
  sem_ok max (s, ts) -> ts !! i = Some t0 -> t0 <> TNotify -> max_bytes s' = max ->
  available s' = available s + taken t0 - taken t -> 0 <= available s' <= available s ->
  task_ok max t -> (forall n, waiting t = Some n -> available s' < Z.min n max \/ TNotify ∈ ts) ->
  sem_ok max (s', <[i := t]> ts).
Proof.
  intros [H1 H2 H3 H4 H5] Hi Hnn Hm Ha Hp Hok Hw. cbn in *.
  pose proof (lookup_lt_Some _ _ _ Hi) as Hlt.
  assert (Hnot : TNotify ∈ ts -> TNotify ∈ <[i := t]> ts).
  { intros [j Hj]%list_elem_of_lookup_1. apply list_elem_of_lookup_2 with j.
    rewrite list_lookup_insert_ne; [done|]. intros ->. congruence. }
  split; cbn; try done; try lia.
  - rewrite (total_insert _ _ _ t0) by done. lia.
  - by apply Forall_insert.
  - intros t' n [j Hj]%list_elem_of_lookup_1 Hn.
    destruct (decide (i = j)) as [<-|Hne].
    + rewrite list_lookup_insert_eq in Hj by done. simplify_eq. destruct (Hw n Hn) as [?|?]; [by left|right; auto].
    + rewrite list_lookup_insert_ne in Hj by done. apply list_elem_of_lookup_2 in Hj.
      destruct (H5 t' n Hj Hn) as [?|?]; [left; lia|right; auto].
Qed.

Lemma wake_elem (ts : list task) t n : t ∈ wake <$> ts -> waiting t = Some n -> False.
Proof. intros (t0 & -> & _)%list_elem_of_fmap. by destruct t0. Qed.

Lemma sem_step_ok max sys sys' : 0 <= max -> sem_step sys sys' -> sem_ok max sys -> sem_ok max sys'.
Proof.
  intros Hmax Hstep Hok. pose proof Hok as [Hm Hsum Hav Htasks Hwait].
  assert (Hclaim : forall s n, max_bytes s = max -> 0 < n -> 0 <= claim_of s n <= max)
    by (unfold claim_of; intros s n -> ?; lia).
  assert (Htask : forall i t, sys.2 !! i = Some t -> task_ok max t)
    by (intros i t Hi; by eapply list.Forall_lookup_1).
  destruct Hstep as [s ts|s ts n s' Hn Hc|s ts n Hn|s ts i n s' Hi Hc|s ts i n Hi Hc|s ts i c Hi|s ts i Hi|s ts i Hi
    |s ts i n Hi|s ts i n Hi|s ts i n s' Hi Hc|s ts i n Hi Hc]; cbn [fst snd] in *;
    try pose proof (Htask i _ Hi) as Hti; cbn [task_ok] in *;
    try (apply try_claim_Some in Hc as (Hc & Ha & Hm')); try apply try_claim_None in Hc.
  - apply (sem_ok_add max s); done || (cbn; lia).
  - pose proof (Hclaim s n Hm Hn). apply (sem_ok_add max s); done || (cbn; lia).
  - apply (sem_ok_add max s); done || (cbn; lia).
  - pose proof (Hclaim s n Hm Hti). apply (sem_ok_update max s _ _ _ (TSlow n)); done || (cbn; lia).
  - apply (sem_ok_update max s _ _ _ (TSlow n)); try done; try (cbn; lia).
    intros n' [= <-]. left. unfold claim_of in Hc. rewrite Hm in Hc. lia.
  - split; cbn; try done; try lia.
    + rewrite (total_insert _ _ _ (THeld c)) by done. cbn. lia.
    + by apply Forall_insert.
    + intros t n _ _. right. apply list_elem_of_lookup_2 with i. apply list_lookup_insert_eq. by eapply lookup_lt_Some.
  - split; cbn; try done; try lia.
    + rewrite total_wake by (by intros []). rewrite (total_insert _ _ _ TNotify) by done. cbn. lia.
    + apply list.Forall_fmap. eapply list.Forall_impl; [by apply Forall_insert|]. by intros [].
    + intros t n Hin Hn. by destruct (wake_elem _ _ _ Hin Hn).
  - apply (sem_ok_update max s _ _ _ TNoop); done || (cbn; lia).
  - apply (sem_ok_update max s _ _ _ (TSlow n)); done || (cbn; lia).
  - apply (sem_ok_update max s _ _ _ (TParked n)); try done; try (cbn; lia).
    intros n' [= <-]. apply (Hwait (TParked n)); [by eapply list_elem_of_lookup_2|done].
  - pose proof (Hclaim s n Hm Hti). apply (sem_ok_update max s _ _ _ (TOrphan n)); done || (cbn; lia).
  - apply (sem_ok_update max s _ _ _ (TOrphan n)); try done; try (cbn; lia).
    intros n' [= <-]. left. unfold claim_of in Hc. rewrite Hm in Hc. lia.
Qed.

Lemma reachable_ok max sys : 0 <= max -> reachable max sys -> sem_ok max sys.
Proof.
  intros Hmax Hr. unfold reachable in Hr.
  assert (H0 : sem_ok max (sem_new max, [])).
  { split; cbn; try done; try lia. intros t n Hin. by apply elem_of_nil in Hin. }
  induction Hr as [|x y z Hs _ IH]; [done|]. apply IH. by eapply sem_step_ok.
Qed.

(** ** Properties *)

Lemma taken_held ts max :
  Forall (task_ok max) ts -> (forall c, THeld c ∉ ts) -> (forall c, TLeaked c ∉ ts) -> total taken ts = 0.
Proof.
  induction 1 as [|t ts _ _ IH]; intros Hh Hl; [done|]. cbn [total].
  assert (taken t = 0) as ->.
  { destruct t; try done; [destruct (Hh claim)|destruct (Hl claim)]; left. }
  rewrite IH; [done|intros c Hc; apply (Hh c); by right|intros c Hc; apply (Hl c); by right].
Qed.

(** C37: conservation.  In every interleaving of acquires, releases, wake-ups
    and cancellations the capacity still available plus the bytes claimed is
    exactly the configured maximum, so the counter neither underflows on a
    claim nor exceeds the maximum on a release, and no permit is larger than
    the maximum however many bytes were asked for. *)
Theorem permits_conserved (max : Z) (s : SemInner) (ts : list task) :
  0 <= max -> reachable max (s, ts) ->
  available s + total taken ts = max /\ 0 <= available s <= max /\ max_bytes s = max /\
  (forall c, THeld c ∈ ts -> 0 <= c <= max).
Proof.
  intros Hmax [Hm Hsum Hav Ht _]%reachable_ok; [|done]. cbn in *. pose proof (total_nonneg _ _ Ht).
  split_and!; try done; try lia; intros c Hc; rewrite list.Forall_forall in Ht; by apply (Ht (THeld c)).
Qed.

Lemma permits_conserved_witness :
  available (mk_sem 3 10) + total taken [THeld 7] = 10.
Proof.
  apply (permits_conserved 10 (mk_sem 3 10) [THeld 7]).
  - vm_compute. discriminate.
  - apply rtc_once. apply (acquire_fast (sem_new 10) [] 7); reflexivity.
Defined.

(** C38: no lost wake-up and no deadlock, oversized acquires included.  Once
    every permit has been released and the releases have notified, no acquire
    is left parked and every acquire still pending can claim at once (unless
    the closure of a cancelled acquire has taken capacity). *)
Theorem acquire_no_deadlock (max : Z) (s : SemInner) (ts : list task) :
  0 <= max -> reachable max (s, ts) ->
  (forall c, THeld c ∉ ts) -> TNotify ∉ ts -> (forall c, TLeaked c ∉ ts) ->
  (forall t, t ∈ ts -> waiting t = None) /\
  (forall i n, ts !! i = Some (TSlow n) -> exists s', try_claim s n = Some s').
Proof.
  intros Hmax Hr Hh Hn Hl. destruct (reachable_ok max (s, ts) Hmax Hr) as [Hm Hsum Hav Ht Hw]. cbn in *.
  rewrite (taken_held _ _ Ht Hh Hl) in Hsum. split.
  - intros t Hin. destruct (waiting t) as [n|] eqn:E; [|done].
    destruct (Hw t n Hin E) as [?|?]; [lia|done].
  - intros i n _. unfold try_claim, claim_of. rewrite (proj2 (Z.leb_le _ _)) by lia. eauto.
Qed.

Lemma acquire_no_deadlock_witness :
  exists s', try_claim (mk_sem 10 10) 50 = Some s'.
Proof.
  apply (acquire_no_deadlock 10 (mk_sem 10 10) [TSlow 50]) with (i := 0%nat).
  - vm_compute. discriminate.
  - apply rtc_once. apply (acquire_slow (sem_new 10) [] 50). reflexivity.
  - intros c Hc. apply list_elem_of_singleton in Hc. discriminate.
  - intros Hc. apply list_elem_of_singleton in Hc. discriminate.
  - intros c Hc. apply list_elem_of_singleton in Hc. discriminate.
  - reflexivity.
Defined.

Lemma leaked_mono max sys sys' :
  0 <= max -> sem_ok max sys -> sem_step sys sys' -> total leaked sys.2 <= total leaked sys'.2.
Proof.
  intros Hmax [Hm _ _ Ht _] Hstep. destruct Hstep as [s ts|s ts n s' Hn Hc|s ts n Hn|s ts i n s' Hi Hc|s ts i n Hi Hc
    |s ts i c Hi|s ts i Hi|s ts i Hi|s ts i n Hi|s ts i n Hi|s ts i n s' Hi Hc|s ts i n Hi Hc]; cbn [fst snd] in *;
    rewrite ?total_wake by (by intros []); rewrite ?total_app;
    try (rewrite (total_insert _ _ _ _ _ Hi)); cbn [leaked total]; try lia.
  pose proof (list.Forall_lookup_1 _ _ _ _ Ht Hi) as Hn. cbn in Hn. unfold claim_of. lia.
Qed.

Lemma leaked_taken ts max : Forall (task_ok max) ts -> total leaked ts <= total taken ts.
Proof. induction 1 as [|t ts Ht _ IH]; [done|]. cbn [total]. destruct t; cbn [leaked taken task_ok] in *; lia. Qed.

Lemma leak_exhausts max sys sys' :
  0 <= max -> sem_ok max sys -> total leaked sys.2 = max -> rtc sem_step sys sys' -> available sys'.1 = 0.
Proof.
  intros Hmax Hok Hl Hr.
  assert (H : sem_ok max sys' /\ max <= total leaked sys'.2).
  { assert (H0 : max <= total leaked sys.2) by lia. clear Hl.
    induction Hr as [|x y z Hs _ IH]; [done|].
    apply IH; [by eapply sem_step_ok|]. pose proof (leaked_mono max x y Hmax Hok Hs). lia. }
  destruct H as [[Hm Hsum Hav Ht _] Hl']. pose proof (leaked_taken _ _ Ht). lia.
Qed.

(** The interleaving of the leak: a full-capacity permit is held, a second
    acquire parks and is cancelled, the permit is released. *)
Definition leaky_tasks : list task := [TDone; TLeaked 10].

Lemma leak_reachable : reachable 10 (mk_sem 0 10, leaky_tasks).
Proof.
  unfold reachable.
  eapply rtc_l; [apply (acquire_fast (sem_new 10) [] 10); reflexivity|].
  eapply rtc_l; [apply (acquire_slow _ _ 10); reflexivity|].
  eapply rtc_l; [apply (slow_park _ _ 1 10); reflexivity|].
  eapply rtc_l; [apply (cancel_parked _ _ 1 10); reflexivity|].
  eapply rtc_l; [apply (drop_release _ _ 0 10); reflexivity|].
  eapply rtc_l; [apply (drop_notify _ _ 0); reflexivity|].
  eapply rtc_l; [apply (orphan_claim _ _ 1 10); reflexivity|].
  apply rtc_refl.
Qed.

(** A cancelled acquire can take the capacity for good.  An acquire whose
    future is dropped while its closure waits still claims when room appears,
    but no permit is ever built to give the bytes back: there is a reachable
    state with no permit held and no release pending from which every later
    acquire, however small and whatever happens, finds no capacity. *)
Theorem cancelled_acquire_leaks :
  reachable 10 (mk_sem 0 10, leaky_tasks) /\ (forall c, THeld c ∉ leaky_tasks) /\ (TNotify ∉ leaky_tasks) /\
  (forall s ts n, rtc sem_step (mk_sem 0 10, leaky_tasks) (s, ts) -> 0 < n -> try_claim s n = None).
Proof.
  assert (Hok : sem_ok 10 (mk_sem 0 10, leaky_tasks)) by (apply reachable_ok; [lia|apply leak_reachable]).
  split; [apply leak_reachable|]. split; [unfold leaky_tasks; intros c; set_solver|].
  split; [unfold leaky_tasks; set_solver|]. intros s ts n Hr Hn.
  pose proof (leak_exhausts 10 _ _ ltac:(lia) Hok eq_refl Hr) as Ha. cbn in Ha.
  assert (Hm : max_bytes s = 10).
  { apply (so_max 10 (s, ts)). apply reachable_ok; [lia|]. unfold reachable. etrans; [apply leak_reachable|done]. }
  unfold try_claim, claim_of. rewrite Ha, Hm. rewrite (proj2 (Z.leb_gt _ _)) by lia. done.
Qed.
