(* ===== verification/CurveMessage.v ===== *)
(** * CURVE message encryption

    [CurveMessageCipher] of monocoque-zmtp/src/security/curve.rs: the
    post-handshake cipher that turns each data frame into a CURVE MESSAGE
    command, with its nonce counters and replay check.

    The AEAD itself (XChaCha20-Poly1305) is not part of the repository: [Aead]
    is its interface, an argument of every definition that encrypts. *)

From S2P Require Import Prelude.
From S2P Require Import Options.

(** [CurveBox]: encryption and decryption with a 24-byte nonce; [None] is the
    error of the library. *)
Class Aead (K : Type) := {
  aead_encrypt : K -> bytes -> bytes -> option bytes;
  aead_decrypt : K -> bytes -> bytes -> option bytes;
}.

Inductive CurveError :=
| EncryptionFailed
| DecryptionFailed
| InvalidKeySize
| InvalidNonce
| ProtocolViolation
| CurveAuthenticationFailed
| CurveIo (e : ErrorKind).

Definition CURVE_MESSAGE : bytes := [u8 7] ++ ascii_bytes "MESSAGE".
Definition CURVE_MESSAGE_NONCE_SIZE : Z := 8.

Record CurveMessageParts := mk_parts {
  short_nonce : bytes;
  ciphertext : bytes;
}.

Definition parse_curve_message (message : bytes) : result CurveError CurveMessageParts :=
  let command_len := len CURVE_MESSAGE in
  if len message <? command_len + CURVE_MESSAGE_NONCE_SIZE then Err ProtocolViolation
  else if negb (bool_decide (ztake command_len message = CURVE_MESSAGE)) then Err ProtocolViolation
  else Ok (mk_parts (ztake CURVE_MESSAGE_NONCE_SIZE (zdrop command_len message))
                    (zdrop (command_len + CURVE_MESSAGE_NONCE_SIZE) message)).

Section cipher.
Context {K : Type} `{Aead K}.

Record CurveMessageCipher := mk_cipher {
  cipher : K;
  send_nonce : Z;
  recv_nonce : Z;
  is_client : bool;
}.

Definition is_curve_message (bs : bytes) : bool := starts_with bs CURVE_MESSAGE.

Definition nonce_prefix (client : bool) : bytes :=
  if client then ascii_bytes "CurveZMQMESSAGEC" else ascii_bytes "CurveZMQMESSAGES".

(** [checked_add(1)] on the [u64] counters. *)
Definition next_nonce (n : Z) : option Z := if n + 1 <=? u64_max then Some (n + 1) else None.

(** The new cipher state is returned on errors too: the counter is bumped
    before the encryption. *)
Definition encrypt_frame (c : CurveMessageCipher) (payload : bytes) (more : bool)
    : result CurveError bytes * CurveMessageCipher :=
  let short := be_bytes 8 (send_nonce c) in
  let nonce := nonce_prefix (is_client c) ++ short in
  match next_nonce (send_nonce c) with
  | None => (Err ProtocolViolation, c)
  | Some n =>
      let c := mk_cipher (cipher c) n (recv_nonce c) (is_client c) in
      let pt := [if more then u8 1 else u8 0] ++ payload in
      match aead_encrypt (cipher c) nonce pt with
      | None => (Err EncryptionFailed, c)
      | Some ct => (Ok (CURVE_MESSAGE ++ short ++ ct), c)
      end
  end.

Definition decrypt_frame (c : CurveMessageCipher) (cmd_body : bytes)
    : result CurveError (bool * bytes) * CurveMessageCipher :=
  match parse_curve_message cmd_body with
  | Err e => (Err e, c)
  | Ok parts =>
      let counter := be_val (short_nonce parts) in
      if counter <? recv_nonce c then (Err ProtocolViolation, c)
      else match next_nonce counter with
      | None => (Err ProtocolViolation, c)
      | Some n =>
          let c := mk_cipher (cipher c) (send_nonce c) n (is_client c) in
          let nonce := nonce_prefix (negb (is_client c)) ++ short_nonce parts in
          match aead_decrypt (cipher c) nonce (ciphertext parts) with
          | None => (Err DecryptionFailed, c)
          | Some [] => (Err ProtocolViolation, c)
          | Some (fl :: body) => (Ok (negb (Z.land (u8_val fl) 0x01 =? 0), body), c)
          end
      end
  end.
End cipher.

#[global] Arguments CurveMessageCipher : clear implicits.
#[global] Arguments CURVE_MESSAGE : simpl never.

(** For sockets without encryption, which have no key. *)
#[export] Instance no_aead : Aead unit := {| aead_encrypt _ _ _ := None; aead_decrypt _ _ _ := None |}.

(** ** Properties *)

Section properties.
Context {K : Type} `{Aead K}.

Implicit Types (c : CurveMessageCipher K).

(** What an AEAD guarantees to the honest receiver. *)
Hypothesis aead_correct : forall k nonce pt ct,
  aead_encrypt k nonce pt = Some ct -> aead_decrypt k nonce ct = Some pt.

Lemma parse_curve_message_app short ct :
  len short = 8 -> parse_curve_message (CURVE_MESSAGE ++ short ++ ct) = Ok (mk_parts short ct).
Proof using.
  intros Hs. unfold parse_curve_message, CURVE_MESSAGE_NONCE_SIZE.
  pose proof (len_nonneg ct). set (n := len CURVE_MESSAGE).
  rewrite (proj2 (Z.ltb_ge _ _)) by (rewrite !len_app; fold n; lia).
  rewrite ztake_app_le, ztake_ge by (unfold n; lia). rewrite bool_decide_eq_true_2 by done. cbn [negb].
  f_equal. f_equal.
  - rewrite zdrop_app_ge by (unfold n; lia). fold n. rewrite Z.sub_diag, zdrop_0.
    by rewrite ztake_app_le, ztake_ge by lia.
  - rewrite zdrop_app_ge by (unfold n; lia). fold n. replace (n + 8 - n) with 8 by lia.
    rewrite zdrop_app_ge by lia. replace (8 - len short) with 0 by lia. apply zdrop_0.
Qed.

(** Two ends of a connection: same key, opposite roles, and the receiver
    expects no counter beyond the sender's. *)
Definition paired (snd rcv : CurveMessageCipher K) : Prop :=
  cipher snd = cipher rcv /\ is_client snd = negb (is_client rcv) /\
  recv_nonce rcv <= send_nonce snd /\ 0 <= send_nonce snd.

Lemma frame_roundtrip s rcv payload more body s' :
  paired s rcv -> encrypt_frame s payload more = (Ok body, s') ->
  is_curve_message body = true /\ send_nonce s' = send_nonce s + 1 /\
  exists rcv', decrypt_frame rcv body = (Ok (more, payload), rcv') /\ paired s' rcv' /\
    recv_nonce rcv' = send_nonce s + 1.
Proof using aead_correct.
  intros (Hk & Hr & Hn & Hp). unfold encrypt_frame, next_nonce.
  destruct (send_nonce s + 1 <=? u64_max) eqn:E; [|done]. cbn [cipher].
  destruct (aead_encrypt _ _ _) as [ct|] eqn:Ec; [|done]. intros Heq.
  pose proof (f_equal fst Heq) as Hbody. pose proof (f_equal snd Heq) as Hsnd. clear Heq.
  cbn [fst snd] in Hbody, Hsnd. apply (inj Ok) in Hbody. subst body s'.
  split; [apply starts_with_app|]. split; [done|]. bool_prop.
  unfold decrypt_frame. rewrite parse_curve_message_app by (rewrite len_be_bytes; done).
  cbn [short_nonce ciphertext].
  rewrite be_val_be_bytes by (change (256 ^ Z.of_nat 8) with (2 ^ 64); unfold u64_max in E; lia).
  rewrite (proj2 (Z.ltb_ge _ _)) by done. unfold next_nonce. rewrite (proj2 (Z.leb_le _ _)) by done.
  cbn [cipher is_client]. rewrite <- Hk, <- Hr. rewrite (aead_correct _ _ _ _ Ec). cbn [app].
  eexists. split; [destruct more; reflexivity|]. split; [|done]. unfold paired. cbn. rewrite Hr. split_and!; done || lia.
Qed.

(** The frames of a conversation, encrypted in order. *)
Fixpoint encrypt_all c (frames : list (bool * bytes)) : option (list bytes * CurveMessageCipher K) :=
  match frames with
  | [] => Some ([], c)
  | (m, p) :: frames =>
      match encrypt_frame c p m with
      | (Ok body, c) => '(bodies, c) ← encrypt_all c frames; Some (body :: bodies, c)
      | (Err _, _) => None
      end
  end.

Fixpoint decrypt_all c (bodies : list bytes) : option (list (bool * bytes) * CurveMessageCipher K) :=
  match bodies with
  | [] => Some ([], c)
  | b :: bodies =>
      match decrypt_frame c b with
      | (Ok f, c) => '(fs, c) ← decrypt_all c bodies; Some (f :: fs, c)
      | (Err _, _) => None
      end
  end.

Lemma stream_roundtrip frames snd rcv bodies snd' :
  paired snd rcv -> encrypt_all snd frames = Some (bodies, snd') ->
  exists rcv', decrypt_all rcv bodies = Some (frames, rcv') /\ paired snd' rcv'.
Proof using aead_correct.
  revert snd rcv bodies. induction frames as [|[m p] frames IH]; intros snd rcv bodies Hp; cbn [encrypt_all].
  { intros [= <- <-]. eauto. }
  destruct (encrypt_frame snd p m) as [[body|e] snd1] eqn:E; [|done].
  destruct (frame_roundtrip snd rcv p m body snd1 Hp E) as (_ & _ & rcv1 & Hd & Hp1 & _).
  destruct (encrypt_all snd1 frames) as [[bodies1 snd2]|] eqn:E1; [|done]. cbn. intros [= <- <-].
  destruct (IH snd1 rcv1 bodies1 Hp1 E1) as (rcv2 & Hd2 & Hp2). cbn [decrypt_all]. rewrite Hd, Hd2. cbn. eauto.
Qed.
End properties.

(** CURVE round trip.  With an AEAD that decrypts what it encrypted, the
    frames one end encrypts (any payloads, any MORE flags, any length of
    conversation until the counter is exhausted) are all accepted in order by
    the other end, which reads back the same MORE flags and payloads. *)
Theorem curve_stream_roundtrip {K : Type} `{Aead K} (frames : list (bool * bytes))
    (snd rcv snd' : CurveMessageCipher K) (bodies : list bytes) :
  (forall k nonce pt ct, aead_encrypt k nonce pt = Some ct -> aead_decrypt k nonce ct = Some pt) ->
  paired snd rcv -> encrypt_all snd frames = Some (bodies, snd') ->
  exists rcv', decrypt_all rcv bodies = Some (frames, rcv') /\ paired snd' rcv'.
Proof. intros Ha. by apply stream_roundtrip. Qed.

(** A toy AEAD, to run the definitions: the nonce and the key in front. *)
#[local] Instance toy_aead : Aead bytes := {
  aead_encrypt k nonce pt := Some (k ++ nonce ++ pt);
  aead_decrypt k nonce ct :=
    if starts_with ct (k ++ nonce) then Some (zdrop (len (k ++ nonce)) ct) else None;
}.

Lemma toy_aead_correct (k nonce pt ct : bytes) :
  aead_encrypt k nonce pt = Some ct -> aead_decrypt k nonce ct = Some pt.
Proof.
  cbn. intros [= <-]. rewrite app_assoc, starts_with_app.
  rewrite zdrop_app_ge, Z.sub_diag, zdrop_0 by lia. done.
Qed.

Definition toy_sender : CurveMessageCipher bytes := mk_cipher (ascii_bytes "key") 3 1 true.
Definition toy_receiver : CurveMessageCipher bytes := mk_cipher (ascii_bytes "key") 1 2 false.
Definition toy_frames : list (bool * bytes) := [(true, ascii_bytes "a"); (false, ascii_bytes "b")].

Lemma curve_stream_roundtrip_witness :
  exists bodies rcv', decrypt_all toy_receiver bodies = Some (toy_frames, rcv').
Proof.
  destruct (encrypt_all toy_sender toy_frames) as [[bodies snd']|] eqn:E; [|vm_compute in E; discriminate].
  destruct (curve_stream_roundtrip toy_frames toy_sender toy_receiver snd' bodies toy_aead_correct) as (rcv' & Hd & _).
  - vm_compute. split_and!; congruence.
  - exact E.
  - exists bodies, rcv'. exact Hd.
Defined.

Lemma decrypt_frame_counter {K} `{Aead K} (c c' : CurveMessageCipher K) body f :
  decrypt_frame c body = (Ok f, c') ->
  exists p, parse_curve_message body = Ok p /\ recv_nonce c <= be_val (short_nonce p) /\
    recv_nonce c' = be_val (short_nonce p) + 1.
Proof.
  unfold decrypt_frame. destruct (parse_curve_message body) as [p|e]; [|done].
  destruct (_ <? _) eqn:E; [done|]. unfold next_nonce. destruct (_ <=? _); [|done].
  intros Hd. exists p. bool_prop. split; [done|]. split; [done|]. cbn in Hd.
  by repeat case_match; simplify_eq.
Qed.

Lemma decrypt_frame_mono {K} `{Aead K} (c : CurveMessageCipher K) body :
  recv_nonce c <= recv_nonce (decrypt_frame c body).2.
Proof.
  unfold decrypt_frame. destruct (parse_curve_message body) as [p|e]; [|done].
  destruct (_ <? _) eqn:E; [done|]. unfold next_nonce. destruct (_ <=? _); [|done]. bool_prop.
  cbn [recv_nonce cipher]. repeat case_match; cbn; lia.
Qed.

(** The cipher after a sequence of received bodies, accepted or not. *)
Definition after {K} `{Aead K} (c : CurveMessageCipher K) (bodies : list bytes) : CurveMessageCipher K :=
  fold_left (λ c b, (decrypt_frame c b).2) bodies c.

Lemma after_mono {K} `{Aead K} bodies (c : CurveMessageCipher K) : recv_nonce c <= recv_nonce (after c bodies).
Proof.
  unfold after. revert c. induction bodies as [|b bodies IH]; intros c; cbn; [done|].
  etrans; [apply (decrypt_frame_mono c b)|apply IH].
Qed.

(** C35: replay protection.  A MESSAGE that has been accepted is refused ever
    after, whatever is received in between (forged and malformed commands
    included), and refusing it leaves the cipher unchanged. *)
Theorem curve_replay_refused {K : Type} `{Aead K} (c c1 : CurveMessageCipher K) (body : bytes)
    (f : bool * bytes) (between : list bytes) :
  decrypt_frame c body = (Ok f, c1) ->
  decrypt_frame (after c1 between) body = (Err ProtocolViolation, after c1 between).
Proof.
  intros Hd. destruct (decrypt_frame_counter c c1 body f Hd) as (p & Hp & _ & Hn).
  pose proof (after_mono between c1). unfold decrypt_frame. rewrite Hp.
  by rewrite (proj2 (Z.ltb_lt _ _)) by lia.
Qed.

Lemma curve_replay_refused_witness :
  let body := CURVE_MESSAGE ++ be_bytes 8 5 ++ ascii_bytes "key" ++ nonce_prefix true ++ be_bytes 8 5 ++ [u8 0; u8 65] in
  exists c1, decrypt_frame (mk_cipher (ascii_bytes "key") 1 1 false) body = (Ok (false, [u8 65]), c1) /\
    decrypt_frame (after c1 [ascii_bytes "junk"]) body = (Err ProtocolViolation, after c1 [ascii_bytes "junk"]).
Proof.
  cbn zeta. eexists. split; [vm_compute; reflexivity|].
  eapply (curve_replay_refused (mk_cipher (ascii_bytes "key") 1 1 false)). vm_compute. reflexivity.
Defined.
