(* ===== verification/Stream.v ===== *)
(** * Streams and asynchronous outcomes

    The transport is not part of the repository: [AsyncStream] is the interface
    of the byte streams the sockets read and write (compio's [AsyncRead],
    [AsyncWrite] and their extension traits), an argument of every definition
    that performs I/O.  [WireStream] adds what their documentation promises
    about the bytes that reach the wire.

    A stream operation completes, or stalls: nothing more happens until a timer
    fires or the future is dropped.  An asynchronous function then has returned,
    or it is pending at an await point; the state it leaves there is the state
    a cancellation leaves behind. *)

From S2P Require Import Prelude.
From S2P Require Import Options.

Inductive completion (A : Type) :=
| Completed (r : io_result A)
| Stalled.
Arguments Completed {A} _.
Arguments Stalled {A}.

Inductive outcome (A : Type) :=
| Returned (r : io_result A)
| Pending
| Panicked.
Arguments Returned {A} _.
Arguments Pending {A}.
Arguments Panicked {A}.

(** [rt::timeout(d, op)] under an optional timer: a stalled operation becomes a
    [TimedOut] error, or stays pending when there is no timer. *)
Definition with_timer {A} (t : option Z) (c : completion A) : outcome A :=
  match c with
  | Completed r => Returned r
  | Stalled => match t with Some _ => Returned (Err TimedOut) | None => Pending end
  end.

(** [?] after an [await]. *)
Definition await_bind {A B S} (x : outcome A * S) (k : A -> S -> outcome B * S) : outcome B * S :=
  match x with
  | (Returned (Ok a), s) => k a s
  | (Returned (Err e), s) => (Returned (Err e), s)
  | (Pending, s) => (Pending, s)
  | (Panicked, s) => (Panicked, s)
  end.

Notation "'await!' a , s := x 'in' k" := (await_bind x (λ a s, k))
  (at level 10, a name, s name, x at level 100, k at level 200).

Class AsyncStream (S : Type) := {
  (** reads into a buffer of the given capacity; no bytes is EOF *)
  stream_read : S -> Z -> completion bytes * S;
  stream_write_all : S -> bytes -> completion unit * S;
  stream_write_vectored_all : S -> list bytes -> completion unit * S;
  stream_shutdown : S -> completion unit * S;
}.

(** What has reached the wire of a stream: a write that succeeds appends its
    whole buffer, one that fails or stalls a prefix of it, other operations
    nothing. *)
Class WireStream (S : Type) `{AsyncStream S} := {
  wire : S -> bytes;
  write_all_wire s buf :
    exists k, k `prefix_of` buf /\ wire (stream_write_all s buf).2 = wire s ++ k /\
      ((stream_write_all s buf).1 = Completed (Ok tt) -> k = buf);
  write_vectored_wire s bufs :
    exists k, k `prefix_of` concat bufs /\ wire (stream_write_vectored_all s bufs).2 = wire s ++ k /\
      ((stream_write_vectored_all s bufs).1 = Completed (Ok tt) -> k = concat bufs);
  read_wire s n : wire (stream_read s n).2 = wire s;
  shutdown_wire s : wire (stream_shutdown s).2 = wire s;
}.

(** ** A scripted stream, to run the definitions *)

Record ScriptStream := mk_script {
  sc_wire : bytes;
  sc_input : list bytes;                (** what successive reads return *)
  sc_writes : list (completion unit);   (** how successive writes end *)
}.

(** A write that does not succeed puts half of its buffer on the wire. *)
Definition script_write (s : ScriptStream) (buf : bytes) : completion unit * ScriptStream :=
  match sc_writes s with
  | [] => (Completed (Ok tt), mk_script (sc_wire s ++ buf) (sc_input s) [])
  | Completed (Ok tt) :: w => (Completed (Ok tt), mk_script (sc_wire s ++ buf) (sc_input s) w)
  | c :: w => (c, mk_script (sc_wire s ++ ztake (len buf / 2) buf) (sc_input s) w)
  end.

Definition script_read (s : ScriptStream) (_ : Z) : completion bytes * ScriptStream :=
  match sc_input s with
  | [] => (Stalled, s)
  | bs :: rest => (Completed (Ok bs), mk_script (sc_wire s) rest (sc_writes s))
  end.

#[export] Instance script_stream : AsyncStream ScriptStream := {
  stream_read := script_read;
  stream_write_all := script_write;
  stream_write_vectored_all s bufs := script_write s (concat bufs);
  stream_shutdown s := (Completed (Ok tt), s);
}.

Lemma script_write_wire s buf :
  exists k, k `prefix_of` buf /\ sc_wire (script_write s buf).2 = sc_wire s ++ k /\
    ((script_write s buf).1 = Completed (Ok tt) -> k = buf).
Proof.
  assert (Hhalf : ztake (len buf / 2) buf `prefix_of` buf).
  { exists (zdrop (len buf / 2) buf). by rewrite ztake_zdrop. }
  unfold script_write. destruct (sc_writes s) as [|[[[]|e]|] w]; cbn; [exists buf|exists buf|eexists|eexists]; done.
Qed.

#[export] Instance script_wire : WireStream ScriptStream.
Proof.
  refine {| wire := sc_wire |}.
  - apply script_write_wire.
  - intros s bufs. apply script_write_wire.
  - intros s n. cbn. unfold script_read. by destruct (sc_input s).
  - done.
Defined.

(** ** A stream that accepts every write *)

Record SinkStream := mk_sink { sink_wire : bytes }.

#[export] Instance sink_stream : AsyncStream SinkStream := {
  stream_read s _ := (Stalled, s);
  stream_write_all s buf := (Completed (Ok tt), mk_sink (sink_wire s ++ buf));
  stream_write_vectored_all s bufs := (Completed (Ok tt), mk_sink (sink_wire s ++ concat bufs));
  stream_shutdown s := (Completed (Ok tt), s);
}.

#[export] Instance sink_wire_stream : WireStream SinkStream.
Proof. refine {| wire := sink_wire |}; eauto. Defined.
