(* ===== verification/Proc.v ===== *)
(** * Handshakes as processes

    A handshake is straight-line code that writes to a byte stream and reads
    fixed numbers of bytes from it, each under an optional timer:
    [write_all_with_timeout] and [read_exact_with_timeout] of
    monocoque-core/src/timeout.rs.  A [proc] is such code: what it does next,
    and how it goes on with the outcome.

    [pair_step] runs two processes against each other over a pair of byte
    queues, in every interleaving.  It has the diamond property, so that one
    complete run decides them all ([completes]). *)

From Stdlib Require Import FunctionalExtensionality.
From S2P Require Import Prelude.
From S2P Require Import Options.
From S2P Require Import SegBuffer.
From S2P Require Import Codec.

Inductive proc (A : Type) :=
| Ret (a : A)
| Panic
| Stall   (** waits for something that never happens, other than the stream *)
| WriteAll (bs : bytes) (t : option Z) (k : io_result unit -> proc A)
| ReadExact (n : Z) (t : option Z) (k : io_result bytes -> proc A).
Arguments Ret {A} _.
Arguments Panic {A}.
Arguments Stall {A}.
Arguments WriteAll {A} _ _ _.
Arguments ReadExact {A} _ _ _.

Fixpoint proc_bind {A B} (p : proc A) (f : A -> proc B) : proc B :=
  match p with
  | Ret a => f a
  | Panic => Panic
  | Stall => Stall
  | WriteAll bs t k => WriteAll bs t (λ r, proc_bind (k r) f)
  | ReadExact n t k => ReadExact n t (λ r, proc_bind (k r) f)
  end.

(** A fallible handshake, and [p?] followed by the rest of the function. *)
Abbreviation zproc A := (proc (result ZmtpError A)).

Definition zbind {A B} (p : zproc A) (f : A -> zproc B) : zproc B :=
  proc_bind p (λ r, match r with Ok a => f a | Err e => Ret (Err e) end).

Notation "'do!' x := p 'in' k" := (zbind p (λ x, k))
  (at level 10, x name, p at level 100, k at level 200) : mono_scope.

(** A value that may be an error, or (as [None]) a panic. *)
Definition lift_result {A} (r : result ZmtpError A) : zproc A := Ret r.
Definition lift_panic {A} (r : option A) : proc A :=
  match r with Some a => Ret a | None => Panic end.

(** [impl From<io::Error> for ZmtpError]. *)
Definition zmtp_from_io (e : ErrorKind) : ZmtpError := Protocol.

Definition io_to_zmtp {A} (r : io_result A) : result ZmtpError A :=
  match r with Ok a => Ok a | Err e => Err (zmtp_from_io e) end.

(** ** [timeout.rs]; durations in milliseconds *)

Definition read_exact_with_timeout (n : Z) (duration : option Z) : proc (io_result bytes) :=
  match duration with
  | None => ReadExact n None Ret
  | Some d => if d =? 0 then Ret (Err WouldBlock) else ReadExact n (Some d) Ret
  end.

Definition write_all_with_timeout (bs : bytes) (duration : option Z) : proc (io_result unit) :=
  match duration with
  | None => WriteAll bs None Ret
  | Some d => if d =? 0 then Ret (Err WouldBlock) else WriteAll bs (Some d) Ret
  end.

(** The two layers of [io::Result<BufResult<..>>], both converted by [?]. *)
Definition read_exact (n : Z) (t : option Z) : zproc bytes :=
  proc_bind (read_exact_with_timeout n t) (λ r, Ret (io_to_zmtp r)).

Definition write_all (bs : bytes) (t : option Z) : zproc unit :=
  proc_bind (write_all_with_timeout bs t) (λ r, Ret (io_to_zmtp r)).

(** A timer that lets I/O happen: none, or a positive duration. *)
Definition live_timer (t : option Z) : Prop := match t with Some d => 0 < d | None => True end.

Lemma read_exact_live n t :
  live_timer t -> read_exact n t = ReadExact n t (λ r, Ret (io_to_zmtp r)).
Proof.
  intros Ht. unfold read_exact, read_exact_with_timeout. destruct t as [d|]; [|done]. cbn in Ht.
  destruct (Z.eqb_spec d 0); [lia|]. done.
Qed.

Lemma write_all_live bs t :
  live_timer t -> write_all bs t = WriteAll bs t (λ r, Ret (io_to_zmtp r)).
Proof.
  intros Ht. unfold write_all, write_all_with_timeout. destruct t as [d|]; [|done]. cbn in Ht.
  destruct (Z.eqb_spec d 0); [lia|]. done.
Qed.

(** ** One side against a fixed input

    The peer's bytes are all there and nothing follows: a read that wants more
    is ended by its timer, or never. *)

Inductive run_end (A : Type) :=
| Finished (a : A)
| Blocked
| Crashed.
Arguments Finished {A} _.
Arguments Blocked {A}.
Arguments Crashed {A}.

(** The end of the run, what was written, and the unread input. *)
Fixpoint run_on {A} (p : proc A) (input out : bytes) : run_end A * bytes * bytes :=
  match p with
  | Ret a => (Finished a, out, input)
  | Panic => (Crashed, out, input)
  | Stall => (Blocked, out, input)
  | WriteAll bs _ k => run_on (k (Ok tt)) input (out ++ bs)
  | ReadExact n t k =>
      if n <=? len input then run_on (k (Ok (ztake n input))) (zdrop n input) out
      else match t with
           | Some _ => run_on (k (Err TimedOut)) [] out
           | None => (Blocked, out, [])
           end
  end.

(** ** Two sides

    [cfg_l] reads from [cfg_to_l], which [cfg_r] writes to, and conversely. *)

Record config (A B : Type) := mk_config {
  cfg_l : zproc A;
  cfg_to_l : bytes;
  cfg_r : zproc B;
  cfg_to_r : bytes;
}.
Arguments mk_config {A B} _ _ _ _.
Arguments cfg_l {A B} _.
Arguments cfg_to_l {A B} _.
Arguments cfg_r {A B} _.
Arguments cfg_to_r {A B} _.

(** The step a side makes on its own: the process and its input after it, and
    what it has put on the wire. *)
Definition local_step {A} (p : zproc A) (input : bytes) : option (zproc A * bytes * bytes) :=
  match p with
  | WriteAll bs _ k => Some (k (Ok tt), input, bs)
  | ReadExact n _ k =>
      if n <=? len input then Some (k (Ok (ztake n input)), zdrop n input, []) else None
  | _ => None
  end.

(** A side that has failed drops its stream. *)
Definition hung_up {A} (p : zproc A) : bool :=
  match p with Ret (Err _) => true | _ => false end.

Definition waiting {A} (p : zproc A) (input : bytes) : Prop :=
  match p with ReadExact n _ _ => len input < n | _ => False end.

Definition at_eof {A} (p : zproc A) : zproc A :=
  match p with ReadExact _ _ k => k (Err UnexpectedEof) | _ => p end.

Definition timer {A} (p : zproc A) : option Z :=
  match p with ReadExact _ t _ => t | _ => None end.

Definition elapse {A} (d : Z) (p : zproc A) : zproc A :=
  match p with
  | ReadExact n (Some t) k => if t <=? d then k (Err TimedOut) else ReadExact n (Some (t - d)) k
  | _ => p
  end.

(** The time until the first of two timers fires. *)
Definition first_timer (a b : option Z) : option Z :=
  match a, b with
  | Some x, Some y => Some (Z.min x y)
  | Some x, None | None, Some x => Some x
  | None, None => None
  end.

(** A side that can do nothing by itself and has not lost its peer. *)
Definition idle {A B} (p : zproc A) (input : bytes) (peer : zproc B) : Prop :=
  local_step p input = None /\ (hung_up peer = true -> waiting p input -> False).

(** Delivery and computation take no time: timers run only while both sides
    wait. *)
Inductive pair_step {A B} : config A B -> config A B -> Prop :=
| pair_left p ip r ir p' ip' out :
    local_step p ip = Some (p', ip', out) ->
    pair_step (mk_config p ip r ir) (mk_config p' ip' r (ir ++ out))
| pair_right p ip r ir r' ir' out :
    local_step r ir = Some (r', ir', out) ->
    pair_step (mk_config p ip r ir) (mk_config p (ip ++ out) r' ir')
| pair_left_eof p ip r ir :
    waiting p ip -> hung_up r = true ->
    pair_step (mk_config p ip r ir) (mk_config (at_eof p) ip r ir)
| pair_right_eof p ip r ir :
    waiting r ir -> hung_up p = true ->
    pair_step (mk_config p ip r ir) (mk_config p ip (at_eof r) ir)
| pair_time p ip r ir d :
    idle p ip r -> idle r ir p -> first_timer (timer p) (timer r) = Some d ->
    pair_step (mk_config p ip r ir) (mk_config (elapse d p) ip (elapse d r) ir).

Definition start {A B} (p : zproc A) (r : zproc B) : config A B := mk_config p [] r [].

Definition finish {A B} (a : result ZmtpError A) (b : result ZmtpError B) (left_over_l left_over_r : bytes)
    : config A B := mk_config (Ret a) left_over_l (Ret b) left_over_r.

(** Every interleaving of the two sides reaches [c'], and no run is longer
    than [n] steps: neither a deadlock nor another outcome is possible. *)
Definition completes {A B} (c c' : config A B) : Prop :=
  exists n, forall m d, nsteps pair_step m c d -> (m <= n)%nat /\ nsteps pair_step (n - m) d c'.

(** ** The diamond property *)

Section diamond.
Context {X : Type} (R : X -> X -> Prop).
Hypothesis R_diamond : forall x y z, R x y -> R x z -> y = z \/ exists w, R y w /\ R z w.

(** From a point with a run of [n] steps to a normal form, every first step
    stays on a run of [n] steps to it. *)
Lemma diamond_first_step n x y nf :
  nsteps R n x nf -> (forall w, ~ R nf w) -> R x y ->
  exists n', n = S n' /\ nsteps R n' y nf.
Proof.
  revert x y. induction n as [|n IH]; intros x y Hn Hnf Hxy.
  - inversion Hn; subst. by apply Hnf in Hxy.
  - inversion Hn as [|? ? z ? Hxz Hz]; subst. exists n. split; [done|].
    destruct (R_diamond _ _ _ Hxy Hxz) as [->|(w & Hyw & Hzw)]; [done|].
    destruct (IH _ _ Hz Hnf Hzw) as (n' & -> & Hw). by eapply nsteps_l.
Qed.

Lemma diamond_runs n m x y nf :
  nsteps R n x nf -> (forall w, ~ R nf w) -> nsteps R m x y ->
  (m <= n)%nat /\ nsteps R (n - m) y nf.
Proof.
  revert n x. induction m as [|m IH]; intros n x Hn Hnf Hm.
  - inversion Hm; subst. rewrite Nat.sub_0_r. split; [lia|done].
  - inversion Hm as [|? ? z ? Hxz Hz]; subst.
    destruct (diamond_first_step _ _ _ _ Hn Hnf Hxz) as (n' & -> & Hn').
    destruct (IH _ _ Hn' Hnf Hz) as [? ?]. split; [lia|done].
Qed.
End diamond.

Lemma local_step_more {A} (p : zproc A) input more p' input' out :
  local_step p input = Some (p', input', out) ->
  local_step p (input ++ more) = Some (p', input' ++ more, out).
Proof.
  destruct p as [| | |bs t k|n t k]; cbn; try done.
  - by intros [= <- <- <-].
  - destruct (Z.leb_spec n (len input)) as [Hn|Hn]; [|done]. intros [= <- <- <-].
    rewrite (proj2 (Z.leb_le _ _)) by len_lia. by rewrite ztake_app_le, zdrop_app_le.
Qed.

Lemma local_step_not_waiting {A} (p : zproc A) input s :
  local_step p input = Some s -> waiting p input -> False.
Proof.
  destruct p as [| | | |n t k]; cbn; try done. destruct (Z.leb_spec n (len input)); [lia|done].
Qed.

Lemma local_step_not_hung_up {A} (p : zproc A) input s :
  local_step p input = Some s -> hung_up p = true -> False.
Proof. by destruct p. Qed.

Lemma waiting_not_hung_up {A} (p : zproc A) input :
  waiting p input -> hung_up p = true -> False.
Proof. by destruct p. Qed.

#[export] Hint Resolve local_step_not_waiting local_step_not_hung_up waiting_not_hung_up : mono.

Lemma pair_step_diamond {A B} (c c1 c2 : config A B) :
  pair_step c c1 -> pair_step c c2 -> c1 = c2 \/ exists c', pair_step c1 c' /\ pair_step c2 c'.
Proof.
  intros H1 H2. inversion H1; subst; inversion H2; subst; unfold idle in *; destruct_and?;
    try (left; congruence); try (exfalso; by eauto with mono); try (exfalso; congruence).
  all: right; eexists; split.
  all: (by apply pair_left, local_step_more) || (by apply pair_right, local_step_more) || idtac.
Qed.

Lemma finish_final {A B} (a : result ZmtpError A) (b : result ZmtpError B) x y w :
  ~ pair_step (finish a b x y) w.
Proof. intros H. inversion H; subst; cbn in *; done. Qed.

Lemma completes_intro {A B} n (c : config A B) a b x y :
  nsteps pair_step n c (finish a b x y) -> completes c (finish a b x y).
Proof.
  intros Hn. exists n. intros m d Hm.
  exact (diamond_runs _ pair_step_diamond _ _ _ _ _ Hn (finish_final a b x y) Hm).
Qed.

(** ** Running two sides symbolically

    [reaches c c'] is a run of some length; its rules follow one side at a
    time. *)

Definition reaches {A B} (c c' : config A B) : Prop := rtc pair_step c c'.

Lemma reaches_completes {A B} (c : config A B) a b x y :
  reaches c (finish a b x y) -> completes c (finish a b x y).
Proof. intros [n Hn]%rtc_nsteps_1. by eapply completes_intro. Qed.

Section rules.
Context {A B : Type}.
Implicit Types (p : zproc A) (r : zproc B) (c : config A B).

Lemma reach_write_l bs t k ip r ir c :
  reaches (mk_config (k (Ok tt)) ip r (ir ++ bs)) c ->
  reaches (mk_config (WriteAll bs t k) ip r ir) c.
Proof. intros H. eapply rtc_l; [by apply pair_left|done]. Qed.

Lemma reach_write_r bs t k p ip ir c :
  reaches (mk_config p (ip ++ bs) (k (Ok tt)) ir) c ->
  reaches (mk_config p ip (WriteAll bs t k) ir) c.
Proof. intros H. eapply rtc_l; [by apply pair_right|done]. Qed.

Lemma local_step_read {X} n t (k : io_result bytes -> zproc X) bs rest :
  len bs = n -> local_step (ReadExact n t k) (bs ++ rest) = Some (k (Ok bs), rest, []).
Proof.
  intros <-. cbn. rewrite (proj2 (Z.leb_le _ _)) by len_lia.
  by rewrite ztake_app_le, ztake_ge, zdrop_app_ge, Z.sub_diag, zdrop_0 by lia.
Qed.

Lemma reach_read_l n t k bs rest r ir c :
  len bs = n ->
  reaches (mk_config (k (Ok bs)) rest r ir) c ->
  reaches (mk_config (ReadExact n t k) (bs ++ rest) r ir) c.
Proof.
  intros Hn H. eapply rtc_l; [apply pair_left; by apply local_step_read|].
  rewrite app_nil_r. done.
Qed.

Lemma reach_read_r n t k bs rest p ip c :
  len bs = n ->
  reaches (mk_config p ip (k (Ok bs)) rest) c ->
  reaches (mk_config p ip (ReadExact n t k) (bs ++ rest)) c.
Proof.
  intros Hn H. eapply rtc_l; [apply pair_right; by apply local_step_read|].
  rewrite app_nil_r. done.
Qed.

(** The right side's timer is the first to fire while both wait. *)
Lemma reach_timeout_r n t k n' d k' ip ir c :
  len ip < n -> len ir < n' -> match t with Some t => d < t | None => True end ->
  reaches (mk_config (elapse d (ReadExact n t k)) ip (k' (Err TimedOut)) ir) c ->
  reaches (mk_config (ReadExact n t k) ip (ReadExact n' (Some d) k') ir) c.
Proof.
  intros Hp Hr Ht H. eapply rtc_l; [eapply (pair_time _ _ _ _ d)|].
  - split; [cbn; by rewrite (proj2 (Z.leb_gt _ _)) by lia|by cbn].
  - split; [cbn; by rewrite (proj2 (Z.leb_gt _ _)) by lia|by cbn].
  - destruct t; cbn [timer first_timer]; [f_equal; lia|done].
  - cbn [elapse] in *. by rewrite Z.leb_refl.
Qed.

(** The right side has failed while the left one waits. *)
Lemma reach_eof_l n t k ip e ir c :
  len ip < n ->
  reaches (mk_config (k (Err UnexpectedEof)) ip (Ret (Err e)) ir) c ->
  reaches (mk_config (ReadExact n t k) ip (Ret (Err e)) ir) c.
Proof. intros Hp Hc. eapply rtc_l; [by apply pair_left_eof|done]. Qed.
End rules.

Lemma reaches_refl {A B} (c : config A B) : reaches c c.
Proof. apply rtc_refl. Qed.

(** ** Sequencing *)

Lemma proc_bind_assoc {A B C} (p : proc A) (f : A -> proc B) (g : B -> proc C) :
  proc_bind (proc_bind p f) g = proc_bind p (λ a, proc_bind (f a) g).
Proof.
  induction p as [a| | |bs t k IH|n t k IH]; cbn; try done;
    f_equal; apply functional_extensionality; done.
Qed.

Lemma zbind_assoc {A B C} (p : zproc A) (f : A -> zproc B) (g : B -> zproc C) :
  zbind (zbind p f) g = zbind p (λ a, zbind (f a) g).
Proof.
  unfold zbind. rewrite proc_bind_assoc. f_equal. apply functional_extensionality. by intros [a|e].
Qed.

Lemma zbind_ret {A} (p : zproc A) : zbind p (λ a, Ret (Ok a)) = p.
Proof.
  unfold zbind. induction p as [[|]| | |bs t k IH|n t k IH]; cbn; try done;
    f_equal; apply functional_extensionality; done.
Qed.

Lemma zbind_ok {A B} (a : A) (f : A -> zproc B) : zbind (Ret (Ok a)) f = f a.
Proof. done. Qed.

Lemma zbind_err {A B} e (f : A -> zproc B) : zbind (Ret (Err e)) f = Ret (Err e).
Proof. done. Qed.

(** The I/O steps of a side, in sequence. *)
Lemma reach_read_exact_l {A B} (n : Z) t (g : bytes -> zproc A) bs rest (r : zproc B) ir (c : config A B) :
  live_timer t -> len bs = n ->
  reaches (mk_config (g bs) rest r ir) c ->
  reaches (mk_config (zbind (read_exact n t) g) (bs ++ rest) r ir) c.
Proof. intros Ht Hn Hg. rewrite read_exact_live by done. by apply reach_read_l. Qed.

Lemma reach_read_exact_r {A B} (n : Z) t (g : bytes -> zproc B) bs rest (p : zproc A) ip (c : config A B) :
  live_timer t -> len bs = n ->
  reaches (mk_config p ip (g bs) rest) c ->
  reaches (mk_config p ip (zbind (read_exact n t) g) (bs ++ rest)) c.
Proof. intros Ht Hn Hg. rewrite read_exact_live by done. by apply reach_read_r. Qed.

(** The read empties the queue. *)
Lemma reach_read_rest_l {A B} (n : Z) t (g : bytes -> zproc A) bs (r : zproc B) ir (c : config A B) :
  live_timer t -> len bs = n ->
  reaches (mk_config (g bs) [] r ir) c ->
  reaches (mk_config (zbind (read_exact n t) g) bs r ir) c.
Proof. intros Ht Hn Hg. rewrite <- (app_nil_r bs). by apply reach_read_exact_l. Qed.

Lemma reach_read_rest_r {A B} (n : Z) t (g : bytes -> zproc B) bs (p : zproc A) ip (c : config A B) :
  live_timer t -> len bs = n ->
  reaches (mk_config p ip (g bs) []) c ->
  reaches (mk_config p ip (zbind (read_exact n t) g) bs) c.
Proof. intros Ht Hn Hg. rewrite <- (app_nil_r bs). by apply reach_read_exact_r. Qed.

Lemma reach_write_all_l {A B} bs t (g : unit -> zproc A) ip (r : zproc B) ir (c : config A B) :
  live_timer t ->
  reaches (mk_config (g tt) ip r (ir ++ bs)) c ->
  reaches (mk_config (zbind (write_all bs t) g) ip r ir) c.
Proof. intros Ht Hg. rewrite write_all_live by done. by apply reach_write_l. Qed.

Lemma reach_write_all_r {A B} bs t (g : unit -> zproc B) (p : zproc A) ip ir (c : config A B) :
  live_timer t ->
  reaches (mk_config p (ip ++ bs) (g tt) ir) c ->
  reaches (mk_config p ip (zbind (write_all bs t) g) ir) c.
Proof. intros Ht Hg. rewrite write_all_live by done. by apply reach_write_r. Qed.

(** ** Runs of one side

    A sequence of steps a side makes on its own, from input that is there: the
    output it produces on the way comes last. *)

Inductive local_run {A} : zproc A -> bytes -> zproc A -> bytes -> bytes -> Prop :=
| local_run_refl p i : local_run p i p i []
| local_run_step p i p1 i1 o1 p' i' o :
    local_step p i = Some (p1, i1, o1) -> local_run p1 i1 p' i' o -> local_run p i p' i' (o1 ++ o).

Lemma reach_run_l {A B} (p p' : zproc A) ip ip' out (r : zproc B) ir c :
  local_run p ip p' ip' out ->
  reaches (mk_config p' ip' r (ir ++ out)) c -> reaches (mk_config p ip r ir) c.
Proof.
  intros Hrun. revert ir. induction Hrun as [p i|p i p1 i1 o1 p' i' o Hs Hr IH]; intros ir Hc.
  - by rewrite app_nil_r in Hc.
  - eapply rtc_l; [by apply pair_left|]. apply IH. by rewrite <- app_assoc.
Qed.

Lemma reach_run_r {A B} (r r' : zproc B) ir ir' out (p : zproc A) ip c :
  local_run r ir r' ir' out ->
  reaches (mk_config p (ip ++ out) r' ir') c -> reaches (mk_config p ip r ir) c.
Proof.
  intros Hrun. revert ip. induction Hrun as [r i|r i r1 i1 o1 r' i' o Hs Hr IH]; intros ip Hc.
  - by rewrite app_nil_r in Hc.
  - eapply rtc_l; [by apply pair_right|]. apply IH. by rewrite <- app_assoc.
Qed.

Lemma run_read {A} n t (g : bytes -> zproc A) bs rest p' i' out :
  live_timer t -> len bs = n -> local_run (g bs) rest p' i' out ->
  local_run (zbind (read_exact n t) g) (bs ++ rest) p' i' out.
Proof.
  intros Ht Hn Hrun. rewrite read_exact_live by done. rewrite <- (app_nil_l out).
  eapply local_run_step; [by apply local_step_read|done].
Qed.

Lemma run_read_rest {A} n t (g : bytes -> zproc A) bs p' i' out :
  live_timer t -> len bs = n -> local_run (g bs) [] p' i' out ->
  local_run (zbind (read_exact n t) g) bs p' i' out.
Proof. intros. rewrite <- (app_nil_r bs). by apply run_read. Qed.

Lemma run_write {A} bs t (g : unit -> zproc A) i p' i' out :
  live_timer t -> local_run (g tt) i p' i' out -> local_run (zbind (write_all bs t) g) i p' i' (bs ++ out).
Proof. intros Ht Hrun. rewrite write_all_live by done. by eapply local_run_step. Qed.

(** ** One side against any peer *)

(** A read within the input, and one beyond it. *)
Lemma run_on_read {A} n t (k : io_result bytes -> proc A) bs rest out :
  len bs = n -> run_on (ReadExact n t k) (bs ++ rest) out = run_on (k (Ok bs)) rest out.
Proof.
  intros <-. cbn [run_on]. rewrite (proj2 (Z.leb_le _ _)) by len_lia.
  by rewrite ztake_app_le, ztake_ge, zdrop_app_ge, Z.sub_diag, zdrop_0 by lia.
Qed.

(** [p] ends a run on every input the way [q] does once [p] has returned. *)
Lemma run_on_bind {A B} (p : proc A) (f : A -> proc B) input out :
  run_on (proc_bind p f) input out =
    match run_on p input out with
    | (Finished a, out, rest) => run_on (f a) rest out
    | (Blocked, out, rest) => (Blocked, out, rest)
    | (Crashed, out, rest) => (Crashed, out, rest)
    end.
Proof.
  revert input out. induction p as [a| | |bs t k IH|n t k IH]; intros input out; cbn; try done.
  destruct (n <=? len input); [done|]. by destruct t.
Qed.

Lemma run_on_zbind {A B} (p : zproc A) (f : A -> zproc B) input out b out' rest' :
  run_on (zbind p f) input out = (Finished (Ok b), out', rest') ->
  exists a out1 rest1, run_on p input out = (Finished (Ok a), out1, rest1) /\
    run_on (f a) rest1 out1 = (Finished (Ok b), out', rest').
Proof.
  unfold zbind. rewrite run_on_bind. destruct (run_on p input out) as [[[[a|e]| |] out1] rest1]; cbn; try done.
  intros H. eauto.
Qed.

Lemma run_on_read_exact n t input out bs out' rest :
  0 <= n ->
  run_on (read_exact n t) input out = (Finished (Ok bs), out', rest) ->
  input = bs ++ rest /\ len bs = n /\ out' = out.
Proof.
  unfold read_exact, read_exact_with_timeout. intros Hn H.
  destruct t as [d|].
  - destruct (d =? 0); [done|]. cbn in H. destruct (Z.leb_spec n (len input)); [|done].
    simplify_eq/=. rewrite ztake_zdrop, len_ztake by lia. done.
  - cbn in H. destruct (Z.leb_spec n (len input)); [|done].
    simplify_eq/=. rewrite ztake_zdrop, len_ztake by lia. done.
Qed.

Lemma run_on_write_all bs t input out out' rest :
  run_on (write_all bs t) input out = (Finished (Ok tt), out', rest) -> out' = out ++ bs /\ rest = input.
Proof.
  unfold write_all, write_all_with_timeout. intros H. destruct t as [d|].
  - destruct (d =? 0); [done|]. cbn in H. by simplify_eq.
  - cbn in H. by simplify_eq.
Qed.
