(* ===== verification/Zap.v ===== *)
(** * ZAP messages

    Requests and responses of the ZeroMQ Authentication Protocol, with their
    multipart encoding: monocoque-zmtp/src/security/zap.rs.  A Rust [String] is
    the sequence of its UTF-8 bytes.

    The decoders are exact inverses of the encoders on the messages the
    protocol admits ([request_ok], [response_ok]). *)

From S2P Require Import Prelude.
From S2P Require Import SegBuffer.
From S2P Require Import Codec.
From S2P Require Import Ready.

(** ** Request identifiers *)

(** Decimal digits, most significant first. *)
Fixpoint dec_digits (fuel : nat) (n : Z) : bytes :=
  match fuel with
  | O => []
  | S fuel => if n <? 10 then [u8 (48 + n)] else dec_digits fuel (n / 10) ++ [u8 (48 + n mod 10)]
  end.

(** [format!("{}", n)] of a [u64], which has at most 20 digits. *)
Definition fmt_u64 (n : Z) : bytes := dec_digits 20 n.

(** [ZAP_REQUEST_COUNTER.fetch_add(1)], which wraps; the new counter. *)
Definition next_request_id (counter : Z) : bytes * Z :=
  (fmt_u64 counter, (counter + 1) mod 2 ^ 64).

Definition ZAP_VERSION : bytes := ascii_bytes "1.0".
Definition ZAP_ENDPOINT : bytes := ascii_bytes "inproc://zeromq.zap.01".

(** ** Mechanisms and status codes *)

Inductive ZapMechanism := ZapNull | ZapPlain | ZapCurve.

#[export] Instance ZapMechanism_eq_dec : EqDecision ZapMechanism.
Proof. solve_decision. Defined.

Definition zap_mechanism_as_str (m : ZapMechanism) : bytes :=
  match m with
  | ZapNull => ascii_bytes "NULL"
  | ZapPlain => ascii_bytes "PLAIN"
  | ZapCurve => ascii_bytes "CURVE"
  end.

Definition zap_mechanism_from_str (s : bytes) : option ZapMechanism :=
  if bool_decide (s = ascii_bytes "NULL") then Some ZapNull
  else if bool_decide (s = ascii_bytes "PLAIN") then Some ZapPlain
  else if bool_decide (s = ascii_bytes "CURVE") then Some ZapCurve
  else None.

Inductive ZapStatus := Success | TemporaryError | Failure | InternalError.

#[export] Instance ZapStatus_eq_dec : EqDecision ZapStatus.
Proof. solve_decision. Defined.

Definition zap_status_as_str (s : ZapStatus) : bytes :=
  match s with
  | Success => ascii_bytes "200"
  | TemporaryError => ascii_bytes "300"
  | Failure => ascii_bytes "400"
  | InternalError => ascii_bytes "500"
  end.

Definition zap_status_from_str (s : bytes) : option ZapStatus :=
  if bool_decide (s = ascii_bytes "200") then Some Success
  else if bool_decide (s = ascii_bytes "300") then Some TemporaryError
  else if bool_decide (s = ascii_bytes "400") then Some Failure
  else if bool_decide (s = ascii_bytes "500") then Some InternalError
  else None.

(** ** Requests *)

Record ZapRequest := mk_zap_request {
  zq_version : bytes;
  zq_request_id : bytes;
  zq_domain : bytes;
  zq_address : bytes;
  zq_identity : bytes;
  zq_mechanism : ZapMechanism;
  zq_credentials : list bytes;
}.

Definition zap_request_new (request_id domain address identity : bytes) (m : ZapMechanism)
    (credentials : list bytes) : ZapRequest :=
  mk_zap_request ZAP_VERSION request_id domain address identity m credentials.

Definition zap_request_new_with_unique_id (counter : Z) (domain address identity : bytes)
    (m : ZapMechanism) (credentials : list bytes) : ZapRequest * Z :=
  let (id, counter) := next_request_id counter in
  (zap_request_new id domain address identity m credentials, counter).

Definition zap_request_encode (r : ZapRequest) : list bytes :=
  [zq_version r; zq_request_id r; zq_domain r; zq_address r; zq_identity r;
   zap_mechanism_as_str (zq_mechanism r)] ++ zq_credentials r.

(** [String::from_utf8(frame.to_vec()).map_err(|_| message)]. *)
Definition from_utf8 (bs : bytes) (message : string) : result string bytes :=
  if utf8_valid bs then Ok bs else Err message.

(** [opt.ok_or(message)]. *)
Definition ok_or {A} (o : option A) (message : string) : result string A :=
  match o with Some a => Ok a | None => Err message end.

Definition expected_credentials (m : ZapMechanism) : Z :=
  match m with ZapNull => 0 | ZapPlain => 2 | ZapCurve => 1 end.

Definition zap_request_decode (frames : list bytes) : result string ZapRequest :=
  match frames with
  | f0 :: f1 :: f2 :: f3 :: f4 :: f5 :: credentials =>
      try! version := from_utf8 f0 "Invalid version string" in
      if negb (bool_decide (version = ZAP_VERSION)) then Err "Unsupported ZAP request version"%string else
      try! request_id := from_utf8 f1 "Invalid request ID" in
      try! domain := from_utf8 f2 "Invalid domain string" in
      try! address := from_utf8 f3 "Invalid address string" in
      if bool_decide (address = []) then Err "ZAP address cannot be empty"%string else
      let identity := f4 in
      if 255 <? len identity then Err "ZAP identity cannot exceed 255 bytes"%string else
      try! mechanism_str := from_utf8 f5 "Invalid mechanism string" in
      try! mechanism := ok_or (zap_mechanism_from_str mechanism_str) "Unknown mechanism" in
      if negb (len credentials =? expected_credentials mechanism)
      then Err "ZAP credential count does not match mechanism"%string
      else Ok (mk_zap_request version request_id domain address identity mechanism credentials)
  | _ => Err "ZAP request requires at least 6 frames"%string
  end.

(** ** Responses *)

Record ZapResponse := mk_zap_response {
  zp_version : bytes;
  zp_request_id : bytes;
  zp_status_code : ZapStatus;
  zp_status_text : bytes;
  zp_user_id : bytes;
  zp_metadata : gmap bytes bytes;
}.

Definition zap_response_success (request_id user_id : bytes) : ZapResponse :=
  mk_zap_response ZAP_VERSION request_id Success (ascii_bytes "OK") user_id ∅.

Definition zap_response_failure (request_id reason : bytes) : ZapResponse :=
  mk_zap_response ZAP_VERSION request_id Failure reason [] ∅.

Definition zap_response_internal_error (request_id reason : bytes) : ZapResponse :=
  mk_zap_response ZAP_VERSION request_id InternalError reason [] ∅.

(** One metadata entry; a key beyond 255 bytes is cut. *)
Definition encode_metadata_entry (kv : bytes * bytes) : bytes :=
  let key_len := Z.min (len kv.1) 255 in
  [u8 key_len] ++ ztake key_len kv.1 ++ be_bytes 4 (u32_wrap (len kv.2)) ++ kv.2.

(** [order] is the order in which the hash map is iterated. *)
Definition zap_response_encode (order : list (bytes * bytes)) (r : ZapResponse) : list bytes :=
  let metadata_bytes :=
    if bool_decide (zp_metadata r = ∅) then []
    else foldl (λ buf kv, buf ++ encode_metadata_entry kv) [] order in
  [zp_version r; zp_request_id r; zap_status_as_str (zp_status_code r); zp_status_text r;
   zp_user_id r; metadata_bytes].

(** The [while cursor < data.len()] loop; [None] is a panic (or the fuel
    running out, which does not happen). *)
Fixpoint parse_metadata_loop (fuel : nat) (data : bytes) (cursor : Z) (metadata : gmap bytes bytes)
    : option (result string (gmap bytes bytes)) :=
  match fuel with
  | O => None
  | S fuel =>
      if len data <=? cursor then Some (Ok metadata)
      else
        p ← read_property "Invalid metadata: key out of bounds"%string
              "Invalid metadata: value length out of bounds"%string
              "Invalid metadata: value out of bounds"%string
              (λ key, try! _ := from_utf8 key "Invalid metadata key" in Ok tt) data cursor;
        match p with
        | Err e => Some (Err e)
        | Ok (key, value, cursor) =>
            match from_utf8 value "Invalid metadata value" with
            | Err e => Some (Err e)
            | Ok value => parse_metadata_loop fuel data cursor (<[key := value]> metadata)
            end
        end
  end.

Definition parse_metadata (data : bytes) : option (result string (gmap bytes bytes)) :=
  if bool_decide (data = []) then Some (Ok ∅)
  else parse_metadata_loop (S (length data)) data 0 ∅.

Definition is_ascii (bs : bytes) : bool := forallb (in_range 0x00 0x7F) bs.

(** The first five frames of a response. *)
Definition zap_response_fields (f0 f1 f2 f3 f4 : bytes)
    : result string (bytes * bytes * ZapStatus * bytes * bytes) :=
  try! version := from_utf8 f0 "Invalid version string" in
  if negb (bool_decide (version = ZAP_VERSION)) then Err "Unsupported ZAP response version"%string else
  try! request_id := from_utf8 f1 "Invalid request ID" in
  try! status_str := from_utf8 f2 "Invalid status code" in
  try! status_code := ok_or (zap_status_from_str status_str) "Unknown status code" in
  try! status_text := from_utf8 f3 "Invalid status text" in
  if 255 <? len status_text then Err "ZAP status text cannot exceed 255 bytes"%string else
  if negb (is_ascii f4) then Err "Invalid user ID"%string else
  try! user_id := from_utf8 f4 "Invalid user ID" in
  Ok (version, request_id, status_code, status_text, user_id).

(** [None] is a panic. *)
Definition zap_response_decode (frames : list bytes) : option (result string ZapResponse) :=
  match frames with
  | [f0; f1; f2; f3; f4; f5] =>
      match zap_response_fields f0 f1 f2 f3 f4 with
      | Err e => Some (Err e)
      | Ok (version, request_id, status_code, status_text, user_id) =>
          m ← parse_metadata f5;
          match m with
          | Err e => Some (Err e)
          | Ok metadata => Some (Ok (mk_zap_response version request_id status_code status_text user_id metadata))
          end
      end
  | _ => Some (Err "ZAP response requires 6 frames"%string)
  end.

(** ** Request identifiers are distinct *)

Definition dec_val (bs : bytes) : Z := foldl (λ acc b, acc * 10 + (u8_val b - 48)) 0 bs.

Lemma dec_val_digits fuel n : 0 <= n < 10 ^ Z.of_nat fuel -> dec_val (dec_digits fuel n) = n.
Proof.
  revert n. induction fuel as [|fuel IH]; intros n Hn; [change (10 ^ Z.of_nat 0) with 1 in Hn; cbn; lia|].
  rewrite Nat2Z.inj_succ, Z.pow_succ_r in Hn by lia. cbn [dec_digits].
  destruct (Z.ltb_spec n 10) as [Hs|Hs].
  - unfold dec_val. cbn. rewrite u8_val_small; lia.
  - unfold dec_val. rewrite foldl_snoc. fold (dec_val (dec_digits fuel (n / 10))).
    pose proof (Z.mod_pos_bound n 10 ltac:(lia)). pose proof (Z.div_mod n 10 ltac:(lia)).
    rewrite IH by (split; [apply Z.div_pos|apply Z.div_lt_upper_bound]; lia).
    rewrite u8_val_small; lia.
Qed.

Lemma fmt_u64_inj a b : 0 <= a < 2 ^ 64 -> 0 <= b < 2 ^ 64 -> fmt_u64 a = fmt_u64 b -> a = b.
Proof.
  intros Ha Hb E. apply (f_equal dec_val) in E. unfold fmt_u64 in E.
  by rewrite !dec_val_digits in E by (change (10 ^ Z.of_nat 20) with 100000000000000000000; lia).
Qed.

Lemma dec_digits_ascii fuel n : 0 <= n -> is_ascii (dec_digits fuel n) = true.
Proof.
  unfold is_ascii. revert n. induction fuel as [|fuel IH]; intros n Hn; [done|]. cbn [dec_digits].
  pose proof (Z.mod_pos_bound n 10 ltac:(lia)). pose proof (Z.div_pos n 10 Hn ltac:(lia)).
  destruct (Z.ltb_spec n 10) as [Hs|Hs]; [|rewrite forallb_app, IH by done]; cbn; unfold in_range;
    rewrite u8_val_small by lia; rewrite !(proj2 (Z.leb_le _ _)) by lia; done.
Qed.

(** ** Request round trip *)

Definition request_ok (r : ZapRequest) : Prop :=
  zq_version r = ZAP_VERSION /\
  utf8_valid (zq_request_id r) = true /\ utf8_valid (zq_domain r) = true /\
  utf8_valid (zq_address r) = true /\ zq_address r <> [] /\ len (zq_identity r) <= 255 /\
  len (zq_credentials r) = expected_credentials (zq_mechanism r).

Lemma from_utf8_Ok bs m x : from_utf8 bs m = Ok x <-> x = bs /\ utf8_valid bs = true.
Proof. unfold from_utf8. destruct (utf8_valid bs); naive_solver. Qed.

Lemma res_bind_Ok {E A B} (r : result E A) (k : A -> result E B) b :
  res_bind r k = Ok b <-> exists a, r = Ok a /\ k a = Ok b.
Proof. destruct r; naive_solver. Qed.

Lemma ok_or_Ok {A} (o : option A) m x : ok_or o m = Ok x <-> o = Some x.
Proof. destruct o; naive_solver. Qed.

Lemma zap_mechanism_str m s : zap_mechanism_from_str s = Some m <-> s = zap_mechanism_as_str m.
Proof.
  unfold zap_mechanism_from_str. split.
  - repeat case_bool_decide; intros [= <-]; done.
  - intros ->. by destruct m.
Qed.

Lemma zap_status_str m s : zap_status_from_str s = Some m <-> s = zap_status_as_str m.
Proof.
  unfold zap_status_from_str. split.
  - repeat case_bool_decide; intros [= <-]; done.
  - intros ->. by destruct m.
Qed.

Lemma utf8_mechanism m : utf8_valid (zap_mechanism_as_str m) = true.
Proof. by destruct m. Qed.

Lemma utf8_status m : utf8_valid (zap_status_as_str m) = true.
Proof. by destruct m. Qed.

Lemma utf8_version : utf8_valid ZAP_VERSION = true.
Proof. done. Qed.

#[export] Hint Resolve utf8_mechanism utf8_status utf8_version : mono.

Lemma zap_request_decode_iff (frames : list bytes) (r : ZapRequest) :
  zap_request_decode frames = Ok r <-> frames = zap_request_encode r /\ request_ok r.
Proof.
  unfold zap_request_decode, zap_request_encode, request_ok. split.
  - intros H. destruct frames as [|f0 [|f1 [|f2 [|f3 [|f4 [|f5 cs]]]]]]; try done.
    repeat (first
      [ apply res_bind_Ok in H as (? & ?%from_utf8_Ok & H); destruct_and?; subst
      | apply res_bind_Ok in H as (? & ->%ok_or_Ok%zap_mechanism_str & H)
      | case_if_in H; [done|] ]).
    injection H as <-. cbn. split_and!; try done.
  - intros (-> & Hv & Hid & Hd & Ha & Hne & Hi & Hc). cbn [app]. unfold from_utf8.
    rewrite Hv, utf8_version. cbn [res_bind]. rewrite bool_decide_eq_true_2 by done. cbn [negb].
    rewrite Hid, Hd, Ha. cbn [res_bind]. rewrite bool_decide_eq_false_2 by done.
    rewrite (proj2 (Z.ltb_ge _ _)) by lia. rewrite utf8_mechanism. cbn [res_bind].
    rewrite (proj2 (zap_mechanism_str _ _)) by done. cbn [ok_or res_bind].
    rewrite Hc, Z.eqb_refl. cbn [negb]. rewrite <- Hv. by destruct r.
Qed.

(** ** Metadata *)

Definition entry_ok (kv : bytes * bytes) : Prop :=
  prop_ok kv /\ utf8_valid kv.1 = true /\ utf8_valid kv.2 = true.

(** Later entries win. *)
Definition insert_entries (ps : list (bytes * bytes)) (m : gmap bytes bytes) : gmap bytes bytes :=
  foldl (λ m kv, <[kv.1 := kv.2]> m) m ps.

Lemma parse_metadata_loop_spec fuel pre rest m :
  (length rest < fuel)%nat ->
  exists r, parse_metadata_loop fuel (pre ++ rest) (len pre) m = Some r /\
    (forall m', r = Ok m' <->
       exists ps, Forall entry_ok ps /\ rest = encode_props ps /\ m' = insert_entries ps m).
Proof.
  revert pre rest m. induction fuel as [|fuel IH]; intros pre rest m Hf; [lia|].
  destruct rest as [|b tl] eqn:Er.
  { cbn [parse_metadata_loop]. rewrite app_nil_r, Z.leb_refl. eexists. split; [done|]. intros m'. split.
    - intros [= <-]. by exists [].
    - intros ([|kv ps] & _ & Hn & ->); [done|]. by destruct kv. }
  rewrite <- Er in *. assert (Hne : rest ≠ []) by (by rewrite Er). clear Er b tl.
  cbn [parse_metadata_loop]. rewrite (proj2 (Z.leb_gt _ _)) by (destruct rest; [done|]; len_lia).
  match goal with |- context [read_property ?a ?b ?c ?ck _ _] =>
    destruct (read_property_spec a b c ck pre rest Hne) as (r & -> & Hr & Hs) end.
  cbn [mbind option_bind].
  assert (Hsplit : forall ps, Forall entry_ok ps -> rest = encode_props ps ->
    exists k v ps', ps = (k, v) :: ps' /\ split_prop rest = Some (k, v, encode_props ps')).
  { intros [|[k v] ps'] Hps ->; [done|]. apply list.Forall_cons in Hps as [[Hok _] _].
    exists k, v, ps'. split; [done|]. exact (split_encode_prop (k, v) (encode_props ps') Hok). }
  destruct r as [[[k v] o]|e].
  2: { eexists. split; [done|]. intros m'. split; [done|]. intros (ps & Hps & Hrest & _).
       destruct (Hsplit ps Hps Hrest) as (k & v & ps' & -> & Hsp). apply list.Forall_cons in Hps as [(_ & Hk & _) _].
       pose proof (Hs _ _ _ Hsp) as Hbad. unfold from_utf8 in Hbad.
       cbn [fst] in Hk. rewrite Hk in Hbad. done. }
  destruct Hr as (rest' & Hsp & Hck & ->). apply res_bind_Ok in Hck as (? & [_ Huk]%from_utf8_Ok & _).
  pose proof (split_prop_length _ _ _ _ Hsp) as Hlt. pose proof (split_prop_sound _ _ _ _ Hsp) as [Hrest Hok].
  destruct (from_utf8 v "Invalid metadata value") as [v'|e] eqn:Ev.
  - apply from_utf8_Ok in Ev as [-> Huv].
    assert (Hpre : pre ++ rest = (pre ++ encode_prop (k, v)) ++ rest') by (by rewrite Hrest, app_assoc).
    rewrite Hpre. replace (len ((pre ++ encode_prop (k, v)) ++ rest') - len rest')
      with (len (pre ++ encode_prop (k, v))) by len_lia.
    destruct (IH (pre ++ encode_prop (k, v)) rest' (<[k := v]> m)) as (r & -> & Hiff); [lia|].
    exists r. split; [done|]. intros m'. rewrite Hiff. split.
    + intros (ps & Hps & -> & ->). exists ((k, v) :: ps). split; [by constructor; [split_and!|]|]. done.
    + intros (ps & Hps & Hre & ->). destruct (Hsplit ps Hps Hre) as (k' & v' & ps' & -> & Hsp').
      rewrite Hsp in Hsp'. simplify_eq. apply list.Forall_cons in Hps as [_ Hps]. by exists ps'.
  - eexists. split; [done|]. intros m'. split; [done|]. intros (ps & Hps & Hre & _).
    destruct (Hsplit ps Hps Hre) as (k' & v' & ps' & -> & Hsp'). rewrite Hsp in Hsp'. simplify_eq.
    apply list.Forall_cons in Hps as [(_ & _ & Hv) _]. unfold from_utf8 in Ev. cbn in Hv. by rewrite Hv in Ev.
Qed.

(** The metadata parser never panics and accepts exactly the encoded lists of
    UTF-8 entries. *)
Lemma parse_metadata_iff data :
  exists r, parse_metadata data = Some r /\
    (forall m, r = Ok m <->
       exists ps, Forall entry_ok ps /\ data = encode_props ps /\ m = insert_entries ps ∅).
Proof.
  unfold parse_metadata. case_bool_decide as Hd.
  - eexists. split; [done|]. intros m. subst. split.
    + intros [= <-]. by exists [].
    + intros ([|[] ps] & _ & Hn & ->); done.
  - destruct (parse_metadata_loop_spec (S (length data)) [] data ∅) as (r & Hr & Hiff); [lia|].
    by exists r.
Qed.

Definition response_fields_ok (r : ZapResponse) : Prop :=
  zp_version r = ZAP_VERSION /\ utf8_valid (zp_request_id r) = true /\
  utf8_valid (zp_status_text r) = true /\ len (zp_status_text r) <= 255 /\
  is_ascii (zp_user_id r) = true.

Definition response_frames (r : ZapResponse) (metadata : bytes) : list bytes :=
  [zp_version r; zp_request_id r; zap_status_as_str (zp_status_code r); zp_status_text r;
   zp_user_id r; metadata].

Lemma zap_response_fields_iff f0 f1 f2 f3 f4 a b c d e :
  zap_response_fields f0 f1 f2 f3 f4 = Ok (a, b, c, d, e) <->
    (a = f0 /\ b = f1 /\ f2 = zap_status_as_str c /\ d = f3 /\ e = f4) /\
    f0 = ZAP_VERSION /\ utf8_valid f1 = true /\ utf8_valid f3 = true /\ len f3 <= 255 /\ is_ascii f4 = true.
Proof.
  unfold zap_response_fields. split.
  - intros H. repeat (first
      [ apply res_bind_Ok in H as (? & ?%from_utf8_Ok & H); destruct_and?; subst
      | apply res_bind_Ok in H as (? & ->%ok_or_Ok%zap_status_str & H)
      | case_if_in H; [done|] ]).
    by simplify_eq.
  - intros ((-> & -> & -> & -> & ->) & Hv & Hid & Ht & Hl & Hu). unfold from_utf8.
    rewrite Hv, utf8_version, Hid, utf8_status, Ht, (utf8_valid_ascii _ Hu). cbn [res_bind].
    rewrite bool_decide_eq_true_2 by done. cbn [negb].
    rewrite (proj2 (zap_status_str _ _)) by done. cbn [ok_or res_bind].
    rewrite (proj2 (Z.ltb_ge _ _)) by lia. by rewrite Hu.
Qed.

#[export] Instance zap_status_as_str_inj : Inj (=) (=) zap_status_as_str.
Proof. by intros [] []. Qed.

(** The response decoder never panics, and accepts exactly the six frames of an
    admissible response with a well-formed metadata frame. *)
Lemma zap_response_decode_iff (frames : list bytes) :
  exists r, zap_response_decode frames = Some r /\
    (forall resp, r = Ok resp <->
       response_fields_ok resp /\
       exists ps, Forall entry_ok ps /\ frames = response_frames resp (encode_props ps) /\
         zp_metadata resp = insert_entries ps ∅).
Proof.
  destruct frames as [|f0 [|f1 [|f2 [|f3 [|f4 [|f5 [|]]]]]]];
    try (eexists; split; [done|]; intros resp; split; [done|]; by intros (_ & ps & _ & Hf & _)).
  cbn [zap_response_decode].
  destruct (zap_response_fields f0 f1 f2 f3 f4) as [[[[[a b] c] d] e]|e] eqn:Hfields.
  - apply zap_response_fields_iff in Hfields as [(-> & -> & -> & -> & ->) Hok].
    destruct (parse_metadata_iff f5) as (m & -> & Hm). cbn [mbind option_bind].
    destruct m as [m|em]; (eexists; split; [done|]); intros resp; split.
    + intros [= <-]. split; [by destruct_and?|]. destruct (proj1 (Hm m) eq_refl) as (ps & Hps & -> & ->).
      by exists ps.
    + intros (_ & ps & Hps & Hfr & Hmd). injection Hfr as -> -> ->%(inj zap_status_as_str) -> -> Hm5.
      assert (zp_metadata resp = m) as <-.
      { rewrite Hmd. apply (inj (@Ok string _)). symmetry. apply Hm. by exists ps. }
      by destruct resp.
    + done.
    + intros (_ & ps & Hps & Hfr & _). injection Hfr as _ _ _ _ _ Hm5.
      assert (Hc : Err em = Ok (insert_entries ps ∅)); [apply Hm; by exists ps|done].
  - eexists. split; [done|]. intros resp. split; [done|].
    intros ((Hv & Hid & Ht & Hl & Hu) & ps & _ & Hfr & _). injection Hfr as -> -> -> -> -> _.
    rewrite (proj2 (zap_response_fields_iff _ _ _ _ _ (zp_version resp) (zp_request_id resp)
      (zp_status_code resp) (zp_status_text resp) (zp_user_id resp))) in Hfields; done.
Qed.

Definition response_ok (r : ZapResponse) : Prop :=
  response_fields_ok r /\ map_Forall (λ k v, entry_ok (k, v)) (zp_metadata r).

Lemma encode_metadata_entry_ok kv : prop_ok kv -> encode_metadata_entry kv = encode_prop kv.
Proof.
  intros [Hk Hv]. unfold encode_metadata_entry, encode_prop, u32_wrap, u32_max in *.
  rewrite Z.min_l by lia. rewrite ztake_ge by lia. pose proof (len_nonneg kv.2). by rewrite Z.mod_small by lia.
Qed.

Lemma encode_entries_spec order buf :
  Forall entry_ok order ->
  foldl (λ buf kv, buf ++ encode_metadata_entry kv) buf order = buf ++ encode_props order.
Proof.
  intros Ho. revert buf. induction Ho as [|kv l [Hp _] Hl IH]; intros buf; cbn [foldl].
  - by rewrite app_nil_r.
  - rewrite IH, encode_metadata_entry_ok by done. by rewrite <- app_assoc.
Qed.

Lemma insert_entries_lookup ps m k v :
  NoDup ps.*1 -> (k, v) ∈ ps -> insert_entries ps m !! k = Some v.
Proof.
  revert m. induction ps as [|[k' v'] ps IH]; intros m Hnd Hin; [by apply not_elem_of_nil in Hin|].
  cbn in Hnd. apply list.NoDup_cons in Hnd as [Hk' Hnd]. cbn [insert_entries foldl].
  apply elem_of_cons in Hin as [[= -> ->]|Hin]; [|by apply IH].
  assert (Hgen : forall m, m !! k' = Some v' -> insert_entries ps m !! k' = Some v').
  { clear IH Hnd. induction ps as [|[k2 v2] ps IH]; intros m0 Hm; [done|]. cbn.
    apply not_elem_of_cons in Hk' as [Hne Hk']. apply IH; [done|]. by rewrite lookup_insert_ne. }
  apply Hgen. by rewrite lookup_insert_eq.
Qed.

Lemma insert_entries_dom ps k : is_Some (insert_entries ps ∅ !! k) -> k ∈ ps.*1.
Proof.
  assert (Hgen : forall m, is_Some (insert_entries ps m !! k) -> k ∈ ps.*1 \/ is_Some (m !! k)).
  { induction ps as [|[k' v'] ps IH]; intros m Hs; [by right|]. cbn in Hs.
    destruct (IH _ Hs) as [Hi|Hm]; [left; cbn; by right|].
    destruct (decide (k = k')) as [->|Hne]; [left; cbn; by left|].
    right. by rewrite lookup_insert_ne in Hm. }
  intros [Hi|[v Hv]]%Hgen; [done|]. by rewrite lookup_empty in Hv.
Qed.

Lemma insert_entries_map (order : list (bytes * bytes)) (m : gmap bytes bytes) :
  order ≡ₚ map_to_list m -> insert_entries order ∅ = m.
Proof.
  intros Ho. assert (Hnd : NoDup order.*1) by (rewrite Ho; apply NoDup_fst_map_to_list).
  apply map_eq. intros k. destruct (m !! k) as [v|] eqn:E.
  - apply insert_entries_lookup; [done|]. rewrite Ho. by apply elem_of_map_to_list.
  - apply eq_None_not_Some. intros Hs%insert_entries_dom.
    rewrite Ho in Hs. apply list_elem_of_fmap in Hs as ([k' v] & -> & Hin).
    apply elem_of_map_to_list in Hin. cbn in E. congruence.
Qed.

Lemma zap_response_roundtrips (order : list (bytes * bytes)) (r : ZapResponse) :
  response_ok r -> order ≡ₚ map_to_list (zp_metadata r) ->
  zap_response_decode (zap_response_encode order r) = Some (Ok r).
Proof.
  intros [Hf Hm] Ho. destruct (zap_response_decode_iff (zap_response_encode order r)) as (r' & -> & Hiff).
  f_equal. apply Hiff. split; [done|].
  assert (Hall : Forall entry_ok order).
  { rewrite Ho. apply list.Forall_forall. intros [k v] Hin%elem_of_map_to_list. exact (Hm k v Hin). }
  exists order. split; [done|]. split; [|symmetry; by apply insert_entries_map].
  unfold zap_response_encode, response_frames. case_bool_decide as He; [|by rewrite encode_entries_spec].
  rewrite He, map_to_list_empty in Ho. apply Permutation_nil_r in Ho. by subst.
Qed.
