(* ===== verification/ZapAuth.v ===== *)
(** * Authentication: handlers, ZAP server and ZAP client

    [PlainAuthHandler] and [StaticPlainHandler] of
    monocoque-zmtp/src/security/plain.rs, [ZapHandler], [DefaultZapHandler] and
    [ZapServer] of zap_handler.rs, [ZapClient] of zap_client.rs.

    The two traits are classes.  The client and the server talk over message
    sockets ([MessageSocket]: the DEALER sockets of the code), an argument of
    their definitions; [Loopback] joins one client to one server. *)

From S2P Require Import Prelude.
From S2P Require Import Options.
From S2P Require Import SegBuffer.
From S2P Require Import Codec.
From S2P Require Import Ready.
From S2P Require Import Zap.
From S2P Require Import Stream.

(** ** PLAIN credential check *)

(** The user identifier, or the reason of the refusal. *)
Class PlainAuthHandler (H : Type) :=
  plain_authenticate : H -> forall username password domain address : bytes, result bytes bytes.

Record StaticPlainHandler := mk_static_handler { credentials : gmap bytes bytes }.

Definition static_handler_new : StaticPlainHandler := mk_static_handler ∅.

Definition add_user (h : StaticPlainHandler) (username password : bytes) : StaticPlainHandler :=
  mk_static_handler (<[username := password]> (credentials h)).

Definition DUMMY_PASSWORD : bytes :=
  [Byte.x00] ++ ascii_bytes "monocoque-plain-miss-placeholder" ++ [Byte.x00].

Definition static_authenticate (h : StaticPlainHandler) (username password domain address : bytes)
    : result bytes bytes :=
  let expected := credentials h !! username in
  let reference := default DUMMY_PASSWORD expected in
  let password_matches := bool_decide (reference = password) in
  if bool_decide (is_Some expected) && password_matches
  then Ok username
  else Err (ascii_bytes "Invalid credentials").

#[export] Instance static_plain_handler : PlainAuthHandler StaticPlainHandler := static_authenticate.

(** ** ZAP handlers *)

Class ZapHandler (H : Type) := zap_authenticate : H -> ZapRequest -> ZapResponse.

Record DefaultZapHandler (H : Type) := mk_zap_handler {
  plain_handler : H;
  accept_curve : bool;
  curve_key_whitelist : option (gset bytes);
}.
Arguments mk_zap_handler {H} _ _ _.
Arguments plain_handler {H} _.
Arguments accept_curve {H} _.
Arguments curve_key_whitelist {H} _.

Definition zap_handler_new {H} (h : H) (accept : bool) : DefaultZapHandler H := mk_zap_handler h accept None.

Definition with_curve_whitelist {H} (h : DefaultZapHandler H) (keys : list bytes) : DefaultZapHandler H :=
  mk_zap_handler (plain_handler h) (accept_curve h) (Some (list_to_set keys)).

(** [{b:02x}]. *)
Definition hex_digit (n : Z) : byte := u8 (if n <? 10 then 48 + n else 87 + n).
Definition hex_byte (b : byte) : bytes := [hex_digit (u8_val b / 16); hex_digit (u8_val b mod 16)].
Definition hex (bs : bytes) : bytes := concat (hex_byte <$> bs).

Definition default_authenticate {H} `{PlainAuthHandler H} (h : DefaultZapHandler H) (request : ZapRequest)
    : ZapResponse :=
  let rid := zq_request_id request in
  let fail reason := zap_response_failure rid (ascii_bytes reason) in
  if negb (bool_decide (zq_version request = ZAP_VERSION)) then fail "Unsupported ZAP request version"%string
  else match zq_mechanism request with
  | ZapNull =>
      if negb (bool_decide (zq_credentials request = [])) then fail "Unexpected credentials"%string
      else zap_response_success rid []
  | ZapPlain =>
      match zq_credentials request with
      | [username; password] =>
          if negb (utf8_valid username) then fail "Invalid UTF-8 username"%string
          else if negb (utf8_valid password) then fail "Invalid UTF-8 password"%string
          else match plain_authenticate (plain_handler h) username password
                       (zq_domain request) (zq_address request) with
          | Ok user_id => zap_response_success rid user_id
          | Err reason => zap_response_failure rid reason
          end
      | _ => fail "Missing credentials"%string
      end
  | ZapCurve =>
      if negb (accept_curve h) then fail "CURVE not enabled"%string
      else match zq_credentials request with
      | [public_key] =>
          if negb (len public_key =? 32) then fail "Invalid CURVE key length"%string
          else if forallb (λ b, u8_val b =? 0) public_key then fail "Invalid CURVE public key"%string
          else if match curve_key_whitelist h with
                  | Some whitelist => negb (bool_decide (public_key ∈ whitelist))
                  | None => false
                  end
          then fail "CURVE key not in whitelist"%string
          else zap_response_success rid (hex public_key)
      | _ => fail "Missing CURVE public key"%string
      end
  end.

#[export] Instance default_zap_handler {H} `{PlainAuthHandler H} : ZapHandler (DefaultZapHandler H) :=
  default_authenticate.

(** ** Sockets of whole messages *)

Class MessageSocket (S : Type) := {
  msg_send : S -> list bytes -> outcome unit * S;
  msg_recv : S -> outcome (option (list bytes)) * S;
}.

(** One turn of the loop of [ZapServer::start]; an error of [recv] ends it. *)
Definition zap_server_turn {S H} `{MessageSocket S, ZapHandler H} (h : H) (s : S) : outcome unit * S :=
  await! msg, s := msg_recv s in
  match msg with
  | None => (Returned (Ok tt), s)
  | Some msg =>
      match zap_request_decode msg with
      | Err _ => (Returned (Ok tt), s)
      | Ok request =>
          let response := zap_authenticate h request in
          let frames := zap_response_encode (map_to_list (zp_metadata response)) response in
          match msg_send s frames with
          | (Pending, s) => (Pending, s)
          | (Panicked, s) => (Panicked, s)
          | (Returned _, s) => (Returned (Ok tt), s)
          end
      end
  end.

(** ** The client *)

Section client.
Context {S : Type} `{MessageSocket S}.

Definition denial_response (request_id : bytes) (reason : string) : ZapResponse :=
  mk_zap_response ZAP_VERSION request_id Failure (ascii_bytes reason) [] ∅.

Definition check_response (request : ZapRequest) (frames : list bytes) : outcome ZapResponse :=
  match zap_response_decode frames with
  | None => Panicked
  | Some (Err _) => Returned (Err InvalidData)
  | Some (Ok response) =>
      if negb (bool_decide (zp_version response = ZAP_VERSION)) then Returned (Err InvalidData)
      else if negb (bool_decide (zp_request_id response = zq_request_id request)) then Returned (Err InvalidData)
      else Returned (Ok response)
  end.

(** [ZapClient::authenticate]; its timer covers the reception. *)
Definition client_authenticate (s : S) (request : ZapRequest) : outcome ZapResponse * S :=
  match msg_send s (zap_request_encode request) with
  | (Returned (Err NotFound), s) =>
      (Returned (Ok (denial_response (zq_request_id request)
         "No ZAP handler registered - connection denied by default")), s)
  | (Returned (Err e), s) => (Returned (Err e), s)
  | (Pending, s) => (Pending, s)
  | (Panicked, s) => (Panicked, s)
  | (Returned (Ok _), s) =>
      match msg_recv s with
      | (Returned (Ok (Some frames)), s) => (check_response request frames, s)
      | (Returned (Ok None), s) => (Returned (Err ConnectionReset), s)
      | (Returned (Err NotFound), s) =>
          (Returned (Ok (denial_response (zq_request_id request)
             "ZAP handler unavailable - connection denied by default")), s)
      | (Returned (Err e), s) => (Returned (Err e), s)
      | (Pending, s) => (Returned (Err TimedOut), s)
      | (Panicked, s) => (Panicked, s)
      end
  end.

(** The request counter is process-wide; its next value is the third result. *)
Definition authenticate_plain (counter : Z) (s : S) (username password domain address : bytes)
    : outcome ZapResponse * S * Z :=
  let (request, counter) :=
    zap_request_new_with_unique_id counter domain address [] ZapPlain [username; password] in
  (client_authenticate s request, counter).

Definition authenticate_curve (counter : Z) (s : S) (client_key domain address : bytes)
    : outcome ZapResponse * S * Z :=
  let (request, counter) :=
    zap_request_new_with_unique_id counter domain address [] ZapCurve [client_key] in
  (client_authenticate s request, counter).
End client.

Definition create_plain_zap_request (request_id domain address identity username password : bytes) : ZapRequest :=
  zap_request_new request_id domain address identity ZapPlain [username; password].

Definition create_curve_zap_request (request_id domain address identity client_public_key : bytes) : ZapRequest :=
  zap_request_new request_id domain address identity ZapCurve [client_public_key].

(** ** One client and one server, joined by two queues *)

Record Queues := mk_queues {
  to_server : list (list bytes);
  to_client : list (list bytes);
}.

(** The server's end: it waits while there is no request. *)
#[export] Instance server_end : MessageSocket Queues := {
  msg_send q m := (Returned (Ok tt), mk_queues (to_server q) (to_client q ++ [m]));
  msg_recv q := match to_server q with
                | [] => (Pending, q)
                | m :: ms => (Returned (Ok (Some m)), mk_queues ms (to_client q))
                end;
}.

(** The server runs until it waits again. *)
Fixpoint serve {H} `{ZapHandler H} (h : H) (fuel : nat) (q : Queues) : Queues :=
  match fuel with
  | O => q
  | S fuel => match zap_server_turn h q with
              | (Returned _, q) => serve h fuel q
              | (_, q) => q
              end
  end.

(** The client's end: while the client waits, the server runs. *)
Record ClientEnd (H : Type) := mk_client_end { ce_handler : H; ce_queues : Queues }.
Arguments mk_client_end {H} _ _.
Arguments ce_handler {H} _.
Arguments ce_queues {H} _.

#[export] Instance client_end {H} `{ZapHandler H} : MessageSocket (ClientEnd H) := {
  msg_send c m :=
    (Returned (Ok tt), mk_client_end (ce_handler c)
       (mk_queues (to_server (ce_queues c) ++ [m]) (to_client (ce_queues c))));
  msg_recv c :=
    let q := serve (ce_handler c) (length (to_server (ce_queues c))) (ce_queues c) in
    match to_client q with
    | [] => (Pending, mk_client_end (ce_handler c) q)
    | m :: ms => (Returned (Ok (Some m)), mk_client_end (ce_handler c) (mk_queues (to_server q) ms))
    end;
}.

Definition fresh_client {H} (h : H) : ClientEnd H := mk_client_end h (mk_queues [] []).

(** ** A request, the handler's answer, and what the client makes of it *)

(** A response without metadata is decoded as it is, or refused. *)
Lemma plain_response_decodes r :
  zp_metadata r = ∅ ->
  (response_fields_ok r /\ zap_response_decode (zap_response_encode (map_to_list (zp_metadata r)) r) = Some (Ok r)) \/
  (~ response_fields_ok r /\
   exists e, zap_response_decode (zap_response_encode (map_to_list (zp_metadata r)) r) = Some (Err e)).
Proof.
  intros Hm. set (fs := zap_response_encode _ _).
  assert (Hfs : fs = response_frames r []).
  { unfold fs, zap_response_encode, response_frames. by rewrite bool_decide_eq_true_2. }
  destruct (zap_response_decode_iff fs) as (res & -> & Hiff). destruct res as [resp|e].
  - destruct (proj1 (Hiff resp) eq_refl) as (Hok & ps & _ & Hf & Hmd). rewrite Hfs in Hf.
    injection Hf as Hv Hi Hs%(inj zap_status_as_str) Ht Hu Hps.
    assert (ps = []) as -> by (destruct ps as [|[]]; [done|done]).
    assert (resp = r) as -> by (destruct resp, r; cbn in *; congruence). by left.
  - right. split; [|by eexists]. intros Hok. assert (Hc : Err e = Ok r); [|done].
    apply Hiff. split; [done|]. exists []. by rewrite Hm.
Qed.

Section exchange.
Context {H : Type} `{ZapHandler H} (h : H).

Lemma server_answers request ms out :
  request_ok request ->
  let r := zap_authenticate h request in
  zap_server_turn h (mk_queues (zap_request_encode request :: ms) out)
    = (Returned (Ok tt), mk_queues ms (out ++ [zap_response_encode (map_to_list (zp_metadata r)) r])).
Proof.
  intros Hok. unfold zap_server_turn. cbn [msg_recv msg_send server_end to_server to_client await_bind].
  by rewrite (proj2 (zap_request_decode_iff _ request)).
Qed.

(** The client gets the handler's answer to its request, unless the answer is
    one that no ZAP response may carry. *)
Lemma client_gets_answer request :
  request_ok request ->
  let r := zap_authenticate h request in
  zp_metadata r = ∅ -> zp_request_id r = zq_request_id request ->
  (response_fields_ok r /\ (client_authenticate (fresh_client h) request).1 = Returned (Ok r)) \/
  (~ response_fields_ok r /\ (client_authenticate (fresh_client h) request).1 = Returned (Err InvalidData)).
Proof.
  intros Hok r Hm Hid. unfold client_authenticate, fresh_client. cbn [msg_send client_end].
  cbn [msg_recv client_end ce_queues ce_handler to_server to_client app length serve].
  rewrite server_answers by done. fold r. cbn [serve app to_client fst].
  unfold check_response. destruct (plain_response_decodes r Hm) as [[Hf ->]|[Hf [e ->]]].
  - left. split; [done|]. rewrite !bool_decide_eq_true_2 by (done || apply Hf). done.
  - by right.
Qed.

(** A request the server cannot decode is dropped: the client times out. *)
Lemma bad_request_times_out request :
  (forall r, zap_request_decode (zap_request_encode request) <> Ok r) ->
  (client_authenticate (fresh_client h) request).1 = Returned (Err TimedOut).
Proof.
  intros Hbad. unfold client_authenticate, fresh_client. cbn [msg_send client_end].
  cbn [msg_recv client_end ce_queues ce_handler to_server to_client app length serve].
  unfold zap_server_turn. cbn [msg_recv msg_send server_end to_server to_client await_bind].
  destruct (zap_request_decode _) as [r|e]; [by destruct (Hbad r)|]. done.
Qed.
End exchange.

Lemma unique_request_ok counter domain address m cs :
  0 <= counter -> utf8_valid domain = true -> utf8_valid address = true -> address <> [] ->
  len cs = expected_credentials m ->
  request_ok (zap_request_new_with_unique_id counter domain address [] m cs).1.
Proof.
  intros Hc Hd Ha Hne Hcs. split_and!; try done.
  - apply utf8_valid_ascii. by apply dec_digits_ascii.
Qed.

Lemma success_fields_ok counter user :
  0 <= counter -> response_fields_ok (zap_response_success (fmt_u64 counter) user) <-> is_ascii user = true.
Proof.
  intros Hc. split; [by intros (_ & _ & _ & _ & ?)|]. intros Hu. split_and!; try done.
  apply utf8_valid_ascii. by apply dec_digits_ascii.
Qed.

Lemma failure_fields_ok counter reason :
  0 <= counter -> utf8_valid reason = true -> len reason <= 255 ->
  response_fields_ok (zap_response_failure (fmt_u64 counter) reason).
Proof.
  intros Hc Hr Hl. split_and!; try done. apply utf8_valid_ascii. by apply dec_digits_ascii.
Qed.

Lemma hex_ascii bs : is_ascii (hex bs) = true.
Proof.
  unfold is_ascii, hex. induction bs as [|b bs IH]; [done|]. cbn [fmap list_fmap concat].
  rewrite forallb_app, IH, andb_true_r.
  apply (byte_forall_bool (λ b, forallb (in_range 0 127) (hex_byte b))). vm_compute. done.
Qed.

(** The verdict of a server that checks a static table, as its client sees it. *)
Lemma static_plain_verdict (sh : StaticPlainHandler) (accept : bool) (counter : Z)
    (username password domain address : bytes) :
  0 <= counter -> utf8_valid username = true -> utf8_valid password = true ->
  utf8_valid domain = true -> utf8_valid address = true -> address <> [] ->
  (authenticate_plain counter (fresh_client (zap_handler_new sh accept)) username password domain address).1.1 =
    if bool_decide (credentials sh !! username = Some password)
    then (if is_ascii username
          then Returned (Ok (zap_response_success (fmt_u64 counter) username))
          else Returned (Err InvalidData))
    else Returned (Ok (zap_response_failure (fmt_u64 counter) (ascii_bytes "Invalid credentials"))).
Proof.
  intros Hc Hu Hp Hd Ha Hne. unfold authenticate_plain.
  pose proof (unique_request_ok counter domain address ZapPlain [username; password] Hc Hd Ha Hne eq_refl) as Hok.
  cbn [zap_request_new_with_unique_id next_request_id fst] in *.
  set (req := zap_request_new _ _ _ _ _ _) in *. set (h := zap_handler_new sh accept).
  assert (Hr : zap_authenticate h req =
    if bool_decide (credentials sh !! username = Some password)
    then zap_response_success (fmt_u64 counter) username
    else zap_response_failure (fmt_u64 counter) (ascii_bytes "Invalid credentials")).
  { unfold zap_authenticate, default_zap_handler, default_authenticate.
    cbn [zq_version zq_mechanism zq_credentials req zap_request_new]. rewrite bool_decide_eq_true_2 by done.
    rewrite Hu, Hp. cbn [negb]. unfold plain_authenticate, static_plain_handler, static_authenticate.
    cbn [plain_handler h zap_handler_new]. destruct (credentials sh !! username) as [pw|]; cbn.
    - destruct (decide (pw = password)) as [->|Hpw]; [by rewrite !bool_decide_eq_true_2|].
      by rewrite (bool_decide_eq_false_2 (Some pw = _)), (bool_decide_eq_false_2 (pw = _)) by congruence.
    - by rewrite (bool_decide_eq_false_2 (None = _)). }
  cbn [fst snd]. destruct (client_gets_answer h req Hok) as [[Hf ->]|[Hf ->]]; rewrite ?Hr in *.
  - by case_bool_decide.
  - by case_bool_decide.
  - case_bool_decide; [|done]. apply success_fields_ok in Hf; [|done]. by rewrite Hf.
  - case_bool_decide.
    + rewrite success_fields_ok in Hf by done. by destruct (is_ascii username).
    + destruct Hf. by apply failure_fields_ok.
Qed.

(** PLAIN over ZAP, end to end.  A PLAIN request put to a server that checks a
    static table of credentials is answered for this request: with the user
    name when the table holds the name with this password, and with a refusal
    that does not say why otherwise.  A user whose name is not ASCII is
    registered in vain: the client refuses the positive answer. *)
Theorem plain_over_zap (sh : StaticPlainHandler) (accept : bool) (counter : Z)
    (username password domain address : bytes) :
  0 <= counter -> utf8_valid username = true -> utf8_valid password = true ->
  utf8_valid domain = true -> utf8_valid address = true -> address <> [] ->
  (authenticate_plain counter (fresh_client (zap_handler_new sh accept)) username password domain address).1.1 =
    if bool_decide (credentials sh !! username = Some password)
    then (if is_ascii username
          then Returned (Ok (zap_response_success (fmt_u64 counter) username))
          else Returned (Err InvalidData))
    else Returned (Ok (zap_response_failure (fmt_u64 counter) (ascii_bytes "Invalid credentials"))).
Proof. apply static_plain_verdict. Qed.

Definition example_handler : StaticPlainHandler :=
  add_user (add_user static_handler_new (ascii_bytes "admin") (ascii_bytes "secret"))
    [u8 0xC3; u8 0xA9] (ascii_bytes "pw").

Lemma plain_over_zap_witness :
  let ask u p := (authenticate_plain 7 (fresh_client (zap_handler_new example_handler true)) u p
                    (ascii_bytes "global") (ascii_bytes "unknown")).1.1 in
  ask (ascii_bytes "admin") (ascii_bytes "secret")
    = Returned (Ok (zap_response_success (ascii_bytes "7") (ascii_bytes "admin"))) /\
  ask [u8 0xC3; u8 0xA9] (ascii_bytes "pw") = Returned (Err InvalidData).
Proof.
  cbv zeta. split.
  - rewrite (plain_over_zap example_handler true 7 (ascii_bytes "admin") (ascii_bytes "secret")
      (ascii_bytes "global") (ascii_bytes "unknown")); [vm_compute; reflexivity|lia|reflexivity..|discriminate].
  - rewrite (plain_over_zap example_handler true 7 [u8 0xC3; u8 0xA9] (ascii_bytes "pw")
      (ascii_bytes "global") (ascii_bytes "unknown")); [vm_compute; reflexivity|lia|reflexivity..|discriminate].
Defined.

(** What the default handler asks of a CURVE key. *)
Definition curve_key_ok {H} (h : DefaultZapHandler H) (key : bytes) : Prop :=
  accept_curve h = true /\ len key = 32 /\ Exists (λ b, u8_val b <> 0) key /\
  from_option (λ w, key ∈ w) True (curve_key_whitelist h).

Lemma some_byte_nonzero key :
  forallb (λ b, u8_val b =? 0) key = false <-> Exists (λ b, u8_val b <> 0) key.
Proof.
  induction key as [|b key IH]; cbn.
  - split; [done|]. intros He. inversion He.
  - rewrite List.Exists_cons, <- IH. destruct (Z.eqb_spec (u8_val b) 0); cbn; naive_solver.
Qed.

Lemma curve_decision {H} `{PlainAuthHandler H} (h : DefaultZapHandler H) rid domain address key :
  let r := zap_authenticate h (zap_request_new rid domain address [] ZapCurve [key]) in
  (r = zap_response_success rid (hex key) /\ curve_key_ok h key) \/
  (exists reason, r = zap_response_failure rid (ascii_bytes reason) /\
     utf8_valid (ascii_bytes reason) = true /\ len (ascii_bytes reason) <= 255 /\ ~ curve_key_ok h key).
Proof.
  unfold zap_authenticate, default_zap_handler, default_authenticate.
  cbn [zq_version zq_mechanism zq_credentials zq_request_id zap_request_new].
  rewrite bool_decide_eq_true_2 by done. cbn [negb]. unfold curve_key_ok.
  destruct (accept_curve h); cbn [negb].
  2: { right. eexists. split_and!; [done|done|vm_compute; done|]. by intros [? _]. }
  destruct (Z.eqb_spec (len key) 32) as [Hl|Hl]; cbn [negb].
  2: { right. eexists. split_and!; [done|done|vm_compute; done|]. intros (_ & Hl' & _). done. }
  destruct (forallb _ key) eqn:Ez.
  { right. eexists. split_and!; [done|done|vm_compute; done|]. intros (_ & _ & Hz%some_byte_nonzero & _). congruence. }
  apply some_byte_nonzero in Ez.
  destruct (curve_key_whitelist h) as [w|]; [|by left].
  case_bool_decide as Hw; cbn [negb]; [by left|].
  right. eexists. split_and!; [done|done|vm_compute; done|]. intros (_ & _ & _ & Hin). done.
Qed.

(** The verdict on a CURVE key, as the client of the default handler sees it. *)
Lemma default_curve_verdict {H : Type} `{PlainAuthHandler H} (h : DefaultZapHandler H) (counter : Z)
    (key domain address : bytes) :
  0 <= counter -> utf8_valid domain = true -> utf8_valid address = true -> address <> [] ->
  exists resp,
    (authenticate_curve counter (fresh_client h) key domain address).1.1 = Returned (Ok resp) /\
    zp_request_id resp = fmt_u64 counter /\
    (zp_status_code resp = Success /\ zp_user_id resp = hex key \/
     zp_status_code resp = Failure /\ zp_user_id resp = []) /\
    (zp_status_code resp = Success <-> curve_key_ok h key).
Proof.
  intros Hc Hd Ha Hne. unfold authenticate_curve.
  pose proof (unique_request_ok counter domain address ZapCurve [key] Hc Hd Ha Hne eq_refl) as Hok.
  cbn [zap_request_new_with_unique_id next_request_id fst snd] in *.
  destruct (curve_decision h (fmt_u64 counter) domain address key) as [[Hr Hg]|(reason & Hr & Hu & Hl & Hg)];
    (destruct (client_gets_answer h _ Hok) as [[Hf ->]|[Hf ->]]; rewrite Hr in *; try done).
  - eexists. split_and!; [done|done|by left|by split].
  - destruct Hf. apply success_fields_ok; [done|apply hex_ascii].
  - eexists. split_and!; [done|done|by right|]. split; [done|by intros ?%Hg].
  - destruct Hf. by apply failure_fields_ok.
Qed.

(** The default handler accepts a CURVE key over ZAP exactly when CURVE is
    enabled, the key has 32 bytes that are not all zero, and it is on the
    whitelist when there is one; the user it reports is the key in hexadecimal.
    Every other key is refused with a 400 response. *)
Theorem curve_over_zap {H : Type} `{PlainAuthHandler H} (h : DefaultZapHandler H) (counter : Z)
    (key domain address : bytes) :
  0 <= counter -> utf8_valid domain = true -> utf8_valid address = true -> address <> [] ->
  exists resp,
    (authenticate_curve counter (fresh_client h) key domain address).1.1 = Returned (Ok resp) /\
    zp_request_id resp = fmt_u64 counter /\
    (zp_status_code resp = Success /\ zp_user_id resp = hex key \/
     zp_status_code resp = Failure /\ zp_user_id resp = []) /\
    (zp_status_code resp = Success <-> curve_key_ok h key).
Proof. apply default_curve_verdict. Qed.

Definition example_key : bytes := repeat (u8 0xA7) 32.

Definition whitelisting_handler : DefaultZapHandler StaticPlainHandler :=
  with_curve_whitelist (zap_handler_new static_handler_new true) [example_key].

Lemma curve_over_zap_witness :
  exists resp,
    (authenticate_curve 1 (fresh_client whitelisting_handler) example_key [] (ascii_bytes "unknown")).1.1
      = Returned (Ok resp) /\ zp_status_code resp = Success.
Proof.
  destruct (curve_over_zap whitelisting_handler 1 example_key [] (ascii_bytes "unknown"))
    as (resp & Hr & _ & _ & Hiff); [lia|reflexivity|reflexivity|discriminate|].
  exists resp. split; [exact Hr|]. apply Hiff. split_and!.
  - reflexivity.
  - reflexivity.
  - left. vm_compute. discriminate.
  - cbn. set_solver.
Defined.
