(* ===== verification/Plain.v ===== *)
(** * PLAIN handshakes

    The username/password exchange of monocoque-zmtp/src/security/plain.rs and
    the trailing-byte check of security/protocol.rs, as processes. *)

From S2P Require Import Prelude.
From S2P Require Import Options.
From S2P Require Import SegBuffer.
From S2P Require Import Codec.
From S2P Require Import Greeting.
From S2P Require Import Ready.
From S2P Require Import Stream.
From S2P Require Import Zap.
From S2P Require Import ZapAuth.
From S2P Require Import Proc.

Definition PLAIN_HELLO : bytes := [u8 5] ++ ascii_bytes "HELLO".
Definition PLAIN_WELCOME : bytes := [u8 7] ++ ascii_bytes "WELCOME".
Definition PLAIN_ERROR : bytes := [u8 5] ++ ascii_bytes "ERROR".

(** Milliseconds. *)
Definition TRAILING_BYTE_CHECK_TIMEOUT : Z := 10.

Record PlainCredentials := mk_credentials {
  pc_username : bytes;
  pc_password : bytes;
}.

(** [protocol.rs]: a fixed prefix, read and compared. *)
Definition read_command_prefix (expected : bytes) (t : option Z) : zproc unit :=
  do! header := read_exact (len expected) t in
  if negb (bool_decide (header = expected)) then Ret (Err Protocol) else Ret (Ok tt).

(** One more byte that arrives in time is a protocol error; a timeout or any
    other failure is what is hoped for. *)
Definition reject_immediately_available_trailing_bytes (t : Z) : zproc unit :=
  proc_bind (read_exact_with_timeout 1 (Some t))
    (λ r, Ret (match r with Ok _ => Err Protocol | Err _ => Ok tt end)).

(** The end of the client: the length and the name of the server's command. *)
Definition plain_read_reply (t : option Z) : zproc unit :=
  do! len_buf := read_exact 1 t in
  let cmd_len := byte_at len_buf 0 in
  if (cmd_len =? 0) || (32 <? cmd_len) then Ret (Err Protocol) else
  do! cmd_buf := read_exact cmd_len t in
  if bool_decide (cmd_buf = ascii_bytes "WELCOME") then Ret (Ok tt)
  else if bool_decide (cmd_buf = ascii_bytes "ERROR") then Ret (Err AuthenticationFailed)
  else Ret (Err Protocol).

Definition plain_client_handshake (credentials : PlainCredentials) (t : option Z) : zproc unit :=
  let username_bytes := pc_username credentials in
  if 255 <? len username_bytes then Ret (Err Protocol) else
  let password_bytes := pc_password credentials in
  if 255 <? len password_bytes then Ret (Err Protocol) else
  let hello := PLAIN_HELLO ++ [u8 (len username_bytes)] ++ username_bytes
               ++ [u8 (len password_bytes)] ++ password_bytes in
  do! _ := write_all hello t in
  plain_read_reply t.

(** The first half of both servers: the HELLO command, up to the check that
    nothing follows it. *)
Definition plain_read_hello (t : option Z) : zproc (bytes * bytes) :=
  do! header := read_exact 6 t in
  if negb (bool_decide (header = PLAIN_HELLO)) then Ret (Err Protocol) else
  do! len_buf := read_exact 1 t in
  let username_len := byte_at len_buf 0 in
  do! username := read_exact username_len t in
  if negb (utf8_valid username) then Ret (Err Protocol) else
  do! len_buf := read_exact 1 t in
  let password_len := byte_at len_buf 0 in
  do! password := read_exact password_len t in
  if negb (utf8_valid password) then Ret (Err Protocol) else
  do! _ := reject_immediately_available_trailing_bytes TRAILING_BYTE_CHECK_TIMEOUT in
  Ret (Ok (username, password)).

(** The second half: WELCOME and the user, or ERROR. *)
Definition plain_answer (verdict : option bytes) (t : option Z) : zproc bytes :=
  match verdict with
  | Some user_id => do! _ := write_all PLAIN_WELCOME t in Ret (Ok user_id)
  | None => do! _ := write_all PLAIN_ERROR t in Ret (Err AuthenticationFailed)
  end.

Definition plain_server_handshake {H} `{PlainAuthHandler H} (handler : H) (domain peer_address : bytes)
    (t : option Z) : zproc bytes :=
  do! hello := plain_read_hello t in
  match plain_authenticate handler hello.1 hello.2 domain peer_address with
  | Ok user_id => plain_answer (Some user_id) t
  | Err _ => plain_answer None t
  end.

(** What the outcome of a ZAP request means to a server handshake: an answer,
    or the error it returns; a panic or a send that never ends stops it. *)
Definition zap_verdict (r : outcome ZapResponse) : zproc ZapResponse :=
  match r with
  | Returned (Ok response) => Ret (Ok response)
  | Returned (Err _) => Ret (Err AuthenticationFailed)
  | Pending => Stall
  | Panicked => Panic
  end.

(** [zap_new] is the outcome of [ZapClient::new]; [counter] the process's
    request counter. *)
Definition plain_server_handshake_zap {S} `{MessageSocket S} (zap_new : io_result S) (counter : Z)
    (domain peer_address : bytes) (t : option Z) : zproc bytes :=
  do! hello := plain_read_hello t in
  match zap_new with
  | Err _ => Ret (Err AuthenticationFailed)
  | Ok zap_client =>
      do! zap_response :=
        zap_verdict (authenticate_plain counter zap_client hello.1 hello.2 domain peer_address).1.1 in
      if bool_decide (zp_status_code zap_response = Success)
      then plain_answer (Some (zp_user_id zap_response)) t
      else plain_answer None t
  end.

(** ** One side against any peer *)

Lemma run_on_trailing d input out out' rest :
  0 < d ->
  run_on (reject_immediately_available_trailing_bytes d) input out = (Finished (Ok tt), out', rest) ->
  input = [] /\ rest = [] /\ out' = out.
Proof.
  unfold reject_immediately_available_trailing_bytes, read_exact_with_timeout. intros Hd.
  destruct (Z.eqb_spec d 0); [lia|]. cbn. destruct (Z.leb_spec 1 (len input)) as [Hl|Hl]; [done|].
  intros [= <- <-]. split_and!; [|done..]. apply len_zero_nil. pose proof (len_nonneg input). lia.
Qed.

(** The wire form of a HELLO command. *)
Definition hello_wire (username password : bytes) : bytes :=
  PLAIN_HELLO ++ [u8 (len username)] ++ username ++ [u8 (len password)] ++ password.

Lemma byte_at_len1 bs : len bs = 1 -> bs = [u8 (byte_at bs 0)] /\ 0 <= byte_at bs 0 < 256.
Proof.
  destruct bs as [|b [|c bs]]; [done| |pose proof (len_nonneg bs); rewrite !len_cons; lia].
  intros _. unfold byte_at. cbn. rewrite u8_u8_val. split; [done|apply u8_val_range].
Qed.

Lemma plain_read_hello_sound t input out u p out' rest :
  run_on (plain_read_hello t) input out = (Finished (Ok (u, p)), out', rest) ->
  input = hello_wire u p /\ rest = [] /\ out' = out /\ utf8_valid u = true /\ utf8_valid p = true.
Proof.
  unfold plain_read_hello. intros H.
  apply run_on_zbind in H as (hd & o1 & r1 & H1 & H). apply run_on_read_exact in H1 as (-> & Hl1 & ->); [|lia].
  case_bool_decide as Hh; cbn [negb] in H; [subst hd|done].
  apply run_on_zbind in H as (ul & o2 & r2 & H2 & H). apply run_on_read_exact in H2 as (-> & Hul & ->); [|lia].
  destruct (byte_at_len1 ul Hul) as [Eul Hulr].
  apply run_on_zbind in H as (us & o3 & r3 & H3 & H). apply run_on_read_exact in H3 as (-> & Hus & ->); [|lia].
  destruct (utf8_valid us) eqn:Euu; cbn [negb] in H; [|done].
  apply run_on_zbind in H as (pl & o4 & r4 & H4 & H). apply run_on_read_exact in H4 as (-> & Hpl & ->); [|lia].
  destruct (byte_at_len1 pl Hpl) as [Epl Hplr].
  apply run_on_zbind in H as (pw & o5 & r5 & H5 & H). apply run_on_read_exact in H5 as (-> & Hpw & ->); [|lia].
  destruct (utf8_valid pw) eqn:Eup; cbn [negb] in H; [|done].
  apply run_on_zbind in H as ([] & o6 & r6 & H6 & H).
  apply run_on_trailing in H6 as (-> & -> & ->); [|done]. cbn in H. simplify_eq.
  unfold hello_wire. rewrite Hus, Hpw, <- Eul, <- Epl, app_nil_r. done.
Qed.

(** The PLAIN server admits nobody without the handler's word: whatever bytes
    the peer sends, a handshake that succeeds has read exactly one HELLO command
    with UTF-8 credentials and nothing after it, the handler accepted these
    credentials and named the user, and the reply is one WELCOME. *)
Theorem plain_server_admits_only_approved {H : Type} `{PlainAuthHandler H} (handler : H)
    (domain address : bytes) (t : option Z) (input out rest user_id : bytes) :
  run_on (plain_server_handshake handler domain address t) input [] = (Finished (Ok user_id), out, rest) ->
  exists username password,
    input = hello_wire username password /\ rest = [] /\
    utf8_valid username = true /\ utf8_valid password = true /\
    plain_authenticate handler username password domain address = Ok user_id /\ out = PLAIN_WELCOME.
Proof.
  unfold plain_server_handshake. intros Hrun.
  apply run_on_zbind in Hrun as ([u p] & o & r & Hh & Hrun).
  apply plain_read_hello_sound in Hh as (-> & -> & -> & Hu & Hp). cbn [fst snd] in Hrun.
  exists u, p. destruct (plain_authenticate handler u p domain address) as [uid|reason]; cbn [plain_answer] in Hrun.
  - apply run_on_zbind in Hrun as ([] & o' & r' & Hw%run_on_write_all & Hrun). destruct Hw as [-> ->].
    cbn in Hrun. by simplify_eq.
  - apply run_on_zbind in Hrun as ([] & o' & r' & _ & Hrun). by cbn in Hrun.
Qed.

Lemma plain_server_admits_only_approved_witness :
  exists username password,
    hello_wire (ascii_bytes "admin") (ascii_bytes "secret") = hello_wire username password /\
    plain_authenticate example_handler username password [] [] = Ok (ascii_bytes "admin").
Proof.
  destruct (plain_server_admits_only_approved example_handler [] [] None
    (hello_wire (ascii_bytes "admin") (ascii_bytes "secret")) PLAIN_WELCOME [] (ascii_bytes "admin"))
    as (u & p & Hi & _ & _ & _ & Ha & _); [vm_compute; reflexivity|].
  exists u, p. split; [exact Hi|exact Ha].
Defined.

(** ** Client and server together *)

(** A timer that outlasts the trailing-byte check. *)
Definition patient (t : option Z) : Prop :=
  match t with Some d => TRAILING_BYTE_CHECK_TIMEOUT < d | None => True end.

Lemma patient_live t : patient t -> live_timer t.
Proof. unfold patient, live_timer, TRAILING_BYTE_CHECK_TIMEOUT. destruct t; [lia|done]. Qed.

#[export] Hint Resolve patient_live : mono.

Definition credentials_ok (c : PlainCredentials) : Prop :=
  len (pc_username c) <= 255 /\ len (pc_password c) <= 255 /\
  utf8_valid (pc_username c) = true /\ utf8_valid (pc_password c) = true.

Lemma byte_at_u8 n : 0 <= n < 256 -> byte_at [u8 n] 0 = n.
Proof. intros. unfold byte_at. cbn. by apply u8_val_small. Qed.

(** The client's HELLO reaches the server, whose check that nothing follows ends
    by its timer; the client waits for the reply meanwhile. *)
Lemma reach_hello {A B} cr t t' (g : unit -> zproc A) (f : bytes * bytes -> zproc B) c :
  credentials_ok cr -> patient t -> live_timer t' ->
  reaches (mk_config (elapse TRAILING_BYTE_CHECK_TIMEOUT (zbind (plain_read_reply t) g)) []
             (f (pc_username cr, pc_password cr)) []) c ->
  reaches (mk_config (zbind (plain_client_handshake cr t) g) [] (zbind (plain_read_hello t') f) []) c.
Proof.
  intros (Hu & Hp & Huu & Hup) Ht Ht' Hc. unfold plain_client_handshake, plain_read_hello.
  pose proof (len_nonneg (pc_username cr)). pose proof (len_nonneg (pc_password cr)).
  rewrite !(proj2 (Z.ltb_ge _ _)) by lia. rewrite zbind_assoc.
  apply reach_write_all_l; [by eauto with mono|]. rewrite app_nil_l.
  rewrite zbind_assoc. apply reach_read_exact_r; [done|done|].
  rewrite bool_decide_eq_true_2 by done. cbn [negb].
  rewrite zbind_assoc. apply reach_read_exact_r; [done|done|].
  rewrite zbind_assoc. apply reach_read_exact_r; [done|by rewrite byte_at_u8 by lia|].
  rewrite Huu. cbn [negb]. rewrite zbind_assoc. apply reach_read_exact_r; [done|done|].
  rewrite zbind_assoc. apply reach_read_rest_r; [done|by rewrite byte_at_u8 by lia|].
  rewrite Hup. cbn [negb].
  unfold plain_read_reply in *. rewrite zbind_assoc in Hc |- *. rewrite read_exact_live in Hc |- * by eauto with mono.
  apply reach_timeout_r; [done|done|unfold patient in Ht; by destruct t|]. done.
Qed.

(** The client reads the reply under what is left of its timer. *)
Lemma reach_reply {A B} (accepted : bool) t (g : unit -> zproc A) rest (r : zproc B) ir c :
  patient t ->
  reaches (mk_config (if accepted then g tt else Ret (Err AuthenticationFailed)) rest r ir) c ->
  reaches (mk_config (elapse TRAILING_BYTE_CHECK_TIMEOUT (zbind (plain_read_reply t) g))
             ((if accepted then PLAIN_WELCOME else PLAIN_ERROR) ++ rest) r ir) c.
Proof.
  intros Ht Hc. unfold plain_read_reply. rewrite zbind_assoc, read_exact_live by eauto with mono.
  set (k := λ len_buf : bytes, zbind _ _).
  assert (Hstep : exists t', elapse TRAILING_BYTE_CHECK_TIMEOUT
    (zbind (ReadExact 1 t (λ r, Ret (io_to_zmtp r))) k)
    = ReadExact 1 t' (λ r, zbind (Ret (io_to_zmtp r)) k)).
  { unfold patient in Ht. destruct t as [d|]; cbn [zbind proc_bind elapse]; [|by eexists].
    unfold zbind. cbn [proc_bind elapse]. rewrite (proj2 (Z.leb_gt _ _)) by lia. by eexists. }
  destruct Hstep as [t' ->].
  assert (Hk : forall name, name = (if accepted then ascii_bytes "WELCOME" else ascii_bytes "ERROR") ->
    reaches (mk_config (k [u8 (len name)]) (name ++ rest) r ir) c).
  { intros name Hn. unfold k. rewrite byte_at_u8 by (subst; by destruct accepted).
    replace ((len name =? 0) || (32 <? len name)) with false by (subst; by destruct accepted).
    rewrite zbind_assoc. apply reach_read_exact_l; [by eauto with mono|done|].
    subst name. by destruct accepted. }
  destruct accepted.
  - exact (reach_read_l 1 t' _ [u8 7] (ascii_bytes "WELCOME" ++ rest) r ir c eq_refl (Hk _ eq_refl)).
  - exact (reach_read_l 1 t' _ [u8 5] (ascii_bytes "ERROR" ++ rest) r ir c eq_refl (Hk _ eq_refl)).
Qed.

(** The server's answer and the client's reading of it. *)
Lemma reach_answer {A B} (verdict : option bytes) t t' (g : unit -> zproc A) (f : bytes -> zproc B) c :
  patient t -> live_timer t' ->
  reaches (mk_config (match verdict with Some _ => g tt | None => Ret (Err AuthenticationFailed) end) []
             (match verdict with Some u => f u | None => Ret (Err AuthenticationFailed) end) []) c ->
  reaches (mk_config (elapse TRAILING_BYTE_CHECK_TIMEOUT (zbind (plain_read_reply t) g)) []
             (zbind (plain_answer verdict t') f) []) c.
Proof.
  intros Ht Ht' Hc. destruct verdict as [u|]; cbn [plain_answer]; rewrite zbind_assoc;
    (apply reach_write_all_r; [done|]); rewrite app_nil_l.
  - rewrite <- (app_nil_r PLAIN_WELCOME). by apply (reach_reply true).
  - rewrite <- (app_nil_r PLAIN_ERROR). by apply (reach_reply false).
Qed.

(** A PLAIN client and a PLAIN server always finish, in every interleaving and
    without deadlock, and agree: both succeed, the server with the user the
    handler named, when the handler accepts the client's credentials; both fail
    with an authentication error when it does not.  The client's timer must
    outlast the server's 10 ms check for trailing bytes. *)
Theorem plain_handshakes_agree {H : Type} `{PlainAuthHandler H} (handler : H) (domain address : bytes)
    (cr : PlainCredentials) (t t' : option Z) :
  credentials_ok cr -> patient t -> live_timer t' ->
  completes (start (plain_client_handshake cr t) (plain_server_handshake handler domain address t'))
    match plain_authenticate handler (pc_username cr) (pc_password cr) domain address with
    | Ok user_id => finish (Ok tt) (Ok user_id) [] []
    | Err _ => finish (Err AuthenticationFailed) (Err AuthenticationFailed) [] []
    end.
Proof.
  intros Hc Ht Ht'.
  destruct (plain_authenticate _ _ _ _ _) as [u|e] eqn:E; apply reaches_completes; unfold start;
    rewrite <- (zbind_ret (plain_client_handshake cr t)); unfold plain_server_handshake;
    (apply reach_hello; [done..|]); cbn [fst snd]; rewrite E.
  - rewrite <- (zbind_ret (plain_answer _ _)). apply reach_answer; [done..|]. apply reaches_refl.
  - rewrite <- (zbind_ret (plain_answer _ _)). apply reach_answer; [done..|]. apply reaches_refl.
Qed.

Lemma plain_handshakes_agree_witness :
  completes
    (start (plain_client_handshake (mk_credentials (ascii_bytes "admin") (ascii_bytes "secret")) (Some 30000))
           (plain_server_handshake example_handler [] [] None))
    (finish (Ok tt) (Ok (ascii_bytes "admin")) [] []).
Proof.
  pose (cr := mk_credentials (ascii_bytes "admin") (ascii_bytes "secret")).
  assert (E : plain_authenticate example_handler (pc_username cr) (pc_password cr) [] [] = Ok (ascii_bytes "admin"))
    by (vm_compute; reflexivity).
  pose proof (plain_handshakes_agree example_handler [] [] cr (Some 30000) None) as Hc.
  rewrite E in Hc. apply Hc.
  - vm_compute. split_and!; congruence.
  - vm_compute. reflexivity.
  - exact I.
Defined.

(** ** The second READY parser

    protocol.rs repeats the READY parser of handshake.rs, with the socket type read
    as text first. *)

Definition protocol_socket_type (value : bytes) : result ZmtpError SocketType :=
  if negb (utf8_valid value) then Err Protocol
  else if bool_decide (value = ascii_bytes "PAIR") then Ok Pair
  else if bool_decide (value = ascii_bytes "DEALER") then Ok Dealer
  else if bool_decide (value = ascii_bytes "ROUTER") then Ok Router
  else if bool_decide (value = ascii_bytes "PUB") then Ok Pub
  else if bool_decide (value = ascii_bytes "SUB") then Ok Sub
  else if bool_decide (value = ascii_bytes "REQ") then Ok Req
  else if bool_decide (value = ascii_bytes "REP") then Ok Rep
  else if bool_decide (value = ascii_bytes "PUSH") then Ok Push
  else if bool_decide (value = ascii_bytes "PULL") then Ok Pull
  else if bool_decide (value = ascii_bytes "XPUB") then Ok Xpub
  else if bool_decide (value = ascii_bytes "XSUB") then Ok Xsub
  else Err Protocol.

Definition protocol_property (key value : bytes) (st : option SocketType) (id : option bytes)
    : result ZmtpError (option SocketType * option bytes) :=
  if bool_decide (key = ascii_bytes "Socket-Type") then
    match st with
    | Some _ => Err Protocol
    | None => try! t := protocol_socket_type value in Ok (Some t, id)
    end
  else if bool_decide (key = ascii_bytes "Identity") then
    match id with
    | Some _ => Err Protocol
    | None => if 255 <? len value then Err Protocol else Ok (st, Some value)
    end
  else Ok (st, id).

Fixpoint protocol_ready_loop (fuel : nat) (body : bytes) (offset : Z) (st : option SocketType) (id : option bytes)
    : option (result ZmtpError (option SocketType * option bytes)) :=
  match fuel with
  | O => None
  | S fuel =>
      if len body <=? offset then Some (Ok (st, id))
      else
        p ← read_property Protocol Protocol Protocol (λ _, Ok tt) body offset;
        match p with
        | Err e => Some (Err e)
        | Ok (key, value, offset) =>
            match protocol_property key value st id with
            | Err e => Some (Err e)
            | Ok (st, id) => protocol_ready_loop fuel body offset st id
            end
        end
  end.

Definition protocol_parse_ready_command (body : bytes) : option (result ZmtpError (SocketType * option bytes)) :=
  if len body <? 6 then Some (Err Protocol)
  else
    b ← index body 0;
    name ← slice body 1 6;
    if negb (u8_val b =? 5) || negb (bool_decide (name = ascii_bytes "READY")) then Some (Err Protocol)
    else
      r ← protocol_ready_loop (S (length body)) body 6 None None;
      match r with
      | Err e => Some (Err e)
      | Ok (Some st, id) => Some (Ok (st, id))
      | Ok (None, _) => Some (Err Protocol)
      end.

Lemma protocol_socket_type_agrees value : protocol_socket_type value = parse_socket_type value.
Proof.
  unfold protocol_socket_type. destruct (utf8_valid value) eqn:Hu; cbn [negb]; unfold parse_socket_type;
    repeat (case_bool_decide; [subst value; done|]); done.
Qed.

(** The two READY parsers are the same function: they accept the same bodies, with
    the same result, and reject the same. *)
Theorem protocol_ready_agrees (body : bytes) : protocol_parse_ready_command body = parse_ready_command body.
Proof.
  assert (Hloop : forall fuel offset st id, protocol_ready_loop fuel body offset st id = ready_loop fuel body offset st id).
  { induction fuel as [|fuel IH]; intros offset st id; [done|]. cbn [protocol_ready_loop ready_loop].
    destruct (len body <=? offset); [done|]. destruct (read_property _ _ _ _ body offset) as [[[[key value] o]|e]|]; [|done..]. cbn.
    unfold protocol_property, ready_property. rewrite protocol_socket_type_agrees.
    repeat case_match; simplify_eq; done || apply IH. }
  unfold protocol_parse_ready_command, parse_ready_command. by rewrite Hloop.
Qed.
