(* ===== verification/CurveHandshake.v ===== *)
(** * The CURVE handshake

    [CurveClient], [CurveServer] and [curve_server_handshake_zap] of
    monocoque-zmtp/src/security/curve.rs: HELLO, WELCOME, INITIATE and READY,
    each a ZMTP command frame, and the key of the message cipher both ends
    derive.

    X25519, the NaCl box, SHA-256 and the random generator are not part of the
    repository.  [CurveCrypto] is the interface of the first three (the AEAD of
    the cookie is [Aead]), an argument of every definition; the random values a
    side draws ([ClientRandom], [ServerRandom]) are arguments too.
    [CurveCryptoLaws] is what the primitives document. *)

From S2P Require Import Prelude.
From S2P Require Import Options.
From S2P Require Import SegBuffer.
From S2P Require Import Codec.
From S2P Require Import Greeting.
From S2P Require Import Ready.
From S2P Require Import Stream.
From S2P Require Import CurveMessage.
From S2P Require Import Zap.
From S2P Require Import ZapAuth.
From S2P Require Import Proc.
From S2P Require Import Plain.

Class CurveCrypto := {
  (** the public key of a secret key *)
  x25519_public : bytes -> bytes;
  (** the shared secret of a secret key and a peer's public key *)
  x25519 : bytes -> bytes -> bytes;
  (** public key, secret key, nonce, text; [None] is the library's error *)
  salsa_box_encrypt : bytes -> bytes -> bytes -> bytes -> option bytes;
  salsa_box_decrypt : bytes -> bytes -> bytes -> bytes -> option bytes;
  sha256 : bytes -> bytes;
}.

Definition CURVE_HELLO : bytes := [u8 5] ++ ascii_bytes "HELLO".
Definition CURVE_WELCOME : bytes := [u8 7] ++ ascii_bytes "WELCOME".
Definition CURVE_INITIATE : bytes := [u8 8] ++ ascii_bytes "INITIATE".
Definition CURVE_READY : bytes := [u8 5] ++ ascii_bytes "READY".
Definition MAX_INITIATE_BODY : Z := 4096.
Definition MAX_CURVE_BODY : Z := 512.
Definition CURVE_READY_NONCE_PREFIX : bytes := ascii_bytes "READY" ++ zeros 11.
Definition CURVE_KEY_SIZE : Z := 32.

(** ** Command frames *)

Definition read_zmtp_cmd (t : option Z) (max_body : Z) : zproc bytes :=
  do! flags_buf := read_exact 1 t in
  let flags := byte_at flags_buf 0 in
  if Z.land flags 0x04 =? 0 then Ret (Err Protocol) else
  do! body_len :=
    (if negb (Z.land flags 0x02 =? 0) then
       do! len_buf := read_exact 8 t in
       let raw_len := be_val len_buf in
       if usize_max <? raw_len then Ret (Err Protocol) else Ret (Ok raw_len)
     else
       do! len_buf := read_exact 1 t in
       Ret (Ok (byte_at len_buf 0))) in
  if max_body <? body_len then Ret (Err Protocol) else
  read_exact body_len t.

Definition zmtp_cmd_frame (body : bytes) : bytes :=
  (if len body <=? 255 then [u8 0x04; u8 (len body)] else [u8 0x06] ++ be_bytes 8 (len body)) ++ body.

Definition write_zmtp_cmd (body : bytes) (t : option Z) : zproc unit := write_all (zmtp_cmd_frame body) t.

(** ** Metadata *)

(** The casts truncate. *)
Definition push_prop (out key value : bytes) : bytes :=
  out ++ [u8 (len key)] ++ key ++ be_bytes 4 (u32_wrap (len value)) ++ value.

Definition encode_zmtp_props (socket_type : bytes) (identity : option bytes) : bytes :=
  let out := push_prop [] (ascii_bytes "Socket-Type") socket_type in
  match identity with
  | Some (b :: id) => push_prop out (ascii_bytes "Identity") (b :: id)
  | _ => out
  end.

(** [u8::eq_ignore_ascii_case], and its extension to slices. *)
Definition to_ascii_lowercase (b : byte) : byte := if in_range 65 90 b then u8 (u8_val b + 32) else b.
Definition eq_ignore_ascii_case (a b : bytes) : bool :=
  bool_decide (to_ascii_lowercase <$> a = to_ascii_lowercase <$> b).

(** The effect of one property. *)
Definition zmtp_property (key value : bytes) (st id : option bytes)
    : result ZmtpError (option bytes * option bytes) :=
  if eq_ignore_ascii_case key (ascii_bytes "Socket-Type") then
    match st with Some _ => Err Protocol | None => Ok (Some value, id) end
  else if eq_ignore_ascii_case key (ascii_bytes "Identity") then
    match id with
    | Some _ => Err Protocol
    | None => if 255 <? len value then Err Protocol else Ok (st, Some value)
    end
  else Ok (st, id).

(** The [while !data.is_empty()] loop; every property takes at least five
    bytes, so that the length of the data is enough fuel. *)
Fixpoint decode_props_loop (fuel : nat) (data : bytes) (st id : option bytes)
    : result ZmtpError (option bytes * option bytes) :=
  match fuel, data with
  | _, [] => Ok (st, id)
  | O, _ => Err Protocol
  | S fuel, b :: tl =>
      if len data <? 5 then Err Protocol else
      let klen := u8_val b in
      if len tl <? klen + 4 then Err Protocol else
      let key := ztake klen tl in
      let data := zdrop klen tl in
      let vlen := be_val (ztake 4 data) in
      let data := zdrop 4 data in
      if len data <? vlen then Err Protocol else
      let value := ztake vlen data in
      try! (st, id) := zmtp_property key value st id in
      decode_props_loop fuel (zdrop vlen data) st id
  end.

Definition decode_zmtp_props (data : bytes) : result ZmtpError (option bytes * option bytes) :=
  decode_props_loop (length data) data None None.

Section handshake.
Context `{CurveCrypto} `{Aead bytes}.

(** ** Keys *)

Record CurveKeyPair := mk_keypair {
  kp_public : bytes;
  kp_secret : bytes;
}.

(** [CurveKeyPair::generate], from the secret drawn. *)
Definition keypair_generate (secret : bytes) : CurveKeyPair := mk_keypair (x25519_public secret) secret.

Definition diffie_hellman (secret peer_public : bytes) : result CurveError bytes :=
  let shared := x25519 secret peer_public in
  if bool_decide (shared = zeros 32) then Err ProtocolViolation else Ok shared.

Definition salsa_encrypt (their_pk my_sk nonce_24 plaintext : bytes) : result CurveError bytes :=
  match salsa_box_encrypt their_pk my_sk nonce_24 plaintext with
  | Some ct => Ok ct
  | None => Err EncryptionFailed
  end.

Definition salsa_decrypt (their_pk my_sk nonce_24 ct : bytes) : result CurveError bytes :=
  match salsa_box_decrypt their_pk my_sk nonce_24 ct with
  | Some pt => Ok pt
  | None => Err DecryptionFailed
  end.

Definition derive_message_key (dh1 dh2 dh3 : bytes) : bytes := sha256 (dh1 ++ dh2 ++ dh3).

(** [.map_err(|_| e)?]. *)
Definition or_zmtp {E A} (r : result E A) (e : ZmtpError) : zproc A :=
  Ret (match r with Ok a => Ok a | Err _ => Err e end).

Definition ok_or_protocol {A} (o : option A) : zproc A :=
  Ret (match o with Some a => Ok a | None => Err Protocol end).

Record CurveHandshakeResult := mk_curve_result {
  cr_peer_socket_type : bytes;
  cr_peer_identity : option bytes;
  cr_peer_public_key : option bytes;
  cr_cipher : option (CurveMessageCipher bytes);
}.

(** ** Client *)

Record CurveClient := mk_curve_client {
  cc_client_keypair : CurveKeyPair;
  cc_server_public : bytes;
  cc_short_keypair : CurveKeyPair;
  cc_server_short_public : option bytes;
  cc_cookie : option bytes;
  cc_local_socket_type : bytes;
  cc_local_identity : option bytes;
  cc_peer_socket_type : option bytes;
  cc_peer_identity_recv : option bytes;
  cc_send_nonce : Z;
  cc_recv_nonce : Z;
  cc_message_box : option bytes;
}.

(** What a client draws: its short-term secret and the nonce of its vouch. *)
Record ClientRandom := mk_client_random {
  rc_short_secret : bytes;
  rc_vouch_nonce : bytes;
}.

Definition curve_client_new (rnd : ClientRandom) (client_keypair : CurveKeyPair)
    (server_public local_socket_type : bytes) (local_identity : option bytes) : CurveClient :=
  mk_curve_client client_keypair server_public (keypair_generate (rc_short_secret rnd)) None None
    local_socket_type local_identity None None 1 1 None.

Definition client_send_hello (c : CurveClient) (t : option Z) : zproc unit :=
  let nonce_counter := 1 in
  let nonce_24 := ascii_bytes "CurveZMQHELLO---" ++ be_bytes 8 nonce_counter in
  do! hello_box := or_zmtp
    (salsa_encrypt (cc_server_public c) (kp_secret (cc_short_keypair c)) nonce_24 (zeros 64)) Protocol in
  write_zmtp_cmd (CURVE_HELLO ++ [u8 1] ++ zeros 71 ++ kp_public (cc_short_keypair c)
                  ++ be_bytes 8 nonce_counter ++ hello_box) t.

Definition client_recv_welcome (c : CurveClient) (t : option Z) : zproc CurveClient :=
  do! body := read_zmtp_cmd t MAX_CURVE_BODY in
  if negb (len body =? 168) || negb (bool_decide (ztake 8 body = CURVE_WELCOME)) then Ret (Err Protocol) else
  let server_nonce_16 := ztake 16 (zdrop 8 body) in
  let welcome_box := zdrop 24 body in
  let nonce_24 := ascii_bytes "WELCOME-" ++ server_nonce_16 in
  do! plaintext := or_zmtp
    (salsa_decrypt (cc_server_public c) (kp_secret (cc_short_keypair c)) nonce_24 welcome_box) Protocol in
  if negb (len plaintext =? 128) then Ret (Err Protocol) else
  Ret (Ok (mk_curve_client (cc_client_keypair c) (cc_server_public c) (cc_short_keypair c)
             (Some (ztake 32 plaintext)) (Some (zdrop 32 plaintext)) (cc_local_socket_type c)
             (cc_local_identity c) (cc_peer_socket_type c) (cc_peer_identity_recv c)
             (cc_send_nonce c) (cc_recv_nonce c) (cc_message_box c))).

Definition client_send_initiate (rnd : ClientRandom) (c : CurveClient) (t : option Z) : zproc unit :=
  do! server_short_public := ok_or_protocol (cc_server_short_public c) in
  do! cookie := ok_or_protocol (cc_cookie c) in
  let vouch_nonce_16 := rc_vouch_nonce rnd in
  let vouch_nonce_24 := ascii_bytes "VOUCH---" ++ vouch_nonce_16 in
  let vouch_pt := kp_public (cc_short_keypair c) ++ server_short_public in
  do! vouch_ct := or_zmtp
    (salsa_encrypt (cc_server_public c) (kp_secret (cc_client_keypair c)) vouch_nonce_24 vouch_pt) Protocol in
  let vouch := vouch_nonce_16 ++ vouch_ct in
  let local_props := encode_zmtp_props (cc_local_socket_type c) (cc_local_identity c) in
  let initiate_pt := vouch ++ local_props in
  let initiate_counter := 1 in
  let initiate_nonce_24 := ascii_bytes "CurveZMQINITIATE" ++ be_bytes 8 initiate_counter in
  do! initiate_box := or_zmtp
    (salsa_encrypt server_short_public (kp_secret (cc_short_keypair c)) initiate_nonce_24 initiate_pt) Protocol in
  write_zmtp_cmd (CURVE_INITIATE ++ cookie ++ kp_public (cc_client_keypair c)
                  ++ be_bytes 8 initiate_counter ++ initiate_box) t.

Definition client_recv_ready (c : CurveClient) (t : option Z) : zproc CurveClient :=
  do! body := read_zmtp_cmd t MAX_CURVE_BODY in
  if (len body <? 30) || negb (bool_decide (ztake 6 body = CURVE_READY)) then Ret (Err Protocol) else
  let nonce_8 := ztake 8 (zdrop 6 body) in
  let ready_box := zdrop 14 body in
  do! s_prime := ok_or_protocol (cc_server_short_public c) in
  let ready_nonce_24 := CURVE_READY_NONCE_PREFIX ++ nonce_8 in
  do! metadata_bytes := or_zmtp
    (salsa_decrypt s_prime (kp_secret (cc_short_keypair c)) ready_nonce_24 ready_box) Protocol in
  do! meta := lift_result (decode_zmtp_props metadata_bytes) in
  if bool_decide (meta.1 = None) then Ret (Err Protocol) else
  do! dh1 := or_zmtp (diffie_hellman (kp_secret (cc_short_keypair c)) (cc_server_public c)) Protocol in
  do! dh2 := or_zmtp (diffie_hellman (kp_secret (cc_client_keypair c)) s_prime) Protocol in
  do! dh3 := or_zmtp (diffie_hellman (kp_secret (cc_short_keypair c)) s_prime) Protocol in
  let key := derive_message_key dh1 dh2 dh3 in
  Ret (Ok (mk_curve_client (cc_client_keypair c) (cc_server_public c) (cc_short_keypair c)
             (cc_server_short_public c) (cc_cookie c) (cc_local_socket_type c) (cc_local_identity c)
             meta.1 meta.2 (cc_send_nonce c) (cc_recv_nonce c) (Some key))).

(** The result, and the client as [handshake] leaves it: the message box has
    been taken out of it. *)
Definition client_handshake (rnd : ClientRandom) (c : CurveClient) (t : option Z)
    : zproc (CurveHandshakeResult * CurveClient) :=
  do! _ := client_send_hello c t in
  do! c := client_recv_welcome c t in
  do! _ := client_send_initiate rnd c t in
  do! c := client_recv_ready c t in
  do! message_box := ok_or_protocol (cc_message_box c) in
  let cipher := mk_cipher message_box (cc_send_nonce c) (cc_recv_nonce c) true in
  do! peer_socket_type := ok_or_protocol (cc_peer_socket_type c) in
  Ret (Ok (mk_curve_result peer_socket_type (cc_peer_identity_recv c) None (Some cipher),
           mk_curve_client (cc_client_keypair c) (cc_server_public c) (cc_short_keypair c)
             (cc_server_short_public c) (cc_cookie c) (cc_local_socket_type c) (cc_local_identity c)
             (cc_peer_socket_type c) (cc_peer_identity_recv c) (cc_send_nonce c) (cc_recv_nonce c) None)).

(** [CurveClient::encrypt_message] and [decrypt_message]: with the box and the
    counters the client itself holds.  [from_server] tells the direction of the
    messages. *)
Definition box_encrypt_message (message_box : option bytes) (from_server : bool) (send_nonce : Z) (plaintext : bytes)
    : result CurveError bytes * Z :=
  match message_box with
  | None => (Err ProtocolViolation, send_nonce)
  | Some key =>
      let short := be_bytes 8 send_nonce in
      let nonce := nonce_prefix (negb from_server) ++ short in
      match next_nonce send_nonce with
      | None => (Err ProtocolViolation, send_nonce)
      | Some n =>
          match aead_encrypt key nonce plaintext with
          | None => (Err EncryptionFailed, n)
          | Some ct => (Ok (CURVE_MESSAGE ++ short ++ ct), n)
          end
      end
  end.

Definition box_decrypt_message (message_box : option bytes) (from_server : bool) (recv_nonce : Z) (message : bytes)
    : result CurveError bytes * Z :=
  match parse_curve_message message with
  | Err e => (Err e, recv_nonce)
  | Ok parts =>
      match message_box with
      | None => (Err ProtocolViolation, recv_nonce)
      | Some key =>
          let counter := be_val (short_nonce parts) in
          if counter <? recv_nonce then (Err ProtocolViolation, recv_nonce)
          else match next_nonce counter with
          | None => (Err ProtocolViolation, recv_nonce)
          | Some n =>
              let nonce := nonce_prefix (negb from_server) ++ short_nonce parts in
              match aead_decrypt key nonce (ciphertext parts) with
              | None => (Err DecryptionFailed, n)
              | Some pt => (Ok pt, n)
              end
          end
      end
  end.

(** ** Server *)

Record CurveServer := mk_curve_server {
  cs_server_keypair : CurveKeyPair;
  cs_short_keypair : CurveKeyPair;
  cs_client_short_public : option bytes;
  cs_client_public : option bytes;
  cs_cookie_key : bytes;
  cs_local_socket_type : bytes;
  cs_peer_socket_type : option bytes;
  cs_peer_identity_recv : option bytes;
  cs_send_nonce : Z;
  cs_recv_nonce : Z;
  cs_message_box : option bytes;
}.

(** What a server draws. *)
Record ServerRandom := mk_server_random {
  rs_cookie_key : bytes;
  rs_short_secret : bytes;
  rs_cookie_nonce : bytes;
  rs_server_nonce : bytes;
}.

Definition curve_server_new (rnd : ServerRandom) (server_keypair : CurveKeyPair) (local_socket_type : bytes)
    : CurveServer :=
  mk_curve_server server_keypair (keypair_generate (rs_short_secret rnd)) None None (rs_cookie_key rnd)
    local_socket_type None None 1 1 None.

Definition server_recv_hello (s : CurveServer) (t : option Z) : zproc CurveServer :=
  do! body := read_zmtp_cmd t MAX_CURVE_BODY in
  if negb (len body =? 198) || negb (bool_decide (ztake 6 body = CURVE_HELLO)) then Ret (Err Protocol) else
  if negb (byte_at body 6 =? 1) then Ret (Err Protocol) else
  let c_prime_pk_bytes := ztake 32 (zdrop 78 body) in
  let nonce_suffix := ztake 8 (zdrop 110 body) in
  let hello_box := zdrop 118 body in
  if be_val nonce_suffix =? 0 then Ret (Err Protocol) else
  let nonce_24 := ascii_bytes "CurveZMQHELLO---" ++ nonce_suffix in
  do! plaintext := or_zmtp
    (salsa_decrypt c_prime_pk_bytes (kp_secret (cs_server_keypair s)) nonce_24 hello_box) AuthenticationFailed in
  if negb (len plaintext =? 64) || existsb (λ b, negb (u8_val b =? 0)) plaintext
  then Ret (Err AuthenticationFailed) else
  Ret (Ok (mk_curve_server (cs_server_keypair s) (cs_short_keypair s) (Some c_prime_pk_bytes)
             (cs_client_public s) (cs_cookie_key s) (cs_local_socket_type s) (cs_peer_socket_type s)
             (cs_peer_identity_recv s) (cs_send_nonce s) (cs_recv_nonce s) (cs_message_box s))).

Definition server_send_welcome (rnd : ServerRandom) (s : CurveServer) (t : option Z) : zproc unit :=
  do! c_prime_pk := ok_or_protocol (cs_client_short_public s) in
  let cookie_nonce_16 := rs_cookie_nonce rnd in
  let cookie_nonce_24 := ascii_bytes "COOKIE--" ++ cookie_nonce_16 in
  let cookie_pt := c_prime_pk ++ kp_secret (cs_short_keypair s) in
  do! cookie_ct := ok_or_protocol (aead_encrypt (cs_cookie_key s) cookie_nonce_24 cookie_pt) in
  let cookie := cookie_nonce_16 ++ cookie_ct in
  let server_nonce_16 := rs_server_nonce rnd in
  let welcome_nonce_24 := ascii_bytes "WELCOME-" ++ server_nonce_16 in
  let welcome_pt := kp_public (cs_short_keypair s) ++ cookie in
  do! welcome_box := or_zmtp
    (salsa_encrypt c_prime_pk (kp_secret (cs_server_keypair s)) welcome_nonce_24 welcome_pt) Protocol in
  write_zmtp_cmd (CURVE_WELCOME ++ server_nonce_16 ++ welcome_box) t.

(** The vouch inside an INITIATE: the client's long-term key holder names the
    two short-term keys of this connection. *)
Definition check_vouch (s : CurveServer) (c_prime_pk c_pk vouch : bytes) : result ZmtpError unit :=
  let vouch_nonce_24 := ascii_bytes "VOUCH---" ++ ztake 16 vouch in
  match salsa_decrypt c_pk (kp_secret (cs_server_keypair s)) vouch_nonce_24 (zdrop 16 vouch) with
  | Err _ => Err AuthenticationFailed
  | Ok vouch_pt =>
      if negb (len vouch_pt =? 64) then Err AuthenticationFailed
      else if negb (bool_decide (ztake 32 vouch_pt = c_prime_pk)) then Err AuthenticationFailed
      else if negb (bool_decide (zdrop 32 vouch_pt = kp_public (cs_short_keypair s))) then Err AuthenticationFailed
      else Ok tt
  end.

Definition server_recv_initiate (s : CurveServer) (t : option Z) : zproc CurveServer :=
  do! body := read_zmtp_cmd t MAX_INITIATE_BODY in
  if (len body <? 145) || negb (bool_decide (ztake 9 body = CURVE_INITIATE)) then Ret (Err Protocol) else
  let cookie_bytes := ztake 96 (zdrop 9 body) in
  let c_pk := ztake 32 (zdrop 105 body) in
  let nonce_suffix := ztake 8 (zdrop 137 body) in
  let initiate_box := zdrop 145 body in
  let cookie_nonce_24 := ascii_bytes "COOKIE--" ++ ztake 16 cookie_bytes in
  match aead_decrypt (cs_cookie_key s) cookie_nonce_24 (zdrop 16 cookie_bytes) with
  | None => Ret (Err AuthenticationFailed)
  | Some cookie_pt =>
      if negb (len cookie_pt =? 64) then Ret (Err Protocol) else
      let recovered_c_prime_pk := ztake 32 cookie_pt in
      let recovered_s_prime_sk := zdrop 32 cookie_pt in
      do! c_prime_pk := ok_or_protocol (cs_client_short_public s) in
      if negb (bool_decide (recovered_c_prime_pk = c_prime_pk)) then Ret (Err AuthenticationFailed) else
      let initiate_nonce_24 := ascii_bytes "CurveZMQINITIATE" ++ nonce_suffix in
      do! initiate_pt := or_zmtp
        (salsa_decrypt recovered_c_prime_pk recovered_s_prime_sk initiate_nonce_24 initiate_box)
        AuthenticationFailed in
      if len initiate_pt <? 96 then Ret (Err Protocol) else
      do! _ := lift_result (check_vouch s c_prime_pk c_pk (ztake 96 initiate_pt)) in
      do! meta := lift_result (decode_zmtp_props (zdrop 96 initiate_pt)) in
      if bool_decide (meta.1 = None) then Ret (Err Protocol) else
      Ret (Ok (mk_curve_server (cs_server_keypair s) (cs_short_keypair s) (cs_client_short_public s)
                 (Some c_pk) (cs_cookie_key s) (cs_local_socket_type s) meta.1 meta.2
                 (cs_send_nonce s) (cs_recv_nonce s) (cs_message_box s)))
  end.

Definition server_send_ready (s : CurveServer) (t : option Z) : zproc CurveServer :=
  do! c_prime := ok_or_protocol (cs_client_short_public s) in
  do! c := ok_or_protocol (cs_client_public s) in
  do! dh1 := or_zmtp (diffie_hellman (kp_secret (cs_server_keypair s)) c_prime) Protocol in
  do! dh2 := or_zmtp (diffie_hellman (kp_secret (cs_short_keypair s)) c) Protocol in
  do! dh3 := or_zmtp (diffie_hellman (kp_secret (cs_short_keypair s)) c_prime) Protocol in
  let key := derive_message_key dh1 dh2 dh3 in
  let ready_counter := 1 in
  let ready_nonce_24 := CURVE_READY_NONCE_PREFIX ++ be_bytes 8 ready_counter in
  let server_meta := encode_zmtp_props (cs_local_socket_type s) None in
  do! ready_box := or_zmtp
    (salsa_encrypt c_prime (kp_secret (cs_short_keypair s)) ready_nonce_24 server_meta) Protocol in
  do! _ := write_zmtp_cmd (CURVE_READY ++ be_bytes 8 ready_counter ++ ready_box) t in
  Ret (Ok (mk_curve_server (cs_server_keypair s) (cs_short_keypair s) (cs_client_short_public s)
             (cs_client_public s) (cs_cookie_key s) (cs_local_socket_type s) (cs_peer_socket_type s)
             (cs_peer_identity_recv s) (cs_send_nonce s) (cs_recv_nonce s) (Some key))).

Definition server_handshake (rnd : ServerRandom) (s : CurveServer) (t : option Z)
    : zproc (CurveHandshakeResult * CurveServer) :=
  do! s := server_recv_hello s t in
  do! _ := server_send_welcome rnd s t in
  do! s := server_recv_initiate s t in
  do! s := server_send_ready s t in
  do! message_box := ok_or_protocol (cs_message_box s) in
  let cipher := mk_cipher message_box (cs_send_nonce s) (cs_recv_nonce s) false in
  do! peer_socket_type := ok_or_protocol (cs_peer_socket_type s) in
  Ret (Ok (mk_curve_result peer_socket_type (cs_peer_identity_recv s) (cs_client_public s) (Some cipher),
           mk_curve_server (cs_server_keypair s) (cs_short_keypair s) (cs_client_short_public s)
             (cs_client_public s) (cs_cookie_key s) (cs_local_socket_type s) (cs_peer_socket_type s)
             (cs_peer_identity_recv s) (cs_send_nonce s) (cs_recv_nonce s) None)).

(** ** ZAP after the exchange *)

(** [send_zmtp_error]: best effort, without a timer. *)
Definition zmtp_error_frame (reason : bytes) : bytes :=
  let reason_len := Z.min (len reason) 248 in
  let body := [u8 5] ++ ascii_bytes "ERROR" ++ [u8 reason_len] ++ ztake reason_len reason in
  [u8 0x04; u8 (len body)] ++ body.

Definition send_zmtp_error (reason : bytes) : proc unit := WriteAll (zmtp_error_frame reason) None (λ _, Ret tt).

Definition curve_server_handshake_zap {S} `{MessageSocket S} (zap_new : io_result S) (counter : Z)
    (rnd : ServerRandom) (server_keypair : CurveKeyPair) (domain : bytes) (t : option Z)
    (peer_addr local_socket_type : bytes) : zproc CurveHandshakeResult :=
  do! res := server_handshake rnd (curve_server_new rnd server_keypair local_socket_type) t in
  let result := res.1 in
  do! client_public_key := ok_or_protocol (cr_peer_public_key result) in
  match zap_new with
  | Err _ => Ret (Err AuthenticationFailed)
  | Ok zap_client =>
      do! zap_response :=
        zap_verdict (authenticate_curve counter zap_client client_public_key domain peer_addr).1.1 in
      if bool_decide (zp_status_code zap_response = Success) then Ret (Ok result)
      else proc_bind (send_zmtp_error (zp_status_text zap_response)) (λ _, Ret (Err AuthenticationFailed))
  end.
End handshake.

(** ** Metadata round trip *)

Lemma decode_props_step fuel data st id :
  data <> [] ->
  decode_props_loop (S fuel) data st id =
    match split_prop data with
    | None => Err Protocol
    | Some (k, v, rest) => try! (st, id) := zmtp_property k v st id in decode_props_loop fuel rest st id
    end.
Proof.
  destruct data as [|b tl]; [done|]. intros _. cbn [decode_props_loop split_prop]. pose proof (u8_val_range b).
  destruct (len (b :: tl) <? 5) eqn:E5; bool_prop; rewrite len_cons in E5.
  { by rewrite (proj2 (Z.ltb_lt _ _)) by lia. }
  destruct (len tl <? u8_val b + 4); [done|]. cbn zeta.
  rewrite zdrop_zdrop by lia. by destruct (len _ <? _).
Qed.

Fixpoint interp_zmtp_props (ps : list (bytes * bytes)) (st id : option bytes)
    : result ZmtpError (option bytes * option bytes) :=
  match ps with
  | [] => Ok (st, id)
  | (k, v) :: ps => try! (st, id) := zmtp_property k v st id in interp_zmtp_props ps st id
  end.

Lemma decode_props_complete ps fuel st id :
  Forall prop_ok ps -> (length (encode_props ps) <= fuel)%nat ->
  decode_props_loop fuel (encode_props ps) st id = interp_zmtp_props ps st id.
Proof.
  intros Hps. revert fuel st id. induction Hps as [|[k v] ps Hp Hps IH]; intros fuel st id Hf.
  { by destruct fuel. }
  change (encode_props ((k, v) :: ps)) with (encode_prop (k, v) ++ encode_props ps) in *.
  assert (Hl : (0 < length (encode_prop (k, v)))%nat) by (unfold encode_prop; cbn; lia).
  rewrite length_app in Hf. destruct fuel as [|fuel]; [lia|].
  rewrite decode_props_step by (unfold encode_prop; done). rewrite split_encode_prop by done.
  cbn [fst snd interp_zmtp_props]. destruct (zmtp_property k v st id) as [[st' id']|e]; [|done].
  cbn [res_bind]. apply IH. lia.
Qed.

(** An announced identity is dropped when it is empty. *)
Definition announced (id : option bytes) : option bytes :=
  match id with Some (b :: i) => Some (b :: i) | _ => None end.

Lemma push_prop_spec out key value :
  len value <= u32_max -> push_prop out key value = out ++ encode_prop (key, value).
Proof. apply put_property_spec. Qed.

Lemma encode_zmtp_props_spec st id :
  len st <= u32_max -> from_option len 0 id <= u32_max ->
  encode_zmtp_props st id =
    encode_props ((ascii_bytes "Socket-Type", st) ::
                  match announced id with Some i => [(ascii_bytes "Identity", i)] | None => [] end).
Proof.
  intros Hst Hid. unfold encode_zmtp_props, encode_props.
  destruct id as [[|b i]|]; cbn [announced fmap list_fmap concat];
    rewrite !push_prop_spec by done; by rewrite ?app_nil_r.
Qed.

Lemma zmtp_props_roundtrip st id :
  len st <= u32_max -> from_option len 0 id <= 255 ->
  decode_zmtp_props (encode_zmtp_props st id) = Ok (Some st, announced id).
Proof.
  intros Hst Hid. rewrite encode_zmtp_props_spec by (done || unfold u32_max; lia).
  unfold decode_zmtp_props. rewrite decode_props_complete; [| |done].
  - destruct id as [[|b i]|]; [done| |done]. cbn [announced interp_zmtp_props from_option] in *.
    unfold zmtp_property.
    change (eq_ignore_ascii_case (ascii_bytes "Socket-Type") (ascii_bytes "Socket-Type")) with true. cbn [res_bind].
    change (eq_ignore_ascii_case (ascii_bytes "Identity") (ascii_bytes "Socket-Type")) with false.
    change (eq_ignore_ascii_case (ascii_bytes "Identity") (ascii_bytes "Identity")) with true.
    by rewrite (proj2 (Z.ltb_ge _ _)) by lia.
  - constructor; [by split; [vm_compute|]|].
    destruct id as [[|b i]|]; cbn [announced]; repeat constructor; cbn [fst snd from_option] in *;
      [by vm_compute|unfold u32_max; lia].
Qed.

(** ** What the primitives document *)

Class CurveCryptoLaws `{CurveCrypto} `{Aead bytes} := {
  public_len s : len s = 32 -> len (x25519_public s) = 32;
  (** Diffie-Hellman: both parties compute the same secret *)
  x25519_comm a b : x25519 a (x25519_public b) = x25519 b (x25519_public a);
  (** a box sealed by [a] for [b] is opened by [b] *)
  box_opens a b n pt ct :
    salsa_box_encrypt (x25519_public b) a n pt = Some ct ->
    salsa_box_decrypt (x25519_public a) b n ct = Some pt;
  (** sealing a short text succeeds and adds the 16-byte tag *)
  box_seals pk sk n pt :
    len n = 24 -> len pt <= 4096 -> exists ct, salsa_box_encrypt pk sk n pt = Some ct /\ len ct = len pt + 16;
  aead_opens (k n pt ct : bytes) : aead_encrypt k n pt = Some ct -> aead_decrypt k n ct = Some pt;
  aead_seals (k n pt : bytes) :
    len k = 32 -> len n = 24 -> len pt <= 4096 -> exists ct, aead_encrypt k n pt = Some ct /\ len ct = len pt + 16;
}.

(** ** Fields of a body *)

Lemma head_of {A} (pre post : list A) a : len pre = a -> ztake a (pre ++ post) = pre.
Proof. intros <-. by rewrite ztake_app_le, ztake_ge by lia. Qed.

Lemma tail_of {A} (pre post : list A) a : len pre = a -> zdrop a (pre ++ post) = post.
Proof. intros <-. by rewrite zdrop_app_ge, Z.sub_diag, zdrop_0 by lia. Qed.

Lemma field_of {A} (pre f post : list A) a n :
  len pre = a -> len f = n -> ztake n (zdrop a (pre ++ f ++ post)) = f.
Proof. intros Ha Hn. rewrite tail_of by done. by apply head_of. Qed.

Lemma zeros_len n : len (zeros n) = Z.of_nat n.
Proof. unfold len, zeros. by rewrite repeat_length. Qed.

(** A command frame is read back, short or long. *)
Lemma run_read_cmd {A} t max (g : bytes -> zproc A) body rest p' i' out :
  live_timer t -> len body <= max -> max < 2 ^ 32 ->
  local_run (g body) rest p' i' out ->
  local_run (zbind (read_zmtp_cmd t max) g) (zmtp_cmd_frame body ++ rest) p' i' out.
Proof.
  intros Ht Hm Hmax Hrun. pose proof (len_nonneg body). unfold read_zmtp_cmd, zmtp_cmd_frame. rewrite zbind_assoc.
  destruct (Z.leb_spec (len body) 255) as [Hs|Hs].
  - change ([u8 4; u8 (len body)]) with ([u8 4] ++ [u8 (len body)]). rewrite <- !app_assoc.
    apply run_read; [done|done|]. change (byte_at [u8 4] 0) with 4. change (Z.land 4 4 =? 0) with false.
    change (Z.land 4 2 =? 0) with true. cbn [negb]. rewrite !zbind_assoc. apply run_read; [done|done|]. rewrite byte_at_u8 by lia. rewrite zbind_ok.
    rewrite (proj2 (Z.ltb_ge _ _)) by lia. by apply run_read.
  - rewrite <- !app_assoc. apply run_read; [done|done|]. change (byte_at [u8 6] 0) with 6.
    change (Z.land 6 4 =? 0) with false. change (Z.land 6 2 =? 0) with false. cbn [negb].
    rewrite !zbind_assoc. apply run_read; [done|apply len_be_bytes|].
    rewrite be_val_be_bytes by (change (256 ^ Z.of_nat 8) with (2 ^ 64); lia).
    rewrite (proj2 (Z.ltb_ge usize_max _)) by (unfold usize_max; lia). rewrite zbind_ok.
    rewrite (proj2 (Z.ltb_ge _ _)) by lia. by apply run_read.
Qed.

Lemma run_read_only_cmd {A} t max (g : bytes -> zproc A) body p' i' out :
  live_timer t -> len body <= max -> max < 2 ^ 32 ->
  local_run (g body) [] p' i' out ->
  local_run (zbind (read_zmtp_cmd t max) g) (zmtp_cmd_frame body) p' i' out.
Proof. intros. rewrite <- (app_nil_r (zmtp_cmd_frame body)). by apply run_read_cmd. Qed.

Lemma run_write_cmd {A} t (g : unit -> zproc A) body i :
  live_timer t -> local_run (zbind (write_zmtp_cmd body t) g) i (g tt) i (zmtp_cmd_frame body).
Proof.
  intros Ht. rewrite <- (app_nil_r (zmtp_cmd_frame body)). apply run_write; [done|]. apply local_run_refl.
Qed.

Section exchange.
Context `{CurveCryptoLaws}.

Lemma salsa_encrypt_ok pk sk n pt :
  len n = 24 -> len pt <= 4096 -> exists ct, salsa_encrypt pk sk n pt = Ok ct /\ len ct = len pt + 16.
Proof.
  intros Hn Hp. destruct (box_seals pk sk n pt Hn Hp) as (ct & Hs & Hl).
  exists ct. unfold salsa_encrypt. by rewrite Hs.
Qed.

Lemma salsa_decrypt_ok a b n pt ct :
  salsa_encrypt (x25519_public b) a n pt = Ok ct -> salsa_decrypt (x25519_public a) b n ct = Ok pt.
Proof.
  unfold salsa_encrypt, salsa_decrypt. destruct (salsa_box_encrypt _ _ _ _) as [ct'|] eqn:E; [|done].
  intros [= ->]. by rewrite (box_opens _ _ _ _ _ E).
Qed.

(** The long-term and short-term secrets of the two sides, and what they draw. *)
Variables (sc ss : bytes) (rc : ClientRandom) (rs : ServerRandom).
Variables (ctype stype : bytes) (cid : option bytes) (tc ts : option Z).

Hypothesis Hsc : len sc = 32.
Hypothesis Hss : len ss = 32.
Hypothesis Hrc : len (rc_short_secret rc) = 32 /\ len (rc_vouch_nonce rc) = 16.
Hypothesis Hrs : len (rs_cookie_key rs) = 32 /\ len (rs_short_secret rs) = 32 /\
                 len (rs_cookie_nonce rs) = 16 /\ len (rs_server_nonce rs) = 16.
Hypothesis Hct : len ctype <= 255.
Hypothesis Hst : len stype <= 255.
Hypothesis Hid : from_option len 0 cid <= 255.
Hypothesis Htc : live_timer tc.
Hypothesis Hts : live_timer ts.

Let c0 := curve_client_new rc (keypair_generate sc) (x25519_public ss) ctype cid.
Let s0 := curve_server_new rs (keypair_generate ss) stype.
Let cp := x25519_public (rc_short_secret rc).
Let sp := x25519_public (rs_short_secret rs).

Lemma short_publics : len cp = 32 /\ len sp = 32 /\ len (x25519_public sc) = 32 /\ len (x25519_public ss) = 32.
Proof using Hsc Hss Hrc Hrs H1.
  split_and!; apply public_len; tauto.
Qed.

(** HELLO: the server learns the client's short-term key. *)
Definition after_hello : CurveServer :=
  mk_curve_server (keypair_generate ss) (keypair_generate (rs_short_secret rs)) (Some cp) None
    (rs_cookie_key rs) stype None None 1 1 None.

Lemma run_hello {A B} (g : unit -> zproc A) (f : CurveServer -> zproc B) i :
  exists frame, local_run (zbind (client_send_hello c0 tc) g) i (g tt) i frame /\
    local_run (zbind (server_recv_hello s0 ts) f) frame (f after_hello) [] [].
Proof using Hsc Hss Hrc Hrs Htc Hts H1.
  destruct short_publics as (Hcp & Hsp & _ & _).
  unfold client_send_hello. unfold c0, curve_client_new. cbn [cc_server_public cc_short_keypair keypair_generate kp_secret kp_public].
  set (n24 := ascii_bytes "CurveZMQHELLO---" ++ be_bytes 8 1).
  destruct (salsa_encrypt_ok (x25519_public ss) (rc_short_secret rc) n24 (zeros 64)) as (box & Hbox & Hlen);
    [done|by vm_compute|].
  change (len (zeros 64) + 16) with 80 in Hlen. rewrite Hbox. fold cp.
  set (body := CURVE_HELLO ++ [u8 1] ++ zeros 71 ++ cp ++ be_bytes 8 1 ++ box).
  exists (zmtp_cmd_frame body). split.
  { rewrite zbind_assoc. unfold or_zmtp. rewrite zbind_ok. by apply run_write_cmd. }
  unfold server_recv_hello. rewrite zbind_assoc.
  assert (Hb : len body = 198).
  { unfold body. rewrite !len_app, len_be_bytes, Hcp, Hlen. done. }
  assert (F1 : ztake 6 body = CURVE_HELLO) by (by apply head_of).
  assert (F2 : ztake 32 (zdrop 78 body) = cp).
  { unfold body. rewrite (app_assoc _ _ (cp ++ _)), (app_assoc _ _ (cp ++ _)). by apply field_of. }
  assert (F3 : ztake 8 (zdrop 110 body) = be_bytes 8 1).
  { unfold body. rewrite (app_assoc _ _ (be_bytes 8 1 ++ _)), !(app_assoc _ _ (be_bytes 8 1 ++ _)).
    apply field_of; [by rewrite !len_app, Hcp|done]. }
  assert (F4 : zdrop 118 body = box).
  { unfold body. rewrite !app_assoc. apply tail_of. by rewrite !len_app, Hcp. }
  apply run_read_only_cmd; [done|by rewrite Hb|done|]. rewrite Hb, F1, F2, F3, F4, Z.eqb_refl.
  rewrite bool_decide_eq_true_2 by done. cbn [negb orb].
  change (byte_at body 6) with 1. rewrite Z.eqb_refl. cbn [negb].
  change (be_val (be_bytes 8 1) =? 0) with false.
  pose proof (salsa_decrypt_ok _ _ _ _ _ Hbox) as Hopen. fold cp in Hopen.
  unfold s0, curve_server_new. cbn [cs_server_keypair keypair_generate kp_secret]. fold n24.
  rewrite Hopen. apply local_run_refl.
Qed.

(** WELCOME: the client learns the server's short-term key and a cookie only
    the server can open. *)
Definition after_welcome (cookie : bytes) : CurveClient :=
  mk_curve_client (keypair_generate sc) (x25519_public ss) (keypair_generate (rc_short_secret rc))
    (Some sp) (Some cookie) ctype cid None None 1 1 None.

Definition is_cookie (cookie : bytes) : Prop :=
  exists ct, cookie = rs_cookie_nonce rs ++ ct /\ len ct = 80 /\
    aead_encrypt (rs_cookie_key rs) (ascii_bytes "COOKIE--" ++ rs_cookie_nonce rs) (cp ++ rs_short_secret rs)
      = Some ct.

Lemma cookie_exists : exists cookie, is_cookie cookie.
Proof using Hsc Hss Hrc Hrs H1.
  destruct short_publics as (Hcp & _ & _ & _). destruct Hrs as (Hck & Hsl & Hcn & _).
  destruct (aead_seals (rs_cookie_key rs) (ascii_bytes "COOKIE--" ++ rs_cookie_nonce rs) (cp ++ rs_short_secret rs))
    as (ct & Hct' & Hlct); [done|by rewrite len_app, Hcn|rewrite len_app, Hcp, Hsl; lia|].
  rewrite len_app, Hcp, Hsl in Hlct. by exists (rs_cookie_nonce rs ++ ct), ct.
Qed.

Lemma run_welcome {A B} (g : unit -> zproc B) (f : CurveClient -> zproc A) i cookie :
  is_cookie cookie ->
  exists frame, local_run (zbind (server_send_welcome rs after_hello ts) g) i (g tt) i frame /\
    local_run (zbind (client_recv_welcome c0 tc) f) frame (f (after_welcome cookie)) [] [].
Proof using Hsc Hss Hrc Hrs Htc Hts H1.
  intros (ct & Hck & Hlct & Hct'). destruct short_publics as (Hcp & Hsp & _ & _).
  destruct Hrs as (_ & Hsl & Hcn & Hsn).
  assert (Hlc : len cookie = 96) by (subst; rewrite len_app; lia).
  set (n24 := ascii_bytes "WELCOME-" ++ rs_server_nonce rs).
  destruct (salsa_encrypt_ok cp ss n24 (sp ++ cookie)) as (box & Hbox & Hlen);
    [unfold n24; by rewrite len_app, Hsn|rewrite len_app; lia|].
  rewrite len_app, Hsp, Hlc in Hlen.
  set (body := CURVE_WELCOME ++ rs_server_nonce rs ++ box).
  exists (zmtp_cmd_frame body). split.
  { unfold server_send_welcome, after_hello.
    cbn [cs_client_short_public cs_short_keypair cs_server_keypair cs_cookie_key keypair_generate kp_public kp_secret].
    rewrite !zbind_assoc. unfold ok_or_protocol, or_zmtp. rewrite zbind_ok, zbind_assoc, Hct', zbind_ok, zbind_assoc.
    rewrite <- Hck. fold n24 sp. rewrite Hbox, zbind_ok. by apply run_write_cmd. }
  unfold client_recv_welcome. rewrite zbind_assoc.
  assert (Hb : len body = 168) by (unfold body; rewrite !len_app, Hsn, Hlen; done).
  assert (F1 : ztake 8 body = CURVE_WELCOME) by (by apply head_of).
  assert (F2 : ztake 16 (zdrop 8 body) = rs_server_nonce rs) by (by apply field_of).
  assert (F3 : zdrop 24 body = box).
  { unfold body. rewrite app_assoc. apply tail_of. by rewrite len_app, Hsn. }
  apply run_read_only_cmd; [done|by rewrite Hb|done|]. rewrite Hb, F1, F2, F3, Z.eqb_refl.
  rewrite bool_decide_eq_true_2 by done. cbn [negb orb].
  pose proof (salsa_decrypt_ok _ _ _ _ _ Hbox) as Hopen.
  unfold c0, curve_client_new. cbn [cc_server_public cc_short_keypair keypair_generate kp_secret]. fold n24.
  rewrite Hopen, zbind_assoc. unfold or_zmtp. rewrite zbind_ok, len_app, Hsp, Hlc. cbn [negb Z.eqb Z.add Pos.add Pos.eqb].
  rewrite head_of, tail_of by done. apply local_run_refl.
Qed.

(** INITIATE: the cookie comes back, the vouch binds the client's long-term key
    to this connection. *)
Definition after_initiate : CurveServer :=
  mk_curve_server (keypair_generate ss) (keypair_generate (rs_short_secret rs)) (Some cp)
    (Some (x25519_public sc)) (rs_cookie_key rs) stype (Some ctype) (announced cid) 1 1 None.

Lemma encode_zmtp_props_len st id :
  len st <= 255 -> from_option len 0 id <= 255 -> len (encode_zmtp_props st id) <= 600.
Proof using.
  intros Hs Hi. rewrite encode_zmtp_props_spec by (unfold u32_max; lia).
  rewrite len_encode_props_cons, len_encode_prop. change (len (ascii_bytes "Socket-Type")) with 11.
  destruct id as [[|b i]|]; cbn [announced from_option] in *; try (change (len (encode_props [])) with 0; lia).
  rewrite len_encode_props_cons, len_encode_prop. change (len (ascii_bytes "Identity")) with 8.
  change (len (encode_props [])) with 0. lia.
Qed.

Lemma check_vouch_ok vn vct :
  len vn = 16 ->
  salsa_encrypt (x25519_public ss) sc (ascii_bytes "VOUCH---" ++ vn) (cp ++ sp) = Ok vct ->
  check_vouch after_hello cp (x25519_public sc) (vn ++ vct) = Ok tt.
Proof using Hsc Hss Hrc Hrs H1.
  intros Hvn Hv. destruct short_publics as (Hcp & Hsp & _ & _). unfold check_vouch, after_hello.
  cbn [cs_server_keypair cs_short_keypair keypair_generate kp_secret kp_public].
  rewrite head_of, tail_of by done. rewrite (salsa_decrypt_ok _ _ _ _ _ Hv).
  rewrite len_app, Hcp, Hsp. cbn [negb Z.eqb Z.add Pos.add Pos.eqb].
  rewrite head_of, tail_of by done. fold cp sp. by rewrite !bool_decide_eq_true_2.
Qed.

Definition initiate_nonce : bytes := ascii_bytes "CurveZMQINITIATE" ++ be_bytes 8 1.

Definition initiate_body (cookie box : bytes) : bytes :=
  CURVE_INITIATE ++ cookie ++ x25519_public sc ++ be_bytes 8 1 ++ box.

(** The server side of INITIATE, from the box on. *)
Lemma server_accepts_initiate {B} (f : CurveServer -> zproc B) cookie vct box :
  is_cookie cookie -> len vct = 80 -> len box <= 3000 ->
  salsa_encrypt (x25519_public ss) sc (ascii_bytes "VOUCH---" ++ rc_vouch_nonce rc) (cp ++ sp) = Ok vct ->
  salsa_encrypt sp (rc_short_secret rc) initiate_nonce
    ((rc_vouch_nonce rc ++ vct) ++ encode_zmtp_props ctype cid) = Ok box ->
  local_run (zbind (server_recv_initiate after_hello ts) f) (zmtp_cmd_frame (initiate_body cookie box))
    (f after_initiate) [] [].
Proof using Hsc Hss Hrc Hrs Hct Hid Hts H1.
  intros (ct & Hck & Hlct & Hct') Hlv Hlb Hv Hbox. destruct short_publics as (Hcp & Hsp & Hpc & _).
  destruct Hrs as (_ & Hsl & Hcn & _). destruct Hrc as [_ Hvn].
  assert (Hlc : len cookie = 96) by (subst; rewrite len_app; lia).
  set (body := initiate_body cookie box).
  assert (Hb : len body = 145 + len box).
  { unfold body, initiate_body. rewrite !len_app, len_be_bytes, Hlc, Hpc.
    change (len CURVE_INITIATE) with 9. lia. }
  assert (F1 : ztake 9 body = CURVE_INITIATE) by (by apply head_of).
  assert (F2 : ztake 96 (zdrop 9 body) = cookie) by (by apply field_of).
  assert (F3 : ztake 32 (zdrop 105 body) = x25519_public sc).
  { unfold body, initiate_body. rewrite (app_assoc _ _ (x25519_public sc ++ _)).
    apply field_of; [by rewrite len_app, Hlc|done]. }
  assert (F4 : ztake 8 (zdrop 137 body) = be_bytes 8 1).
  { unfold body, initiate_body. rewrite !(app_assoc _ _ (be_bytes 8 1 ++ _)).
    apply field_of; [by rewrite !len_app, Hlc, Hpc|done]. }
  assert (F5 : zdrop 145 body = box).
  { unfold body, initiate_body. rewrite !app_assoc. apply tail_of. by rewrite !len_app, Hlc, Hpc. }
  unfold server_recv_initiate. rewrite zbind_assoc. pose proof (len_nonneg box).
  apply run_read_only_cmd; [done|rewrite Hb; unfold MAX_INITIATE_BODY; lia|done|].
  rewrite F1, F2, F3, F4, F5, (proj2 (Z.ltb_ge (len body) 145)) by lia.
  rewrite (bool_decide_eq_true_2 (CURVE_INITIATE = _)) by done. cbn [negb orb].
  rewrite Hck, head_of, tail_of by done.
  unfold after_hello at 1. cbn [cs_cookie_key]. rewrite (aead_opens _ _ _ _ Hct').
  rewrite len_app, Hcp, Hsl. change (32 + 32 =? 64) with true. cbn [negb].
  rewrite head_of, tail_of by done.
  unfold after_hello at 1. cbn [cs_client_short_public]. unfold ok_or_protocol. rewrite !zbind_ok.
  rewrite (bool_decide_eq_true_2 (cp = cp)) by done. cbn [negb].
  fold initiate_nonce. pose proof (salsa_decrypt_ok _ _ _ _ _ Hbox) as Hopen. fold cp in Hopen. rewrite Hopen.
  unfold or_zmtp. rewrite zbind_ok.
  assert (Hvl : len (rc_vouch_nonce rc ++ vct) = 96) by (rewrite len_app; lia).
  pose proof (len_nonneg (encode_zmtp_props ctype cid)).
  rewrite (proj2 (Z.ltb_ge _ 96)) by (rewrite len_app; lia).
  rewrite head_of, tail_of by done. rewrite check_vouch_ok by done.
  rewrite zmtp_props_roundtrip by (done || unfold u32_max; lia). apply local_run_refl.
Qed.

Lemma run_initiate {A B} (g : unit -> zproc A) (f : CurveServer -> zproc B) i cookie :
  is_cookie cookie ->
  exists frame, local_run (zbind (client_send_initiate rc (after_welcome cookie) tc) g) i (g tt) i frame /\
    local_run (zbind (server_recv_initiate after_hello ts) f) frame (f after_initiate) [] [].
Proof using Hsc Hss Hrc Hrs Hct Hid Htc Hts H1.
  intros Hcookie. destruct short_publics as (Hcp & Hsp & _ & _). destruct Hrc as [_ Hvn].
  destruct (salsa_encrypt_ok (x25519_public ss) sc (ascii_bytes "VOUCH---" ++ rc_vouch_nonce rc) (cp ++ sp))
    as (vct & Hv & Hlv); [by rewrite len_app, Hvn|rewrite len_app; lia|].
  rewrite len_app, Hcp, Hsp in Hlv.
  pose proof (encode_zmtp_props_len ctype cid Hct Hid) as Hlp.
  destruct (salsa_encrypt_ok sp (rc_short_secret rc) initiate_nonce
    ((rc_vouch_nonce rc ++ vct) ++ encode_zmtp_props ctype cid)) as (box & Hbox & Hlb);
    [done|rewrite !len_app; lia|]. rewrite !len_app, Hvn, Hlv in Hlb.
  exists (zmtp_cmd_frame (initiate_body cookie box)). split.
  - unfold client_send_initiate, after_welcome.
    cbn [cc_server_short_public cc_cookie cc_short_keypair cc_client_keypair cc_server_public
         cc_local_socket_type cc_local_identity keypair_generate kp_public kp_secret].
    unfold ok_or_protocol, or_zmtp. fold cp. rewrite !zbind_ok, Hv, zbind_ok. fold initiate_nonce.
    rewrite Hbox, zbind_ok. by apply run_write_cmd.
  - apply (server_accepts_initiate f cookie vct box); [done|lia|lia|done|done].
Qed.

(** READY: both ends have the three shared secrets. *)
Hypothesis Hdh1 : x25519 (rc_short_secret rc) (x25519_public ss) <> zeros 32.
Hypothesis Hdh2 : x25519 sc sp <> zeros 32.
Hypothesis Hdh3 : x25519 (rc_short_secret rc) sp <> zeros 32.

Definition session_key : bytes :=
  sha256 (x25519 (rc_short_secret rc) (x25519_public ss) ++ x25519 sc sp ++ x25519 (rc_short_secret rc) sp).

Definition server_done : CurveServer :=
  mk_curve_server (keypair_generate ss) (keypair_generate (rs_short_secret rs)) (Some cp)
    (Some (x25519_public sc)) (rs_cookie_key rs) stype (Some ctype) (announced cid) 1 1 (Some session_key).

Definition client_done (cookie : bytes) : CurveClient :=
  mk_curve_client (keypair_generate sc) (x25519_public ss) (keypair_generate (rc_short_secret rc))
    (Some sp) (Some cookie) ctype cid (Some stype) None 1 1 (Some session_key).

Lemma diffie_hellman_ok a pk : x25519 a pk <> zeros 32 -> diffie_hellman a pk = Ok (x25519 a pk).
Proof using. intros Hne. unfold diffie_hellman. by rewrite bool_decide_eq_false_2. Qed.

Lemma run_ready {A B} (g : CurveServer -> zproc B) (f : CurveClient -> zproc A) i cookie :
  exists frame, local_run (zbind (server_send_ready after_initiate ts) g) i (g server_done) i frame /\
    local_run (zbind (client_recv_ready (after_welcome cookie) tc) f) frame (f (client_done cookie)) [] [].
Proof using Hsc Hss Hrc Hrs Hst Htc Hts Hdh1 Hdh2 Hdh3 H1.
  destruct short_publics as (Hcp & Hsp & _ & _).
  assert (Hmeta : len (encode_zmtp_props stype None) <= 600) by (by apply encode_zmtp_props_len).
  set (meta := encode_zmtp_props stype None) in *.
  assert (Hml : len meta = 16 + len stype).
  { unfold meta. rewrite encode_zmtp_props_spec by (done || unfold u32_max; lia). cbn [announced].
    rewrite len_encode_props_cons, len_encode_prop. change (len (ascii_bytes "Socket-Type")) with 11.
    change (len (encode_props [])) with 0. lia. }
  pose proof (len_nonneg stype). set (n24 := CURVE_READY_NONCE_PREFIX ++ be_bytes 8 1).
  destruct (salsa_encrypt_ok cp (rs_short_secret rs) n24 meta) as (box & Hbox & Hlb); [done|lia|].
  set (body := CURVE_READY ++ be_bytes 8 1 ++ box).
  assert (Hb : len body = 14 + len box).
  { unfold body. rewrite !len_app, len_be_bytes. change (len CURVE_READY) with 6. lia. }
  exists (zmtp_cmd_frame body). split.
  - unfold server_send_ready, after_initiate.
    cbn [cs_client_short_public cs_client_public cs_server_keypair cs_short_keypair cs_local_socket_type
         keypair_generate kp_secret].
    assert (E1 : x25519 ss cp = x25519 (rc_short_secret rc) (x25519_public ss)) by (apply x25519_comm).
    assert (E2 : x25519 (rs_short_secret rs) (x25519_public sc) = x25519 sc sp) by (apply x25519_comm).
    assert (E3 : x25519 (rs_short_secret rs) cp = x25519 (rc_short_secret rc) sp) by (apply x25519_comm).
    unfold ok_or_protocol, or_zmtp. rewrite !zbind_ok.
    rewrite (diffie_hellman_ok ss), zbind_ok by (by rewrite E1).
    rewrite (diffie_hellman_ok _ (x25519_public sc)), zbind_ok by (by rewrite E2).
    rewrite (diffie_hellman_ok _ cp), zbind_ok by (by rewrite E3). fold meta n24. rewrite Hbox, zbind_ok, zbind_assoc, E1, E2, E3.
    exact (run_write_cmd ts (λ _, g server_done) body i Hts).
  - unfold client_recv_ready. rewrite zbind_assoc.
    assert (F1 : ztake 6 body = CURVE_READY) by (by apply head_of).
    assert (F2 : ztake 8 (zdrop 6 body) = be_bytes 8 1) by (by apply field_of).
    assert (F3 : zdrop 14 body = box) by (unfold body; rewrite app_assoc; by apply tail_of).
    apply run_read_only_cmd; [done|rewrite Hb; unfold MAX_CURVE_BODY; lia|done|].
    rewrite F1, F2, F3, (proj2 (Z.ltb_ge (len body) 30)) by lia.
    rewrite (bool_decide_eq_true_2 (CURVE_READY = _)) by done. cbn [negb orb].
    unfold after_welcome.
    cbn [cc_server_short_public cc_short_keypair cc_server_public cc_client_keypair keypair_generate kp_secret].
    unfold ok_or_protocol, or_zmtp. rewrite zbind_ok. fold n24.
    rewrite (salsa_decrypt_ok _ _ _ _ _ Hbox : salsa_decrypt sp (rc_short_secret rc) n24 box = Ok meta), zbind_ok.
    unfold meta. rewrite zmtp_props_roundtrip by (done || unfold u32_max; lia). unfold lift_result.
    rewrite zbind_ok. cbn [fst snd]. rewrite (bool_decide_eq_false_2 (Some stype = None)) by done.
    rewrite (diffie_hellman_ok _ (x25519_public ss)), zbind_ok by done.
    rewrite (diffie_hellman_ok sc), zbind_ok by done.
    rewrite (diffie_hellman_ok (rc_short_secret rc) sp), zbind_ok by done. apply local_run_refl.
Qed.

Definition client_result : CurveHandshakeResult :=
  mk_curve_result stype None None (Some (mk_cipher session_key 1 1 true)).

Definition server_result : CurveHandshakeResult :=
  mk_curve_result ctype (announced cid) (Some (x25519_public sc)) (Some (mk_cipher session_key 1 1 false)).

(** The whole exchange, inside larger handshakes. *)
Lemma reach_curve {A B} (g : CurveHandshakeResult * CurveClient -> zproc A)
    (f : CurveHandshakeResult * CurveServer -> zproc B) :
  exists cc cs, cc_message_box cc = None /\ cs_message_box cs = None /\ forall c,
  (reaches (mk_config (g (client_result, cc)) [] (f (server_result, cs)) []) c ->
   reaches (mk_config (zbind (client_handshake rc c0 tc) g) [] (zbind (server_handshake rs s0 ts) f) []) c).
Proof using Hsc Hss Hrc Hrs Hct Hst Hid Htc Hts Hdh1 Hdh2 Hdh3 H1.
  destruct cookie_exists as [cookie Hck]. eexists _, _. split; [|split]; cycle 2.
  - intros c Hc. unfold client_handshake, server_handshake. rewrite !zbind_assoc.
    match goal with |- reaches (mk_config (zbind _ ?g1) _ (zbind _ ?f1) _) _ =>
      destruct (run_hello g1 f1 []) as (fr & Hcl & Hsv) end.
    eapply reach_run_l; [exact Hcl|]. cbn [app]. eapply reach_run_r; [exact Hsv|]. cbn [app]. clear Hcl Hsv.
    rewrite !zbind_assoc.
    match goal with |- reaches (mk_config (zbind _ ?g1) _ (zbind _ ?f1) _) _ =>
      destruct (run_welcome f1 g1 [] cookie Hck) as (fr' & Hsv & Hcl) end.
    eapply reach_run_r; [exact Hsv|]. cbn [app]. eapply reach_run_l; [exact Hcl|]. cbn [app]. clear Hcl Hsv.
    rewrite !zbind_assoc.
    match goal with |- reaches (mk_config (zbind _ ?g1) _ (zbind _ ?f1) _) _ =>
      destruct (run_initiate g1 f1 [] cookie Hck) as (fr2 & Hcl & Hsv) end.
    eapply reach_run_l; [exact Hcl|]. cbn [app]. eapply reach_run_r; [exact Hsv|]. cbn [app]. clear Hcl Hsv.
    rewrite !zbind_assoc.
    match goal with |- reaches (mk_config (zbind _ ?g1) _ (zbind _ ?f1) _) _ =>
      destruct (run_ready f1 g1 [] cookie) as (fr3 & Hsv & Hcl) end.
    eapply reach_run_r; [exact Hsv|]. cbn [app]. eapply reach_run_l; [exact Hcl|]. cbn [app]. clear Hcl Hsv.
    exact Hc.
  - done.
  - done.
Qed.
End exchange.

(** ** Agreement *)

(** A CURVE client that knows the server's public key and a CURVE server
    always finish, in every interleaving and without deadlock.  The server has
    the client's long-term key, socket type and identity, the client the
    server's socket type (the server's identity is not sent); both hold message
    ciphers with the same key, opposite roles and counters at 1, so that each
    reads what the other sends. *)
Theorem curve_handshakes_agree `{CurveCryptoLaws} (sc ss : bytes) (rc : ClientRandom) (rs : ServerRandom)
    (ctype stype : bytes) (cid : option bytes) (tc ts : option Z) :
  len sc = 32 -> len ss = 32 ->
  len (rc_short_secret rc) = 32 -> len (rc_vouch_nonce rc) = 16 ->
  len (rs_cookie_key rs) = 32 -> len (rs_short_secret rs) = 32 ->
  len (rs_cookie_nonce rs) = 16 -> len (rs_server_nonce rs) = 16 ->
  len ctype <= 255 -> len stype <= 255 -> from_option len 0 cid <= 255 ->
  live_timer tc -> live_timer ts ->
  x25519 (rc_short_secret rc) (x25519_public ss) <> zeros 32 ->
  x25519 sc (x25519_public (rs_short_secret rs)) <> zeros 32 ->
  x25519 (rc_short_secret rc) (x25519_public (rs_short_secret rs)) <> zeros 32 ->
  exists cres cend sres send ck sk,
    completes
      (start (client_handshake rc (curve_client_new rc (keypair_generate sc) (x25519_public ss) ctype cid) tc)
             (server_handshake rs (curve_server_new rs (keypair_generate ss) stype) ts))
      (finish (Ok (cres, cend)) (Ok (sres, send)) [] []) /\
    cr_peer_socket_type cres = stype /\ cr_peer_identity cres = None /\
    cr_peer_socket_type sres = ctype /\ cr_peer_identity sres = announced cid /\
    cr_peer_public_key sres = Some (x25519_public sc) /\
    cr_cipher cres = Some ck /\ cr_cipher sres = Some sk /\ paired ck sk /\ paired sk ck.
Proof.
  intros. set (cres := client_result sc ss rc rs stype). set (sres := server_result sc ss rc rs ctype cid).
  set (c0 := curve_client_new _ _ _ _ _). set (s0 := curve_server_new _ _ _).
  assert (Hreach : exists cend send,
    reaches (start (client_handshake rc c0 tc) (server_handshake rs s0 ts))
      (finish (Ok (cres, cend)) (Ok (sres, send)) [] [])).
  { unfold start. rewrite <- (zbind_ret (client_handshake _ _ _)), <- (zbind_ret (server_handshake _ _ _)).
    edestruct (reach_curve sc ss rc rs ctype stype cid tc ts) as (cc & cs & _ & _ & Hr);
      [done|done|done|by split_and!|done..|].
    exists cc, cs. apply Hr, reaches_refl. }
  destruct Hreach as (cend & send & Hr). exists cres, cend, sres, send.
  eexists _, _. split; [by apply reaches_completes|]. by split_and!.
Qed.

(** *** A toy instance, to run the definitions: keys are their own public keys,
    a shared secret is a sum, and a tag is cut from the secret. *)

Module Toy.
Definition add_bytes (a b : bytes) : bytes := zip_with (λ x y, u8 (u8_val x + u8_val y)) a b.
Definition tag (k : bytes) : bytes := ztake 16 (k ++ zeros 16).
Definition seal (k pt : bytes) : option bytes := Some (tag k ++ pt).
Definition open (k ct : bytes) : option bytes :=
  if bool_decide (ztake 16 ct = tag k) then Some (zdrop 16 ct) else None.

#[export] Instance crypto : CurveCrypto := {|
  x25519_public s := s;
  x25519 a b := add_bytes a b;
  salsa_box_encrypt pk sk n pt := seal (add_bytes sk pk) pt;
  salsa_box_decrypt pk sk n ct := open (add_bytes sk pk) ct;
  sha256 bs := ztake 32 bs;
|}.

#[export] Instance aead : Aead bytes := {|
  aead_encrypt k n pt := seal k pt;
  aead_decrypt k n ct := open k ct;
|}.

Lemma tag_len k : len (tag k) = 16.
Proof. unfold tag. rewrite len_ztake; [done|]. rewrite len_app, zeros_len. pose proof (len_nonneg k). lia. Qed.

Lemma open_seal k pt ct : seal k pt = Some ct -> open k ct = Some pt.
Proof.
  intros [= <-]. unfold open. rewrite head_of, tail_of by apply tag_len.
  by rewrite bool_decide_eq_true_2.
Qed.

Lemma seal_len k pt : exists ct, seal k pt = Some ct /\ len ct = len pt + 16.
Proof. eexists. split; [done|]. rewrite len_app, tag_len. lia. Qed.

Lemma add_bytes_comm a b : add_bytes a b = add_bytes b a.
Proof.
  unfold add_bytes. revert b. induction a as [|x a IH]; intros [|y b]; cbn; try done.
  f_equal; [f_equal; lia|apply IH].
Qed.

#[export] Instance laws : CurveCryptoLaws.
Proof.
  constructor; cbn.
  - done.
  - intros a b. apply add_bytes_comm.
  - intros a b n pt ct Hs. rewrite add_bytes_comm. by apply open_seal.
  - intros pk sk n pt _ _. apply seal_len.
  - intros k n pt ct. apply open_seal.
  - intros k n pt _ _ _. apply seal_len.
Qed.

Definition key (n : Z) : bytes := repeat (u8 n) 32.
Definition client_random : ClientRandom := mk_client_random (key 3) (repeat (u8 9) 16).
Definition server_random : ServerRandom :=
  mk_server_random (key 5) (key 7) (repeat (u8 11) 16) (repeat (u8 13) 16).
End Toy.

#[local] Existing Instance Toy.crypto.
#[local] Existing Instance Toy.aead.
#[local] Existing Instance Toy.laws.

Lemma curve_handshakes_agree_witness :
  exists cres cend sres send,
    completes
      (start (client_handshake Toy.client_random
                (curve_client_new Toy.client_random (keypair_generate (Toy.key 1)) (x25519_public (Toy.key 2))
                   (ascii_bytes "DEALER") (Some (ascii_bytes "worker"))) (Some 30000))
             (server_handshake Toy.server_random
                (curve_server_new Toy.server_random (keypair_generate (Toy.key 2)) (ascii_bytes "ROUTER")) None))
      (finish (Ok (cres, cend)) (Ok (sres, send)) [] []) /\
    cr_peer_public_key sres = Some (Toy.key 1).
Proof.
  destruct (curve_handshakes_agree (Toy.key 1) (Toy.key 2) Toy.client_random Toy.server_random
    (ascii_bytes "DEALER") (ascii_bytes "ROUTER") (Some (ascii_bytes "worker")) (Some 30000) None
    eq_refl eq_refl eq_refl eq_refl eq_refl eq_refl eq_refl eq_refl
    ltac:(vm_compute; congruence) ltac:(vm_compute; congruence) ltac:(vm_compute; congruence)
    eq_refl I ltac:(vm_compute; congruence) ltac:(vm_compute; congruence) ltac:(vm_compute; congruence))
    as (cres & cend & sres & send & ck & sk & Hc & _ & _ & _ & _ & Hk & _).
  exists cres, cend, sres, send. split; [exact Hc|exact Hk].
Defined.

(** ** What a server knows about a client it accepts, whatever was sent *)

Lemma run_on_lift {A} (r : result ZmtpError A) input out a out' rest :
  run_on (Ret r) input out = (Finished (Ok a), out', rest) -> r = Ok a /\ out' = out /\ rest = input.
Proof. cbn. by intros [= -> -> ->]. Qed.

Lemma run_on_or_zmtp {E A} (r : result E A) e input out a out' rest :
  run_on (or_zmtp r e) input out = (Finished (Ok a), out', rest) -> r = Ok a.
Proof. cbn. destruct r; by intros [= -> _ _]. Qed.

Lemma run_on_ok_or {A} (o : option A) input out a out' rest :
  run_on (ok_or_protocol o) input out = (Finished (Ok a), out', rest) -> o = Some a.
Proof. cbn. destruct o; by intros [= -> _ _]. Qed.

(** Step through a successful run: the outcomes of its binds and tests. *)
Ltac run_inv H :=
  repeat match type of H with
  | run_on (zbind _ _) _ _ = _ =>
      let a := fresh "a" in let o := fresh "o" in let r := fresh "r" in let Hp := fresh "Hp" in
      apply run_on_zbind in H as (a & o & r & Hp & H);
      first [apply run_on_or_zmtp in Hp | apply run_on_ok_or in Hp
            | apply run_on_lift in Hp as (Hp & ? & ?) | idtac]; cbv beta zeta in H
  | run_on (if ?b then _ else _) _ _ = _ =>
      let E := fresh "E" in destruct b eqn:E; [by discriminate H|]; cbv beta zeta in H
  end.

Section soundness.
Context `{CurveCrypto} `{Aead bytes}.

Lemma recv_hello_sound s t input out s' out' rest :
  run_on (server_recv_hello s t) input out = (Finished (Ok s'), out', rest) ->
  exists c_prime nonce box,
    s' = mk_curve_server (cs_server_keypair s) (cs_short_keypair s) (Some c_prime)
           (cs_client_public s) (cs_cookie_key s) (cs_local_socket_type s) (cs_peer_socket_type s)
           (cs_peer_identity_recv s) (cs_send_nonce s) (cs_recv_nonce s) (cs_message_box s) /\
    salsa_decrypt c_prime (kp_secret (cs_server_keypair s)) (ascii_bytes "CurveZMQHELLO---" ++ nonce) box
      = Ok (zeros 64).
Proof.
  unfold server_recv_hello. intros Hr. run_inv Hr. apply run_on_lift in Hr as [[= <-] _].
  eexists _, _, _. split; [done|]. rewrite Hp0. f_equal.
  bool_prop. match goal with E : existsb _ ?l = false |- _ => apply nul_padding in E as -> end.
  f_equal. unfold len in *. lia.
Qed.

Lemma check_vouch_sound s c_prime c_pk vouch :
  check_vouch s c_prime c_pk vouch = Ok tt ->
  exists nonce ct,
    salsa_decrypt c_pk (kp_secret (cs_server_keypair s)) (ascii_bytes "VOUCH---" ++ nonce) ct
      = Ok (c_prime ++ kp_public (cs_short_keypair s)).
Proof.
  unfold check_vouch. destruct (salsa_decrypt _ _ _ _) as [pt|e] eqn:Ed; [|done].
  destruct (negb (len pt =? 64)); [done|].
  destruct (negb (bool_decide (ztake 32 pt = _))) eqn:E1; [done|].
  destruct (negb (bool_decide (zdrop 32 pt = _))) eqn:E2; [done|]. intros _. bool_prop. subst c_prime.
  eexists _, _. rewrite Ed, <- E2. by rewrite ztake_zdrop.
Qed.

Lemma recv_initiate_sound s t input out s' out' rest :
  run_on (server_recv_initiate s t) input out = (Finished (Ok s'), out', rest) ->
  exists c_prime c_pk st id nonce ct,
    cs_client_short_public s = Some c_prime /\
    s' = mk_curve_server (cs_server_keypair s) (cs_short_keypair s) (cs_client_short_public s)
           (Some c_pk) (cs_cookie_key s) (cs_local_socket_type s) (Some st) id
           (cs_send_nonce s) (cs_recv_nonce s) (cs_message_box s) /\
    len c_pk = 32 /\
    salsa_decrypt c_pk (kp_secret (cs_server_keypair s)) (ascii_bytes "VOUCH---" ++ nonce) ct
      = Ok (c_prime ++ kp_public (cs_short_keypair s)).
Proof.
  unfold server_recv_initiate. intros Hr. run_inv Hr.
  destruct (aead_decrypt _ _ _) as [cookie_pt|]; [|by discriminate Hr]. run_inv Hr.
  match goal with Hm : decode_zmtp_props _ = Ok ?m |- _ => destruct m as [[st|] id] end; [|by discriminate].
  apply run_on_lift in Hr as [[= <-] _].
  match goal with Hv : check_vouch _ _ _ _ = Ok ?u |- _ => destruct u; rename Hv into Hvouch end.
  apply check_vouch_sound in Hvouch as (nonce & ct & Hvouch).
  eexists _, _, st, id, nonce, ct. split_and!; [eassumption|done| |exact Hvouch].
  apply orb_false_iff in E as [E _]. bool_prop. rewrite len_ztake; [done|]. rewrite len_zdrop; lia.
Qed.

Lemma diffie_hellman_sound sk pk x : diffie_hellman sk pk = Ok x -> x = x25519 sk pk /\ x <> zeros 32.
Proof. unfold diffie_hellman. case_bool_decide; [done|]. by intros [= <-]. Qed.

Lemma send_ready_sound s t input out s' out' rest :
  run_on (server_send_ready s t) input out = (Finished (Ok s'), out', rest) ->
  exists c_prime c_pk,
    cs_client_short_public s = Some c_prime /\ cs_client_public s = Some c_pk /\
    s' = mk_curve_server (cs_server_keypair s) (cs_short_keypair s) (cs_client_short_public s)
           (cs_client_public s) (cs_cookie_key s) (cs_local_socket_type s) (cs_peer_socket_type s)
           (cs_peer_identity_recv s) (cs_send_nonce s) (cs_recv_nonce s)
           (Some (sha256 (x25519 (kp_secret (cs_server_keypair s)) c_prime
                          ++ x25519 (kp_secret (cs_short_keypair s)) c_pk
                          ++ x25519 (kp_secret (cs_short_keypair s)) c_prime))).
Proof.
  unfold server_send_ready. intros Hr. run_inv Hr. apply run_on_lift in Hr as [[= <-] _].
  repeat match goal with Hd : diffie_hellman _ _ = Ok _ |- _ => apply diffie_hellman_sound in Hd as [-> _] end.
  eexists _, _. split_and!; [eassumption|eassumption|done].
Qed.
End soundness.

(** C15: what a CURVE server that completes a handshake knows, whatever bytes the
    peer sent.  The key it reports is a 32-byte key [C] under which, with the
    server's own secret, a box opened to the two short-term keys of this very
    connection (the vouch), and the HELLO proved knowledge of the client's
    short-term key; the message key is derived from these three keys.  No law
    of the primitives is assumed. *)
Theorem curve_server_authenticates `{CurveCrypto} `{Aead bytes} (rnd : ServerRandom) (kp : CurveKeyPair)
    (stype : bytes) (t : option Z) (input out rest : bytes) (res : CurveHandshakeResult) (s' : CurveServer) :
  run_on (server_handshake rnd (curve_server_new rnd kp stype) t) input [] = (Finished (Ok (res, s')), out, rest) ->
  exists c_prime c_pk,
    cr_peer_public_key res = Some c_pk /\ len c_pk = 32 /\
    (exists nonce box, salsa_decrypt c_prime (kp_secret kp) (ascii_bytes "CurveZMQHELLO---" ++ nonce) box
                         = Ok (zeros 64)) /\
    (exists nonce ct, salsa_decrypt c_pk (kp_secret kp) (ascii_bytes "VOUCH---" ++ nonce) ct
                        = Ok (c_prime ++ x25519_public (rs_short_secret rnd))) /\
    cr_cipher res = Some (mk_cipher (sha256 (x25519 (kp_secret kp) c_prime
                                             ++ x25519 (rs_short_secret rnd) c_pk
                                             ++ x25519 (rs_short_secret rnd) c_prime)) 1 1 false).
Proof.
  unfold server_handshake. intros Hr.
  apply run_on_zbind in Hr as (s1 & o1 & r1 & Hh & Hr).
  apply recv_hello_sound in Hh as (c_prime & n1 & b1 & -> & Hhello).
  apply run_on_zbind in Hr as (u & o2 & r2 & _ & Hr).
  apply run_on_zbind in Hr as (s2 & o3 & r3 & Hi & Hr).
  apply recv_initiate_sound in Hi as (c_prime' & c_pk & st & id & n2 & ct & [= <-] & -> & Hlen & Hvouch).
  apply run_on_zbind in Hr as (s3 & o4 & r4 & Hs & Hr).
  apply send_ready_sound in Hs as (cp & cpk & [= <-] & [= <-] & ->).
  cbn in Hr. injection Hr as <- _ _ _.
  exists c_prime, c_pk. cbn in *. split_and!; [done|done|by eexists _, _|by eexists _, _|done].
Qed.

(** What the toy client sends: HELLO and INITIATE. *)
Definition toy_input : bytes :=
  let sealed k pt := Toy.tag k ++ pt in
  let cookie := rs_cookie_nonce Toy.server_random ++ sealed (Toy.key 5) (Toy.key 3 ++ Toy.key 7) in
  let vouch := rc_vouch_nonce Toy.client_random ++ sealed (Toy.add_bytes (Toy.key 1) (Toy.key 2)) (Toy.key 3 ++ Toy.key 7) in
  zmtp_cmd_frame (CURVE_HELLO ++ [u8 1] ++ zeros 71 ++ Toy.key 3 ++ be_bytes 8 1
                  ++ sealed (Toy.add_bytes (Toy.key 3) (Toy.key 2)) (zeros 64))
  ++ zmtp_cmd_frame (CURVE_INITIATE ++ cookie ++ Toy.key 1 ++ be_bytes 8 1
                     ++ sealed (Toy.add_bytes (Toy.key 3) (Toy.key 7))
                          (vouch ++ encode_zmtp_props (ascii_bytes "DEALER") None)).

Lemma curve_server_authenticates_witness :
  exists res c_pk, cr_peer_public_key res = Some c_pk /\ len c_pk = 32.
Proof.
  destruct (run_on (server_handshake Toy.server_random
    (curve_server_new Toy.server_random (keypair_generate (Toy.key 2)) (ascii_bytes "ROUTER")) None) toy_input [])
    as [[[[[res s']|e]| |] out] rest] eqn:E; [|vm_compute in E; discriminate E..].
  destruct (curve_server_authenticates Toy.server_random (keypair_generate (Toy.key 2)) (ascii_bytes "ROUTER") None
    toy_input out rest res s' E) as (c_prime & c_pk & Hk & Hl & _).
  exists res, c_pk. split; [exact Hk|exact Hl].
Defined.
