(* ===== verification/Handshake.v ===== *)
(** * The ZMTP handshake

    [perform_handshake_with_options] of monocoque-zmtp/src/handshake.rs: the
    greeting, the exchange of the selected mechanism, the READY commands.  What
    a handshake takes from its process besides the stream (the ZAP endpoint, the
    ZAP request counter, random numbers) is [HandshakeEnv]. *)

From S2P Require Import Prelude.
From S2P Require Import Options.
From S2P Require Import SegBuffer.
From S2P Require Import Codec.
From S2P Require Import Greeting.
From S2P Require Import Ready.
From S2P Require Import Stream.
From S2P Require Import CurveMessage.
From S2P Require Import Zap.
From S2P Require Import ZapAuth.
From S2P Require Import Proc.
From S2P Require Import Plain.
From S2P Require Import CurveHandshake.

Record HandshakeResult := mk_handshake_result {
  hs_peer_identity : option bytes;
  hs_peer_socket_type : SocketType;
  hs_curve_cipher : option (CurveMessageCipher bytes);
}.

Record HandshakeEnv (S : Type) := mk_env {
  he_zap_new : io_result S;
  he_counter : Z;
  he_client_random : ClientRandom;
  he_server_random : ServerRandom;
}.
Arguments mk_env {S} _ _ _ _.
Arguments he_zap_new {S} _.
Arguments he_counter {S} _.
Arguments he_client_random {S} _.
Arguments he_server_random {S} _.

Definition MAX_READY_SIZE : Z := 512.

(** The checks on the peer's greeting. *)
Definition check_greeting (m : SecurityMechanism) (greeting_buf : bytes) : result ZmtpError unit :=
  if negb (byte_at greeting_buf 0 =? 0xFF) || negb (byte_at greeting_buf 9 =? 0x7F) then Err Protocol else
  match greeting_parse greeting_buf with
  | Err _ => Err Protocol
  | Ok peer_greeting =>
      let peer_mech_str := mechanism_str peer_greeting in
      let our_mech_name := as_greeting_bytes m in
      if negb (eq_ignore_ascii_case peer_mech_str our_mech_name) then Err Protocol else
      if negb (byte_at greeting_buf 9 =? 0x7F) then Err Protocol else
      let peer_major := byte_at greeting_buf 10 in
      if negb (bool_decide (m = Null)) && negb (peer_major =? 3) then Err Protocol else
      try! peer_mechanism := parse_greeting_mechanism (ztake 20 (zdrop 12 greeting_buf)) in
      if negb (bool_decide (peer_mechanism = m)) then Err Protocol else Ok tt
  end.

Section handshake.
Context {S : Type} `{MessageSocket S} `{CurveCrypto} `{Aead bytes}.

Definition run_plain_exchange (env : HandshakeEnv S) (options : SocketOptions) (t : option Z) : zproc unit :=
  if plain_server options then
    do! _ := plain_server_handshake_zap (he_zap_new env) (he_counter env) (zap_domain options)
               (ascii_bytes "unknown") t in
    Ret (Ok tt)
  else match plain_username options with
  | Some username =>
      let password := default [] (plain_password options) in
      plain_client_handshake (mk_credentials username password) t
  | None => Ret (Ok tt)
  end.

Definition run_curve_exchange (env : HandshakeEnv S) (options : SocketOptions) (t : option Z)
    (local_socket_type : SocketType) (local_identity : option bytes) : zproc CurveHandshakeResult :=
  if curve_server options then
    do! secret_bytes := ok_or_protocol (curve_secretkey options) in
    let server_keypair := keypair_generate secret_bytes in
    if bool_decide (zap_domain options = []) then
      do! res := server_handshake (he_server_random env)
                   (curve_server_new (he_server_random env) server_keypair (as_str local_socket_type)) t in
      Ret (Ok res.1)
    else
      curve_server_handshake_zap (he_zap_new env) (he_counter env) (he_server_random env) server_keypair
        (zap_domain options) t (ascii_bytes "unknown") (as_str local_socket_type)
  else match curve_secretkey options, curve_serverkey options with
  | Some secret_bytes, Some server_key_bytes =>
      do! res := client_handshake (he_client_random env)
                   (curve_client_new (he_client_random env) (keypair_generate secret_bytes) server_key_bytes
                      (as_str local_socket_type) local_identity) t in
      Ret (Ok res.1)
  | _, _ => Ret (Err Protocol)
  end.

(** CURVE has carried the metadata of the peer already. *)
Definition curve_finish (cr : CurveHandshakeResult) : zproc HandshakeResult :=
  do! peer_socket_type := lift_result (parse_socket_type (cr_peer_socket_type cr)) in
  Ret (Ok (mk_handshake_result (cr_peer_identity cr) peer_socket_type (cr_cipher cr))).

(** Step 5: the peer's READY command. *)
Definition read_ready (t : option Z) : zproc (SocketType * option bytes) :=
  do! header_buf := read_exact 2 t in
  let flags := byte_at header_buf 0 in
  let is_command := negb (Z.land flags (u8_val FLAG_COMMAND) =? 0) in
  let is_long := negb (Z.land flags 0x02 =? 0) in
  if negb is_command then Ret (Err Protocol) else
  do! body_len :=
    (if is_long then
       do! len_buf := read_exact 8 t in
       let raw_len := be_val len_buf in
       if usize_max <? raw_len then Ret (Err Protocol) else Ret (Ok raw_len)
     else Ret (Ok (byte_at header_buf 1))) in
  if MAX_READY_SIZE <? body_len then Ret (Err Protocol) else
  do! body_buf := read_exact body_len t in
  lift_panic (parse_ready_command body_buf).

(** Steps 4 and 5, for NULL and PLAIN. *)
Definition ready_exchange (local_socket_type : SocketType) (identity : option bytes) (t : option Z)
    : zproc HandshakeResult :=
  let ready_body := build_ready (as_str local_socket_type) identity in
  do! _ := write_all (encode_frame FLAG_COMMAND ready_body) t in
  do! peer := read_ready t in
  Ret (Ok (mk_handshake_result peer.2 peer.1 None)).

Definition perform_handshake_with_options (env : HandshakeEnv S) (local_socket_type : SocketType)
    (identity : option bytes) (t : option Z) (options : SocketOptions) : zproc HandshakeResult :=
  let mechanism := mechanism_from_options options in
  do! _ := write_all (build_greeting_with_mechanism mechanism options) t in
  do! greeting_buf := read_exact 64 t in
  do! _ := lift_result (check_greeting mechanism greeting_buf) in
  match mechanism with
  | Null => ready_exchange local_socket_type identity t
  | Plain =>
      do! _ := run_plain_exchange env options t in
      ready_exchange local_socket_type identity t
  | Curve =>
      do! cr := run_curve_exchange env options t local_socket_type identity in
      curve_finish cr
  end.
End handshake.

(** ** Greetings *)

(** The greeting of a side is accepted by the peers that select the same
    mechanism, and by no other. *)
Lemma check_greeting_built m m' options :
  check_greeting m (build_greeting_with_mechanism m' options) = if bool_decide (m' = m) then Ok tt else Err Protocol.
Proof.
  unfold build_greeting_with_mechanism.
  destruct m, m'; try (destruct (plain_server options)); try (destruct (curve_server options)); vm_compute; done.
Qed.

Lemma greeting_len m options : len (build_greeting_with_mechanism m options) = 64.
Proof. by destruct m. Qed.

(** ** READY commands *)

Definition ready_frame (ty : SocketType) (id : option bytes) : bytes :=
  encode_frame FLAG_COMMAND (build_ready (as_str ty) id).

(** A READY whose body fits a short frame. *)
Definition ready_short (ty : SocketType) (id : option bytes) : Prop :=
  len (build_ready (as_str ty) id) <= 255.

Lemma build_ready_len ty id :
  from_option len 0 id <= u32_max -> from_option len 0 id <= len (build_ready (as_str ty) id) <= u32_max + 50.
Proof.
  intros Hid. rewrite build_ready_spec, len_app by done. unfold ready_props.
  pose proof (as_str_len ty). pose proof (len_nonneg (as_str ty)).
  change (len ready_header) with 6. rewrite len_encode_props_cons, len_encode_prop.
  change (len (ascii_bytes "Socket-Type")) with 11. unfold u32_max in *.
  destruct id as [i|]; cbn [from_option] in *; [|change (len (encode_props [])) with 0; lia].
  rewrite len_encode_props_cons, len_encode_prop. change (len (ascii_bytes "Identity")) with 8.
  change (len (encode_props [])) with 0. pose proof (len_nonneg i). lia.
Qed.

Lemma run_read_ready_short {A} t (g : SocketType * option bytes -> zproc A) ty id p' i' out :
  live_timer t -> from_option len 0 id <= u32_max -> ready_short ty id ->
  local_run (g (ty, id)) [] p' i' out ->
  local_run (zbind (read_ready t) g) (ready_frame ty id) p' i' out.
Proof.
  intros Ht Hid Hs Hrun. unfold ready_short in Hs. unfold ready_frame, encode_frame.
  pose proof (build_ready_len ty id Hid) as [Hidl _]. set (body := build_ready (as_str ty) id) in *.
  pose proof (len_nonneg body). rewrite (proj2 (Z.leb_le _ _)) by done.
  change (u8 (Z.land (u8_val FLAG_COMMAND) 253)) with (u8 4). unfold read_ready. rewrite zbind_assoc.
  apply run_read; [done|done|]. change (byte_at [u8 4; u8 (len body)] 0) with 4.
  change (byte_at [u8 4; u8 (len body)] 1) with (u8_val (u8 (len body))). rewrite u8_val_small by lia.
  change (Z.land 4 (u8_val FLAG_COMMAND) =? 0) with false. change (Z.land 4 2 =? 0) with true. cbn [negb].
  rewrite zbind_ok. rewrite (proj2 (Z.ltb_ge MAX_READY_SIZE _)) by (unfold MAX_READY_SIZE; lia).
  rewrite zbind_assoc. apply run_read_rest; [done|done|].
  unfold body. rewrite ready_parses_back by done. by rewrite (proj2 (Z.leb_le _ 255)) by lia.
Qed.

Lemma be_val_app l k : be_val (l ++ k) = be_val l * 256 ^ len k + be_val k.
Proof.
  induction k as [|b k IH] using rev_ind.
  - rewrite app_nil_r. change (256 ^ len []) with 1. change (be_val []) with 0. lia.
  - rewrite app_assoc, !be_val_snoc, IH. replace (len (k ++ [b])) with (Z.succ (len k)) by len_lia.
    rewrite Z.pow_succ_r by apply len_nonneg. lia.
Qed.

(** The length of a long READY is read from one byte too far. *)
Lemma run_read_ready_long {A} t (g : SocketType * option bytes -> zproc A) ty id :
  live_timer t -> from_option len 0 id <= u32_max -> ~ ready_short ty id ->
  exists rest, local_run (zbind (read_ready t) g) (ready_frame ty id) (Ret (Err Protocol)) rest [].
Proof.
  intros Ht Hid Hs. unfold ready_short in Hs. unfold ready_frame, encode_frame.
  pose proof (build_ready_len ty id Hid) as [_ Hlen]. set (body := build_ready (as_str ty) id) in *.
  assert (Hb : exists b tl, body = b :: tl) by (unfold body, build_ready; destruct id; cbn; eauto).
  destruct Hb as (b & tl & Hb). rewrite (proj2 (Z.leb_gt _ _)) by lia.
  change (u8 (Z.lor (u8_val FLAG_COMMAND) FLAG_LONG)) with (u8 6).
  assert (Hv : be_val (be_bytes 8 (len body)) = len body).
  { apply be_val_be_bytes. change (256 ^ Z.of_nat 8) with (2 ^ 64). unfold u32_max in *. pose proof (len_nonneg body). lia. }
  pose proof (len_be_bytes 8 (len body)) as Hl8.
  destruct (be_bytes 8 (len body)) as [|b0 r7]; [done|]. rewrite len_cons in Hl8.
  change (b0 :: r7) with ([b0] ++ r7) in Hv. rewrite be_val_app in Hv.
  replace (len r7) with 7 in Hv by lia. change (be_val [b0]) with (u8_val b0) in Hv.
  pose proof (u8_val_range b0) as Hb0. pose proof (be_val_bound r7) as Hr7.
  assert (Hz : u8_val b0 = 0) by (change (256 ^ 7) with 72057594037927936 in Hv; unfold u32_max in Hlen; lia).
  exists tl. replace ([u8 6] ++ (b0 :: r7) ++ body) with ([u8 6; b0] ++ (r7 ++ [b]) ++ tl).
  2: { rewrite Hb. cbn. by rewrite <- app_assoc. }
  unfold read_ready. rewrite zbind_assoc. apply run_read; [done|done|].
  change (byte_at [u8 6; b0] 0) with 6.
  change (Z.land 6 (u8_val FLAG_COMMAND) =? 0) with false. change (Z.land 6 2 =? 0) with false. cbn [negb].
  rewrite !zbind_assoc. apply run_read; [done|rewrite len_app, len_cons, len_nil; lia|].
  rewrite be_val_snoc. pose proof (u8_val_range b).
  rewrite (proj2 (Z.ltb_ge usize_max _)) by (unfold usize_max, u32_max in *; lia). rewrite zbind_ok.
  rewrite (proj2 (Z.ltb_lt MAX_READY_SIZE _)) by (unfold MAX_READY_SIZE; lia). apply local_run_refl.
Qed.

Section pair.
Context `{CurveCrypto} `{Aead bytes}.

(** What follows the greeting. *)
Definition after_greeting {S} `{MessageSocket S} (env : HandshakeEnv S) (ty : SocketType) (id : option bytes)
    (t : option Z) (options : SocketOptions) : zproc HandshakeResult :=
  match mechanism_from_options options with
  | Null => ready_exchange ty id t
  | Plain =>
      do! _ := run_plain_exchange env options t in
      ready_exchange ty id t
  | Curve =>
      do! cr := run_curve_exchange env options t ty id in
      curve_finish cr
  end.

Lemma reach_greetings {S T} `{MessageSocket S} `{MessageSocket T} (enva : HandshakeEnv S) (envb : HandshakeEnv T) ta tb ida idb tma tmb oa ob c :
  live_timer tma -> live_timer tmb ->
  reaches (if bool_decide (mechanism_from_options oa = mechanism_from_options ob)
           then mk_config (after_greeting enva ta ida tma oa) [] (after_greeting envb tb idb tmb ob) []
           else finish (Err Protocol) (Err Protocol) [] []) c ->
  reaches (start (perform_handshake_with_options enva ta ida tma oa)
                 (perform_handshake_with_options envb tb idb tmb ob)) c.
Proof.
  intros Hta Htb Hc. unfold start, perform_handshake_with_options.
  apply reach_write_all_l; [done|]. apply reach_write_all_r; [done|]. rewrite !app_nil_l.
  apply reach_read_rest_l; [done|apply greeting_len|]. apply reach_read_rest_r; [done|apply greeting_len|].
  rewrite !check_greeting_built. unfold after_greeting in Hc.
  case_bool_decide as E.
  - by rewrite E, !bool_decide_eq_true_2 in * by done.
  - by rewrite !bool_decide_eq_false_2 by congruence.
Qed.

Lemma reach_ready ta tb ida idb tma tmb :
  live_timer tma -> live_timer tmb ->
  from_option len 0 ida <= u32_max -> from_option len 0 idb <= u32_max ->
  ready_short ta ida -> ready_short tb idb ->
  reaches (mk_config (ready_exchange ta ida tma) [] (ready_exchange tb idb tmb) [])
    (finish (Ok (mk_handshake_result idb tb None)) (Ok (mk_handshake_result ida ta None)) [] []).
Proof.
  intros Hta Htb Ha Hb Hsa Hsb. unfold ready_exchange.
  apply reach_write_all_l; [done|]. apply reach_write_all_r; [done|]. rewrite !app_nil_l.
  eapply reach_run_l; [apply run_read_ready_short; [done..|apply local_run_refl]|]. rewrite app_nil_r.
  eapply reach_run_r; [apply run_read_ready_short; [done..|apply local_run_refl]|]. apply reaches_refl.
Qed.
End pair.

(** C13: two peers that use NULL always complete the handshake, in every
    interleaving and without deadlock, and each knows the socket type and the
    identity the other announced, provided each READY command fits a short
    frame. *)
Theorem null_handshakes_complete {S T : Type} `{MessageSocket S} `{MessageSocket T} `{CurveCrypto} `{Aead bytes}
    (enva : HandshakeEnv S) (envb : HandshakeEnv T) (ta tb : SocketType) (ida idb : option bytes)
    (tma tmb : option Z) (oa ob : SocketOptions) :
  mechanism_from_options oa = Null -> mechanism_from_options ob = Null ->
  live_timer tma -> live_timer tmb ->
  from_option len 0 ida <= u32_max -> from_option len 0 idb <= u32_max ->
  ready_short ta ida -> ready_short tb idb ->
  completes (start (perform_handshake_with_options enva ta ida tma oa)
                   (perform_handshake_with_options envb tb idb tmb ob))
    (finish (Ok (mk_handshake_result idb tb None)) (Ok (mk_handshake_result ida ta None)) [] []).
Proof.
  intros Hoa Hob Hta Htb Ha Hb Hsa Hsb. apply reaches_completes, reach_greetings; [done..|].
  unfold after_greeting. rewrite Hoa, Hob, bool_decide_eq_true_2 by done. by apply reach_ready.
Qed.

(** A process with no ZAP endpoint. *)
Definition no_zap_env : HandshakeEnv Queues :=
  mk_env (Err NotFound) 1 Toy.client_random Toy.server_random.

#[local] Existing Instance Toy.crypto.
#[local] Existing Instance Toy.aead.
#[local] Existing Instance Toy.laws.

Lemma null_handshakes_complete_witness :
  completes (start (perform_handshake_with_options no_zap_env Dealer (Some (ascii_bytes "worker-1")) (Some 30000) default_options)
                   (perform_handshake_with_options no_zap_env Router None None default_options))
    (finish (Ok (mk_handshake_result None Router None))
            (Ok (mk_handshake_result (Some (ascii_bytes "worker-1")) Dealer None)) [] []).
Proof.
  apply (null_handshakes_complete no_zap_env no_zap_env Dealer Router (Some (ascii_bytes "worker-1")) None
    (Some 30000) None default_options default_options); vm_compute; congruence || exact I.
Defined.

(** A peer whose READY does not fit a short frame (an identity of some 220
    bytes is enough, although identities up to 255 bytes are allowed) is always
    refused: the other side reads the eight length bytes from one byte too far
    and takes the length for an oversized one.  The peer itself believes the
    handshake has succeeded. *)
Theorem long_ready_refused {S T : Type} `{MessageSocket S} `{MessageSocket T} `{CurveCrypto} `{Aead bytes}
    (enva : HandshakeEnv S) (envb : HandshakeEnv T) (ta tb : SocketType) (ida idb : option bytes)
    (tma tmb : option Z) (oa ob : SocketOptions) :
  mechanism_from_options oa = Null -> mechanism_from_options ob = Null ->
  live_timer tma -> live_timer tmb ->
  from_option len 0 ida <= u32_max -> from_option len 0 idb <= u32_max ->
  ~ ready_short ta ida -> ready_short tb idb ->
  exists unread,
    completes (start (perform_handshake_with_options enva ta ida tma oa)
                     (perform_handshake_with_options envb tb idb tmb ob))
      (finish (Ok (mk_handshake_result idb tb None)) (Err Protocol) [] unread).
Proof.
  intros Hoa Hob Hta Htb Ha Hb Hsa Hsb.
  destruct (run_read_ready_long tmb (λ peer, Ret (Ok (mk_handshake_result peer.2 peer.1 None))) ta ida Htb Ha Hsa)
    as [unread Hrun].
  exists unread. apply reaches_completes, reach_greetings; [done..|].
  unfold after_greeting. rewrite Hoa, Hob, bool_decide_eq_true_2 by done. unfold ready_exchange.
  apply reach_write_all_l; [done|]. apply reach_write_all_r; [done|]. rewrite !app_nil_l.
  eapply reach_run_l; [apply run_read_ready_short; [done..|apply local_run_refl]|]. rewrite app_nil_r.
  eapply reach_run_r; [exact Hrun|]. apply reaches_refl.
Qed.

Definition long_identity : bytes := repeat (u8 0x61) 230.

Lemma long_ready_refused_witness :
  len long_identity <= 255 /\
  exists unread,
    completes (start (perform_handshake_with_options no_zap_env Dealer (Some long_identity) None default_options)
                     (perform_handshake_with_options no_zap_env Router None None default_options))
      (finish (Ok (mk_handshake_result None Router None)) (Err Protocol) [] unread).
Proof.
  split; [vm_compute; congruence|].
  apply (long_ready_refused no_zap_env no_zap_env Dealer Router (Some long_identity) None None None
    default_options default_options); try exact I; vm_compute; congruence || tauto.
Defined.

(** Two peers whose options select different mechanisms always both refuse,
    right after the greetings: nothing else is exchanged, and neither a NULL
    peer is let into a secured endpoint nor the reverse. *)
Theorem mechanism_mismatch_refused {S T : Type} `{MessageSocket S} `{MessageSocket T} `{CurveCrypto} `{Aead bytes}
    (enva : HandshakeEnv S) (envb : HandshakeEnv T) (ta tb : SocketType) (ida idb : option bytes)
    (tma tmb : option Z) (oa ob : SocketOptions) :
  mechanism_from_options oa <> mechanism_from_options ob -> live_timer tma -> live_timer tmb ->
  completes (start (perform_handshake_with_options enva ta ida tma oa)
                   (perform_handshake_with_options envb tb idb tmb ob))
    (finish (Err Protocol) (Err Protocol) [] []).
Proof.
  intros Hne Hta Htb. apply reaches_completes, reach_greetings; [done..|].
  rewrite bool_decide_eq_false_2 by done. apply reaches_refl.
Qed.

Lemma mechanism_mismatch_refused_witness :
  completes (start (perform_handshake_with_options no_zap_env Dealer None None default_options)
                   (perform_handshake_with_options no_zap_env Router None None (with_plain_server default_options true)))
    (finish (Err Protocol) (Err Protocol) [] []).
Proof.
  apply (mechanism_mismatch_refused no_zap_env no_zap_env Dealer Router None None None None
    default_options (with_plain_server default_options true)); [vm_compute; congruence|exact I|exact I].
Defined.

(** ** PLAIN with ZAP *)

(** A process whose ZAP endpoint is served by a default handler. *)
Definition zap_env {H} (h : DefaultZapHandler H) (counter : Z) (rc : ClientRandom) (rs : ServerRandom)
    : HandshakeEnv (ClientEnd (DefaultZapHandler H)) :=
  mk_env (Ok (fresh_client h)) counter rc rs.

Section plain.
Context {S : Type} `{MessageSocket S} `{CurveCrypto} `{Aead bytes}.
Variables (enva : HandshakeEnv S) (sh : StaticPlainHandler) (counter : Z) (rc : ClientRandom) (rs : ServerRandom).
Variables (ta tb : SocketType) (ida idb : option bytes) (tma tmb : option Z) (oa ob : SocketOptions).
Variables (username password : bytes).

(** A PLAIN client and a PLAIN server, each with a READY that fits. *)
Definition plain_setting : Prop :=
  mechanism_from_options oa = Plain /\ plain_server oa = false /\
  plain_username oa = Some username /\ default [] (plain_password oa) = password /\
  mechanism_from_options ob = Plain /\ plain_server ob = true /\ utf8_valid (zap_domain ob) = true /\
  credentials_ok (mk_credentials username password) /\ 0 <= counter /\
  patient tma /\ live_timer tmb /\
  from_option len 0 ida <= u32_max /\ from_option len 0 idb <= u32_max /\
  ready_short ta ida /\ ready_short tb idb.

Definition plain_outcome : config HandshakeResult HandshakeResult :=
  if bool_decide (credentials sh !! username = Some password)
  then if is_ascii username
       then finish (Ok (mk_handshake_result idb tb None)) (Ok (mk_handshake_result ida ta None)) [] []
       else finish (Err Protocol) (Err AuthenticationFailed) [] []
  else finish (Err AuthenticationFailed) (Err AuthenticationFailed) [] [].

Lemma reach_plain :
  plain_setting ->
  reaches (start (perform_handshake_with_options enva ta ida tma oa)
                 (perform_handshake_with_options (zap_env (zap_handler_new sh true) counter rc rs) tb idb tmb ob)) plain_outcome.
Proof using.
  intros (Hoa & Hsa & Hua & Hpa & Hob & Hsb & Hd & Hcr & Hc & Hta & Htb & Ha & Hb & Hra & Hrb).
  apply reach_greetings; [by eauto with mono|done|].
  unfold after_greeting. rewrite Hoa, Hob, bool_decide_eq_true_2 by done.
  unfold run_plain_exchange. rewrite Hsa, Hsb, Hua, Hpa. unfold plain_server_handshake_zap.
  rewrite !zbind_assoc. apply reach_hello; [done..|]. cbn [fst snd pc_username pc_password he_zap_new he_counter zap_env].
  destruct Hcr as (_ & _ & Huu & Hup). cbn [pc_username pc_password] in Huu, Hup.
  rewrite (static_plain_verdict sh true counter username password (zap_domain ob) (ascii_bytes "unknown")) by done.
  unfold plain_outcome. case_bool_decide as Ek; [destruct (is_ascii username) eqn:Eu|].
  - cbn [zap_verdict]. rewrite zbind_ok. cbn [zp_status_code zp_user_id zap_response_success].
    rewrite bool_decide_eq_true_2 by done. apply reach_answer; [done..|]. rewrite zbind_ok.
    apply reach_ready; [by eauto with mono|done..].
  - cbn [zap_verdict]. rewrite !zbind_err. unfold plain_read_reply.
    rewrite zbind_assoc, read_exact_live by eauto with mono. unfold zbind at 1. cbn [proc_bind].
    unfold patient in Hta. destruct tma as [d|]; cbn [elapse].
    + rewrite (proj2 (Z.leb_gt _ _)) by lia. apply reach_eof_l; [done|]. apply reaches_refl.
    + apply reach_eof_l; [done|]. apply reaches_refl.
  - cbn [zap_verdict]. rewrite zbind_ok. cbn [zp_status_code zap_response_failure].
    rewrite bool_decide_eq_false_2 by done. apply reach_answer; [done..|]. apply reaches_refl.
Qed.
End plain.

(** C16: PLAIN, end to end.  A client with PLAIN options (UTF-8 name and
    password of at most 255 bytes) and a server that consults a ZAP endpoint backed
    by a table of credentials, with READY commands that fit a short frame and a
    client timer longer than the server's check for trailing bytes, always finish, in every interleaving: both succeed, each with the other's socket type and
    identity, when the table holds the client's name with its password (and the
    name is ASCII); both report an authentication failure when it does not.  A
    registered user whose name is not ASCII is turned away, without an ERROR
    command. *)
Theorem plain_handshakes_complete {S : Type} `{MessageSocket S} `{CurveCrypto} `{Aead bytes}
    (enva : HandshakeEnv S) (sh : StaticPlainHandler) (counter : Z) (rc : ClientRandom) (rs : ServerRandom) (ta tb : SocketType) (ida idb : option bytes)
    (tma tmb : option Z) (oa ob : SocketOptions) (username password : bytes) :
  plain_setting counter ta tb ida idb tma tmb oa ob username password ->
  completes (start (perform_handshake_with_options enva ta ida tma oa)
                   (perform_handshake_with_options (zap_env (zap_handler_new sh true) counter rc rs) tb idb tmb ob))
    (plain_outcome sh ta tb ida idb username password).
Proof.
  intros Hs. pose proof (reach_plain enva sh counter rc rs ta tb ida idb tma tmb oa ob username password Hs) as Hr.
  unfold plain_outcome in *. repeat case_match; by apply reaches_completes.
Qed.

Lemma plain_handshakes_complete_witness :
  completes
    (start (perform_handshake_with_options no_zap_env Dealer None (Some 30000)
              (with_plain_credentials default_options (ascii_bytes "admin") (ascii_bytes "secret")))
           (perform_handshake_with_options
              (zap_env (zap_handler_new example_handler true) 1 Toy.client_random Toy.server_random) Router None None
              (with_plain_server default_options true)))
    (finish (Ok (mk_handshake_result None Router None)) (Ok (mk_handshake_result None Dealer None)) [] []).
Proof.
  assert (E : plain_outcome example_handler Dealer Router None None (ascii_bytes "admin") (ascii_bytes "secret")
    = finish (Ok (mk_handshake_result None Router None)) (Ok (mk_handshake_result None Dealer None)) [] [])
    by (vm_compute; reflexivity).
  rewrite <- E.
  apply (plain_handshakes_complete no_zap_env example_handler 1 Toy.client_random Toy.server_random Dealer Router None None (Some 30000) None
    (with_plain_credentials default_options (ascii_bytes "admin") (ascii_bytes "secret"))
    (with_plain_server default_options true) (ascii_bytes "admin") (ascii_bytes "secret")).
  vm_compute. split_and!; congruence || exact I.
Defined.

(** ** CURVE *)

Section curve.
Context `{CurveCryptoLaws}.
Variables (ta tb : SocketType) (ida : option bytes) (tma tmb : option Z) (oa ob : SocketOptions).
Variables (sc ss : bytes) (rc : ClientRandom) (rs : ServerRandom).

(** A CURVE client that knows the key of a CURVE server. *)
Definition curve_setting : Prop :=
  curve_server oa = false /\ curve_secretkey oa = Some sc /\ curve_serverkey oa = Some (x25519_public ss) /\
  curve_server ob = true /\ curve_secretkey ob = Some ss /\
  len sc = 32 /\ len ss = 32 /\
  len (rc_short_secret rc) = 32 /\ len (rc_vouch_nonce rc) = 16 /\
  len (rs_cookie_key rs) = 32 /\ len (rs_short_secret rs) = 32 /\
  len (rs_cookie_nonce rs) = 16 /\ len (rs_server_nonce rs) = 16 /\
  from_option len 0 ida <= 255 /\ live_timer tma /\ live_timer tmb /\
  x25519 (rc_short_secret rc) (x25519_public ss) <> zeros 32 /\
  x25519 sc (x25519_public (rs_short_secret rs)) <> zeros 32 /\
  x25519 (rc_short_secret rc) (x25519_public (rs_short_secret rs)) <> zeros 32.

Definition curve_client_cipher : CurveMessageCipher bytes := mk_cipher (session_key sc ss rc rs) 1 1 true.
Definition curve_server_cipher : CurveMessageCipher bytes := mk_cipher (session_key sc ss rc rs) 1 1 false.

Definition curve_client_outcome : HandshakeResult := mk_handshake_result None tb (Some curve_client_cipher).
Definition curve_server_outcome : HandshakeResult :=
  mk_handshake_result (announced ida) ta (Some curve_server_cipher).

Lemma as_str_short t : len (as_str t) <= 255.
Proof using. pose proof (as_str_len t). lia. Qed.

(** The exchange, up to what each side does with its result. *)
Lemma reach_curve_exchange {A B} (g : CurveHandshakeResult -> zproc A) (f : CurveHandshakeResult -> zproc B) c :
  curve_setting ->
  reaches (mk_config (g (client_result sc ss rc rs (as_str tb))) []
                     (f (server_result sc ss rc rs (as_str ta) ida)) []) c ->
  reaches (mk_config
    (zbind (client_handshake rc (curve_client_new rc (keypair_generate sc) (x25519_public ss) (as_str ta) ida) tma)
       (λ res, g res.1)) []
    (zbind (server_handshake rs (curve_server_new rs (keypair_generate ss) (as_str tb)) tmb) (λ res, f res.1)) []) c.
Proof using H1.
  intros (_ & _ & _ & _ & _ & ? & ? & ? & ? & ? & ? & ? & ? & ? & ? & ? & ? & ? & ?) Hc.
  edestruct (reach_curve sc ss rc rs (as_str ta) (as_str tb) ida tma tmb) as (cc & cs & _ & _ & Hr);
    [done|done|done|by split_and!|apply as_str_short..|done|done|done|done|done|done|].
  by apply Hr.
Qed.

Lemma curve_mechanisms : curve_setting -> mechanism_from_options oa = Curve /\ mechanism_from_options ob = Curve.
Proof using.
  intros (_ & Hka & _ & Hsb & _). unfold mechanism_from_options. rewrite Hka, Hsb.
  rewrite (bool_decide_eq_true_2 (is_Some (Some sc))) by eauto. by rewrite orb_true_r.
Qed.
End curve.

(** C14: CURVE, end to end.  With primitives that keep their laws, keys whose
    Diffie-Hellman products are not zero, a client identity of at most 255 bytes and
    timers that are not zero, a client that knows the server's public key and a
    server without a ZAP domain always complete the handshake, in every
    interleaving: each learns the other's socket type, the server the client's
    identity, and both end with message ciphers that read each other.  The
    server's identity never reaches the client. *)
Theorem curve_handshakes_complete `{CurveCryptoLaws} {S T : Type} `{MessageSocket S} `{MessageSocket T}
    (zapa : io_result S) (zapb : io_result T) (counter : Z) (rc rc' : ClientRandom) (rs rs' : ServerRandom)
    (ta tb : SocketType) (ida idb : option bytes) (tma tmb : option Z) (oa ob : SocketOptions) (sc ss : bytes) :
  curve_setting ida tma tmb oa ob sc ss rc rs -> zap_domain ob = [] ->
  completes (start (perform_handshake_with_options (mk_env zapa counter rc rs') ta ida tma oa)
                   (perform_handshake_with_options (mk_env zapb counter rc' rs) tb idb tmb ob))
    (finish (Ok (curve_client_outcome tb sc ss rc rs)) (Ok (curve_server_outcome ta ida sc ss rc rs)) [] []) /\
  paired (curve_client_cipher sc ss rc rs) (curve_server_cipher sc ss rc rs) /\
  paired (curve_server_cipher sc ss rc rs) (curve_client_cipher sc ss rc rs).
Proof.
  intros Hs Hz. split; [|by split_and!]. destruct (curve_mechanisms _ _ _ _ _ _ _ _ _ Hs) as [Hma Hmb].
  pose proof Hs as (Hsa & Hka & Hva & Hsb & Hkb & _ & _ & _ & _ & _ & _ & _ & _ & _ & Hta & Htb & _).
  apply reaches_completes, reach_greetings; [done..|]. unfold after_greeting.
  rewrite Hma, Hmb, bool_decide_eq_true_2 by done. unfold run_curve_exchange.
  rewrite Hsa, Hsb, Hka, Hkb, Hva, Hz, (bool_decide_eq_true_2 ([] = [])) by done.
  unfold ok_or_protocol. rewrite zbind_ok, !zbind_assoc.
  apply (reach_curve_exchange ta tb ida tma tmb oa ob sc ss rc rs curve_finish curve_finish _ Hs).
  unfold curve_finish, client_result, server_result. cbn [cr_peer_socket_type].
  rewrite !parse_as_str. apply reaches_refl.
Qed.

Definition curve_client_options (secret server_key : bytes) : SocketOptions :=
  default_options <| curve_secretkey := Some secret |> <| curve_serverkey := Some server_key |>.
Definition curve_server_options (secret domain : bytes) : SocketOptions :=
  default_options <| curve_server := true |> <| curve_secretkey := Some secret |> <| zap_domain := domain |>.

Lemma curve_handshakes_complete_witness :
  completes
    (start (perform_handshake_with_options no_zap_env Dealer (Some (ascii_bytes "worker")) (Some 30000)
              (curve_client_options (Toy.key 1) (Toy.key 2)))
           (perform_handshake_with_options no_zap_env Router None None (curve_server_options (Toy.key 2) [])))
    (finish (Ok (curve_client_outcome Router (Toy.key 1) (Toy.key 2) Toy.client_random Toy.server_random))
            (Ok (curve_server_outcome Dealer (Some (ascii_bytes "worker")) (Toy.key 1) (Toy.key 2)
                   Toy.client_random Toy.server_random)) [] []).
Proof.
  refine (proj1 (curve_handshakes_complete (Err NotFound : io_result Queues) (Err NotFound : io_result Queues) 1
    Toy.client_random Toy.client_random Toy.server_random Toy.server_random Dealer Router
    (Some (ascii_bytes "worker")) None (Some 30000) None
    (curve_client_options (Toy.key 1) (Toy.key 2)) (curve_server_options (Toy.key 2) []) (Toy.key 1) (Toy.key 2) _ eq_refl)).
  vm_compute. split_and!; congruence || exact I.
Defined.

(** What a server with a ZAP domain does once the handler has answered. *)
Definition curve_zap_finish (resp : ZapResponse) (cr : CurveHandshakeResult) : zproc HandshakeResult :=
  if bool_decide (zp_status_code resp = Success) then curve_finish cr
  else WriteAll (zmtp_error_frame (zp_status_text resp)) None (λ _, Ret (Err AuthenticationFailed)).

Lemma reach_curve_zap `{CurveCryptoLaws} {S P : Type} `{MessageSocket S} `{PlainAuthHandler P}
    (zapa : io_result S) (h : DefaultZapHandler P) counter rc rc' rs rs' ta tb ida idb tma tmb oa ob sc ss resp c :
  curve_setting ida tma tmb oa ob sc ss rc rs -> zap_domain ob <> [] ->
  (authenticate_curve counter (fresh_client h) (x25519_public sc) (zap_domain ob) (ascii_bytes "unknown")).1.1
    = Returned (Ok resp) ->
  reaches (mk_config (curve_finish (client_result sc ss rc rs (as_str tb))) []
             (curve_zap_finish resp (server_result sc ss rc rs (as_str ta) ida)) []) c ->
  reaches (start (perform_handshake_with_options (mk_env zapa counter rc rs') ta ida tma oa)
                 (perform_handshake_with_options (zap_env h counter rc' rs) tb idb tmb ob)) c.
Proof.
  intros Hs Hz Hresp Hfin. destruct (curve_mechanisms _ _ _ _ _ _ _ _ _ Hs) as [Hma Hmb].
  pose proof Hs as (Hsa & Hka & Hva & Hsb & Hkb & _ & _ & _ & _ & _ & _ & _ & _ & _ & Hta & Htb & _).
  apply reach_greetings; [done..|]. unfold after_greeting.
  rewrite Hma, Hmb, bool_decide_eq_true_2 by done. unfold run_curve_exchange.
  rewrite Hsa, Hsb, Hka, Hkb, Hva, (bool_decide_eq_false_2 (zap_domain ob = [])) by done.
  unfold ok_or_protocol, curve_server_handshake_zap. rewrite zbind_ok, !zbind_assoc.
  eapply eq_rect; [apply (reach_curve_exchange ta tb ida tma tmb oa ob sc ss rc rs curve_finish
    (λ cr, zbind (zbind (ok_or_protocol (cr_peer_public_key cr)) (λ key,
       zbind (zap_verdict (authenticate_curve counter (fresh_client h) key (zap_domain ob) (ascii_bytes "unknown")).1.1)
         (λ r, if bool_decide (zp_status_code r = Success) then Ret (Ok cr)
               else proc_bind (send_zmtp_error (zp_status_text r)) (λ _, Ret (Err AuthenticationFailed)))))
       curve_finish) _ Hs)|reflexivity].
  unfold ok_or_protocol, server_result. cbn [cr_peer_public_key]. rewrite zbind_ok, Hresp. cbn [zap_verdict].
  rewrite zbind_ok. unfold curve_zap_finish in Hfin. case_bool_decide; exact Hfin.
Qed.

(** CURVE with a ZAP domain.  The server succeeds exactly when the ZAP handler
    accepts the client's long-term key; otherwise it fails and sends an ERROR
    command.  The client has finished before: it succeeds in both cases, and
    finds the ERROR in its stream later. *)
Theorem curve_zap_handshakes_complete `{CurveCryptoLaws} {S P : Type} `{MessageSocket S} `{PlainAuthHandler P}
    (zapa : io_result S) (h : DefaultZapHandler P) (counter : Z) (rc rc' : ClientRandom) (rs rs' : ServerRandom)
    (ta tb : SocketType) (ida idb : option bytes) (tma tmb : option Z) (oa ob : SocketOptions) (sc ss : bytes) :
  curve_setting ida tma tmb oa ob sc ss rc rs -> zap_domain ob <> [] -> utf8_valid (zap_domain ob) = true ->
  0 <= counter ->
  exists verdict error,
    completes (start (perform_handshake_with_options (mk_env zapa counter rc rs') ta ida tma oa)
                     (perform_handshake_with_options (zap_env h counter rc' rs) tb idb tmb ob))
      (finish (Ok (curve_client_outcome tb sc ss rc rs)) verdict error []) /\
    (curve_key_ok h (x25519_public sc) /\ verdict = Ok (curve_server_outcome ta ida sc ss rc rs) /\ error = [] \/
     ~ curve_key_ok h (x25519_public sc) /\ verdict = Err AuthenticationFailed /\
       exists reason, error = zmtp_error_frame reason).
Proof.
  intros Hs Hz Hu Hc.
  destruct (default_curve_verdict h counter (x25519_public sc) (zap_domain ob) (ascii_bytes "unknown") Hc Hu eq_refl)
    as (resp & Hresp & _ & Hst & Hiff); [discriminate|].
  pose proof (reach_curve_zap zapa h counter rc rc' rs rs' ta tb ida idb tma tmb oa ob sc ss resp) as Hreach.
  destruct Hst as [[Hok _]|[Hfail _]].
  - exists (Ok (curve_server_outcome ta ida sc ss rc rs)), []. split; [|left; split_and!; [by apply Hiff|done|done]].
    apply reaches_completes, Hreach; [done..|]. unfold curve_zap_finish. rewrite bool_decide_eq_true_2 by done.
    unfold curve_finish, client_result, server_result. cbn [cr_peer_socket_type].
    rewrite !parse_as_str. apply reaches_refl.
  - exists (Err AuthenticationFailed), (zmtp_error_frame (zp_status_text resp)). split.
    + apply reaches_completes, Hreach; [done..|]. unfold curve_zap_finish. rewrite bool_decide_eq_false_2 by congruence.
      apply reach_write_r. unfold curve_finish, client_result. cbn [cr_peer_socket_type].
      rewrite parse_as_str. apply reaches_refl.
    + right. split_and!; [|done|by eexists]. intros Hg%Hiff. congruence.
Qed.

Lemma curve_zap_handshakes_complete_witness :
  exists verdict error,
    completes
      (start (perform_handshake_with_options no_zap_env Dealer None (Some 30000)
                (curve_client_options (Toy.key 1) (Toy.key 2)))
             (perform_handshake_with_options
                (zap_env whitelisting_handler 1 Toy.client_random Toy.server_random) Router None None
                (curve_server_options (Toy.key 2) (ascii_bytes "global"))))
      (finish (Ok (curve_client_outcome Router (Toy.key 1) (Toy.key 2) Toy.client_random Toy.server_random))
              verdict error []).
Proof.
  destruct (curve_zap_handshakes_complete (Err NotFound : io_result Queues) whitelisting_handler 1
    Toy.client_random Toy.client_random Toy.server_random Toy.server_random Dealer Router None None (Some 30000) None
    (curve_client_options (Toy.key 1) (Toy.key 2)) (curve_server_options (Toy.key 2) (ascii_bytes "global"))
    (Toy.key 1) (Toy.key 2)) as (verdict & error & Hc & _).
  - vm_compute. split_and!; congruence || exact I.
  - discriminate.
  - reflexivity.
  - lia.
  - exists verdict, error. exact Hc.
Defined.
