(* ===== verification/Inproc.v ===== *)
(** * The in-process transport

    The endpoint registry of monocoque-core/src/inproc.rs and the byte-stream
    adapter of monocoque-zmtp/src/inproc_stream.rs.

    The channels are flume's unbounded channels: a queue of messages and the
    number of live receivers (a send fails when there is none).  [World] is the
    process-wide state: the channels and the two registries. *)

From S2P Require Import Prelude.
From S2P Require Import Options.
From S2P Require Import Stream.

Abbreviation InprocMessage := (list bytes).

Record Channel := mk_channel {
  ch_queue : list InprocMessage;
  ch_receivers : nat;
}.

Record World := mk_world {
  channels : gmap nat Channel;
  next_channel : nat;
  registry : gmap bytes nat;         (** [INPROC_REGISTRY]: senders *)
  reply_registry : gmap bytes nat;   (** [INPROC_REPLY_REGISTRY]: receivers *)
}.

Definition empty_world : World := mk_world ∅ 0 ∅ ∅.

(** ** Channels *)

(** [flume::unbounded], with one receiver. *)
Definition unbounded (w : World) : nat * World :=
  (next_channel w,
   mk_world (<[next_channel w := mk_channel [] 1]> (channels w)) (S (next_channel w))
            (registry w) (reply_registry w)).

Definition set_channel (w : World) (id : nat) (c : Channel) : World :=
  mk_world (<[id := c]> (channels w)) (next_channel w) (registry w) (reply_registry w).

Definition drop_receiver (w : World) (id : nat) : World :=
  match channels w !! id with
  | Some c => set_channel w id (mk_channel (ch_queue c) (pred (ch_receivers c)))
  | None => w
  end.

Definition clone_receiver (w : World) (id : nat) : World :=
  match channels w !! id with
  | Some c => set_channel w id (mk_channel (ch_queue c) (S (ch_receivers c)))
  | None => w
  end.

(** [Sender::send]; its failure is reported as [BrokenPipe]. *)
Definition chan_send (w : World) (id : nat) (m : InprocMessage) : io_result unit * World :=
  match channels w !! id with
  | Some c =>
      if (0 <? ch_receivers c)%nat
      then (Ok tt, set_channel w id (mk_channel (ch_queue c ++ [m]) (ch_receivers c)))
      else (Err BrokenPipe, w)
  | None => (Err BrokenPipe, w)
  end.

(** [Receiver::recv]; [None] while there is nothing to receive. *)
Definition chan_recv (w : World) (id : nat) : option InprocMessage * World :=
  match channels w !! id with
  | Some (mk_channel (m :: ms) n) => (Some m, set_channel w id (mk_channel ms n))
  | _ => (None, w)
  end.

(** ** Names *)

Definition PREFIX : bytes := ascii_bytes "inproc://".

(** [chars().any(char::is_control)] on UTF-8 bytes: U+0000 to U+001F, U+007F,
    and U+0080 to U+009F, which are encoded as C2 80 to C2 9F. *)
Fixpoint has_control (bs : bytes) : bool :=
  match bs with
  | [] => false
  | b :: tl =>
      in_range 0x00 0x1F b || in_range 0x7F 0x7F b
      || (in_range 0xC2 0xC2 b && match tl with c :: _ => in_range 0x80 0x9F c | [] => false end)
      || has_control tl
  end.

Definition validate_and_extract_name (endpoint : bytes) : io_result bytes :=
  if negb (starts_with endpoint PREFIX) then Err InvalidInput else
  let name := zdrop (len PREFIX) endpoint in
  if bool_decide (name = []) then Err InvalidInput
  else if has_control name then Err InvalidInput
  else Ok name.

(** ** Operations *)

(** [DashMap::insert]: the entry is replaced; the previous value is returned. *)
Definition registry_insert (w : World) (name : bytes) (tx : nat) : option nat * World :=
  (registry w !! name, mk_world (channels w) (next_channel w) (<[name := tx]> (registry w)) (reply_registry w)).

(** The sender and the receiver are ends of one channel. *)
Definition bind_inproc (endpoint : bytes) (w : World) : io_result (nat * nat) * World :=
  match validate_and_extract_name endpoint with
  | Err e => (Err e, w)
  | Ok name =>
      let (id, w) := unbounded w in
      let (old, w) := registry_insert w name id in
      match old with
      | Some _ => (Err AddrInUse, drop_receiver w id)
      | None => (Ok (id, id), w)
      end
  end.

Definition connect_inproc (endpoint : bytes) (w : World) : io_result nat :=
  match validate_and_extract_name endpoint with
  | Err e => Err e
  | Ok name => match registry w !! name with Some tx => Ok tx | None => Err NotFound end
  end.

(** Removing the reply receiver drops it. *)
Definition unbind_inproc (endpoint : bytes) (w : World) : io_result unit * World :=
  match validate_and_extract_name endpoint with
  | Err e => (Err e, w)
  | Ok name =>
      let w := match reply_registry w !! name with Some rx => drop_receiver w rx | None => w end in
      (Ok tt, mk_world (channels w) (next_channel w) (delete name (registry w)) (delete name (reply_registry w)))
  end.

(** The reply sender and the request receiver. *)
Definition bind_inproc_bidi (endpoint : bytes) (w : World) : io_result (nat * nat) * World :=
  match validate_and_extract_name endpoint with
  | Err e => (Err e, w)
  | Ok name =>
      let (client_to_server, w) := unbounded w in
      let (server_to_client, w) := unbounded w in
      let (old, w) := registry_insert w name client_to_server in
      match old with
      | Some _ => (Err AddrInUse, drop_receiver (drop_receiver w client_to_server) server_to_client)
      | None =>
          let w := match reply_registry w !! name with Some rx => drop_receiver w rx | None => w end in
          (Ok (server_to_client, client_to_server),
           mk_world (channels w) (next_channel w) (registry w) (<[name := server_to_client]> (reply_registry w)))
      end
  end.

(** The request sender and a reply receiver. *)
Definition connect_inproc_bidi (endpoint : bytes) (w : World) : io_result (nat * nat) * World :=
  match validate_and_extract_name endpoint with
  | Err e => (Err e, w)
  | Ok name =>
      match registry w !! name with
      | None => (Err NotFound, w)
      | Some to_server =>
          match reply_registry w !! name with
          | None => (Err NotFound, w)
          | Some from_server => (Ok (to_server, from_server), clone_receiver w from_server)
          end
      end
  end.

(** ** The stream adapter *)

(** [rx] is what the channel holds, [rx_open] whether a sender is left, [tx]
    what has been sent and [tx_open] whether the other side receives. *)
Record InprocStream := mk_inproc_stream {
  is_tx : list InprocMessage;
  is_tx_open : bool;
  is_rx : list InprocMessage;
  is_rx_open : bool;
  read_buf : bytes;
  read_pos : Z;
}.

(** The loop over the frames of a received message: the bytes copied into a
    buffer with [room] bytes of space, and those kept for later reads. *)
Fixpoint copy_frames (room : Z) (frames : list bytes) : bytes * bytes :=
  match frames with
  | [] => ([], [])
  | frame :: frames =>
      let to_copy := Z.min (len frame) room in
      if to_copy =? 0 then ([], frame ++ concat frames)
      else if to_copy <? len frame then (ztake to_copy frame, zdrop to_copy frame ++ concat frames)
      else let (copied, kept) := copy_frames (room - to_copy) frames in (frame ++ copied, kept)
  end.

Definition inproc_read (s : InprocStream) (buf_cap : Z) : completion bytes * InprocStream :=
  if read_pos s <? len (read_buf s) then
    let available := zdrop (read_pos s) (read_buf s) in
    let to_copy := Z.min (len available) buf_cap in
    let pos := read_pos s + to_copy in
    let (buf, pos) := if pos =? len (read_buf s) then ([], 0) else (read_buf s, pos) in
    (Completed (Ok (ztake to_copy available)),
     mk_inproc_stream (is_tx s) (is_tx_open s) (is_rx s) (is_rx_open s) buf pos)
  else match is_rx s with
  | m :: ms =>
      let (copied, kept) := copy_frames buf_cap m in
      (Completed (Ok copied),
       mk_inproc_stream (is_tx s) (is_tx_open s) ms (is_rx_open s) (read_buf s ++ kept) (read_pos s))
  | [] => if is_rx_open s then (Stalled, s) else (Completed (Ok []), s)
  end.

Definition inproc_write (s : InprocStream) (buf : bytes) : completion unit * InprocStream :=
  if is_tx_open s
  then (Completed (Ok tt),
        mk_inproc_stream (is_tx s ++ [[buf]]) (is_tx_open s) (is_rx s) (is_rx_open s) (read_buf s) (read_pos s))
  else (Completed (Err BrokenPipe), s).

Definition inproc_stream_new (rx : list InprocMessage) : InprocStream := mk_inproc_stream [] true rx true [] 0.

(** ** Names that are accepted *)

Lemma validate_ok endpoint name :
  validate_and_extract_name endpoint = Ok name <->
  endpoint = PREFIX ++ name /\ name <> [] /\ has_control name = false.
Proof.
  unfold validate_and_extract_name. split.
  - destruct (starts_with endpoint PREFIX) eqn:E; [|done]. cbn [negb]. case_bool_decide as Hn; [done|].
    destruct (has_control _) eqn:Ec; [done|]. intros [= <-]. split_and!; [|done|done].
    by apply starts_with_spec in E as [k ->].
  - intros (-> & Hn & Hc). rewrite starts_with_app. cbn [negb].
    rewrite zdrop_app_ge, Z.sub_diag, zdrop_0 by done. by rewrite bool_decide_eq_false_2, Hc.
Qed.

(** ** The stream is a byte queue *)

Definition stream_inv (s : InprocStream) : Prop :=
  0 <= read_pos s <= len (read_buf s) /\ (read_pos s = len (read_buf s) -> read_buf s = []).

(** The bytes that have been sent and not read. *)
Definition unread (s : InprocStream) : bytes := zdrop (read_pos s) (read_buf s) ++ concat (concat (is_rx s)).

Lemma copy_frames_spec room frames :
  0 <= room ->
  concat frames = (copy_frames room frames).1 ++ (copy_frames room frames).2 /\
  len (copy_frames room frames).1 <= room.
Proof.
  revert room. induction frames as [|f frames IH]; intros room Hr; [by cbn|]. cbn [copy_frames concat].
  pose proof (len_nonneg f) as Hf. destruct (Z.min (len f) room =? 0) eqn:E0; [by cbn|]. bool_prop.
  destruct (Z.min (len f) room <? len f) eqn:E1; bool_prop; cbn [fst snd].
  - rewrite app_assoc, ztake_zdrop. split; [done|]. rewrite len_ztake; lia.
  - destruct (IH (room - Z.min (len f) room)) as [Hc Hl]; [lia|].
    destruct (copy_frames _ frames) as [copied kept]. cbn [fst snd] in *. rewrite Hc, app_assoc.
    split; [done|]. rewrite len_app. lia.
Qed.

(** A read returns the next unread bytes, as many as fit at most. *)
Lemma inproc_read_spec s cap :
  stream_inv s -> 0 < cap ->
  match inproc_read s cap with
  | (Completed (Ok r), s') =>
      unread s = r ++ unread s' /\ len r <= cap /\ stream_inv s' /\ is_tx s' = is_tx s /\
      (r = [] -> Forall (Forall (λ f, f <> [])) (is_rx s) -> Forall (λ m, m <> []) (is_rx s) -> unread s = [])
  | (Completed (Err _), _) => False
  | (Stalled, s') => s' = s /\ unread s = []
  end.
Proof.
  intros [Hpos Hempty] Hcap. unfold inproc_read. destruct (read_pos s <? len (read_buf s)) eqn:E; bool_prop.
  - set (av := zdrop (read_pos s) (read_buf s)).
    assert (Hav : len av = len (read_buf s) - read_pos s) by (unfold av; rewrite len_zdrop; lia).
    assert (Hne : ztake (Z.min (len av) cap) av <> []).
    { intros Hn%(f_equal len). rewrite len_ztake in Hn by lia. change (len []) with 0 in Hn. lia. }
    destruct (read_pos s + Z.min (len av) cap =? len (read_buf s)) eqn:Ep; bool_prop; unfold unread;
      cbn [read_buf read_pos is_rx is_tx].
    + fold av. rewrite app_assoc. replace (zdrop 0 []) with (@nil byte) by done. rewrite app_nil_r, ztake_ge by lia.
      split_and!; [done|lia|split; [done|done]|done|]. intros Hn. rewrite ztake_ge in Hne by lia. done.
    + fold av. split_and!; [|rewrite len_ztake; lia| |done|done].
      * rewrite app_assoc. f_equal. unfold av at 2. rewrite <- zdrop_zdrop by lia. fold av. by rewrite ztake_zdrop.
      * split; cbn [read_pos read_buf]; [lia|intros; lia].
  - assert (Hb : read_buf s = []) by (apply Hempty; lia).
    assert (Hp : read_pos s = 0) by (rewrite Hb in *; change (len []) with 0 in *; lia).
    destruct (is_rx s) as [|m ms] eqn:Erx.
    + destruct (is_rx_open s).
      * split; [done|]. unfold unread. by rewrite Erx, Hb, Hp.
      * split_and!; [done|change (len []) with 0; lia|done|done|]. intros. unfold unread. by rewrite Erx, Hb, Hp.
    + destruct (copy_frames_spec cap m) as [Hc Hl]; [lia|]. destruct (copy_frames cap m) as [copied kept] eqn:Ek.
      cbn [fst snd] in *. unfold unread. cbn [read_buf read_pos is_rx is_tx]. rewrite Hb, Hp, Erx.
      cbn [concat]. rewrite concat_app, Hc, !zdrop_0. cbn [app].
      split_and!; [by rewrite <- app_assoc|done|split; cbn [read_pos read_buf app]|done|].
      * pose proof (len_nonneg kept). lia.
      * intros Hk. by apply len_zero_nil.
      * intros -> Hf Hm. exfalso. apply list.Forall_cons in Hf as [Hf _]. apply list.Forall_cons in Hm as [Hm _].
        destruct m as [|f m]; [done|]. apply list.Forall_cons in Hf as [Hf _]. cbn [copy_frames] in Ek.
        assert (0 < len f) by (destruct f; [done|]; len_lia).
        destruct (Z.min (len f) cap =? 0) eqn:E0; bool_prop; [lia|].
        destruct (Z.min (len f) cap <? len f) eqn:E1; bool_prop.
        -- injection Ek as Hz _. apply (f_equal len) in Hz. rewrite len_ztake in Hz by lia. change (len []) with 0 in Hz. lia.
        -- destruct (copy_frames _ m). injection Ek as Hz _. destruct f; [done|]. done.
Qed.

(** ** Writers and a reader, interleaved *)

Inductive pipe_op :=
| PipeWrite (buf : bytes)
| PipeRead (cap : Z).

(** What the reader has got so far, and the reader's stream: a write puts its
    buffer in the channel. *)
Definition pipe_step (st : bytes * InprocStream) (op : pipe_op) : bytes * InprocStream :=
  let (got, s) := st in
  match op with
  | PipeWrite buf =>
      let w := (inproc_write (inproc_stream_new []) buf).2 in
      (got, mk_inproc_stream (is_tx s) (is_tx_open s) (is_rx s ++ is_tx w) (is_rx_open s) (read_buf s) (read_pos s))
  | PipeRead cap =>
      match inproc_read s cap with
      | (Completed (Ok r), s) => (got ++ r, s)
      | (_, s) => (got, s)
      end
  end.

Definition pipe_run (ops : list pipe_op) : bytes * InprocStream :=
  foldl pipe_step ([], inproc_stream_new []) ops.

Definition written (ops : list pipe_op) : bytes :=
  concat (omap (λ op, match op with PipeWrite b => Some b | PipeRead _ => None end) ops).

Definition op_ok (op : pipe_op) : Prop :=
  match op with PipeWrite b => b <> [] | PipeRead cap => 0 < cap end.

Lemma inproc_read_rx s cap r s' :
  inproc_read s cap = (r, s') -> is_rx s' = is_rx s \/ exists m, is_rx s = m :: is_rx s'.
Proof.
  unfold inproc_read. destruct (read_pos s <? len (read_buf s)).
  - destruct (_ =? _); intros [= <- <-]; by left.
  - destruct (is_rx s) as [|m ms] eqn:E.
    + destruct (is_rx_open s); intros [= <- <-]; rewrite E; by left.
    + destruct (copy_frames cap m). intros [= <- <-]. right. by exists m.
Qed.

Lemma pipe_inv ops :
  Forall op_ok ops ->
  let (got, s) := pipe_run ops in
  written ops = got ++ unread s /\ stream_inv s /\
  Forall (Forall (λ f, f <> [])) (is_rx s) /\ Forall (λ m, m <> []) (is_rx s).
Proof.
  induction ops as [|op ops IH] using rev_ind; intros Hok.
  { cbn. split_and!; try done. }
  apply Forall_app in Hok as [Hops Hop]. apply list.Forall_cons in Hop as [Hop _].
  unfold pipe_run. rewrite foldl_snoc. fold (pipe_run ops). specialize (IH Hops).
  destruct (pipe_run ops) as [got s]. destruct IH as (Hw & Hinv & Hf & Hm).
  unfold written in *. rewrite omap_app, concat_app. destruct op as [buf|cap]; cbn [pipe_step op_ok] in *.
  - cbn. rewrite app_nil_r. split_and!.
    + unfold unread. cbn [read_buf read_pos is_rx]. rewrite !concat_app. cbn. rewrite app_nil_r, Hw.
      unfold unread. by rewrite <- !app_assoc.
    + done.
    + apply Forall_app. split; [done|]. by repeat constructor.
    + apply Forall_app. split; [done|]. by repeat constructor.
  - pose proof (inproc_read_spec s cap Hinv Hop) as Hr.
    destruct (inproc_read s cap) as [[[r|e]|] s'] eqn:Er.
    + destruct Hr as (Hu & _ & Hinv' & _). cbn. rewrite app_nil_r, Hw, Hu, app_assoc. split_and!; [done|done| |].
      * destruct (inproc_read_rx _ _ _ _ Er) as [->|[m Hrx]]; [done|].
        rewrite Hrx in Hf. by apply list.Forall_cons in Hf as [_ ?].
      * destruct (inproc_read_rx _ _ _ _ Er) as [->|[m Hrx]]; [done|].
        rewrite Hrx in Hm. by apply list.Forall_cons in Hm as [_ ?].
    + done.
    + destruct Hr as [-> _]. cbn. by rewrite app_nil_r.
Qed.

(** The in-process stream is a reliable byte stream.  Whatever the sizes and
    the interleaving of the writes (none of them empty) and of the reads, the
    bytes read so far followed by the unread ones are exactly the bytes written,
    in order; and a read reports the end of the stream (no bytes) only when
    nothing is left to read. *)
Theorem inproc_stream_fifo (ops : list pipe_op) :
  Forall op_ok ops ->
  let (got, s) := pipe_run ops in
  written ops = got ++ unread s /\
  (forall cap, 0 < cap -> unread s <> [] ->
     exists r s', inproc_read s cap = (Completed (Ok r), s') /\ r <> [] /\ len r <= cap /\
       unread s = r ++ unread s').
Proof.
  intros Hok. pose proof (pipe_inv ops Hok) as Hp. destruct (pipe_run ops) as [got s].
  destruct Hp as (Hw & Hinv & Hf & Hm). split; [done|]. intros cap Hcap Hne.
  pose proof (inproc_read_spec s cap Hinv Hcap) as Hr.
  destruct (inproc_read s cap) as [[[r|e]|] s'] eqn:Er; [|done|by destruct Hr as [_ ?]].
  destruct Hr as (Hu & Hl & _ & _ & He). exists r, s'. split_and!; try done.
  intros Hn. apply Hne. by apply He.
Qed.

Definition pipe_example : list pipe_op :=
  [PipeWrite (ascii_bytes "hello"); PipeRead 2; PipeWrite (ascii_bytes "next"); PipeRead 3; PipeRead 9].

Lemma inproc_stream_fifo_witness :
  (pipe_run pipe_example).1 = ascii_bytes "hellonext" /\ written pipe_example = (pipe_run pipe_example).1 ++ unread (pipe_run pipe_example).2.
Proof.
  split; [vm_compute; reflexivity|].
  assert (Hok : Forall op_ok pipe_example) by (repeat constructor; discriminate).
  pose proof (inproc_stream_fifo pipe_example Hok) as Hf.
  destruct (pipe_run pipe_example) as [got s]. exact (proj1 Hf).
Defined.

(** ** Endpoints *)

Fixpoint send_all (w : World) (id : nat) (ms : list InprocMessage) : option World :=
  match ms with
  | [] => Some w
  | m :: ms => match chan_send w id m with (Ok _, w) => send_all w id ms | (Err _, _) => None end
  end.

Fixpoint recv_n (w : World) (id n : nat) : option (list InprocMessage * World) :=
  match n with
  | O => Some ([], w)
  | S n => match chan_recv w id with
           | (Some m, w) => '(ms, w) ← recv_n w id n; Some (m :: ms, w)
           | (None, _) => None
           end
  end.

Lemma send_all_spec w id ms q n :
  channels w !! id = Some (mk_channel q (S n)) ->
  exists w', send_all w id ms = Some w' /\ channels w' !! id = Some (mk_channel (q ++ ms) (S n)) /\
    registry w' = registry w.
Proof.
  revert w q. induction ms as [|m ms IH]; intros w q Hc; cbn.
  - exists w. by rewrite app_nil_r.
  - unfold chan_send. rewrite Hc. cbn.
    destruct (IH (set_channel w id (mk_channel (q ++ [m]) (S n))) (q ++ [m])) as (w' & -> & Hc' & Hreg).
    { cbn. by rewrite lookup_insert_eq. }
    exists w'. by rewrite Hc', Hreg, <- app_assoc.
Qed.

Lemma recv_n_spec w id q n :
  channels w !! id = Some (mk_channel q n) -> exists w', recv_n w id (length q) = Some (q, w').
Proof.
  revert w. induction q as [|m q IH]; intros w Hc; cbn; [by eexists|].
  unfold chan_recv. rewrite Hc. destruct (IH (set_channel w id (mk_channel q n))) as [w' ->].
  { cbn. by rewrite lookup_insert_eq. }
  cbn. by eexists.
Qed.

Lemma bind_spec endpoint w tx rx w1 :
  bind_inproc endpoint w = (Ok (tx, rx), w1) ->
  exists name, validate_and_extract_name endpoint = Ok name /\ registry w !! name = None /\
    tx = next_channel w /\ rx = next_channel w /\ next_channel w1 = S (next_channel w) /\
    channels w1 !! rx = Some (mk_channel [] 1) /\ registry w1 !! name = Some tx.
Proof.
  unfold bind_inproc. destruct (validate_and_extract_name endpoint) as [name|]; [|done]. cbn.
  destruct (registry w !! name) eqn:E; [done|]. intros [= <- <- <-]. exists name. cbn.
  by rewrite !lookup_insert_eq.
Qed.

(** An endpoint delivers.  After a successful bind, a peer that connects to
    the same name reaches the binder: any messages it sends are received by the
    binder, whole and in order. *)
Theorem inproc_endpoint_delivers (endpoint : bytes) (w w1 : World) (tx rx : nat) (msgs : list InprocMessage) :
  bind_inproc endpoint w = (Ok (tx, rx), w1) ->
  exists sender w2 w3,
    connect_inproc endpoint w1 = Ok sender /\ send_all w1 sender msgs = Some w2 /\
    recv_n w2 rx (length msgs) = Some (msgs, w3).
Proof.
  intros (name & Hv & _ & -> & -> & _ & Hc & Hreg)%bind_spec.
  destruct (send_all_spec w1 (next_channel w) msgs [] 0 Hc) as (w2 & Hs & Hc2 & _).
  destruct (recv_n_spec w2 (next_channel w) msgs 1 Hc2) as [w3 Hr].
  exists (next_channel w), w2, w3. unfold connect_inproc. by rewrite Hv, Hreg.
Qed.

Lemma inproc_endpoint_delivers_witness :
  exists sender w2 w3,
    connect_inproc (ascii_bytes "inproc://a") (bind_inproc (ascii_bytes "inproc://a") empty_world).2 = Ok sender /\
    send_all (bind_inproc (ascii_bytes "inproc://a") empty_world).2 sender [[ascii_bytes "x"]; []] = Some w2 /\
    recv_n w2 0 2 = Some ([[ascii_bytes "x"]; []], w3).
Proof.
  apply (inproc_endpoint_delivers (ascii_bytes "inproc://a") empty_world
    (bind_inproc (ascii_bytes "inproc://a") empty_world).2 0 0 [[ascii_bytes "x"]; []]).
  vm_compute. reflexivity.
Defined.

(** A second bind of a bound name is refused, but it has replaced the
    registered sender by one whose receiver is dropped: from then on whoever
    connects to the name gets a sender on which every send fails, although the
    first binder still receives on the channel nobody can reach any more. *)
Theorem rebind_breaks_endpoint (endpoint : bytes) (w w1 : World) (tx rx : nat) :
  bind_inproc endpoint w = (Ok (tx, rx), w1) ->
  exists w2 sender,
    bind_inproc endpoint w1 = (Err AddrInUse, w2) /\
    connect_inproc endpoint w2 = Ok sender /\ sender <> tx /\
    (forall m, (chan_send w2 sender m).1 = Err BrokenPipe) /\
    channels w2 !! rx = channels w1 !! rx.
Proof.
  intros (name & Hv & _ & -> & -> & Hn & Hc & Hreg)%bind_spec.
  unfold bind_inproc, connect_inproc. rewrite Hv. cbn. rewrite Hreg.
  unfold drop_receiver, chan_send. cbn. rewrite lookup_insert_eq. cbn.
  eexists _, (next_channel w1). split; [done|]. cbn. rewrite !lookup_insert_eq. cbn. split_and!; [done|lia|done|].
  by rewrite !lookup_insert_ne by lia.
Qed.

Lemma rebind_breaks_endpoint_witness :
  exists w2 sender,
    bind_inproc (ascii_bytes "inproc://a") (bind_inproc (ascii_bytes "inproc://a") empty_world).2 = (Err AddrInUse, w2) /\
    connect_inproc (ascii_bytes "inproc://a") w2 = Ok sender /\
    (forall m, (chan_send w2 sender m).1 = Err BrokenPipe).
Proof.
  destruct (rebind_breaks_endpoint (ascii_bytes "inproc://a") empty_world
    (bind_inproc (ascii_bytes "inproc://a") empty_world).2 0 0) as (w2 & sender & Hb & Hc & _ & Hs & _).
  - vm_compute. reflexivity.
  - exists w2, sender. split; [exact Hb|]. split; [exact Hc|exact Hs].
Defined.
