(* ===== verification/Base.v ===== *)
(** * The socket base

    [SocketBase] of monocoque-zmtp/src/base.rs: the connection state and the
    low-level I/O every socket type is built on.  Not kept: [read_buf] and [iov],
    scratch memory that no operation reads before overwriting it. *)

From S2P Require Import Prelude.
From S2P Require Import SegBuffer.
From S2P Require Import Codec.
From S2P Require Import Options.
From S2P Require Import Address.
From S2P Require Import Reconnect.
From S2P Require Import Ready.
From S2P Require Import CurveMessage.
From S2P Require Import Stream.

(** ** Heartbeat frames *)

Definition PING_CMD : bytes := [u8 4] ++ ascii_bytes "PING".
Definition PONG_CMD : bytes := [u8 4] ++ ascii_bytes "PONG".

Definition build_ping_frame (ttl_tenths : Z) : bytes := encode_frame FLAG_COMMAND (PING_CMD ++ be_bytes 2 ttl_tenths).

Definition build_pong_frame : bytes := encode_frame FLAG_COMMAND PONG_CMD.

Definition is_ping_payload (payload : bytes) : bool :=
  starts_with payload PING_CMD && (Z.max 0 (len payload - len PING_CMD) <=? 18).

Definition is_pong_payload (payload : bytes) : bool :=
  starts_with payload PONG_CMD && (Z.max 0 (len payload - len PONG_CMD) <=? 16).

Definition append_zmtp_cmd_frame (buf body : bytes) : bytes :=
  let n := len body in
  if n <=? 255 then buf ++ [u8 0x04; u8 n] ++ body
  else buf ++ [u8 0x06] ++ be_bytes 8 n ++ body.

Inductive FrameResult :=
| FData (more : bool) (payload : bytes)
| CommandHandled
| FNeedMore.

Section base.
Context {S K : Type} `{AsyncStream S} `{Aead K}.

Record SocketBase := mk_base {
  stream : option S;
  endpoint : option Endpoint;
  reconnect : option ReconnectState;
  decoder : ZmtpDecoder;
  recv_buf : SegmentedBuffer;
  write_buf : bytes;
  send_buffer : bytes;
  options : SocketOptions;
  last_endpoint : option bytes;
  is_poisoned : bool;
  buffered_messages : Z;
  last_recv_instant : option Z;
  ping_sent_at : option Z;
  awaiting_pong : bool;
  curve_cipher : option (CurveMessageCipher K);
}.

(** Assignments to fields. *)
Definition set_stream (b : SocketBase) (s : option S) : SocketBase :=
  mk_base (s) (endpoint b) (reconnect b) (decoder b) (recv_buf b) (write_buf b) (send_buffer b) (options b) (last_endpoint b) (is_poisoned b) (buffered_messages b) (last_recv_instant b) (ping_sent_at b) (awaiting_pong b) (curve_cipher b).

Definition set_poisoned (b : SocketBase) (p : bool) : SocketBase :=
  mk_base (stream b) (endpoint b) (reconnect b) (decoder b) (recv_buf b) (write_buf b) (send_buffer b) (options b) (last_endpoint b) (p) (buffered_messages b) (last_recv_instant b) (ping_sent_at b) (awaiting_pong b) (curve_cipher b).

Definition set_send_buffer (b : SocketBase) (buf : bytes) : SocketBase :=
  mk_base (stream b) (endpoint b) (reconnect b) (decoder b) (recv_buf b) (write_buf b) (buf) (options b) (last_endpoint b) (is_poisoned b) (buffered_messages b) (last_recv_instant b) (ping_sent_at b) (awaiting_pong b) (curve_cipher b).

Definition set_write_buf (b : SocketBase) (buf : bytes) : SocketBase :=
  mk_base (stream b) (endpoint b) (reconnect b) (decoder b) (recv_buf b) (buf) (send_buffer b) (options b) (last_endpoint b) (is_poisoned b) (buffered_messages b) (last_recv_instant b) (ping_sent_at b) (awaiting_pong b) (curve_cipher b).

Definition set_buffered (b : SocketBase) (n : Z) : SocketBase :=
  mk_base (stream b) (endpoint b) (reconnect b) (decoder b) (recv_buf b) (write_buf b) (send_buffer b) (options b) (last_endpoint b) (is_poisoned b) (n) (last_recv_instant b) (ping_sent_at b) (awaiting_pong b) (curve_cipher b).

Definition set_decoder (b : SocketBase) (d : ZmtpDecoder) (r : SegmentedBuffer) : SocketBase :=
  mk_base (stream b) (endpoint b) (reconnect b) (d) (r) (write_buf b) (send_buffer b) (options b) (last_endpoint b) (is_poisoned b) (buffered_messages b) (last_recv_instant b) (ping_sent_at b) (awaiting_pong b) (curve_cipher b).

Definition set_last_recv (b : SocketBase) (i : option Z) : SocketBase :=
  mk_base (stream b) (endpoint b) (reconnect b) (decoder b) (recv_buf b) (write_buf b) (send_buffer b) (options b) (last_endpoint b) (is_poisoned b) (buffered_messages b) (i) (ping_sent_at b) (awaiting_pong b) (curve_cipher b).

Definition set_ping (b : SocketBase) (at_ : option Z) (w : bool) : SocketBase :=
  mk_base (stream b) (endpoint b) (reconnect b) (decoder b) (recv_buf b) (write_buf b) (send_buffer b) (options b) (last_endpoint b) (is_poisoned b) (buffered_messages b) (last_recv_instant b) (at_) (w) (curve_cipher b).

Definition set_cipher (b : SocketBase) (c : option (CurveMessageCipher K)) : SocketBase :=
  mk_base (stream b) (endpoint b) (reconnect b) (decoder b) (recv_buf b) (write_buf b) (send_buffer b) (options b) (last_endpoint b) (is_poisoned b) (buffered_messages b) (last_recv_instant b) (ping_sent_at b) (awaiting_pong b) (c).

Definition set_reconnect (b : SocketBase) (r : option ReconnectState) : SocketBase :=
  mk_base (stream b) (endpoint b) (r) (decoder b) (recv_buf b) (write_buf b) (send_buffer b) (options b) (last_endpoint b) (is_poisoned b) (buffered_messages b) (last_recv_instant b) (ping_sent_at b) (awaiting_pong b) (curve_cipher b).

(** ** Constructors and queries *)

(** The decoder for the configured [max_msg_size]. *)
Definition base_decoder (o : SocketOptions) : ZmtpDecoder :=
  match max_msg_size o with
  | Some max => decoder_with_max_frame_size max
  | None => decoder_new
  end.

Definition base_new (s : S) (o : SocketOptions) : SocketBase :=
  mk_base (Some s) None None (base_decoder o) segbuf_new [] [] o None false 0 None None false None.

Definition with_endpoint (s : S) (e : Endpoint) (o : SocketOptions) : SocketBase :=
  mk_base (Some s) (Some e) (Some (reconnect_new o)) (base_decoder o) segbuf_new [] [] o
    (Some (endpoint_display e)) false 0 None None false None.

Definition is_connected (b : SocketBase) : bool := bool_decide (is_Some (stream b)).

Definition set_options (b : SocketBase) (o : SocketOptions) : SocketBase :=
  mk_base (stream b) (endpoint b) (reconnect b) (set_max_body_len (decoder b) (max_msg_size o)) (recv_buf b)
    (write_buf b) (send_buffer b) o (last_endpoint b) (is_poisoned b) (buffered_messages b)
    (last_recv_instant b) (ping_sent_at b) (awaiting_pong b) (curve_cipher b).

Definition hwm_reached (b : SocketBase) : bool :=
  negb (send_hwm (options b) =? 0) && (send_hwm (options b) <=? buffered_messages b).

Definition events (b : SocketBase) : Z :=
  let e := if is_connected b && negb (is_poisoned b) then Z.lor 0 1 else 0 in
  if is_connected b && negb (hwm_reached b) && negb (is_poisoned b) then Z.lor e 2 else e.

(** ** Heartbeat; [now] is [Instant::now()], in nanoseconds *)

Definition note_recv (b : SocketBase) (now : Z) : SocketBase :=
  match heartbeat_ivl (options b) with
  | Some _ => set_last_recv b (Some now)
  | None => b
  end.

Definition note_pong_received (b : SocketBase) : SocketBase :=
  if awaiting_pong b then set_ping b None false else b.

(** [Instant::duration_since] saturates. *)
Definition duration_since (now earlier : Z) : Z := Z.max 0 (now - earlier).

(** The frame [check_heartbeat] writes, when it decides to. *)
Definition ping_of (o : SocketOptions) (ivl : Z) : bytes :=
  let ttl_dur := default ivl (heartbeat_ttl o) in
  build_ping_frame (Z.min (ttl_dur / 1000000 / 100) 65535).

(** An [Instant] holds signed 64-bit seconds. *)
Definition instant_min : Z := - (2 ^ 63) * 1000000000.

Definition instant_checked_sub (now d : Z) : option Z := if instant_min <=? now - d then Some (now - d) else None.

(** The start of the idle period; [None] is the overflow of [ivl + ivl]. *)
Definition idle_since (b : SocketBase) (now ivl : Z) : option Z :=
  match last_recv_instant b with
  | Some i => Some i
  | None => if duration_max <? ivl + ivl then None else Some (default now (instant_checked_sub now (ivl + ivl)))
  end.

Definition check_heartbeat (b : SocketBase) (now : Z) : option (io_result bool * SocketBase) :=
  match heartbeat_ivl (options b) with
  | None => Some (Ok false, b)
  | Some ivl =>
      if awaiting_pong b then
        match ping_sent_at b with
        | Some ping_at =>
            let timeout := default ivl (heartbeat_timeout (options b)) in
            if timeout <? duration_since now ping_at
            then Some (Err TimedOut, set_ping (set_stream b None) None false)
            else Some (Ok false, b)
        | None => Some (Ok false, b)
        end
      else
        idle ← idle_since b now ivl;
        if ivl <=? duration_since now idle then
          Some (Ok true, set_ping (set_send_buffer b (send_buffer b ++ ping_of (options b) ivl)) (Some now) true)
        else Some (Ok false, b)
  end.

(** ** Reading *)

Definition read_raw (b : SocketBase) (now : Z) : outcome Z * SocketBase :=
  match stream b with
  | None => (Returned (Err NotConnected), b)
  | Some s =>
      if is_zero_timeout (recv_timeout (options b)) then (Returned (Err WouldBlock), b)
      else
        let '(c, s) := stream_read s (effective_read_buffer_size (options b)) in
        let b := set_stream b (Some s) in
        match with_timer (recv_timeout (options b)) c with
        | Returned (Ok []) => (Returned (Ok 0), set_stream b None)
        | Returned (Ok bs) =>
            (Returned (Ok (len bs)), note_recv (set_decoder b (decoder b) (push (recv_buf b) bs)) now)
        | Returned (Err e) => (Returned (Err e), b)
        | Pending => (Pending, b)
        | Panicked => (Panicked, b)
        end
  end.

(** [ZmtpError] into [io::Error]. *)
Definition zmtp_io {A} (r : result ZmtpError A) : io_result A :=
  match r with Ok a => Ok a | Err _ => Err InvalidData end.

(** The PING and PONG part of [process_frame]. *)
Definition handle_ping_pong (b : SocketBase) (frame : ZmtpFrame) : SocketBase :=
  let b := if is_ping_payload (payload frame)
           then set_send_buffer b (send_buffer b ++ build_pong_frame) else b in
  if is_pong_payload (payload frame) then note_pong_received b else b.

(** [None] is a panic of the decoder. *)
Definition process_frame (b : SocketBase) : option (io_result FrameResult * SocketBase) :=
  '(r, d, src) ← decode (decoder b) (recv_buf b);
  let b := set_decoder b d src in
  match zmtp_io r with
  | Err e => Some (Err e, b)
  | Ok None => Some (Ok FNeedMore, b)
  | Ok (Some frame) =>
      if is_command frame then
        match curve_cipher b with
        | Some c =>
            if is_curve_message (payload frame) then
              let '(res, c) := decrypt_frame c (payload frame) in
              let b := set_cipher b (Some c) in
              match res with
              | Ok (m, p) => Some (Ok (FData m p), b)
              | Err _ => Some (Err InvalidData, b)
              end
            else Some (Ok CommandHandled, handle_ping_pong b frame)
        | None => Some (Ok CommandHandled, handle_ping_pong b frame)
        end
      else if bool_decide (is_Some (curve_cipher b)) then Some (Err InvalidData, b)
      else Some (Ok (FData (more frame) (payload frame)), b)
  end.

(** ** Writing *)

(** A guarded write: what it returned, or that it is suspended in the write. *)
Inductive write_phase :=
| WDone (r : io_result unit) (b : SocketBase)
| WStalled (b : SocketBase).

(** [PoisonGuard::new] sets the flag; [disarm] clears it; a guard dropped
    without [disarm] leaves it set. *)
Definition guard_new (b : SocketBase) : SocketBase := set_poisoned b true.

Definition guard_disarm (b : SocketBase) : SocketBase := set_poisoned b false.

(** A write under the guard, shared by the write paths: a write that is
    cut off leaves the guard armed, a failed one drops the stream as well. *)
Definition guarded_write (b : SocketBase) (w : completion unit * S) : write_phase :=
  let b := guard_new b in
  let '(c, s) := w in
  match c with
  | Stalled => WStalled (set_stream b (Some s))
  | Completed (Ok _) => WDone (Ok tt) (guard_disarm (set_stream b (Some s)))
  | Completed (Err e) => WDone (Err e) (set_stream b None)
  end.

Definition finish_write (b0 : SocketBase) (p : write_phase) : outcome unit * SocketBase :=
  match p with
  | WDone r b => (Returned r, b)
  | WStalled b => (with_timer (send_timeout (options b0)) Stalled, b)
  end.

(** [flush_send_buffer] up to the end of its write. *)
Definition flush_phase (b : SocketBase) : write_phase :=
  match send_buffer b with
  | [] => WDone (Ok tt) b
  | buf =>
      if is_poisoned b then WDone (Err BrokenPipe) b
      else match stream b with
      | None => WDone (Err NotConnected) b
      | Some s =>
          if is_zero_timeout (send_timeout (options b)) then WDone (Err WouldBlock) b
          else
            match guarded_write (set_send_buffer b []) (stream_write_all s buf) with
            | WDone (Ok _) b => WDone (Ok tt) (set_buffered b 0)
            | p => p
            end
      end
  end.

Definition flush_send_buffer (b : SocketBase) : outcome unit * SocketBase := finish_write b (flush_phase b).

Definition write_from_buf (b : SocketBase) : outcome unit * SocketBase :=
  if is_poisoned b then (Returned (Err BrokenPipe), b)
  else match stream b with
  | None => (Returned (Err NotConnected), b)
  | Some s =>
      if is_zero_timeout (send_timeout (options b)) then (Returned (Err WouldBlock), b)
      else finish_write b (guarded_write (set_write_buf b []) (stream_write_all s (write_buf b)))
  end.

Definition should_vectored_write (b : SocketBase) (msg : list bytes) : bool :=
  if bool_decide (is_Some (curve_cipher b)) then false
  else existsb (λ frame, vectored_write_threshold (options b) <=? len frame) msg.

(** The frame headers, contiguous, and the iovec list cut out of them. *)
Fixpoint vectored_headers (msg : list bytes) (i last : Z) (buf : bytes) : bytes :=
  match msg with
  | [] => buf
  | frame :: msg => vectored_headers msg (i + 1) last (write_frame_header buf (len frame) (i <? last)).1
  end.

Fixpoint vectored_iovecs (msg : list bytes) (headers : bytes) : option (list bytes) :=
  match msg with
  | [] => Some []
  | frame :: msg =>
      let hlen := if 256 <=? len frame then 9 else 2 in
      if len headers <? hlen then None
      else rest ← vectored_iovecs msg (zdrop hlen headers); Some (ztake hlen headers :: frame :: rest)
  end.

Definition send_vectored (b : SocketBase) (msg : list bytes) : outcome unit * SocketBase :=
  if bool_decide (msg = []) then (Returned (Ok tt), b)
  else
    await! _u, b := (if bool_decide (send_buffer b = []) then (Returned (Ok tt), b) else flush_send_buffer b) in
    if is_poisoned b then (Returned (Err BrokenPipe), b)
    else if is_zero_timeout (send_timeout (options b)) then (Returned (Err WouldBlock), b)
    else
      let headers := vectored_headers msg 0 (len msg - 1) [] in
      let b := set_write_buf b [] in
      match vectored_iovecs msg headers with
      | None => (Panicked, b)
      | Some iovecs =>
          match stream b with
          | None => (Returned (Err NotConnected), b)
          | Some s => finish_write b (guarded_write b (stream_write_vectored_all s iovecs))
          end
      end.

(** [stream.shutdown()], then the connection is dropped. *)
Definition shutdown_and_drop (b : SocketBase) : outcome unit * SocketBase :=
  match stream b with
  | None => (Returned (Ok tt), b)
  | Some s =>
      let '(c, s) := stream_shutdown s in
      let b := set_stream b (Some s) in
      match c with
      | Stalled => (Pending, b)
      | Completed (Err e) => (Returned (Err e), b)
      | Completed (Ok _) => (Returned (Ok tt), set_stream b None)
      end
  end.

(** The drain of [close]; [true] goes on to the shutdown.  A flush that stalls
    is ended by the shorter of the send timeout and the linger window. *)
Definition close (b : SocketBase) : outcome unit * SocketBase :=
  let drain :=
    if negb (bool_decide (send_buffer b = [])) && is_connected b then
      match linger (options b) with
      | Some dur =>
          if dur =? 0 then (Returned (Ok tt), set_buffered (set_send_buffer b []) 0)
          else match flush_phase b with
          | WDone r b => (Returned r, b)
          | WStalled b' =>
              match send_timeout (options b) with
              | Some t => if t <=? dur then (Returned (Err TimedOut), b') else (Returned (Ok tt), b')
              | None => (Returned (Ok tt), b')
              end
          end
      | None => flush_send_buffer b
      end
    else (Returned (Ok tt), b) in
  await! _u, b := drain in shutdown_and_drop b.

(** ** Encoding *)

(** The encryption loop shared by the encoders: it appends to the buffer and
    leaves it with the frames encrypted so far when it fails. *)
Fixpoint curve_encode (c : CurveMessageCipher K) (msg : list bytes) (i last : Z) (buf : bytes)
    : io_result unit * CurveMessageCipher K * bytes :=
  match msg with
  | [] => (Ok tt, c, buf)
  | frame :: msg =>
      match encrypt_frame c frame (i <? last) with
      | (Ok body, c) => curve_encode c msg (i + 1) last (append_zmtp_cmd_frame buf body)
      | (Err _, c) => (Err InvalidData, c, buf)
      end
  end.

(** Append a message to a buffer, encrypted if CURVE is active. *)
Definition encode_into (b : SocketBase) (msg : list bytes) (buf : bytes)
    : io_result unit * option (CurveMessageCipher K) * bytes :=
  match curve_cipher b with
  | Some c =>
      let '(r, c, buf) := curve_encode c msg 0 (Z.max 0 (len msg - 1)) buf in
      (r, Some c, buf)
  | None => (Ok tt, None, encode_multipart msg buf)
  end.

Definition encode_message_to_write_buf (b : SocketBase) (msg : list bytes) : io_result unit * SocketBase :=
  let '(r, c, buf) := encode_into b msg [] in
  (r, set_cipher (set_write_buf b buf) c).

Definition encode_message_to_send_buf (b : SocketBase) (msg : list bytes) : io_result unit * SocketBase :=
  let '(r, c, buf) := encode_into b msg (send_buffer b) in
  let b := set_cipher (set_send_buffer b buf) c in
  match r with
  | Ok _ => (Ok tt, set_buffered b (buffered_messages b + 1))
  | Err e => (Err e, b)
  end.

Definition send_coalesced (b : SocketBase) (msg : list bytes) : outcome unit * SocketBase :=
  let '(r, c, buf) := encode_into b msg (send_buffer b) in
  let b := set_cipher (set_send_buffer b buf) c in
  match r with
  | Err e => (Returned (Err e), b)
  | Ok _ =>
      if write_coalesce_threshold (options b) <=? len (send_buffer b) then flush_send_buffer b
      else (Returned (Ok tt), b)
  end.

Definition encode_one_coalesced (b : SocketBase) (frame : bytes) : io_result bool * SocketBase :=
  match curve_cipher b with
  | None =>
      let b := set_send_buffer b (encode_single frame (send_buffer b)) in
      (Ok (write_coalesce_threshold (options b) <=? len (send_buffer b)), b)
  | Some c =>
      match encrypt_frame c frame false with
      | (Ok body, c) =>
          let b := set_cipher (set_send_buffer b (append_zmtp_cmd_frame (send_buffer b) body)) (Some c) in
          (Ok (write_coalesce_threshold (options b) <=? len (send_buffer b)), b)
      | (Err _, c) => (Err InvalidData, set_cipher b (Some c))
      end
  end.

(** ** Reconnection *)

(** Connecting is the operating system's: the TCP connect, the socket tuning,
    and the handshake that runs on the new stream, which yields the cipher of
    the connection when CURVE is negotiated. *)
Class Connector := {
  connect_tcp : SocketAddr -> completion S;
  tune_tcp : S -> SocketOptions -> io_result unit;
  client_handshake : S -> SocketType -> SocketOptions -> completion (option (CurveMessageCipher K)) * S;
}.

(** The state of a socket after a successful reconnection. *)
Definition reconnected (b : SocketBase) (s : S) (c : option (CurveMessageCipher K)) : SocketBase :=
  mk_base (Some s) (endpoint b) (reset <$> reconnect b) (decoder b) segbuf_new (write_buf b) [] (options b)
    (last_endpoint b) false 0 None None false c.

(** The backoff sleep has no effect of its own; a future dropped in it leaves
    the same state as one dropped in the connect. *)
Definition try_reconnect `{C : Connector} (b : SocketBase) (t : SocketType) : outcome unit * SocketBase :=
  match endpoint b with
  | None => (Returned (Err Unsupported), b)
  | Some e =>
      let b := set_reconnect b ((λ r, (next_delay r).2) <$> reconnect b) in
      match e with
      | Tcp addr =>
          match connect_tcp addr with
          | Stalled => (Pending, b)
          | Completed (Err e) => (Returned (Err e), b)
          | Completed (Ok s) =>
              match tune_tcp s (options b) with
              | Err e => (Returned (Err e), b)
              | Ok _ =>
                  match client_handshake s t (options b) with
                  | (Stalled, _) => (Pending, b)
                  | (Completed (Err _), _) => (Returned (Err OtherError), b)
                  | (Completed (Ok c), s) => (Returned (Ok tt), reconnected b s c)
                  end
              end
          end
      | Ipc _ | Inproc _ => (Returned (Err Unsupported), b)
      end
  end.
End base.

#[global] Arguments SocketBase : clear implicits.
#[global] Arguments Connector : clear implicits.
#[global] Arguments write_phase : clear implicits.
