(* ===== verification/BaseWire.v ===== *)
(** * Wire integrity of the socket base

    What the operations of [SocketBase] put on the wire: only whole messages
    and commands, except that a write that fails or is cancelled may leave one
    truncated item behind, after which the poison flag keeps every later
    operation from writing until a reconnection. *)

From S2P Require Import Prelude.
From S2P Require Import SegBuffer.
From S2P Require Import Codec.
From S2P Require Import Options.
From S2P Require Import Ready.
From S2P Require Import CurveMessage.
From S2P Require Import Stream.
From S2P Require Import Base.

(** ** Vectored writes *)

Lemma vectored_headers_app msg i last buf :
  vectored_headers msg i last buf = buf ++ vectored_headers msg i last [].
Proof.
  revert i buf. induction msg as [|frame msg IH]; intros i buf; cbn [vectored_headers]; [by rewrite app_nil_r|].
  rewrite (IH _ (write_frame_header buf _ _).1), (IH _ (write_frame_header [] _ _).1), app_assoc. f_equal.
  unfold write_frame_header. destruct (256 <=? len frame); cbn [fst]; by rewrite <- app_assoc.
Qed.

Lemma header_len (frame : bytes) m : len (write_frame_header [] (len frame) m).1 = (if 256 <=? len frame then 9 else 2).
Proof. unfold write_frame_header. destruct (256 <=? len frame); cbn [fst app]; [|done]. rewrite len_cons, len_be_bytes. done. Qed.

(** The iovec list concatenates to the copy-path encoding of the message. *)
Lemma vectored_iovecs_spec msg i last :
  last = i + len msg - 1 ->
  exists iov, vectored_iovecs msg (vectored_headers msg i last []) = Some iov /\
    concat iov = concat (encode <$> message_frames msg).
Proof.
  revert i. induction msg as [|frame msg IH]; intros i Hlast; cbn [vectored_headers vectored_iovecs]; [by exists []|].
  rewrite len_cons in Hlast. rewrite vectored_headers_app.
  set (hdr := (write_frame_header [] (len frame) (i <? last)).1).
  set (hlen := if 256 <=? len frame then 9 else 2).
  assert (Hh : len hdr = hlen) by apply header_len. pose proof (len_nonneg (vectored_headers msg (i + 1) last [])).
  rewrite (proj2 (Z.ltb_ge _ _)) by (rewrite len_app; lia).
  rewrite zdrop_app_ge, ztake_app_le, (ztake_ge hlen hdr) by lia. rewrite Hh, Z.sub_diag, zdrop_0.
  destruct (IH (i + 1)) as (iov & -> & Hc); [lia|]. cbn [mbind option_bind]. eexists. split; [done|].
  cbn [concat]. rewrite Hc.
  assert (Hm : (i <? last) = match msg with [] => false | _ => true end).
  { destruct msg; [apply Z.ltb_ge; change (len []) with 0 in Hlast; lia|apply Z.ltb_lt; rewrite len_cons in Hlast; len_lia]. }
  destruct (write_frame_header_spec [] frame (i <? last)) as [Hw _]. fold hdr in Hw. cbn [app] in Hw.
  rewrite app_assoc, Hw, Hm. by destruct msg.
Qed.

(** A vectored write sends the same bytes as the copy path.  For every
    message the header slices and frame bodies handed to [write_vectored_all]
    are cut without panicking and concatenate to [encode_multipart] of it. *)
Theorem vectored_matches_copy (msg : list bytes) :
  exists iov, vectored_iovecs msg (vectored_headers msg 0 (len msg - 1) []) = Some iov /\
    concat iov = encode_multipart msg [].
Proof.
  destruct (vectored_iovecs_spec msg 0 (len msg - 1)) as (iov & Hi & Hc); [lia|].
  exists iov. split; [done|]. by rewrite encode_multipart_frames.
Qed.

(** ** Whole items *)

Inductive wire_item :=
| IMsg (m : list bytes)
| ICmd (body : bytes).

Definition item_bytes (it : wire_item) : bytes :=
  match it with
  | IMsg m => encode_multipart m []
  | ICmd body => append_zmtp_cmd_frame [] body
  end.

Definition whole (bs : bytes) : Prop := exists items, bs = concat (item_bytes <$> items).

Lemma whole_nil : whole [].
Proof. by exists []. Qed.

Lemma whole_app a b : whole a -> whole b -> whole (a ++ b).
Proof. intros [ia ->] [ib ->]. exists (ia ++ ib). by rewrite fmap_app, concat_app. Qed.

Lemma whole_item it : whole (item_bytes it).
Proof. exists [it]. cbn. by rewrite app_nil_r. Qed.

#[export] Hint Resolve whole_nil whole_app whole_item : mono.

(** The beginning of whole items. *)
Definition truncated (bs : bytes) : Prop := exists rest, whole (bs ++ rest).

Lemma append_cmd_spec buf body : append_zmtp_cmd_frame buf body = buf ++ item_bytes (ICmd body).
Proof. cbn [item_bytes]. unfold append_zmtp_cmd_frame. by destruct (len body <=? 255). Qed.

Lemma encode_frame_command body : encode_frame FLAG_COMMAND body = item_bytes (ICmd body).
Proof. cbn [item_bytes]. unfold encode_frame, append_zmtp_cmd_frame. by destruct (len body <=? 255). Qed.

Lemma encode_multipart_append msg buf : encode_multipart msg buf = buf ++ item_bytes (IMsg msg).
Proof. cbn [item_bytes]. rewrite !encode_multipart_frames. done. Qed.

Section wire.
Context {S K : Type} `{WireStream S} `{!Aead K}.
Implicit Types b : SocketBase S K.

Lemma curve_encode_whole msg c i last buf r c' buf' :
  curve_encode c msg i last buf = (r, c', buf') -> whole buf -> whole buf'.
Proof.
  revert c i buf. induction msg as [|frame msg IH]; intros c i buf; cbn [curve_encode]; [by intros [= _ _ <-]|].
  destruct (encrypt_frame c frame (i <? last)) as [[body|e] c1]; [|by intros [= _ _ <-]].
  intros Heq Hw. eapply IH; [exact Heq|]. rewrite append_cmd_spec. auto with mono.
Qed.

Lemma encode_into_whole b msg buf r c buf' :
  encode_into b msg buf = (r, c, buf') -> whole buf -> whole buf'.
Proof.
  unfold encode_into. destruct (curve_cipher b) as [c0|].
  - destruct (curve_encode c0 msg 0 _ buf) as [[r1 c1] buf1] eqn:E. intros [= <- <- <-] Hw.
    by eapply curve_encode_whole.
  - intros Heq Hw. assert (buf' = encode_multipart msg buf) as -> by congruence.
    rewrite encode_multipart_append. auto with mono.
Qed.

Definition phase_base (p : write_phase S K) : SocketBase S K := match p with WDone _ b | WStalled b => b end.

(** Everything on the wire since [base] is whole, but for a truncated tail
    that only a poisoned socket may have; what is buffered is whole. *)
Definition wire_ok (base : bytes) b : Prop :=
  whole (send_buffer b) /\
  match stream b with
  | None => True
  | Some s => exists done tail, wire s = base ++ done ++ tail /\ whole done /\ truncated tail /\
      (tail = [] \/ is_poisoned b = true)
  end.

(** A guarded write of whole items from a healthy socket. *)
Lemma guarded_write_ok base b s c s' buf k :
  wire_ok base b -> stream b = Some s -> is_poisoned b = false -> whole buf ->
  k `prefix_of` buf -> wire s' = wire s ++ k -> (c = Completed (Ok tt) -> k = buf) ->
  wire_ok base (phase_base (guarded_write b (c, s'))).
Proof.
  intros [Hsb Hst] Hs Hp Hbuf [rest Hrest] Hk Hok. rewrite Hs in Hst. destruct Hst as (done & tail & Hw & Hd & _ & Ht).
  destruct Ht as [->|Ht]; [|congruence]. rewrite app_nil_r in Hw. cbn [guarded_write].
  destruct c as [[[]|e]|]; cbn [phase_base]; (split; [exact Hsb|]); cbn; [| done |].
  - exists (done ++ buf), []. rewrite Hk, Hok, Hw, app_nil_r, app_assoc by done. split; [done|].
    split_and!; [auto with mono|by exists []; apply whole_nil|auto].
  - exists done, k. rewrite Hk, Hw, app_assoc. split_and!; [done|done|exists rest; by rewrite <- Hrest|auto].
Qed.

Lemma set_send_buffer_ok base b buf : wire_ok base b -> whole buf -> wire_ok base (set_send_buffer b buf).
Proof. intros [_ Hst] Hbuf. by split. Qed.

Lemma flush_phase_ok base b :
  wire_ok base b -> wire_ok base (phase_base (flush_phase b)).
Proof.
  intros Hok. unfold flush_phase. destruct (send_buffer b) as [|x buf] eqn:Esb; [done|]. rewrite <- Esb.
  destruct (is_poisoned b) eqn:Ep; [done|]. destruct (stream b) as [s|] eqn:Es; [|done].
  destruct (is_zero_timeout _); [done|].
  pose proof Hok as [Hsb _]. destruct (write_all_wire s (send_buffer b)) as (k & Hpre & Hk & Hfull).
  destruct (stream_write_all s (send_buffer b)) as [c s'] eqn:Ew. cbn [fst snd] in *.
  pose proof (guarded_write_ok base (set_send_buffer b []) s c s' (send_buffer b) k) as Hg.
  specialize (Hg (set_send_buffer_ok _ _ _ Hok whole_nil) Es Ep Hsb Hpre Hk Hfull).
  by destruct (guarded_write _ _) as [[[]|e] b'|b'].
Qed.

Lemma finish_write_snd b0 (p : write_phase S K) :
  (finish_write b0 p).2 = phase_base p.
Proof. by destruct p. Qed.

Lemma flush_ok base b : wire_ok base b -> wire_ok base (flush_send_buffer b).2.
Proof.
  intros Hok. unfold flush_send_buffer. rewrite finish_write_snd. by apply flush_phase_ok.
Qed.

Lemma write_from_buf_ok base b : wire_ok base b -> whole (write_buf b) -> wire_ok base (write_from_buf b).2.
Proof.
  intros Hok Hwb. unfold write_from_buf. destruct (is_poisoned b) eqn:Ep; [done|].
  destruct (stream b) as [s|] eqn:Es; [|done]. destruct (is_zero_timeout _); [done|].
  rewrite finish_write_snd. destruct (write_all_wire s (write_buf b)) as (k & Hpre & Hk & Hfull).
  destruct (stream_write_all s (write_buf b)) as [c s'] eqn:Ew. cbn [fst snd] in *.
  by apply (guarded_write_ok base (set_write_buf b []) s c s' (write_buf b) k).
Qed.

Lemma send_vectored_ok base b msg :
  wire_ok base b -> wire_ok base (send_vectored b msg).2 /\ (send_vectored b msg).1 <> Panicked.
Proof.
  intros Hok. unfold send_vectored. case_bool_decide; [done|].
  set (pre := if bool_decide _ then _ else _).
  assert (Hpre : wire_ok base pre.2 /\ pre.1 <> Panicked).
  { unfold pre. case_bool_decide; [done|]. split; [by apply flush_ok|].
    unfold flush_send_buffer, finish_write. destruct (flush_phase b); [done|]. cbn. by destruct (send_timeout _). }
  destruct pre as [[[[]|e]| |] b1]; cbn [await_bind]; [|done..]. destruct Hpre as [Hok1 _]. cbn in Hok1.
  destruct (is_poisoned b1) eqn:Ep; [done|]. destruct (is_zero_timeout _); [done|]. cbn zeta.
  destruct (vectored_iovecs_spec msg 0 (len msg - 1)) as (iov & -> & Hc); [lia|].
  cbn [stream set_write_buf]. destruct (stream b1) as [s|] eqn:Es; [|done]. split.
  - rewrite finish_write_snd. destruct (write_vectored_wire s iov) as (k & Hpref & Hk & Hfull).
    destruct (stream_write_vectored_all s iov) as [c s'] eqn:Ew. cbn [fst snd] in *.
    apply (guarded_write_ok base _ s c s' (concat iov) k); try done.
    rewrite Hc, <- (app_nil_l (concat _)), <- encode_multipart_frames. apply (whole_item (IMsg msg)).
  - unfold finish_write, guarded_write. destruct (stream_write_vectored_all s iov) as [[[[]|e]|] s']; [done..|].
    cbn. by destruct (send_timeout _).
Qed.

Lemma shutdown_ok base b : wire_ok base b -> wire_ok base (shutdown_and_drop b).2.
Proof.
  intros Hok. unfold shutdown_and_drop. destruct (stream b) as [s|] eqn:Es; [|done].
  pose proof (shutdown_wire s) as Hw. destruct (stream_shutdown s) as [c s']. cbn in Hw.
  destruct Hok as [Hsb Hst]. rewrite Es in Hst. destruct c as [[[]|e]|]; cbn; split; try done; cbn; by rewrite Hw.
Qed.

Lemma close_ok base b : wire_ok base b -> wire_ok base (close b).2.
Proof.
  intros Hok. unfold close. cbn zeta. set (drain := if _ && _ then _ else _).
  assert (Hd : wire_ok base drain.2).
  { unfold drain. destruct (_ && _); [|done]. destruct (linger (options b)) as [dur|]; [|by apply flush_ok].
    destruct (dur =? 0); [destruct Hok; split; [apply whole_nil|done]|]. pose proof (flush_phase_ok base b Hok).
    destruct (flush_phase b); [done|]. destruct (send_timeout (options b)) as [t|]; [|done]. by destruct (t <=? dur). }
  destruct drain as [[[[]|e]| |] b1]; cbn in *; try done. by apply shutdown_ok.
Qed.

Lemma read_raw_ok base b now : wire_ok base b -> wire_ok base (read_raw b now).2.
Proof.
  intros Hok. unfold read_raw. destruct (stream b) as [s|] eqn:Es; [|done].
  destruct (is_zero_timeout _); [done|]. pose proof (read_wire s (effective_read_buffer_size (options b))) as Hw.
  destruct (stream_read s _) as [c s']. cbn in Hw.
  assert (Hok' : wire_ok base (set_stream b (Some s'))).
  { destruct Hok as [Hsb Hst]. rewrite Es in Hst. split; [done|]. cbn. by rewrite Hw. }
  destruct (with_timer _ c) as [[[|x bs]|e]| |]; cbn [snd]; try done.
  - destruct Hok' as [Hsb _]. by split.
  - unfold note_recv. destruct (heartbeat_ivl _); exact Hok'.
Qed.

Lemma handle_ping_pong_ok base b frame : wire_ok base b -> wire_ok base (handle_ping_pong b frame).
Proof.
  intros Hok. unfold handle_ping_pong.
  set (b1 := if is_ping_payload _ then _ else _).
  assert (Hok1 : wire_ok base b1).
  { unfold b1. destruct (is_ping_payload _); [|done]. apply set_send_buffer_ok; [done|].
    unfold build_pong_frame. rewrite encode_frame_command. destruct Hok. auto with mono. }
  destruct (is_pong_payload _); [|done]. unfold note_pong_received. by destruct (awaiting_pong b1).
Qed.

(** Processing a frame: no panic, the receive side stays well formed. *)
Lemma process_frame_ok base b :
  wire_ok base b -> decoder_wf (decoder b) -> segbuf_wf (recv_buf b) ->
  exists r b', process_frame b = Some (r, b') /\ wire_ok base b' /\ decoder_wf (decoder b') /\
    segbuf_wf (recv_buf b') /\ options b' = options b.
Proof.
  intros Hok Hd Hr. destruct (decode_ok (decoder b) (recv_buf b) Hd Hr) as (r & d' & src' & Hdec & Hd' & Hr' & _ & _).
  unfold process_frame. rewrite Hdec. cbn [mbind option_bind].
  set (b1 := set_decoder b d' src').
  assert (H1 : wire_ok base b1 /\ decoder_wf (decoder b1) /\ segbuf_wf (recv_buf b1) /\ options b1 = options b) by done.
  assert (Hpp : forall f, let b2 := handle_ping_pong b1 f in
    decoder b2 = decoder b1 /\ recv_buf b2 = recv_buf b1 /\ options b2 = options b1).
  { intros f. cbn zeta. unfold handle_ping_pong, note_pong_received.
    by destruct (is_ping_payload _), (is_pong_payload _); cbn; destruct (awaiting_pong b). }
  assert (Hcmd : forall f, let b2 := handle_ping_pong b1 f in
    wire_ok base b2 /\ decoder_wf (decoder b2) /\ segbuf_wf (recv_buf b2) /\ options b2 = options b).
  { intros f. cbn zeta. destruct (Hpp f) as (-> & -> & ->). destruct H1 as (? & ? & ? & ?). split_and!; try done.
    by apply handle_ping_pong_ok. }
  destruct r as [[f|]|e]; cbn [zmtp_io]; [|eauto|eauto].
  destruct (is_command f).
  - change (curve_cipher b1) with (curve_cipher b). destruct (curve_cipher b) as [c|]; [|eauto 10].
    destruct (is_curve_message _); [|eauto 10]. destruct (decrypt_frame c _) as [[[m p]|e] c']; eauto 10.
  - case_bool_decide; eauto 10.
Qed.
End wire.

(** ** Runs of operations *)

(** What a socket does with its base between two reconnections. *)
Inductive base_op :=
| OpSend (msg : list bytes)        (** encode into [write_buf], then write it *)
| OpBuffer (msg : list bytes)      (** encode into [send_buffer] *)
| OpCoalesced (msg : list bytes)
| OpCoalesceOne (frame : bytes)    (** encode one frame, flush at the threshold *)
| OpVectored (msg : list bytes)
| OpFlush
| OpRead (now : Z)
| OpProcess
| OpHeartbeat (now : Z)
| OpClose.

Section runs.
Context {S K : Type} `{WireStream S} `{!Aead K}.
Implicit Types b : SocketBase S K.

(** [encode_message_to_write_buf(msg)?; write_from_buf().await]. *)
Definition send_now b (msg : list bytes) : outcome unit * SocketBase S K :=
  match encode_message_to_write_buf b msg with
  | (Ok _, b) => write_from_buf b
  | (Err e, b) => (Returned (Err e), b)
  end.

Definition coalesce_one b (frame : bytes) : outcome unit * SocketBase S K :=
  match encode_one_coalesced b frame with
  | (Ok true, b) => flush_send_buffer b
  | (Ok false, b) => (Returned (Ok tt), b)
  | (Err e, b) => (Returned (Err e), b)
  end.

(** The state an operation leaves, whether it returned, failed or was
    cancelled; [None] is a panic. *)
Definition base_step b (op : base_op) : option (SocketBase S K) :=
  match op with
  | OpSend msg => Some (send_now b msg).2
  | OpBuffer msg => Some (encode_message_to_send_buf b msg).2
  | OpCoalesced msg => Some (send_coalesced b msg).2
  | OpCoalesceOne frame => Some (coalesce_one b frame).2
  | OpVectored msg => match send_vectored b msg with (Panicked, _) => None | (_, b) => Some b end
  | OpFlush => Some (flush_send_buffer b).2
  | OpRead now => Some (read_raw b now).2
  | OpProcess => '(_, b) ← process_frame b; Some b
  | OpHeartbeat now => '(_, b) ← check_heartbeat b now; Some b
  | OpClose => Some (close b).2
  end.

Fixpoint base_run b (ops : list base_op) : option (SocketBase S K) :=
  match ops with
  | [] => Some b
  | op :: ops => b ← base_step b op; base_run b ops
  end.

(** A heartbeat interval whose double is a representable [Duration]. *)
Definition heartbeat_ok (o : SocketOptions) : Prop :=
  from_option (λ ivl, ivl + ivl <= duration_max) True (heartbeat_ivl o).

Record base_ok (base : bytes) b : Prop := {
  bo_wire : wire_ok base b;
  bo_decoder : decoder_wf (decoder b);
  bo_recv : segbuf_wf (recv_buf b);
  bo_heartbeat : heartbeat_ok (options b);
}.

(** The operations below leave the receive side alone. *)
Definition same_recv b b' : Prop :=
  decoder b' = decoder b /\ recv_buf b' = recv_buf b /\ options b' = options b.

Lemma same_recv_trans b1 b2 b3 : same_recv b1 b2 -> same_recv b2 b3 -> same_recv b1 b3.
Proof. intros (? & ? & ?) (? & ? & ?). repeat split; congruence. Qed.

Lemma base_ok_same base b b' : base_ok base b -> wire_ok base b' -> same_recv b b' -> base_ok base b'.
Proof. intros [H1 H2 H3 H4] Hw (Hd & Hr & Ho). split; [done|by rewrite Hd|by rewrite Hr|by rewrite Ho]. Qed.

Lemma guarded_write_recv b w : same_recv b (phase_base (guarded_write b w)).
Proof. destruct w as [[[[]|e]|] s]; done. Qed.

Lemma flush_phase_recv b : same_recv b (phase_base (flush_phase b)).
Proof.
  unfold flush_phase. destruct (send_buffer b); [done|]. destruct (is_poisoned b); [done|].
  destruct (stream b) as [s|]; [|done]. destruct (is_zero_timeout _); [done|].
  pose proof (guarded_write_recv (set_send_buffer b []) (stream_write_all s (b0 :: l))) as Hg.
  by destruct (guarded_write _ _) as [[[]|e] b'|b'].
Qed.

Lemma flush_recv b : same_recv b (flush_send_buffer b).2.
Proof. unfold flush_send_buffer. rewrite finish_write_snd. apply flush_phase_recv. Qed.

Lemma send_now_ok base b msg : base_ok base b -> base_ok base (send_now b msg).2.
Proof.
  intros Hok. unfold send_now, encode_message_to_write_buf.
  destruct (encode_into b msg []) as [[r c] buf] eqn:E.
  pose proof (encode_into_whole _ _ _ _ _ _ E whole_nil) as Hbuf. cbn.
  set (b1 := set_cipher (set_write_buf b buf) c).
  assert (Hok1 : base_ok base b1) by (apply (base_ok_same base b); [done|apply Hok|done]).
  destruct r; [|done]. apply (base_ok_same base b1); [done|apply write_from_buf_ok; [apply Hok1|done]|].
  unfold write_from_buf. destruct (is_poisoned b1); [done|]. destruct (stream b1); [|done].
  destruct (is_zero_timeout _); [done|]. rewrite finish_write_snd. exact (guarded_write_recv (set_write_buf b1 []) _).
Qed.

Lemma buffer_ok base b msg : base_ok base b -> base_ok base (encode_message_to_send_buf b msg).2.
Proof.
  intros Hok. unfold encode_message_to_send_buf. destruct (encode_into b msg (send_buffer b)) as [[r c] buf] eqn:E.
  pose proof (encode_into_whole _ _ _ _ _ _ E (proj1 (bo_wire _ _ Hok))) as Hbuf.
  destruct r; cbn; (apply (base_ok_same base b); [done| |done]); split; [done|apply Hok|done|apply Hok].
Qed.

Lemma flush_base_ok base b : base_ok base b -> base_ok base (flush_send_buffer b).2.
Proof. intros Hok. apply (base_ok_same base b); [done|apply flush_ok, Hok|apply flush_recv]. Qed.

Lemma coalesced_ok base b msg : base_ok base b -> base_ok base (send_coalesced b msg).2.
Proof.
  intros Hok. unfold send_coalesced. destruct (encode_into b msg (send_buffer b)) as [[r c] buf] eqn:E.
  pose proof (encode_into_whole _ _ _ _ _ _ E (proj1 (bo_wire _ _ Hok))) as Hbuf. cbn zeta.
  set (b1 := set_cipher (set_send_buffer b buf) c).
  assert (Hok1 : base_ok base b1).
  { apply (base_ok_same base b); [done| |done]. split; [done|apply Hok]. }
  destruct r; [|done]. destruct (_ <=? _); [by apply flush_base_ok|done].
Qed.

Lemma coalesce_one_ok base b frame : base_ok base b -> base_ok base (coalesce_one b frame).2.
Proof.
  intros Hok. pose proof (proj1 (bo_wire _ _ Hok)) as Hsb. unfold coalesce_one, encode_one_coalesced.
  destruct (curve_cipher b) as [c|].
  - destruct (encrypt_frame c frame false) as [[body|e] c']; cbn zeta.
    + set (b1 := set_cipher _ _). assert (Hok1 : base_ok base b1).
      { apply (base_ok_same base b); [done| |done]. split; [|apply Hok]. cbn. rewrite append_cmd_spec. auto with mono. }
      destruct (_ <=? _); [by apply flush_base_ok|done].
    + apply (base_ok_same base b); [done|apply Hok|done].
  - cbn zeta. set (b1 := set_send_buffer _ _). assert (Hok1 : base_ok base b1).
    { apply (base_ok_same base b); [done| |done]. split; [|apply Hok]. cbn. rewrite encode_single_spec.
      apply whole_app; [done|]. exists [IMsg [frame]]. cbn. by rewrite encode_single_spec, app_nil_r. }
    destruct (_ <=? _); [by apply flush_base_ok|done].
Qed.

Lemma vectored_recv b msg : same_recv b (send_vectored b msg).2.
Proof.
  unfold send_vectored. case_bool_decide; [done|]. set (pre := if bool_decide _ then _ else _).
  assert (Hpre : same_recv b pre.2) by (unfold pre; case_bool_decide; [done|apply flush_recv]).
  destruct pre as [[[[]|e]| |] b1]; cbn [await_bind]; [|done..]. cbn in Hpre.
  destruct (is_poisoned b1); [done|]. destruct (is_zero_timeout _); [done|]. cbn zeta.
  destruct (vectored_iovecs _ _); [|done]. cbn [stream set_write_buf]. destruct (stream b1); [|done].
  rewrite finish_write_snd. apply (same_recv_trans b b1); [done|].
  exact (guarded_write_recv (set_write_buf b1 []) (stream_write_vectored_all s l)).
Qed.

Lemma close_recv b : same_recv b (close b).2.
Proof.
  unfold close. cbn zeta. set (drain := if _ && _ then _ else _).
  assert (Hd : same_recv b drain.2).
  { unfold drain. destruct (_ && _); [|done]. destruct (linger (options b)) as [dur|]; [|apply flush_recv].
    destruct (dur =? 0); [done|]. pose proof (flush_phase_recv b).
    destruct (flush_phase b); [done|]. destruct (send_timeout (options b)) as [t|]; [|done]. by destruct (t <=? dur). }
  destruct drain as [[[[]|e]| |] b1]; cbn in *; try done. apply (same_recv_trans b b1); [done|].
  unfold shutdown_and_drop. destruct (stream b1); [|done]. destruct (stream_shutdown s) as [[[[]|e]|] s']; done.
Qed.

Lemma read_raw_base_ok base b now : base_ok base b -> base_ok base (read_raw b now).2.
Proof.
  intros Hok. pose proof (read_raw_ok base b now (bo_wire _ _ Hok)) as Hw. destruct Hok as [_ Hd Hr Ho].
  revert Hw. unfold read_raw. destruct (stream b) as [s|]; [|done]. destruct (is_zero_timeout _); [done|].
  destruct (stream_read s _) as [c s']. destruct (with_timer _ c) as [[[|x bs]|e]| |]; cbn [snd]; try done.
  intros Hw. unfold note_recv in *. destruct (heartbeat_ivl _); (split; [done|done|by apply push_wf|done]).
Qed.

Lemma heartbeat_base_ok base b now :
  base_ok base b -> exists r b', check_heartbeat b now = Some (r, b') /\ base_ok base b'.
Proof.
  intros Hok. pose proof Hok as [Hw Hd Hr Ho]. unfold check_heartbeat, heartbeat_ok in *.
  destruct (heartbeat_ivl (options b)) as [ivl|]; [|eauto]. destruct (awaiting_pong b).
  { destruct (ping_sent_at b); [|eauto]. cbn zeta. destruct (_ <? _); [|eauto]. eexists _, _. split; [done|].
    apply (base_ok_same base b); [done| |done]. by destruct Hw. }
  assert (Hidle : is_Some (idle_since b now ivl)).
  { unfold idle_since. destruct (last_recv_instant b); [done|]. cbn in Ho. by rewrite (proj2 (Z.ltb_ge _ _)). }
  destruct Hidle as [idle ->]. cbn [mbind option_bind]. destruct (_ <=? _); [|eauto].
  eexists _, _. split; [done|]. apply (base_ok_same base b); [done| |done].
  destruct Hw as [Hsb Hst]. split; [|done]. cbn. unfold ping_of, build_ping_frame. rewrite encode_frame_command. auto with mono.
Qed.

Lemma base_step_ok base b op : base_ok base b -> exists b', base_step b op = Some b' /\ base_ok base b'.
Proof.
  intros Hok. destruct op; cbn [base_step].
  - eexists. split; [done|]. by apply send_now_ok.
  - eexists. split; [done|]. by apply buffer_ok.
  - eexists. split; [done|]. by apply coalesced_ok.
  - eexists. split; [done|]. by apply coalesce_one_ok.
  - destruct (send_vectored_ok base b msg (bo_wire _ _ Hok)) as [Hw Hp]. pose proof (vectored_recv b msg).
    destruct (send_vectored b msg) as [[| |] b']; [..|done]; (eexists; split; [done|]); by apply (base_ok_same base b).
  - eexists. split; [done|]. by apply flush_base_ok.
  - eexists. split; [done|]. by apply read_raw_base_ok.
  - destruct (process_frame_ok base b) as (r & b' & -> & ? & ? & ? & Ho); [apply Hok..|].
    eexists. split; [done|]. split; try done. rewrite Ho. apply Hok.
  - destruct (heartbeat_base_ok base b now Hok) as (r & b' & -> & Hok'). eauto.
  - eexists. split; [done|]. apply (base_ok_same base b); [done|apply close_ok, Hok|apply close_recv].
Qed.

Lemma base_run_ok base ops b : base_ok base b -> exists b', base_run b ops = Some b' /\ base_ok base b'.
Proof.
  revert b. induction ops as [|op ops IH]; intros b Hok; cbn [base_run]; [eauto|].
  destruct (base_step_ok base b op Hok) as (b1 & -> & Hok1). cbn. by apply IH.
Qed.

(** ** The poison flag *)

(** [b'] is poisoned and nothing has been written since [b]. *)
Definition frozen b b' : Prop :=
  is_poisoned b' = true /\ forall s', stream b' = Some s' -> exists s, stream b = Some s /\ wire s' = wire s.

Lemma frozen_trans b1 b2 b3 : frozen b1 b2 -> frozen b2 b3 -> frozen b1 b3.
Proof.
  intros [_ H1] [Hp H2]. split; [done|]. intros s3 Hs3. destruct (H2 s3 Hs3) as (s2 & Hs2 & ->).
  destruct (H1 s2 Hs2) as (s1 & Hs1 & ->). eauto.
Qed.

(** An update that keeps the flag and the stream, or drops the stream. *)
Lemma frozen_same b b' :
  is_poisoned b = true -> is_poisoned b' = is_poisoned b -> stream b' = stream b \/ stream b' = None -> frozen b b'.
Proof. intros Hp Hp' Hs. split; [congruence|]. intros s' Hs'. destruct Hs; [exists s'; split|]; congruence. Qed.

Lemma flush_phase_poisoned b :
  is_poisoned b = true -> exists r, flush_phase b = WDone r b /\ (send_buffer b <> [] -> r = Err BrokenPipe).
Proof. intros Hp. unfold flush_phase. destruct (send_buffer b); [by eexists|]. rewrite Hp. by eexists. Qed.

Lemma flush_poisoned b : is_poisoned b = true -> (flush_send_buffer b).2 = b.
Proof.
  intros Hp. unfold flush_send_buffer. destruct (flush_phase_poisoned b Hp) as (r & -> & _). done.
Qed.

Lemma shutdown_frozen b : is_poisoned b = true -> frozen b (shutdown_and_drop b).2.
Proof.
  intros Hp. unfold shutdown_and_drop. destruct (stream b) as [s|] eqn:Es; [|by apply frozen_same; auto].
  pose proof (shutdown_wire s) as Hw. destruct (stream_shutdown s) as [c s']. cbn in Hw.
  destruct c as [[[]|e]|]; cbn; split; try done; cbn; intros ? [= <-]; eauto.
Qed.

Lemma flush_frozen b b1 :
  is_poisoned b = true -> is_poisoned b1 = true -> stream b1 = stream b -> frozen b (flush_send_buffer b1).2.
Proof. intros Hp Hp1 Hs1. rewrite flush_poisoned by done. apply frozen_same; [done|congruence|auto]. Qed.

Lemma read_raw_frozen b now : is_poisoned b = true -> frozen b (read_raw b now).2.
Proof.
  intros Hp. unfold read_raw. destruct (stream b) as [s|] eqn:Es; [|by apply frozen_same; auto].
  destruct (is_zero_timeout _); [by apply frozen_same; auto|].
  pose proof (read_wire s (effective_read_buffer_size (options b))) as Hw.
  destruct (stream_read s _) as [c s']. cbn in Hw.
  assert (Hfr : forall b1, is_poisoned b1 = true -> stream b1 = Some s' -> frozen b b1).
  { intros b1 Hp1 Hs1. split; [done|]. rewrite Hs1. intros ? [= <-]. eauto. }
  destruct (with_timer _ c) as [[[|x bs]|e]| |]; cbn [snd]; try by apply Hfr.
  - by apply frozen_same; auto.
  - unfold note_recv. destruct (heartbeat_ivl _); by apply Hfr.
Qed.

Lemma process_frame_frozen b r b1 : is_poisoned b = true -> process_frame b = Some (r, b1) -> frozen b b1.
Proof.
  intros Hp. unfold process_frame. destruct (decode _ _) as [[[r1 d] src]|]; [|done]. cbn [mbind option_bind].
  assert (Hpp : forall f, frozen b (handle_ping_pong (set_decoder b d src) f)).
  { intros f. apply frozen_same; [done| |]; unfold handle_ping_pong, note_pong_received;
      destruct (is_ping_payload _), (is_pong_payload _); cbn; destruct (awaiting_pong b); auto. }
  assert (Hsame : frozen b (set_decoder b d src)) by (by apply frozen_same; auto).
  destruct (zmtp_io r1) as [[f|]|]; [|by intros [= _ <-]..]. destruct (is_command f).
  - cbn [curve_cipher set_decoder]. destruct (curve_cipher b) as [c|]; [|by intros [= _ <-]].
    destruct (is_curve_message _); [|by intros [= _ <-]].
    destruct (decrypt_frame c _) as [[[m p]|e] c']; intros [= _ <-]; by apply frozen_same; auto.
  - case_bool_decide; by intros [= _ <-].
Qed.

Lemma check_heartbeat_frozen b now r b1 : is_poisoned b = true -> check_heartbeat b now = Some (r, b1) -> frozen b b1.
Proof.
  intros Hp. unfold check_heartbeat.
  destruct (heartbeat_ivl (options b)) as [ivl|]; [|intros [= _ <-]; by apply frozen_same; auto].
  destruct (awaiting_pong b).
  - destruct (ping_sent_at b); [cbn zeta; destruct (_ <? _)|]; intros [= _ <-]; by apply frozen_same; auto.
  - destruct (idle_since b now ivl); [|done]. cbn. destruct (_ <=? _); intros [= _ <-]; by apply frozen_same; auto.
Qed.

Lemma close_frozen b : is_poisoned b = true -> frozen b (close b).2.
Proof.
  intros Hp. unfold close. cbn zeta. set (drain := if _ && _ then _ else _).
  assert (Hd : frozen b drain.2).
  { unfold drain. destruct (_ && _); [|by apply frozen_same; auto].
    destruct (linger (options b)) as [dur|]; [|by apply flush_frozen]. destruct (dur =? 0); [by apply frozen_same; auto|].
    destruct (flush_phase_poisoned b Hp) as (r & -> & _). by apply frozen_same; auto. }
  destruct drain as [[[[]|e]| |] b1]; cbn in *; try done. eapply frozen_trans; [exact Hd|].
  apply shutdown_frozen. apply Hd.
Qed.

Lemma base_step_frozen b op b' : is_poisoned b = true -> base_step b op = Some b' -> frozen b b'.
Proof.
  intros Hp Hstep. destruct op; cbn [base_step] in Hstep; try injection Hstep as <-.
  - unfold send_now, encode_message_to_write_buf.
    destruct (encode_into b msg []) as [[[[]|e] c] buf]; cbn; [|by apply frozen_same; auto].
    unfold write_from_buf. cbn. rewrite Hp. by apply frozen_same; auto.
  - unfold encode_message_to_send_buf.
    destruct (encode_into b msg (send_buffer b)) as [[[[]|e] c] buf]; cbn; by apply frozen_same; auto.
  - unfold send_coalesced.
    destruct (encode_into b msg (send_buffer b)) as [[[[]|e] c] buf]; cbn zeta; [|by apply frozen_same; auto].
    destruct (_ <=? _); [by apply flush_frozen|by apply frozen_same; auto].
  - unfold coalesce_one, encode_one_coalesced. destruct (curve_cipher b) as [c|].
    + destruct (encrypt_frame c frame false) as [[body|e] c']; cbn zeta; [|by apply frozen_same; auto].
      destruct (_ <=? _); [by apply flush_frozen|by apply frozen_same; auto].
    + cbn zeta. destruct (_ <=? _); [by apply flush_frozen|by apply frozen_same; auto].
  - revert Hstep. unfold send_vectored. case_bool_decide; [intros [= <-]; by apply frozen_same; auto|].
    set (pre := if bool_decide _ then _ else _).
    assert (Hpre : pre.2 = b) by (unfold pre; case_bool_decide; [done|by apply flush_poisoned]).
    destruct pre as [[[[]|e]| |] b1]; cbn in Hpre; subst b1; cbn [await_bind]; [rewrite Hp| | |done];
      intros [= <-]; by apply frozen_same; auto.
  - by apply flush_frozen.
  - by apply read_raw_frozen.
  - destruct (process_frame b) as [[r b1]|] eqn:E; [|done]. injection Hstep as <-. by eapply process_frame_frozen.
  - destruct (check_heartbeat b now) as [[r b1]|] eqn:E; [|done]. injection Hstep as <-. by eapply check_heartbeat_frozen.
  - by apply close_frozen.
Qed.

Lemma base_run_frozen ops b b' : is_poisoned b = true -> base_run b ops = Some b' -> frozen b b'.
Proof.
  revert b. induction ops as [|op ops IH]; intros b Hp; cbn [base_run].
  { intros [= <-]. by apply frozen_same; auto. }
  destruct (base_step b op) as [b1|] eqn:E; [|done]. cbn. intros Hrun.
  pose proof (base_step_frozen b op b1 Hp E) as Hf. eapply frozen_trans; [exact Hf|]. apply IH; [apply Hf|done].
Qed.
End runs.

(** ** Properties *)

Lemma fresh_wire_ok {S K} `{WireStream S} (b : SocketBase S K) s :
  stream b = Some s -> send_buffer b = [] -> wire_ok (wire s) b.
Proof. intros Hs Hb. split; [rewrite Hb; apply whole_nil|]. rewrite Hs. exists [], []. rewrite !app_nil_r.
  split_and!; [done|apply whole_nil|exists []; apply whole_nil|auto].
Qed.

Lemma base_decoder_wf o : decoder_wf (base_decoder o).
Proof. unfold base_decoder. by destruct (max_msg_size o). Qed.

Lemma base_new_ok {S K} `{WireStream S} (s : S) (o : SocketOptions) :
  heartbeat_ok o -> base_ok (K := K) (wire s) (base_new s o).
Proof.
  intros Ho. split; [by apply fresh_wire_ok|apply base_decoder_wf|apply segbuf_new_wf|done].
Qed.

(** C2: wire integrity.  Whatever a socket does with its base after the
    handshake (direct, buffered, coalesced and vectored sends, flushes, reads,
    frame processing with PONG replies, heartbeats, close), in any order and
    with writes that succeed, fail, stall, time out or are cancelled at any
    point, nothing panics, and the bytes on the wire are whole messages and
    commands, followed by the beginning of such items only if the socket is
    poisoned. *)
Theorem wire_integrity {S K : Type} `{WireStream S} `{!Aead K} (b : SocketBase S K) (s : S) (ops : list base_op) :
  stream b = Some s -> base_ok (wire s) b ->
  exists b', base_run b ops = Some b' /\
    forall s', stream b' = Some s' ->
      exists items tail, wire s' = wire s ++ concat (item_bytes <$> items) ++ tail /\
        truncated tail /\ (tail = [] \/ is_poisoned b' = true).
Proof.
  intros _ Hok. destruct (base_run_ok (wire s) ops b Hok) as (b' & Hrun & Hok'). exists b'. split; [done|].
  intros s' Hs'. destruct (bo_wire _ _ Hok') as [_ Hst]. rewrite Hs' in Hst.
  destruct Hst as (done & tail & Hw & [items ->] & Ht). exists items, tail. by destruct Ht.
Qed.

(** A stream whose second write stalls half way. *)
Definition stalling_stream : ScriptStream := mk_script [] [] [Completed (Ok tt); Stalled].

Definition sample_ops : list base_op :=
  [OpSend [ascii_bytes "a"]; OpBuffer [ascii_bytes "bcd"]; OpFlush; OpSend [ascii_bytes "e"]].

Lemma wire_integrity_witness :
  let b := base_new (K := unit) stalling_stream default_options in
  exists b', base_run b sample_ops = Some b' /\ is_poisoned b' = true /\
    forall s', stream b' = Some s' ->
      exists items tail, wire s' = wire stalling_stream ++ concat (item_bytes <$> items) ++ tail /\
        truncated tail /\ (tail = [] \/ is_poisoned b' = true).
Proof.
  cbn zeta. destruct (wire_integrity (base_new (K := unit) stalling_stream default_options) stalling_stream sample_ops)
    as (b' & Hrun & Hw).
  - reflexivity.
  - apply base_new_ok. exact I.
  - exists b'. split; [exact Hrun|]. split; [|exact Hw].
    assert (Hp : is_poisoned <$> base_run (base_new (K := unit) stalling_stream default_options) sample_ops = Some true)
      by (vm_compute; reflexivity).
    rewrite Hrun in Hp. cbn in Hp. congruence.
Defined.

(** The poison flag is final.  Once a write has been cancelled, timed out
    or failed, no sequence of operations writes another byte or clears the
    flag, and direct and vectored sends and flushes of pending data report
    [BrokenPipe]; only a reconnection makes the socket usable again. *)
Theorem poisoned_never_writes {S K : Type} `{WireStream S} `{!Aead K} (b : SocketBase S K) (ops : list base_op) :
  is_poisoned b = true ->
  (forall b', base_run b ops = Some b' ->
     is_poisoned b' = true /\
     forall s', stream b' = Some s' -> exists s, stream b = Some s /\ wire s' = wire s) /\
  write_from_buf b = (Returned (Err BrokenPipe), b) /\
  (send_buffer b <> [] -> flush_send_buffer b = (Returned (Err BrokenPipe), b)) /\
  (forall msg, msg <> [] -> send_vectored b msg = (Returned (Err BrokenPipe), b)) /\
  (forall s c, is_poisoned (reconnected b s c) = false).
Proof.
  intros Hp. split; [intros b'; by apply base_run_frozen|].
  split; [unfold write_from_buf; by rewrite Hp|].
  assert (Hfl : send_buffer b <> [] -> flush_send_buffer b = (Returned (Err BrokenPipe), b)).
  { intros Hne. unfold flush_send_buffer. destruct (flush_phase_poisoned b Hp) as (r & -> & Hr). by rewrite (Hr Hne). }
  split; [done|]. split; [|done]. intros msg Hmsg. unfold send_vectored. rewrite bool_decide_eq_false_2 by done.
  case_bool_decide as E; [cbn; by rewrite Hp|]. by rewrite Hfl.
Qed.

Lemma poisoned_never_writes_witness :
  let b := set_poisoned (base_new (K := unit) stalling_stream default_options) true in
  write_from_buf b = (Returned (Err BrokenPipe), b).
Proof.
  cbn zeta.
  apply (poisoned_never_writes (set_poisoned (base_new (K := unit) stalling_stream default_options) true) sample_ops).
  reflexivity.
Defined.

(** ** Healthy streams *)

Section healthy.
Context {S K : Type} `{WireStream S} `{!Aead K}.
Implicit Types b : SocketBase S K.

(** A stream whose writes always complete. *)
Definition reliable : Prop :=
  (forall (s : S) buf, (stream_write_all s buf).1 = Completed (Ok tt)) /\
  (forall (s : S) bufs, (stream_write_vectored_all s bufs).1 = Completed (Ok tt)).

(** A connected socket that can send, with [sent] on the wire and [queued]
    in its buffer. *)
Definition sending b (sent queued : bytes) : Prop :=
  (exists s, stream b = Some s /\ wire s = sent) /\ send_buffer b = queued /\ is_poisoned b = false /\
  curve_cipher b = None /\ is_zero_timeout (send_timeout (options b)) = false.

Lemma flush_sending b sent queued :
  reliable -> sending b sent queued ->
  exists b', flush_send_buffer b = (Returned (Ok tt), b') /\ sending b' (sent ++ queued) [] /\
    options b' = options b /\ (queued <> [] -> buffered_messages b' = 0).
Proof.
  intros [Hrel _] ((s & Hs & Hw) & Hq & Hp & Hc & Ht). unfold flush_send_buffer, flush_phase. rewrite Hq.
  destruct queued as [|x buf]; [exists b; rewrite app_nil_r; repeat split; eauto; done|].
  rewrite Hp, Hs, Ht. destruct (write_all_wire s (x :: buf)) as (k & _ & Hk & Hfull).
  specialize (Hfull (Hrel s _)). pose proof (Hrel s (x :: buf)) as Hc'.
  destruct (stream_write_all s (x :: buf)) as [c s']. cbn in Hc', Hk. subst c k. cbn.
  eexists. split; [done|]. repeat split; try done. eexists. split; [done|]. cbn. by rewrite Hk, Hw.
Qed.

Lemma vectored_sending b sent queued msg :
  reliable -> sending b sent queued -> msg <> [] ->
  exists b', send_vectored b msg = (Returned (Ok tt), b') /\
    sending b' (sent ++ queued ++ encode_multipart msg []) [] /\ options b' = options b.
Proof.
  intros Hrel Hsend Hmsg. unfold send_vectored. rewrite bool_decide_eq_false_2 by done.
  set (pre := if bool_decide _ then _ else _).
  assert (Hpre : exists b1, pre = (Returned (Ok tt), b1) /\ sending b1 (sent ++ queued) [] /\ options b1 = options b).
  { unfold pre. pose proof Hsend as (_ & Hq & _). case_bool_decide as E.
    - exists b. split; [done|]. split; [|done]. assert (queued = []) as -> by congruence. rewrite app_nil_r.
      by destruct Hsend as (? & ? & ? & ? & ?).
    - destruct (flush_sending b sent queued Hrel Hsend) as (b1 & -> & ? & ? & _). eauto. }
  destruct Hpre as (b1 & -> & ((s & Hs & Hw) & Hq & Hp & Hc & Ht) & Ho). cbn [await_bind].
  rewrite Hp, Ht. cbn zeta. destruct (vectored_iovecs_spec msg 0 (len msg - 1)) as (iov & -> & Hiov); [lia|].
  cbn [stream set_write_buf]. rewrite Hs.
  destruct (write_vectored_wire s iov) as (k & _ & Hk & Hfull). specialize (Hfull (proj2 Hrel s _)).
  pose proof (proj2 Hrel s iov) as Hc'. destruct (stream_write_vectored_all s iov) as [c s']. cbn in Hc', Hk. subst c k.
  cbn. eexists. split; [done|]. repeat split; try done. eexists. split; [done|].
  by rewrite Hk, Hw, Hiov, <- app_assoc, encode_multipart_frames.
Qed.

(** Sends that go through the send buffer. *)
Inductive queued_send := QBuffer (msg : list bytes) | QCoalesced (msg : list bytes) | QVectored (msg : list bytes) | QFlush.

Definition queued_msg (q : queued_send) : list bytes :=
  match q with QBuffer m | QCoalesced m | QVectored m => m | QFlush => [] end.

Definition queued_step b (q : queued_send) : outcome unit * SocketBase S K :=
  match q with
  | QBuffer m => let '(r, b) := encode_message_to_send_buf b m in (Returned r, b)
  | QCoalesced m => send_coalesced b m
  | QVectored m => send_vectored b m
  | QFlush => flush_send_buffer b
  end.

Fixpoint queued_run b (qs : list queued_send) : outcome unit * SocketBase S K :=
  match qs with
  | [] => flush_send_buffer b
  | q :: qs => await! _u, b := queued_step b q in queued_run b qs
  end.

Lemma queued_step_sending b sent queued q :
  reliable -> sending b sent queued ->
  exists b' sent' queued', queued_step b q = (Returned (Ok tt), b') /\ sending b' sent' queued' /\
    options b' = options b /\ sent' ++ queued' = sent ++ queued ++ encode_multipart (queued_msg q) [] /\
    sent `prefix_of` sent'.
Proof.
  intros Hrel Hsend. assert (Hpre : forall k, sent `prefix_of` sent ++ k) by (intros k; by exists k). pose proof Hsend as ((s & Hs & Hw) & Hq & Hp & Hc & Ht).
  assert (Henc : forall m, encode_into b m (send_buffer b) = (Ok tt, None, encode_multipart m queued)).
  { intros m. unfold encode_into. by rewrite Hc, Hq. }
  assert (Happ : forall m, encode_multipart m queued = queued ++ encode_multipart m []).
  { intros m. by rewrite !encode_multipart_frames. }
  destruct q as [m|m|m|]; cbn [queued_step queued_msg].
  - unfold encode_message_to_send_buf. rewrite Henc. eexists _, sent, _. split; [done|]. split; [|split; [done|]].
    + repeat split; eauto.
    + split; [by rewrite Happ|done].
  - unfold send_coalesced. rewrite Henc. cbn zeta. set (b1 := set_cipher _ _).
    assert (Hs1 : sending b1 sent (queued ++ encode_multipart m [])) by (rewrite <- Happ; repeat split; eauto).
    destruct (_ <=? _).
    + destruct (flush_sending b1 _ _ Hrel Hs1) as (b2 & -> & Hs2 & Ho & _). eexists _, _, _. split; [done|]. split; [done|].
      split; [done|]. split; [by rewrite app_nil_r|apply Hpre].
    + eexists _, _, _. split; [done|]. split; [exact Hs1|]. done.
  - destruct m as [|f m].
    + eexists b, sent, queued. unfold send_vectored. cbn. split; [done|]. split; [done|]. split; [done|]. split; [by rewrite app_nil_r|done].
    + destruct (vectored_sending b sent queued (f :: m) Hrel Hsend) as (b' & -> & Hs' & Ho); [done|].
      eexists _, _, _. split; [done|]. split; [done|]. split; [done|]. split; [by rewrite app_nil_r|apply Hpre].
  - destruct (flush_sending b sent queued Hrel Hsend) as (b' & -> & Hs' & Ho & _).
    eexists _, _, _. split; [done|]. split; [done|]. split; [done|]. split; [cbn; by rewrite !app_nil_r|apply Hpre].
Qed.

Lemma queued_run_sending qs b sent queued :
  reliable -> sending b sent queued ->
  exists b', queued_run b qs = (Returned (Ok tt), b') /\
    sending b' (sent ++ queued ++ concat ((λ q, encode_multipart (queued_msg q) []) <$> qs)) [].
Proof.
  intros Hrel. revert b sent queued. induction qs as [|q qs IH]; intros b sent queued Hsend; cbn [queued_run].
  - destruct (flush_sending b sent queued Hrel Hsend) as (b' & -> & Hs' & _). cbn. rewrite app_nil_r. eauto.
  - destruct (queued_step_sending b sent queued q Hrel Hsend) as (b1 & sent1 & queued1 & -> & Hs1 & _ & Happ & _).
    cbn [await_bind]. destruct (IH b1 sent1 queued1 Hs1) as (b' & Hrun & Hs'). exists b'. split; [exact Hrun|].
    revert Hs'. rewrite (app_assoc sent1), Happ. cbn [fmap list_fmap concat]. by rewrite <- !app_assoc.
Qed.
End healthy.

(** No loss, duplication or reordering on a healthy connection.  Messages
    sent through the buffer in any mix of batched, coalesced and vectored sends
    with flushes in between, and a final flush, are all on the wire afterwards,
    each encoded once, in the order they were sent, with nothing left behind. *)
Theorem buffered_sends_fifo {S K : Type} `{WireStream S} `{!Aead K} (b : SocketBase S K)
    (sent : bytes) (qs : list queued_send) :
  reliable (S := S) -> sending b sent [] ->
  exists b' s', queued_run b qs = (Returned (Ok tt), b') /\ stream b' = Some s' /\ send_buffer b' = [] /\
    wire s' = sent ++ concat ((λ q, encode_multipart (queued_msg q) []) <$> qs).
Proof.
  intros Hrel Hsend. destruct (queued_run_sending qs b sent [] Hrel Hsend) as (b' & Hrun & (s' & Hs' & Hw) & Hq & _).
  exists b', s'. cbn in Hw. done.
Qed.

Lemma buffered_sends_fifo_witness :
  exists b' s', queued_run (base_new (K := unit) (mk_sink []) default_options)
      [QBuffer [ascii_bytes "a"]; QVectored [ascii_bytes "b"; ascii_bytes "c"]; QCoalesced [ascii_bytes "d"]]
    = (Returned (Ok tt), b') /\ stream b' = Some s' /\ send_buffer b' = [] /\
    wire s' = [] ++ concat ((λ q, encode_multipart (queued_msg q) []) <$>
      [QBuffer [ascii_bytes "a"]; QVectored [ascii_bytes "b"; ascii_bytes "c"]; QCoalesced [ascii_bytes "d"]]).
Proof.
  apply (buffered_sends_fifo (base_new (K := unit) (mk_sink []) default_options) []
    [QBuffer [ascii_bytes "a"]; QVectored [ascii_bytes "b"; ascii_bytes "c"]; QCoalesced [ascii_bytes "d"]]).
  - split; reflexivity.
  - repeat split; try reflexivity. exists (mk_sink []). split; reflexivity.
Defined.
