(* ===== verification/Recv.v ===== *)
(** * Receiving messages

    The receive loop of the point-to-point sockets (the bodies of
    [DealerSocket::recv], [ReqSocket::recv] and [RepSocket::recv] in
    monocoque-zmtp/src/{dealer,req,rep}.rs, which share it line for line), and
    what the base does for it: heartbeats, frame processing, reconnection. *)

From S2P Require Import Prelude.
From S2P Require Import SegBuffer.
From S2P Require Import Codec.
From S2P Require Import Options.
From S2P Require Import Address.
From S2P Require Import Ready.
From S2P Require Import CurveMessage.
From S2P Require Import Stream.
From S2P Require Import Base.
From S2P Require Import BaseWire.

Section recv.
Context {S K : Type} `{AsyncStream S} `{Aead K}.

(** [clock i] is the [i]-th reading of [Instant::now()]. *)
Context (clock : nat -> Z).

(** The loop: frames are collected in [frames] until one without MORE; the
    buffers are drained first, then more bytes are read.  [None] is exhausted
    fuel: the loop of the code is unbounded. *)
Fixpoint recv_loop (fuel i : nat) (b : SocketBase S K) (frames : list bytes)
    : option (outcome (option (list bytes)) * SocketBase S K * list bytes) :=
  match fuel with
  | O => None
  | Datatypes.S fuel =>
      let after_flush i b :=
        match flush_send_buffer b with
        | (Returned (Ok _), b) => recv_loop fuel i b frames
        | (Returned (Err e), b) => Some (Returned (Err e), b, frames)
        | (Pending, b) => Some (Pending, b, frames)
        | (Panicked, b) => Some (Panicked, b, frames)
        end in
      match process_frame b with
      | None => Some (Panicked, b, frames)
      | Some (Err e, b) => Some (Returned (Err e), b, frames)
      | Some (Ok CommandHandled, b) =>
          if bool_decide (send_buffer b = []) then recv_loop fuel i b frames else after_flush i b
      | Some (Ok (FData more payload), b) =>
          let frames := frames ++ [payload] in
          if (more : bool) then recv_loop fuel i b frames
          else Some (Returned (Ok (Some frames)), b, [])
      | Some (Ok FNeedMore, b) =>
          match read_raw b (clock i) with
          | (Returned (Err e), b) => Some (Returned (Err e), b, frames)
          | (Pending, b) => Some (Pending, b, frames)
          | (Panicked, b) => Some (Panicked, b, frames)
          | (Returned (Ok n), b) =>
              if n =? 0 then Some (Returned (Ok None), b, frames)
              else
                match check_heartbeat b (clock (Datatypes.S i)) with
                | None => Some (Panicked, b, frames)
                | Some (Err e, b) => Some (Returned (Err e), b, frames)
                | Some (Ok true, b) => after_flush (Datatypes.S (Datatypes.S i)) b
                | Some (Ok false, b) => recv_loop fuel (Datatypes.S (Datatypes.S i)) b frames
                end
          end
      end
  end.

(** What every step of the loop keeps, the loop keeps.  A heartbeat check
    always follows a read that returned data. *)
Lemma recv_loop_keeps (I : SocketBase S K -> Prop) :
  (forall b r b', I b -> process_frame b = Some (r, b') -> I b') ->
  (forall b, I b -> I (flush_send_buffer b).2) ->
  (forall b now, I b -> I (read_raw b now).2) ->
  (forall i b n b1 r b2, I b -> n <> 0 -> read_raw b (clock i) = (Returned (Ok n), b1) ->
     check_heartbeat b1 (clock (Datatypes.S i)) = Some (r, b2) -> I b2) ->
  forall fuel i b frames o b' fs, I b -> recv_loop fuel i b frames = Some (o, b', fs) -> I b'.
Proof.
  intros Hproc Hflush Hread Hcheck fuel. induction fuel as [|fuel IH]; intros i b frames o b' fs Hb; [done|]. cbn [recv_loop].
  assert (Hafter : forall i b1 frames, I b1 ->
    (match flush_send_buffer b1 with
     | (Returned (Ok _), b) => recv_loop fuel i b frames
     | (Returned (Err e), b) => Some (Returned (Err e), b, frames)
     | (Pending, b) => Some (Pending, b, frames)
     | (Panicked, b) => Some (Panicked, b, frames)
     end) = Some (o, b', fs) -> I b').
  { intros j b1 fr Hb1. apply Hflush in Hb1.
    destruct (flush_send_buffer b1) as [[[[]|e]| |] b2]; cbn in Hb1; [|by intros [= _ <- _]..]. by apply IH. }
  destruct (process_frame b) as [[r b1]|] eqn:Ep; [|by intros [= _ <- _]]. apply Hproc in Ep; [|done].
  destruct r as [[m p| |]|e]; [| | |by intros [= _ <- _]].
  - destruct m; [by apply IH|by intros [= _ <- _]].
  - case_bool_decide; [by apply IH|by apply Hafter].
  - pose proof (Hread b1 (clock i) Ep) as Hr. destruct (read_raw b1 (clock i)) as [[[n|e]| |] b2] eqn:Er; cbn in Hr;
      [|by intros [= _ <- _]..].
    destruct (Z.eqb_spec n 0) as [|Hn]; [by intros [= _ <- _]|].
    destruct (check_heartbeat b2 _) as [[[[]|e] b3]|] eqn:Eh; [..|by intros [= _ <- _]];
      apply (Hcheck i b1 n b2 _ b3 Ep Hn Er) in Eh; [by apply Hafter|by apply IH|by intros [= _ <- _]].
Qed.
End recv.

(** ** Streams that deliver chunks *)

(** The bytes to come, in the pieces successive reads return; a read waits when
    there is none. *)
Class ChunkStream (S : Type) `{AsyncStream S} := {
  incoming : S -> list bytes;
  read_chunk s n :
    match incoming s with
    | [] => (stream_read s n).1 = Stalled /\ incoming (stream_read s n).2 = []
    | c :: cs => (stream_read s n).1 = Completed (Ok c) /\ incoming (stream_read s n).2 = cs
    end;
}.

#[export] Instance script_chunks : ChunkStream ScriptStream.
Proof.
  refine {| incoming := sc_input |}. intros s n. cbn. unfold script_read. by destruct (sc_input s) eqn:E; cbn; rewrite ?E.
Defined.

Section messages.
Context {S K : Type} `{ChunkStream S} `{!Aead K} (clock : nat -> Z).
Implicit Types b : SocketBase S K.

(** A connected plaintext socket without heartbeat, whose undecoded bytes
    followed by those still to be read are [bs]. *)
Record receiving b (bs : bytes) : Prop := {
  rc_decoder : decoder_wf (decoder b);
  rc_recv : segbuf_wf (recv_buf b);
  rc_plain : curve_cipher b = None;
  rc_heartbeat : heartbeat_ivl (options b) = None;
  rc_timeout : is_zero_timeout (recv_timeout (options b)) = false;
  rc_stream : exists s, stream b = Some s /\ Forall (λ c, c <> []) (incoming s) /\
    logical (decoder b) (recv_buf b) ++ concat (incoming s) = bs;
}.

Definition chunks_left b : nat := from_option (λ s, length (incoming s)) 0%nat (stream b).

(** Reading leaves the sending side alone: of the stream, whatever reads
    preserve. *)
Definition quiet b b' : Prop :=
  is_poisoned b' = is_poisoned b /\ options b' = options b /\
  forall P : S -> Prop, (forall s n, P s -> P (stream_read s n).2) ->
    forall s, stream b = Some s -> P s -> exists s', stream b' = Some s' /\ P s'.

#[export] Instance quiet_preorder : PreOrder quiet.
Proof.
  split; [intros b; split_and!; eauto|]. intros b1 b2 b3 (Hp & Ho & Hs) (Hp' & Ho' & Hs').
  split_and!; [congruence|congruence|]. intros P HP s E Hs0. destruct (Hs P HP s E Hs0) as (s' & E' & Hs1). eauto.
Qed.

Lemma quiet_same_stream b b' :
  is_poisoned b' = is_poisoned b -> options b' = options b -> stream b' = stream b -> quiet b b'.
Proof. intros Hp Ho Hs. split_and!; [done..|]. intros P HP s E. rewrite Hs. eauto. Qed.

(** A data frame as the decoder returns it. *)
Definition plain_frame (max : Z) (f : ZmtpFrame) : Prop :=
  check_flags (flags f) = None /\ is_command f = false /\
  wire_flags (flags f) (len (payload f)) = flags f /\
  len (payload f) <= max /\ len (payload f) <= 0x7FFFFFFFFFFFFFFF.

Lemma parse_prefix max f rest bs more :
  plain_frame max f -> bs ++ more = encode f ++ rest ->
  (exists rest0, parse_frame max bs = Parsed f rest0 /\ rest0 ++ more = rest) \/
  (parse_frame max bs = NeedMore /\ more <> []).
Proof.
  intros (Hfl & _ & Hw & Hm & Hs) Heq. pose proof (parse_encode max f rest Hfl Hm Hs) as Hfull.
  rewrite Hw in Hfull. pose proof (parse_frame_app max bs more) as Happ. rewrite Heq, Hfull in Happ.
  destruct f as [fl p]. cbn [flags payload] in *. destruct (parse_frame max bs) as [|e|f' r'] eqn:E; [|done|].
  - right. split; [done|]. intros ->. rewrite app_nil_r in Heq. subst bs. congruence.
  - left. injection Happ as <- ->. eauto.
Qed.

(** Processing or reading advances towards the next frame. *)
Lemma process_data b bs f rest :
  receiving b bs -> plain_frame (max_frame_size (decoder b)) f -> bs = encode f ++ rest ->
  (exists b', process_frame b = Some (Ok (FData (more f) (payload f)), b') /\ receiving b' rest /\
     stream b' = stream b /\ send_buffer b' = send_buffer b /\
     max_frame_size (decoder b') = max_frame_size (decoder b) /\ quiet b b') \/
  (exists b', process_frame b = Some (Ok FNeedMore, b') /\ receiving b' bs /\
     stream b' = stream b /\ send_buffer b' = send_buffer b /\
     max_frame_size (decoder b') = max_frame_size (decoder b) /\ quiet b b' /\
     exists s, stream b = Some s /\ incoming s <> []).
Proof.
  intros [Hd Hr Hc Hh Ht (s & Hs & Hne & Hbs)] Hf Heq.
  destruct (decode_ok (decoder b) (recv_buf b) Hd Hr) as (r & d' & src' & Hdec & Hd' & Hr' & Hm & Hpost).
  unfold process_frame. rewrite Hdec. cbn [mbind option_bind].
  assert (Hb1 : forall bs1, logical d' src' ++ concat (incoming s) = bs1 -> receiving (set_decoder b d' src') bs1).
  { intros bs1 H1. split; try done. exists s. by rewrite <- H1. }
  rewrite Heq in Hbs. destruct (parse_prefix _ _ _ _ _ Hf Hbs) as [(rest0 & Hp & Hrest)|[Hp Hmore]]; rewrite Hp in Hpost.
  - destruct Hpost as (-> & _ & Hlog). cbn [zmtp_io]. destruct Hf as (_ & Hcmd & _). rewrite Hcmd. cbn. rewrite Hc.
    rewrite bool_decide_eq_false_2 by (by intros []). left. eexists. split; [done|].
    split; [apply Hb1; by rewrite Hlog|]. split_and!; [done..|by apply quiet_same_stream].
  - destruct Hpost as (-> & Hlog). cbn [zmtp_io]. right. eexists. split; [done|]. split; [apply Hb1; by rewrite Hlog, Hbs, Heq|].
    split_and!; [done..|by apply quiet_same_stream|]. exists s. split; [done|]. intros E. by rewrite E in Hmore.
Qed.

Lemma read_chunk_step b bs now :
  receiving b bs -> (0 < chunks_left b)%nat ->
  exists n b', read_raw b now = (Returned (Ok n), b') /\ n <> 0 /\ receiving b' bs /\
    chunks_left b = Datatypes.S (chunks_left b') /\ decoder b' = decoder b /\ send_buffer b' = send_buffer b /\ quiet b b'.
Proof.
  intros [Hd Hr Hc Hh Ht (s & Hs & Hne & Hbs)] Hpos. unfold read_raw, chunks_left in *. rewrite Hs, Ht in *. cbn in Hpos.
  pose proof (read_chunk s (effective_read_buffer_size (options b))) as Hread.
  destruct (incoming s) as [|c cs] eqn:Ei; [cbn in Hpos; lia|]. destruct Hread as [Hc1 Hs1].
  destruct (stream_read s _) as [c1 s1] eqn:Er. cbn in Hc1, Hs1. subst c1. cbn [with_timer].
  apply list.Forall_cons in Hne as [Hc0 Hne]. destruct c as [|x c]; [done|].
  eexists _, _. split; [done|]. unfold note_recv. cbn [options set_decoder set_stream]. rewrite Hh. cbn.
  split; [rewrite len_cons; pose proof (len_nonneg c); lia|]. rewrite Hs1. split_and!; [|by rewrite Ei|done|done|].
  2:{ split_and!; [done..|]. intros P HP s0 E Hs0. cbn. exists s1. split; [done|]. rewrite Hs in E. injection E as <-.
      specialize (HP _ (effective_read_buffer_size (options b)) Hs0). by rewrite Er in HP. }
  change (mk_segbuf _ _) with (push (recv_buf b) (x :: c)).
  split; cbn [decoder recv_buf curve_cipher options stream set_decoder set_stream]; try done; [by apply push_wf|].
  exists s1. rewrite Hs1. split_and!; [done|done|].
  rewrite <- Hbs. cbn [concat]. unfold logical. rewrite flat_push.
  destruct (pending_flags (decoder b)); by rewrite <- !app_assoc.
Qed.

(** The frames of a message after the first ones: MORE on all but the last. *)
Inductive message_tail : list ZmtpFrame -> Prop :=
| tail_last f : more f = false -> message_tail [f]
| tail_more f fs : more f = true -> message_tail fs -> message_tail (f :: fs).

Lemma recv_loop_message fuel i b frames fs rest :
  message_tail fs -> Forall (plain_frame (max_frame_size (decoder b))) fs ->
  receiving b (concat (encode <$> fs) ++ rest) -> (2 * chunks_left b + length fs < fuel)%nat ->
  exists b', recv_loop clock fuel i b frames = Some (Returned (Ok (Some (frames ++ (payload <$> fs)))), b', []) /\
    receiving b' rest /\ (chunks_left b' <= chunks_left b)%nat /\
    max_frame_size (decoder b') = max_frame_size (decoder b) /\ send_buffer b' = send_buffer b /\ quiet b b'.
Proof.
  revert i b frames fs. induction fuel as [|fuel IH]; intros i b frames fs Htail Hfs Hrc Hfuel; [lia|].
  destruct fs as [|f fs]; [inversion Htail|]. apply list.Forall_cons in Hfs as [Hf Hfs].
  cbn [fmap list_fmap concat] in Hrc. rewrite <- app_assoc in Hrc. cbn [recv_loop].
  destruct (process_data b _ f _ Hrc Hf eq_refl) as [(b1 & -> & Hrc1 & Hs1 & Hq1 & Hm1 & Hqu1)|(b1 & -> & Hrc1 & Hs1 & Hq1 & Hm1 & Hqu1 & s & Hs & Hi)].
  - assert (Hcl : chunks_left b1 = chunks_left b) by (unfold chunks_left; by rewrite Hs1).
    inversion Htail as [f0 Hlast|f0 fs0 Hmore Htail']; subst.
    + rewrite Hlast. eexists. split; [done|]. cbn in Hrc1. split_and!; [done|lia|done..].
    + rewrite Hmore. cbn [length] in Hfuel. rewrite <- Hm1 in Hfs.
      destruct (IH i b1 (frames ++ [payload f]) fs Htail' Hfs Hrc1) as (b2 & -> & Hrc2 & Hcl2 & Hm2 & Hq2 & Hqu2); [lia|].
      eexists. split; [by rewrite <- app_assoc|]. split_and!; [done|lia|congruence|congruence|by transitivity b1].
  - assert (Hcl : chunks_left b1 = chunks_left b) by (unfold chunks_left; by rewrite Hs1).
    destruct (read_chunk_step b1 _ (clock i) Hrc1) as (n & b2 & -> & Hn & Hrc2 & Hcl2 & Hd2 & Hq2 & Hqu2).
    { unfold chunks_left. rewrite Hs1, Hs. cbn. destruct (incoming s); [done|cbn; lia]. }
    rewrite (proj2 (Z.eqb_neq _ _)) by done.
    assert (Hhb : check_heartbeat b2 (clock (Datatypes.S i)) = Some (Ok false, b2)).
    { unfold check_heartbeat. by rewrite (rc_heartbeat _ _ Hrc2). }
    rewrite Hhb. rewrite <- Hm1, <- Hd2 in Hf, Hfs.
    destruct (IH (Datatypes.S (Datatypes.S i)) b2 frames (f :: fs) Htail) as (b3 & Hrun & Hrc3 & Hcl3 & Hm3 & Hq3 & Hqu3).
    + by constructor.
    + cbn [fmap list_fmap concat]. by rewrite <- app_assoc.
    + lia.
    + exists b3. split; [exact Hrun|]. split_and!; [done|lia|congruence|congruence|]. by transitivity b1; [|transitivity b2].
Qed.
(** Nothing to decode and nothing to read. *)
Lemma process_idle b :
  receiving b [] ->
  exists b', process_frame b = Some (Ok FNeedMore, b') /\ receiving b' [] /\ chunks_left b = 0%nat /\
    chunks_left b' = 0%nat /\ max_frame_size (decoder b') = max_frame_size (decoder b) /\ send_buffer b' = send_buffer b.
Proof.
  intros [Hd Hr Hc Hh Ht (s & Hs & Hne & Hbs)]. apply app_nil in Hbs as [Hlog Hin].
  assert (Hi : incoming s = []).
  { destruct (incoming s) as [|c cs]; [done|]. apply list.Forall_cons in Hne as [Hc0 _].
    cbn in Hin. by apply app_nil in Hin as [-> _]. }
  destruct (decode_ok (decoder b) (recv_buf b) Hd Hr) as (r & d' & src' & Hdec & Hd' & Hr' & Hm & Hpost).
  unfold process_frame. rewrite Hdec. cbn [mbind option_bind]. rewrite Hlog in Hpost. cbn [parse_frame] in Hpost.
  destruct Hpost as [-> Hlog']. cbn [zmtp_io]. eexists. split; [done|].
  assert (Hcl : forall b2, stream b2 = Some s -> chunks_left b2 = 0%nat).
  { intros b2 E. unfold chunks_left. rewrite E. cbn. by rewrite Hi. }
  split_and!; [|by apply Hcl..|done|done].
  split; try done. exists s. split_and!; [done|done|]. cbn [decoder recv_buf set_decoder]. by rewrite Hlog', Hi.
Qed.

(** A read with nothing to come waits, or its timer fires; what is to be sent
    is left alone. *)
Definition idle_outcome {A} b : outcome A :=
  match recv_timeout (options b) with Some _ => Returned (Err TimedOut) | None => Pending end.

Lemma idle_read_exact b t :
  receiving b [] ->
  exists b1 b', process_frame b = Some (Ok FNeedMore, b1) /\ read_raw b1 t = (idle_outcome b, b') /\
    receiving b' [] /\ chunks_left b' = 0%nat /\
    max_frame_size (decoder b') = max_frame_size (decoder b) /\ send_buffer b' = send_buffer b /\ quiet b b'.
Proof.
  intros Hrc. destruct (process_idle _ Hrc) as (b1 & E1 & Hrc1 & _ & Hcl & Hm1 & Hq1). exists b1.
  assert (Hqu : quiet b b1).
  { revert E1. unfold process_frame. destruct (decode (decoder b) (recv_buf b)) as [[[r d] src]|]; [|done].
    cbn [mbind option_bind]. destruct (zmtp_io r) as [[f|]|e]; [|by intros [= <-]; apply quiet_same_stream|done].
    repeat case_match; done. }
  destruct Hrc1 as [Hd Hr Hc Hh Ht (s & Hs & Hne & Hbs)]. unfold read_raw. rewrite Hs, Ht.
  assert (Hi : incoming s = []) by (unfold chunks_left in Hcl; rewrite Hs in Hcl; by apply nil_length_inv).
  pose proof (read_chunk s (effective_read_buffer_size (options b1))) as Hread. rewrite Hi in Hread, Hbs.
  destruct (stream_read s _) as [c s1] eqn:Es. cbn [fst snd] in Hread. destruct Hread as [-> Hi1]. cbn [with_timer].
  assert (Hp : receiving (set_stream b1 (Some s1)) []).
  { split; try done. exists s1. by rewrite Hi1. }
  assert (Hqu' : quiet b (set_stream b1 (Some s1))).
  { etrans; [exact Hqu|]. split_and!; [done|done|]. intros P HP s0 E0 H0'. rewrite Hs in E0. injection E0 as <-.
    exists s1. split; [done|]. specialize (HP s (effective_read_buffer_size (options b1)) H0'). by rewrite Es in HP. }
  assert (Hc0 : chunks_left (set_stream b1 (Some s1)) = 0%nat) by (unfold chunks_left; cbn; by rewrite Hi1).
  assert (Ho : options b1 = options b) by (by destruct Hqu as (_ & -> & _)).
  unfold idle_outcome. rewrite <- Ho. cbn [set_stream options]. destruct (recv_timeout (options b1)); eexists; split_and!; eauto.
Qed.

Lemma idle_read b t :
  receiving b [] ->
  exists b1 o b', process_frame b = Some (Ok FNeedMore, b1) /\ read_raw b1 t = (o, b') /\
    (o = Pending \/ o = Returned (Err TimedOut)) /\ receiving b' [] /\ chunks_left b' = 0%nat /\
    max_frame_size (decoder b') = max_frame_size (decoder b) /\ send_buffer b' = send_buffer b /\ quiet b b'.
Proof.
  intros Hrc. destruct (idle_read_exact b t Hrc) as (b1 & b' & E1 & E2 & Hpost). exists b1, (idle_outcome b), b'.
  split_and!; [done|done| |apply Hpost..]. unfold idle_outcome. destruct (recv_timeout (options b)); auto.
Qed.

(** Without a timer the loop waits at the end of its input. *)
Lemma recv_loop_waits fuel i b frames :
  receiving b [] -> (0 < fuel)%nat -> recv_timeout (options b) = None ->
  exists b', recv_loop clock fuel i b frames = Some (Pending, b', frames) /\
    receiving b' [] /\ chunks_left b' = 0%nat /\ max_frame_size (decoder b') = max_frame_size (decoder b) /\
    send_buffer b' = send_buffer b /\ quiet b b'.
Proof.
  intros Hrc Hfuel Ht. destruct fuel as [|fuel]; [lia|]. cbn [recv_loop].
  destruct (idle_read_exact _ (clock i) Hrc) as (b1 & b' & -> & -> & Hpost). unfold idle_outcome. rewrite Ht. by exists b'.
Qed.

(** The loop at the end of its input. *)
Lemma recv_loop_idle fuel i b frames :
  receiving b [] -> (0 < fuel)%nat ->
  exists o b', recv_loop clock fuel i b frames = Some (o, b', frames) /\ (o = Pending \/ o = Returned (Err TimedOut)) /\
    receiving b' [] /\ chunks_left b' = 0%nat /\ max_frame_size (decoder b') = max_frame_size (decoder b) /\
    send_buffer b' = send_buffer b /\ quiet b b'.
Proof.
  intros Hrc Hfuel. destruct fuel as [|fuel]; [lia|]. cbn [recv_loop].
  destruct (idle_read _ (clock i) Hrc) as (b1 & o & b' & -> & -> & Ho & Hpost). destruct Ho as [->| ->];
    eexists _, b'; (split; [done|]); eauto.
Qed.

(** A message that stops in the middle: the frames are collected, then the loop
    waits. *)
Lemma recv_loop_partial fuel i b frames fs :
  Forall (λ f, more f = true) fs -> Forall (plain_frame (max_frame_size (decoder b))) fs ->
  receiving b (concat (encode <$> fs)) -> (2 * chunks_left b + length fs < fuel)%nat ->
  exists o b', recv_loop clock fuel i b frames = Some (o, b', frames ++ (payload <$> fs)) /\
    (o = Pending \/ o = Returned (Err TimedOut)) /\ receiving b' [].
Proof.
  revert i b frames fs. induction fuel as [|fuel IH]; intros i b frames fs Hmore Hfs Hrc Hfuel; [lia|].
  destruct fs as [|f fs].
  { destruct (recv_loop_idle (Datatypes.S fuel) i b frames Hrc) as (o & b' & E & Ho & Hrc' & _); [lia|].
    exists o, b'. by rewrite app_nil_r. }
  apply list.Forall_cons in Hfs as [Hf Hfs]. apply list.Forall_cons in Hmore as [Hm Hmore].
  cbn [fmap list_fmap concat] in Hrc. cbn [recv_loop].
  destruct (process_data b _ f _ Hrc Hf eq_refl) as [(b1 & -> & Hrc1 & Hs1 & Hq1 & Hm1 & Hqu1)|(b1 & -> & Hrc1 & Hs1 & Hq1 & Hm1 & Hqu1 & s & Hs & Hi)].
  - assert (Hcl : chunks_left b1 = chunks_left b) by (unfold chunks_left; by rewrite Hs1).
    rewrite Hm. cbn [length] in Hfuel. rewrite <- Hm1 in Hfs.
    destruct (IH i b1 (frames ++ [payload f]) fs Hmore Hfs Hrc1) as (o & b2 & -> & Ho & Hrc2); [lia|].
    eexists _, _. split; [by rewrite <- app_assoc|]. done.
  - assert (Hcl : chunks_left b1 = chunks_left b) by (unfold chunks_left; by rewrite Hs1).
    destruct (read_chunk_step b1 _ (clock i) Hrc1) as (n & b2 & -> & Hn & Hrc2 & Hcl2 & Hd2 & Hq2 & Hqu2).
    { unfold chunks_left. rewrite Hs1, Hs. cbn. destruct (incoming s); [done|cbn; lia]. }
    rewrite (proj2 (Z.eqb_neq _ _)) by done.
    assert (Hhb : check_heartbeat b2 (clock (Datatypes.S i)) = Some (Ok false, b2)).
    { unfold check_heartbeat. by rewrite (rc_heartbeat _ _ Hrc2). }
    rewrite Hhb. rewrite <- Hm1, <- Hd2 in Hf, Hfs.
    apply (IH (Datatypes.S (Datatypes.S i)) b2 frames (f :: fs)); [by constructor|by constructor|done|lia].
Qed.
End messages.

Lemma message_frames_tail msg : msg <> [] -> message_tail (message_frames msg).
Proof.
  induction msg as [|part msg IH]; intros Hne; [done|]. destruct msg as [|part' msg].
  - apply tail_last. apply frame_data_flags.
  - apply tail_more; [apply frame_data_flags|]. by apply IH.
Qed.

Lemma message_frames_payload msg : payload <$> message_frames msg = msg.
Proof.
  induction msg as [|part [|part' msg] IH]; [done..|].
  change (message_frames (part :: part' :: msg)) with (frame_data part true :: message_frames (part' :: msg)).
  by rewrite fmap_cons, IH.
Qed.

Lemma message_frames_plain max msg :
  Forall (λ part, len part <= max /\ len part <= 0x7FFFFFFFFFFFFFFF) msg -> Forall (plain_frame max) (message_frames msg).
Proof.
  induction 1 as [|part msg [H1 H2] Hall IH]; [constructor|].
  assert (Hp : forall m, plain_frame max (frame_data part m)).
  { intros m. destruct (frame_data_flags part m) as (Hc & Hw & _ & Hcmd). by split_and!. }
  destruct msg; (constructor; [apply Hp|]); [constructor|exact IH].
Qed.

Section receive_all.
Context {S K : Type} `{ChunkStream S} `{!Aead K} (clock : nat -> Z).

(** [n] successive calls of [recv], each from an empty [frames]. *)
Fixpoint recv_all (fuel n : nat) (b : SocketBase S K) : option (list (list bytes) * SocketBase S K) :=
  match n with
  | O => Some ([], b)
  | Datatypes.S n =>
      match recv_loop clock fuel 0 b [] with
      | Some (Returned (Ok (Some m)), b, _) => '(ms, b) ← recv_all fuel n b; Some (m :: ms, b)
      | _ => None
      end
  end.

(** One call of [recv] on a socket whose next bytes are a message. *)
Lemma recv_one_message fuel m b rest :
  m <> [] -> Forall (λ part, len part <= max_frame_size (decoder b) /\ len part <= 0x7FFFFFFFFFFFFFFF) m ->
  receiving b (encode_multipart m [] ++ rest) -> (2 * chunks_left b + length m < fuel)%nat ->
  exists b', recv_loop clock fuel 0 b [] = Some (Returned (Ok (Some m)), b', []) /\ receiving b' rest /\
    (chunks_left b' <= chunks_left b)%nat /\ max_frame_size (decoder b') = max_frame_size (decoder b) /\
    send_buffer b' = send_buffer b /\ quiet b b'.
Proof.
  intros Hne Hm Hrc Hf. rewrite encode_multipart_frames in Hrc. cbn [app] in Hrc.
  assert (Hlen : length (message_frames m) = length m).
  { rewrite <- (message_frames_payload m) at 2. by rewrite length_fmap. }
  destruct (recv_loop_message clock fuel 0 b [] (message_frames m) rest (message_frames_tail m Hne)
    (message_frames_plain _ m Hm) Hrc) as (b1 & -> & Hpost); [lia|].
  cbn [app]. rewrite message_frames_payload. eauto.
Qed.

Lemma recv_all_messages fuel msgs b :
  Forall (λ m, m <> [] /\ Forall (λ part, len part <= max_frame_size (decoder b) /\ len part <= 0x7FFFFFFFFFFFFFFF) m) msgs ->
  receiving b (concat ((λ m, encode_multipart m []) <$> msgs)) ->
  Forall (λ m, 2 * chunks_left b + length m < fuel)%nat msgs ->
  exists b', recv_all fuel (length msgs) b = Some (msgs, b') /\ receiving b' [].
Proof.
  intros Hall. revert b Hall. induction msgs as [|m msgs IH]; intros b Hall Hrc Hfuel; cbn [recv_all length]; [eauto|].
  apply list.Forall_cons in Hall as [[Hne Hm] Hall]. apply list.Forall_cons in Hfuel as [Hf Hfuel].
  destruct (recv_one_message fuel m b _ Hne Hm Hrc Hf) as (b1 & -> & Hrc1 & Hcl & Hmax & _).
  rewrite <- Hmax in Hall. destruct (IH b1 Hall Hrc1) as (b2 & -> & Hrc2); [|cbn; eauto].
  eapply list.Forall_impl; [exact Hfuel|]. cbn. lia.
Qed.
End receive_all.

(** Receiving.  Messages sent by a peer through [encode_multipart] and
    delivered in any pieces (several messages in one read, one message over
    many reads, frames cut anywhere) are returned by successive [recv] calls
    whole, in order, with their parts, and nothing is left over; each call ends
    after at most two steps per piece and one per part. *)
Theorem recv_returns_messages {S K : Type} `{ChunkStream S} `{!Aead K} (clock : nat -> Z) (fuel : nat)
    (msgs : list (list bytes)) (b : SocketBase S K) :
  Forall (λ m, m <> [] /\ Forall (λ part, len part <= max_frame_size (decoder b) /\ len part <= 0x7FFFFFFFFFFFFFFF) m) msgs ->
  receiving b (concat ((λ m, encode_multipart m []) <$> msgs)) ->
  Forall (λ m, 2 * chunks_left b + length m < fuel)%nat msgs ->
  exists b', recv_all clock fuel (length msgs) b = Some (msgs, b') /\ receiving b' [].
Proof. apply recv_all_messages. Qed.

Definition two_messages : list (list bytes) := [[ascii_bytes "a"; ascii_bytes "bc"]; [ascii_bytes "d"]].

Definition two_messages_wire : bytes := concat ((λ m, encode_multipart m []) <$> two_messages).

Definition chunky_base : SocketBase ScriptStream unit :=
  base_new (mk_script [] [ztake 4 two_messages_wire; zdrop 4 two_messages_wire] []) default_options.

Lemma recv_returns_messages_witness :
  exists b', recv_all (λ _, 0) 10 2 chunky_base = Some (two_messages, b') /\ receiving b' [].
Proof.
  apply (recv_returns_messages (λ _, 0) 10 two_messages chunky_base).
  - repeat constructor; vm_compute; discriminate.
  - split; try reflexivity.
    + vm_compute. split; reflexivity.
    + apply segbuf_new_wf.
    + eexists. split; [reflexivity|]. split; [repeat constructor; vm_compute; discriminate|vm_compute; reflexivity].
  - repeat constructor; vm_compute; lia.
Defined.

(** ** Heartbeats *)

(** Dead-peer detection.  When a peer has been silent for the heartbeat
    interval the next check queues a PING, once: checks while the PONG is
    outstanding queue nothing more; a PONG makes the connection idle again; and
    the first check later than the timeout after an unanswered PING drops the
    connection with [TimedOut]. *)
Theorem heartbeat_detects_dead_peer {S K : Type} `{AsyncStream S} `{Aead K} (b : SocketBase S K)
    (ivl last now1 now2 : Z) :
  heartbeat_ivl (options b) = Some ivl -> awaiting_pong b = false -> last_recv_instant b = Some last ->
  ivl <= now1 - last -> now1 <= now2 ->
  let timeout := default ivl (heartbeat_timeout (options b)) in
  exists b1, check_heartbeat b now1 = Some (Ok true, b1) /\
    send_buffer b1 = send_buffer b ++ ping_of (options b) ivl /\ stream b1 = stream b /\
    (now2 - now1 <= timeout -> check_heartbeat b1 now2 = Some (Ok false, b1)) /\
    (timeout < now2 - now1 -> exists b2, check_heartbeat b1 now2 = Some (Err TimedOut, b2) /\ stream b2 = None /\
       awaiting_pong b2 = false) /\
    awaiting_pong (note_pong_received b1) = false /\ ping_sent_at (note_pong_received b1) = None.
Proof.
  intros Hivl Hw Hlast Hidle Hnow. cbn zeta. set (timeout := default ivl _). unfold check_heartbeat at 1.
  rewrite Hivl, Hw. unfold idle_since. rewrite Hlast. cbn [mbind option_bind]. unfold duration_since.
  destruct (ivl <=? Z.max 0 (now1 - last)) eqn:E; bool_prop; [|lia].
  eexists. split; [done|]. split; [done|]. split; [done|].
  split_and!; [| |done|done].
  - intros Ht. unfold check_heartbeat. cbn [options set_ping set_send_buffer awaiting_pong ping_sent_at]. rewrite Hivl.
    fold timeout. cbn zeta. unfold duration_since. rewrite Z.max_r by lia. by rewrite (proj2 (Z.ltb_ge _ _)) by lia.
  - intros Ht. unfold check_heartbeat. cbn [options set_ping set_send_buffer awaiting_pong ping_sent_at]. rewrite Hivl.
    fold timeout. cbn zeta. unfold duration_since. rewrite Z.max_r by lia. rewrite (proj2 (Z.ltb_lt _ _)) by lia. eauto.
Qed.

Definition heartbeat_options : SocketOptions := with_heartbeat_timeout (with_heartbeat_ivl default_options 100) 300.

Lemma heartbeat_detects_dead_peer_witness :
  let b := set_last_recv (base_new (K := unit) (mk_script [] [] []) heartbeat_options) (Some 1000) in
  exists b1, check_heartbeat b 1100 = Some (Ok true, b1) /\
    exists b2, check_heartbeat b1 1401 = Some (Err TimedOut, b2) /\ stream b2 = None /\ awaiting_pong b2 = false.
Proof.
  cbn zeta. set (b := set_last_recv _ _).
  destruct (heartbeat_detects_dead_peer b 100 1000 1100 1401) as (b1 & H1 & _ & _ & _ & H2 & _);
    [reflexivity..|vm_compute; discriminate|vm_compute; discriminate|].
  exists b1. split; [exact H1|]. apply H2. vm_compute. reflexivity.
Defined.

(** A connection with heartbeats on which no PING has been queued since
    [ping_sent_at] was [p]. *)
Definition no_ping {S K : Type} (ivl : Z) (p : option Z) (b : SocketBase S K) : Prop :=
  heartbeat_ivl (options b) = Some ivl /\ awaiting_pong b = false /\ ping_sent_at b = p.

Section no_ping.
Context {S K : Type} `{AsyncStream S} `{Aead K} (ivl : Z) (p : option Z).
Implicit Types b : SocketBase S K.

Lemma process_frame_no_ping b r b' : no_ping ivl p b -> process_frame b = Some (r, b') -> no_ping ivl p b'.
Proof.
  intros (Hi & Hw & Hp). unfold process_frame. destruct (decode _ _) as [[[r1 d] src]|]; [|done]. cbn [mbind option_bind].
  assert (Hpp : forall f, no_ping ivl p (handle_ping_pong (set_decoder b d src) f)).
  { intros f. unfold handle_ping_pong, note_pong_received. split_and!;
      destruct (is_ping_payload _), (is_pong_payload _); cbn; by rewrite ?Hw. }
  destruct (zmtp_io r1) as [[f|]|]; [|by intros [= _ <-]..]. destruct (is_command f).
  - cbn [curve_cipher set_decoder]. destruct (curve_cipher b) as [c|]; [|by intros [= _ <-]].
    destruct (is_curve_message _); [|by intros [= _ <-]].
    destruct (decrypt_frame c _) as [[[m pl]|e] c']; by intros [= _ <-].
  - case_bool_decide; by intros [= _ <-].
Qed.

Lemma flush_no_ping b : no_ping ivl p b -> no_ping ivl p (flush_send_buffer b).2.
Proof.
  unfold flush_send_buffer, flush_phase. destruct (send_buffer b); [done|]. destruct (is_poisoned b); [done|].
  destruct (stream b) as [s|]; [|done]. destruct (is_zero_timeout _); [done|].
  by destruct (stream_write_all s _) as [[[[]|e]|] s'].
Qed.

Lemma read_raw_no_ping b now : no_ping ivl p b -> no_ping ivl p (read_raw b now).2.
Proof.
  intros (Hi & Hw & Hp). unfold read_raw. destruct (stream b) as [s|]; [|done]. destruct (is_zero_timeout _); [done|].
  destruct (stream_read s _) as [c s']. destruct (with_timer _ c) as [[[|x bs]|e]| |]; cbn [snd]; [done| |done..].
  unfold note_recv. cbn [options set_decoder set_stream]. by rewrite Hi.
Qed.

(** The check that follows a read finds the idle timer just reset. *)
Lemma check_after_read b b1 n now1 now2 :
  no_ping ivl p b -> 0 <= now2 - now1 < ivl -> n <> 0 -> read_raw b now1 = (Returned (Ok n), b1) ->
  check_heartbeat b1 now2 = Some (Ok false, b1).
Proof.
  intros (Hivl & Hw & _) Hnow Hn. unfold read_raw. destruct (stream b) as [s|]; [|done].
  destruct (is_zero_timeout _); [done|]. destruct (stream_read s _) as [c s'].
  destruct (with_timer _ c) as [[[|x bs]|e]| |]; [congruence| |done..]. intros [= _ <-].
  unfold note_recv. cbn [options set_decoder set_stream]. rewrite Hivl.
  unfold check_heartbeat. cbn [options set_last_recv set_decoder set_stream awaiting_pong]. rewrite Hivl, Hw.
  unfold idle_since. cbn [last_recv_instant set_last_recv mbind option_bind]. unfold duration_since.
  by rewrite (proj2 (Z.leb_gt _ _)) by lia.
Qed.
End no_ping.

(** The receive loop does not ping idle connections.  It checks the
    heartbeat only right after a read that returned data, which has just reset
    the idle timer: with a clock that advances by less than the interval
    between two readings, no run of the loop, however long and whatever the
    peer does or fails to do, queues a PING or waits for a PONG. *)
Theorem recv_loop_never_pings {S K : Type} `{AsyncStream S} `{Aead K} (clock : nat -> Z) (ivl : Z)
    (fuel i : nat) (b b' : SocketBase S K) (frames fs : list bytes) (o : outcome (option (list bytes))) :
  heartbeat_ivl (options b) = Some ivl -> awaiting_pong b = false ->
  (forall j, 0 <= clock (Datatypes.S j) - clock j < ivl) ->
  recv_loop clock fuel i b frames = Some (o, b', fs) ->
  awaiting_pong b' = false /\ ping_sent_at b' = ping_sent_at b.
Proof.
  intros Hi Hw Hclock Hrun.
  refine (proj2 (recv_loop_keeps clock (no_ping ivl (ping_sent_at b)) (process_frame_no_ping _ _) (flush_no_ping _ _)
    (read_raw_no_ping _ _) _ fuel i b frames o b' fs _ Hrun)); [|done].
  intros j b0 n b1 r b2 Hb0 Hn Hread Hcheck.
  rewrite (check_after_read ivl (ping_sent_at b) b0 b1 n (clock j) _ Hb0 (Hclock j) Hn Hread) in Hcheck.
  injection Hcheck as _ <-. pose proof (read_raw_no_ping ivl (ping_sent_at b) b0 (clock j) Hb0) as Hb1. by rewrite Hread in Hb1.
Qed.

(** The peer's message comes at time 5000, long after the interval of 100. *)
Lemma recv_loop_never_pings_witness :
  let b := set_last_recv (base_new (K := unit) (mk_script [] [encode (frame_data (ascii_bytes "x") false)] []) heartbeat_options)
             (Some 0) in
  exists o b' fs, recv_loop (λ j, 5000 + Z.of_nat j) 10 0 b [] = Some (o, b', fs) /\
    awaiting_pong b' = false /\ ping_sent_at b' = ping_sent_at b.
Proof.
  cbn zeta. set (b := set_last_recv _ _).
  destruct (recv_loop (λ j, 5000 + Z.of_nat j) 10 0 b []) as [[[o b'] fs]|] eqn:E; [|vm_compute in E; discriminate].
  exists o, b', fs. split; [reflexivity|].
  apply (recv_loop_never_pings (λ j, 5000 + Z.of_nat j) 100 10 0 b b' [] fs o); [reflexivity|reflexivity| |exact E].
  intros j. lia.
Defined.

(** ** Reconnection *)

(** A connector that always yields the given stream. *)
Definition toy_connector (s : ScriptStream) : Connector ScriptStream unit :=
  {| connect_tcp _ := Completed (Ok s); tune_tcp _ _ := Ok tt; client_handshake s _ _ := (Completed (Ok None), s) |}.

(** What a reconnection resets.  A successful [try_reconnect] gives the
    socket a fresh stream with an empty receive buffer and send buffer, clears
    the poison flag, the heartbeat state and the backoff, and installs the
    cipher of the new handshake; the wire of the new stream again carries only
    whole items. *)
Theorem reconnect_resets {S K : Type} `{WireStream S} `{!Aead K} (C : Connector S K) (b b' : SocketBase S K) (t : SocketType) :
  try_reconnect (C := C) b t = (Returned (Ok tt), b') ->
  exists s, stream b' = Some s /\ recv_buf b' = segbuf_new /\ send_buffer b' = [] /\ is_poisoned b' = false /\
    buffered_messages b' = 0 /\ awaiting_pong b' = false /\ ping_sent_at b' = None /\ last_recv_instant b' = None /\
    options b' = options b /\ wire_ok (wire s) b'.
Proof.
  unfold try_reconnect. destruct (endpoint b) as [[addr|p|n]|]; [|done..].
  destruct (connect_tcp addr) as [[s|e]|]; [|done..]. destruct (tune_tcp s _); [|done].
  destruct (client_handshake s t _) as [[[c|e]|] s']; [|done..]. intros [= <-].
  exists s'. split_and!; try done. by apply fresh_wire_ok.
Qed.

(** A socket whose connection was lost in the middle of a frame: the decoder
    has the header of a five-byte frame and two bytes of its body. *)
Definition interrupted : SocketBase ScriptStream unit :=
  set_decoder (set_stream (with_endpoint (mk_script [] [] []) (Tcp (V4 [127; 0; 0; 1] 5555)) default_options) None)
    (mk_decoder (Some (u8 0)) 5 (ascii_bytes "he") default_max_frame_size) segbuf_new.

(** The peer's first message on the new connection. *)
Definition new_peer : ScriptStream := mk_script [] [encode (frame_data (ascii_bytes "world") false)] [].

Lemma reconnect_resets_witness :
  exists b' s, try_reconnect (C := toy_connector new_peer) interrupted Dealer = (Returned (Ok tt), b') /\
    stream b' = Some s /\ recv_buf b' = segbuf_new.
Proof.
  destruct (reconnect_resets (toy_connector new_peer) interrupted
    (try_reconnect (C := toy_connector new_peer) interrupted Dealer).2 Dealer) as (s & H1 & H2 & _).
  - reflexivity.
  - eexists _, s. split; [reflexivity|]. split; [exact H1|exact H2].
Defined.

(** A reconnection in the middle of a frame corrupts the next message.
    [try_reconnect] does not reset the frame decoder: after a connection lost
    inside a frame, the first bytes of the new connection complete the old
    frame, and the application receives a message no peer has sent, instead of
    the message the new peer sent first. *)
Theorem reconnect_keeps_partial_frame :
  exists b', try_reconnect (C := toy_connector new_peer) interrupted Dealer = (Returned (Ok tt), b') /\
    exists b'', recv_loop (λ _, 0) 10 0 b' [] =
      Some (Returned (Ok (Some [ascii_bytes "he" ++ [u8 0; u8 5] ++ ascii_bytes "w"])), b'', []).
Proof.
  eexists. split; [vm_compute; reflexivity|]. eexists. vm_compute. reflexivity.
Qed.

(** ** Closing *)

(** [close] may fail and leave the connection open.  Without a linger
    limit, data still buffered on a poisoned socket, or on one with a zero send
    timeout, makes [close] return an error before the shutdown, and the socket
    is still connected. *)
Theorem close_can_leave_connected {S K : Type} `{AsyncStream S} `{Aead K} (b : SocketBase S K) (s : S) :
  stream b = Some s -> send_buffer b <> [] -> linger (options b) = None ->
  is_poisoned b = true \/ is_zero_timeout (send_timeout (options b)) = true ->
  exists e, close b = (Returned (Err e), b) /\ is_connected b = true.
Proof.
  intros Hs Hb Hl Hbad. unfold close, is_connected. rewrite Hl, Hs.
  rewrite (bool_decide_eq_false_2 (send_buffer b = [])) by done. rewrite bool_decide_eq_true_2 by done. cbn [negb andb].
  unfold flush_send_buffer, flush_phase. rewrite Hs. destruct (send_buffer b); [done|].
  destruct (is_poisoned b); [cbn; eauto|]. destruct Hbad as [?| ->]; [done|]. cbn. eauto.
Qed.

Lemma close_can_leave_connected_witness :
  let b := set_send_buffer (set_poisoned (base_new (K := unit) (mk_script [] [] []) (with_linger default_options None)) true)
             (ascii_bytes "x") in
  exists e, close b = (Returned (Err e), b) /\ is_connected b = true.
Proof.
  cbn zeta. set (b := set_send_buffer _ _).
  apply (close_can_leave_connected b (mk_script [] [] [])); [reflexivity|discriminate|reflexivity|left; reflexivity].
Defined.
