(* ===== verification/Sockets.v ===== *)
(** * DEALER, REQ and REP sockets

    monocoque-zmtp/src/dealer.rs, req.rs and rep.rs on top of the socket base
    and the receive loop: the state machines of the request-reply pattern,
    request correlation, batching under the high-water mark, and the retry
    loops with reconnection. *)

From S2P Require Import Prelude.
From S2P Require Import SegBuffer.
From S2P Require Import Codec.
From S2P Require Import Options.
From S2P Require Import Ready.
From S2P Require Import CurveMessage.
From S2P Require Import Stream.
From S2P Require Import Base.
From S2P Require Import BaseWire.
From S2P Require Import Recv.

(** The errors the retry loops answer with a reconnection. *)
Definition is_connection_error (e : ErrorKind) : bool :=
  match e with
  | ConnectionReset | ConnectionAborted | BrokenPipe | UnexpectedEof => true
  | _ => false
  end.

Section dealer.
Context {S K : Type} `{AsyncStream S} `{Aead K}.

Record DealerSocket := mk_dealer {
  dealer_base : SocketBase S K;
  dealer_frames : list bytes;
}.

(** [with_options] after its handshake, which yields the cipher. *)
Definition dealer_with_options (s : S) (o : SocketOptions) (c : option (CurveMessageCipher K)) : DealerSocket :=
  mk_dealer (set_cipher (base_new s o) c) [].

Definition set_dealer_base (d : DealerSocket) (b : SocketBase S K) : DealerSocket := mk_dealer b (dealer_frames d).

Definition dealer_recv (clock : nat -> Z) (fuel : nat) (d : DealerSocket)
    : option (outcome (option (list bytes)) * DealerSocket) :=
  '(o, b, fs) ← recv_loop clock fuel 0 (dealer_base d) (dealer_frames d);
  Some (o, mk_dealer b fs).

Definition dealer_send (d : DealerSocket) (msg : list bytes) : outcome unit * DealerSocket :=
  let '(o, b) := send_now (dealer_base d) msg in (o, set_dealer_base d b).

Definition dealer_send_buffered (d : DealerSocket) (msg : list bytes) : io_result unit * DealerSocket :=
  if hwm_reached (dealer_base d) then (Err WouldBlock, d)
  else let '(r, b) := encode_message_to_send_buf (dealer_base d) msg in (r, set_dealer_base d b).

Definition dealer_flush (d : DealerSocket) : outcome unit * DealerSocket :=
  let '(o, b) := flush_send_buffer (dealer_base d) in (o, set_dealer_base d b).

(** The loop of [send_batch], which stops at the first error. *)
Fixpoint batch_encode (b : SocketBase S K) (msgs : list (list bytes)) : io_result unit * SocketBase S K :=
  match msgs with
  | [] => (Ok tt, b)
  | m :: msgs =>
      match encode_message_to_send_buf b m with
      | (Ok _, b) => batch_encode b msgs
      | (Err e, b) => (Err e, b)
      end
  end.

Definition dealer_send_batch (d : DealerSocket) (msgs : list (list bytes)) : outcome unit * DealerSocket :=
  let b := dealer_base d in
  if negb (send_hwm (options b) =? 0) &&
     (send_hwm (options b) <? Z.min (buffered_messages b + len msgs) usize_max)
  then (Returned (Err WouldBlock), d)
  else
    match batch_encode b msgs with
    | (Err e, b) => (Returned (Err e), set_dealer_base d b)
    | (Ok _, b) => dealer_flush (set_dealer_base d b)
    end.

(** [close] consumes the socket; a flush that stalls is ended by the shorter
    of the send timeout and the linger window. *)
Definition dealer_close (d : DealerSocket) : outcome unit * DealerSocket :=
  let b := dealer_base d in
  if bool_decide (send_buffer b = []) then (Returned (Ok tt), d)
  else match linger (options b) with
  | Some dur =>
      if dur =? 0 then (Returned (Ok tt), d)
      else match flush_phase b with
      | WDone r b => (Returned r, set_dealer_base d b)
      | WStalled b' =>
          match send_timeout (options b) with
          | Some t => (Returned (if t <=? dur then Err TimedOut else Ok tt), set_dealer_base d b')
          | None => (Returned (Ok tt), set_dealer_base d b')
          end
      end
  | None => dealer_flush d
  end.

(** The retry loops.  [attempts] is the local counter; [None] is exhausted
    fuel. *)
Definition attempts_exhausted (o : SocketOptions) (attempts : Z) : bool :=
  match max_reconnect_attempts o with Some limit => limit <=? attempts | None => false end.

Fixpoint dealer_send_with_reconnect `{C : Connector S K} (fuel : nat) (attempts : Z) (d : DealerSocket) (msg : list bytes)
    : option (outcome unit * DealerSocket) :=
  match fuel with
  | O => None
  | Datatypes.S fuel =>
      let try_send attempts d :=
        match dealer_send d msg with
        | (Returned (Err e), d) =>
            if is_connected (dealer_base d) then Some (Returned (Err e), d)
            else dealer_send_with_reconnect fuel attempts d msg
        | r => Some r
        end in
      if is_connected (dealer_base d) then try_send attempts d
      else if attempts_exhausted (options (dealer_base d)) attempts then Some (Returned (Err NotConnected), d)
      else
        match try_reconnect (dealer_base d) Dealer with
        | (Returned (Ok _), b) => try_send (attempts + 1) (set_dealer_base d b)
        | (Returned (Err e), b) => Some (Returned (Err e), set_dealer_base d b)
        | (Pending, b) => Some (Pending, set_dealer_base d b)
        | (Panicked, b) => Some (Panicked, set_dealer_base d b)
        end
  end.

Fixpoint dealer_recv_with_reconnect `{C : Connector S K} (clock : nat -> Z) (fuel : nat) (attempts : Z) (d : DealerSocket)
    : option (outcome (option (list bytes)) * DealerSocket) :=
  match fuel with
  | O => None
  | Datatypes.S fuel =>
      let try_recv attempts d :=
        '(o, d) ← dealer_recv clock fuel d;
        match o with
        | Returned (Ok None) => dealer_recv_with_reconnect clock fuel attempts d
        | Returned (Err e) =>
            if negb (is_connected (dealer_base d)) || is_connection_error e
            then dealer_recv_with_reconnect clock fuel attempts (set_dealer_base d (set_stream (dealer_base d) None))
            else Some (Returned (Err e), d)
        | o => Some (o, d)
        end in
      if is_connected (dealer_base d) then try_recv attempts d
      else if attempts_exhausted (options (dealer_base d)) attempts then Some (Returned (Err NotConnected), d)
      else
        match try_reconnect (dealer_base d) Dealer with
        | (Returned (Ok _), b) => try_recv (attempts + 1) (set_dealer_base d b)
        | (Returned (Err e), b) => Some (Returned (Err e), set_dealer_base d b)
        | (Pending, b) => Some (Pending, set_dealer_base d b)
        | (Panicked, b) => Some (Panicked, set_dealer_base d b)
        end
  end.
End dealer.

Inductive ReqState := Idle | AwaitingReply.
Inductive RepState := AwaitingRequest | ReadyToReply.

#[export] Instance ReqState_eq_dec : EqDecision ReqState.
Proof. solve_decision. Defined.
#[export] Instance RepState_eq_dec : EqDecision RepState.
Proof. solve_decision. Defined.

Section req.
Context {S K : Type} `{AsyncStream S} `{Aead K}.

Record ReqSocket := mk_req {
  req_base : SocketBase S K;
  req_frames : list bytes;
  req_state : ReqState;
  request_id : Z;
  expected_request_id : option Z;
}.

Definition req_with_options (s : S) (o : SocketOptions) (c : option (CurveMessageCipher K)) : ReqSocket :=
  mk_req (set_cipher (base_new s o) c) [] Idle 0 None.

Definition req_send (r : ReqSocket) (msg : list bytes) : outcome unit * ReqSocket :=
  let o := options (req_base r) in
  if negb (req_relaxed o) && negb (bool_decide (req_state r = Idle)) then (Returned (Err InvalidInput), r)
  else
    let '(frames_to_send, id, expected) :=
      if req_correlate o then
        let id := u32_wrap (request_id r + 1) in (be_bytes 4 id :: msg, id, Some id)
      else (msg, request_id r, expected_request_id r) in
    match send_now (req_base r) frames_to_send with
    | (Returned (Ok _), b) => (Returned (Ok tt), mk_req b (req_frames r) AwaitingReply id expected)
    | (out, b) => (out, mk_req b (req_frames r) (req_state r) id expected)
    end.

(** Validation of a complete reply in correlation mode. *)
Definition req_validate (o : SocketOptions) (expected : option Z) (msg : list bytes) : io_result (list bytes) :=
  if req_correlate o then
    match msg with
    | [] => Err InvalidData
    | id_frame :: rest =>
        if negb (len id_frame =? 4) then Err InvalidData
        else match expected with
        | Some e => if be_val id_frame =? e then Ok rest else Err InvalidData
        | None => Ok rest
        end
    end
  else Ok msg.

Definition req_recv (clock : nat -> Z) (fuel : nat) (r : ReqSocket)
    : option (outcome (option (list bytes)) * ReqSocket) :=
  if negb (bool_decide (req_state r = AwaitingReply)) then Some (Returned (Err InvalidInput), r)
  else
    '(o, b, fs) ← recv_loop clock fuel 0 (req_base r) (req_frames r);
    let keep := mk_req b fs (req_state r) (request_id r) (expected_request_id r) in
    Some match o with
    | Returned (Ok (Some msg)) =>
        match req_validate (options b) (expected_request_id r) msg with
        | Ok msg => (Returned (Ok (Some msg)), mk_req b fs Idle (request_id r) None)
        | Err e => (Returned (Err e), keep)
        end
    | Returned (Ok None) => (Returned (Ok None), mk_req b fs Idle (request_id r) (expected_request_id r))
    | Returned (Err e) => (Returned (Err e), keep)
    | Pending => (Pending, keep)
    | Panicked => (Panicked, keep)
    end.

(** [self.state = Idle; self.expected_request_id = None]. *)
Definition req_reset (r : ReqSocket) (b : SocketBase S K) : ReqSocket :=
  mk_req b (req_frames r) Idle (request_id r) None.

Fixpoint req_recv_with_reconnect `{C : Connector S K} (clock : nat -> Z) (fuel : nat) (attempts : Z) (r : ReqSocket)
    : option (outcome (option (list bytes)) * ReqSocket) :=
  match fuel with
  | O => None
  | Datatypes.S fuel =>
      let try_recv attempts r :=
        '(o, r) ← req_recv clock fuel r;
        match o with
        | Returned (Ok None) => req_recv_with_reconnect clock fuel attempts (req_reset r (req_base r))
        | Returned (Err e) =>
            if negb (is_connected (req_base r)) || is_connection_error e
            then req_recv_with_reconnect clock fuel attempts (req_reset r (set_stream (req_base r) None))
            else Some (Returned (Err e), r)
        | o => Some (o, r)
        end in
      if is_connected (req_base r) then try_recv attempts r
      else if attempts_exhausted (options (req_base r)) attempts then Some (Returned (Err NotConnected), r)
      else
        match try_reconnect (req_base r) Req with
        | (Returned (Ok _), b) => try_recv (attempts + 1) (req_reset r b)
        | (Returned (Err e), b) => Some (Returned (Err e), req_reset r b)
        | (Pending, b) => Some (Pending, req_reset r b)
        | (Panicked, b) => Some (Panicked, req_reset r b)
        end
  end.

Fixpoint req_send_with_reconnect `{C : Connector S K} (fuel : nat) (attempts : Z) (r : ReqSocket) (msg : list bytes)
    : option (outcome unit * ReqSocket) :=
  match fuel with
  | O => None
  | Datatypes.S fuel =>
      let try_send attempts r :=
        match req_send r msg with
        | (Returned (Err e), r) =>
            if is_connected (req_base r) then Some (Returned (Err e), r)
            else req_send_with_reconnect fuel attempts (req_reset r (req_base r)) msg
        | x => Some x
        end in
      if is_connected (req_base r) then try_send attempts r
      else if attempts_exhausted (options (req_base r)) attempts then Some (Returned (Err NotConnected), r)
      else
        match try_reconnect (req_base r) Req with
        | (Returned (Ok _), b) => try_send (attempts + 1) (req_reset r b)
        | (Returned (Err e), b) => Some (Returned (Err e), req_reset r b)
        | (Pending, b) => Some (Pending, req_reset r b)
        | (Panicked, b) => Some (Panicked, req_reset r b)
        end
  end.
End req.

Section rep.
Context {S K : Type} `{AsyncStream S} `{Aead K}.

Record RepSocket := mk_rep {
  rep_base : SocketBase S K;
  rep_frames : list bytes;
  rep_state : RepState;
}.

Definition rep_with_options (s : S) (o : SocketOptions) (c : option (CurveMessageCipher K)) : RepSocket :=
  mk_rep (set_cipher (base_new s o) c) [] AwaitingRequest.

Definition rep_recv (clock : nat -> Z) (fuel : nat) (r : RepSocket)
    : option (outcome (option (list bytes)) * RepSocket) :=
  if negb (bool_decide (rep_state r = AwaitingRequest)) then Some (Returned (Err InvalidInput), r)
  else
    '(o, b, fs) ← recv_loop clock fuel 0 (rep_base r) (rep_frames r);
    Some match o with
    | Returned (Ok (Some msg)) => (Returned (Ok (Some msg)), mk_rep b fs ReadyToReply)
    | o => (o, mk_rep b fs (rep_state r))
    end.

Definition rep_send (r : RepSocket) (msg : list bytes) : outcome unit * RepSocket :=
  if negb (bool_decide (rep_state r = ReadyToReply)) then (Returned (Err InvalidInput), r)
  else match send_now (rep_base r) msg with
  | (Returned (Ok _), b) => (Returned (Ok tt), mk_rep b (rep_frames r) AwaitingRequest)
  | (out, b) => (out, mk_rep b (rep_frames r) (rep_state r))
  end.
End rep.

#[global] Arguments DealerSocket : clear implicits.
#[global] Arguments ReqSocket : clear implicits.
#[global] Arguments RepSocket : clear implicits.

(** ** What the operations keep *)

Section drains.
Context {S K : Type} `{AsyncStream S} `{Aead K}.
Implicit Types b : SocketBase S K.

(** The options are kept; the count of buffered messages is kept or cleared. *)
Definition drains b b' : Prop :=
  options b' = options b /\ (buffered_messages b' = buffered_messages b \/ buffered_messages b' = 0).

#[local] Instance drains_preorder : PreOrder drains.
Proof.
  split; [split; auto|]. intros b1 b2 b3 [H1 H2] [H3 H4]. split; [congruence|].
  destruct H2, H4; first [left; congruence|right; congruence].
Qed.

Lemma flush_drains b : drains b (flush_send_buffer b).2.
Proof.
  unfold flush_send_buffer, flush_phase. destruct (send_buffer b); [reflexivity|]. destruct (is_poisoned b); [reflexivity|].
  destruct (stream b) as [s|]; [|reflexivity]. destruct (is_zero_timeout _); [reflexivity|].
  destruct (stream_write_all s _) as [[[[]|e]|] s']; split; cbn; auto.
Qed.

Lemma send_now_drains b msg : drains b (send_now b msg).2.
Proof.
  unfold send_now, encode_message_to_write_buf. destruct (encode_into b msg []) as [[[[]|e] c] buf]; [|split; auto].
  unfold write_from_buf. cbn [is_poisoned stream options set_cipher set_write_buf]. destruct (is_poisoned b); [split; auto|].
  destruct (stream b) as [s|]; [|split; auto]. destruct (is_zero_timeout _); [split; auto|].
  destruct (stream_write_all s _) as [[[[]|e]|] s']; split; cbn; auto.
Qed.

Lemma process_frame_drains b r b' : process_frame b = Some (r, b') -> drains b b'.
Proof.
  unfold process_frame. destruct (decode _ _) as [[[r1 d] src]|]; [|done]. cbn [mbind option_bind].
  assert (Hpp : forall f, drains b (handle_ping_pong (set_decoder b d src) f)).
  { intros f. unfold handle_ping_pong, note_pong_received.
    destruct (is_ping_payload _), (is_pong_payload _); cbn; destruct (awaiting_pong b); split; cbn; auto. }
  assert (Hset : forall c, drains b (set_cipher (set_decoder b d src) c)) by (split; auto).
  destruct (zmtp_io r1) as [[f|]|]; [|intros [= _ <-]; split; auto..]. destruct (is_command f).
  - cbn [curve_cipher set_decoder]. destruct (curve_cipher b) as [c|]; [|by intros [= _ <-]].
    destruct (is_curve_message _); [|by intros [= _ <-]].
    destruct (decrypt_frame c _) as [[[m p]|e] c']; by intros [= _ <-].
  - case_bool_decide; intros [= _ <-]; split; auto.
Qed.

Lemma read_raw_drains b now : drains b (read_raw b now).2.
Proof.
  unfold read_raw. destruct (stream b) as [s|]; [|reflexivity]. destruct (is_zero_timeout _); [reflexivity|].
  destruct (stream_read s _) as [c s']. destruct (with_timer _ c) as [[[|x bs]|e]| |]; cbn [snd]; [split; cbn; auto| |split; cbn; auto..].
  unfold note_recv. destruct (heartbeat_ivl _); split; cbn; auto.
Qed.

Lemma check_heartbeat_drains b now r b' : check_heartbeat b now = Some (r, b') -> drains b b'.
Proof.
  unfold check_heartbeat. destruct (heartbeat_ivl (options b)) as [ivl|]; [|by intros [= _ <-]].
  destruct (awaiting_pong b).
  - destruct (ping_sent_at b); [cbn zeta; destruct (_ <? _)|]; intros [= _ <-]; split; auto.
  - destruct (idle_since b now ivl); [|done]. cbn. destruct (_ <=? _); intros [= _ <-]; split; cbn; auto.
Qed.

Lemma recv_loop_drains clock fuel i b frames o b' fs :
  recv_loop clock fuel i b frames = Some (o, b', fs) -> drains b b'.
Proof.
  intros Hrun. refine (recv_loop_keeps clock (drains b) _ _ _ _ fuel i b frames o b' fs _ Hrun); [| | | |reflexivity].
  - intros b1 r b2 Hb Hp. by transitivity b1; [|eapply process_frame_drains].
  - intros b1 Hb. by transitivity b1; [|apply flush_drains].
  - intros b1 now Hb. by transitivity b1; [|apply read_raw_drains].
  - intros j b1 n b2 r b3 Hb _ Hread Hc. pose proof (read_raw_drains b1 (clock j)) as Hr. rewrite Hread in Hr.
    transitivity b1; [done|]. by transitivity b2; [|eapply check_heartbeat_drains].
Qed.
End drains.

(** ** Lock step *)

Inductive lock_event := LSent | LReceived | LOther.

Inductive socket_op :=
| SoSend (msg : list bytes)
| SoRecv (fuel : nat).

(** Sends and receives take turns; [turn] is whose it is, [true] for a send. *)
Fixpoint take_turns (turn : bool) (evs : list lock_event) : Prop :=
  match evs with
  | [] => True
  | LSent :: evs => turn = true /\ take_turns false evs
  | LReceived :: evs => turn = false /\ take_turns true evs
  | LOther :: evs => take_turns turn evs
  end.

Definition sent_event (o : outcome unit) : lock_event :=
  match o with Returned (Ok _) => LSent | _ => LOther end.

(** For REQ a closed connection also ends the wait for the reply. *)
Definition replied_event (o : outcome (option (list bytes))) : lock_event :=
  match o with Returned (Ok _) => LReceived | _ => LOther end.

Definition requested_event (o : outcome (option (list bytes))) : lock_event :=
  match o with Returned (Ok (Some _)) => LReceived | _ => LOther end.

Section lockstep.
Context {S K : Type} `{AsyncStream S} `{Aead K} (clock : nat -> Z).

Definition req_step (r : ReqSocket S K) (op : socket_op) : option (lock_event * ReqSocket S K) :=
  match op with
  | SoSend msg => let '(o, r) := req_send r msg in Some (sent_event o, r)
  | SoRecv fuel => '(o, r) ← req_recv clock fuel r; Some (replied_event o, r)
  end.

Definition rep_step (r : RepSocket S K) (op : socket_op) : option (lock_event * RepSocket S K) :=
  match op with
  | SoSend msg => let '(o, r) := rep_send r msg in Some (sent_event o, r)
  | SoRecv fuel => '(o, r) ← rep_recv clock fuel r; Some (requested_event o, r)
  end.

Fixpoint lock_run {X} (step : X -> socket_op -> option (lock_event * X)) (x : X) (ops : list socket_op)
    : option (list lock_event * X) :=
  match ops with
  | [] => Some ([], x)
  | op :: ops => '(ev, x) ← step x op; '(evs, x) ← lock_run step x ops; Some (ev :: evs, x)
  end.

(** A step function that respects whose turn it is. *)
Lemma lock_run_turns {X} (step : X -> socket_op -> option (lock_event * X)) (inv : X -> Prop) (turn : X -> bool) :
  (forall x op ev x', inv x -> step x op = Some (ev, x') -> inv x' /\
     match ev with
     | LSent => turn x = true /\ turn x' = false
     | LReceived => turn x = false /\ turn x' = true
     | LOther => turn x' = turn x
     end) ->
  forall ops x evs x', inv x -> lock_run step x ops = Some (evs, x') -> take_turns (turn x) evs.
Proof.
  intros Hstep ops. induction ops as [|op ops IH]; intros x evs x' Hinv; cbn [lock_run]; [by intros [= <- _]|].
  destruct (step x op) as [[ev x1]|] eqn:E; [|done]. cbn.
  destruct (lock_run step x1 ops) as [[evs1 x2]|] eqn:E1; [|done]. cbn. intros [= <- _].
  destruct (Hstep _ _ _ _ Hinv E) as [Hinv1 Hev]. pose proof (IH _ _ _ Hinv1 E1) as Hrest.
  destruct ev; cbn; [destruct Hev as [-> Ht]|destruct Hev as [-> Ht]|]; [split; [done|]; by rewrite <- Ht..|by rewrite <- Hev].
Qed.

Definition req_turn (r : ReqSocket S K) : bool := bool_decide (req_state r = Idle).
Definition rep_turn (r : RepSocket S K) : bool := bool_decide (rep_state r = ReadyToReply).

Lemma req_step_turn r op ev r' :
  req_relaxed (options (req_base r)) = false -> req_step r op = Some (ev, r') ->
  req_relaxed (options (req_base r')) = false /\
  match ev with
  | LSent => req_turn r = true /\ req_turn r' = false
  | LReceived => req_turn r = false /\ req_turn r' = true
  | LOther => req_turn r' = req_turn r
  end.
Proof.
  intros Hrel. unfold req_turn. destruct op as [msg|fuel]; cbn [req_step].
  - unfold req_send. rewrite Hrel. cbn [negb andb]. case_bool_decide as Hst; cbn [negb]; [|by intros [= <- <-]; rewrite bool_decide_eq_false_2 by done].
    destruct (if req_correlate _ then _ else _) as [[fr id] ex].
    destruct (send_now_drains (req_base r) fr) as [Ho _].
    destruct (send_now (req_base r) fr) as [[[[]|e]| |] b]; cbn in Ho; intros [= <- <-]; cbn; rewrite Ho;
      (split; [done|]); rewrite ?Hst; done.
  - unfold req_recv. case_bool_decide as Hst; cbn [negb]; [|by intros [= <- <-]].
    destruct (recv_loop clock fuel 0 _ _) as [[[o b] fs]|] eqn:E; [|done]. apply recv_loop_drains in E as [E _]. cbn.
    destruct o as [[[msg|]|e]| |]; [destruct (req_validate _ _ _) as [m|e]|..]; intros [= <- <-]; cbn;
      rewrite E; (split; [done|]); rewrite ?Hst; done.
Qed.

Lemma rep_step_turn r op ev r' :
  rep_step r op = Some (ev, r') ->
  match ev with
  | LSent => rep_turn r = true /\ rep_turn r' = false
  | LReceived => rep_turn r = false /\ rep_turn r' = true
  | LOther => rep_turn r' = rep_turn r
  end.
Proof.
  unfold rep_turn. destruct op as [msg|fuel]; cbn [rep_step].
  - unfold rep_send. case_bool_decide as Hst; cbn [negb]; [|by intros [= <- <-]; rewrite bool_decide_eq_false_2 by done].
    destruct (send_now (rep_base r) msg) as [[[[]|e]| |] b]; intros [= <- <-]; cbn; rewrite ?Hst; done.
  - unfold rep_recv. case_bool_decide as Hst; cbn [negb]; [|by intros [= <- <-]].
    destruct (recv_loop clock fuel 0 _ _) as [[[o b] fs]|] eqn:E; [|done]. cbn.
    destruct o as [[[msg|]|e]| |]; intros [= <- <-]; cbn; rewrite Hst; done.
Qed.
End lockstep.

(** C31: the request-reply sockets keep lock step.  Over any sequence of calls,
    with any stream behaviour, the successful sends and receives of a REQ
    socket (not relaxed) alternate, a send first, and those of a REP socket
    alternate, a receive first; calls out of turn, failed calls and cancelled
    calls do not change whose turn it is. *)
Theorem request_reply_lockstep {S K : Type} `{AsyncStream S} `{Aead K} (clock : nat -> Z) (s : S) (o : SocketOptions)
    (c : option (CurveMessageCipher K)) (ops : list socket_op) :
  (forall evs r, req_relaxed o = false ->
     lock_run (req_step clock) (req_with_options s o c) ops = Some (evs, r) -> take_turns true evs) /\
  (forall evs r, lock_run (rep_step clock) (rep_with_options s o c) ops = Some (evs, r) -> take_turns false evs).
Proof.
  split.
  - intros evs r Hrel Hrun. change true with (req_turn (req_with_options s o c)).
    by apply (lock_run_turns (req_step clock) (λ r, req_relaxed (options (req_base r)) = false) req_turn
      (req_step_turn clock) ops _ evs r).
  - intros evs r Hrun. change false with (rep_turn (rep_with_options s o c)).
    apply (lock_run_turns (rep_step clock) (λ _, True) rep_turn) with (ops := ops) (x' := r); [|done|done].
    intros x op ev x' _ Hs. split; [done|]. by apply (rep_step_turn clock x op).
Qed.

(** ** Correlation *)

Section correlation.
Context {S K : Type} `{ChunkStream S} `{!Aead K} (clock : nat -> Z).

(** [n] successive calls of [ReqSocket::recv] and what they returned. *)
Fixpoint req_recv_calls (fuel n : nat) (r : ReqSocket S K)
    : option (list (outcome (option (list bytes))) * ReqSocket S K) :=
  match n with
  | O => Some ([], r)
  | Datatypes.S n => '(o, r) ← req_recv clock fuel r; '(os, r) ← req_recv_calls fuel n r; Some (o :: os, r)
  end.

(** A socket that waits for the reply to request [id]. *)
Record awaiting (r : ReqSocket S K) (id : Z) (bs : bytes) : Prop := {
  aw_state : req_state r = AwaitingReply;
  aw_correlate : req_correlate (options (req_base r)) = true;
  aw_expected : expected_request_id r = Some id;
  aw_frames : req_frames r = [];
  aw_receiving : receiving (req_base r) bs;
}.

(** A message a peer may send that is not the reply to request [id]. *)
Definition stale_reply (id : Z) (msg : list bytes) : Prop := msg <> [] /\ head msg <> Some (be_bytes 4 id).

Definition receivable (r : ReqSocket S K) (fuel : nat) (msg : list bytes) : Prop :=
  Forall (λ part, len part <= max_frame_size (decoder (req_base r)) /\ len part <= 0x7FFFFFFFFFFFFFFF) msg /\
  (2 * chunks_left (req_base r) + length msg < fuel)%nat.

Lemma req_validate_stale o id msg :
  req_correlate o = true -> stale_reply id msg -> req_validate o (Some id) msg = Err InvalidData.
Proof.
  intros Hc [Hne Hhd]. unfold req_validate. rewrite Hc. destruct msg as [|f msg]; [done|].
  destruct (Z.eqb_spec (len f) 4) as [Hl|]; [|done]. cbn [negb]. destruct (Z.eqb_spec (be_val f) id) as [<-|]; [|done].
  exfalso. apply Hhd. cbn. f_equal. symmetry.
  assert (length f = 4)%nat as Hl' by (unfold len in Hl; lia). rewrite <- Hl'. apply be_bytes_be_val.
Qed.

Lemma req_validate_match o id msg :
  req_correlate o = true -> 0 <= id < 2 ^ 32 -> req_validate o (Some id) (be_bytes 4 id :: msg) = Ok msg.
Proof.
  intros Hc Hid. unfold req_validate. rewrite Hc, len_be_bytes. change (negb (Z.of_nat 4 =? 4)) with false. cbn match.
  rewrite be_val_be_bytes by (change (256 ^ Z.of_nat 4) with (2 ^ 32); lia). by rewrite Z.eqb_refl.
Qed.

Lemma req_recv_message fuel r id msg rest :
  awaiting r id (encode_multipart msg [] ++ rest) -> msg <> [] -> receivable r fuel msg ->
  exists b, options b = options (req_base r) /\ receiving b rest /\
    max_frame_size (decoder b) = max_frame_size (decoder (req_base r)) /\
    (chunks_left b <= chunks_left (req_base r))%nat /\
    req_recv clock fuel r = Some match req_validate (options b) (Some id) msg with
      | Ok m => (Returned (Ok (Some m)), mk_req b [] Idle (request_id r) None)
      | Err e => (Returned (Err e), mk_req b [] AwaitingReply (request_id r) (Some id))
      end.
Proof.
  intros [Hst Hc He Hf Hrc] Hne [Hparts Hfuel]. unfold req_recv. rewrite Hst, Hf, He.
  rewrite bool_decide_eq_true_2 by done. cbn [negb].
  destruct (recv_one_message clock fuel msg (req_base r) rest Hne Hparts Hrc Hfuel) as (b & Hloop & Hrc' & Hcl & Hmax & _).
  destruct (recv_loop_drains _ _ _ _ _ _ _ _ Hloop) as [Ho _]. rewrite Hloop. cbn [mbind option_bind].
  exists b. by split_and!.
Qed.
End correlation.

(** Correlation.  A REQ socket with [req_correlate] that waits for the reply
    to request [id] refuses every complete message whose first part is not
    that id, with [InvalidData], and goes on waiting for the same id; the
    first message that carries the id is returned without it, and the socket
    is idle again.  So replies to earlier requests are never taken for the
    reply to this one, and cannot block it either. *)
Theorem req_correlation {S K : Type} `{ChunkStream S} `{!Aead K} (clock : nat -> Z) (fuel : nat)
    (r : ReqSocket S K) (id : Z) (stale : list (list bytes)) (reply : list bytes) :
  0 <= id < 2 ^ 32 ->
  awaiting r id (concat ((λ m, encode_multipart m []) <$> (stale ++ [be_bytes 4 id :: reply]))) ->
  Forall (stale_reply id) stale -> Forall (receivable r fuel) (stale ++ [be_bytes 4 id :: reply]) ->
  exists r', req_recv_calls clock fuel (length stale + 1) r =
      Some (replicate (length stale) (Returned (Err InvalidData)) ++ [Returned (Ok (Some reply))], r') /\
    req_state r' = Idle /\ expected_request_id r' = None /\ request_id r' = request_id r.
Proof.
  intros Hid. revert r. induction stale as [|m stale IH]; intros r Haw Hst Hrcv.
  - cbn [app fmap list_fmap concat length Nat.add req_recv_calls replicate] in *. apply list.Forall_cons in Hrcv as [Hm _].
    destruct (req_recv_message clock fuel r id _ _ Haw ltac:(done) Hm) as (b & Ho & Hrc & _ & _ & ->).
    rewrite req_validate_match; [|rewrite Ho; apply Haw|done]. cbn. eauto.
  - cbn [app fmap list_fmap concat length Nat.add req_recv_calls replicate] in *. apply list.Forall_cons in Hrcv as [Hm Hrcv].
    apply list.Forall_cons in Hst as [Hs Hst].
    destruct (req_recv_message clock fuel r id _ _ Haw (proj1 Hs) Hm) as (b & Ho & Hrc & Hmax & Hcl & ->).
    assert (Hc : req_correlate (options b) = true) by (rewrite Ho; apply Haw).
    rewrite req_validate_stale by done. cbn [mbind option_bind].
    destruct (IH (mk_req b [] AwaitingReply (request_id r) (Some id))) as (r' & -> & Hpost); [by split|done| |cbn; eauto].
    eapply list.Forall_impl; [exact Hrcv|]. intros x [H1 H2]. unfold receivable. cbn [req_base]. rewrite Hmax. split; [done|lia].
Qed.

(** A correlated REQ socket whose peer sends a late reply to request 1, a
    malformed one, and then the reply to request 2, in two pieces. *)
Definition late_then_reply : list (list bytes) :=
  [[be_bytes 4 1; ascii_bytes "late"]; [ascii_bytes "bad"]; [be_bytes 4 2; ascii_bytes "now"]].

Definition correlated_req : ReqSocket ScriptStream unit :=
  let wire := concat ((λ m, encode_multipart m []) <$> late_then_reply) in
  mk_req (base_new (mk_script [] [take 9 wire; drop 9 wire] []) (with_req_correlate default_options true))
    [] AwaitingReply 2 (Some 2).

Lemma req_correlation_witness :
  exists r', req_recv_calls (λ _, 0) 10 3 correlated_req =
      Some ([Returned (Err InvalidData); Returned (Err InvalidData); Returned (Ok (Some [ascii_bytes "now"]))], r') /\
    req_state r' = Idle.
Proof.
  destruct (req_correlation (λ _, 0) 10 correlated_req 2 [[be_bytes 4 1; ascii_bytes "late"]; [ascii_bytes "bad"]]
    [ascii_bytes "now"]) as (r' & Hr & Hst & _).
  - lia.
  - split; try reflexivity. split; try reflexivity; [vm_compute; split; reflexivity|apply segbuf_new_wf|].
    eexists. split; [reflexivity|]. split; [repeat constructor; vm_compute; discriminate|vm_compute; reflexivity].
  - repeat constructor; vm_compute; discriminate.
  - repeat constructor; vm_compute; first [discriminate|lia].
  - exists r'. split; [exact Hr|exact Hst].
Defined.

Definition one_reply : ScriptStream := mk_script [] [encode (frame_data (ascii_bytes "b") false)] [].

Definition out_of_turn : list socket_op := [SoRecv 10; SoSend [ascii_bytes "a"]; SoSend [ascii_bytes "a"]; SoRecv 10].

Lemma request_reply_lockstep_witness :
  exists r, lock_run (req_step (λ _, 0)) (req_with_options (K := unit) one_reply default_options None) out_of_turn =
    Some ([LOther; LSent; LOther; LReceived], r) /\ take_turns true [LOther; LSent; LOther; LReceived].
Proof.
  eexists. split; [vm_compute; reflexivity|].
  eapply (proj1 (request_reply_lockstep (K := unit) (λ _, 0) one_reply default_options None out_of_turn));
    [reflexivity|vm_compute; reflexivity].
Defined.

(** ** The high-water mark *)

Inductive dealer_op :=
| DoSend (msg : list bytes)
| DoBuffer (msg : list bytes)
| DoBatch (msgs : list (list bytes))
| DoFlush
| DoRecv (fuel : nat).

Section hwm.
Context {S K : Type} `{AsyncStream S} `{Aead K} (clock : nat -> Z).
Implicit Types b : SocketBase S K.

(** The state an operation leaves, successful or not. *)
Definition dealer_step (d : DealerSocket S K) (op : dealer_op) : option (DealerSocket S K) :=
  match op with
  | DoSend msg => Some (dealer_send d msg).2
  | DoBuffer msg => Some (dealer_send_buffered d msg).2
  | DoBatch msgs => Some (dealer_send_batch d msgs).2
  | DoFlush => Some (dealer_flush d).2
  | DoRecv fuel => '(_, d) ← dealer_recv clock fuel d; Some d
  end.

Fixpoint dealer_run (d : DealerSocket S K) (ops : list dealer_op) : option (DealerSocket S K) :=
  match ops with
  | [] => Some d
  | op :: ops => d ← dealer_step d op; dealer_run d ops
  end.

(** Within the high-water mark. *)
Definition within_hwm (hwm : Z) b : Prop := send_hwm (options b) = hwm /\ 0 <= buffered_messages b <= hwm.

Lemma drains_within hwm b b' : 0 <= hwm -> drains b b' -> within_hwm hwm b -> within_hwm hwm b'.
Proof. intros Hh [Ho Hb] [H1 H2]. split; [congruence|]. destruct Hb; lia. Qed.

Lemma encode_send_buf_count b msg :
  options (encode_message_to_send_buf b msg).2 = options b /\
  buffered_messages b <= buffered_messages (encode_message_to_send_buf b msg).2 <= buffered_messages b + 1.
Proof.
  unfold encode_message_to_send_buf. destruct (encode_into b msg _) as [[[[]|e] c] buf]; cbn; split; auto; lia.
Qed.

Lemma batch_encode_count b msgs :
  options (batch_encode b msgs).2 = options b /\
  buffered_messages b <= buffered_messages (batch_encode b msgs).2 <= buffered_messages b + len msgs.
Proof.
  revert b. induction msgs as [|m msgs IH]; intros b; cbn [batch_encode]; [change (len (@nil (list bytes))) with 0; split; [done|cbn; lia]|].
  rewrite len_cons. pose proof (len_nonneg msgs) as Hlen. destruct (encode_send_buf_count b m) as [H1 H2].
  destruct (encode_message_to_send_buf b m) as [[[]|e] b1]; cbn in *; [|split; [done|lia]].
  destruct (IH b1) as [H3 H4]. split; [congruence|lia].
Qed.

Lemma dealer_step_within hwm d op d' :
  0 < hwm < usize_max -> within_hwm hwm (dealer_base d) -> dealer_step d op = Some d' -> within_hwm hwm (dealer_base d').
Proof.
  intros Hh Hw. destruct op as [msg|msg|msgs| |fuel]; cbn [dealer_step].
  - unfold dealer_send. pose proof (send_now_drains (dealer_base d) msg) as Hd.
    destruct (send_now _ _). intros [= <-]. cbn in *. eapply drains_within; [lia|done|done].
  - unfold dealer_send_buffered, hwm_reached. destruct Hw as [Ho Hb]. rewrite Ho.
    rewrite (proj2 (Z.eqb_neq hwm 0)) by lia. cbn [negb andb].
    destruct (Z.leb_spec hwm (buffered_messages (dealer_base d))) as [Hle|Hle]; [by intros [= <-]|].
    destruct (encode_send_buf_count (dealer_base d) msg) as [H1 H2].
    destruct (encode_message_to_send_buf _ _). intros [= <-]. cbn in *. split; [congruence|lia].
  - unfold dealer_send_batch. destruct Hw as [Ho Hb]. rewrite Ho.
    rewrite (proj2 (Z.eqb_neq hwm 0)) by lia. cbn [negb andb].
    destruct (Z.ltb_spec hwm (Z.min (buffered_messages (dealer_base d) + len msgs) usize_max)) as [Hle|Hle]; [by intros [= <-]|].
    destruct (batch_encode_count (dealer_base d) msgs) as [H1 H2].
    destruct (batch_encode _ _) as [[[]|e] b]; cbn in H1, H2.
    + unfold dealer_flush. cbn [dealer_base set_dealer_base]. pose proof (flush_drains b) as Hd.
      destruct (flush_send_buffer b). intros [= <-]. cbn in *. apply (drains_within hwm b); [lia|done|].
      split; [congruence|lia].
    + intros [= <-]. split; [cbn; congruence|cbn; lia].
  - unfold dealer_flush. pose proof (flush_drains (dealer_base d)) as Hd.
    destruct (flush_send_buffer _). intros [= <-]. cbn in *. eapply drains_within; [lia|done|done].
  - unfold dealer_recv. destruct (recv_loop _ _ _ _ _) as [[[o b] fs]|] eqn:E; [|done]. intros [= <-].
    apply recv_loop_drains in E. cbn. eapply drains_within; [lia|done|done].
Qed.
End hwm.

(** C39: a high-water mark (not 0, which means none) bounds the queue.  However a
    DEALER socket is used, and whatever its stream does, at most [send_hwm] messages are
    buffered: a [send_buffered] over the mark is refused and changes nothing,
    and so is a [send_batch] that does not fit as a whole. *)
Theorem dealer_hwm_bound {S K : Type} `{AsyncStream S} `{Aead K} (clock : nat -> Z) (s : S) (o : SocketOptions)
    (c : option (CurveMessageCipher K)) (ops : list dealer_op) (d : DealerSocket S K) :
  0 < send_hwm o < usize_max ->
  dealer_run clock (dealer_with_options s o c) ops = Some d ->
  0 <= buffered_messages (dealer_base d) <= send_hwm o /\
  (buffered_messages (dealer_base d) = send_hwm o -> forall msg, dealer_send_buffered d msg = (Err WouldBlock, d)) /\
  (forall msgs, send_hwm o < buffered_messages (dealer_base d) + len msgs ->
     dealer_send_batch d msgs = (Returned (Err WouldBlock), d)).
Proof.
  intros Hh Hrun.
  assert (Hinv : within_hwm (send_hwm o) (dealer_base d)).
  { assert (Hw : within_hwm (send_hwm o) (dealer_base (dealer_with_options s o c))) by (split; [done|cbn; lia]).
    revert Hw Hrun. generalize (dealer_with_options s o c). induction ops as [|op ops IH]; intros d0 Hw; [by intros [= <-]|].
    cbn [dealer_run]. destruct (dealer_step clock d0 op) as [d1|] eqn:E; [|done]. cbn. apply IH.
    by eapply dealer_step_within. }
  destruct Hinv as [Ho Hb]. split; [done|].
  assert (Hnz : (send_hwm o =? 0) = false) by (apply Z.eqb_neq; lia). split.
  - intros Heq msg. unfold dealer_send_buffered, hwm_reached. rewrite Ho, Heq, Hnz, Z.leb_refl. done.
  - intros msgs Hm. unfold dealer_send_batch. rewrite Ho, Hnz, (proj2 (Z.ltb_lt _ _)) by lia. done.
Qed.

Lemma dealer_hwm_bound_witness :
  let d := (dealer_send_buffered (dealer_with_options (K := unit) (mk_script [] [] []) (with_send_hwm default_options 1) None)
             [ascii_bytes "a"]).2 in
  dealer_send_buffered d [ascii_bytes "b"] = (Err WouldBlock, d).
Proof.
  cbn zeta. set (d0 := dealer_with_options _ _ _). set (d := (dealer_send_buffered d0 _).2).
  destruct (dealer_hwm_bound (λ _, 0) (mk_script [] [] []) (with_send_hwm default_options 1) None
    [DoBuffer [ascii_bytes "a"]] d) as (_ & Hfull & _).
  - vm_compute. split; reflexivity.
  - reflexivity.
  - apply Hfull. reflexivity.
Defined.

(** ** Retries *)

(** A poisoned connection is never given up.  Once a write was cut off by a
    timeout or a cancellation the socket is poisoned but keeps its stream, and
    [send_with_reconnect] answers every later send with [BrokenPipe] at once
    and leaves the socket as poisoned and as connected as before (it only
    encodes the message), whatever connector it has: it never reconnects,
    although that is what clears the poison. *)
Theorem poisoned_send_never_reconnects {S K : Type} `{AsyncStream S} `{Aead K} (C : Connector S K) (fuel : nat)
    (d : DealerSocket S K) (s : S) (msg : list bytes) :
  stream (dealer_base d) = Some s -> is_poisoned (dealer_base d) = true -> curve_cipher (dealer_base d) = None ->
  exists d', dealer_send_with_reconnect (C := C) (Datatypes.S fuel) 0 d msg = Some (Returned (Err BrokenPipe), d') /\
    stream (dealer_base d') = Some s /\ is_poisoned (dealer_base d') = true /\ curve_cipher (dealer_base d') = None.
Proof.
  intros Hs Hp Hc. cbn [dealer_send_with_reconnect]. unfold is_connected. rewrite Hs. rewrite bool_decide_eq_true_2 by done.
  unfold dealer_send, send_now, encode_message_to_write_buf, encode_into. rewrite Hc.
  unfold write_from_buf. cbn [is_poisoned set_cipher set_write_buf]. rewrite Hp.
  cbn [dealer_base set_dealer_base stream set_cipher set_write_buf]. rewrite Hs, bool_decide_eq_true_2 by done.
  eexists. split; [done|]. cbn. by split_and!.
Qed.

Lemma poisoned_send_never_reconnects_witness :
  let d := mk_dealer (set_poisoned (base_new (K := unit) (mk_script [] [] []) default_options) true) [] in
  exists d', dealer_send_with_reconnect (C := toy_connector new_peer) 5 0 d [ascii_bytes "a"] =
    Some (Returned (Err BrokenPipe), d') /\ is_poisoned (dealer_base d') = true.
Proof.
  cbn zeta. destruct (poisoned_send_never_reconnects (toy_connector new_peer) 4
    (mk_dealer (set_poisoned (base_new (mk_script [] [] []) default_options) true) []) (mk_script [] [] []) [ascii_bytes "a"])
    as (d' & Hd & _ & Hp & _); [reflexivity..|].
  exists d'. split; [exact Hd|exact Hp].
Defined.

(** A REQ receive that has to reconnect fails.  Whenever [recv_with_reconnect]
    reconnects, the socket is idle by then, so the [recv] it retries is out of
    turn and the call returns [InvalidInput]: the caller never gets the reply
    of the new connection from this call. *)
Theorem req_recv_after_reconnect_fails {S K : Type} `{AsyncStream S} `{Aead K} (C : Connector S K) (clock : nat -> Z)
    (fuel : nat) (r : ReqSocket S K) (b : SocketBase S K) (attempts : Z) :
  stream (req_base r) = None -> attempts_exhausted (options (req_base r)) attempts = false ->
  try_reconnect (C := C) (req_base r) Req = (Returned (Ok tt), b) ->
  exists r', req_recv_with_reconnect (C := C) clock (Datatypes.S fuel) attempts r = Some (Returned (Err InvalidInput), r') /\
    req_state r' = Idle /\ req_base r' = b.
Proof.
  intros Hs Ha Hr. cbn [req_recv_with_reconnect]. unfold is_connected at 1. rewrite Hs, bool_decide_eq_false_2 by (by intros []).
  rewrite Ha, Hr.
  assert (Hc : is_connected b = true).
  { revert Hr. unfold try_reconnect. destruct (endpoint (req_base r)) as [[addr|p|n]|]; [|done..].
    destruct (connect_tcp addr) as [[s|e]|]; [|done..]. destruct (tune_tcp s _); [|done].
    destruct (client_handshake s Req _) as [[[c|e]|] s']; [|done..]. by intros [= <-]. }
  unfold req_recv. cbn [req_state req_reset]. rewrite bool_decide_eq_false_2 by done. cbn [negb mbind option_bind req_base].
  change (req_base (req_reset r b)) with b. rewrite Hc. cbn. eauto.
Qed.

Lemma req_recv_after_reconnect_fails_witness :
  exists r', req_recv_with_reconnect (C := toy_connector new_peer) (λ _, 0) 5 0
      (mk_req interrupted [] AwaitingReply 0 None) = Some (Returned (Err InvalidInput), r') /\ req_state r' = Idle.
Proof.
  destruct (req_recv_after_reconnect_fails (toy_connector new_peer) (λ _, 0) 4 (mk_req interrupted [] AwaitingReply 0 None)
    (try_reconnect (C := toy_connector new_peer) interrupted Req).2 0) as (r' & Hr & Hst & _); [reflexivity..|].
  exists r'. split; [exact Hr|exact Hst].
Defined.
