(* ===== verification/Pipeline.v ===== *)
(** * PUSH and PULL sockets

    monocoque-zmtp/src/push.rs and pull.rs: the pipeline pattern over one
    connection.  The three ways a PUSH socket writes (eager, coalesced,
    vectored) and the five ways a PULL socket reads are shown to carry the same
    messages in the same order. *)

From S2P Require Import Prelude.
From S2P Require Import SegBuffer.
From S2P Require Import Codec.
From S2P Require Import Options.
From S2P Require Import Address.
From S2P Require Import Ready.
From S2P Require Import CurveMessage.
From S2P Require Import Stream.
From S2P Require Import Base.
From S2P Require Import BaseWire.
From S2P Require Import Recv.
From S2P Require Import Sockets.

(** ** Retrying over reconnections

    The loops of [recv_with_reconnect] and [send_with_reconnect], which PULL,
    PUSH, PAIR, SUB and XSUB share.  [recv] and [send] are the calls they retry; [None] is
    exhausted fuel. *)

Class HasBase (Sock S K : Type) := {
  base_of : Sock -> SocketBase S K;
  put_base : Sock -> SocketBase S K -> Sock;
}.

Section reconnecting.
Context {Sock S K : Type} `{AsyncStream S} `{Aead K} `{B : HasBase Sock S K}.

(** [self.base.try_reconnect(ty)]. *)
Definition base_reconnect `{C : Connector S K} (ty : SocketType) (p : Sock) : outcome unit * Sock :=
  let '(o, b) := try_reconnect (base_of p) ty in (o, put_base p b).

(** [reconnect] is the [try_reconnect] of the socket. *)
Context (reconnect : Sock -> outcome unit * Sock).

Fixpoint recv_with_reconnect (recv : Sock -> option (outcome (option (list bytes)) * Sock))
    (fuel : nat) (attempts : Z) (p : Sock) : option (outcome (option (list bytes)) * Sock) :=
  match fuel with
  | O => None
  | Datatypes.S fuel =>
      let try_recv attempts p :=
        '(o, p) ← recv p;
        match o with
        | Returned (Ok None) => recv_with_reconnect recv fuel attempts p
        | Returned (Err e) =>
            if negb (is_connected (base_of p)) || is_connection_error e
            then recv_with_reconnect recv fuel attempts (put_base p (set_stream (base_of p) None))
            else Some (Returned (Err e), p)
        | o => Some (o, p)
        end in
      if is_connected (base_of p) then try_recv attempts p
      else if attempts_exhausted (options (base_of p)) attempts then Some (Returned (Err NotConnected), p)
      else
        match reconnect p with
        | (Returned (Ok _), p) => try_recv (attempts + 1) p
        | (Returned (Err e), p) => Some (Returned (Err e), p)
        | (Pending, p) => Some (Pending, p)
        | (Panicked, p) => Some (Panicked, p)
        end
  end.

Fixpoint send_with_reconnect (send : Sock -> outcome unit * Sock) (fuel : nat) (attempts : Z) (p : Sock)
    : option (outcome unit * Sock) :=
  match fuel with
  | O => None
  | Datatypes.S fuel =>
      let try_send attempts p :=
        match send p with
        | (Returned (Err e), p) =>
            if is_connected (base_of p) then Some (Returned (Err e), p)
            else send_with_reconnect send fuel attempts p
        | r => Some r
        end in
      if is_connected (base_of p) then try_send attempts p
      else if attempts_exhausted (options (base_of p)) attempts then Some (Returned (Err NotConnected), p)
      else
        match reconnect p with
        | (Returned (Ok _), p) => try_send (attempts + 1) p
        | (Returned (Err e), p) => Some (Returned (Err e), p)
        | (Pending, p) => Some (Pending, p)
        | (Panicked, p) => Some (Panicked, p)
        end
  end.
End reconnecting.

(** ** PULL *)

Section pull.
Context {S K : Type} `{AsyncStream S} `{Aead K}.

Record PullSocket := mk_pull {
  pull_base : SocketBase S K;
  pull_frames : list bytes;
}.

(** [with_options] after its handshake, which yields the cipher. *)
Definition pull_with_options (s : S) (o : SocketOptions) (c : option (CurveMessageCipher K)) : PullSocket :=
  mk_pull (set_cipher (base_new s o) c) [].

(** [connect_with_options] after the connection and its handshake. *)
Definition pull_connected (s : S) (peer_addr : SocketAddr) (o : SocketOptions) (c : option (CurveMessageCipher K))
    : PullSocket :=
  mk_pull (set_cipher (with_endpoint s (Tcp peer_addr) o) c) [].

Definition set_pull_base (p : PullSocket) (b : SocketBase S K) : PullSocket := mk_pull b (pull_frames p).

(** Every frame that is decoded takes at least its header from the bytes held;
    a reassembly has at most nine header bytes behind it. *)
Definition decode_fuel (b : SocketBase S K) : nat :=
  (length (flat (recv_buf b)) + length (staging (decoder b)) + 10)%nat.

(** The loop of [try_recv]; the fuel is a bound on its iterations. *)
Fixpoint try_recv_loop (fuel : nat) (b : SocketBase S K) (frames : list bytes)
    : option (outcome (option (list bytes)) * PullSocket) :=
  match fuel with
  | O => None
  | Datatypes.S fuel =>
      match process_frame b with
      | None => Some (Panicked, mk_pull b frames)
      | Some (Err e, b) => Some (Returned (Err e), mk_pull b frames)
      | Some (Ok FNeedMore, b) => Some (Returned (Ok None), mk_pull b frames)
      | Some (Ok CommandHandled, b) => try_recv_loop fuel b frames
      | Some (Ok (FData more payload), b) =>
          if negb more && bool_decide (frames = []) then Some (Returned (Ok (Some [payload])), mk_pull b frames)
          else
            let frames := frames ++ [payload] in
            if negb more then Some (Returned (Ok (Some frames)), mk_pull b [])
            else try_recv_loop fuel b frames
      end
  end.

Definition pull_try_recv (p : PullSocket) : option (outcome (option (list bytes)) * PullSocket) :=
  try_recv_loop (decode_fuel (pull_base p)) (pull_base p) (pull_frames p).

(** [try_recv_into] writes into the caller's vector [out]. *)
Fixpoint try_recv_into_loop (fuel : nat) (b : SocketBase S K) (frames out : list bytes)
    : option (outcome bool * PullSocket * list bytes) :=
  match fuel with
  | O => None
  | Datatypes.S fuel =>
      match process_frame b with
      | None => Some (Panicked, mk_pull b frames, out)
      | Some (Err e, b) => Some (Returned (Err e), mk_pull b frames, out)
      | Some (Ok FNeedMore, b) => Some (Returned (Ok false), mk_pull b frames, out)
      | Some (Ok CommandHandled, b) => try_recv_into_loop fuel b frames out
      | Some (Ok (FData more payload), b) =>
          if negb more && bool_decide (frames = []) then Some (Returned (Ok true), mk_pull b frames, [] ++ [payload])
          else
            let frames := frames ++ [payload] in
            if negb more then Some (Returned (Ok true), mk_pull b [], [] ++ frames)
            else try_recv_into_loop fuel b frames out
      end
  end.

Definition pull_try_recv_into (p : PullSocket) (out : list bytes) : option (outcome bool * PullSocket * list bytes) :=
  try_recv_into_loop (decode_fuel (pull_base p)) (pull_base p) (pull_frames p) out.

Context (clock : nat -> Z).

(** [recv], with its shortcut for a message of one frame. *)
Fixpoint pull_recv_loop (fuel i : nat) (b : SocketBase S K) (frames : list bytes)
    : option (outcome (option (list bytes)) * PullSocket) :=
  match fuel with
  | O => None
  | Datatypes.S fuel =>
      let after_flush i b :=
        match flush_send_buffer b with
        | (Returned (Ok _), b) => pull_recv_loop fuel i b frames
        | (Returned (Err e), b) => Some (Returned (Err e), mk_pull b frames)
        | (Pending, b) => Some (Pending, mk_pull b frames)
        | (Panicked, b) => Some (Panicked, mk_pull b frames)
        end in
      match process_frame b with
      | None => Some (Panicked, mk_pull b frames)
      | Some (Err e, b) => Some (Returned (Err e), mk_pull b frames)
      | Some (Ok CommandHandled, b) =>
          if bool_decide (send_buffer b = []) then pull_recv_loop fuel i b frames else after_flush i b
      | Some (Ok (FData more payload), b) =>
          if negb more && bool_decide (frames = []) then Some (Returned (Ok (Some [payload])), mk_pull b frames)
          else
            let frames := frames ++ [payload] in
            if negb more then Some (Returned (Ok (Some frames)), mk_pull b [])
            else pull_recv_loop fuel i b frames
      | Some (Ok FNeedMore, b) =>
          match read_raw b (clock i) with
          | (Returned (Err e), b) => Some (Returned (Err e), mk_pull b frames)
          | (Pending, b) => Some (Pending, mk_pull b frames)
          | (Panicked, b) => Some (Panicked, mk_pull b frames)
          | (Returned (Ok n), b) =>
              if n =? 0 then Some (Returned (Ok None), mk_pull b frames)
              else
                match check_heartbeat b (clock (Datatypes.S i)) with
                | None => Some (Panicked, mk_pull b frames)
                | Some (Err e, b) => Some (Returned (Err e), mk_pull b frames)
                | Some (Ok true, b) => after_flush (Datatypes.S (Datatypes.S i)) b
                | Some (Ok false, b) => pull_recv_loop fuel (Datatypes.S (Datatypes.S i)) b frames
                end
          end
      end
  end.

Definition pull_recv (fuel : nat) (p : PullSocket) : option (outcome (option (list bytes)) * PullSocket) :=
  pull_recv_loop fuel 0 (pull_base p) (pull_frames p).

Fixpoint pull_recv_into_loop (fuel i : nat) (b : SocketBase S K) (frames out : list bytes)
    : option (outcome bool * PullSocket * list bytes) :=
  match fuel with
  | O => None
  | Datatypes.S fuel =>
      let after_flush i b :=
        match flush_send_buffer b with
        | (Returned (Ok _), b) => pull_recv_into_loop fuel i b frames out
        | (Returned (Err e), b) => Some (Returned (Err e), mk_pull b frames, out)
        | (Pending, b) => Some (Pending, mk_pull b frames, out)
        | (Panicked, b) => Some (Panicked, mk_pull b frames, out)
        end in
      match process_frame b with
      | None => Some (Panicked, mk_pull b frames, out)
      | Some (Err e, b) => Some (Returned (Err e), mk_pull b frames, out)
      | Some (Ok CommandHandled, b) =>
          if bool_decide (send_buffer b = []) then pull_recv_into_loop fuel i b frames out else after_flush i b
      | Some (Ok (FData more payload), b) =>
          if negb more && bool_decide (frames = []) then Some (Returned (Ok true), mk_pull b frames, out ++ [payload])
          else
            let frames := frames ++ [payload] in
            if negb more then Some (Returned (Ok true), mk_pull b [], out ++ frames)
            else pull_recv_into_loop fuel i b frames out
      | Some (Ok FNeedMore, b) =>
          match read_raw b (clock i) with
          | (Returned (Err e), b) => Some (Returned (Err e), mk_pull b frames, out)
          | (Pending, b) => Some (Pending, mk_pull b frames, out)
          | (Panicked, b) => Some (Panicked, mk_pull b frames, out)
          | (Returned (Ok n), b) =>
              if n =? 0 then Some (Returned (Ok false), mk_pull b frames, out)
              else
                match check_heartbeat b (clock (Datatypes.S i)) with
                | None => Some (Panicked, mk_pull b frames, out)
                | Some (Err e, b) => Some (Returned (Err e), mk_pull b frames, out)
                | Some (Ok true, b) => after_flush (Datatypes.S (Datatypes.S i)) b
                | Some (Ok false, b) => pull_recv_into_loop fuel (Datatypes.S (Datatypes.S i)) b frames out
                end
          end
      end
  end.

(** [out.clear()] comes first. *)
Definition pull_recv_into (fuel : nat) (p : PullSocket) (out : list bytes)
    : option (outcome bool * PullSocket * list bytes) :=
  pull_recv_into_loop fuel 0 (pull_base p) (pull_frames p) [].

(** [while let Some(msg) = self.try_recv()? { batch.push(msg) }]; an error ends
    the call and drops the batch. *)
Fixpoint drain_batch (fuel : nat) (p : PullSocket) (batch : list (list bytes))
    : option (outcome (list (list bytes)) * PullSocket) :=
  match fuel with
  | O => None
  | Datatypes.S fuel =>
      '(o, p) ← pull_try_recv p;
      match o with
      | Returned (Ok (Some msg)) => drain_batch fuel p (batch ++ [msg])
      | Returned (Ok None) => Some (Returned (Ok batch), p)
      | Returned (Err e) => Some (Returned (Err e), p)
      | Pending => Some (Pending, p)
      | Panicked => Some (Panicked, p)
      end
  end.

Definition pull_recv_batch (fuel : nat) (p : PullSocket) : option (outcome (option (list (list bytes))) * PullSocket) :=
  '(o, p) ← pull_recv fuel p;
  match o with
  | Returned (Ok None) => Some (Returned (Ok None), p)
  | Returned (Ok (Some first)) =>
      '(o, p) ← drain_batch (decode_fuel (pull_base p)) p [first];
      Some (await! batch, p := (o, p) in
        if bool_decide (send_buffer (pull_base p) = []) then (Returned (Ok (Some batch)), p)
        else
          let '(o, b) := flush_send_buffer (pull_base p) in
          await! _u, p := (o, set_pull_base p b) in (Returned (Ok (Some batch)), p))
  | Returned (Err e) => Some (Returned (Err e), p)
  | Pending => Some (Pending, p)
  | Panicked => Some (Panicked, p)
  end.

Definition pull_close (p : PullSocket) : outcome unit * PullSocket :=
  let '(o, b) := close (pull_base p) in (o, set_pull_base p b).


#[export] Instance pull_has_base : HasBase PullSocket S K := { base_of := pull_base; put_base := set_pull_base }.

Definition pull_recv_with_reconnect `{C : Connector S K} (fuel retries : nat) (p : PullSocket)
    : option (outcome (option (list bytes)) * PullSocket) :=
  recv_with_reconnect (base_reconnect Pull) (pull_recv fuel) retries 0 p.
End pull.
#[global] Arguments PullSocket : clear implicits.

(** ** PUSH *)

Section push.
Context {S K : Type} `{AsyncStream S} `{Aead K}.

Record PushSocket := mk_push { push_base : SocketBase S K }.

Definition push_with_options (s : S) (o : SocketOptions) (c : option (CurveMessageCipher K)) : PushSocket :=
  mk_push (set_cipher (base_new s o) c).

Definition push_connected (s : S) (peer_addr : SocketAddr) (o : SocketOptions) (c : option (CurveMessageCipher K))
    : PushSocket :=
  mk_push (set_cipher (with_endpoint s (Tcp peer_addr) o) c).

(** [if check_heartbeat()? { flush_send_buffer().await? }]. *)
Definition heartbeat_after (now : Z) (b : SocketBase S K) : outcome unit * SocketBase S K :=
  match check_heartbeat b now with
  | None => (Panicked, b)
  | Some (Err e, b) => (Returned (Err e), b)
  | Some (Ok true, b) => flush_send_buffer b
  | Some (Ok false, b) => (Returned (Ok tt), b)
  end.

Definition push_send (now : Z) (p : PushSocket) (msg : list bytes) : outcome unit * PushSocket :=
  let b := push_base p in
  let '(o, b) :=
    await! _u, b :=
      (if write_coalescing (options b) then send_coalesced b msg
       else if should_vectored_write b msg then send_vectored b msg
       else send_now b msg) in
    heartbeat_after now b in
  (o, mk_push b).

Definition push_send_one (now : Z) (p : PushSocket) (frame : bytes) : outcome unit * PushSocket :=
  let b := push_base p in
  let '(o, b) :=
    await! _u, b :=
      (if write_coalescing (options b) then
         match encode_one_coalesced b frame with
         | (Ok true, b) => flush_send_buffer b
         | (Ok false, b) => (Returned (Ok tt), b)
         | (Err e, b) => (Returned (Err e), b)
         end
       else if should_vectored_write b [frame] then send_vectored b [frame]
       else send_now b [frame]) in
    heartbeat_after now b in
  (o, mk_push b).

Definition push_flush (p : PushSocket) : outcome unit * PushSocket :=
  let '(o, b) := flush_send_buffer (push_base p) in (o, mk_push b).

(** The encoding loop of [send_batch] with its count, which stops at the first
    error. *)
Fixpoint push_batch_encode (b : SocketBase S K) (msgs : list (list bytes)) (count : Z)
    : io_result Z * SocketBase S K :=
  match msgs with
  | [] => (Ok count, b)
  | m :: msgs =>
      match encode_message_to_send_buf b m with
      | (Ok _, b) => push_batch_encode b msgs (count + 1)
      | (Err e, b) => (Err e, b)
      end
  end.

Definition push_send_batch (now : Z) (p : PushSocket) (msgs : list (list bytes)) : outcome Z * PushSocket :=
  match push_batch_encode (push_base p) msgs 0 with
  | (Err e, b) => (Returned (Err e), mk_push b)
  | (Ok count, b) =>
      let '(o, b) :=
        await! _u, b := (if 0 <? count then flush_send_buffer b else (Returned (Ok tt), b)) in
        await! _u, b := heartbeat_after now b in
        (Returned (Ok count), b) in
      (o, mk_push b)
  end.

Definition push_close (p : PushSocket) : outcome unit * PushSocket :=
  let '(o, b) := close (push_base p) in (o, mk_push b).

#[export] Instance push_has_base : HasBase PushSocket S K := { base_of := push_base; put_base _ b := mk_push b }.

Definition push_send_with_reconnect `{C : Connector S K} (now : Z) (retries : nat) (p : PushSocket) (msg : list bytes)
    : option (outcome unit * PushSocket) :=
  send_with_reconnect (base_reconnect Push) (λ p, push_send now p msg) retries 0 p.
End push.
#[global] Arguments PushSocket : clear implicits.

(** ** The readers agree *)

Section agree.
Context {S K : Type} `{AsyncStream S} `{Aead K} (clock : nat -> Z).
Implicit Types b : SocketBase S K.

(** What the callers of the [_into] variants see of an outcome of [recv]. *)
Definition into_out (out : list bytes) (r : outcome (option (list bytes)) * PullSocket S K)
    : outcome bool * PullSocket S K * list bytes :=
  match r with
  | (Returned (Ok (Some m)), p) => (Returned (Ok true), p, m)
  | (Returned (Ok None), p) => (Returned (Ok false), p, out)
  | (Returned (Err e), p) => (Returned (Err e), p, out)
  | (Pending, p) => (Pending, p, out)
  | (Panicked, p) => (Panicked, p, out)
  end.

Lemma pull_recv_loop_spec fuel i b frames :
  pull_recv_loop clock fuel i b frames = '(o, b, fs) ← recv_loop clock fuel i b frames; Some (o, mk_pull b fs).
Proof.
  revert i b frames. induction fuel as [|fuel IH]; intros i b frames; [done|]. cbn [pull_recv_loop recv_loop].
  destruct (process_frame b) as [[[[m p| |]|e] b1]|]; [| | |done..].
  - destruct m; cbn [negb andb]; [apply IH|]. case_bool_decide as E; [subst|]; done.
  - case_bool_decide; [apply IH|]. destruct (flush_send_buffer b1) as [[[]| |] b2]; [apply IH|done..].
  - destruct (read_raw b1 (clock i)) as [[[n|e]| |] b2]; [|done..]. destruct (n =? 0); [done|].
    destruct (check_heartbeat b2 _) as [[[[]|e] b3]|]; [|apply IH|done..].
    destruct (flush_send_buffer b3) as [[[]| |] b4]; [apply IH|done..].
Qed.

Lemma pull_recv_into_loop_spec fuel i b frames :
  pull_recv_into_loop clock fuel i b frames [] = into_out [] <$> pull_recv_loop clock fuel i b frames.
Proof.
  revert i b frames. induction fuel as [|fuel IH]; intros i b frames; [done|]. cbn [pull_recv_into_loop pull_recv_loop].
  destruct (process_frame b) as [[[[m p| |]|e] b1]|]; [| | |done..].
  - case_match; [done|]. destruct m; [apply IH|done].
  - case_bool_decide; [apply IH|]. destruct (flush_send_buffer b1) as [[[]| |] b2]; [apply IH|done..].
  - destruct (read_raw b1 (clock i)) as [[[n|e]| |] b2]; [|done..]. destruct (n =? 0); [done|].
    destruct (check_heartbeat b2 _) as [[[[]|e] b3]|]; [|apply IH|done..].
    destruct (flush_send_buffer b3) as [[[]| |] b4]; [apply IH|done..].
Qed.

Lemma try_recv_into_loop_spec fuel b frames out :
  try_recv_into_loop fuel b frames out = into_out out <$> try_recv_loop fuel b frames.
Proof.
  revert b frames. induction fuel as [|fuel IH]; intros b frames; [done|]. cbn [try_recv_into_loop try_recv_loop].
  destruct (process_frame b) as [[[[m p| |]|e] b1]|]; [|apply IH|done..].
  case_match; [done|]. destruct m; [apply IH|done].
Qed.
End agree.

(** ** Decoding ends *)

Section decoding.
Context {S K : Type} `{AsyncStream S} `{Aead K}.
Implicit Types b : SocketBase S K.

Definition base_wf b : Prop := decoder_wf (decoder b) /\ segbuf_wf (recv_buf b).

(** The bytes held and not yet delivered. *)
Definition held b : nat := length (logical (decoder b) (recv_buf b)).

Lemma held_fuel b : (held b < decode_fuel b)%nat.
Proof. apply logical_fuel. Qed.

Lemma handle_ping_pong_recv b f :
  decoder (handle_ping_pong b f) = decoder b /\ recv_buf (handle_ping_pong b f) = recv_buf b.
Proof.
  unfold handle_ping_pong, note_pong_received.
  by destruct (is_ping_payload _), (is_pong_payload _); cbn; destruct (awaiting_pong b).
Qed.

(** One frame is decoded without panic; a frame shortens what is held. *)
Lemma process_frame_held b :
  base_wf b ->
  exists r b', process_frame b = Some (r, b') /\ base_wf b' /\
    match r with
    | Ok FNeedMore => held b' = held b
    | Ok _ => (Datatypes.S (held b') < held b)%nat
    | Err _ => True
    end.
Proof.
  intros [Hd Hr]. destruct (decode_ok (decoder b) (recv_buf b) Hd Hr) as (r & d' & src' & Hdec & Hd' & Hr' & _ & Hpost).
  unfold process_frame. rewrite Hdec. cbn [mbind option_bind]. set (b1 := set_decoder b d' src').
  assert (Hwf : forall b2, decoder b2 = d' -> recv_buf b2 = src' -> base_wf b2 /\ held b2 = length (logical d' src')).
  { intros b2 E1 E2. unfold base_wf, held. by rewrite E1, E2. }
  destruct (parse_frame _ _) as [|e|f rest] eqn:Ep.
  - destruct Hpost as (-> & Hlog). cbn [zmtp_io]. eexists _, b1. destruct (Hwf b1 eq_refl eq_refl) as [H1 ->].
    split_and!; [done|done|]. unfold held. by rewrite Hlog.
  - destruct Hpost as (-> & _ & _). cbn [zmtp_io]. eexists _, b1. by destruct (Hwf b1 eq_refl eq_refl).
  - destruct Hpost as (-> & _ & Hlog). cbn [zmtp_io]. apply parse_frame_length in Ep.
    assert (Hlt : forall b2, decoder b2 = d' -> recv_buf b2 = src' ->
      base_wf b2 /\ (Datatypes.S (held b2) < held b)%nat).
    { intros b2 E1 E2. destruct (Hwf b2 E1 E2) as [? ->]. split; [done|]. rewrite Hlog. exact Ep. }
    assert (Hcmd : base_wf (handle_ping_pong b1 f) /\ (Datatypes.S (held (handle_ping_pong b1 f)) < held b)%nat).
    { destruct (handle_ping_pong_recv b1 f) as [E1 E2]. by apply Hlt. }
    destruct (is_command f).
    + cbn [curve_cipher set_decoder b1]. destruct (curve_cipher b) as [c|]; [|by eexists _, _].
      destruct (is_curve_message _); [|by eexists _, _].
      destruct (decrypt_frame c _) as [[[m p]|e] c']; eexists _, _; (split; [done|]);
        [by apply Hlt|by destruct (Hwf (set_cipher b1 (Some c')) eq_refl eq_refl)].
    + case_bool_decide; eexists _, _; (split; [done|]); [by destruct (Hwf b1 eq_refl eq_refl)|by apply Hlt].
Qed.

Lemma try_recv_loop_ends fuel b frames :
  base_wf b -> (held b < fuel)%nat ->
  exists r p, try_recv_loop fuel b frames = Some (Returned r, p) /\ base_wf (pull_base p) /\
    match r with
    | Ok (Some _) => (held (pull_base p) < held b)%nat
    | _ => True
    end.
Proof.
  revert b frames. induction fuel as [|fuel IH]; intros b frames Hwf Hf; [lia|]. cbn [try_recv_loop].
  destruct (process_frame_held b Hwf) as (r & b1 & -> & Hwf1 & Hr).
  assert (Hgo : forall frames, (Datatypes.S (held b1) < held b)%nat -> exists r p,
    try_recv_loop fuel b1 frames = Some (Returned r, p) /\ base_wf (pull_base p) /\
    match r with Ok (Some _) => (held (pull_base p) < held b)%nat | _ => True end).
  { intros fr Hlt. destruct (IH b1 fr Hwf1 ltac:(lia)) as (r' & p & -> & Hp & Hr'). eexists _, _.
    split_and!; [done|done|]. destruct r' as [[?|]|]; [lia|done..]. }
  destruct r as [[m p| |]|e]; [|by apply Hgo|by eexists _, _..].
  destruct (negb m && _); [eexists _, _; split_and!; [done|done|cbn; lia]|].
  destruct m; cbn [negb]; [by apply Hgo|]. eexists _, _. split_and!; [done|done|cbn; lia].
Qed.
End decoding.

(** ** The messages a PULL socket has yet to return *)

(** A message whose parts the peer's decoder accepts. *)
Definition sendable (max : Z) (m : list bytes) : Prop :=
  m <> [] /\ Forall (λ part, len part <= max /\ len part <= 0x7FFFFFFFFFFFFFFF) m.

Definition wire_of (ms : list (list bytes)) : bytes := concat ((λ m, encode_multipart m []) <$> ms).

Section pulling.
Context {S K : Type} `{ChunkStream S} `{!Aead K} (clock : nat -> Z) (max : Z).
Implicit Types (b : SocketBase S K) (p : PullSocket S K).

(** The frames collected so far and the bytes held and still to be read are
    those of the messages [ms]. *)
Record pulling p (ms : list (list bytes)) : Prop := {
  pg_max : max_frame_size (decoder (pull_base p)) = max;
  pg_quiet : send_buffer (pull_base p) = [];
  pg_later : Forall (sendable max) (tail ms);
  pg_now :
    match ms with
    | [] => pull_frames p = [] /\ receiving (pull_base p) []
    | m :: ms => exists fs, m = pull_frames p ++ (payload <$> fs) /\ message_tail fs /\
        Forall (plain_frame max) fs /\ receiving (pull_base p) (concat (encode <$> fs) ++ wire_of ms)
    end;
}.

Lemma pulling_between b ms :
  max_frame_size (decoder b) = max -> send_buffer b = [] -> Forall (sendable max) ms ->
  receiving b (wire_of ms) -> pulling (mk_pull b []) ms.
Proof.
  intros Hmax Hq Hms Hrc. split; [done|done|by destruct Hms|]. destruct ms as [|m ms]; [done|].
  apply list.Forall_cons in Hms as [[Hne Hm] Hms]. exists (message_frames m). cbn [pull_frames pull_base app].
  rewrite message_frames_payload. split_and!; [done|by apply message_frames_tail|by apply message_frames_plain|].
  unfold wire_of in Hrc. cbn [fmap list_fmap concat] in Hrc. by rewrite encode_multipart_frames in Hrc.
Qed.

Lemma pulling_wf p ms : pulling p ms -> base_wf (pull_base p).
Proof.
  intros [_ _ _ Hnow]. destruct ms as [|m ms]; [destruct Hnow as [_ Hrc]|destruct Hnow as (fs & _ & _ & _ & Hrc)];
    (split; [apply (rc_decoder _ _ Hrc)|apply (rc_recv _ _ Hrc)]).
Qed.

Lemma pulling_recv fuel p m ms :
  pulling p (m :: ms) -> (2 * chunks_left (pull_base p) + length m < fuel)%nat ->
  exists p', pull_recv clock fuel p = Some (Returned (Ok (Some m)), p') /\ pulling p' ms /\
    (chunks_left (pull_base p') <= chunks_left (pull_base p))%nat.
Proof.
  intros [Hmax Hq Hlater (fs & -> & Htail & Hfs & Hrc)] Hfuel. unfold pull_recv. rewrite pull_recv_loop_spec.
  rewrite <- Hmax in Hfs. rewrite length_app, length_fmap in Hfuel.
  destruct (recv_loop_message clock fuel 0 (pull_base p) (pull_frames p) fs _ Htail Hfs Hrc)
    as (b' & -> & Hrc' & Hcl & Hm' & Hq' & _); [lia|].
  cbn. eexists. split; [done|]. split; [|done]. apply pulling_between; [by rewrite Hm'|by rewrite Hq'|done|done].
Qed.

(** [recv] waits: it is pending, or its timer fires. *)
Lemma pulling_recv_idle fuel p :
  pulling p [] -> (0 < fuel)%nat ->
  exists o p', pull_recv clock fuel p = Some (o, p') /\ (o = Pending \/ o = Returned (Err TimedOut)) /\ pulling p' [] /\
    chunks_left (pull_base p') = 0%nat.
Proof.
  intros [Hmax Hq _ [Hf Hrc]] Hfuel. unfold pull_recv. rewrite pull_recv_loop_spec.
  destruct (recv_loop_idle clock fuel 0 _ (pull_frames p) Hrc Hfuel) as (o & b' & -> & Ho & Hrc' & Hcl & Hm & Hq' & _).
  eexists o, _. split; [done|]. split_and!; [done| |done]. split; [by rewrite <- Hmax|by rewrite <- Hq|done|]. by split.
Qed.

Lemma try_loop_pulling fuel b frames ms :
  pulling (mk_pull b frames) ms -> (held b < fuel)%nat ->
  exists p', chunks_left (pull_base p') = chunks_left b /\
    ((try_recv_loop fuel b frames = Some (Returned (Ok None), p') /\ pulling p' ms /\
        (ms <> [] -> (0 < chunks_left b)%nat)) \/
     (exists m ms', ms = m :: ms' /\ try_recv_loop fuel b frames = Some (Returned (Ok (Some m)), p') /\
        pulling p' ms')).
Proof.
  revert b frames ms. induction fuel as [|fuel IH]; intros b frames ms Hp Hfuel; [lia|]. cbn [try_recv_loop].
  pose proof (pulling_wf _ _ Hp) as Hwf. destruct Hp as [Hmax Hq Hlater Hnow]. cbn [pull_base pull_frames] in *.
  destruct ms as [|m ms].
  { destruct Hnow as [-> Hrc]. destruct (process_idle _ Hrc) as (b1 & -> & Hrc1 & Hc0 & Hc1 & Hm1 & Hq1).
    eexists (mk_pull b1 []). cbn [pull_base]. split; [by rewrite Hc0|]. left. split_and!; [done| |done].
    split; cbn [pull_base pull_frames]; [by rewrite Hm1|by rewrite Hq1|done..]. }
  destruct Hnow as (fs & -> & Htail & Hfs & Hrc). destruct fs as [|f fs]; [inversion Htail|].
  apply list.Forall_cons in Hfs as [Hf Hfs]. cbn [fmap list_fmap concat] in Hrc |- *. rewrite <- app_assoc in Hrc.
  rewrite <- Hmax in Hf. destruct (process_frame_held b Hwf) as (r & b0 & Hproc & _ & Hheld).
  destruct (process_data b _ f _ Hrc Hf eq_refl)
    as [(b1 & E & Hrc1 & Hs1 & Hq1 & Hm1 & _)|(b1 & E & Hrc1 & Hs1 & Hq1 & Hm1 & _ & s & Hs & Hi)];
    rewrite E in *; injection Hproc as <- <-;
    assert (Hcl : chunks_left b1 = chunks_left b) by (unfold chunks_left; by rewrite Hs1).
  - inversion Htail as [f0 Hlast|f0 fs0 Hmore Htail']; subst f0; simplify_eq.
    + rewrite Hlast. cbn [negb andb fmap list_fmap].
      assert (Hnext : pulling (mk_pull b1 []) ms) by (apply pulling_between; [congruence..|done|exact Hrc1]).
      case_bool_decide as Ef; [subst frames|]; (exists (mk_pull b1 []); split; [|right; eexists _, _; split_and!; [done|done|exact Hnext]]);
        exact Hcl.
    + rewrite Hmore. cbn [negb andb].
      destruct (IH b1 (frames ++ [payload f]) ((frames ++ payload f :: (payload <$> fs)) :: ms)) as (p' & Hc' & Hres);
        [|lia|exists p'; split; [congruence|by rewrite <- Hcl]].
      split; cbn [pull_base pull_frames]; [congruence|congruence|done|].
      exists fs. rewrite <- app_assoc. split_and!; [done|done|done|exact Hrc1].
  - exists (mk_pull b1 frames). split; [exact Hcl|]. left. split_and!; [done| |].
    + split; cbn [pull_base pull_frames]; [congruence|congruence|done|].
      exists (f :: fs). cbn [fmap list_fmap concat]. rewrite <- app_assoc. split_and!; [done|done| |exact Hrc1].
      constructor; [by rewrite <- Hmax|done].
    + intros _. unfold chunks_left. rewrite Hs. cbn. destruct (incoming s); [done|cbn; lia].
Qed.

Lemma pulling_try p ms :
  pulling p ms ->
  exists p', chunks_left (pull_base p') = chunks_left (pull_base p) /\
    ((pull_try_recv p = Some (Returned (Ok None), p') /\ pulling p' ms /\
        (ms <> [] -> (0 < chunks_left (pull_base p))%nat)) \/
     (exists m ms', ms = m :: ms' /\ pull_try_recv p = Some (Returned (Ok (Some m)), p') /\ pulling p' ms' /\
        (held (pull_base p') < held (pull_base p))%nat)).
Proof.
  intros Hp. pose proof (pulling_wf _ _ Hp) as Hwf. pose proof (held_fuel (pull_base p)) as Hfuel.
  destruct p as [b frames]. destruct (try_loop_pulling _ _ _ _ Hp Hfuel) as (p' & Hc & Hres). exists p'. split; [done|].
  destruct Hres as [?|(m & ms' & -> & Hrun & Hp')]; [by left|]. right. exists m, ms'. split_and!; [done|done|done|].
  destruct (try_recv_loop_ends _ b frames Hwf Hfuel) as (r & p2 & Hrun2 & _ & Hlt). cbn [pull_base] in *.
  rewrite Hrun in Hrun2. by injection Hrun2 as <- <-.
Qed.

Lemma drain_pulling fuel p ms acc :
  pulling p ms -> (held (pull_base p) < fuel)%nat ->
  exists got ms' p', ms = got ++ ms' /\ drain_batch fuel p acc = Some (Returned (Ok (acc ++ got)), p') /\
    pulling p' ms' /\ chunks_left (pull_base p') = chunks_left (pull_base p) /\
    (ms' <> [] -> (0 < chunks_left (pull_base p))%nat).
Proof.
  revert p ms acc. induction fuel as [|fuel IH]; intros p ms acc Hp Hf; [lia|]. cbn [drain_batch].
  destruct (pulling_try p ms Hp) as (p1 & Hc & [(-> & Hp1 & Hmore)|(m & ms' & -> & -> & Hp1 & Hlt)]); cbn.
  - exists [], ms, p1. by rewrite app_nil_r.
  - destruct (IH p1 ms' (acc ++ [m]) Hp1 ltac:(lia)) as (got & ms2 & p2 & -> & -> & Hp2 & Hc2 & Hmore).
    exists (m :: got), ms2, p2. rewrite <- app_assoc. split_and!; [done|done|done|congruence|]. by rewrite <- Hc.
Qed.

Lemma pulling_batch fuel p m ms :
  pulling p (m :: ms) -> (2 * chunks_left (pull_base p) + length m < fuel)%nat ->
  exists got ms' p', ms = got ++ ms' /\ pull_recv_batch clock fuel p = Some (Returned (Ok (Some (m :: got))), p') /\
    pulling p' ms' /\ (chunks_left (pull_base p') <= chunks_left (pull_base p))%nat /\
    (ms' <> [] -> (0 < chunks_left (pull_base p'))%nat).
Proof.
  intros Hp Hf. destruct (pulling_recv fuel p m ms Hp Hf) as (p1 & Hrecv & Hp1 & Hc1). unfold pull_recv_batch.
  rewrite Hrecv. cbn [mbind option_bind].
  destruct (drain_pulling _ p1 ms [m] Hp1 (held_fuel _)) as (got & ms' & p2 & -> & -> & Hp2 & Hc2 & Hmore).
  cbn [mbind option_bind await_bind]. rewrite bool_decide_eq_true_2 by apply (pg_quiet _ _ Hp2).
  exists got, ms', p2. split_and!; [done|done|done|lia|]. intros ?%Hmore. lia.
Qed.
End pulling.

(** ** Any mix of reads *)

Inductive pull_op :=
| RecvOp
| RecvIntoOp (out : list bytes)
| TryRecvOp
| TryRecvIntoOp (out : list bytes)
| RecvBatchOp.

(** Operations that wait for a message. *)
Definition blocking (op : pull_op) : bool :=
  match op with TryRecvOp | TryRecvIntoOp _ => false | _ => true end.

Section pull_run.
Context {S K : Type} `{ChunkStream S} `{!Aead K} (clock : nat -> Z) (fuel : nat).
Implicit Types p : PullSocket S K.

Definition returned_msg (o : outcome (option (list bytes))) : list (list bytes) :=
  match o with Returned (Ok (Some m)) => [m] | _ => [] end.

Definition returned_into (o : outcome bool) (out : list bytes) : list (list bytes) :=
  match o with Returned (Ok true) => [out] | _ => [] end.

(** The messages an operation hands to its caller. *)
Definition pull_step p (op : pull_op) : option (list (list bytes) * PullSocket S K) :=
  match op with
  | RecvOp => '(o, p) ← pull_recv clock fuel p; Some (returned_msg o, p)
  | RecvIntoOp out => '(o, p, out) ← pull_recv_into clock fuel p out; Some (returned_into o out, p)
  | TryRecvOp => '(o, p) ← pull_try_recv p; Some (returned_msg o, p)
  | TryRecvIntoOp out => '(o, p, out) ← pull_try_recv_into p out; Some (returned_into o out, p)
  | RecvBatchOp =>
      '(o, p) ← pull_recv_batch clock fuel p;
      Some (match o with Returned (Ok (Some batch)) => batch | _ => [] end, p)
  end.

Fixpoint pull_run p (ops : list pull_op) : option (list (list bytes) * PullSocket S K) :=
  match ops with
  | [] => Some ([], p)
  | op :: ops => '(got, p) ← pull_step p op; '(more, p) ← pull_run p ops; Some (got ++ more, p)
  end.

(** Two steps per piece of input and one per part. *)
Definition enough_fuel p (ms : list (list bytes)) : Prop :=
  (0 < fuel)%nat /\ Forall (λ m, 2 * chunks_left (pull_base p) + length m < fuel)%nat ms.

Lemma enough_fuel_le p p' got ms :
  enough_fuel p (got ++ ms) -> (chunks_left (pull_base p') <= chunks_left (pull_base p))%nat -> enough_fuel p' ms.
Proof.
  intros [H1 H2] Hle. split; [done|]. apply Forall_app in H2 as [_ H2]. eapply list.Forall_impl; [exact H2|]. cbn. lia.
Qed.

Lemma pull_into_recv p out :
  ('(o, p, out) ← pull_recv_into clock fuel p out; Some (returned_into o out, p)) =
  ('(o, p) ← pull_recv clock fuel p; Some (returned_msg o, p)).
Proof.
  unfold pull_recv_into, pull_recv. rewrite pull_recv_into_loop_spec.
  by destruct (pull_recv_loop _ _ _ _ _) as [[[[[]|]| |] p']|].
Qed.

Lemma pull_try_into p out :
  ('(o, p, out) ← pull_try_recv_into p out; Some (returned_into o out, p)) =
  ('(o, p) ← pull_try_recv p; Some (returned_msg o, p)).
Proof.
  unfold pull_try_recv_into, pull_try_recv. rewrite try_recv_into_loop_spec.
  by destruct (try_recv_loop _ _ _) as [[[[[]|]| |] p']|].
Qed.

Lemma pull_step_pulling max p op ms :
  pulling max p ms -> enough_fuel p ms ->
  exists got ms' p', pull_step p op = Some (got, p') /\ ms = got ++ ms' /\ pulling max p' ms' /\
    (chunks_left (pull_base p') <= chunks_left (pull_base p))%nat /\
    (blocking op = true -> ms <> [] -> got <> []).
Proof.
  intros Hp Hf.
  assert (Hrecv : exists got ms' p', ('(o, p) ← pull_recv clock fuel p; Some (returned_msg o, p)) = Some (got, p') /\
    ms = got ++ ms' /\ pulling max p' ms' /\ (chunks_left (pull_base p') <= chunks_left (pull_base p))%nat /\
    (ms <> [] -> got <> [])).
  { destruct Hf as [Hf0 Hf]. destruct ms as [|m ms].
    - destruct (pulling_recv_idle clock max fuel p Hp Hf0) as (o & p' & -> & Ho & Hp' & Hc). exists [], [], p'.
      cbn. split_and!; [by destruct Ho as [->| ->]|done|done|lia|done].
    - apply list.Forall_cons in Hf as [Hm _].
      destruct (pulling_recv clock max fuel p m ms Hp Hm) as (p' & -> & Hp' & Hc). by exists [m], ms, p'. }
  assert (Htry : exists got ms' p', ('(o, p) ← pull_try_recv p; Some (returned_msg o, p)) = Some (got, p') /\
    ms = got ++ ms' /\ pulling max p' ms' /\ (chunks_left (pull_base p') <= chunks_left (pull_base p))%nat).
  { destruct (pulling_try max p ms Hp) as (p' & Hc & [(-> & Hp' & _)|(m & ms' & -> & -> & Hp' & _)]).
    - exists [], ms, p'. cbn. split_and!; [done|done|done|lia].
    - exists [m], ms', p'. cbn. split_and!; [done|done|done|lia]. }
  destruct op; cbn [pull_step blocking]; rewrite ?pull_into_recv, ?pull_try_into.
  - destruct Hrecv as (got & ms' & p' & -> & ? & ? & ? & ?). eauto 10.
  - destruct Hrecv as (got & ms' & p' & -> & ? & ? & ? & ?). eauto 10.
  - destruct Htry as (got & ms' & p' & -> & ? & ? & ?). by exists got, ms', p'.
  - destruct Htry as (got & ms' & p' & -> & ? & ? & ?). by exists got, ms', p'.
  - destruct Hf as [Hf0 Hf]. destruct ms as [|m ms].
    + destruct (pulling_recv_idle clock max fuel p Hp Hf0) as (o & p' & Hr & Ho & Hp' & Hc). exists [], [], p'.
      unfold pull_recv_batch. rewrite Hr. split_and!; [by destruct Ho as [->| ->]|done|done|lia|done].
    + apply list.Forall_cons in Hf as [Hm _].
      destruct (pulling_batch clock max fuel p m ms Hp Hm) as (got & ms' & p' & -> & -> & Hp' & Hc & _).
      by exists (m :: got), ms', p'.
Qed.

Lemma pull_run_pulling max p ops ms :
  pulling max p ms -> enough_fuel p ms ->
  exists got ms' p', pull_run p ops = Some (got, p') /\ ms = got ++ ms' /\ pulling max p' ms' /\
    ((length ms <= length (List.filter blocking ops))%nat -> got = ms).
Proof.
  revert p ms. induction ops as [|op ops IH]; intros p ms Hp Hf; cbn [pull_run].
  - exists [], ms, p. split_and!; [done|done|done|]. by destruct ms; [|cbn; lia].
  - destruct (pull_step_pulling max p op ms Hp Hf) as (got & ms' & p' & -> & -> & Hp' & Hc & Hb). cbn [mbind option_bind].
    destruct (IH p' ms' Hp' (enough_fuel_le _ _ _ _ Hf Hc)) as (got' & ms2 & p2 & -> & -> & Hp2 & Hall).
    cbn [mbind option_bind]. exists (got ++ got'), ms2, p2. split_and!; [done|by rewrite <- app_assoc|done|].
    cbn [List.filter]. rewrite length_app. intros Hlen. destruct (blocking op) eqn:Eb; cbn [length] in Hlen.
    + destruct got as [|g got]; [|apply (f_equal (app (g :: got))), Hall; cbn [length] in Hlen; lia].
      destruct (got' ++ ms2) as [|x xs] eqn:E; [by apply app_nil in E as [-> ->]|].
      by destruct (Hb eq_refl).
    + apply (f_equal (app got)), Hall. lia.
Qed.
End pull_run.

(** ** Any mix of sends *)

Inductive push_op :=
| SendOp (msg : list bytes)
| SendOneOp (frame : bytes)
| SendBatchOp (msgs : list (list bytes))
| FlushOp.

Definition pushed (op : push_op) : list (list bytes) :=
  match op with SendOp m => [m] | SendOneOp f => [[f]] | SendBatchOp ms => ms | FlushOp => [] end.

Definition all_pushed (ops : list push_op) : list (list bytes) := concat (pushed <$> ops).

Lemma wire_of_app ms ms' : wire_of (ms ++ ms') = wire_of ms ++ wire_of ms'.
Proof. unfold wire_of. by rewrite fmap_app, concat_app. Qed.

Section push_run.
Context {S K : Type} `{WireStream S} `{!Aead K} (now : Z).
Implicit Types (b : SocketBase S K) (p : PushSocket S K).

Definition push_step p (op : push_op) : outcome unit * PushSocket S K :=
  match op with
  | SendOp msg => push_send now p msg
  | SendOneOp frame => push_send_one now p frame
  | SendBatchOp msgs => await! _n, p := push_send_batch now p msgs in (Returned (Ok tt), p)
  | FlushOp => push_flush p
  end.

(** The operations, then [flush]. *)
Fixpoint push_run p (ops : list push_op) : outcome unit * PushSocket S K :=
  match ops with
  | [] => push_flush p
  | op :: ops => await! _u, p := push_step p op in push_run p ops
  end.

(** A socket that can send, without heartbeats; without coalescing nothing
    waits in the buffer between two calls. *)
Definition pushing p (sent queued : bytes) : Prop :=
  sending (push_base p) sent queued /\ heartbeat_ivl (options (push_base p)) = None /\
  (write_coalescing (options (push_base p)) = false -> queued = []).

Lemma send_now_sending b sent msg :
  reliable (S := S) -> sending b sent [] ->
  exists b', send_now b msg = (Returned (Ok tt), b') /\ sending b' (sent ++ encode_multipart msg []) [] /\
    options b' = options b.
Proof.
  intros [Hrel _] ((s & Hs & Hw) & Hq & Hp & Hc & Ht). unfold send_now, encode_message_to_write_buf, encode_into.
  rewrite Hc. unfold write_from_buf. cbn [is_poisoned stream options write_buf set_cipher set_write_buf].
  rewrite Hp, Hs, Ht. destruct (write_all_wire s (encode_multipart msg [])) as (k & _ & Hk & Hfull).
  specialize (Hfull (Hrel s _)). pose proof (Hrel s (encode_multipart msg [])) as Hc'.
  destruct (stream_write_all s (encode_multipart msg [])) as [c s']. cbn [fst snd] in Hc', Hk. subst c k. cbn.
  eexists. split; [done|]. split; [|done]. repeat split; try done. eexists. split; [done|]. by rewrite Hk, Hw.
Qed.

Lemma heartbeat_off b : heartbeat_ivl (options b) = None -> heartbeat_after now b = (Returned (Ok tt), b).
Proof. intros Hh. unfold heartbeat_after, check_heartbeat. by rewrite Hh. Qed.

Lemma batch_encode_sending msgs b sent queued count :
  sending b sent queued -> 0 <= count ->
  exists b', push_batch_encode b msgs count = (Ok (count + len msgs), b') /\
    sending b' sent (queued ++ wire_of msgs) /\ options b' = options b.
Proof.
  revert b queued count. induction msgs as [|m msgs IH]; intros b queued count Hs Hc; cbn [push_batch_encode].
  - exists b. change (len []) with 0. rewrite Z.add_0_r. split; [done|]. cbn. by rewrite app_nil_r.
  - pose proof Hs as (Hst & Hq & Hp & Hci & Ht). unfold encode_message_to_send_buf, encode_into. rewrite Hci, Hq.
    set (b1 := set_buffered _ _). destruct (IH b1 (queued ++ encode_multipart m []) (count + 1)) as (b' & -> & Hs' & Ho);
      [|lia|].
    { split_and!; [done| |done|done|done]. cbn. by rewrite !encode_multipart_frames. }
    exists b'. rewrite len_cons. split; [f_equal; f_equal; lia|]. split; [|by rewrite Ho].
    change (wire_of (m :: msgs)) with (encode_multipart m [] ++ wire_of msgs). by rewrite app_assoc.
Qed.

Definition pushes p (x : outcome unit * PushSocket S K) (sent queued : bytes) (ms : list (list bytes)) : Prop :=
  exists p' sent' queued', x = (Returned (Ok tt), p') /\ pushing p' sent' queued' /\
    sent' ++ queued' = sent ++ queued ++ wire_of ms /\ sent `prefix_of` sent'.

(** The write paths of [send] and [send_one]. *)
Lemma write_pushes p sent queued w ms :
  pushing p sent queued ->
  (exists b' sent' queued', w = (Returned (Ok tt), b') /\ sending b' sent' queued' /\
     options b' = options (push_base p) /\ (sent' ++ queued' = sent ++ queued ++ wire_of ms /\ sent `prefix_of` sent') /\
     (write_coalescing (options (push_base p)) = false -> queued' = [])) ->
  pushes p (let '(o, b) := (await! _u, b := w in heartbeat_after now b) in (o, mk_push b)) sent queued ms.
Proof.
  intros (_ & Hh & _) (b' & sent' & queued' & -> & Hs' & Ho & Happ & Hq). cbn [await_bind].
  rewrite heartbeat_off by (by rewrite Ho). exists (mk_push b'), sent', queued'. split; [done|]. split; [|done].
  unfold pushing. cbn [push_base]. by rewrite Ho.
Qed.

Lemma wire_of_one m : wire_of [m] = encode_multipart m [].
Proof. unfold wire_of. cbn. by rewrite app_nil_r. Qed.

(** The three write paths of [send]. *)
Lemma send_paths b sent queued m :
  reliable (S := S) -> sending b sent queued -> (write_coalescing (options b) = false -> queued = []) ->
  exists b' sent' queued',
    (if write_coalescing (options b) then send_coalesced b m
     else if should_vectored_write b m then send_vectored b m else send_now b m) = (Returned (Ok tt), b') /\
    sending b' sent' queued' /\ options b' = options b /\
    (sent' ++ queued' = sent ++ queued ++ encode_multipart m [] /\ sent `prefix_of` sent') /\
    (write_coalescing (options b) = false -> queued' = []).
Proof.
  intros Hrel Hs Hco. assert (Hpre : forall k, sent `prefix_of` sent ++ k) by (intros k; by exists k).
  destruct (write_coalescing _) eqn:Ec; [|specialize (Hco eq_refl) as ->; destruct (should_vectored_write _ m)].
  - destruct (queued_step_sending _ _ _ (QCoalesced m) Hrel Hs) as (b' & s' & q' & Hstep & ? & ? & ? & ?).
    exists b', s', q'. by rewrite <- Hstep.
  - destruct m as [|f m].
    + exists b, sent, []. cbn. rewrite !app_nil_r. by split_and!.
    + destruct (vectored_sending _ _ _ (f :: m) Hrel Hs) as (b' & -> & ? & ?); [done|].
      eexists b', _, []. rewrite !app_nil_r. by split_and!.
  - destruct (send_now_sending _ _ m Hrel Hs) as (b' & -> & ? & ?). eexists b', _, []. rewrite !app_nil_r. by split_and!.
Qed.

Lemma push_step_pushing p sent queued op :
  reliable (S := S) -> pushing p sent queued -> pushes p (push_step p op) sent queued (pushed op).
Proof.
  intros Hrel Hp. assert (Hpre : forall k, sent `prefix_of` sent ++ k) by (intros k; by exists k).
  pose proof Hp as (Hs & Hh & Hco). destruct op as [m|f|ms|]; cbn [push_step pushed].
  - unfold push_send. apply write_pushes; [done|]. rewrite wire_of_one. by apply send_paths.
  - unfold push_send_one. apply write_pushes; [done|]. rewrite wire_of_one.
    destruct (write_coalescing _) eqn:Ec; [|specialize (Hco eq_refl) as ->; destruct (should_vectored_write _ _)].
    + destruct (queued_step_sending _ _ _ (QCoalesced [f]) Hrel Hs) as (b' & s' & q' & Hstep & ? & ? & ? & ?).
      exists b', s', q'. cbn [queued_step] in Hstep. rewrite <- Hstep.
      pose proof Hs as (_ & _ & _ & Hci & _). unfold encode_one_coalesced, send_coalesced, encode_into. rewrite Hci.
      assert (Hsame : forall x, set_cipher (set_send_buffer (push_base p) x) None = set_send_buffer (push_base p) x).
      { intros x. unfold set_cipher, set_send_buffer. cbn. by rewrite Hci. }
      rewrite Hsame. split_and!; [reflexivity|done..].
    + destruct (vectored_sending _ _ _ [f] Hrel Hs) as (b' & -> & ? & ?); [done|].
      eexists b', _, []. rewrite !app_nil_r. by split_and!.
    + destruct (send_now_sending _ _ [f] Hrel Hs) as (b' & -> & ? & ?). eexists b', _, []. rewrite !app_nil_r. by split_and!.
  - unfold push_send_batch. destruct (batch_encode_sending ms _ _ _ 0 Hs ltac:(lia)) as (b1 & -> & Hs1 & Ho1).
    rewrite Z.add_0_l.
    assert (Hfl : exists b2, (if 0 <? len ms then flush_send_buffer b1 else (Returned (Ok tt), b1)) = (Returned (Ok tt), b2) /\
      pushes p (Returned (Ok tt), mk_push b2) sent queued ms /\ heartbeat_ivl (options b2) = None).
    { destruct (0 <? len ms) eqn:El.
      - destruct (flush_sending b1 _ _ Hrel Hs1) as (b2 & -> & Hs2 & Ho2 & _). exists b2. split; [done|].
        rewrite Ho2, Ho1. split; [|done]. eexists (mk_push b2), _, []. split; [done|]. unfold pushing. cbn [push_base].
        rewrite Ho2, Ho1. split; [by split_and!|]. rewrite app_nil_r. by split.
      - assert (ms = []) as -> by (destruct ms; [done|]; rewrite len_cons in El; pose proof (len_nonneg ms); bool_prop; lia).
        exists b1. split; [done|]. rewrite Ho1. split; [|done]. eexists (mk_push b1), _, _. split; [done|].
        unfold pushing. cbn [push_base]. rewrite Ho1. split; [|done]. split_and!; [done|done|].
        intros E. by rewrite (Hco E). }
    destruct Hfl as (b2 & -> & Hpu & Hh2). cbn [await_bind]. rewrite heartbeat_off by done. exact Hpu.
  - unfold push_flush. destruct (flush_sending _ _ _ Hrel Hs) as (b2 & -> & Hs2 & Ho2 & _).
    eexists (mk_push b2), _, []. split; [done|]. unfold pushing. cbn [push_base]. rewrite Ho2. split; [by split_and!|].
    cbn. rewrite !app_nil_r. by split.
Qed.

Lemma push_run_pushing ops p sent queued :
  reliable (S := S) -> pushing p sent queued ->
  exists p', push_run p ops = (Returned (Ok tt), p') /\ pushing p' (sent ++ queued ++ wire_of (all_pushed ops)) [].
Proof.
  intros Hrel. revert p sent queued. induction ops as [|op ops IH]; intros p sent queued Hp; cbn [push_run].
  - destruct Hp as (Hs & Hh & Hco). unfold push_flush. destruct (flush_sending _ _ _ Hrel Hs) as (b2 & -> & Hs2 & Ho2 & _).
    exists (mk_push b2). split; [done|]. unfold pushing. cbn [push_base]. rewrite Ho2. split_and!; [|done|done].
    cbn. by rewrite app_nil_r.
  - destruct (push_step_pushing p sent queued op Hrel Hp) as (p1 & sent1 & queued1 & -> & Hp1 & Happ & _). cbn [await_bind].
    destruct (IH p1 sent1 queued1 Hp1) as (p' & -> & Hp'). exists p'. split; [done|]. revert Hp'.
    rewrite (app_assoc sent1), Happ. unfold all_pushed. cbn [fmap list_fmap concat]. rewrite wire_of_app.
    by rewrite <- !app_assoc.
Qed.
End push_run.

Definition sample_sends : list push_op :=
  [SendOp [ascii_bytes "a"; ascii_bytes "b"]; SendOneOp (ascii_bytes "c"); SendBatchOp [[ascii_bytes "d"]; [ascii_bytes "e"; []]]].

Definition sample_pull (w : bytes) : PullSocket ScriptStream unit :=
  pull_with_options (mk_script [] [ztake 7 w; zdrop 7 w] []) default_options None.

(** ** Heartbeats on a socket that never reads *)

Section push_heartbeat.
Context {S K : Type} `{WireStream S} `{!Aead K}.
Implicit Types (b : SocketBase S K) (p : PushSocket S K).

Definition same_heartbeat b b' : Prop :=
  last_recv_instant b' = last_recv_instant b /\ ping_sent_at b' = ping_sent_at b /\ awaiting_pong b' = awaiting_pong b.

Lemma guarded_heartbeat b w : same_heartbeat b (phase_base (guarded_write b w)).
Proof. unfold guarded_write. destruct w as [[[[]|e]|] s']; done. Qed.

Lemma flush_heartbeat b : same_heartbeat b (flush_send_buffer b).2.
Proof.
  unfold flush_send_buffer. rewrite finish_write_snd. unfold flush_phase.
  destruct (send_buffer b) as [|x buf]; [done|]. destruct (is_poisoned b); [done|]. destruct (stream b) as [s|]; [|done].
  destruct (is_zero_timeout _); [done|]. pose proof (guarded_heartbeat (set_send_buffer b []) (stream_write_all s (x :: buf))) as Hg.
  destruct (guarded_write _ _) as [[[]|e] b1|b1]; exact Hg.
Qed.

Lemma send_paths_heartbeat b m :
  same_heartbeat b (if write_coalescing (options b) then send_coalesced b m
     else if should_vectored_write b m then send_vectored b m else send_now b m).2.
Proof.
  destruct (write_coalescing _); [|destruct (should_vectored_write _ _)].
  - unfold send_coalesced. destruct (encode_into _ _ _) as [[[[]|e] c] buf]; [|done]. cbn zeta.
    destruct (_ <=? _); [|done]. apply (flush_heartbeat (set_cipher (set_send_buffer b buf) c)).
  - unfold send_vectored. case_bool_decide; [done|].
    assert (Hpre : same_heartbeat b (if bool_decide (send_buffer b = []) then (Returned (Ok tt), b) else flush_send_buffer b).2).
    { case_bool_decide; [done|]. apply flush_heartbeat. }
    destruct (if bool_decide (send_buffer b = []) then _ else _) as [[[[]|e]| |] b1]; cbn [await_bind snd] in *; [|done..].
    destruct (is_poisoned b1); [done|]. destruct (is_zero_timeout _); [done|]. cbn zeta.
    destruct (vectored_iovecs _ _); [|done]. cbn [stream set_write_buf]. destruct (stream b1) as [s|]; [|done].
    rewrite finish_write_snd. pose proof (guarded_heartbeat (set_write_buf b1 []) (stream_write_vectored_all s l)) as Hg.
    unfold same_heartbeat in *. destruct Hg as (-> & -> & ->). exact Hpre.
  - unfold send_now, encode_message_to_write_buf. destruct (encode_into _ _ _) as [[[[]|e] c] buf]; [|done].
    unfold write_from_buf. cbn [is_poisoned stream options set_cipher set_write_buf]. destruct (is_poisoned b); [done|].
    destruct (stream b) as [s|]; [|done]. destruct (is_zero_timeout _); [done|]. rewrite finish_write_snd.
    apply (guarded_heartbeat (set_write_buf (set_cipher (set_write_buf b buf) c) [])).
Qed.

(** A PUSH socket that has sent a PING at [t0] and waits for the PONG. *)
Definition pinged p (t0 : Z) : Prop :=
  exists sent queued, sending (push_base p) sent queued /\
    (write_coalescing (options (push_base p)) = false -> queued = []) /\
    awaiting_pong (push_base p) = true /\ ping_sent_at (push_base p) = Some t0.

Definition ping_timeout p : Z :=
  default (default 0 (heartbeat_ivl (options (push_base p)))) (heartbeat_timeout (options (push_base p))).

Lemma pinged_send p t0 now m ivl :
  reliable (S := S) -> pinged p t0 -> heartbeat_ivl (options (push_base p)) = Some ivl ->
  exists p', options (push_base p') = options (push_base p) /\
    (duration_since now t0 <= ping_timeout p -> push_send now p m = (Returned (Ok tt), p') /\ pinged p' t0) /\
    (ping_timeout p < duration_since now t0 -> 
       exists p2, push_send now p m = (Returned (Err TimedOut), p2) /\ stream (push_base p2) = None).
Proof.
  intros Hrel (sent & queued & Hs & Hco & Hw & Hping) Hivl. unfold push_send.
  destruct (send_paths _ _ _ m Hrel Hs Hco) as (b' & sent' & queued' & E & Hs' & Ho & _ & Hco').
  pose proof (send_paths_heartbeat (push_base p) m) as (_ & Hp2 & Hp3). rewrite E in *. cbn [snd await_bind] in *.
  exists (mk_push b'). cbn [push_base]. split; [done|]. unfold heartbeat_after, check_heartbeat, ping_timeout.
  rewrite Ho, Hp3, Hp2, Hw, Hping, Hivl. cbn [default]. split; intros Ht.
  - rewrite (proj2 (Z.ltb_ge _ _)) by exact Ht. split; [done|]. exists sent', queued'. cbn [push_base]. rewrite Ho.
    split_and!; [done|done|congruence|congruence].
  - rewrite (proj2 (Z.ltb_lt _ _)) by exact Ht. eauto.
Qed.

Lemma fresh_ping p sent now m ivl :
  reliable (S := S) -> sending (push_base p) sent [] -> heartbeat_ivl (options (push_base p)) = Some ivl ->
  0 <= ivl -> ivl + ivl <= duration_max -> instant_min <= now - (ivl + ivl) ->
  awaiting_pong (push_base p) = false -> last_recv_instant (push_base p) = None ->
  exists p', push_send now p m = (Returned (Ok tt), p') /\ pinged p' now /\ options (push_base p') = options (push_base p).
Proof.
  intros Hrel Hs Hivl Hpos Hmax Hmin Hw Hlast. unfold push_send.
  destruct (send_paths _ _ _ m Hrel Hs (λ _, eq_refl)) as (b' & sent' & queued' & E & Hs' & Ho & _ & Hco').
  pose proof (send_paths_heartbeat (push_base p) m) as (Hp1 & Hp2 & Hp3). rewrite E in *. cbn [snd await_bind] in *.
  unfold heartbeat_after, check_heartbeat. rewrite Ho, Hivl, Hp3, Hw. unfold idle_since. rewrite Hp1, Hlast.
  rewrite (proj2 (Z.ltb_ge _ _)) by lia. unfold instant_checked_sub. rewrite (proj2 (Z.leb_le _ _)) by exact Hmin.
  cbn [from_option id mbind option_bind]. unfold duration_since. rewrite (proj2 (Z.leb_le _ _)) by lia.
  set (b1 := set_ping _ _ _).
  assert (Hs1 : sending b1 sent' (queued' ++ ping_of (options (push_base p)) ivl)).
  { destruct Hs' as (? & Hq & ? & ? & ?). unfold b1. split_and!; cbn; [done|by rewrite Hq|done|done|done]. }
  pose proof (flush_heartbeat b1) as (_ & Hf2 & Hf3).
  destruct (flush_sending b1 _ _ Hrel Hs1) as (b2 & E2 & Hs2 & Ho2 & _). rewrite E2 in *. cbn [snd] in *.
  exists (mk_push b2). split; [done|]. cbn [push_base]. split; [|by rewrite Ho2, <- Ho].
  eexists _, []. split_and!; [exact Hs2|done|exact Hf3|exact Hf2].
Qed.

Fixpoint push_sends p (ms : list (Z * list bytes)) : outcome unit * PushSocket S K :=
  match ms with
  | [] => (Returned (Ok tt), p)
  | (now, m) :: ms => await! _u, p := push_send now p m in push_sends p ms
  end.

Lemma pinged_sends ms p t0 ivl :
  reliable (S := S) -> pinged p t0 -> heartbeat_ivl (options (push_base p)) = Some ivl ->
  Forall (λ '(t, _), duration_since t t0 <= ping_timeout p) ms ->
  exists p', push_sends p ms = (Returned (Ok tt), p') /\ pinged p' t0 /\ options (push_base p') = options (push_base p).
Proof.
  intros Hrel. revert p. induction ms as [|[t m] ms IH]; intros p Hp Hivl Hms; cbn [push_sends]; [eauto|].
  apply list.Forall_cons in Hms as [Ht Hms].
  destruct (pinged_send p t0 t m ivl Hrel Hp Hivl) as (p1 & Ho & Hok & _). destruct (Hok Ht) as [-> Hp1]. cbn [await_bind].
  destruct (IH p1 Hp1) as (p2 & -> & Hp2 & Ho2); [by rewrite Ho| |].
  - unfold ping_timeout in *. by rewrite Ho.
  - exists p2. split_and!; [done|done|congruence].
Qed.
End push_heartbeat.

(** Heartbeats make a healthy PUSH connection fail.  A PUSH socket never
    reads, so it never sees a PONG: after the PING of its first send, whatever
    the peer answers, the first send later than the heartbeat timeout reports
    [TimedOut] and drops the connection, although every write, this one
    included, has succeeded. *)
Theorem push_heartbeat_drops_live_peer {S K : Type} `{WireStream S} `{!Aead K} (s : S) (o : SocketOptions)
    (ivl t0 t1 : Z) (m0 m1 : list bytes) (between : list (Z * list bytes)) :
  let p := push_with_options (K := K) s o None in
  let timeout := default ivl (heartbeat_timeout o) in
  reliable (S := S) -> is_zero_timeout (send_timeout o) = false ->
  heartbeat_ivl o = Some ivl -> 0 <= ivl -> ivl + ivl <= duration_max -> instant_min <= t0 - (ivl + ivl) ->
  Forall (λ '(t, _), duration_since t t0 <= timeout) between -> timeout < t1 - t0 ->
  exists p1 p2, push_sends p ((t0, m0) :: between) = (Returned (Ok tt), p1) /\
    push_send t1 p1 m1 = (Returned (Err TimedOut), p2) /\ stream (push_base p2) = None.
Proof.
  intros p timeout Hrel Ht Hivl Hpos Hmax Hmin Hbetween Hlate.
  assert (Hs : sending (push_base p) (wire s) []) by (split_and!; eauto).
  destruct (fresh_ping p _ t0 m0 ivl Hrel Hs Hivl Hpos Hmax Hmin eq_refl eq_refl) as (p0 & E0 & Hp0 & Ho0).
  assert (Htm : ping_timeout p0 = timeout) by (unfold ping_timeout; rewrite Ho0; cbn; by rewrite Hivl).
  assert (Hivl0 : heartbeat_ivl (options (push_base p0)) = Some ivl) by (by rewrite Ho0).
  cbn [push_sends]. rewrite E0. cbn [await_bind].
  destruct (pinged_sends between p0 t0 ivl Hrel Hp0 Hivl0) as (p1 & -> & Hp1 & Ho1); [by rewrite Htm|].
  destruct (pinged_send p1 t0 t1 m1 ivl Hrel Hp1) as (_ & _ & _ & Hfail); [by rewrite Ho1|].
  destruct Hfail as (p2 & E2 & Hst); [|by exists p1, p2].
  unfold ping_timeout in *. rewrite Ho1, Htm. unfold duration_since. lia.
Qed.

Lemma push_heartbeat_drops_live_peer_witness :
  exists p1 p2,
    push_sends (push_with_options (K := unit) (mk_sink []) heartbeat_options None)
      [(1000, [ascii_bytes "a"]); (1200, [ascii_bytes "b"])] = (Returned (Ok tt), p1) /\
    push_send 1301 p1 [ascii_bytes "c"] = (Returned (Err TimedOut), p2) /\ stream (push_base p2) = None.
Proof.
  apply (push_heartbeat_drops_live_peer (mk_sink []) heartbeat_options 100 1000 1301 [ascii_bytes "a"] [ascii_bytes "c"]
    [(1200, [ascii_bytes "b"])]); try (vm_compute; congruence).
  - split; reflexivity.
  - repeat constructor. vm_compute. congruence.
Defined.
