(* ===== verification/Arrival.v ===== *)
(** * Bytes on their way

    What the files that join two sockets share.  [DuplexStream] is what a
    connection promises beyond its two directions: a write does not disturb what
    is to be read, and bytes delivered are read in order.  What one side has
    written arrives at the other any number of bytes at a time, cut in any
    pieces, so that a receive call may find the beginning of a message only:
    [collecting] is a socket in the middle of a message, [Lane] a direction of
    the connection as its reader sees it. *)

From S2P Require Import Prelude.
From S2P Require Import SegBuffer.
From S2P Require Import Codec.
From S2P Require Import Options.
From S2P Require Import CurveMessage.
From S2P Require Import Stream.
From S2P Require Import Base.
From S2P Require Import BaseWire.
From S2P Require Import Recv.
From S2P Require Import Pipeline.

Class DuplexStream (S : Type) `{!AsyncStream S} `{!WireStream S} `{!ChunkStream S} := {
  deliver : S -> bytes -> S;
  deliver_incoming s c : incoming (deliver s c) = incoming s ++ [c];
  deliver_wire s c : wire (deliver s c) = wire s;
  write_incoming s buf : incoming (stream_write_all s buf).2 = incoming s;
}.

(** A connection whose writes complete, to run the definitions. *)
Record PipeStream := mk_pipe {
  pipe_wire : bytes;
  pipe_input : list bytes;
}.

#[export] Instance pipe_stream : AsyncStream PipeStream := {
  stream_read s _ :=
    match pipe_input s with
    | [] => (Stalled, s)
    | c :: cs => (Completed (Ok c), mk_pipe (pipe_wire s) cs)
    end;
  stream_write_all s buf := (Completed (Ok tt), mk_pipe (pipe_wire s ++ buf) (pipe_input s));
  stream_write_vectored_all s bufs := (Completed (Ok tt), mk_pipe (pipe_wire s ++ concat bufs) (pipe_input s));
  stream_shutdown s := (Completed (Ok tt), s);
}.

#[export] Instance pipe_wire_stream : WireStream PipeStream.
Proof. refine {| wire := pipe_wire |}; [eauto..| |done]. intros s n. cbn. by destruct (pipe_input s). Defined.

#[export] Instance pipe_chunks : ChunkStream PipeStream.
Proof. refine {| incoming := pipe_input |}. intros s n. cbn. by destruct (pipe_input s) eqn:E; cbn; rewrite ?E. Defined.

#[export] Instance pipe_duplex : DuplexStream PipeStream.
Proof. by refine {| deliver s c := mk_pipe (pipe_wire s) (pipe_input s ++ [c]) |}. Defined.

(** The pieces in which bytes arrive: [S n] bytes for each [n] of [cuts], then
    the rest. *)
Fixpoint pieces (cuts : list nat) (bs : bytes) : list bytes :=
  match bs, cuts with
  | [], _ => []
  | _, [] => [bs]
  | _, n :: cuts => take (S n) bs :: pieces cuts (drop (S n) bs)
  end.

Lemma pieces_spec cuts bs :
  concat (pieces cuts bs) = bs /\ Forall (λ c, c <> []) (pieces cuts bs) /\ (length (pieces cuts bs) <= S (length cuts))%nat.
Proof.
  revert bs. induction cuts as [|n cuts IH]; intros [|x bs]; cbn [pieces concat length];
    [split_and!; [done|constructor|lia]|rewrite app_nil_r; split_and!; [done|by repeat constructor|lia]
    |split_and!; [done|constructor|lia]|].
  destruct (IH (drop (S n) (x :: bs))) as (Hc & Hne & Hl).
  split_and!; [by rewrite Hc, take_drop|by constructor|lia].
Qed.

(** ** One direction of the connection *)

(** Of the bytes [sent], [pos] have arrived and [out] is under way. *)
Definition under_way (sent : bytes) (pos : Z) (out : list (list bytes)) : Prop :=
  0 <= pos <= len sent /\ zdrop pos sent = wire_of out.

Lemma under_way_app sent pos out ms : under_way sent pos out -> under_way (sent ++ wire_of ms) pos (out ++ ms).
Proof.
  intros [Hp Hz]. pose proof (len_nonneg (wire_of ms)). split; [rewrite len_app; lia|].
  rewrite zdrop_app_le by lia. by rewrite Hz, wire_of_app.
Qed.

Lemma under_way_send sent pos out m : under_way sent pos out -> under_way (sent ++ encode_multipart m []) pos (out ++ [m]).
Proof. rewrite <- wire_of_one. apply under_way_app. Qed.

Lemma under_way_arrived sent : under_way sent (len sent) [].
Proof. split; [pose proof (len_nonneg sent); lia|]. rewrite <- (app_nil_r sent) at 2. by rewrite zdrop_app_ge, Z.sub_diag by lia. Qed.

(** ** One end of the connection *)

Section endpoint.
Context {S K : Type} `{DuplexStream S} `{!Aead K}.
Implicit Types b : SocketBase S K.

Definition base_deliver b (cs : list bytes) : SocketBase S K :=
  set_stream b ((λ s, foldl deliver s cs) <$> stream b).

Definition wire_bytes b : bytes := from_option wire [] (stream b).

(** A connected end: [bs] is to be read, [sent] is on the wire. *)
Definition linked b (bs sent : bytes) : Prop := receiving b bs /\ sending b sent [].

Lemma deliver_pieces cs s :
  incoming (foldl deliver s cs) = incoming s ++ cs /\ wire (foldl deliver s cs) = wire s.
Proof.
  revert s. induction cs as [|c cs IH]; intros s; cbn [foldl]; [by rewrite app_nil_r|].
  destruct (IH (deliver s c)) as [-> ->]. by rewrite deliver_incoming, deliver_wire, <- app_assoc.
Qed.

Lemma deliver_linked b bs sent cs :
  linked b bs sent -> Forall (λ c, c <> []) cs ->
  linked (base_deliver b cs) (bs ++ concat cs) sent /\ chunks_left (base_deliver b cs) = (chunks_left b + length cs)%nat.
Proof.
  intros [[Hd Hr Hc Hh Ht (s & Hs & Hne & Hbs)] ((s0 & Hs0 & Hw) & Hq)] Hcs. rewrite Hs in Hs0. injection Hs0 as <-.
  destruct (deliver_pieces cs s) as [Hi Hw']. split; [split|].
  - split; try done. exists (foldl deliver s cs). split_and!; [by cbn; rewrite Hs|rewrite Hi; by apply Forall_app|].
    cbn. rewrite Hi, concat_app, app_assoc, Hbs. done.
  - split; [|done]. exists (foldl deliver s cs). split; [by cbn; rewrite Hs|]. by rewrite Hw'.
  - unfold chunks_left. cbn. rewrite Hs. cbn. by rewrite Hi, length_app.
Qed.

Lemma send_now_linked b bs sent msg :
  reliable (S := S) -> linked b bs sent ->
  exists b', send_now b msg = (Returned (Ok tt), b') /\ linked b' bs (sent ++ encode_multipart msg []) /\
    options b' = options b /\ max_frame_size (decoder b') = max_frame_size (decoder b) /\ chunks_left b' = chunks_left b.
Proof.
  intros Hrel [[Hd Hr Hc Hh Ht (s & Hs & Hne & Hbs)] Hsend].
  destruct (send_now_sending b sent msg Hrel Hsend) as (b' & E & Hsend' & Ho). exists b'.
  destruct Hsend as (_ & _ & Hp & _ & Hz). pose proof (write_incoming s (encode_multipart msg [])) as Hi.
  pose proof (proj1 Hrel s (encode_multipart msg [])) as Hw.
  unfold send_now, encode_message_to_write_buf, encode_into in E. rewrite Hc in E. unfold write_from_buf in E.
  cbn [is_poisoned stream options write_buf set_cipher set_write_buf] in E. rewrite Hp, Hs, Hz in E.
  destruct (stream_write_all s _) as [c s'] eqn:Ew. cbn [fst snd] in Hi, Hw. subst c. cbn in E. injection E as <-.
  split_and!; [|split; [|exact Hsend']|done|done|by unfold chunks_left; rewrite Hs; cbn; rewrite Hi].
  - unfold send_now, encode_message_to_write_buf, encode_into. rewrite Hc. unfold write_from_buf.
    cbn [is_poisoned stream options write_buf set_cipher set_write_buf]. by rewrite Hp, Hs, Hz, Ew.
  - split; try done. exists s'. by rewrite Hi.
Qed.

Lemma quiet_sending b b' sent :
  quiet b b' -> send_buffer b' = send_buffer b -> curve_cipher b' = None -> sending b sent [] -> sending b' sent [].
Proof.
  intros (Hp & Ho & Hs) Hq Hc ((s & E & Hw) & Hb & Hp0 & _ & Hz).
  destruct (Hs (λ s, wire s = sent)) with (s := s) as (s' & E' & Hw'); [intros s1 n; by rewrite read_wire|done..|].
  repeat split; [eauto|congruence..].
Qed.

Lemma recv_linked (clock : nat -> Z) fuel b m sent :
  sendable (max_frame_size (decoder b)) m -> linked b (encode_multipart m []) sent ->
  (2 * chunks_left b + length m < fuel)%nat ->
  exists b', recv_loop clock fuel 0 b [] = Some (Returned (Ok (Some m)), b', []) /\ linked b' [] sent /\
    options b' = options b /\ max_frame_size (decoder b') = max_frame_size (decoder b).
Proof.
  intros [Hne Hm] [Hrc Hsend] Hfuel. rewrite <- (app_nil_r (encode_multipart m [])) in Hrc.
  destruct (recv_one_message clock fuel m b [] Hne Hm Hrc Hfuel) as (b' & E & Hrc' & _ & Hmax & Hq & Hquiet).
  exists b'. split_and!; [done| |by destruct Hquiet as (_ & ? & _)|done].
  split; [done|]. eapply quiet_sending; [exact Hquiet|done|apply Hrc'|done].
Qed.

Lemma linked_idle b sent : linked b [] sent -> chunks_left b = 0%nat.
Proof. intros [Hrc _]. by destruct (process_idle b Hrc) as (? & _ & _ & ? & _). Qed.
End endpoint.

(** ** A receive call that finds part of a message *)

Section partial.
Context {S K : Type} `{ChunkStream S} `{!Aead K} (clock : nat -> Z).
Implicit Types b : SocketBase S K.

(** The next frame is decoded, or its last byte is still to come. *)
Lemma process_part b bs f rest later :
  receiving b bs -> plain_frame (max_frame_size (decoder b)) f -> bs ++ later = encode f ++ rest ->
  exists r b', process_frame b = Some (Ok r, b') /\ stream b' = stream b /\ send_buffer b' = send_buffer b /\
    max_frame_size (decoder b') = max_frame_size (decoder b) /\ quiet b b' /\
    ((r = FData (more f) (payload f) /\ exists bs', receiving b' bs' /\ bs' ++ later = rest) \/
     (r = FNeedMore /\ receiving b' bs /\ (chunks_left b = 0%nat -> len bs < len (encode f)))).
Proof.
  intros [Hd Hr Hc Hh Ht (s & Hs & Hne & Hbs)] Hf Heq.
  destruct (decode_ok (decoder b) (recv_buf b) Hd Hr) as (r & d' & src' & Hdec & Hd' & Hr' & Hm & Hpost).
  unfold process_frame. rewrite Hdec. cbn [mbind option_bind].
  assert (Hb1 : forall bs1, logical d' src' ++ concat (incoming s) = bs1 -> receiving (set_decoder b d' src') bs1).
  { intros bs1 H1. split; try done. exists s. by rewrite <- H1. }
  rewrite <- Hbs, <- app_assoc in Heq.
  destruct (parse_prefix _ _ _ _ _ Hf Heq) as [(rest0 & Hp & Hrest)|[Hp Hmore]]; rewrite Hp in Hpost.
  - destruct Hpost as (-> & _ & Hlog). cbn [zmtp_io]. destruct Hf as (_ & Hcmd & _). rewrite Hcmd. cbn. rewrite Hc.
    rewrite bool_decide_eq_false_2 by (by intros []). eexists _, _. split; [done|].
    split_and!; [done..|by apply quiet_same_stream|]. left. split; [done|]. eexists. split; [by apply Hb1|].
    by rewrite Hlog, <- app_assoc.
  - destruct Hpost as (-> & Hlog). cbn [zmtp_io]. eexists _, _. split; [done|].
    split_and!; [done..|by apply quiet_same_stream|]. right. split; [done|]. split; [apply Hb1; by rewrite Hlog|].
    intros Hcl. unfold chunks_left in Hcl. rewrite Hs in Hcl. cbn in Hcl. apply nil_length_inv in Hcl.
    rewrite Hcl in *. cbn [concat app] in Hbs, Heq. rewrite app_nil_r in Hbs. subst bs.
    destruct (Z.lt_ge_cases (len (logical (decoder b) (recv_buf b))) (len (encode f))) as [|Hge]; [done|].
    destruct Hf as (Hfl & _ & Hw & Hmx & Hsz). exfalso.
    assert (Hpre : encode f ++ zdrop (len (encode f)) (logical (decoder b) (recv_buf b)) = logical (decoder b) (recv_buf b)).
    { pose proof (f_equal (ztake (len (encode f))) Heq) as Ht'. rewrite (ztake_app_le _ (logical _ _)) in Ht' by lia.
      rewrite (ztake_app_le _ (encode f)), (ztake_ge _ (encode f)) in Ht' by lia. rewrite <- Ht' at 1. apply ztake_zdrop. }
    pose proof (parse_encode (max_frame_size (decoder b)) f (zdrop (len (encode f)) (logical (decoder b) (recv_buf b))) Hfl Hmx Hsz) as Hpe.
    rewrite Hpre in Hpe. congruence.
Qed.

(** A read with nothing to come waits, or its timer fires, whatever is held. *)
Lemma read_stalls b bs t :
  receiving b bs -> chunks_left b = 0%nat ->
  exists b', read_raw b t = (idle_outcome b, b') /\ receiving b' bs /\ chunks_left b' = 0%nat /\
    decoder b' = decoder b /\ send_buffer b' = send_buffer b /\ quiet b b'.
Proof.
  intros [Hd Hr Hc Hh Ht (s & Hs & Hne & Hbs)] Hcl. unfold read_raw. rewrite Hs, Ht.
  assert (Hi : incoming s = []) by (unfold chunks_left in Hcl; rewrite Hs in Hcl; by apply nil_length_inv).
  pose proof (read_chunk s (effective_read_buffer_size (options b))) as Hread. rewrite Hi in Hread, Hbs.
  destruct (stream_read s _) as [c s1] eqn:Es. cbn [fst snd] in Hread. destruct Hread as [-> Hi1]. cbn [with_timer].
  exists (set_stream b (Some s1)). unfold idle_outcome. cbn [set_stream options].
  split_and!; [by destruct (recv_timeout (options b))| | |done|done|].
  - split; try done. exists s1. by rewrite Hi1.
  - unfold chunks_left. cbn. by rewrite Hi1.
  - split_and!; [done|done|]. intros P HP s0 E0 H0'. rewrite Hs in E0. injection E0 as <-.
    exists s1. split; [done|]. specialize (HP s (effective_read_buffer_size (options b)) H0'). by rewrite Es in HP.
Qed.

(** The loop takes the rest of a message whose last byte has arrived, and
    otherwise keeps the frames it has and waits. *)
Lemma recv_loop_arrives fuel i b frames fs bs rest later :
  message_tail fs -> Forall (plain_frame (max_frame_size (decoder b))) fs -> receiving b bs ->
  bs ++ later = concat (encode <$> fs) ++ rest -> (2 * chunks_left b + length fs < fuel)%nat ->
  exists o b' frames', recv_loop clock fuel i b frames = Some (o, b', frames') /\
    (chunks_left b' <= chunks_left b)%nat /\ max_frame_size (decoder b') = max_frame_size (decoder b) /\
    send_buffer b' = send_buffer b /\ quiet b b' /\
    ((o = Returned (Ok (Some (frames ++ (payload <$> fs)))) /\ frames' = [] /\
        exists bs', receiving b' bs' /\ bs' ++ later = rest) \/
     (o = idle_outcome b /\ len rest < len later /\
        exists fs1 fs2 bs', fs = fs1 ++ fs2 /\ frames' = frames ++ (payload <$> fs1) /\ message_tail fs2 /\
          receiving b' bs' /\ bs' ++ later = concat (encode <$> fs2) ++ rest)).
Proof.
  revert i b frames fs bs. induction fuel as [|fuel IH]; intros i b frames fs bs Htail Hfs Hrc Heq Hfuel; [lia|].
  destruct fs as [|f fs]; [inversion Htail|]. apply list.Forall_cons in Hfs as [Hf Hfs].
  cbn [fmap list_fmap concat] in Heq. rewrite <- app_assoc in Heq. cbn [recv_loop].
  destruct (process_part b bs f _ later Hrc Hf Heq) as (r & b1 & -> & Hs1 & Hq1 & Hm1 & Hqu1 & [(-> & bs1 & Hrc1 & Heq1)|(-> & Hrc1 & Hshort)]);
    assert (Hcl : chunks_left b1 = chunks_left b) by (unfold chunks_left; by rewrite Hs1).
  - inversion Htail as [f0 Hlast|f0 fs0 Hmore Htail']; subst.
    + rewrite Hlast. eexists _, b1, []. split; [done|]. split_and!; [lia|done..|]. left. split_and!; eauto.
    + rewrite Hmore. cbn [length] in Hfuel. rewrite <- Hm1 in Hfs.
      destruct (IH i b1 (frames ++ [payload f]) fs bs1 Htail' Hfs Hrc1 Heq1) as (o & b2 & fr & -> & Hcl2 & Hm2 & Hq2 & Hqu2 & Hres); [lia|].
      exists o, b2, fr. split; [done|]. split_and!; [lia|congruence|congruence|by transitivity b1|].
      destruct Hres as [(-> & -> & Hres)|(-> & Hlt & fs1 & fs2 & bs2 & -> & -> & Ht2 & Hrc2 & Heq2)]; [left|right].
      * split_and!; [by rewrite <- app_assoc|done|done].
      * split_and!; [by unfold idle_outcome; destruct Hqu1 as (_ & -> & _)|done|]. exists (f :: fs1), fs2, bs2.
        rewrite <- app_assoc. by split_and!.
  - destruct (decide (chunks_left b = 0%nat)) as [E0|Hne].
    + destruct (read_stalls b1 bs (clock i) Hrc1) as (b2 & Hread & Hrc2 & Hcl2 & Hd2 & Hq2 & Hqu2); [lia|]. rewrite Hread.
      assert (Hio : idle_outcome (A := Z) b1 = idle_outcome b) by (unfold idle_outcome; by destruct Hqu1 as (_ & -> & _)).
      assert (Hlt : len rest < len later).
      { pose proof (f_equal len Heq) as Hl. rewrite !len_app in Hl. specialize (Hshort E0).
        pose proof (len_nonneg (concat (encode <$> fs))). lia. }
      exists (idle_outcome b), b2, frames.
      assert (Hpost : (chunks_left b2 <= chunks_left b)%nat /\ max_frame_size (decoder b2) = max_frame_size (decoder b) /\
        send_buffer b2 = send_buffer b /\ quiet b b2).
      { split_and!; [lia|congruence|congruence|by transitivity b1]. }
      destruct Hpost as (P1 & P2 & P3 & P4).
      rewrite Hio. unfold idle_outcome. split; [by destruct (recv_timeout (options b))|]. split_and!; [done..|].
      right. split_and!; [done|done|]. exists [], (f :: fs), bs. rewrite app_nil_r. cbn [fmap list_fmap concat app].
      rewrite <- app_assoc. by split_and!.
    + destruct (read_chunk_step b1 bs (clock i) Hrc1) as (n & b2 & -> & Hn & Hrc2 & Hcl2 & Hd2 & Hq2 & Hqu2); [lia|].
      rewrite (proj2 (Z.eqb_neq _ _)) by done.
      assert (Hhb : check_heartbeat b2 (clock (Datatypes.S i)) = Some (Ok false, b2)).
      { unfold check_heartbeat. by rewrite (rc_heartbeat _ _ Hrc2). }
      rewrite Hhb. rewrite <- Hm1, <- Hd2 in Hf, Hfs.
      destruct (IH (Datatypes.S (Datatypes.S i)) b2 frames (f :: fs) bs Htail) as (o & b3 & fr & -> & Hcl3 & Hm3 & Hq3 & Hqu3 & Hres).
      * by constructor.
      * done.
      * cbn [fmap list_fmap concat]. by rewrite <- app_assoc.
      * lia.
      * exists o, b3, fr. split; [done|]. split_and!; [lia|congruence|congruence|by transitivity b1; [|transitivity b2]|].
        destruct Hres as [?|(-> & ?)]; [by left|right]. split; [|done].
        unfold idle_outcome. destruct Hqu1 as (_ & Eo1 & _), Hqu2 as (_ & Eo2 & _). by rewrite Eo2, Eo1.
Qed.

(** A socket in the middle of its input: the frames collected, the bytes held,
    those to be read and those [later] on the way are the messages [ms]. *)
Record collecting (max : Z) b (frames : list bytes) (later : bytes) (ms : list (list bytes)) : Prop := {
  cg_max : max_frame_size (decoder b) = max;
  cg_fits : Forall (sendable max) (tail ms);
  cg_now :
    match ms with
    | [] => frames = [] /\ later = [] /\ receiving b []
    | m :: ms => exists fs bs, m = frames ++ (payload <$> fs) /\ message_tail fs /\ Forall (plain_frame max) fs /\
        receiving b bs /\ bs ++ later = concat (encode <$> fs) ++ wire_of ms
    end;
}.

Lemma collecting_between max b bs later ms :
  max_frame_size (decoder b) = max -> Forall (sendable max) ms -> receiving b bs -> bs ++ later = wire_of ms ->
  collecting max b [] later ms.
Proof.
  intros Hmax Hms Hrc Heq. split; [done|by destruct Hms|]. destruct ms as [|m ms].
  - apply app_nil in Heq as [-> ->]. done.
  - apply list.Forall_cons in Hms as [[Hne Hm] Hms]. exists (message_frames m), bs. cbn [app].
    rewrite message_frames_payload. split_and!; [done|by apply message_frames_tail|by apply message_frames_plain|done|].
    rewrite Heq. change (wire_of (m :: ms)) with (encode_multipart m [] ++ wire_of ms). by rewrite encode_multipart_frames.
Qed.

Lemma collecting_receiving max b frames later ms : collecting max b frames later ms -> exists bs, receiving b bs.
Proof. intros [_ _ Hnow]. destruct ms; [destruct Hnow as (_ & _ & ?)|destruct Hnow as (? & ? & _ & _ & _ & ? & _)]; eauto. Qed.

(** The peer writes one more message. *)
Lemma collecting_written max b frames later ms m :
  collecting max b frames later ms -> sendable max m ->
  collecting max b frames (later ++ encode_multipart m []) (ms ++ [m]).
Proof.
  intros [Hmax Hfit Hnow] Hm. destruct ms as [|m0 ms].
  - destruct Hnow as (-> & -> & Hrc). apply (collecting_between max b []); [done|by constructor|done|]. cbn [app]. by rewrite wire_of_one.
  - destruct Hnow as (fs & bs & -> & Ht & Hfs & Hrc & Heq). cbn [tail] in Hfit. split; [done| |].
    + cbn. apply Forall_app. split; [done|]. by constructor.
    + cbn. exists fs, bs. split_and!; [done..|]. rewrite wire_of_app, wire_of_one, !app_assoc. by rewrite Heq.
Qed.

Lemma collecting_written_all max b frames later ms new :
  collecting max b frames later ms -> Forall (sendable max) new -> collecting max b frames (later ++ wire_of new) (ms ++ new).
Proof.
  intros Hcg Hnew. revert later ms Hcg. induction Hnew as [|m new Hm Hnew IH]; intros later ms Hcg.
  - change (wire_of []) with (@nil byte). by rewrite !app_nil_r.
  - change (wire_of (m :: new)) with (encode_multipart m [] ++ wire_of new). rewrite app_assoc.
    replace (ms ++ m :: new) with ((ms ++ [m]) ++ new) by (by rewrite <- app_assoc). by apply IH, collecting_written.
Qed.

(** The next message has not arrived whole. *)
Definition unarrived (later : bytes) (ms : list (list bytes)) : Prop :=
  match ms with [] => True | _ :: ms => len (wire_of ms) < len later end.

(** The bytes held and those to be read. *)
Definition unread b : bytes := logical (decoder b) (recv_buf b) ++ from_option (λ s, concat (incoming s)) [] (stream b).

Lemma receiving_unread b bs : receiving b bs -> unread b = bs.
Proof. intros [_ _ _ _ _ (s & Hs & _ & Hbs)]. unfold unread. by rewrite Hs. Qed.

(** What a receive call makes of it: the first message, exactly when its last
    byte has arrived. *)
Lemma collecting_recv fuel i max b frames later ms :
  collecting max b frames later ms -> (0 < fuel)%nat -> Forall (λ m, 2 * chunks_left b + length m < fuel)%nat ms ->
  exists o b' frames', recv_loop clock fuel i b frames = Some (o, b', frames') /\
    (chunks_left b' <= chunks_left b)%nat /\ send_buffer b' = send_buffer b /\ quiet b b' /\
    match ms with
    | m :: ms' =>
        if len later <=? len (wire_of ms') then o = Returned (Ok (Some m)) /\ frames' = [] /\ collecting max b' [] later ms'
        else o = idle_outcome b /\ collecting max b' frames' later ms
    | [] => o = idle_outcome b /\ frames' = [] /\ collecting max b' [] later []
    end.
Proof.
  intros [Hmax Hfit Hnow] H0' Hfuel. destruct ms as [|m ms].
  - destruct Hnow as (-> & -> & Hrc). destruct fuel as [|fuel]; [lia|]. cbn [recv_loop].
    destruct (idle_read_exact b (clock i) Hrc) as (b1 & b' & -> & -> & Hrc' & Hcl' & Hm & Hq & Hqu).
    exists (idle_outcome b), b', []. unfold idle_outcome. split; [by destruct (recv_timeout (options b))|].
    split_and!; [lia|done..|]. apply (collecting_between max b' []); [by rewrite Hm|done..].
  - destruct Hnow as (fs & bs & -> & Ht & Hfs & Hrc & Heq). rewrite <- Hmax in Hfs.
    apply list.Forall_cons in Hfuel as [Hf _]. rewrite length_app, length_fmap in Hf.
    destruct (recv_loop_arrives fuel i b frames fs bs _ later Ht Hfs Hrc Heq)
      as (o & b' & fr & E & Hcl & Hm & Hq & Hqu & Hres); [lia|].
    exists o, b', fr. split_and!; [done..|].
    destruct Hres as [(-> & -> & bs' & Hrc' & Heq')|(-> & Hlt & fs1 & fs2 & bs' & -> & -> & Ht2 & Hrc' & Heq')].
    + rewrite (proj2 (Z.leb_le _ _)).
      * split_and!; [done|done|]. apply (collecting_between max b' bs'); [congruence|done|done|done].
      * rewrite <- Heq', len_app. pose proof (len_nonneg bs'). lia.
    + rewrite (proj2 (Z.leb_gt _ _)) by done. split; [done|]. split; [congruence|done|].
      exists fs2, bs'. rewrite fmap_app, app_assoc. split_and!; [done|done| |done|done].
      rewrite Hmax in Hfs. by apply Forall_app in Hfs as [_ ?].
Qed.
End partial.

(** ** A direction of a connection *)

(** The messages written and not yet received, and how many of their bytes have
    arrived. *)
Record Lane := mk_lane {
  coming : list (list bytes);
  arrived : Z;
}.

#[export] Instance lane_eq_dec : EqDecision Lane.
Proof. solve_decision. Defined.

Definition lane_send (l : Lane) (m : list bytes) : Lane := mk_lane (coming l ++ [m]) (arrived l).

Definition lane_arrive (l : Lane) (n : nat) : Lane :=
  mk_lane (coming l) (Z.min (arrived l + Z.of_nat n) (len (wire_of (coming l)))).

(** A message can be received when its last byte has arrived. *)
Definition lane_recv (l : Lane) : option (list bytes * Lane) :=
  match coming l with
  | [] => None
  | m :: ms =>
      let n := len (encode_multipart m []) in
      if n <=? arrived l then Some (m, mk_lane ms (arrived l - n)) else None
  end.

Definition lane_ok (l : Lane) : Prop := 0 <= arrived l <= len (wire_of (coming l)).
Definition lane_later (l : Lane) : bytes := zdrop (arrived l) (wire_of (coming l)).

Lemma lane_send_later l m : lane_ok l -> lane_ok (lane_send l m) /\ lane_later (lane_send l m) = lane_later l ++ encode_multipart m [].
Proof.
  unfold lane_ok, lane_later. cbn [lane_send coming arrived]. intros Hl. rewrite wire_of_app, wire_of_one, len_app.
  pose proof (len_nonneg (encode_multipart m [])). split; [lia|]. by rewrite zdrop_app_le by lia.
Qed.

Lemma lane_recv_later l m l' : lane_ok l -> lane_recv l = Some (m, l') -> lane_later l' = lane_later l /\ lane_ok l'.
Proof.
  unfold lane_ok, lane_later, lane_recv. destruct l as [[|x ms] a]; [done|]. cbn [coming arrived].
  change (wire_of (x :: ms)) with (encode_multipart x [] ++ wire_of ms). rewrite len_app.
  destruct (Z.leb_spec (len (encode_multipart x [])) a); [|done]. intros Ha [= <- <-]. cbn [coming arrived].
  split; [|lia]. by rewrite zdrop_app_ge by lia.
Qed.

Lemma ztake_zdrop_min {A} n (l : list A) : 0 <= n -> len (ztake n l) = Z.min n (len l).
Proof.
  intros Hn. destruct (Z.le_gt_cases n (len l)).
  - rewrite len_ztake by lia. lia.
  - rewrite ztake_ge by lia. lia.
Qed.

Lemma lane_arrive_later l n :
  lane_ok l -> lane_ok (lane_arrive l n) /\ lane_later l = ztake (Z.of_nat n) (lane_later l) ++ lane_later (lane_arrive l n) /\
  arrived (lane_arrive l n) = arrived l + len (ztake (Z.of_nat n) (lane_later l)).
Proof.
  unfold lane_ok, lane_later. cbn [lane_arrive coming arrived]. intros Hl. set (w := wire_of (coming l)) in *.
  rewrite ztake_zdrop_min, len_zdrop by lia. split; [lia|]. split; [|lia].
  destruct (Z.le_gt_cases (arrived l + Z.of_nat n) (len w)).
  - rewrite Z.min_l by lia. rewrite <- zdrop_zdrop by lia. by rewrite ztake_zdrop.
  - rewrite Z.min_r by lia. rewrite (zdrop_ge (len w)), app_nil_r by lia. rewrite ztake_ge; [done|]. rewrite len_zdrop by lia. lia.
Qed.

(** The lane as its writer sees it: of the bytes [sent], [pos] have arrived. *)
Definition on_way (sent : bytes) (pos : Z) (l : Lane) : Prop := 0 <= pos <= len sent /\ zdrop pos sent = lane_later l.

Lemma on_way_new sent : on_way sent (len sent) (mk_lane [] 0).
Proof. split; [pose proof (len_nonneg sent); lia|]. by rewrite zdrop_ge by lia. Qed.

Lemma on_way_send sent pos l m :
  lane_ok l -> on_way sent pos l -> on_way (sent ++ encode_multipart m []) pos (lane_send l m).
Proof.
  intros Hl [Hp Hz]. destruct (lane_send_later l m Hl) as [_ El]. pose proof (len_nonneg (encode_multipart m [])).
  split; [rewrite len_app; lia|]. by rewrite zdrop_app_le, Hz, El by lia.
Qed.

(** The next [n] bytes, as far as there are any. *)
Definition next_bytes (n : nat) (pos : Z) (w : bytes) : bytes := ztake (Z.of_nat n) (zdrop pos w).

Lemma on_way_arrive sent pos l n :
  lane_ok l -> on_way sent pos l ->
  next_bytes n pos sent = ztake (Z.of_nat n) (lane_later l) /\ on_way sent (pos + len (next_bytes n pos sent)) (lane_arrive l n).
Proof.
  intros Hl [Hp Hz]. unfold next_bytes. rewrite Hz. split; [done|]. destruct (lane_arrive_later l n Hl) as (_ & El & _).
  set (t := ztake (Z.of_nat n) (lane_later l)) in *. pose proof (len_nonneg t).
  pose proof (f_equal len Hz) as Hlen. rewrite len_zdrop in Hlen by lia. pose proof (f_equal len El) as Hlen'. rewrite len_app in Hlen'.
  pose proof (len_nonneg (lane_later (lane_arrive l n))). split; [lia|].
  rewrite <- zdrop_zdrop by lia. rewrite Hz, El, zdrop_app_ge, Z.sub_diag, zdrop_0 by lia. done.
Qed.

Section ends.
Context {S K : Type} `{DuplexStream S} `{!Aead K} (clock : nat -> Z).
Implicit Types b : SocketBase S K.

(** Only what is to be read of the stream matters. *)
Lemma collecting_stream max b frames later ms s s' :
  collecting max b frames later ms -> stream b = Some s -> incoming s' = incoming s ->
  collecting max (set_stream b (Some s')) frames later ms.
Proof.
  intros [Hmax Hfit Hnow] Hs Hi.
  assert (Hgo : forall bs, receiving b bs -> receiving (set_stream b (Some s')) bs).
  { intros bs [? ? ? ? ? (s0 & Hs0 & Hne & Hbs)]. rewrite Hs in Hs0. injection Hs0 as <-. split; try done. exists s'. by rewrite Hi. }
  split; [done|done|]. destruct ms as [|m ms].
  - destruct Hnow as (? & ? & ?). split_and!; eauto.
  - destruct Hnow as (fs & bs & ? & ? & ? & ? & ?). exists fs, bs. split_and!; eauto.
Qed.

(** More of what is on the way arrives. *)
Lemma collecting_deliver max b frames cs later ms :
  collecting max b frames (concat cs ++ later) ms -> Forall (λ c, c <> []) cs ->
  collecting max (base_deliver b cs) frames later ms /\ chunks_left (base_deliver b cs) = (chunks_left b + length cs)%nat.
Proof.
  intros Hcg Hcs.
  assert (Hdel : forall bs, receiving b bs -> receiving (base_deliver b cs) (bs ++ concat cs) /\
    chunks_left (base_deliver b cs) = (chunks_left b + length cs)%nat).
  { intros bs [Hd Hr Hc Hh Ht (s & Hs & Hne & Hbs)]. destruct (deliver_pieces cs s) as [Hi _]. split.
    - split; try done. exists (foldl deliver s cs). split_and!; [by cbn; rewrite Hs|rewrite Hi; by apply Forall_app|].
      cbn. by rewrite Hi, concat_app, app_assoc, Hbs.
    - unfold chunks_left. cbn. rewrite Hs. cbn. by rewrite Hi, length_app. }
  destruct (collecting_receiving _ _ _ _ _ Hcg) as [bs0 Hrc0]. split; [|by eapply Hdel].
  destruct Hcg as [Hmax Hfit Hnow]. split; [done|done|]. destruct ms as [|m ms].
  - destruct Hnow as (-> & [E1 E2]%app_nil & Hrc). split_and!; [done|done|]. destruct (Hdel _ Hrc) as [Hrc' _]. by rewrite E1 in Hrc'.
  - destruct Hnow as (fs & bs & -> & Ht & Hfs & Hrc & Heq). exists fs, (bs ++ concat cs). split_and!; [done..|by eapply Hdel|].
    by rewrite <- app_assoc.
Qed.

(** An end: it can send and has [sent], and collects what comes along its lane;
    at most [n] pieces wait to be read. *)
Record end_at (max : Z) b (frames : list bytes) (l : Lane) (sent : bytes) (n : nat) : Prop := {
  ea_lane : lane_ok l;
  ea_collecting : collecting max b frames (lane_later l) (coming l);
  ea_sending : sending b sent [];
  ea_pieces : (chunks_left b <= n)%nat;
}.

Lemma end_wire max b frames l sent n : end_at max b frames l sent n -> wire_bytes b = sent.
Proof. intros [_ _ ((s & Hs & Hw) & _) _]. unfold wire_bytes. by rewrite Hs. Qed.

Lemma end_mono max b frames l sent n n' : (n <= n')%nat -> end_at max b frames l sent n -> end_at max b frames l sent n'.
Proof. intros Hn [? ? ? ?]. split; [done..|lia]. Qed.

Lemma end_new max b sent :
  max_frame_size (decoder b) = max -> linked b [] sent -> end_at max b [] (mk_lane [] 0) sent 0.
Proof.
  intros Hmax Hl. split; [by vm_compute| |apply Hl|by rewrite (linked_idle _ _ Hl)].
  apply (collecting_between max b []); [done|constructor|apply Hl|done].
Qed.

(** It writes a message. *)
Lemma end_send max b frames l sent n m :
  reliable (S := S) -> end_at max b frames l sent n ->
  exists b', send_now b m = (Returned (Ok tt), b') /\ end_at max b' frames l (sent ++ encode_multipart m []) n /\
    options b' = options b.
Proof.
  intros Hrel [Hlo Hcg Hs Hn].
  assert (Hgo : forall bs, receiving b bs -> exists b', send_now b m = (Returned (Ok tt), b') /\ receiving b' bs /\
    sending b' (sent ++ encode_multipart m []) [] /\ options b' = options b /\
    max_frame_size (decoder b') = max_frame_size (decoder b) /\ chunks_left b' = chunks_left b).
  { intros bs Hrc. destruct (send_now_linked b bs sent m Hrel (conj Hrc Hs)) as (b' & E & [Hrc' Hs'] & Ho & Hm & Hc). by exists b'. }
  destruct Hcg as [Hmax Hfit Hnow]. destruct l as [ms a]. cbn [coming] in *. destruct ms as [|m0 ms].
  - destruct Hnow as (-> & El & Hrc). destruct (Hgo _ Hrc) as (b' & E & Hrc' & Hs' & Ho & Hm & Hc). exists b'.
    split_and!; [done| |done]. split; [done| |done|lia]. split; [congruence|done|]. by split_and!.
  - destruct Hnow as (fs & bs & -> & Ht & Hfs & Hrc & Heq). destruct (Hgo _ Hrc) as (b' & E & Hrc' & Hs' & Ho & Hm & Hc). exists b'.
    split_and!; [done| |done]. split; [done| |done|lia]. split; [congruence|done|]. exists fs, bs. by split_and!.
Qed.

(** The other side writes a message to it. *)
Lemma end_written max b frames l sent n m :
  end_at max b frames l sent n -> sendable max m -> end_at max b frames (lane_send l m) sent n.
Proof.
  intros [Hlo Hcg Hs Hn] Hm. destruct (lane_send_later l m Hlo) as [Hlo' El]. split; [done| |done|done].
  rewrite El. by apply collecting_written.
Qed.

(** Some of what is on the way arrives: [k] bytes, cut at [cuts]. *)
Lemma end_deliver max b frames l sent n k cuts :
  end_at max b frames l sent n ->
  end_at max (base_deliver b (pieces cuts (ztake (Z.of_nat k) (lane_later l)))) frames (lane_arrive l k) sent
    (n + Datatypes.S (length cuts)).
Proof.
  intros [Hlo Hcg Hs Hn]. destruct (lane_arrive_later l k Hlo) as (Hlo' & El & _).
  destruct (pieces_spec cuts (ztake (Z.of_nat k) (lane_later l))) as (Hc & Hne & Hlen).
  rewrite El, <- Hc in Hcg. destruct (collecting_deliver _ _ _ _ _ _ Hcg Hne) as [Hcg' Hcl'].
  split; [done|exact Hcg'| |lia].
  destruct Hs as ((s & E & Hw) & Hq). split; [|exact Hq]. destruct (deliver_pieces (pieces cuts (ztake (Z.of_nat k) (lane_later l))) s) as [_ Hw'].
  exists (foldl deliver s (pieces cuts (ztake (Z.of_nat k) (lane_later l)))). split; [by cbn; rewrite E|]. by rewrite Hw'.
Qed.

(** It receives: what its lane says. *)
Lemma end_recv fuel i max b frames l sent n longest :
  end_at max b frames l sent n -> Forall (λ m, (length m <= longest)%nat) (coming l) -> (2 * n + longest < fuel)%nat ->
  exists o b' frames', recv_loop clock fuel i b frames = Some (o, b', frames') /\ options b' = options b /\
    match lane_recv l with
    | Some (m, l') => o = Returned (Ok (Some m)) /\ frames' = [] /\ end_at max b' [] l' sent n
    | None => o = idle_outcome b /\ end_at max b' frames' l sent n
    end.
Proof.
  intros [Hlo Hcg Hs Hn] Hlong Hfuel.
  destruct (collecting_recv clock fuel i max b frames _ _ Hcg) as (o & b' & fr & E & Hcl & Hq & Hqu & Hres); [lia| |].
  { apply (list.Forall_impl _ _ _ Hlong). intros m Hm. cbn in Hm. lia. }
  exists o, b', fr. split; [done|]. split; [by destruct Hqu as (_ & ? & _)|].
  assert (Hend : forall frames' l', lane_ok l' -> collecting max b' frames' (lane_later l') (coming l') -> end_at max b' frames' l' sent n).
  { intros frames' l' Hl' Hcg'. split; [done|done| |lia]. destruct (collecting_receiving _ _ _ _ _ Hcg') as [bs' Hrc'].
    eapply quiet_sending; [exact Hqu|done|apply Hrc'|done]. }
  unfold lane_ok, lane_later, lane_recv in *. destruct l as [ms a]. cbn [coming arrived] in *. destruct ms as [|m ms].
  - destruct Hres as (-> & -> & Hcg'). split; [done|]. by apply (Hend [] (mk_lane [] a)).
  - set (w := encode_multipart m []) in *. change (wire_of (m :: ms)) with (w ++ wire_of ms) in *. rewrite len_app in Hlo.
    rewrite len_zdrop, len_app in Hres by (rewrite len_app; lia).
    destruct (Z.leb_spec (len w) a) as [Hle|Hgt].
    + rewrite (proj2 (Z.leb_le _ _)) in Hres by lia. destruct Hres as (-> & -> & Hcg'). split_and!; [done|done|].
      apply (Hend [] (mk_lane ms (a - len w))); [unfold lane_ok; cbn [coming arrived]; lia|]. unfold lane_later. cbn [coming arrived].
      by rewrite zdrop_app_ge in Hcg' by lia.
    + rewrite (proj2 (Z.leb_gt _ _)) in Hres by lia. destruct Hres as (-> & Hcg'). split; [done|].
      apply (Hend fr (mk_lane (m :: ms) a)); [|exact Hcg']. unfold lane_ok. cbn [coming arrived]. change (wire_of (m :: ms)) with (w ++ wire_of ms). rewrite len_app. lia.
Qed.
End ends.

(** A new socket on a new connection. *)
Lemma pipe_linked (o : SocketOptions) :
  heartbeat_ivl o = None -> is_zero_timeout (recv_timeout o) = false -> is_zero_timeout (send_timeout o) = false ->
  linked (set_cipher (base_new (K := unit) (mk_pipe [] []) o) None) [] [].
Proof.
  intros Hh Hr Hs. split; [|repeat split; try done; by eexists]. split; try done; [apply base_decoder_wf|].
  exists (mk_pipe [] []). split; [done|]. split; [done|]. cbn. unfold base_decoder. by destruct (max_msg_size o).
Qed.
