(* ===== verification/PushPull.v ===== *)
(** * PUSH and PULL joined by a connection

    push.rs and pull.rs of monocoque-zmtp: the pipeline pattern end to end.  What
    the PUSH socket has put on the wire arrives any number of bytes at a time, so
    that every receive call of PULL may find part of a message. *)

From S2P Require Import Prelude.
From S2P Require Import SegBuffer.
From S2P Require Import Codec.
From S2P Require Import Options.
From S2P Require Import CurveMessage.
From S2P Require Import Stream.
From S2P Require Import Base.
From S2P Require Import BaseWire.
From S2P Require Import Recv.
From S2P Require Import Sockets.
From S2P Require Import Pipeline.
From S2P Require Import Arrival.

(** ** The system *)

Inductive pipe_op :=
| Push (now : Z) (op : push_op)
| Arrive (n : nat) (cuts : list nat)       (** the next [n] bytes on the wire arrive *)
| Pull (op : pull_op).

Section system.
Context {S T K : Type} `{WireStream S} `{DuplexStream T} `{!Aead K} (clock : nat -> Z) (fuel : nat).

(** The sockets, and how many bytes of the wire have arrived. *)
Record PushPull := mk_pp {
  pp_push : PushSocket S K;
  pp_pull : PullSocket T K;
  pp_pos : Z;
}.

(** The messages a call hands to its caller; a call that waits hands out none.
    [None]: it ended in any other way. *)
Definition waited {A} (o : outcome A) : option (list (list bytes)) :=
  match o with Pending | Returned (Err TimedOut) => Some [] | _ => None end.

Definition pull_got (q : PullSocket T K) (op : pull_op) : option (list (list bytes) * PullSocket T K) :=
  match op with
  | RecvOp =>
      '(o, q) ← pull_recv clock fuel q;
      got ← match o with Returned (Ok (Some m)) => Some [m] | o => waited o end; Some (got, q)
  | RecvIntoOp out =>
      '(o, q, out) ← pull_recv_into clock fuel q out;
      got ← match o with Returned (Ok true) => Some [out] | o => waited o end; Some (got, q)
  | TryRecvOp =>
      '(o, q) ← pull_try_recv q;
      got ← match o with Returned (Ok (Some m)) => Some [m] | Returned (Ok None) => Some [] | _ => None end; Some (got, q)
  | TryRecvIntoOp out =>
      '(o, q, out) ← pull_try_recv_into q out;
      got ← match o with Returned (Ok true) => Some [out] | Returned (Ok false) => Some [] | _ => None end; Some (got, q)
  | RecvBatchOp =>
      '(o, q) ← pull_recv_batch clock fuel q;
      got ← match o with Returned (Ok (Some batch)) => Some batch | o => waited o end; Some (got, q)
  end.

Definition pipe_step (l : PushPull) (op : pipe_op) : option (list (list bytes) * PushPull) :=
  let '(mk_pp p q pos) := l in
  match op with
  | Push now op => match push_step now p op with (Returned (Ok _), p) => Some ([], mk_pp p q pos) | _ => None end
  | Arrive n cuts =>
      let w := next_bytes n pos (wire_bytes (push_base p)) in
      Some ([], mk_pp p (set_pull_base q (base_deliver (pull_base q) (pieces cuts w))) (pos + len w))
  | Pull op => '(got, q) ← pull_got q op; Some (got, mk_pp p q pos)
  end.

Fixpoint pipe_run (l : PushPull) (ops : list pipe_op) : option (list (list bytes) * PushPull) :=
  match ops with
  | [] => Some ([], l)
  | op :: ops => '(got, l) ← pipe_step l op; '(more, l) ← pipe_run l ops; Some (got ++ more, l)
  end.

Definition pipe_pushed (ops : list pipe_op) : list (list bytes) :=
  concat ((λ op, match op with Push _ op => pushed op | _ => [] end) <$> ops).

(** ** The receiving end *)

Implicit Types (b : SocketBase T K) (q : PullSocket T K).

Lemma collecting_wf max b frames later ms : collecting max b frames later ms -> base_wf b.
Proof. intros [bs Hrc]%collecting_receiving. split; [apply (rc_decoder _ _ Hrc)|apply (rc_recv _ _ Hrc)]. Qed.

Lemma try_loop_collecting max k b frames later ms :
  collecting max b frames later ms -> (held b < k)%nat ->
  exists r q, try_recv_loop k b frames = Some (Returned (Ok r), q) /\ chunks_left (pull_base q) = chunks_left b /\
    send_buffer (pull_base q) = send_buffer b /\
    match r with
    | None => collecting max (pull_base q) (pull_frames q) later ms
    | Some m => exists ms', ms = m :: ms' /\ collecting max (pull_base q) (pull_frames q) later ms'
    end.
Proof.
  revert b frames. induction k as [|k IH]; intros b frames Hcg Hk; [lia|]. cbn [try_recv_loop].
  pose proof (collecting_wf _ _ _ _ _ Hcg) as Hwf. destruct Hcg as [Hmax Hfit Hnow]. destruct ms as [|m ms].
  { destruct Hnow as (-> & -> & Hrc). destruct (process_idle _ Hrc) as (b1 & -> & Hrc1 & Hc0 & Hc1 & Hm1 & Hq1).
    exists None, (mk_pull b1 []). cbn [pull_base pull_frames]. split_and!; [done|lia|done|].
    apply (collecting_between max b1 []); [congruence|done..]. }
  destruct Hnow as (fs & bs & -> & Htail & Hfs & Hrc & Heq). destruct fs as [|f fs]; [inversion Htail|].
  apply list.Forall_cons in Hfs as [Hf Hfs]. cbn [fmap list_fmap concat] in Heq. rewrite <- app_assoc in Heq.
  rewrite <- Hmax in Hf. destruct (process_frame_held b Hwf) as (r & b0 & Hproc & _ & Hheld).
  destruct (process_part b bs f _ later Hrc Hf Heq) as (r1 & b1 & E & Hs1 & Hq1 & Hm1 & _ & Hres).
  rewrite E in *. injection Hproc as <- <-.
  assert (Hcl : chunks_left b1 = chunks_left b) by (unfold chunks_left; by rewrite Hs1).
  destruct Hres as [(-> & bs1 & Hrc1 & Heq1)|(-> & Hrc1 & _)].
  - inversion Htail as [f0 Hlast|f0 fs0 Hmore Htail']; subst f0; [subst fs|subst fs0].
    + rewrite Hlast. cbn [negb andb fmap list_fmap].
      assert (Hnext : collecting max b1 [] later ms) by (apply (collecting_between max b1 bs1); [congruence|done|done|exact Heq1]).
      case_bool_decide as Ef; [subst frames|]; (eexists (Some _), (mk_pull b1 []); split_and!; [done|done|done|]; eauto).
    + rewrite Hmore. cbn [negb andb].
      destruct (IH b1 (frames ++ [payload f])) as (r & q & -> & Hc & Hq & Hres); [|lia|].
      { split; [congruence|done|]. exists fs, bs1. rewrite <- app_assoc. by split_and!. }
      exists r, q. split_and!; [done|lia|congruence|]. done.
  - exists None, (mk_pull b1 frames). cbn [pull_base pull_frames]. split_and!; [done|done|done|]. split; [congruence|done|].
    exists (f :: fs), bs. cbn [fmap list_fmap concat]. rewrite <- app_assoc. split_and!; [done|done| |done|done].
    constructor; [by rewrite <- Hmax|done].
Qed.

(** A PULL socket between calls: nothing to send, at most [n] pieces to read. *)
Record pull_at (max : Z) q (later : bytes) (ms : list (list bytes)) (n : nat) : Prop := {
  pa_collecting : collecting max (pull_base q) (pull_frames q) later ms;
  pa_quiet : send_buffer (pull_base q) = [];
  pa_pieces : (chunks_left (pull_base q) <= n)%nat;
}.

Lemma pull_at_try max q later ms n :
  pull_at max q later ms n ->
  exists r q', pull_try_recv q = Some (Returned (Ok r), q') /\
    match r with
    | None => pull_at max q' later ms n
    | Some m => (held (pull_base q') < held (pull_base q))%nat /\ exists ms', ms = m :: ms' /\ pull_at max q' later ms' n
    end.
Proof.
  intros [Hcg Hq Hn]. destruct q as [b frames]. cbn [pull_base pull_frames] in *. unfold pull_try_recv. cbn [pull_base pull_frames].
  destruct (try_loop_collecting max _ b frames later ms Hcg (held_fuel b)) as (r & q & E & Hc & Hs & Hres). rewrite E.
  destruct (try_recv_loop_ends _ b frames (collecting_wf _ _ _ _ _ Hcg) (held_fuel b)) as (r2 & q2 & E2 & _ & Hlt).
  rewrite E in E2. injection E2 as <- <-. exists r, q. split; [done|]. destruct r as [m|].
  - split; [done|]. destruct Hres as (ms' & -> & Hcg'). exists ms'. split; [done|]. split; [done|congruence|lia].
  - split; [done|congruence|lia].
Qed.

Lemma pull_at_drain max k q later ms n acc :
  pull_at max q later ms n -> (held (pull_base q) < k)%nat ->
  exists got ms' q', ms = got ++ ms' /\ drain_batch k q acc = Some (Returned (Ok (acc ++ got)), q') /\ pull_at max q' later ms' n.
Proof.
  revert q ms acc. induction k as [|k IH]; intros q ms acc Hp Hk; [lia|]. cbn [drain_batch].
  destruct (pull_at_try _ _ _ _ _ Hp) as (r & q1 & -> & Hr). cbn [mbind option_bind]. destruct r as [m|].
  - destruct Hr as (Hlt & ms1 & -> & Hp1). destruct (IH q1 ms1 (acc ++ [m]) Hp1 ltac:(lia)) as (got & ms2 & q2 & -> & -> & Hp2).
    exists (m :: got), ms2, q2. by rewrite <- app_assoc.
  - exists [], ms, q1. by rewrite app_nil_r.
Qed.

Lemma pull_at_recv max q later ms n longest :
  pull_at max q later ms n -> Forall (λ m, (length m <= longest)%nat) ms -> (2 * n + longest < fuel)%nat ->
  exists o q', pull_recv clock fuel q = Some (o, q') /\
    ((exists m ms', ms = m :: ms' /\ ~ unarrived later ms /\ o = Returned (Ok (Some m)) /\ pull_at max q' later ms' n) \/
     (unarrived later ms /\ waited o = Some [] /\ (forall a, o <> Returned (Ok a)) /\ pull_at max q' later ms n)).
Proof.
  intros [Hcg Hq Hn] Hlong Hfuel. unfold pull_recv. rewrite pull_recv_loop_spec.
  destruct (collecting_recv clock fuel 0 max (pull_base q) (pull_frames q) later ms Hcg) as (o & b' & fr & -> & Hcl & Hs & _ & Hres); [lia| |].
  { apply (list.Forall_impl _ _ _ Hlong). intros m Hm. cbn in Hm. lia. }
  cbn [mbind option_bind]. exists o, (mk_pull b' fr). split; [done|].
  assert (Hw : waited (idle_outcome (A := option (list bytes)) (pull_base q)) = Some [] /\
    forall a : option (list bytes), idle_outcome (pull_base q) <> Returned (Ok a)).
  { unfold idle_outcome. by destruct (recv_timeout (options (pull_base q))). }
  destruct ms as [|m ms].
  - destruct Hres as (-> & -> & Hcg'). right. destruct Hw. split_and!; [done..|]. split; cbn; [done|congruence|lia].
  - cbn [unarrived]. destruct (Z.leb_spec (len later) (len (wire_of ms))).
    + destruct Hres as (-> & -> & Hcg'). left. exists m, ms. split_and!; [done|lia|done|]. split; cbn; [done|congruence|lia].
    + destruct Hres as (-> & Hcg'). right. destruct Hw. split_and!; [done..|]. split; cbn; [done|congruence|lia].
Qed.

(** Every call takes messages from the front; one that waits takes at least one
    if that has arrived, and none otherwise. *)
Lemma pull_got_spec max q op later ms n longest :
  pull_at max q later ms n -> Forall (λ m, (length m <= longest)%nat) ms -> (2 * n + longest < fuel)%nat ->
  exists got ms' q', pull_got q op = Some (got, q') /\ ms = got ++ ms' /\ pull_at max q' later ms' n /\
    (blocking op = true -> got = [] <-> unarrived later ms).
Proof.
  intros Hp Hlong Hfuel.
  destruct (pull_at_recv max q later ms n longest Hp Hlong Hfuel) as (o & q1 & Erecv & Hrecv).
  destruct (pull_at_try _ _ _ _ _ Hp) as (r & q2 & Etry & Htry).
  assert (Hblock : exists got ms' q', (got ← match o with Returned (Ok (Some m)) => Some [m] | o => waited o end; Some (got, q1)) = Some (got, q') /\
    ms = got ++ ms' /\ pull_at max q' later ms' n /\ (got = [] <-> unarrived later ms)).
  { destruct Hrecv as [(m & ms' & -> & Hna & -> & Hp')|(Hna & Hw & Hno & Hp')].
    - exists [m], ms', q1. by split_and!.
    - exists [], ms, q1. destruct o as [[[m|]|e]| |]; [by destruct (Hno (Some m))|by destruct (Hno None)|..]; rewrite Hw; by split_and!. }
  assert (Htry' : exists got ms' q', (got ← match r with Some m => Some [m] | None => Some [] end; Some (got, q2)) = Some (got, q') /\
    ms = got ++ ms' /\ pull_at max q' later ms' n).
  { destruct r as [m|]; [destruct Htry as (_ & ms' & -> & Hp'); by exists [m], ms', q2|by exists [], ms, q2]. }
  destruct op; cbn [pull_got blocking].
  - rewrite Erecv. cbn [mbind option_bind]. destruct Hblock as (got & ms' & q' & -> & ? & ? & ?). by exists got, ms', q'.
  - destruct Hblock as (got & ms' & q' & E & ? & ? & ?). exists got, ms', q'. split_and!; [|done..].
    unfold pull_recv_into, pull_recv in *. rewrite pull_recv_into_loop_spec, Erecv. cbn [fmap option_fmap option_map mbind option_bind].
    by destruct o as [[[m|]|e]| |].
  - rewrite Etry. cbn [mbind option_bind]. destruct Htry' as (got & ms' & q' & E & ? & ?). exists got, ms', q'. split_and!; [|done..].
    by destruct r.
  - destruct Htry' as (got & ms' & q' & E & ? & ?). exists got, ms', q'. split_and!; [|done..].
    unfold pull_try_recv_into, pull_try_recv in *. rewrite try_recv_into_loop_spec, Etry. cbn [fmap option_fmap option_map mbind option_bind].
    by destruct r.
  - unfold pull_recv_batch. rewrite Erecv. cbn [mbind option_bind].
    destruct Hrecv as [(m & ms' & -> & Hna & -> & Hp')|(Hna & Hw & Hno & Hp')].
    + destruct (pull_at_drain max _ q1 later ms' n [m] Hp' (held_fuel _)) as (got & ms2 & q3 & -> & -> & Hp3).
      cbn [mbind option_bind await_bind]. rewrite bool_decide_eq_true_2 by apply (pa_quiet _ _ _ _ _ Hp3).
      exists (m :: got), ms2, q3. by split_and!.
    + exists [], ms, q1. destruct o as [[[m|]|e]| |]; [by destruct (Hno (Some m))|by destruct (Hno None)|..]; cbn in Hw |- *;
        try (destruct e; try done); by split_and!.
Qed.

(** ** Both ends *)

(** All of [total] has been handed to [send]; [got] has been received. *)
Record pipe_inv (max : Z) (longest n : nat) (total got : list (list bytes)) (l : PushPull) : Prop := {
  pv_flow : exists sent queued rest,
    pushing (pp_push l) sent queued /\ sent ++ queued = wire_of total /\ 0 <= pp_pos l <= len sent /\
    total = got ++ rest /\ pull_at max (pp_pull l) (zdrop (pp_pos l) sent ++ queued) rest n;
  pv_fits : Forall (λ m, (length m <= longest)%nat) total;
}.

Definition pipe_fits (max : Z) (longest : nat) (op : pipe_op) : Prop :=
  match op with Push _ op => Forall (λ m, sendable max m /\ (length m <= longest)%nat) (pushed op) | _ => True end.

Definition pipe_pieces (op : pipe_op) : nat := match op with Arrive _ cuts => Datatypes.S (length cuts) | _ => 0 end.

Lemma pushing_wire (p : PushSocket S K) sent queued : pushing p sent queued -> wire_bytes (push_base p) = sent.
Proof. intros (((s & Hs & Hw) & _) & _). unfold wire_bytes. by rewrite Hs. Qed.

Lemma pipe_step_spec max longest n total got l op :
  reliable (S := S) -> pipe_inv max longest n total got l -> pipe_fits max longest op -> (2 * n + longest < fuel)%nat ->
  exists more l', pipe_step l op = Some (more, l') /\
    pipe_inv max longest (n + pipe_pieces op) (total ++ pipe_pushed [op]) (got ++ more) l'.
Proof.
  intros Hrel [(sent & queued & rest & Hpu & Hw & Hpos & Htot & Hpa) Hlong] Hop Hfuel. destruct l as [p q pos].
  cbn [pp_push pp_pull pp_pos] in *. unfold pipe_pushed.
  destruct op as [now op|k cuts|op]; cbn [pipe_step pipe_pieces fmap list_fmap concat pipe_fits] in *; rewrite ?app_nil_r, ?Nat.add_0_r.
  - destruct (push_step_pushing now p sent queued op Hrel Hpu) as (p' & sent' & queued' & -> & Hpu' & Heq & [more ->]).
    exists [], (mk_pp p' q pos). split; [done|]. rewrite app_nil_r.
    assert (Hs : Forall (sendable max) (pushed op)) by (apply (list.Forall_impl _ _ _ Hop); by intros ? []).
    split; [|apply Forall_app; split; [done|]; apply (list.Forall_impl _ _ _ Hop); by intros ? []].
    exists (sent ++ more), queued', (rest ++ pushed op). cbn [pp_push pp_pull pp_pos]. pose proof (len_nonneg more).
    split_and!; [done|by rewrite Heq, app_assoc, Hw, wire_of_app|lia|rewrite len_app; lia|by rewrite Htot, app_assoc|].
    destruct Hpa as [Hcg Hq Hn]. split; [|done..].
    assert (E : zdrop pos (sent ++ more) ++ queued' = (zdrop pos sent ++ queued) ++ wire_of (pushed op)).
    { rewrite <- app_assoc in Heq. apply app_inv_head in Heq. by rewrite zdrop_app_le, <- !app_assoc, Heq by lia. }
    rewrite E. by apply collecting_written_all.
  - rewrite (pushing_wire _ _ _ Hpu). set (w := next_bytes k pos sent). exists []. eexists. split; [done|]. rewrite app_nil_r. split; [|done].
    exists sent, queued, rest. cbn [pp_push pp_pull pp_pos].
    assert (Hz : zdrop pos sent = w ++ zdrop (pos + len w) sent /\ 0 <= pos + len w <= len sent).
    { unfold w, next_bytes. rewrite ztake_zdrop_min, len_zdrop by lia. split; [|lia].
      destruct (Z.le_gt_cases (Z.of_nat k) (len sent - pos)).
      - rewrite Z.min_l by lia. rewrite <- zdrop_zdrop by lia. by rewrite ztake_zdrop.
      - rewrite Z.min_r by lia. rewrite (zdrop_ge (pos + _)), app_nil_r by lia. rewrite ztake_ge; [done|]. rewrite len_zdrop by lia. lia. }
    destruct Hz as [Hz Hpos']. split_and!; [done|done|lia|lia|done|]. destruct Hpa as [Hcg Hq Hn].
    destruct (pieces_spec cuts w) as (Hc & Hne & Hlen). rewrite Hz, <- app_assoc, <- Hc in Hcg.
    destruct (collecting_deliver _ _ _ _ _ _ Hcg Hne) as [Hcg' Hcl']. rewrite Hc in Hcg'. split; [exact Hcg'|done|].
    cbn [set_pull_base pull_base]. lia.
  - assert (Hl : Forall (λ m, (length m <= longest)%nat) rest) by (rewrite Htot in Hlong; by apply Forall_app in Hlong as [_ ?]).
    destruct (pull_got_spec max q op _ rest n longest Hpa Hl Hfuel) as (g & rest' & q' & -> & -> & Hpa' & _). cbn [mbind option_bind].
    exists g, (mk_pp p q' pos). split; [done|]. split; [|done]. exists sent, queued, rest'. cbn [pp_push pp_pull pp_pos].
    split_and!; [done|done|lia|lia|by rewrite <- app_assoc|done].
Qed.

Lemma pipe_pushed_app ops ops' : pipe_pushed (ops ++ ops') = pipe_pushed ops ++ pipe_pushed ops'.
Proof. unfold pipe_pushed. by rewrite fmap_app, concat_app. Qed.

Definition pipe_all_pieces (ops : list pipe_op) : nat := sum_list_with pipe_pieces ops.

Lemma pipe_run_spec max longest ops n total got l :
  reliable (S := S) -> pipe_inv max longest n total got l -> Forall (pipe_fits max longest) ops ->
  (2 * (n + pipe_all_pieces ops) + longest < fuel)%nat ->
  exists more l', pipe_run l ops = Some (more, l') /\
    pipe_inv max longest (n + pipe_all_pieces ops) (total ++ pipe_pushed ops) (got ++ more) l'.
Proof.
  intros Hrel Hinv Hops. revert n total got l Hinv. unfold pipe_all_pieces.
  induction Hops as [|op ops Hop Hops IH]; intros n total got l Hinv Hfuel; cbn [pipe_run sum_list_with] in *.
  { exists [], l. change (pipe_pushed []) with (@nil (list bytes)). by rewrite !app_nil_r, Nat.add_0_r. }
  destruct (pipe_step_spec max longest n total got l op Hrel Hinv Hop) as (m1 & l1 & -> & Hinv1); [lia|]. cbn [mbind option_bind].
  destruct (IH _ _ _ l1 Hinv1) as (m2 & l2 & -> & Hinv2); [lia|]. cbn [mbind option_bind]. exists (m1 ++ m2), l2. split; [done|].
  change (op :: ops) with ([op] ++ ops). rewrite pipe_pushed_app, !app_assoc, Nat.add_assoc. done.
Qed.

(** A call that waits, in terms of the bytes that have arrived. *)
Lemma pipe_blocking max longest n total got l op :
  pipe_inv max longest n total got l -> blocking op = true -> (2 * n + longest < fuel)%nat ->
  exists more l', pipe_step l (Pull op) = Some (more, l') /\
    (more = [] <-> forall m, got ++ [m] `prefix_of` total -> pp_pos l < len (wire_of (got ++ [m]))).
Proof.
  intros [(sent & queued & rest & Hpu & Hw & Hpos & Htot & Hpa) Hlong] Hb Hfuel. destruct l as [p q pos].
  cbn [pp_push pp_pull pp_pos pipe_step] in *.
  assert (Hl : Forall (λ m, (length m <= longest)%nat) rest) by (rewrite Htot in Hlong; by apply Forall_app in Hlong as [_ ?]).
  destruct (pull_got_spec max q op _ rest n longest Hpa Hl Hfuel) as (g & rest' & q' & -> & _ & _ & Hun). cbn [mbind option_bind].
  exists g, (mk_pp p q' pos). split; [done|]. rewrite (Hun Hb). clear Hun.
  pose proof (f_equal len Hw) as Hlen. rewrite len_app in Hlen. subst total. destruct rest as [|m rest]; cbn [unarrived].
  - split; [|done]. intros _ m [k Hk]. rewrite app_nil_r in Hk. apply (f_equal length) in Hk. rewrite !length_app in Hk. cbn in Hk. lia.
  - change (got ++ m :: rest) with (got ++ [m] ++ rest) in *. rewrite app_assoc in *. rewrite wire_of_app, len_app in Hlen.
    rewrite len_app, len_zdrop by lia. split.
    + intros Hlt m' [k Hk]. rewrite <- !app_assoc in Hk. apply app_inv_head in Hk. injection Hk as <- _. lia.
    + intros Hall. specialize (Hall m ltac:(by exists rest)). lia.
Qed.

(** Everything flushed and arrived: calls that wait collect the rest. *)
Lemma pipe_drain max longest n reads p q sent rest :
  pushing p sent [] -> pull_at max q [] rest n -> Forall (λ m, (length m <= longest)%nat) rest -> (2 * n + longest < fuel)%nat ->
  (length rest <= length (List.filter blocking reads))%nat ->
  exists l', pipe_run (mk_pp p q (len sent)) (Pull <$> reads) = Some (rest, l').
Proof.
  intros Hpu. revert q rest. induction reads as [|op reads IH]; intros q rest Hpa Hl Hfuel Hlen; cbn [fmap list_fmap pipe_run].
  { destruct rest; [|cbn in Hlen; lia]. by eexists. }
  cbn [pipe_step]. destruct (pull_got_spec max q op _ rest n longest Hpa Hl Hfuel) as (g & rest' & q' & -> & -> & Hpa' & Hun).
  cbn [mbind option_bind]. apply Forall_app in Hl as [_ Hl'].
  destruct (IH q' rest' Hpa' Hl' Hfuel) as (l' & E).
  { cbn [List.filter] in Hlen. rewrite length_app in Hlen. destruct (blocking op); [|lia]. cbn [length] in Hlen.
    destruct g as [|m g]; [|cbn in Hlen; lia]. destruct (Hun eq_refl) as [Hun' _]. specialize (Hun' eq_refl).
    cbn [app] in Hun'. destruct rest' as [|m rest']; [cbn; lia|]. cbn in Hun'. pose proof (len_nonneg (wire_of rest')). change (len []) with 0 in Hun'. lia. }
  rewrite E. by eexists.
Qed.

Lemma pipe_flush max longest n total got l now k cuts reads :
  reliable (S := S) -> pipe_inv max longest n total got l -> (2 * (n + Datatypes.S (length cuts)) + longest < fuel)%nat ->
  (length (wire_of total) <= k)%nat ->
  exists rest, total = got ++ rest /\
    ((length rest <= length (List.filter blocking reads))%nat ->
     exists l', pipe_run l (Push now FlushOp :: Arrive k cuts :: (Pull <$> reads)) = Some (rest, l')).
Proof.
  intros Hrel Hinv Hfuel Hk. pose proof Hinv as [(sent0 & queued0 & rest & _ & _ & _ & Htot & _) Hlong].
  exists rest. split; [done|]. intros Hlen.
  destruct (pipe_step_spec max longest n total got l (Push now FlushOp) Hrel Hinv) as (m1 & l1 & E1 & Hinv1); [by constructor|lia|].
  assert (m1 = []) as ->. { destruct l as [p q pos]. cbn in E1. by destruct (push_flush p) as [[[[]|]| |] ?]; simplify_eq. }
  assert (Hfl : exists p' q', l1 = mk_pp p' q' (pp_pos l) /\ exists sent, pushing p' sent []).
  { destruct l as [p q pos]. destruct Hinv as [(sent & queued & r0 & Hpu & _) _]. cbn [pp_push] in Hpu.
    destruct Hpu as (Hs & Hh & Hco). cbn [pipe_step push_step] in E1. unfold push_flush in E1.
    destruct (flush_sending _ _ _ Hrel Hs) as (b2 & Ef & Hs2 & Ho2 & _). rewrite Ef in E1. injection E1 as <-.
    eexists _, _. split; [done|]. eexists. unfold pushing. cbn [push_base]. rewrite Ho2. by split_and!. }
  destruct Hfl as (p' & q' & El1 & sent & Hpu). cbn [pipe_run]. rewrite E1. cbn [mbind option_bind]. subst l1.
  destruct Hinv1 as [(sent' & queued' & rest' & Hpu' & Hw & Hpos & Htot' & Hpa) _]. cbn [pp_push pp_pull pp_pos] in *.
  change (pipe_pushed [Push now FlushOp]) with (@nil (list bytes)) in Hw, Htot'. rewrite !app_nil_r in Hw, Htot'.
  assert (queued' = []) as ->.
  { destruct Hpu as ((_ & Hq & _) & _), Hpu' as ((_ & Hq' & _) & _). congruence. }
  rewrite app_nil_r in Hw, Hpa. subst sent'. assert (rest' = rest) as -> by (rewrite ?app_nil_r in Htot'; rewrite Htot in Htot'; by apply app_inv_head in Htot').
  cbn [pipe_step]. rewrite (pushing_wire _ _ _ Hpu'). set (w := next_bytes k (pp_pos l) (wire_of total)).
  assert (Hall : w = zdrop (pp_pos l) (wire_of total)).
  { unfold w, next_bytes. apply ztake_ge. rewrite len_zdrop by lia. unfold len in *. lia. }
  cbn [mbind option_bind]. destruct Hpa as [Hcg Hq Hn]. destruct (pieces_spec cuts w) as (Hc & Hne & Hcut).
  rewrite <- Hall, <- (app_nil_r w), <- Hc in Hcg. destruct (collecting_deliver _ _ _ _ _ _ Hcg Hne) as [Hcg' Hcl'].
  destruct (pipe_drain max longest (n + Datatypes.S (length cuts)) reads p' (set_pull_base q' (base_deliver (pull_base q') (pieces cuts w)))
    (wire_of total) rest Hpu') as (l' & E).
  - split; [exact Hcg'|done|]. cbn [set_pull_base pull_base pipe_pieces] in *. lia.
  - rewrite Htot in Hlong. by apply Forall_app in Hlong as [_ ?].
  - lia.
  - done.
  - assert (Hend : pp_pos l + len w = len (wire_of total)) by (rewrite Hall, len_zdrop by lia; lia).
    rewrite Hend, E. by exists l'.
Qed.
End system.
#[global] Arguments PushPull : clear implicits.

(** C3: the pipeline, end to end, over a plaintext connection whose writes complete,
    without heartbeats on either side (with heartbeats a PUSH socket drops a healthy
    connection, [push_heartbeat_drops_live_peer]) and with messages within PULL's
    frame limit.  In every interleaving of [send], [send_one], [send_batch] and
    [flush] on PUSH (eager, coalesced or vectored, as its options say), of bytes
    arriving any number at a time and in any pieces, and of [recv], [recv_into],
    [try_recv], [try_recv_into] and [recv_batch] on PULL: no call fails or panics;
    what PULL has returned is a front part of what was sent, each message whole,
    once, in order; a call that waits returns a message exactly when the last byte
    of the next one has arrived; and once PUSH has flushed and the bytes have
    arrived, as many waiting calls as there are messages left return all of them. *)
Theorem pipeline_end_to_end {S T K : Type} `{WireStream S} `{DuplexStream T} `{!Aead K} (clock : nat -> Z) (fuel : nat)
    (p : PushSocket S K) (q : PullSocket T K) (longest : nat) (ops : list pipe_op) :
  reliable (S := S) -> pushing p [] [] -> receiving (pull_base q) [] -> pull_frames q = [] -> send_buffer (pull_base q) = [] ->
  Forall (pipe_fits (max_frame_size (decoder (pull_base q))) longest) ops -> (2 * pipe_all_pieces ops + longest < fuel)%nat ->
  exists got l, pipe_run clock fuel (mk_pp p q 0) ops = Some (got, l) /\
  (forall op, blocking op = true ->
     exists more l', pipe_step clock fuel l (Pull op) = Some (more, l') /\
       (more = [] <-> forall m, got ++ [m] `prefix_of` pipe_pushed ops -> pp_pos l < len (wire_of (got ++ [m])))) /\
  exists rest, pipe_pushed ops = got ++ rest /\
  forall now n cuts reads, (2 * (pipe_all_pieces ops + Datatypes.S (length cuts)) + longest < fuel)%nat ->
    (length (wire_of (pipe_pushed ops)) <= n)%nat -> (length rest <= length (List.filter blocking reads))%nat ->
    exists l', pipe_run clock fuel l (Push now FlushOp :: Arrive n cuts :: (Pull <$> reads)) = Some (rest, l').
Proof.
  intros Hrel Hp Hq Hf Hs Hops Hfuel. set (max := max_frame_size _) in *.
  assert (Hinv : pipe_inv max longest 0 [] [] (mk_pp p q 0)).
  { split; [|constructor]. exists [], [], []. cbn [pp_push pp_pull pp_pos]. split_and!; [done|done|lia|by vm_compute|done|].
    split; [|done|]. 
    - rewrite Hf. by apply (collecting_between max _ []).
    - destruct (process_idle _ Hq) as (? & _ & _ & Hc & _). by rewrite Hc. }
  destruct (pipe_run_spec clock fuel max longest ops 0 [] [] _ Hrel Hinv Hops) as (got & l & E & Hinv'); [lia|]. cbn [app] in Hinv'.
  exists got, l. split; [done|]. split.
  - intros op Hb. by eapply pipe_blocking; [exact Hinv'|..].
  - pose proof Hinv' as [(_ & _ & rest & _ & _ & _ & Htot & _) _]. exists rest. split; [done|].
    intros now n cuts reads Hf' Hn Hlen. destruct (pipe_flush clock fuel max longest _ _ _ l now n cuts reads Hrel Hinv' Hf' Hn) as (rest' & Htot' & Hd).
    rewrite Htot in Htot'. apply app_inv_head in Htot' as <-. by apply Hd.
Qed.

(** ** Example *)

(** The second message has two frames; a call finds the first of them. *)
Definition pipe_ops : list pipe_op :=
  [Push 0 (SendOneOp (ascii_bytes "a")); Push 0 (SendOp [ascii_bytes "b"; ascii_bytes "c"]); Arrive 7 [1]%nat; Pull RecvOp; Pull RecvOp;
   Push 0 (SendBatchOp [[ascii_bytes "d"]; [ascii_bytes "e"; []]]); Pull TryRecvOp; Arrive 2 []; Pull (RecvIntoOp [])].

Definition pipe_push : PushSocket SinkStream unit := push_with_options (mk_sink []) default_options None.
Definition pipe_pull : PullSocket PipeStream unit := pull_with_options (mk_pipe [] []) default_options None.

Lemma pipeline_end_to_end_witness :
  exists l l', pipe_run (λ _, 0) 20 (mk_pp pipe_push pipe_pull 0) pipe_ops
      = Some ([[ascii_bytes "a"]; [ascii_bytes "b"; ascii_bytes "c"]], l) /\
    pipe_run (λ _, 0) 20 l [Push 0 FlushOp; Arrive 99 [2]%nat; Pull RecvBatchOp; Pull (TryRecvIntoOp []); Pull RecvOp]
      = Some ([[ascii_bytes "d"]; [ascii_bytes "e"; []]], l').
Proof.
  destruct (pipe_linked default_options eq_refl eq_refl eq_refl) as [Hrc _].
  destruct (pipeline_end_to_end (λ _, 0) 20 pipe_push pipe_pull 2 pipe_ops) as (got & l & E & _ & rest & Htot & Hend).
  - split; reflexivity.
  - unfold pushing, sending. split_and!; [exists (mk_sink []); split; reflexivity|reflexivity..|done].
  - exact Hrc.
  - reflexivity.
  - reflexivity.
  - repeat constructor; vm_compute; try discriminate; lia.
  - vm_compute. lia.
  - exists l. pose proof E as E'. vm_compute in E'. injection E' as Eg _. subst got.
    apply (app_inv_head [[ascii_bytes "a"]; [ascii_bytes "b"; ascii_bytes "c"]] [[ascii_bytes "d"]; [ascii_bytes "e"; []]] rest) in Htot as <-.
    destruct (Hend 0 99%nat [2]%nat [RecvBatchOp; TryRecvIntoOp []; RecvOp]) as (l' & El'); [vm_compute; lia..|].
    exists l'. split; [exact E|exact El'].
Defined.
