(* ===== verification/ReqRep.v ===== *)
(** * REQ and REP joined by a connection

    A REQ socket (req.rs) and a REP socket (rep.rs) over the two directions of a
    connection.  Both applications call when they like, in turn or out of turn, and
    what is on a wire arrives any number of bytes at a time.  The specification,
    [rr_spec], is one machine for both: who has to do what next, the message under
    way and how much of it has arrived. *)

From S2P Require Import Prelude.
From S2P Require Import SegBuffer.
From S2P Require Import Codec.
From S2P Require Import Options.
From S2P Require Import CurveMessage.
From S2P Require Import Stream.
From S2P Require Import Base.
From S2P Require Import BaseWire.
From S2P Require Import Recv.
From S2P Require Import Sockets.
From S2P Require Import Pipeline.
From S2P Require Import Arrival.

(** ** Specification *)

Inductive rr_op :=
| Ask (m : list bytes)                     (** [ReqSocket::send] *)
| Serve                                    (** [RepSocket::recv] *)
| Answer (m : list bytes)                  (** [RepSocket::send] *)
| Collect                                  (** [ReqSocket::recv] *)
| Forth (n : nat) (cuts : list nat)        (** the next [n] bytes REQ has written arrive *)
| Back (n : nat) (cuts : list nat).        (** the next [n] bytes REP has written arrive *)

Inductive rr_event :=
| Done
| Got (m : list bytes)
| Waits
| Refused                                  (** out of turn *)
| BadReply.                                (** not the reply to this request *)

(** Whose turn it is.  [Lost]: the reply was refused, and none will come. *)
Inductive rr_phase :=
| Free
| Asked (l : Lane)
| Serving
| Answered (l : Lane)
| Lost.

#[export] Instance rr_phase_eq_dec : EqDecision rr_phase.
Proof. solve_decision. Defined.

(** A message as it travels: with the request id in front in correlation mode. *)
Definition tagged (correlate : bool) (id : Z) (msg : list bytes) : list bytes :=
  if correlate then be_bytes 4 id :: msg else msg.

(** A reply to request [id], without the id. *)
Definition accepted (correlate : bool) (id : Z) (reply : list bytes) : option (list bytes) :=
  if correlate then
    match reply with
    | f :: rest => if bool_decide (f = be_bytes 4 id) then Some rest else None
    | [] => None
    end
  else Some reply.

(** The state: the id of the last request, and the phase. *)
Definition rr_spec (correlate : bool) (s : Z * rr_phase) (op : rr_op) : rr_event * (Z * rr_phase) :=
  let '(id, ph) := s in
  match op with
  | Ask m =>
      match ph with
      | Free =>
          let id := if correlate then u32_wrap (id + 1) else id in
          (Done, (id, Asked (mk_lane [tagged correlate id m] 0)))
      | _ => (Refused, s)
      end
  | Serve =>
      match ph with
      | Asked l => match lane_recv l with Some (m, _) => (Got m, (id, Serving)) | None => (Waits, s) end
      | Serving => (Refused, s)
      | _ => (Waits, s)
      end
  | Answer m => match ph with Serving => (Done, (id, Answered (mk_lane [m] 0))) | _ => (Refused, s) end
  | Collect =>
      match ph with
      | Answered l =>
          match lane_recv l with
          | Some (m, _) => match accepted correlate id m with Some m => (Got m, (id, Free)) | None => (BadReply, (id, Lost)) end
          | None => (Waits, s)
          end
      | Free => (Refused, s)
      | _ => (Waits, s)
      end
  | Forth n _ => (Done, (id, match ph with Asked l => Asked (lane_arrive l n) | _ => ph end))
  | Back n _ => (Done, (id, match ph with Answered l => Answered (lane_arrive l n) | _ => ph end))
  end.

Fixpoint rr_spec_run (correlate : bool) (s : Z * rr_phase) (ops : list rr_op) : list rr_event * (Z * rr_phase) :=
  match ops with
  | [] => ([], s)
  | op :: ops =>
      let '(e, s) := rr_spec correlate s op in let '(es, s) := rr_spec_run correlate s ops in (e :: es, s)
  end.

(** ** The two sockets *)

Section conversation.
Context {S K : Type} `{DuplexStream S} `{!Aead K} (clock : nat -> Z) (fuel : nat).

(** The sockets, and how many bytes of each wire have arrived. *)
Record RrLink := mk_rr {
  rr_req : ReqSocket S K;
  rr_rep : RepSocket S K;
  rr_forth : Z;
  rr_back : Z;
}.

Definition req_at (q : ReqSocket S K) (b : SocketBase S K) : ReqSocket S K :=
  mk_req b (req_frames q) (req_state q) (request_id q) (expected_request_id q).

Definition rep_at (p : RepSocket S K) (b : SocketBase S K) : RepSocket S K := mk_rep b (rep_frames p) (rep_state p).

Definition sent_as (o : outcome unit) : option rr_event :=
  match o with
  | Returned (Ok _) => Some Done
  | Returned (Err InvalidInput) => Some Refused
  | _ => None
  end.

Definition received_as (o : outcome (option (list bytes))) : option rr_event :=
  match o with
  | Returned (Ok (Some m)) => Some (Got m)
  | Pending | Returned (Err TimedOut) => Some Waits
  | Returned (Err InvalidInput) => Some Refused
  | Returned (Err InvalidData) => Some BadReply
  | _ => None
  end.

(** [None]: a call ended in any other way. *)
Definition rr_step (l : RrLink) (op : rr_op) : option (rr_event * RrLink) :=
  let '(mk_rr q p forth back) := l in
  match op with
  | Ask m => let '(o, q) := req_send q m in e ← sent_as o; Some (e, mk_rr q p forth back)
  | Answer m => let '(o, p) := rep_send p m in e ← sent_as o; Some (e, mk_rr q p forth back)
  | Serve => '(o, p) ← rep_recv clock fuel p; e ← received_as o; Some (e, mk_rr q p forth back)
  | Collect => '(o, q) ← req_recv clock fuel q; e ← received_as o; Some (e, mk_rr q p forth back)
  | Forth n cuts =>
      let w := next_bytes n forth (wire_bytes (req_base q)) in
      Some (Done, mk_rr q (rep_at p (base_deliver (rep_base p) (pieces cuts w))) (forth + len w) back)
  | Back n cuts =>
      let w := next_bytes n back (wire_bytes (rep_base p)) in
      Some (Done, mk_rr (req_at q (base_deliver (req_base q) (pieces cuts w))) p forth (back + len w))
  end.

Fixpoint rr_run (l : RrLink) (ops : list rr_op) : option (list rr_event * RrLink) :=
  match ops with
  | [] => Some ([], l)
  | op :: ops => '(e, l) ← rr_step l op; '(es, l) ← rr_run l ops; Some (e :: es, l)
  end.

(** ** The invariant *)

(** What the phase says of the sockets and of the two lanes. *)
Definition phase_holds (ph : rr_phase) (q : ReqState) (p : RepState) (lf lb : Lane) : Prop :=
  match ph with
  | Free => q = Idle /\ p = AwaitingRequest /\ coming lf = [] /\ coming lb = []
  | Asked l => q = AwaitingReply /\ p = AwaitingRequest /\ lf = l /\ coming lb = [] /\ length (coming l) = 1%nat
  | Serving => q = AwaitingReply /\ p = ReadyToReply /\ coming lf = [] /\ coming lb = []
  | Answered l => q = AwaitingReply /\ p = AwaitingRequest /\ coming lf = [] /\ lb = l /\ length (coming l) = 1%nat
  | Lost => q = AwaitingReply /\ p = AwaitingRequest /\ coming lf = [] /\ coming lb = []
  end.

Record rr_inv (correlate : bool) (qmax pmax : Z) (longest n : nat) (l : RrLink) (s : Z * rr_phase) : Prop := {
  ri_options : req_relaxed (options (req_base (rr_req l))) = false /\ req_correlate (options (req_base (rr_req l))) = correlate;
  ri_id : request_id (rr_req l) = s.1 /\ 0 <= s.1 < 2 ^ 32 /\
    (correlate = true -> s.2 <> Free -> expected_request_id (rr_req l) = Some s.1);
  ri_ends : exists qsent psent lf lb,
    end_at qmax (req_base (rr_req l)) (req_frames (rr_req l)) lb qsent n /\
    end_at pmax (rep_base (rr_rep l)) (rep_frames (rr_rep l)) lf psent n /\
    on_way qsent (rr_forth l) lf /\ on_way psent (rr_back l) lb /\
    phase_holds s.2 (req_state (rr_req l)) (rep_state (rr_rep l)) lf lb /\
    Forall (λ m, (length m <= longest)%nat) (coming lf ++ coming lb);
}.

(** The messages fit the other side's frame limit and the fuel. *)
Definition rr_fits (correlate : bool) (qmax pmax : Z) (longest : nat) (op : rr_op) : Prop :=
  match op with
  | Ask m => sendable pmax (tagged correlate 0 m) /\ (length (tagged correlate 0 m) <= longest)%nat
  | Answer m => sendable qmax m /\ (length m <= longest)%nat
  | _ => True
  end.

Definition rr_pieces (op : rr_op) : nat := match op with Forth _ cuts | Back _ cuts => Datatypes.S (length cuts) | _ => 0 end.

Lemma sendable_tagged correlate max id msg : sendable max (tagged correlate 0 msg) -> sendable max (tagged correlate id msg).
Proof.
  unfold sendable, tagged. destruct correlate; [|done]. intros [_ [Hid Hm]%list.Forall_cons]. split; [done|].
  constructor; [|done]. by rewrite !len_be_bytes in *.
Qed.

Lemma tagged_length correlate id msg : length (tagged correlate id msg) = length (tagged correlate 0 msg).
Proof. by destruct correlate. Qed.

(** An empty lane. *)
Lemma lane_empty l : lane_ok l -> coming l = [] -> l = mk_lane [] 0.
Proof. destruct l as [ms a]. unfold lane_ok. cbn [coming arrived]. intros Hl ->. f_equal. change (len (wire_of [])) with 0 in Hl. lia. Qed.

Lemma lane_send_empty l m : lane_ok l -> coming l = [] -> lane_send l m = mk_lane [m] 0.
Proof. intros Hl E. by rewrite (lane_empty l Hl E). Qed.

Lemma lane_recv_one l m l' : length (coming l) = 1%nat -> lane_recv l = Some (m, l') -> coming l' = [] /\ coming l = [m].
Proof.
  unfold lane_recv. destruct (coming l) as [|x [|y ms]]; [done| |done]. intros _. destruct (_ <=? _); [|done]. by intros [= -> <-].
Qed.

Lemma idle_waits (b : SocketBase S K) : received_as (idle_outcome b) = Some Waits.
Proof. unfold idle_outcome. by destruct (recv_timeout (options b)). Qed.

(** The two ways of saying that a reply carries the id. *)
Lemma req_validate_accepted o id m :
  0 <= id < 2 ^ 32 ->
  req_validate o (Some id) m = match accepted (req_correlate o) id m with Some m => Ok m | None => Err InvalidData end.
Proof.
  intros Hid. unfold req_validate, accepted. destruct (req_correlate o); [|done]. destruct m as [|f rest]; [done|].
  destruct (Z.eqb_spec (len f) 4) as [El|El]; cbn [negb].
  - assert (Hl : length f = 4%nat) by (unfold len in El; lia). destruct (Z.eqb_spec (be_val f) id) as [Ev|Ev].
    + rewrite bool_decide_eq_true_2; [done|]. rewrite <- Ev, <- Hl. symmetry. apply be_bytes_be_val.
    + rewrite bool_decide_eq_false_2; [done|]. intros ->. apply Ev, be_val_be_bytes. cbn. lia.
  - rewrite bool_decide_eq_false_2; [done|]. intros ->. by rewrite len_be_bytes in El.
Qed.

(** ** Steps *)

Lemma step_ask corr qmax pmax longest n l s m :
  reliable (S := S) -> rr_inv corr qmax pmax longest n l s -> rr_fits corr qmax pmax longest (Ask m) ->
  exists l', rr_step l (Ask m) = Some ((rr_spec corr s (Ask m)).1, l') /\ rr_inv corr qmax pmax longest n l' (rr_spec corr s (Ask m)).2.
Proof.
  intros Hrel [[Hrx Hco] (Hi1 & Hi2 & Hi3) (qs & ps & lf & lb & Hq & Hp & Hf & Hb & Hph & Hlong)] [Hm Hml].
  destruct l as [q p forth back], s as [id ph].
  cbn [rr_req rr_rep rr_forth rr_back fst snd rr_step rr_spec] in *. unfold req_send. rewrite Hrx. cbn [negb andb].
  destruct (decide (ph = Free)) as [->|Hnf].
  2: { assert (Hst : req_state q = AwaitingReply) by (destruct ph; [done|apply Hph..]).
       rewrite bool_decide_eq_false_2 by congruence. cbn. exists (mk_rr q p forth back).
       split; [by destruct ph|]. destruct ph; try done; (split; [done|done|]; exists qs, ps, lf, lb; by split_and!). }
  destruct Hph as (Hqs & Hps & Elf & Elb). rewrite bool_decide_eq_true_2 by done. cbn [negb]. rewrite Hco.
  set (id' := if corr then u32_wrap (id + 1) else id).
  assert (Hid' : 0 <= id' < 2 ^ 32) by (unfold id'; destruct corr; [by apply Z.mod_pos_bound|done]).
  set (msg := tagged corr id' m).
  assert (Hmsg : (if corr then (be_bytes 4 (u32_wrap (request_id q + 1)) :: m, u32_wrap (request_id q + 1), Some (u32_wrap (request_id q + 1)))
    else (m, request_id q, expected_request_id q)) = (msg, id', if corr then Some id' else expected_request_id q)).
  { unfold msg, id', tagged. rewrite Hi1. by destruct corr. }
  rewrite Hmsg. destruct (end_send _ _ _ _ _ _ msg Hrel Hq) as (b' & -> & Hq' & Ho). cbn [sent_as mbind option_bind].
  eexists. split; [done|]. split; cbn [rr_req rr_rep rr_forth rr_back req_base req_frames req_state request_id expected_request_id fst snd].
  - by rewrite Ho.
  - split_and!; [done|apply Hid'..|]. by intros ->.
  - exists (qs ++ encode_multipart msg []), ps, (lane_send lf msg), lb.
    assert (Hs : sendable pmax msg) by (by apply sendable_tagged).
    split_and!; [done|by apply end_written|by apply on_way_send; [apply Hp|]|done| |].
    + cbn. split_and!; [done|done| |done|done]. by apply lane_send_empty; [apply Hp|].
    + cbn. rewrite Elf, Elb. cbn. constructor; [|done]. unfold msg. by rewrite tagged_length.
Qed.

Lemma step_answer corr qmax pmax longest n l s m :
  reliable (S := S) -> rr_inv corr qmax pmax longest n l s -> rr_fits corr qmax pmax longest (Answer m) ->
  exists l', rr_step l (Answer m) = Some ((rr_spec corr s (Answer m)).1, l') /\
    rr_inv corr qmax pmax longest n l' (rr_spec corr s (Answer m)).2.
Proof.
  intros Hrel [Hopt Hid (qs & ps & lf & lb & Hq & Hp & Hf & Hb & Hph & Hlong)] [Hm Hml].
  destruct l as [q p forth back], s as [id ph].
  cbn [rr_req rr_rep rr_forth rr_back fst snd rr_step rr_spec] in *. unfold rep_send.
  destruct (decide (ph = Serving)) as [->|Hnf].
  2: { assert (Hst : rep_state p = AwaitingRequest) by (destruct ph; try done; apply Hph).
       rewrite bool_decide_eq_false_2 by congruence. cbn. exists (mk_rr q p forth back).
       split; [by destruct ph|]. destruct ph; try done; (split; [done|done|]; exists qs, ps, lf, lb; by split_and!). }
  destruct Hph as (Hqs & Hps & Elf & Elb). rewrite bool_decide_eq_true_2 by done. cbn [negb].
  destruct (end_send _ _ _ _ _ _ m Hrel Hp) as (b' & -> & Hp' & Ho). cbn [sent_as mbind option_bind].
  eexists. split; [done|]. split; cbn [rr_req rr_rep rr_forth rr_back rep_base rep_frames rep_state fst snd]; [done| |].
  - destruct Hid as (? & ? & Hid). do 2 (split; [done|]). intros ? _. by apply Hid.
  - exists qs, (ps ++ encode_multipart m []), lf, (lane_send lb m).
    split_and!; [by apply end_written|done|done|by apply on_way_send; [apply Hq|]| |].
    + cbn. split_and!; [done|done|done| |done]. by apply lane_send_empty; [apply Hq|].
    + cbn. rewrite Elf, Elb. cbn. by constructor.
Qed.

Lemma step_serve corr qmax pmax longest n l s :
  rr_inv corr qmax pmax longest n l s -> (2 * n + longest < fuel)%nat ->
  exists l', rr_step l Serve = Some ((rr_spec corr s Serve).1, l') /\ rr_inv corr qmax pmax longest n l' (rr_spec corr s Serve).2.
Proof.
  intros [Hopt Hid (qs & ps & lf & lb & Hq & Hp & Hf & Hb & Hph & Hlong)] Hfuel.
  destruct l as [q p forth back], s as [id ph].
  cbn [rr_req rr_rep rr_forth rr_back fst snd rr_step rr_spec] in *. unfold rep_recv.
  destruct (decide (ph = Serving)) as [->|Hnf].
  { destruct Hph as (Hqs & Hps & Elf & Elb). rewrite bool_decide_eq_false_2 by congruence. cbn. eexists. split; [done|].
    split; [done|done|]. exists qs, ps, lf, lb. by split_and!. }
  assert (Hst : rep_state p = AwaitingRequest) by (destruct ph; try done; apply Hph).
  rewrite bool_decide_eq_true_2 by congruence. cbn [negb]. pose proof Hlong as [Hlf _]%Forall_app.
  destruct (end_recv clock fuel 0 _ _ _ _ _ _ _ Hp Hlf Hfuel) as (o & b' & fr & -> & Ho & Hres). cbn [mbind option_bind].
  destruct (lane_recv lf) as [[m lf']|] eqn:El.
  - destruct ph as [|l| |l|]; try done; try (destruct Hph as (_ & _ & Elf & _); unfold lane_recv in El; rewrite Elf in El; done).
    destruct Hph as (Hqs & _ & -> & Elb & E1). destruct (lane_recv_one l m lf' E1 El) as [Elf' _]. rewrite El.
    destruct Hres as (-> & -> & Hp'). cbn. eexists. split; [done|]. split; [done| |].
    + destruct Hid as (? & ? & Hid). do 2 (split; [done|]). intros ? _. by apply Hid.
    + exists qs, ps, lf', lb. cbn. destruct (lane_recv_later l m lf' (ea_lane _ _ _ _ _ _ Hp) El) as [Elat _].
      split_and!; [done|done| |done|done|done|done|done|by rewrite Elf', Elb]. destruct Hf as [Hf1 Hf2]. split; [done|]. by rewrite Elat.
  - destruct Hres as (-> & Hp').
    assert (Hres : exists l', (e ← received_as (idle_outcome (rep_base p)); Some (e, mk_rr q (mk_rep b' fr (rep_state p)) forth back))
        = Some (Waits, l') /\ rr_inv corr qmax pmax longest n l' (id, ph)).
    { rewrite idle_waits. cbn. eexists. split; [done|]. split; [done|done|]. exists qs, ps, lf, lb. cbn. by split_and!. }
    destruct Hres as (l' & E & Hinv). exists l'. unfold idle_outcome in *.
    destruct ph as [|l| |l|]; try done; [|destruct Hph as (_ & _ & -> & _ & _); rewrite El|..];
      (split; [|exact Hinv]; by destruct (recv_timeout (options (rep_base p)))).
Qed.

Lemma step_collect corr qmax pmax longest n l s :
  rr_inv corr qmax pmax longest n l s -> (2 * n + longest < fuel)%nat ->
  exists l', rr_step l Collect = Some ((rr_spec corr s Collect).1, l') /\ rr_inv corr qmax pmax longest n l' (rr_spec corr s Collect).2.
Proof.
  intros [Hopt Hid (qs & ps & lf & lb & Hq & Hp & Hf & Hb & Hph & Hlong)] Hfuel.
  destruct l as [q p forth back], s as [id ph].
  cbn [rr_req rr_rep rr_forth rr_back fst snd rr_step rr_spec] in *. unfold req_recv.
  destruct (decide (ph = Free)) as [->|Hnf].
  { destruct Hph as (Hqs & Hps & Elf & Elb). rewrite bool_decide_eq_false_2 by congruence. cbn. eexists. split; [done|].
    split; [done|done|]. exists qs, ps, lf, lb. by split_and!. }
  assert (Hst : req_state q = AwaitingReply) by (destruct ph; try done; apply Hph).
  rewrite bool_decide_eq_true_2 by congruence. cbn [negb]. pose proof Hlong as [_ Hlb]%Forall_app.
  destruct (end_recv clock fuel 0 _ _ _ _ _ _ _ Hq Hlb Hfuel) as (o & b' & fr & -> & Ho & Hres). cbn [mbind option_bind].
  destruct Hopt as [Hrx Hco], Hid as (Hi1 & Hi2 & Hi3).
  destruct (lane_recv lb) as [[m lb']|] eqn:El.
  - destruct ph as [|l| |l|]; try done;
      try (destruct Hph as (_ & _ & _ & Elb & _); unfold lane_recv in El; rewrite Elb in El; done);
      try (destruct Hph as (_ & _ & _ & Elb); unfold lane_recv in El; rewrite Elb in El; done).
    destruct Hph as (_ & Hps & Elf & -> & E1). destruct (lane_recv_one l m lb' E1 El) as [Elb' _]. rewrite El.
    destruct Hres as (-> & -> & Hq'). cbn [mbind option_bind].
    assert (Hv : req_validate (options b') (expected_request_id q) m =
      match accepted corr id m with Some m => Ok m | None => Err InvalidData end).
    { destruct corr eqn:Ec.
      - rewrite Hi3 by done. rewrite req_validate_accepted by done. by rewrite Ho, Hco.
      - unfold req_validate. by rewrite Ho, Hco. }
    rewrite Hv. destruct (lane_recv_later l m lb' (ea_lane _ _ _ _ _ _ Hq) El) as [Elat _].
    assert (Hb' : on_way ps back lb') by (destruct Hb as [Hb1 Hb2]; split; [done|by rewrite Elat]).
    destruct (accepted corr id m) as [m'|]; cbn; (eexists; split; [done|]);
      (split; cbn; [by rewrite Ho|do 2 (split; [done|]); first [by intros _ []|by intros ? _; apply Hi3]|]); exists qs, ps, lf, lb'; cbn;
      (split_and!; [done|done|done|done|done|done|done|done|by rewrite Elf, Elb']).
  - destruct Hres as (-> & Hq').
    assert (Hres : rr_inv corr qmax pmax longest n (mk_rr (mk_req b' fr (req_state q) (request_id q) (expected_request_id q)) p forth back) (id, ph)).
    { split; cbn; [by rewrite Ho|by do 2 (split; [done|])|]. exists qs, ps, lf, lb. by split_and!. }
    eexists. unfold idle_outcome.
    destruct ph as [|l| |l|]; try done; [..|destruct Hph as (_ & _ & _ & -> & _); rewrite El|];
      (split; [|exact Hres]; by destruct (recv_timeout (options (req_base q)))).
Qed.

Lemma lane_arrive_empty l n : lane_ok l -> coming l = [] -> lane_arrive l n = l.
Proof. intros Hl E. rewrite (lane_empty l Hl E). unfold lane_arrive. cbn [coming arrived]. f_equal. change (len (wire_of [])) with 0. lia. Qed.

Lemma step_forth corr qmax pmax longest n l s k cuts :
  rr_inv corr qmax pmax longest n l s ->
  exists l', rr_step l (Forth k cuts) = Some (Done, l') /\
    rr_inv corr qmax pmax longest (n + Datatypes.S (length cuts)) l' (rr_spec corr s (Forth k cuts)).2.
Proof.
  intros [Hopt Hid (qs & ps & lf & lb & Hq & Hp & Hf & Hb & Hph & Hlong)]. destruct l as [q p forth back], s as [id ph].
  cbn [rr_req rr_rep rr_forth rr_back fst snd rr_step rr_spec] in *. rewrite (end_wire _ _ _ _ _ _ Hq).
  destruct (on_way_arrive _ _ _ k (ea_lane _ _ _ _ _ _ Hp) Hf) as [Eb Hf2]. eexists. split; [done|]. split; cbn; [done| |].
  - destruct Hid as (? & ? & Hid). do 2 (split; [done|]). intros ? Hne. apply Hid; [done|]. by destruct ph.
  - exists qs, ps, (lane_arrive lf k), lb. rewrite Eb.
    split_and!; [apply (end_mono _ _ _ _ _ n); [lia|done]|by apply end_deliver|by rewrite <- Eb|done| |done].
    destruct ph as [|l| |l|]; cbn in *; try done. destruct Hph as (? & ? & -> & ? & ?). by split_and!.
Qed.

Lemma step_back corr qmax pmax longest n l s k cuts :
  rr_inv corr qmax pmax longest n l s ->
  exists l', rr_step l (Back k cuts) = Some (Done, l') /\
    rr_inv corr qmax pmax longest (n + Datatypes.S (length cuts)) l' (rr_spec corr s (Back k cuts)).2.
Proof.
  intros [Hopt Hid (qs & ps & lf & lb & Hq & Hp & Hf & Hb & Hph & Hlong)]. destruct l as [q p forth back], s as [id ph].
  cbn [rr_req rr_rep rr_forth rr_back fst snd rr_step rr_spec] in *. rewrite (end_wire _ _ _ _ _ _ Hp).
  destruct (on_way_arrive _ _ _ k (ea_lane _ _ _ _ _ _ Hq) Hb) as [Eb Hb2]. eexists. split; [done|]. split; cbn; [done| |].
  - destruct Hid as (? & ? & Hid). do 2 (split; [done|]). intros ? Hne. apply Hid; [done|]. by destruct ph.
  - exists qs, ps, lf, (lane_arrive lb k). rewrite Eb.
    split_and!; [by apply end_deliver|apply (end_mono _ _ _ _ _ n); [lia|done]|done|by rewrite <- Eb| |done].
    destruct ph as [|l| |l|]; cbn in *; try done. destruct Hph as (? & ? & ? & -> & ?). by split_and!.
Qed.

Lemma rr_step_refines corr qmax pmax longest n l s op :
  reliable (S := S) -> rr_inv corr qmax pmax longest n l s -> rr_fits corr qmax pmax longest op ->
  (2 * n + longest < fuel)%nat ->
  exists l', rr_step l op = Some ((rr_spec corr s op).1, l') /\
    rr_inv corr qmax pmax longest (n + rr_pieces op) l' (rr_spec corr s op).2.
Proof.
  intros Hrel Hinv Hop Hfuel. destruct op as [m| |m| |k cuts|k cuts]; cbn [rr_pieces]; rewrite ?Nat.add_0_r.
  - by apply step_ask.
  - by apply step_serve.
  - by apply step_answer.
  - by apply step_collect.
  - destruct (step_forth corr qmax pmax longest n l s k cuts Hinv) as (l' & -> & ?). exists l'. by destruct s.
  - destruct (step_back corr qmax pmax longest n l s k cuts Hinv) as (l' & -> & ?). exists l'. by destruct s.
Qed.

Definition rr_all_pieces (ops : list rr_op) : nat := sum_list_with rr_pieces ops.

Lemma rr_run_refines corr qmax pmax longest ops n l s :
  reliable (S := S) -> rr_inv corr qmax pmax longest n l s -> Forall (rr_fits corr qmax pmax longest) ops ->
  (2 * (n + rr_all_pieces ops) + longest < fuel)%nat ->
  exists l', rr_run l ops = Some ((rr_spec_run corr s ops).1, l') /\
    rr_inv corr qmax pmax longest (n + rr_all_pieces ops) l' (rr_spec_run corr s ops).2.
Proof.
  intros Hrel Hinv Hops. revert n l s Hinv. unfold rr_all_pieces.
  induction Hops as [|op ops Hop Hops IH]; intros n l s Hinv Hfuel; cbn [rr_run rr_spec_run sum_list_with] in *.
  { rewrite Nat.add_0_r. by exists l. }
  destruct (rr_step_refines corr qmax pmax longest n l s op Hrel Hinv Hop) as (l1 & -> & Hinv1); [lia|].
  destruct (rr_spec corr s op) as [e s1]. cbn [fst snd mbind option_bind] in *.
  destruct (IH (n + rr_pieces op)%nat l1 s1 Hinv1) as (l2 & -> & Hinv2); [lia|].
  destruct (rr_spec_run corr s1 ops) as [es s2]. exists l2. split; [done|]. by rewrite Nat.add_assoc.
Qed.

(** A new connection. *)
Record fresh_pair (q : ReqSocket S K) (p : RepSocket S K) : Prop := {
  fp_req : req_state q = Idle /\ req_frames q = [] /\ linked (req_base q) [] [];
  fp_rep : rep_state p = AwaitingRequest /\ rep_frames p = [] /\ linked (rep_base p) [] [];
  fp_id : 0 <= request_id q < 2 ^ 32;
  fp_strict : req_relaxed (options (req_base q)) = false;
}.

Lemma fresh_pair_inv q p longest :
  fresh_pair q p ->
  rr_inv (req_correlate (options (req_base q))) (max_frame_size (decoder (req_base q))) (max_frame_size (decoder (rep_base p)))
    longest 0 (mk_rr q p 0 0) (request_id q, Free).
Proof.
  intros [(Hqs & Hqf & Hql) (Hps & Hpf & Hpl) Hid Hst]. split; [done|by do 2 (split; [done|])|].
  exists [], [], (mk_lane [] 0), (mk_lane [] 0). cbn. rewrite Hqf, Hpf.
  split_and!; [by apply end_new|by apply end_new|apply (on_way_new [])|apply (on_way_new [])|done..].
Qed.
End conversation.
#[global] Arguments RrLink : clear implicits.

(** C9: request and reply.  A strict REQ socket (not [req_relaxed]) and a REP socket
    over a plaintext connection whose writes complete, without heartbeats and with
    messages within the other side's frame limit, refine the machine [rr_spec].
    Whatever both applications call, in turn or out of turn, and however many bytes
    at a time and in whatever pieces these arrive, every call returns what the
    machine says: one request is under way at a time; the server gets it whole and
    once, when its last byte has arrived, with the request id in front in
    correlation mode; the client gets the server's answer to this very request;
    calls out of turn are refused and change nothing; a receive call that finds part
    of a message waits and loses nothing.  In correlation mode REP does not restore
    the id: an answer that does not begin with the id the server was given is
    refused, and the client goes on waiting for one that will not come ([Lost]). *)
Theorem request_reply_conversation {S K : Type} `{DuplexStream S} `{!Aead K} (clock : nat -> Z) (fuel : nat)
    (q : ReqSocket S K) (p : RepSocket S K) (longest : nat) (ops : list rr_op) :
  let corr := req_correlate (options (req_base q)) in
  reliable (S := S) -> fresh_pair q p ->
  Forall (rr_fits corr (max_frame_size (decoder (req_base q))) (max_frame_size (decoder (rep_base p))) longest) ops ->
  (2 * rr_all_pieces ops + longest < fuel)%nat ->
  exists l, rr_run clock fuel (mk_rr q p 0 0) ops = Some ((rr_spec_run corr (request_id q, Free) ops).1, l).
Proof.
  intros corr Hrel Hf Hops Hfuel.
  destruct (rr_run_refines clock fuel corr _ _ longest ops 0 _ _ Hrel (fresh_pair_inv q p longest Hf)) as (l & E & _); [done|lia|].
  by exists l.
Qed.

(** Correlation needs the server's help.  REP neither keeps nor restores the
    request id: it hands it to the application as part of the request.  When the
    application answers with anything that does not begin with the id, the client
    refuses the answer, no later call gets one, and no other request can be made. *)
Theorem unaware_server_refused {S K : Type} `{DuplexStream S} `{!Aead K} (clock : nat -> Z) (fuel : nat)
    (q : ReqSocket S K) (p : RepSocket S K) (longest : nat) (msg reply msg' : list bytes) (n n' : nat) :
  let id := u32_wrap (request_id q + 1) in
  let request := be_bytes 4 id :: msg in
  reliable (S := S) -> fresh_pair q p -> req_correlate (options (req_base q)) = true -> head reply <> Some (be_bytes 4 id) ->
  Forall (rr_fits true (max_frame_size (decoder (req_base q))) (max_frame_size (decoder (rep_base p))) longest)
    [Ask msg; Answer reply; Ask msg'] ->
  (length (encode_multipart request []) <= n)%nat -> (length (encode_multipart reply []) <= n')%nat -> (4 + longest < fuel)%nat ->
  exists l, rr_run clock fuel (mk_rr q p 0 0)
      [Ask msg; Forth n []; Serve; Answer reply; Back n' []; Collect; Collect; Ask msg'] =
    Some ([Done; Done; Got request; Done; Done; BadReply; Waits; Refused], l).
Proof.
  intros id request Hrel Hf Hco Hne Hfit Hn Hn' Hfuel.
  apply list.Forall_cons in Hfit as [H1 [H2 [H3 _]%list.Forall_cons]%list.Forall_cons].
  pose proof (fresh_pair_inv q p longest Hf) as Hinv. rewrite Hco in Hinv.
  destruct (rr_run_refines clock fuel true _ _ longest [Ask msg; Forth n []; Serve; Answer reply; Back n' []; Collect; Collect; Ask msg']
    0 _ _ Hrel Hinv) as (l & E & _).
  { repeat (constructor; [done|]). constructor. }
  { cbn. lia. }
  exists l. rewrite E. f_equal. f_equal.
  assert (Harr : forall (m : list bytes) k, (length (encode_multipart m []) <= k)%nat ->
    lane_recv (lane_arrive (mk_lane [m] 0) k) = Some (m, mk_lane [] 0)).
  { intros m k Hk. unfold lane_recv, lane_arrive. cbn [coming arrived]. rewrite wire_of_one.
    rewrite Z.min_r by (unfold len; lia). rewrite (proj2 (Z.leb_le _ _)) by lia. by rewrite Z.sub_diag. }
  cbn [rr_spec_run rr_spec fst snd]. fold id. unfold tagged. fold request. rewrite (Harr request n Hn). cbn [rr_spec_run rr_spec fst snd].
  rewrite (Harr reply n' Hn'). unfold accepted. destruct reply as [|f rest]; [done|]. cbn in Hne.
  rewrite bool_decide_eq_false_2 by congruence. done.
Qed.

(** ** Examples *)

Definition correlated : SocketOptions := with_req_correlate default_options true.
Definition sample_req : ReqSocket PipeStream unit := req_with_options (mk_pipe [] []) correlated None.
Definition sample_rep : RepSocket PipeStream unit := rep_with_options (mk_pipe [] []) default_options None.

Lemma sample_fresh : fresh_pair sample_req sample_rep.
Proof. split; [split_and!; [done|done|by apply pipe_linked]..|vm_compute; done|done]. Qed.

(** The request has two frames; the server asks for it when the first has arrived. *)
Definition sample_calls : list rr_op :=
  [Collect; Ask [ascii_bytes "ping"]; Ask [ascii_bytes "again"]; Forth 7 [0]%nat; Serve; Forth 9 []; Serve; Serve;
   Answer [be_bytes 4 1; ascii_bytes "pong"]; Back 8 [1; 1]%nat; Collect; Back 99 []; Collect; Ask [ascii_bytes "next"]].

Lemma request_reply_conversation_witness :
  exists l, rr_run (λ _, 0) 20 (mk_rr sample_req sample_rep 0 0) sample_calls =
    Some ([Refused; Done; Refused; Done; Waits; Done; Got [be_bytes 4 1; ascii_bytes "ping"]; Refused; Done; Done; Waits; Done;
           Got [ascii_bytes "pong"]; Done], l).
Proof.
  destruct (request_reply_conversation (λ _, 0) 20 sample_req sample_rep 2 sample_calls) as (l & E).
  - done.
  - apply sample_fresh.
  - repeat constructor; vm_compute; try discriminate; lia.
  - vm_compute. lia.
  - exists l. rewrite E. reflexivity.
Defined.

Lemma unaware_server_refused_witness :
  exists l, rr_run (λ _, 0) 20 (mk_rr sample_req sample_rep 0 0)
      [Ask [ascii_bytes "ping"]; Forth 99 []; Serve; Answer [ascii_bytes "pong"]; Back 99 []; Collect; Collect; Ask [ascii_bytes "again"]] =
    Some ([Done; Done; Got [be_bytes 4 1; ascii_bytes "ping"]; Done; Done; BadReply; Waits; Refused], l).
Proof.
  apply (unaware_server_refused (λ _, 0) 20 sample_req sample_rep 2 [ascii_bytes "ping"] [ascii_bytes "pong"] [ascii_bytes "again"] 99 99).
  - done.
  - apply sample_fresh.
  - reflexivity.
  - vm_compute. discriminate.
  - repeat constructor; vm_compute; try discriminate; lia.
  - vm_compute. lia.
  - vm_compute. lia.
  - lia.
Defined.
