(* ===== verification/RouterPair.v ===== *)
(** * ROUTER and PAIR sockets

    monocoque-zmtp/src/router.rs and pair.rs on the socket base and the receive
    loop: the identity envelope of a ROUTER, its mandatory mode and batches,
    the identities it gives to its peers; PAIR sockets over a stream and, with
    DEALER sockets, over in-process endpoints. *)

From S2P Require Import Prelude.
From S2P Require Import SegBuffer.
From S2P Require Import Codec.
From S2P Require Import Options.
From S2P Require Import Address.
From S2P Require Import Ready.
From S2P Require Import CurveMessage.
From S2P Require Import Stream.
From S2P Require Import Zap.
From S2P Require Import Inproc.
From S2P Require Import Base.
From S2P Require Import BaseWire.
From S2P Require Import Recv.
From S2P Require Import Sockets.
From S2P Require Import Pipeline.

(** ** ROUTER *)

(** The identity of a peer: the one assigned to the next connection, else the
    one it announced, else a generated one.  [counter] is [PEER_ID_COUNTER]. *)
Definition peer_identity_of (counter : Z) (assigned announced : option bytes) : bytes * Z :=
  match assigned with
  | Some id => (id, counter)
  | None =>
      match announced with
      | Some id => (id, counter)
      | None => ([u8 0] ++ ascii_bytes "peer-" ++ fmt_u64 counter, (counter + 1) mod 2 ^ 64)
      end
  end.

Section router.
Context {S K : Type} `{AsyncStream S} `{Aead K}.

Record RouterSocket := mk_router {
  router_base : SocketBase S K;
  router_frames : list bytes;
  peer_identity : bytes;
  mandatory : bool;
}.

(** [with_options] after its handshake, which yields the identity the peer
    announced and the cipher. *)
Definition router_with_options (s : S) (o : SocketOptions) (announced : option bytes)
    (c : option (CurveMessageCipher K)) (counter : Z) : RouterSocket * Z :=
  let '(id, counter) := peer_identity_of counter (connect_routing_id o) announced in
  (mk_router (set_cipher (base_new s (o <| connect_routing_id := @None bytes |>)) c) [] id (router_mandatory o), counter).

Definition set_router_base (r : RouterSocket) (b : SocketBase S K) : RouterSocket :=
  mk_router b (router_frames r) (peer_identity r) (mandatory r).

Definition router_recv (clock : nat -> Z) (fuel : nat) (r : RouterSocket)
    : option (outcome (option (list bytes)) * RouterSocket) :=
  '(o, b, fs) ← recv_loop clock fuel 0 (router_base r) (router_frames r);
  let r := mk_router b fs (peer_identity r) (mandatory r) in
  Some match o with
  | Returned (Ok (Some msg)) => (Returned (Ok (Some (peer_identity r :: msg))), r)
  | o => (o, r)
  end.

Definition router_send (r : RouterSocket) (msg : list bytes) : outcome unit * RouterSocket :=
  match msg with
  | [] => (Returned (Err InvalidInput), r)
  | identity :: frames_to_send =>
      if negb (bool_decide (identity = peer_identity r)) then
        if mandatory r then (Returned (Err NotFound), r) else (Returned (Ok tt), r)
      else let '(o, b) := send_now (router_base r) frames_to_send in (o, set_router_base r b)
  end.

Definition set_router_mandatory (r : RouterSocket) (m : bool) : RouterSocket :=
  let b := router_base r in
  mk_router (mk_base (stream b) (endpoint b) (reconnect b) (decoder b) (recv_buf b) (write_buf b) (send_buffer b)
      (with_router_mandatory (options b) m) (last_endpoint b) (is_poisoned b) (buffered_messages b)
      (last_recv_instant b) (ping_sent_at b) (awaiting_pong b) (curve_cipher b))
    (router_frames r) (peer_identity r) m.

(** The identity is looked at before the high-water mark. *)
Definition router_send_buffered (r : RouterSocket) (msg : list bytes) : io_result unit * RouterSocket :=
  match msg with
  | [] => (Err InvalidInput, r)
  | identity :: frames_to_send =>
      if negb (bool_decide (identity = peer_identity r)) then
        if mandatory r then (Err NotFound, r) else (Ok tt, r)
      else if hwm_reached (router_base r) then (Err WouldBlock, r)
      else let '(x, b) := encode_message_to_send_buf (router_base r) frames_to_send in (x, set_router_base r b)
  end.

Definition router_flush (r : RouterSocket) : outcome unit * RouterSocket :=
  let '(o, b) := flush_send_buffer (router_base r) in (o, set_router_base r b).

(** The loop of [send_batch]: empty messages and, unless mandatory, messages to
    other identities are skipped. *)
Fixpoint router_batch_encode (r : RouterSocket) (msgs : list (list bytes)) : io_result unit * RouterSocket :=
  match msgs with
  | [] => (Ok tt, r)
  | [] :: msgs => router_batch_encode r msgs
  | (identity :: frames_to_send) :: msgs =>
      if negb (bool_decide (identity = peer_identity r)) then
        if mandatory r then (Err NotFound, r) else router_batch_encode r msgs
      else
        match encode_message_to_send_buf (router_base r) frames_to_send with
        | (Ok _, b) => router_batch_encode (set_router_base r b) msgs
        | (Err e, b) => (Err e, set_router_base r b)
        end
  end.

Definition router_send_batch (r : RouterSocket) (msgs : list (list bytes)) : outcome unit * RouterSocket :=
  match router_batch_encode r msgs with
  | (Err e, r) => (Returned (Err e), r)
  | (Ok _, r) => router_flush r
  end.

(** As [DealerSocket::close], line for line. *)
Definition router_close (r : RouterSocket) : outcome unit * RouterSocket :=
  let '(o, d) := dealer_close (mk_dealer (router_base r) (router_frames r)) in (o, set_router_base r (dealer_base d)).
End router.
#[global] Arguments RouterSocket : clear implicits.

(** ** PAIR *)

Section pair.
Context {S K : Type} `{AsyncStream S} `{Aead K}.

Record PairSocket := mk_pair {
  pair_base : SocketBase S K;
  pair_frames : list bytes;
}.

Definition pair_with_options (s : S) (o : SocketOptions) (c : option (CurveMessageCipher K)) : PairSocket :=
  mk_pair (set_cipher (base_new s o) c) [].

(** [connect_with_options] after the connection and its handshake. *)
Definition pair_connected (s : S) (peer_addr : SocketAddr) (o : SocketOptions) (c : option (CurveMessageCipher K))
    : PairSocket :=
  mk_pair (set_cipher (with_endpoint s (Tcp peer_addr) o) c) [].

Definition set_pair_base (p : PairSocket) (b : SocketBase S K) : PairSocket := mk_pair b (pair_frames p).

Definition pair_send (p : PairSocket) (msg : list bytes) : outcome unit * PairSocket :=
  let '(o, b) := send_now (pair_base p) msg in (o, set_pair_base p b).

Definition pair_recv (clock : nat -> Z) (fuel : nat) (p : PairSocket)
    : option (outcome (option (list bytes)) * PairSocket) :=
  '(o, b, fs) ← recv_loop clock fuel 0 (pair_base p) (pair_frames p);
  Some (o, mk_pair b fs).

Definition pair_close (p : PairSocket) : outcome unit * PairSocket :=
  let '(o, b) := close (pair_base p) in (o, set_pair_base p b).

#[export] Instance pair_has_base : HasBase PairSocket S K := { base_of := pair_base; put_base := set_pair_base }.

Definition pair_recv_with_reconnect `{C : Connector S K} (clock : nat -> Z) (fuel retries : nat) (p : PairSocket)
    : option (outcome (option (list bytes)) * PairSocket) :=
  recv_with_reconnect (base_reconnect Pair) (pair_recv clock fuel) retries 0 p.

Definition pair_send_with_reconnect `{C : Connector S K} (retries : nat) (p : PairSocket) (msg : list bytes)
    : option (outcome unit * PairSocket) :=
  send_with_reconnect (base_reconnect Pair) (λ p, pair_send p msg) retries 0 p.
End pair.
#[global] Arguments PairSocket : clear implicits.

(** ** Sockets over in-process endpoints

    A socket over an [InprocStream] holds the channel it sends on and the
    channel it receives from; there is no handshake.  Endpoint names that
    [validate_and_extract_name] accepts always parse as an [Endpoint]. *)

Record InprocEnds := mk_ends {
  to_peer : nat;
  from_peer : nat;
}.

Definition ends_of (x : io_result (nat * nat) * World) : io_result InprocEnds * World :=
  match x with
  | (Ok (tx, rx), w) => (Ok (mk_ends tx rx), w)
  | (Err e, w) => (Err e, w)
  end.

Definition pair_bind_inproc (endpoint : bytes) (w : World) : io_result InprocEnds * World := ends_of (bind_inproc endpoint w).
Definition pair_connect_inproc (endpoint : bytes) (w : World) : io_result InprocEnds * World :=
  ends_of (connect_inproc_bidi endpoint w).

Definition dealer_bind_inproc (endpoint : bytes) (w : World) : io_result InprocEnds * World := ends_of (bind_inproc endpoint w).
Definition dealer_bind_inproc_bidi (endpoint : bytes) (w : World) : io_result InprocEnds * World :=
  ends_of (bind_inproc_bidi endpoint w).
Definition dealer_connect_inproc (endpoint : bytes) (w : World) : io_result InprocEnds * World :=
  ends_of (connect_inproc_bidi endpoint w).

(** ** The envelope *)

Section envelope.
Context {S K : Type} `{!AsyncStream S} `{!WireStream S} `{!ChunkStream S} `{!Aead K}.
Implicit Types r : RouterSocket S K.

Lemma router_recv_envelope (clock : nat -> Z) (fuel : nat) r m rest :
  m <> [] -> Forall (λ part, len part <= max_frame_size (decoder (router_base r)) /\ len part <= 0x7FFFFFFFFFFFFFFF) m ->
  receiving (router_base r) (encode_multipart m [] ++ rest) -> router_frames r = [] ->
  (2 * chunks_left (router_base r) + length m < fuel)%nat ->
  exists r', router_recv clock fuel r = Some (Returned (Ok (Some (peer_identity r :: m))), r') /\
    peer_identity r' = peer_identity r /\ mandatory r' = mandatory r /\ router_frames r' = [] /\
    receiving (router_base r') rest.
Proof using.
  intros Hne Hm Hrc Hf Hfuel. unfold router_recv. rewrite Hf.
  destruct (recv_one_message clock fuel m (router_base r) rest Hne Hm Hrc Hfuel) as (b' & -> & Hrc' & _).
  cbn. by eexists.
Qed.

(** What a batch leaves for the peer: the messages addressed to it, without
    their envelope. *)
Definition for_peer (id : bytes) (msgs : list (list bytes)) : list (list bytes) :=
  omap (λ m, match m with i :: fs => if bool_decide (i = id) then Some fs else None | [] => None end) msgs.

Lemma router_batch_sending r msgs sent queued :
  sending (router_base r) sent queued -> mandatory r = false ->
  exists b', router_batch_encode r msgs = (Ok tt, set_router_base r b') /\
    sending b' sent (queued ++ wire_of (for_peer (peer_identity r) msgs)).
Proof using.
  revert r queued. induction msgs as [|[|i fs] msgs IH]; intros r queued Hs Hm; cbn [router_batch_encode].
  - exists (router_base r). cbn. rewrite app_nil_r. by destruct r.
  - destruct (IH r queued Hs Hm) as (b' & -> & Hs'). by exists b'.
  - unfold for_peer. cbn [omap list_omap]. case_bool_decide as Ei; cbn [negb].
    + pose proof Hs as (Hst & Hq & Hp & Hci & Ht). unfold encode_message_to_send_buf, encode_into. rewrite Hci, Hq.
      set (b1 := set_buffered _ _).
      destruct (IH (set_router_base r b1) (queued ++ encode_multipart fs [])) as (b' & -> & Hs'); [|done|].
      { split_and!; [done| |done|done|done]. cbn. by rewrite !encode_multipart_frames. }
      exists b'. split; [done|]. revert Hs'. cbn [peer_identity set_router_base].
      change (wire_of (fs :: ?x)) with (encode_multipart fs [] ++ wire_of x). by rewrite <- app_assoc.
    + rewrite Hm. destruct (IH r queued Hs Hm) as (b' & -> & Hs'). by exists b'.
Qed.
End envelope.

(** The ROUTER envelope.  A message the peer sends is returned with the
    peer's identity in front; sending a message with that identity in front
    puts exactly the rest on the wire, so a reply to what was received reaches
    its sender.  A message with any other identity reaches nobody: it is
    dropped, or refused with [NotFound] in mandatory mode, and the socket is
    unchanged. *)
Theorem router_envelope {S K : Type} `{!AsyncStream S} `{!WireStream S} `{!ChunkStream S} `{!Aead K}
    (clock : nat -> Z) (fuel : nat) (r : RouterSocket S K) (m rest : list bytes) (more sent : bytes) :
  m <> [] -> Forall (λ part, len part <= max_frame_size (decoder (router_base r)) /\ len part <= 0x7FFFFFFFFFFFFFFF) m ->
  receiving (router_base r) (encode_multipart m [] ++ more) -> router_frames r = [] ->
  (2 * chunks_left (router_base r) + length m < fuel)%nat ->
  (exists r', router_recv clock fuel r = Some (Returned (Ok (Some (peer_identity r :: m))), r') /\
     peer_identity r' = peer_identity r /\ receiving (router_base r') more) /\
  (reliable (S := S) -> sending (router_base r) sent [] ->
     exists r' s', router_send r (peer_identity r :: rest) = (Returned (Ok tt), r') /\
       stream (router_base r') = Some s' /\ wire s' = sent ++ encode_multipart rest []) /\
  (forall id, id <> peer_identity r ->
     router_send r (id :: rest) = (Returned (if mandatory r then Err NotFound else Ok tt), r)).
Proof.
  intros Hne Hm Hrc Hf Hfuel. split_and!.
  - destruct (router_recv_envelope clock fuel r m more Hne Hm Hrc Hf Hfuel) as (r' & ? & ? & _ & _ & ?). by exists r'.
  - intros Hrel Hs. unfold router_send. rewrite bool_decide_eq_true_2 by done. cbn [negb].
    destruct (send_now_sending _ _ rest Hrel Hs) as (b' & -> & ((s' & Hs' & Hw) & _) & _).
    eexists _, s'. split; [done|]. by split.
  - intros id Hid. unfold router_send. rewrite bool_decide_eq_false_2 by done. cbn. by destruct (mandatory r).
Qed.

(** A stream that delivers its input and records what is written. *)
Definition echo_stream (m : list bytes) : ScriptStream := mk_script [] [encode_multipart m []] [].

Definition echo_router (m : list bytes) : RouterSocket ScriptStream unit :=
  (router_with_options (echo_stream m) default_options (Some (ascii_bytes "worker")) None 1).1.

Lemma router_envelope_witness :
  let m := [ascii_bytes "job"; ascii_bytes "42"] in
  (exists r', router_recv (λ _, 0) 10 (echo_router m) = Some (Returned (Ok (Some (ascii_bytes "worker" :: m))), r')) /\
  router_send (echo_router m) [ascii_bytes "other"; ascii_bytes "x"] = (Returned (Ok tt), echo_router m).
Proof.
  cbn zeta. set (m := [_; _]).
  destruct (router_envelope (λ _, 0) 10 (echo_router m) m [ascii_bytes "x"] [] []) as (H1 & _ & H3).
  - discriminate.
  - repeat constructor; vm_compute; discriminate.
  - rewrite app_nil_r. split; try reflexivity.
    + vm_compute. split; reflexivity.
    + apply segbuf_new_wf.
    + eexists. split; [reflexivity|]. split; [repeat constructor; vm_compute; discriminate|vm_compute; reflexivity].
  - reflexivity.
  - vm_compute. lia.
  - split; [destruct H1 as (r' & H1 & _); exists r'; exact H1|].
    apply (H3 (ascii_bytes "other")). vm_compute. discriminate.
Defined.

(** A batch outside mandatory mode on a healthy connection: the wire gets the
    messages addressed to the peer, in order and without envelope, and nothing
    else; messages to other identities and empty messages are skipped. *)
Theorem router_batch_filters {S K : Type} `{WireStream S} `{!Aead K} (r : RouterSocket S K) (msgs : list (list bytes))
    (sent : bytes) :
  reliable (S := S) -> sending (router_base r) sent [] -> mandatory r = false ->
  exists r' s', router_send_batch r msgs = (Returned (Ok tt), r') /\ stream (router_base r') = Some s' /\
    wire s' = sent ++ wire_of (for_peer (peer_identity r) msgs).
Proof.
  intros Hrel Hs Hm. unfold router_send_batch. destruct (router_batch_sending r msgs sent [] Hs Hm) as (b' & -> & Hs').
  unfold router_flush. cbn [router_base set_router_base].
  destruct (flush_sending b' _ _ Hrel Hs') as (b2 & -> & ((s2 & Hs2 & Hw) & _) & _). eexists _, s2. by split_and!.
Qed.

(** ** Generated identities *)

(** The identities of [n] peers that are neither assigned one nor announce one. *)
Fixpoint auto_identities (counter : Z) (n : nat) : list bytes :=
  match n with
  | O => []
  | S n => let '(id, counter) := peer_identity_of counter None None in id :: auto_identities counter n
  end.

Lemma auto_identity_inj a b :
  0 <= a < 2 ^ 64 -> 0 <= b < 2 ^ 64 -> (peer_identity_of a None None).1 = (peer_identity_of b None None).1 -> a = b.
Proof.
  intros Ha Hb E. cbn [peer_identity_of fst] in E. apply app_inv_head, app_inv_head in E. by apply fmt_u64_inj in E.
Qed.

Lemma auto_identities_elem id counter n :
  0 <= counter -> counter + Z.of_nat n <= 2 ^ 64 -> id ∈ auto_identities counter n ->
  exists c, counter <= c < counter + Z.of_nat n /\ id = (peer_identity_of c None None).1.
Proof.
  revert counter. induction n as [|n IH]; intros counter Hc Hn; cbn [auto_identities]; [by intros ?%elem_of_nil|].
  cbn [peer_identity_of]. intros [->|Hin]%elem_of_cons.
  - exists counter. split; [lia|done].
  - destruct (decide (counter + 1 = 2 ^ 64)) as [E|E].
    + assert (n = O) as -> by lia. by apply elem_of_nil in Hin.
    + rewrite Z.mod_small in Hin by lia. apply IH in Hin as (c & Hr & ->); [|lia..]. exists c. split; [lia|done].
Qed.

(** Generated identities are fresh: however many peers connect (up to 2^64)
    their generated identities are pairwise distinct, and none of them is an
    identity that [validate_router_identity] lets the application assign. *)
Theorem auto_identities_distinct (counter : Z) (n : nat) :
  0 <= counter -> counter + Z.of_nat n <= 2 ^ 64 ->
  NoDup (auto_identities counter n) /\
  (forall id, id ∈ auto_identities counter n -> validate_router_identity id = Err InvalidInput).
Proof.
  intros Hc Hn. split.
  - revert counter Hc Hn. induction n as [|n IH]; intros counter Hc Hn; cbn [auto_identities]; [constructor|].
    cbn [peer_identity_of]. destruct (decide (counter + 1 = 2 ^ 64)) as [E|E].
    { assert (n = O) as -> by lia. apply NoDup_singleton. }
    rewrite Z.mod_small by lia. constructor; [|apply IH; lia]. intros Hin.
    apply auto_identities_elem in Hin as (c & Hr & E2); [|lia..].
    apply (auto_identity_inj counter c) in E2; lia.
  - intros id (c & Hr & ->)%auto_identities_elem; [|done..]. cbn [peer_identity_of fst app validate_router_identity].
    by destruct (255 <? _).
Qed.

Lemma auto_identities_distinct_witness :
  NoDup (auto_identities 1 3) /\ auto_identities 1 3 !! 2%nat = Some ([u8 0] ++ ascii_bytes "peer-3").
Proof.
  split; [|vm_compute; reflexivity]. apply (auto_identities_distinct 1 3); lia.
Defined.

(** ** In-process PAIR and DEALER *)

(** PAIR sockets cannot be connected in process.  After [bind_inproc] on a
    name that has no reply channel, [connect_inproc] on the same name is
    refused with [NotFound]; and the bound socket sends to itself: what it
    sends is what it receives. *)
Theorem inproc_pair_unreachable (endpoint : bytes) (w w1 : World) (e : InprocEnds) :
  pair_bind_inproc endpoint w = (Ok e, w1) ->
  (forall name, validate_and_extract_name endpoint = Ok name -> reply_registry w !! name = None) ->
  pair_connect_inproc endpoint w1 = (Err NotFound, w1) /\
  (forall ms, exists w2 w3, send_all w1 (to_peer e) ms = Some w2 /\ recv_n w2 (from_peer e) (length ms) = Some (ms, w3)).
Proof.
  unfold pair_bind_inproc, pair_connect_inproc. destruct (bind_inproc endpoint w) as [[[tx rx]|] w'] eqn:Eb; [|done].
  intros [= <- <-] Hreply. pose proof Eb as (name & Hv & Hnone & -> & -> & Hn & Hc & Hreg)%bind_spec.
  specialize (Hreply name Hv). assert (Hrep : reply_registry w' = reply_registry w).
  { revert Eb. unfold bind_inproc. rewrite Hv. cbn. rewrite Hnone. by intros [= <-]. }
  split.
  - unfold connect_inproc_bidi. by rewrite Hv, Hreg, Hrep, Hreply.
  - intros ms. destruct (send_all_spec w' (next_channel w) ms [] 0 Hc) as (w2 & Hs & Hc2 & _).
    destruct (recv_n_spec w2 (next_channel w) ms 1 Hc2) as [w3 Hr]. by exists w2, w3.
Qed.

Lemma inproc_pair_unreachable_witness :
  let w1 := (pair_bind_inproc (ascii_bytes "inproc://p") empty_world).2 in
  pair_connect_inproc (ascii_bytes "inproc://p") w1 = (Err NotFound, w1).
Proof.
  cbn zeta. apply (inproc_pair_unreachable (ascii_bytes "inproc://p") empty_world _ (mk_ends 0 0)).
  - vm_compute. reflexivity.
  - intros name _. apply lookup_empty.
Defined.

(** Replies registered so far belong to channels that exist. *)
Definition world_ok (w : World) : Prop :=
  forall name rx, reply_registry w !! name = Some rx -> (rx < next_channel w)%nat.

Lemma send_all_other w id ms w' other :
  send_all w id ms = Some w' -> other <> id -> channels w' !! other = channels w !! other.
Proof.
  revert w. induction ms as [|m ms IH]; intros w; cbn; [by intros [= <-]|].
  unfold chan_send. destruct (channels w !! id) as [c|]; [|done]. destruct (_ <? _)%nat; [|done].
  intros Hs Hne. rewrite (IH _ Hs Hne). cbn. by rewrite lookup_insert_ne.
Qed.

Lemma recv_n_other w id n ms w' other :
  recv_n w id n = Some (ms, w') -> other <> id -> channels w' !! other = channels w !! other.
Proof.
  revert w ms. induction n as [|n IH]; intros w ms; cbn; [by intros [= _ <-]|].
  unfold chan_recv. destruct (channels w !! id) as [[[|m q] k]|]; [done| |done].
  destruct (recv_n (set_channel w id (mk_channel q k)) id n) as [[ms' w2]|] eqn:E; [|done]. cbn. intros [= _ <-] Hne.
  rewrite (IH _ _ E Hne). cbn. by rewrite lookup_insert_ne.
Qed.

Lemma bidi_spec endpoint w tx rx w1 :
  world_ok w -> bind_inproc_bidi endpoint w = (Ok (tx, rx), w1) ->
  exists name, validate_and_extract_name endpoint = Ok name /\ rx <> tx /\
    registry w1 !! name = Some rx /\ reply_registry w1 !! name = Some tx /\
    channels w1 !! rx = Some (mk_channel [] 1) /\ channels w1 !! tx = Some (mk_channel [] 1).
Proof.
  intros Hw. unfold bind_inproc_bidi. destruct (validate_and_extract_name endpoint) as [name|]; [|done]. cbn.
  destruct (registry w !! name) eqn:E; [done|].
  set (w0 := mk_world (<[S (next_channel w) := _]> _) _ _ _).
  assert (Hch : forall w2, w2 = match reply_registry w !! name with Some rx => drop_receiver w0 rx | None => w0 end ->
    registry w2 = registry w0 /\ channels w2 !! next_channel w = Some (mk_channel [] 1) /\
    channels w2 !! S (next_channel w) = Some (mk_channel [] 1)).
  { assert (H0 : channels w0 !! next_channel w = Some (mk_channel [] 1) /\
      channels w0 !! S (next_channel w) = Some (mk_channel [] 1)).
    { unfold w0. cbn [channels]. split; [rewrite lookup_insert_ne by lia|]; apply lookup_insert_eq. }
    intros w2 ->. destruct (reply_registry w !! name) as [old|] eqn:Er; [|done]. pose proof (Hw _ _ Er).
    unfold drop_receiver. destruct (channels w0 !! old); [|done]. cbn -[w0].
    rewrite !lookup_insert_ne by lia. done. }
  destruct (Hch _ eq_refl) as (Hreg & H1 & H2). intros [= <- <- <-]. exists name.
  split_and!; [done|lia| |apply lookup_insert_eq|exact H1|exact H2].
  etrans; [exact (f_equal (lookup name) Hreg)|]. apply lookup_insert_eq.
Qed.

(** An in-process request-reply endpoint carries both directions.  After
    [bind_inproc_bidi] a DEALER that connects to the name is joined to the
    binder: what each sends the other receives, whole and in order, and the
    two directions do not mix. *)
Theorem inproc_bidi_delivers (endpoint : bytes) (w w1 : World) (server : InprocEnds) :
  world_ok w -> dealer_bind_inproc_bidi endpoint w = (Ok server, w1) ->
  exists client w2, dealer_connect_inproc endpoint w1 = (Ok client, w2) /\
    forall requests replies, exists w3 w4 w5 w6,
      send_all w2 (to_peer client) requests = Some w3 /\ send_all w3 (to_peer server) replies = Some w4 /\
      recv_n w4 (from_peer server) (length requests) = Some (requests, w5) /\
      recv_n w5 (from_peer client) (length replies) = Some (replies, w6).
Proof.
  intros Hw. unfold dealer_bind_inproc_bidi, dealer_connect_inproc.
  destruct (bind_inproc_bidi endpoint w) as [[[tx rx]|] w'] eqn:Eb; [|done]. intros [= <- <-].
  destruct (bidi_spec _ _ _ _ _ Hw Eb) as (name & Hv & Hne & Hreg & Hrep & Hrx & Htx).
  unfold connect_inproc_bidi. rewrite Hv, Hreg, Hrep. cbn [ends_of]. eexists _, _. split; [done|]. cbn [to_peer from_peer].
  unfold clone_receiver. rewrite Htx. set (w2 := set_channel _ _ _).
  assert (H1 : channels w2 !! rx = Some (mk_channel [] 1)) by (cbn; by rewrite lookup_insert_ne).
  assert (H2 : channels w2 !! tx = Some (mk_channel [] 2)) by (cbn; by rewrite lookup_insert_eq).
  intros requests replies. destruct (send_all_spec w2 rx requests [] 0 H1) as (w3 & Hs3 & H3 & _).
  assert (H3' : channels w3 !! tx = Some (mk_channel [] 2)) by (by rewrite (send_all_other _ _ _ _ tx Hs3)).
  destruct (send_all_spec w3 tx replies [] 1 H3') as (w4 & Hs4 & H4 & _).
  assert (H4' : channels w4 !! rx = Some (mk_channel requests 1)) by (by rewrite (send_all_other _ _ _ _ rx Hs4)).
  destruct (recv_n_spec w4 rx requests 1 H4') as [w5 Hr5].
  assert (H5 : channels w5 !! tx = Some (mk_channel replies 2)) by (by rewrite (recv_n_other _ _ _ _ _ tx Hr5)).
  destruct (recv_n_spec w5 tx replies 2 H5) as [w6 Hr6]. by exists w3, w4, w5, w6.
Qed.

Lemma inproc_bidi_delivers_witness :
  exists client w2,
    dealer_connect_inproc (ascii_bytes "inproc://zap") (dealer_bind_inproc_bidi (ascii_bytes "inproc://zap") empty_world).2
      = (Ok client, w2) /\
    exists w3, send_all w2 (to_peer client) [[ascii_bytes "hi"]] = Some w3.
Proof.
  destruct (inproc_bidi_delivers (ascii_bytes "inproc://zap") empty_world
    (dealer_bind_inproc_bidi (ascii_bytes "inproc://zap") empty_world).2 (mk_ends 1 0)) as (c & w2 & H1 & H2).
  - intros name rx. cbn [reply_registry empty_world]. by rewrite lookup_empty.
  - vm_compute. reflexivity.
  - exists c, w2. split; [exact H1|]. destruct (H2 [[ascii_bytes "hi"]] []) as (w3 & _ & _ & _ & H3 & _). by exists w3.
Defined.
