(* ===== verification/Subscriber.v ===== *)
(** * SUB and XSUB sockets

    monocoque-zmtp/src/subscriber.rs and xsub.rs: subscription messages, the
    receive loop that filters by topic, and the resubscription after a
    reconnection. *)

From S2P Require Import Prelude.
From S2P Require Import ByteOrder.
From S2P Require Import SegBuffer.
From S2P Require Import Codec.
From S2P Require Import Options.
From S2P Require Import Address.
From S2P Require Import Ready.
From S2P Require Import Subscription.
From S2P Require Import CurveMessage.
From S2P Require Import Stream.
From S2P Require Import Base.
From S2P Require Import BaseWire.
From S2P Require Import Recv.
From S2P Require Import Sockets.
From S2P Require Import Pipeline.

(** [Vec<Bytes>::sort]. *)
Definition bytes_le (a b : bytes) : Prop := bytes_cmp a b <> Gt.

#[export] Instance bytes_le_dec : RelDecision bytes_le.
Proof. intros a b. unfold bytes_le. destruct (bytes_cmp a b); [left|left|right]; congruence. Defined.

Definition sort_bytes (l : list bytes) : list bytes := merge_sort bytes_le l.

Section events.
Context {S K : Type} `{AsyncStream S} `{Aead K}.

(** [send_sub_event] of SUB and [send_subscription_event_prefix] of XSUB, which
    are the same: the event is encrypted or framed and written at once, without
    poison guard or timer. *)
Definition send_sub_event (b : SocketBase S K) (cmd : byte) (prefix : bytes) : outcome unit * SocketBase S K :=
  let payload := [cmd] ++ prefix in
  let write b wire :=
    match stream b with
    | None => (Returned (Err NotConnected), b)
    | Some s =>
        let '(c, s) := stream_write_all s wire in
        (with_timer None c, set_stream b (Some s))
    end in
  match curve_cipher b with
  | Some c =>
      match encrypt_frame c payload false with
      | (Ok body, c) => write (set_cipher b (Some c)) (append_zmtp_cmd_frame [] body)
      | (Err _, c) => (Returned (Err InvalidData), set_cipher b (Some c))
      end
  | None => write b (encode_multipart [payload] [])
  end.

(** [for prefix in prefixes { send_sub_event(0x01, prefix).await? }]. *)
Fixpoint resubscribe (b : SocketBase S K) (prefixes : list bytes) : outcome unit * SocketBase S K :=
  match prefixes with
  | [] => (Returned (Ok tt), b)
  | p :: prefixes => await! _u, b := send_sub_event b (u8 0x01) p in resubscribe b prefixes
  end.
End events.

(** ** SUB *)

Section sub.
Context {S K : Type} `{AsyncStream S} `{Aead K}.

Record SubSocket := mk_sub {
  sub_base : SocketBase S K;
  sub_frames : list bytes;
  sub_prefixes : list bytes;   (** [subscriptions], sorted *)
}.

Definition set_sub_base (s : SubSocket) (b : SocketBase S K) : SubSocket := mk_sub b (sub_frames s) (sub_prefixes s).

Definition sub_subscribe (s : SubSocket) (prefix : bytes) : outcome unit * SubSocket :=
  if negb (bool_decide (prefix ∈ sub_prefixes s)) then
    let '(o, b) := send_sub_event (sub_base s) (u8 0x01) prefix in
    await! _u, s := (o, set_sub_base s b) in
    (Returned (Ok tt), mk_sub (sub_base s) (sub_frames s) (sort_bytes (sub_prefixes s ++ [prefix])))
  else
    let '(o, b) := send_sub_event (sub_base s) (u8 0x01) prefix in (o, set_sub_base s b).

(** The prefix is removed before the event is sent. *)
Definition sub_unsubscribe (s : SubSocket) (prefix : bytes) : outcome unit * SubSocket :=
  let s := mk_sub (sub_base s) (sub_frames s) (filter (λ x, x <> prefix) (sub_prefixes s)) in
  let '(o, b) := send_sub_event (sub_base s) (u8 0x00) prefix in (o, set_sub_base s b).

Fixpoint sub_apply (op : SubSocket -> bytes -> outcome unit * SubSocket) (s : SubSocket) (prefixes : list bytes)
    : outcome unit * SubSocket :=
  match prefixes with
  | [] => (Returned (Ok tt), s)
  | p :: prefixes => await! _u, s := op s p in sub_apply op s prefixes
  end.

(** [with_options] after its handshake: the lists of the options are taken, then
    applied. *)
Definition sub_with_options (str : S) (o : SocketOptions) (c : option (CurveMessageCipher K)) : outcome unit * SubSocket :=
  let o' := o <| subscriptions := @nil bytes |> <| unsubscriptions := @nil bytes |> in
  let s := mk_sub (set_cipher (base_new str o') c) [] [] in
  await! _u, s := sub_apply sub_subscribe s (subscriptions o) in
  sub_apply sub_unsubscribe s (unsubscriptions o).

(** [connect_with_options] after the connection and its handshake; the lists of
    the options are left alone. *)
Definition sub_connected (str : S) (peer_addr : SocketAddr) (o : SocketOptions) (c : option (CurveMessageCipher K)) : SubSocket :=
  mk_sub (set_cipher (with_endpoint str (Tcp peer_addr) o) c) [] [].

(** The filter of [recv]. *)
Definition sub_matches (prefixes : list bytes) (msg : list bytes) : bool :=
  match msg with
  | [] => false
  | first_frame :: _ => bool_decide (prefixes = []) || existsb (starts_with first_frame) prefixes
  end.

(** [recv]: a message that matches no subscription is skipped ([continue
    'outer]). *)
Fixpoint sub_recv_loop (clock : nat -> Z) (fuel i : nat) (s : SubSocket) : option (outcome (option (list bytes)) * SubSocket) :=
  match fuel with
  | O => None
  | Datatypes.S fuel =>
      let after_flush i s :=
        match flush_send_buffer (sub_base s) with
        | (Returned (Ok _), b) => sub_recv_loop clock fuel i (set_sub_base s b)
        | (Returned (Err e), b) => Some (Returned (Err e), set_sub_base s b)
        | (Pending, b) => Some (Pending, set_sub_base s b)
        | (Panicked, b) => Some (Panicked, set_sub_base s b)
        end in
      match process_frame (sub_base s) with
      | None => Some (Panicked, s)
      | Some (Err e, b) => Some (Returned (Err e), set_sub_base s b)
      | Some (Ok CommandHandled, b) =>
          if bool_decide (send_buffer b = []) then sub_recv_loop clock fuel i (set_sub_base s b)
          else after_flush i (set_sub_base s b)
      | Some (Ok (FData more payload), b) =>
          let frames := sub_frames s ++ [payload] in
          if negb more then
            let s := mk_sub b [] (sub_prefixes s) in
            if sub_matches (sub_prefixes s) frames then Some (Returned (Ok (Some frames)), s)
            else sub_recv_loop clock fuel i s
          else sub_recv_loop clock fuel i (mk_sub b frames (sub_prefixes s))
      | Some (Ok FNeedMore, b) =>
          match read_raw b (clock i) with
          | (Returned (Err e), b) => Some (Returned (Err e), set_sub_base s b)
          | (Pending, b) => Some (Pending, set_sub_base s b)
          | (Panicked, b) => Some (Panicked, set_sub_base s b)
          | (Returned (Ok n), b) =>
              if n =? 0 then Some (Returned (Ok None), set_sub_base s b)
              else
                match check_heartbeat b (clock (Datatypes.S i)) with
                | None => Some (Panicked, set_sub_base s b)
                | Some (Err e, b) => Some (Returned (Err e), set_sub_base s b)
                | Some (Ok true, b) => after_flush (Datatypes.S (Datatypes.S i)) (set_sub_base s b)
                | Some (Ok false, b) => sub_recv_loop clock fuel (Datatypes.S (Datatypes.S i)) (set_sub_base s b)
                end
          end
      end
  end.

Definition sub_recv (clock : nat -> Z) (fuel : nat) (s : SubSocket) : option (outcome (option (list bytes)) * SubSocket) :=
  sub_recv_loop clock fuel 0 s.

(** [std::mem::take] empties the list until the last event is sent; an error
    leaves it empty. *)
Definition sub_try_reconnect `{C : Connector S K} (s : SubSocket) : outcome unit * SubSocket :=
  let '(o, b) := try_reconnect (sub_base s) Sub in
  await! _u, s := (o, set_sub_base s b) in
  let subs := sub_prefixes s in
  let '(o, b) := resubscribe (sub_base s) subs in
  await! _u, s := (o, mk_sub b (sub_frames s) []) in
  (Returned (Ok tt), mk_sub (sub_base s) (sub_frames s) subs).

#[export] Instance sub_has_base : HasBase SubSocket S K := { base_of := sub_base; put_base := set_sub_base }.

Definition sub_recv_with_reconnect `{C : Connector S K} (clock : nat -> Z) (fuel retries : nat) (s : SubSocket)
    : option (outcome (option (list bytes)) * SubSocket) :=
  recv_with_reconnect sub_try_reconnect (sub_recv clock fuel) retries 0 s.
End sub.
#[global] Arguments SubSocket : clear implicits.

(** ** XSUB *)

Section xsub.
Context {S K : Type} `{AsyncStream S} `{Aead K}.

Record XSubSocket := mk_xsub {
  xsub_base : SocketBase S K;
  xsub_subscriptions : SubscriptionTrie;
}.

Definition xsub_with_options (s : S) (o : SocketOptions) (c : option (CurveMessageCipher K)) : XSubSocket :=
  mk_xsub (set_cipher (base_new s o) c) trie_new.

Definition xsub_connected (s : S) (peer_addr : SocketAddr) (o : SocketOptions) (c : option (CurveMessageCipher K)) : XSubSocket :=
  mk_xsub (set_cipher (with_endpoint s (Tcp peer_addr) o) c) trie_new.

Definition set_xsub_base (x : XSubSocket) (b : SocketBase S K) : XSubSocket := mk_xsub b (xsub_subscriptions x).

Definition xsub_subscribe (x : XSubSocket) (prefix : bytes) : outcome unit * XSubSocket :=
  let '(o, b) := send_sub_event (xsub_base x) (u8 0x01) prefix in
  await! _u, x := (o, set_xsub_base x b) in
  (Returned (Ok tt), mk_xsub (xsub_base x) (trie_subscribe (xsub_subscriptions x) prefix)).

Definition xsub_unsubscribe (x : XSubSocket) (prefix : bytes) : outcome unit * XSubSocket :=
  let x := mk_xsub (xsub_base x) (trie_unsubscribe (xsub_subscriptions x) prefix) in
  if xsub_verbose_unsubs (options (xsub_base x)) then
    let '(o, b) := send_sub_event (xsub_base x) (u8 0x00) prefix in (o, set_xsub_base x b)
  else (Returned (Ok tt), x).

Definition send_subscription_event (x : XSubSocket) (e : SubscriptionEvent) : outcome unit * XSubSocket :=
  let '(cmd, prefix) := match e with Subscribe p => (u8 0x01, p) | Unsubscribe p => (u8 0x00, p) end in
  let '(o, b) := send_sub_event (xsub_base x) cmd prefix in (o, set_xsub_base x b).

(** The frames collected are local to the call. *)
Definition xsub_recv (clock : nat -> Z) (fuel : nat) (x : XSubSocket) : option (outcome (option (list bytes)) * XSubSocket) :=
  '(o, b, _) ← recv_loop clock fuel 0 (xsub_base x) [];
  Some (o, set_xsub_base x b).

Definition xsub_try_reconnect `{C : Connector S K} (x : XSubSocket) : outcome unit * XSubSocket :=
  let '(o, b) := try_reconnect (xsub_base x) Xsub in
  await! _u, x := (o, set_xsub_base x b) in
  let '(o, b) := resubscribe (xsub_base x) (prefix <$> trie_subscriptions (xsub_subscriptions x)) in
  (o, set_xsub_base x b).

#[export] Instance xsub_has_base : HasBase XSubSocket S K := { base_of := xsub_base; put_base := set_xsub_base }.

Definition xsub_recv_with_reconnect `{C : Connector S K} (clock : nat -> Z) (fuel retries : nat) (x : XSubSocket)
    : option (outcome (option (list bytes)) * XSubSocket) :=
  recv_with_reconnect xsub_try_reconnect (xsub_recv clock fuel) retries 0 x.
End xsub.
#[global] Arguments XSubSocket : clear implicits.

(** ** Filtering *)

Section filtering.
Context {S K : Type} `{ChunkStream S} `{!Aead K} (clock : nat -> Z).
Implicit Types s : SubSocket S K.

(** Where the common loop returns a message, the loop of SUB returns it too, or
    goes on after it. *)
Lemma sub_recv_loop_message fuel i b frames ps msg b' :
  recv_loop clock fuel i b frames = Some (Returned (Ok (Some msg)), b', []) ->
  exists k i', (k <= fuel)%nat /\ forall extra,
    sub_recv_loop clock (k + extra) i (mk_sub b frames ps) =
      if sub_matches ps msg then Some (Returned (Ok (Some msg)), mk_sub b' [] ps)
      else sub_recv_loop clock extra i' (mk_sub b' [] ps).
Proof.
  revert i b frames. induction fuel as [|fuel IH]; intros i b frames; [done|]. cbn [recv_loop].
  assert (Hflush : forall i b frames,
    (match flush_send_buffer b with
     | (Returned (Ok _), b) => recv_loop clock fuel i b frames
     | (Returned (Err e), b) => Some (Returned (Err e), b, frames)
     | (Pending, b) => Some (Pending, b, frames)
     | (Panicked, b) => Some (Panicked, b, frames)
     end) = Some (Returned (Ok (Some msg)), b', []) ->
    exists b1, flush_send_buffer b = (Returned (Ok tt), b1) /\ exists k i', (k <= fuel)%nat /\ forall extra,
      sub_recv_loop clock (k + extra) i (mk_sub b1 frames ps) =
        if sub_matches ps msg then Some (Returned (Ok (Some msg)), mk_sub b' [] ps)
        else sub_recv_loop clock extra i' (mk_sub b' [] ps)).
  { intros j b0 fr. destruct (flush_send_buffer b0) as [[[[]|e]| |] b1]; [|done..]. intros E. exists b1.
    split; [done|]. by apply IH in E. }
  destruct (process_frame b) as [[[[m p| |]|e] b1]|] eqn:Ep; [| | |done..].
  - destruct m.
    + intros (k & i' & Hle & Hk)%IH. exists (Datatypes.S k), i'. split; [lia|]. intros extra. cbn [Nat.add sub_recv_loop sub_base].
      rewrite Ep. cbn [negb sub_frames sub_prefixes]. apply Hk.
    + intros [= <- <-]. exists 1%nat, i. split; [lia|]. intros extra. cbn [Nat.add sub_recv_loop sub_base]. rewrite Ep. done.
  - case_bool_decide as Eb.
    + intros (k & i' & Hle & Hk)%IH. exists (Datatypes.S k), i'. split; [lia|]. intros extra. cbn [Nat.add sub_recv_loop sub_base].
      rewrite Ep, bool_decide_eq_true_2 by done. apply Hk.
    + intros (b2 & Ef & k & i' & Hle & Hk)%Hflush. exists (Datatypes.S k), i'. split; [lia|]. intros extra.
      cbn [Nat.add sub_recv_loop sub_base]. rewrite Ep, bool_decide_eq_false_2 by done.
      cbn [sub_base set_sub_base]. rewrite Ef. apply Hk.
  - destruct (read_raw b1 (clock i)) as [[[n|e]| |] b2] eqn:Er; [|done..]. destruct (n =? 0) eqn:En; [done|].
    destruct (check_heartbeat b2 _) as [[[[]|e] b3]|] eqn:Eh; [| |done..].
    + intros (b4 & Ef & k & i' & Hle & Hk)%Hflush. exists (Datatypes.S k), i'. split; [lia|]. intros extra.
      cbn [Nat.add sub_recv_loop sub_base]. rewrite Ep, Er, En, Eh. cbn [sub_base set_sub_base]. rewrite Ef. apply Hk.
    + intros (k & i' & Hle & Hk)%IH. exists (Datatypes.S k), i'. split; [lia|]. intros extra. cbn [Nat.add sub_recv_loop sub_base].
      rewrite Ep, Er, En, Eh. apply Hk.
Qed.

Lemma sub_recv_next max i b ps m ms :
  max_frame_size (decoder b) = max -> Forall (sendable max) (m :: ms) -> receiving b (wire_of (m :: ms)) ->
  exists k i' b', receiving b' (wire_of ms) /\ max_frame_size (decoder b') = max /\
    (k <= Datatypes.S (2 * chunks_left b + length m))%nat /\ (chunks_left b' <= chunks_left b)%nat /\
    send_buffer b' = send_buffer b /\ quiet b b' /\ forall extra,
    sub_recv_loop clock (k + extra) i (mk_sub b [] ps) =
      if sub_matches ps m then Some (Returned (Ok (Some m)), mk_sub b' [] ps)
      else sub_recv_loop clock extra i' (mk_sub b' [] ps).
Proof.
  intros Hmax [[Hne Hm] _]%list.Forall_cons Hrc. change (wire_of (m :: ms)) with (encode_multipart m [] ++ wire_of ms) in Hrc.
  rewrite encode_multipart_frames in Hrc. cbn [app] in Hrc. rewrite <- Hmax in Hm.
  destruct (recv_loop_message clock (Datatypes.S (2 * chunks_left b + length (message_frames m))) i b []
    (message_frames m) (wire_of ms) (message_frames_tail m Hne) (message_frames_plain _ m Hm) Hrc)
    as (b' & Hrun & Hrc' & Hcl & Hmax' & Hsb & Hqu); [lia|].
  rewrite message_frames_payload in Hrun. cbn [app] in Hrun.
  destruct (sub_recv_loop_message _ _ _ _ ps _ _ Hrun) as (k & i' & Hle & Hk). exists k, i', b'.
  assert (Hlen : length (message_frames m) = length m) by (rewrite <- (message_frames_payload m) at 2; by rewrite length_fmap).
  split_and!; [done|congruence|lia|done..].
Qed.

(** The messages that match, in order. *)
Definition wanted (ps : list bytes) (ms : list (list bytes)) : list (list bytes) := List.filter (sub_matches ps) ms.

Lemma sub_recv_first max i b ps ms m rest :
  max_frame_size (decoder b) = max -> Forall (sendable max) ms -> receiving b (wire_of ms) ->
  wanted ps ms = m :: rest ->
  exists k b' ms', Forall (sendable max) ms' /\ receiving b' (wire_of ms') /\ max_frame_size (decoder b') = max /\
    wanted ps ms' = rest /\ forall extra,
    sub_recv_loop clock (k + extra) i (mk_sub b [] ps) = Some (Returned (Ok (Some m)), mk_sub b' [] ps).
Proof.
  revert i b. induction ms as [|x ms IH]; intros i b Hmax Hall Hrc Hw; [done|].
  destruct (sub_recv_next max i b ps x ms Hmax Hall Hrc) as (k & i' & b' & Hrc' & Hmax' & _ & _ & _ & _ & Hk).
  apply list.Forall_cons in Hall as [_ Hall]. unfold wanted in Hw. cbn [List.filter] in Hw.
  destruct (sub_matches ps x) eqn:Ex.
  - injection Hw as -> Hrest. exists k, b', ms. by split_and!.
  - destruct (IH i' b' Hmax' Hall Hrc' Hw) as (k2 & b2 & ms2 & ? & ? & ? & ? & Hk2). exists (k + k2)%nat, b2, ms2.
    split_and!; [done..|]. intros extra. rewrite <- Nat.add_assoc, Hk. apply Hk2.
Qed.

(** [n] successive calls. *)
Fixpoint sub_recv_n (fuel n : nat) s : option (list (list bytes) * SubSocket S K) :=
  match n with
  | O => Some ([], s)
  | Datatypes.S n =>
      match sub_recv clock fuel s with
      | Some (Returned (Ok (Some m)), s) => '(ms, s) ← sub_recv_n fuel n s; Some (m :: ms, s)
      | _ => None
      end
  end.

Lemma sub_recv_all max b ps ms got :
  max_frame_size (decoder b) = max -> Forall (sendable max) ms -> receiving b (wire_of ms) -> wanted ps ms = got ->
  exists enough, forall fuel, (enough <= fuel)%nat ->
    exists s', sub_recv_n fuel (length got) (mk_sub b [] ps) = Some (got, s').
Proof.
  revert b ms. induction got as [|m got IH]; intros b ms Hmax Hall Hrc Hw.
  { exists 0%nat. cbn. eauto. }
  destruct (sub_recv_first max 0 b ps ms m got Hmax Hall Hrc Hw) as (k & b' & ms' & Hall' & Hrc' & Hmax' & Hw' & Hk).
  destruct (IH b' ms' Hmax' Hall' Hrc' Hw') as [enough Hn]. exists (k + enough)%nat. intros fuel Hfuel.
  destruct (Hn fuel ltac:(lia)) as [s' Hs']. exists s'. cbn [sub_recv_n length]. unfold sub_recv.
  replace fuel with (k + (fuel - k))%nat at 1 by lia. rewrite Hk, Hs'. done.
Qed.
End filtering.

(** A SUB socket returns exactly the messages that match its subscriptions.
    Of the messages a publisher sends, in whatever pieces they arrive, [recv]
    skips those whose first frame starts with none of the subscribed prefixes
    and returns the others whole and in order, given enough steps.  A socket
    without any subscription returns every message. *)
Theorem sub_recv_filters {S K : Type} `{ChunkStream S} `{!Aead K} (clock : nat -> Z) (s : SubSocket S K)
    (ms : list (list bytes)) :
  Forall (sendable (max_frame_size (decoder (sub_base s)))) ms ->
  receiving (sub_base s) (wire_of ms) -> sub_frames s = [] ->
  exists enough, forall fuel, (enough <= fuel)%nat ->
    exists s', sub_recv_n clock fuel (length (wanted (sub_prefixes s) ms)) s = Some (wanted (sub_prefixes s) ms, s') /\
      (forall m, m ∈ wanted (sub_prefixes s) ms <->
         m ∈ ms /\ (sub_prefixes s = [] \/ exists p, p ∈ sub_prefixes s /\ p `prefix_of` default [] (head m))).
Proof.
  intros Hall Hrc Hf. destruct s as [b frames ps]. cbn [sub_base sub_frames sub_prefixes] in *. subst frames.
  destruct (sub_recv_all clock _ b ps ms _ eq_refl Hall Hrc eq_refl) as [enough Hn]. exists enough. intros fuel Hfuel.
  destruct (Hn fuel Hfuel) as [s' Hs']. exists s'. split; [done|]. intros m. unfold wanted.
  rewrite list_elem_of_In, filter_In, <- list_elem_of_In. rewrite list.Forall_forall in Hall.
  split; intros [Hin Hm]; (split; [done|]); destruct (Hall m Hin) as [Hne _]; destruct m as [|f m]; try done;
    revert Hm; cbn [sub_matches head default]; rewrite orb_true_iff, bool_decide_eq_true, existsb_exists;
    (intros [?|(p & Hp & Hpre)]; [by left|right; exists p]).
  - by rewrite list_elem_of_In, <- starts_with_spec.
  - by rewrite <- list_elem_of_In, starts_with_spec.
Qed.

Definition sample_sub : SubSocket ScriptStream unit :=
  let w := wire_of [[ascii_bytes "a.1"]; [ascii_bytes "b.1"]; [ascii_bytes "a.2"; ascii_bytes "x"]] in
  mk_sub (base_new (mk_script [] [ztake 7 w; zdrop 7 w] []) default_options) [] [ascii_bytes "a."].

Lemma sub_recv_filters_witness :
  exists enough, forall fuel, (enough <= fuel)%nat ->
    exists s', sub_recv_n (λ _, 0) fuel 2 sample_sub = Some ([[ascii_bytes "a.1"]; [ascii_bytes "a.2"; ascii_bytes "x"]], s').
Proof.
  destruct (sub_recv_filters (λ _, 0) sample_sub [[ascii_bytes "a.1"]; [ascii_bytes "b.1"]; [ascii_bytes "a.2"; ascii_bytes "x"]])
    as [enough Hn].
  - repeat constructor; vm_compute; discriminate.
  - split; try reflexivity.
    + vm_compute. split; reflexivity.
    + apply segbuf_new_wf.
    + eexists. split; [reflexivity|]. split; [repeat constructor; vm_compute; discriminate|vm_compute; reflexivity].
  - reflexivity.
  - exists enough. intros fuel Hf. destruct (Hn fuel Hf) as (s' & Hs' & _). exists s'. exact Hs'.
Defined.

(** ** Subscriptions on the wire *)

Section subscribing.
Context {S K : Type} `{WireStream S} `{!Aead K}.
Implicit Types b : SocketBase S K.

(** The frame of a subscription event. *)
Definition event_wire (e : SubscriptionEvent) : bytes := encode_multipart [to_message e] [].

Lemma send_sub_event_sending b sent queued e :
  reliable (S := S) -> sending b sent queued ->
  exists b', send_sub_event b (match e with Subscribe _ => u8 0x01 | Unsubscribe _ => u8 0x00 end) (event_prefix e)
      = (Returned (Ok tt), b') /\
    sending b' (sent ++ event_wire e) queued /\ options b' = options b.
Proof.
  intros [Hrel _] ((s & Hs & Hw) & Hq & Hp & Hc & Ht). unfold send_sub_event. rewrite Hc, Hs.
  set (w := encode_multipart _ _).
  assert (Hwe : w = event_wire e) by (by destruct e).
  destruct (write_all_wire s w) as (k & _ & Hk & Hfull). specialize (Hfull (Hrel s _)).
  pose proof (Hrel s w) as Hc'. destruct (stream_write_all s w) as [c s']. cbn [fst snd] in Hc', Hk. subst c k.
  eexists. split; [done|]. split; [|done]. split_and!; try done. eexists. split; [done|]. by rewrite Hk, Hw, Hwe.
Qed.

Lemma resubscribe_sending b sent queued ps :
  reliable (S := S) -> sending b sent queued ->
  exists b', resubscribe b ps = (Returned (Ok tt), b') /\
    sending b' (sent ++ concat ((λ p, event_wire (Subscribe p)) <$> ps)) queued.
Proof.
  intros Hrel. revert b sent. induction ps as [|p ps IH]; intros b sent Hs; cbn [resubscribe].
  - exists b. cbn. by rewrite app_nil_r.
  - destruct (send_sub_event_sending b sent queued (Subscribe p) Hrel Hs) as (b1 & E & Hs1 & _).
    cbn [event_prefix] in E. rewrite E. cbn [await_bind]. destruct (IH b1 _ Hs1) as (b2 & -> & Hs2).
    exists b2. split; [done|]. cbn [fmap list_fmap concat]. by rewrite app_assoc.
Qed.
End subscribing.

(** C26: reconnection restores the subscriptions.  When the base reconnects in
    plaintext and the writes on the new connection complete, SUB and XSUB announce every
    subscription they hold, once each and in order, before anything else, and
    keep them. *)
Theorem reconnect_resubscribes {S K : Type} `{WireStream S} `{!Aead K} (C : Connector S K)
    (s : SubSocket S K) (x : XSubSocket S K) (b b' : SocketBase S K) (sent sent' : bytes) :
  reliable (S := S) ->
  try_reconnect (sub_base s) Sub = (Returned (Ok tt), b) -> sending b sent [] ->
  try_reconnect (xsub_base x) Xsub = (Returned (Ok tt), b') -> sending b' sent' [] ->
  (exists s' str, sub_try_reconnect s = (Returned (Ok tt), s') /\ sub_prefixes s' = sub_prefixes s /\
     stream (sub_base s') = Some str /\
     wire str = sent ++ concat ((λ p, event_wire (Subscribe p)) <$> sub_prefixes s)) /\
  (exists x' str, xsub_try_reconnect x = (Returned (Ok tt), x') /\ xsub_subscriptions x' = xsub_subscriptions x /\
     stream (xsub_base x') = Some str /\
     wire str = sent' ++ concat ((λ p, event_wire (Subscribe p)) <$> prefixes (xsub_subscriptions x))).
Proof.
  intros Hrel Hb Hs Hb' Hs'. split.
  - unfold sub_try_reconnect. rewrite Hb. cbn [await_bind sub_base set_sub_base sub_prefixes].
    destruct (resubscribe_sending b _ _ (sub_prefixes s) Hrel Hs) as (b2 & -> & ((str & Hstr & Hw) & _)).
    eexists _, str. by split_and!.
  - unfold xsub_try_reconnect. rewrite Hb'. cbn [await_bind xsub_base set_xsub_base xsub_subscriptions].
    assert (Hp : prefix <$> trie_subscriptions (xsub_subscriptions x) = prefixes (xsub_subscriptions x)).
    { unfold trie_subscriptions. rewrite <- list_fmap_compose. apply list_fmap_id. }
    rewrite Hp. destruct (resubscribe_sending b' _ _ (prefixes (xsub_subscriptions x)) Hrel Hs')
      as (b2 & -> & ((str & Hstr & Hw) & _)). eexists _, str. by split_and!.
Qed.

Definition sink_connector : Connector SinkStream unit :=
  {| connect_tcp _ := Completed (Ok (mk_sink [])); tune_tcp _ _ := Ok tt; client_handshake s _ _ := (Completed (Ok None), s) |}.

Definition lost_base : SocketBase SinkStream unit :=
  set_stream (with_endpoint (mk_sink []) (Tcp (V4 [10; 0; 0; 1] 5555)) default_options) None.

Lemma reconnect_resubscribes_witness :
  exists s' str, sub_try_reconnect (C := sink_connector) (mk_sub lost_base [] [ascii_bytes "a"; ascii_bytes "b"])
      = (Returned (Ok tt), s') /\ stream (sub_base s') = Some str /\
    wire str = event_wire (Subscribe (ascii_bytes "a")) ++ event_wire (Subscribe (ascii_bytes "b")).
Proof.
  destruct (reconnect_resubscribes sink_connector (mk_sub lost_base [] [ascii_bytes "a"; ascii_bytes "b"])
    (mk_xsub lost_base trie_new) (reconnected lost_base (mk_sink []) None) (reconnected lost_base (mk_sink []) None) [] [])
    as [(s' & str & H1 & _ & H2 & H3) _].
  - split; reflexivity.
  - reflexivity.
  - unfold sending. split_and!; [exists (mk_sink []); split; reflexivity|reflexivity..].
  - reflexivity.
  - unfold sending. split_and!; [exists (mk_sink []); split; reflexivity|reflexivity..].
  - exists s', str. split; [exact H1|]. split; [exact H2|]. rewrite H3. vm_compute. reflexivity.
Defined.

(** A SUB socket whose resubscription fails forgets its subscriptions.  When
    the connection is re-established but sending the subscriptions does not
    succeed (an error, or a cancelled call), the socket is left connected with
    no subscription at all: its own filter then lets every message through, and
    later reconnections announce nothing. *)
Theorem failed_resubscription_forgets {S K : Type} `{AsyncStream S} `{Aead K} (C : Connector S K)
    (s s' : SubSocket S K) (b : SocketBase S K) (o : outcome unit) :
  try_reconnect (sub_base s) Sub = (Returned (Ok tt), b) ->
  sub_try_reconnect s = (o, s') -> o <> Returned (Ok tt) ->
  sub_prefixes s' = [] /\ (forall m, m <> [] -> sub_matches (sub_prefixes s') m = true).
Proof.
  intros Hb. unfold sub_try_reconnect. rewrite Hb. cbn [await_bind sub_base set_sub_base sub_prefixes].
  destruct (resubscribe b (sub_prefixes s)) as [[[[]|e]| |] b2]; cbn [await_bind]; intros [= <- <-] Ho; try done;
    (split; [done|]); by intros [].
Qed.

Lemma failed_resubscription_forgets_witness :
  let s := mk_sub (set_stream (with_endpoint (mk_script [] [] []) (Tcp (V4 [10; 0; 0; 1] 5555)) default_options) None)
             [] [ascii_bytes "a"] in
  let C := toy_connector (mk_script [] [] [Completed (Err ConnectionReset)]) in
  exists s', sub_try_reconnect (C := C) s = (Returned (Err ConnectionReset), s') /\ sub_prefixes s' = [].
Proof.
  cbn zeta. set (s := mk_sub _ _ _). set (C := toy_connector _).
  eexists. split; [vm_compute; reflexivity|].
  apply (failed_resubscription_forgets C s _
    (reconnected (sub_base s) (mk_script [] [] [Completed (Err ConnectionReset)]) None) (Returned (Err ConnectionReset))).
  - vm_compute. reflexivity.
  - vm_compute. reflexivity.
  - discriminate.
Defined.

(** XSUB loses the parts of a message whose receive is given up.  When a
    call of [recv] is dropped while it waits, or ends with a timeout, in the
    middle of a message, the frames it had collected are gone; when the rest
    arrives the next call returns it as a whole message. *)
Theorem xsub_abandoned_recv_truncates {S K : Type} `{ChunkStream S} `{!Aead K} (clock : nat -> Z) (fuel : nat)
    (x : XSubSocket S K) (first rest : list ZmtpFrame) (s : S) :
  Forall (λ f, more f = true) first -> Forall (plain_frame (max_frame_size (decoder (xsub_base x)))) first ->
  receiving (xsub_base x) (concat (encode <$> first)) -> (2 * chunks_left (xsub_base x) + length first < fuel)%nat ->
  exists o b, xsub_recv clock fuel x = Some (o, set_xsub_base x b) /\ (o = Pending \/ o = Returned (Err TimedOut)) /\
    let b' := set_stream b (Some s) in
    (message_tail rest -> Forall (plain_frame (max_frame_size (decoder b))) rest ->
     receiving b' (concat (encode <$> rest)) -> (2 * chunks_left b' + length rest < fuel)%nat ->
     exists x', xsub_recv clock fuel (set_xsub_base x b') = Some (Returned (Ok (Some (payload <$> rest))), x')).
Proof.
  intros Hmore Hfs Hrc Hfuel. unfold xsub_recv.
  destruct (recv_loop_partial clock fuel 0 _ [] first Hmore Hfs Hrc Hfuel) as (o & b & -> & Ho & _).
  exists o, b. split; [done|]. split; [done|]. cbn zeta. intros Htail Hrest. set (b' := set_stream b (Some s)). intros Hrc' Hfuel'.
  rewrite <- (app_nil_r (concat _)) in Hrc'.
  destruct (recv_loop_message clock fuel 0 b' [] rest [] Htail Hrest Hrc' Hfuel') as (b2 & E & _).
  change (xsub_base (set_xsub_base x b')) with b'. rewrite E. cbn. by eexists.
Qed.

Definition half_message : XSubSocket ScriptStream unit :=
  mk_xsub (base_new (mk_script [] [encode (frame_data (ascii_bytes "topic") true)] []) default_options) trie_new.

Definition other_half : ScriptStream := mk_script [] [encode (frame_data (ascii_bytes "body") false)] [].

Lemma xsub_abandoned_recv_truncates_witness :
  exists b x', xsub_recv (λ _, 0) 10 half_message = Some (Pending, set_xsub_base half_message b) /\
    xsub_recv (λ _, 0) 10 (set_xsub_base half_message (set_stream b (Some other_half)))
      = Some (Returned (Ok (Some [ascii_bytes "body"])), x').
Proof.
  assert (Hplain : forall t m, len t <= 10 -> plain_frame default_max_frame_size (frame_data t m)).
  { intros t m Hl. destruct (frame_data_flags t m) as (H1 & H2 & _ & H3). split_and!; [exact H1|exact H3|exact H2|..];
      cbn [payload frame_data]; unfold default_max_frame_size; lia. }
  assert (Hrc : forall c, c <> [] ->
    receiving (base_new (mk_script [] [c] []) default_options : SocketBase ScriptStream unit) c).
  { intros c Hc. split; try reflexivity; [vm_compute; split; reflexivity|apply segbuf_new_wf|].
    eexists. split; [reflexivity|]. split; [by repeat constructor|]. cbn. by rewrite app_nil_r. }
  destruct (xsub_abandoned_recv_truncates (λ _, 0) 10 half_message [frame_data (ascii_bytes "topic") true]
    [frame_data (ascii_bytes "body") false] other_half) as (o & b & Hrun & _ & Hnext).
  - repeat constructor.
  - constructor; [|constructor]. apply Hplain. vm_compute. discriminate.
  - cbn [fmap list_fmap concat]. rewrite app_nil_r. apply Hrc. discriminate.
  - vm_compute. lia.
  - pose proof Hrun as Hrun'. vm_compute in Hrun'. injection Hrun' as <- <-.
    destruct Hnext as (x' & Hx').
    + apply tail_last. reflexivity.
    + constructor; [|constructor]. apply Hplain. vm_compute. discriminate.
    + split; try reflexivity; [vm_compute; split; reflexivity|split; vm_compute; repeat constructor|].
      eexists. split; [reflexivity|]. split; [repeat constructor; discriminate|]. vm_compute. reflexivity.
    + vm_compute. lia.
    + eexists _, x'. split; [|exact Hx']. exact Hrun.
Defined.
