(* ===== verification/Publisher.v ===== *)
(** * The PUB socket

    monocoque-zmtp/src/publisher.rs: subscribers are spread over worker threads;
    a union of all subscriptions, shared through a generation counter, lets
    [send] drop a message nobody wants; the workers coalesce queued broadcasts
    and write to each subscriber what its subscriptions select.

    Threads are interleavings: the readers' updates of the union, their bumps of
    the generation and the publisher's checks are the atomic steps. *)

From S2P Require Import Prelude.
From S2P Require Import SegBuffer.
From S2P Require Import Codec.
From S2P Require Import Options.
From S2P Require Import Subscription.
From S2P Require Import SubIndex.
From S2P Require Import CurveMessage.
From S2P Require Import Stream.
From S2P Require Import Base.
From S2P Require Import BaseWire.
From S2P Require Import Recv.
From S2P Require Import Pipeline.
From S2P Require Import Subscriber.

Definition MAX_COALESCE_MSGS : Z := 4096.
Definition COALESCE_BYTE_LIMIT : Z := 4 * 1024 * 1024.

(** ** The union of subscriptions *)

Record SubscriptionUnion := mk_union {
  match_all : Z;
  union_prefixes : list (bytes * Z);
}.

Definition union_default : SubscriptionUnion := mk_union 0 [].

Definition union_add_subscriber (u : SubscriptionUnion) : SubscriptionUnion :=
  mk_union (match_all u + 1) (union_prefixes u).

Definition is_prefix (prefix : bytes) (e : bytes * Z) : bool := bool_decide (e.1 = prefix).

(** [iter_mut().find(..)]: the first entry with the prefix is incremented. *)
Fixpoint bump_entry (prefix : bytes) (l : list (bytes * Z)) : option (list (bytes * Z)) :=
  match l with
  | [] => None
  | e :: l => if is_prefix prefix e then Some ((e.1, e.2 + 1) :: l) else l' ← bump_entry prefix l; Some (e :: l')
  end.

Definition union_subscribe (u : SubscriptionUnion) (prefix : bytes) (sub_was_empty : bool) : SubscriptionUnion :=
  let ma := if sub_was_empty then Z.max 0 (match_all u - 1) else match_all u in
  match bump_entry prefix (union_prefixes u) with
  | Some l => mk_union ma l
  | None => mk_union ma (union_prefixes u ++ [(prefix, 1)])
  end.

(** [None]: an index out of bounds, or a count decremented below zero. *)
Definition union_unsubscribe (u : SubscriptionUnion) (prefix : bytes) (sub_now_empty : bool) : option SubscriptionUnion :=
  l ← match position (is_prefix prefix) (union_prefixes u) with
      | Some pos =>
          '(p, n) ← union_prefixes u !! pos;
          n ← usize_sub n 1;
          if n =? 0 then swap_remove pos (<[pos := (p, n)]> (union_prefixes u))
          else Some (<[pos := (p, n)]> (union_prefixes u))
      | None => Some (union_prefixes u)
      end;
  Some (mk_union (if sub_now_empty then match_all u + 1 else match_all u) l).

Definition union_matches (u : SubscriptionUnion) (topic : bytes) : bool :=
  (0 <? match_all u) || existsb (λ e, starts_with topic e.1) (union_prefixes u).

(** The union with its generation, a [u64]; [shared_update] changes the union and
    publishes a new generation. *)
Record SharedSubscriptions := mk_shared {
  shared_union : SubscriptionUnion;
  shared_gen : Z;
}.

Definition shared_new : SharedSubscriptions := mk_shared union_default 0.

Definition next_generation (g : Z) : Z := (g + 1) mod 2 ^ 64.

Definition shared_update (f : SubscriptionUnion -> option SubscriptionUnion) (sh : SharedSubscriptions)
    : option SharedSubscriptions :=
  u ← f (shared_union sh); Some (mk_shared u (next_generation (shared_gen sh))).

(** ** One subscriber *)

(** [WorkerSubscriber::matches] on the subscriptions [subs]. *)
Definition worker_matches (subs : list bytes) (msg : list bytes) : bool :=
  if bool_decide (subs = []) then true
  else match msg with
  | first_frame :: _ =>
      existsb (λ sub, bool_decide (sub = []) || ((len sub <=? len first_frame) && bool_decide (ztake (len sub) first_frame = sub))) subs
  | [] => false
  end.

(** What [subscription_reader] does with an event: the subscriptions and their
    union change together. *)
Definition reader_event (subs : list bytes) (sh : SharedSubscriptions) (e : SubscriptionEvent)
    : option (list bytes * SharedSubscriptions) :=
  match e with
  | Subscribe p =>
      if bool_decide (p ∈ subs) then Some (subs, sh)
      else sh ← shared_update (λ u, Some (union_subscribe u p (bool_decide (subs = [])))) sh; Some (subs ++ [p], sh)
  | Unsubscribe p =>
      let subs' := filter (λ s, s <> p) subs in
      if len subs' <? len subs then
        sh ← shared_update (λ u, union_unsubscribe u p (bool_decide (subs' = []))) sh; Some (subs', sh)
      else Some (subs', sh)
  end.

Section reader.
Context {K : Type} `{Aead K}.

Record Reader := mk_reader {
  rd_buf : SegmentedBuffer;
  rd_decoder : ZmtpDecoder;
  rd_cipher : option (CurveMessageCipher K);
  rd_subs : list bytes;
}.

Definition reader_new (max_frame_size : option Z) (c : option (CurveMessageCipher K)) : Reader :=
  mk_reader segbuf_new
    (match max_frame_size with Some m => decoder_with_max_frame_size m | None => decoder_new end) c [].

(** The payload of a frame: [None] skips the frame ([continue]); plaintext on a
    CURVE connection ends the drain ([break]), as the flag says. *)
Definition reader_payload (r : Reader) (frame : ZmtpFrame) : option bytes * bool * Reader :=
  if is_command frame then
    match rd_cipher r with
    | Some c =>
        if is_curve_message (payload frame) then
          match decrypt_frame c (payload frame) with
          | (Ok (_, data), c) => (Some data, false, mk_reader (rd_buf r) (rd_decoder r) (Some c) (rd_subs r))
          | (Err _, c) => (None, false, mk_reader (rd_buf r) (rd_decoder r) (Some c) (rd_subs r))
          end
        else (None, false, r)
    | None => (None, false, r)
    end
  else if bool_decide (is_Some (rd_cipher r)) then (None, true, r)
  else (Some (payload frame), false, r).

(** The decode loop after a read; [None] is a panic or exhausted fuel. *)
Fixpoint reader_drain (fuel : nat) (r : Reader) (sh : SharedSubscriptions) : option (Reader * SharedSubscriptions) :=
  match fuel with
  | O => None
  | S fuel =>
      '(res, d, buf) ← decode (rd_decoder r) (rd_buf r);
      let r := mk_reader buf d (rd_cipher r) (rd_subs r) in
      match res with
      | Ok (Some frame) =>
          match reader_payload r frame with
          | (Some data, _, r) =>
              match from_message data with
              | Some e =>
                  '(subs, sh) ← reader_event (rd_subs r) sh e;
                  reader_drain fuel (mk_reader (rd_buf r) (rd_decoder r) (rd_cipher r) subs) sh
              | None => reader_drain fuel r sh
              end
          | (None, true, r) => Some (r, sh)
          | (None, false, r) => reader_drain fuel r sh
          end
      | Ok None => Some (r, sh)
      | Err _ => Some (r, sh)
      end
  end.

(** One read of [n > 0] bytes.  Every iteration consumes a frame. *)
Definition reader_chunk (r : Reader) (sh : SharedSubscriptions) (chunk : bytes) : option (Reader * SharedSubscriptions) :=
  let r := mk_reader (push (rd_buf r) chunk) (rd_decoder r) (rd_cipher r) (rd_subs r) in
  reader_drain (length (flat (rd_buf r)) + length (staging (rd_decoder r)) + 10)%nat r sh.

Fixpoint reader_run (r : Reader) (sh : SharedSubscriptions) (chunks : list bytes) : option (Reader * SharedSubscriptions) :=
  match chunks with
  | [] => Some (r, sh)
  | c :: chunks => '(r, sh) ← reader_chunk r sh c; reader_run r sh chunks
  end.
End reader.
#[global] Arguments Reader : clear implicits.

(** ** The workers *)

Definition approx_wire_len (msg : list bytes) : Z := foldr (λ f acc, len f + 9 + acc) 0 msg.

Definition encode_plain_wire (msg : list bytes) : bytes := encode_multipart msg [].

Section worker.
Context {S K : Type} `{AsyncStream S} `{Aead K}.

Record WorkerSubscriber := mk_worker_sub {
  ws_id : Z;
  ws_stream : S;
  ws_subs : list bytes;
  ws_cipher : option (CurveMessageCipher K);
}.

(** [encode_curve_wire]. *)
Definition encode_curve_wire (msg : list bytes) (c : CurveMessageCipher K) : option bytes * CurveMessageCipher K :=
  match curve_encode c msg 0 (Z.max 0 (len msg - 1)) [] with
  | (Ok _, c, buf) => (Some buf, c)
  | (Err _, c, _) => (None, c)
  end.

(** The slice of the batch for one subscriber; [None] when encryption fails. *)
Fixpoint batch_slice (sub : WorkerSubscriber) (batch : list (list bytes)) (buf : bytes) : option bytes * WorkerSubscriber :=
  match batch with
  | [] => (Some buf, sub)
  | msg :: batch =>
      if negb (worker_matches (ws_subs sub) msg) then batch_slice sub batch buf
      else match ws_cipher sub with
      | Some c =>
          match encode_curve_wire msg c with
          | (Some wire, c) => batch_slice (mk_worker_sub (ws_id sub) (ws_stream sub) (ws_subs sub) (Some c)) batch (buf ++ wire)
          | (None, c) => (None, mk_worker_sub (ws_id sub) (ws_stream sub) (ws_subs sub) (Some c))
          end
      | None => batch_slice sub batch (buf ++ encode_plain_wire msg)
      end
  end.

(** The whole batch, encoded once for the subscribers that take everything. *)
Fixpoint full_batch (batch : list (list bytes)) (buf : bytes) : bytes :=
  match batch with [] => buf | msg :: batch => full_batch batch (encode_multipart msg buf) end.

Definition subscriber_output (sub : WorkerSubscriber) (batch : list (list bytes)) : option bytes * WorkerSubscriber :=
  if bool_decide (ws_cipher sub = None) && bool_decide (ws_subs sub = []) then (Some (full_batch batch []), sub)
  else batch_slice sub batch [].

(** One subscriber's turn: [None] when it is found dead.  A write that stalls is
    ended by the timeout of five seconds. *)
Definition serve_subscriber (sub : WorkerSubscriber) (batch : list (list bytes)) : option WorkerSubscriber :=
  match subscriber_output sub batch with
  | (None, _) => None
  | (Some [], sub) => Some sub
  | (Some out, sub) =>
      let '(c, s) := stream_write_all (ws_stream sub) out in
      match c with
      | Completed (Ok _) => Some (mk_worker_sub (ws_id sub) s (ws_subs sub) (ws_cipher sub))
      | _ => None
      end
  end.

(** The loop over the subscribers; the dead ones are removed. *)
Definition serve_batch (subs : list WorkerSubscriber) (batch : list (list bytes)) : list WorkerSubscriber :=
  omap (λ sub, serve_subscriber sub batch) subs.

Inductive WorkerCommand :=
| AddSubscriber (sub : WorkerSubscriber)
| Broadcast (message : list bytes)
| Shutdown.

(** The drain of [try_recv] behind a first broadcast: the batch, the command
    that interrupted it, the rest of the queue. *)
Fixpoint coalesce (queue : list WorkerCommand) (batch : list (list bytes)) (batch_bytes : Z)
    : list (list bytes) * option WorkerCommand * list WorkerCommand :=
  if (len batch <? MAX_COALESCE_MSGS) && (batch_bytes <? COALESCE_BYTE_LIMIT) then
    match queue with
    | Broadcast m :: queue => coalesce queue (batch ++ [m]) (batch_bytes + approx_wire_len m)
    | other :: queue => (batch, Some other, queue)
    | [] => (batch, None, [])
    end
  else (batch, None, queue).

Record Worker := mk_worker {
  wk_subs : list WorkerSubscriber;
  wk_count : Z;                    (** [sub_count], shared with the publisher *)
  wk_queue : list WorkerCommand;
  wk_running : bool;
}.

(** [sub_count.fetch_sub] of the dead. *)
Definition after_batch (w : Worker) (batch : list (list bytes)) (queue : list WorkerCommand) : Worker :=
  let subs := serve_batch (wk_subs w) batch in
  mk_worker subs (wk_count w - (len (wk_subs w) - len subs)) queue (wk_running w).

Definition add_subscriber (w : Worker) (sub : WorkerSubscriber) : Worker :=
  mk_worker (wk_subs w ++ [sub]) (wk_count w) (wk_queue w) (wk_running w).

Definition stop_worker (w : Worker) : Worker := mk_worker (wk_subs w) (wk_count w) (wk_queue w) false.

(** One iteration of [worker_thread] on a queue that is not empty. *)
Definition worker_step (w : Worker) : Worker :=
  if negb (wk_running w) then w
  else match wk_queue w with
  | [] => w
  | AddSubscriber sub :: queue => add_subscriber (mk_worker (wk_subs w) (wk_count w) queue true) sub
  | Shutdown :: queue => stop_worker (mk_worker (wk_subs w) (wk_count w) queue true)
  | Broadcast m :: queue =>
      let '(batch, deferred, queue) := coalesce queue [m] (approx_wire_len m) in
      let w := after_batch w batch queue in
      match deferred with
      | Some (AddSubscriber sub) => add_subscriber w sub
      | Some Shutdown => stop_worker w
      | Some (Broadcast _) | None => w
      end
  end.
End worker.
#[global] Arguments WorkerSubscriber : clear implicits.
#[global] Arguments Worker : clear implicits.
#[global] Arguments WorkerCommand : clear implicits.

(** ** The publisher *)

(** The cached union and its generation, re-read when the generation loaded
    differs. *)
Definition refresh (local : SubscriptionUnion) (local_gen : Z) (current : SubscriptionUnion) (g : Z)
    : SubscriptionUnion * Z :=
  if g =? local_gen then (local, local_gen) else (current, g).

Section publisher.
Context {S K : Type} `{AsyncStream S} `{Aead K}.

Record PubSocket := mk_pub {
  pub_workers : list (Worker S K);
  pub_shared : SharedSubscriptions;  (** shared with the readers *)
  pub_local_union : SubscriptionUnion;
  pub_local_gen : Z;
  pub_next_id : Z;
  pub_next_worker : Z;
  pub_options : SocketOptions;
  pub_subscriber_count : Z;
  pub_is_poisoned : bool;
  pub_drop_count : Z;
}.

Definition pub_with_workers_opts (worker_count : nat) (o : SocketOptions) : PubSocket :=
  mk_pub (repeat (mk_worker [] 0 [] true) worker_count) shared_new union_default 0 1 0 o 0 false 0.

Definition set_local (p : PubSocket) (u : SubscriptionUnion) (g : Z) : PubSocket :=
  mk_pub (pub_workers p) (pub_shared p) u g (pub_next_id p) (pub_next_worker p) (pub_options p)
    (pub_subscriber_count p) (pub_is_poisoned p) (pub_drop_count p).

Definition prefilter_allows (p : PubSocket) (topic : bytes) : bool * PubSocket :=
  if invert_matching (pub_options p) then (true, p)
  else
    let g := shared_gen (pub_shared p) in
    let '(lu, lg) := refresh (pub_local_union p) (pub_local_gen p) (shared_union (pub_shared p)) g in
    (union_matches lu topic, set_local p lu lg).

(** [try_send] on a channel bounded by [send_hwm]; a send into a channel without
    capacity succeeds only when the receiver [waits].  A worker that has
    stopped has dropped its receiver. *)
Definition channel_full (hwm : Z) (waits : bool) (w : Worker S K) : bool :=
  negb waits && (hwm <=? len (wk_queue w)).

Definition enqueue (w : Worker S K) (c : WorkerCommand S K) : Worker S K :=
  mk_worker (wk_subs w) (wk_count w) (wk_queue w ++ [c]) (wk_running w).

(** [waits i] says whether worker [i] is waiting in [recv]. *)
Fixpoint dispatch (hwm : Z) (waits : nat -> bool) (i : nat) (workers : list (Worker S K)) (msg : list bytes) (dropped : Z)
    : io_result unit * list (Worker S K) * Z :=
  match workers with
  | [] => (Ok tt, [], dropped)
  | w :: workers =>
      if wk_count w =? 0 then
        let '(r, ws, d) := dispatch hwm waits (Datatypes.S i) workers msg dropped in (r, w :: ws, d)
      else if negb (wk_running w) then (Err OtherError, w :: workers, dropped)
      else if channel_full hwm (waits i) w then
        let '(r, ws, d) := dispatch hwm waits (Datatypes.S i) workers msg (dropped + 1) in (r, w :: ws, d)
      else
        let '(r, ws, d) := dispatch hwm waits (Datatypes.S i) workers msg dropped in (r, enqueue w (Broadcast msg) :: ws, d)
  end.

Definition pub_send (waits : nat -> bool) (p : PubSocket) (msg : list bytes) : io_result unit * PubSocket :=
  if pub_is_poisoned p then (Err BrokenPipe, p)
  else match msg with
  | [] => (Err InvalidInput, p)
  | topic :: _ =>
      let '(allowed, p) := prefilter_allows p topic in
      if negb allowed then (Ok tt, p)
      else
        let '(r, ws, d) := dispatch (send_hwm (pub_options p)) waits 0 (pub_workers p) msg (pub_drop_count p) in
        (r, mk_pub ws (pub_shared p) (pub_local_union p) (pub_local_gen p) (pub_next_id p)
              (pub_next_worker p) (pub_options p) (pub_subscriber_count p) (pub_is_poisoned p) d)
  end.

(** [send_frames]: the message is built from the borrowed frames once it is
    known to be wanted. *)
Definition pub_send_frames (waits : nat -> bool) (p : PubSocket) (frames : list bytes) : io_result unit * PubSocket :=
  if pub_is_poisoned p then (Err BrokenPipe, p)
  else match head frames with
  | None => (Err InvalidInput, p)
  | Some topic =>
      let '(allowed, p) := prefilter_allows p topic in
      if negb allowed then (Ok tt, p)
      else
        let '(r, ws, d) := dispatch (send_hwm (pub_options p)) waits 0 (pub_workers p) frames (pub_drop_count p) in
        (r, mk_pub ws (pub_shared p) (pub_local_union p) (pub_local_gen p) (pub_next_id p)
              (pub_next_worker p) (pub_options p) (pub_subscriber_count p) (pub_is_poisoned p) d)
  end.

(** [accept_subscriber] after its handshake.  [None] is the panic of a socket
    without workers. *)
Definition pub_accept (p : PubSocket) (s : S) (c : option (CurveMessageCipher K)) : option (io_result Z * PubSocket) :=
  let id := pub_next_id p in
  let idx := Z.to_nat (pub_next_worker p) in
  w ← pub_workers p !! idx;
  let w := mk_worker (wk_subs w) (wk_count w + 1) (wk_queue w) (wk_running w) in
  let next := (pub_next_worker p + 1) mod len (pub_workers p) in
  sh ← shared_update (λ u, Some (union_add_subscriber u)) (pub_shared p);
  let done count ws := mk_pub ws sh (pub_local_union p) (pub_local_gen p) (id + 1) next (pub_options p) count
                         (pub_is_poisoned p) (pub_drop_count p) in
  if negb (wk_running w) then Some (Err OtherError, done (pub_subscriber_count p) (<[idx := w]> (pub_workers p)))
  else
    let w := enqueue w (AddSubscriber (mk_worker_sub id s [] c)) in
    Some (Ok id, done (pub_subscriber_count p + 1) (<[idx := w]> (pub_workers p))).

Definition pub_remove_subscriber (p : PubSocket) (id : Z) : PubSocket :=
  mk_pub (pub_workers p) (pub_shared p) (pub_local_union p) (pub_local_gen p) (pub_next_id p)
    (pub_next_worker p) (pub_options p) (Z.max 0 (pub_subscriber_count p - 1)) (pub_is_poisoned p) (pub_drop_count p).

(** The [Shutdown] command to every worker; a worker that has ended takes none. *)
Definition shutdown_workers (p : PubSocket) : PubSocket :=
  mk_pub ((λ w, if wk_running w then enqueue w Shutdown else w) <$> pub_workers p) (pub_shared p)
    (pub_local_union p) (pub_local_gen p) (pub_next_id p) (pub_next_worker p) (pub_options p) (pub_subscriber_count p)
    (pub_is_poisoned p) (pub_drop_count p).

(** [close] sends [Shutdown] to every worker. *)
Definition pub_close (p : PubSocket) : PubSocket := shutdown_workers p.

(** [Drop]: the same commands; nothing waits for the workers. *)
Definition pub_drop (p : PubSocket) : PubSocket := shutdown_workers p.
End publisher.
#[global] Arguments PubSocket : clear implicits.

(** ** The union is exact *)

Lemma insert_perm {A} (i : nat) (x : A) (l : list A) :
  l !! i = Some x -> exists others, l ≡ₚ x :: others /\ forall y, <[i := y]> l ≡ₚ y :: others.
Proof.
  intros Hi. exists (take i l ++ drop (S i) l). pose proof (lookup_lt_Some _ _ _ Hi).
  split; [rewrite <- (take_drop_middle l i x Hi) at 1; by rewrite Permutation_middle|].
  intros y. rewrite insert_take_drop by done. by rewrite Permutation_middle.
Qed.

(** The subscribers that hold a prefix, and those that hold none. *)
Definition holders (p : bytes) (subs : list (list bytes)) : nat := length (filter (λ s, p ∈ s) subs).
Definition open_subs (subs : list (list bytes)) : nat := length (filter (λ s, s = []) subs).

Definition entries (u : SubscriptionUnion) : gmap bytes Z := list_to_map (union_prefixes u).

(** The union counts the subscribers of every prefix. *)
Record union_inv (subs : list (list bytes)) (u : SubscriptionUnion) : Prop := {
  ui_subs : Forall NoDup subs;
  ui_keys : NoDup (union_prefixes u).*1;
  ui_open : match_all u = Z.of_nat (open_subs subs);
  ui_count p : entries u !! p = if bool_decide (holders p subs = 0%nat) then None else Some (Z.of_nat (holders p subs));
}.

#[local] Instance holders_perm p : Proper ((≡ₚ) ==> (=)) (holders p).
Proof. intros l l' E. unfold holders. by rewrite E. Qed.

#[local] Instance open_subs_perm : Proper ((≡ₚ) ==> (=)) open_subs.
Proof. intros l l' E. unfold open_subs. by rewrite E. Qed.

Lemma union_inv_perm subs subs' u : subs ≡ₚ subs' -> union_inv subs u -> union_inv subs' u.
Proof.
  intros E [H1 H2 H3 H4]. split; [by rewrite <- E|done|by rewrite <- E|]. intros p. by rewrite H4, (holders_perm p _ _ E).
Qed.

Lemma holders_cons p s subs : holders p (s :: subs) = ((if bool_decide (p ∈ s) then 1 else 0) + holders p subs)%nat.
Proof.
  unfold holders. rewrite filter_cons.
  case_decide; [rewrite bool_decide_eq_true_2 by done|rewrite bool_decide_eq_false_2 by done]; done.
Qed.

Lemma open_subs_cons s subs : open_subs (s :: subs) = ((if bool_decide (s = []) then 1 else 0) + open_subs subs)%nat.
Proof.
  unfold open_subs. rewrite filter_cons.
  case_decide; [rewrite bool_decide_eq_true_2 by done|rewrite bool_decide_eq_false_2 by done]; done.
Qed.

Lemma bump_entry_spec p l :
  NoDup l.*1 ->
  match bump_entry p l with
  | Some l' => exists n rest, l ≡ₚ (p, n) :: rest /\ l' ≡ₚ (p, n + 1) :: rest
  | None => p ∉ l.*1
  end.
Proof.
  induction l as [|[q n] l IH]; intros Hnd; cbn [bump_entry]; [by apply not_elem_of_nil|].
  cbn [fmap list_fmap fst] in Hnd. apply list.NoDup_cons in Hnd as [Hq Hnd]. unfold is_prefix. cbn [fst snd].
  case_bool_decide as E; [subst q; by exists n, l|]. specialize (IH Hnd).
  destruct (bump_entry p l) as [l'|]; cbn [mbind option_bind].
  - destruct IH as (m & rest & H1 & H2). exists m, ((q, n) :: rest). rewrite H1, H2. split; apply Permutation_swap.
  - cbn. by rewrite not_elem_of_cons.
Qed.

(** Replacing the entry of a prefix. *)
Lemma entries_cons l p n rest :
  NoDup l.*1 -> l ≡ₚ (p, n) :: rest ->
  NoDup ((p, n) :: rest).*1 /\ (list_to_map l : gmap bytes Z) = <[p := n]> (list_to_map rest) /\
  (list_to_map rest : gmap bytes Z) = delete p (list_to_map l).
Proof.
  intros Hnd E. assert (Hnd' : NoDup ((p, n) :: rest).*1)
    by exact (proj1 (NoDup_Permutation_proper _ _ (fmap_Permutation fst _ _ E)) Hnd).
  assert (El : (list_to_map l : gmap bytes Z) = <[p := n]> (list_to_map rest)) 
    by exact (list_to_map_proper l ((p, n) :: rest) Hnd E).
  split_and!; [done|done|]. rewrite El, delete_insert_id; [done|].
  apply not_elem_of_list_to_map. by apply list.NoDup_cons in Hnd' as [? _].
Qed.

Lemma union_subscribe_inv subs u s p :
  union_inv (s :: subs) u -> p ∉ s ->
  union_inv ((s ++ [p]) :: subs) (union_subscribe u p (bool_decide (s = []))).
Proof.
  intros [Hnd Hk Ho Hc] Hp. apply list.Forall_cons in Hnd as [Hs Hnd].
  assert (Hh : forall q, holders q ((s ++ [p]) :: subs) =
    ((if bool_decide (q = p) then 1 else 0) + holders q (s :: subs))%nat).
  { intros q. rewrite !holders_cons.
    rewrite (bool_decide_ext (q ∈ s ++ [p]) (q ∈ s \/ q = p)) by (by rewrite elem_of_app, list_elem_of_singleton).
    repeat case_bool_decide; subst; try lia; naive_solver. }
  assert (Hopen : (if bool_decide (s = []) then Z.max 0 (match_all u - 1) else match_all u)
                  = Z.of_nat (open_subs ((s ++ [p]) :: subs))).
  { rewrite Ho, !open_subs_cons. rewrite (bool_decide_eq_false_2 (s ++ [p] = [])) by (by destruct s).
    case_bool_decide; lia. }
  unfold union_subscribe. rewrite Hopen. pose proof (bump_entry_spec p _ Hk) as Hb.
  assert (Hnd2 : Forall NoDup ((s ++ [p]) :: subs)).
  { constructor; [|done]. apply list.NoDup_app. split_and!; [done|set_solver|apply NoDup_singleton]. }
  destruct (bump_entry p (union_prefixes u)) as [l'|].
  - destruct Hb as (n & rest & E & E'). destruct (entries_cons _ _ _ _ Hk E) as (Hk1 & Em & Er).
    assert (Hk2 : NoDup l'.*1) by exact (proj2 (NoDup_Permutation_proper _ _ (fmap_Permutation fst _ _ E')) Hk1).
    destruct (entries_cons _ _ _ _ Hk2 E') as (_ & Em' & _).
    split; [done|done|done|]. intros q. unfold entries. cbn [union_prefixes]. rewrite Em', Er, insert_delete_eq.
    specialize (Hc q). unfold entries in Hc. rewrite Hh. destruct (decide (q = p)) as [->|Hq].
    + rewrite lookup_insert_eq, (bool_decide_eq_true_2 (p = p)) by done. rewrite (bool_decide_eq_false_2 (_ = 0%nat)) by lia.
      rewrite Em, lookup_insert_eq in Hc. destruct (decide (holders p (s :: subs) = 0%nat)) as [Hz|Hz];
        [by rewrite bool_decide_eq_true_2 in Hc by done|]. rewrite bool_decide_eq_false_2 in Hc by done.
      injection Hc as ->. f_equal. lia.
    + rewrite lookup_insert_ne by done. rewrite (bool_decide_eq_false_2 (q = p)) by done. exact Hc.
  - assert (Hnone : entries u !! p = None) by (by apply not_elem_of_list_to_map).
    pose proof (Hc p) as Hcp. rewrite Hnone in Hcp. case_bool_decide as Hzero; [|done].
    split; [done| |done|].
    + cbn [union_prefixes]. rewrite fmap_app. apply list.NoDup_app. split_and!; [done| |apply NoDup_singleton]. set_solver.
    + intros q. unfold entries. cbn [union_prefixes]. rewrite list_to_map_snoc by done. rewrite Hh.
      specialize (Hc q). unfold entries in Hc. destruct (decide (q = p)) as [->|Hq].
      * rewrite lookup_insert_eq, (bool_decide_eq_true_2 (p = p)) by done. by rewrite Hzero.
      * rewrite lookup_insert_ne by done. rewrite (bool_decide_eq_false_2 (q = p)) by done. exact Hc.
Qed.

Lemma union_unsubscribe_inv subs u s p :
  union_inv (s :: subs) u -> p ∈ s ->
  exists u', union_unsubscribe u p (bool_decide (filter (λ x, x <> p) s = [])) = Some u' /\
    union_inv (filter (λ x, x <> p) s :: subs) u'.
Proof.
  intros [Hnd Hk Ho Hc] Hp. apply list.Forall_cons in Hnd as [Hs Hnd]. set (s' := filter _ s).
  assert (Hin : forall q, q ∈ s' <-> q <> p /\ q ∈ s) by (intros q; unfold s'; by rewrite list_elem_of_filter).
  assert (Hh : forall q, holders q (s :: subs) = ((if bool_decide (q = p) then 1 else 0) + holders q (s' :: subs))%nat).
  { intros q. rewrite !holders_cons. repeat case_bool_decide; subst; try lia; naive_solver. }
  assert (Hopen : (if bool_decide (s' = []) then match_all u + 1 else match_all u)
                  = Z.of_nat (open_subs (s' :: subs))).
  { rewrite Ho, !open_subs_cons. rewrite (bool_decide_eq_false_2 (s = [])) by (intros ->; by apply elem_of_nil in Hp).
    case_bool_decide; lia. }
  assert (Hnd2 : Forall NoDup (s' :: subs)) by (constructor; [by apply list.NoDup_filter|done]).
  set (n := Z.of_nat (holders p (s :: subs))).
  assert (Hn : n = Z.of_nat (holders p (s' :: subs)) + 1).
  { unfold n. rewrite Hh, bool_decide_eq_true_2 by done. lia. }
  assert (Hpn : entries u !! p = Some n) by (rewrite Hc, bool_decide_eq_false_2 by lia; done).
  unfold union_unsubscribe. rewrite Hopen.
  destruct (position (is_prefix p) (union_prefixes u)) as [pos|] eqn:Epos.
  2: { exfalso. apply elem_of_list_to_map_2 in Hpn. pose proof (position_None _ _ Epos _ Hpn) as Hf.
       unfold is_prefix in Hf. cbn in Hf. by rewrite bool_decide_eq_true_2 in Hf. }
  apply position_Some in Epos as ([q n'] & Hpos & Hq). unfold is_prefix in Hq. cbn in Hq. apply bool_decide_eq_true in Hq as ->.
  destruct (insert_perm _ _ _ Hpos) as (rest & E & Hins). destruct (entries_cons _ _ _ _ Hk E) as (Hk1 & Em & Er).
  assert (n' = n) as -> by (unfold entries in Hpn; rewrite Em, lookup_insert_eq in Hpn; congruence).
  rewrite Hpos. cbn [mbind option_bind]. unfold usize_sub. rewrite (proj2 (Z.leb_le 1 n)) by lia. cbn [mbind option_bind].
  assert (Hfinal : forall l k, NoDup l.*1 -> (list_to_map l : gmap bytes Z) = match k with Some m => <[p := m]> (entries u) | None => delete p (entries u) end ->
    k = (if n - 1 =? 0 then None else Some (n - 1)) -> union_inv (s' :: subs) (mk_union (Z.of_nat (open_subs (s' :: subs))) l)).
  { intros l k Hkl Hl ->. split; [done|done|done|]. intros q. unfold entries at 1. cbn [union_prefixes]. rewrite Hl.
    destruct (decide (q = p)) as [->|Hne].
    - destruct (Z.eqb_spec (n - 1) 0).
      + rewrite lookup_delete_eq, bool_decide_eq_true_2 by lia. done.
      + rewrite lookup_insert_eq, bool_decide_eq_false_2 by lia. f_equal. lia.
    - pose proof (Hc q) as Hcq. rewrite Hh, (bool_decide_eq_false_2 (q = p)) in Hcq by done.
      destruct (n - 1 =? 0); [rewrite lookup_delete_ne by done|rewrite lookup_insert_ne by done]; exact Hcq. }
  assert (Hk' : forall m, NoDup (<[pos := (p, m)]> (union_prefixes u)).*1).
  { intros m. exact (proj2 (NoDup_Permutation_proper _ _ (fmap_Permutation fst _ _ (Hins (p, m)))) Hk1). }
  assert (Hm : forall m, (list_to_map (<[pos := (p, m)]> (union_prefixes u)) : gmap bytes Z) = <[p := m]> (entries u)).
  { intros m. destruct (entries_cons _ _ _ _ (Hk' m) (Hins (p, m))) as (_ & -> & _). rewrite Er. apply insert_delete_eq. }
  destruct (n - 1 =? 0) eqn:Ez.
  - destruct (swap_remove_perm pos (<[pos := (p, n - 1)]> (union_prefixes u)) (p, n - 1)) as (l' & -> & E').
    { apply list_lookup_insert_eq. by eapply lookup_lt_Some. }
    cbn [mbind option_bind]. eexists. split; [done|]. destruct (entries_cons _ _ _ _ (Hk' (n - 1)) E') as (Hk2 & _ & Em2).
    apply (Hfinal l' None); [by apply list.NoDup_cons in Hk2 as [_ ?]| |done].
    rewrite Em2, Hm. by rewrite delete_insert_eq.
  - cbn [mbind option_bind]. eexists. split; [done|]. apply (Hfinal _ (Some (n - 1))); [apply Hk'|apply Hm|done].
Qed.

(** An event changes the generation at most once. *)
Definition bumped (sh sh' : SharedSubscriptions) (n : nat) : Prop :=
  0 <= shared_gen sh -> shared_gen sh + Z.of_nat n < 2 ^ 64 ->
  shared_gen sh <= shared_gen sh' <= shared_gen sh + Z.of_nat n /\
  (shared_gen sh' = shared_gen sh -> shared_union sh' = shared_union sh).

Lemma bumped_refl sh n : bumped sh sh n.
Proof. intros Hp Hn. split; [lia|done]. Qed.

Lemma bumped_once sh u : bumped sh (mk_shared u (next_generation (shared_gen sh))) 1.
Proof. intros Hp Hn. cbn in *. unfold next_generation. rewrite Z.mod_small by lia. split; [lia|]. intros. lia. Qed.

Lemma bumped_trans sh1 sh2 sh3 n m : bumped sh1 sh2 n -> bumped sh2 sh3 m -> bumped sh1 sh3 (n + m).
Proof.
  intros H12 H23 Hp Hn. destruct H12 as [Hr1 He1]; [lia..|]. destruct H23 as [Hr2 He2]; [lia..|]. split; [lia|].
  intros E. rewrite He2, He1; [done|lia..].
Qed.

Lemma reader_event_inv subs sh s e :
  union_inv (s :: subs) (shared_union sh) ->
  exists s' sh', reader_event s sh e = Some (s', sh') /\ union_inv (s' :: subs) (shared_union sh') /\ bumped sh sh' 1.
Proof.
  intros Hinv. destruct e as [p|p]; cbn [reader_event].
  - case_bool_decide as Hp; [eauto using bumped_refl|]. cbn. eexists _, _. split; [done|].
    split; [by apply union_subscribe_inv|apply bumped_once].
  - destruct (decide (p ∈ s)) as [Hp|Hp].
    + destruct (union_unsubscribe_inv subs _ s p Hinv Hp) as (u' & E & Hinv').
      rewrite (proj2 (Z.ltb_lt _ _)); [unfold shared_update; rewrite E; cbn; eauto using bumped_once|].
      unfold len. enough (length (filter (λ x, x <> p) s) < length s)%nat by lia.
      apply (length_filter_lt _ s p); [done|]. naive_solver.
    + assert (Hf : filter (λ x, x <> p) s = s).
      { clear Hinv. induction s as [|x s IH]; [done|]. apply not_elem_of_cons in Hp as [Hx Hp].
        rewrite filter_cons, decide_True by congruence. by rewrite IH. }
      rewrite Hf, Z.ltb_irrefl. eauto using bumped_refl.
Qed.

(** What happens to the subscribers: one connects, or an event arrives from one
    of them. *)
Inductive sub_op := Connect | Event (i : nat) (e : SubscriptionEvent).

Definition sub_op_step (st : list (list bytes) * SharedSubscriptions) (op : sub_op)
    : option (list (list bytes) * SharedSubscriptions) :=
  let '(subs, sh) := st in
  match op with
  | Connect => sh ← shared_update (λ u, Some (union_add_subscriber u)) sh; Some (subs ++ [[]], sh)
  | Event i e =>
      match subs !! i with
      | None => Some (subs, sh)
      | Some s => '(s, sh) ← reader_event s sh e; Some (<[i := s]> subs, sh)
      end
  end.

Fixpoint sub_op_run (st : list (list bytes) * SharedSubscriptions) (ops : list sub_op)
    : option (list (list bytes) * SharedSubscriptions) :=
  match ops with [] => Some st | op :: ops => st ← sub_op_step st op; sub_op_run st ops end.

Lemma union_add_inv subs u : union_inv subs u -> union_inv (subs ++ [[]]) (union_add_subscriber u).
Proof.
  intros Hinv. apply (union_inv_perm ([] :: subs)); [by rewrite Permutation_app_comm|].
  destruct Hinv as [H1 H2 H3 H4]. split; [by constructor; [constructor|]|done| |].
  - rewrite open_subs_cons. cbn [match_all union_add_subscriber]. rewrite bool_decide_eq_true_2 by done. lia.
  - intros p. rewrite holders_cons, (bool_decide_eq_false_2 (p ∈ [])) by apply not_elem_of_nil. apply H4.
Qed.

Lemma sub_op_step_inv subs sh op :
  union_inv subs (shared_union sh) ->
  exists subs' sh', sub_op_step (subs, sh) op = Some (subs', sh') /\ union_inv subs' (shared_union sh').
Proof.
  intros Hinv. destruct op as [|i e]; cbn [sub_op_step].
  - cbn. eexists _, _. split; [done|]. by apply union_add_inv.
  - destruct (subs !! i) as [s|] eqn:Ei; [|eauto]. destruct (insert_perm _ _ _ Ei) as (others & E & Hins).
    destruct (reader_event_inv others sh s e) as (s' & sh' & -> & Hinv' & _); [by apply (union_inv_perm subs)|].
    cbn. eexists _, _. split; [done|]. apply (union_inv_perm (s' :: others)); [by rewrite Hins|done].
Qed.

Lemma sub_op_run_inv ops subs sh :
  union_inv subs (shared_union sh) ->
  exists subs' sh', sub_op_run (subs, sh) ops = Some (subs', sh') /\ union_inv subs' (shared_union sh').
Proof.
  revert subs sh. induction ops as [|op ops IH]; intros subs sh Hinv; cbn [sub_op_run]; [eauto|].
  destruct (sub_op_step_inv subs sh op Hinv) as (subs' & sh' & -> & Hinv'). by apply IH.
Qed.

Lemma union_empty_inv : union_inv [] union_default.
Proof. split; [constructor|constructor|done|]. intros p. apply lookup_empty. Qed.

Lemma worker_matches_spec subs topic rest :
  worker_matches subs (topic :: rest) = true <-> subs = [] \/ exists p, p ∈ subs /\ p `prefix_of` topic.
Proof.
  unfold worker_matches. case_bool_decide as E; [naive_solver|]. rewrite existsb_exists.
  assert (Hp : forall p, bool_decide (p = []) || ((len p <=? len topic) && bool_decide (ztake (len p) topic = p)) = true
    <-> p `prefix_of` topic).
  { intros p. rewrite <- (subscription_matches_spec (mk_subscription p)). unfold subscription_matches. cbn.
    by case_bool_decide. }
  split; [intros (p & Hin & Hm); right; exists p|intros [?|(p & Hin & Hm)]; [done|exists p]].
  - by rewrite list_elem_of_In, <- Hp.
  - by rewrite <- list_elem_of_In, Hp.
Qed.

Lemma union_matches_spec subs u topic rest :
  union_inv subs u -> union_matches u topic = existsb (λ s, worker_matches s (topic :: rest)) subs.
Proof.
  intros [_ Hk Ho Hc]. apply eq_true_iff_eq. unfold union_matches.
  rewrite orb_true_iff, Z.ltb_lt, !existsb_exists, Ho. split.
  - intros [Hopen|([p n] & Hin%list_elem_of_In & Hp)].
    + assert (Hf : exists s, s ∈ filter (λ s, s = []) subs).
      { unfold open_subs in Hopen. destruct (filter _ subs) as [|s l]; [cbn in Hopen; lia|]. exists s. by left. }
      destruct Hf as (s & [-> Hs]%list_elem_of_filter). exists []. by rewrite <- list_elem_of_In.
    + apply (elem_of_list_to_map_1 (M := gmap bytes)) in Hin; [|done]. fold (entries u) in Hin. rewrite Hc in Hin.
      case_bool_decide as Hz; [done|]. unfold holders in Hz.
      assert (Hf : exists s, s ∈ filter (λ s, p ∈ s) subs).
      { destruct (filter _ subs) as [|s l]; [done|]. exists s. by left. }
      destruct Hf as (s & [Hps Hs]%list_elem_of_filter). exists s. rewrite <- list_elem_of_In. split; [done|].
      apply worker_matches_spec. right. exists p. by rewrite <- starts_with_spec.
  - intros (s & Hs%list_elem_of_In & [->|(p & Hp & Hpre)]%worker_matches_spec).
    + left. unfold open_subs. assert (Hf : [] ∈ filter (λ s, s = []) subs) by (by apply list_elem_of_filter).
      destruct (filter _ subs); [by apply elem_of_nil in Hf|cbn; lia].
    + right. specialize (Hc p). rewrite bool_decide_eq_false_2 in Hc.
      * exists (p, Z.of_nat (holders p subs)). rewrite <- list_elem_of_In. split; [by apply (elem_of_list_to_map_2 (M := gmap bytes))|].
        by rewrite starts_with_spec.
      * unfold holders. assert (Hf : s ∈ filter (λ s, p ∈ s) subs) by (by apply list_elem_of_filter).
        destruct (filter _ subs); [by apply elem_of_nil in Hf|done].
Qed.

(** C17: the prefilter is exact.  However subscribers connect, subscribe and
    unsubscribe (repeatedly, or to what they do not hold), the shared union
    never panics, and it lets a topic through exactly when some subscriber's
    own filter accepts it: no message that is wanted is dropped before the
    hand-off, and none that nobody wants is handed over. *)
Theorem union_exact (ops : list sub_op) :
  exists subs sh, sub_op_run ([], shared_new) ops = Some (subs, sh) /\
    forall topic rest, union_matches (shared_union sh) topic = existsb (λ s, worker_matches s (topic :: rest)) subs.
Proof.
  destruct (sub_op_run_inv ops [] shared_new union_empty_inv) as (subs & sh & Hrun & Hinv).
  exists subs, sh. split; [done|]. intros topic rest. by apply union_matches_spec.
Qed.

(** ** The cached union

    A reader changes the union under its lock and then bumps the generation, which
    completes the update; the publisher loads the generation and then, if it has
    changed, copies the union under the lock.  These are the atomic steps, of any
    number of readers and of the publisher. *)

Record cache := mk_cache {
  updates : list (SubscriptionUnion -> SubscriptionUnion);   (** made so far, oldest first *)
  generation : Z;
  pending : list nat;                  (** the updates whose reader has not bumped the generation yet *)
  cached : SubscriptionUnion;
  cached_gen : Z;
  loaded : option Z;                   (** between the load and the decision *)
}.

Inductive cache_op :=
| UpdateUnion (f : SubscriptionUnion -> SubscriptionUnion)
| BumpGeneration (k : nat)             (** by the reader that made update [k] *)
| LoadGeneration
| DecideOp.

(** The union after some updates. *)
Definition union_after (fs : list (SubscriptionUnion -> SubscriptionUnion)) : SubscriptionUnion :=
  foldl (λ u f, f u) union_default fs.

Definition current (c : cache) : SubscriptionUnion := union_after (updates c).

(** [None] when the step is not enabled. *)
Definition cache_step (c : cache) (op : cache_op) : option cache :=
  match op with
  | UpdateUnion f =>
      Some (mk_cache (updates c ++ [f]) (generation c) (pending c ++ [length (updates c)]) (cached c) (cached_gen c) (loaded c))
  | BumpGeneration k =>
      if decide (k ∈ pending c)
      then Some (mk_cache (updates c) (next_generation (generation c)) (filter (λ i, i <> k) (pending c)) (cached c) (cached_gen c)
             (loaded c))
      else None
  | LoadGeneration =>
      Some (mk_cache (updates c) (generation c) (pending c) (cached c) (cached_gen c) (Some (generation c)))
  | DecideOp =>
      g ← loaded c;
      let '(u, lg) := refresh (cached c) (cached_gen c) (current c) g in
      Some (mk_cache (updates c) (generation c) (pending c) u lg None)
  end.

Fixpoint cache_run (c : cache) (ops : list cache_op) : option cache :=
  match ops with [] => Some c | op :: ops => c ← cache_step c op; cache_run c ops end.

Definition cache_new : cache := mk_cache [] 0 [] union_default 0 None.

(** Update [k] was made and completed. *)
Definition completed (c : cache) (k : nat) : Prop := (k < length (updates c))%nat /\ k ∉ pending c.

(** Fewer updates than the generation counter has values. *)
Definition cache_small (c : cache) : Prop := Z.of_nat (length (updates c)) < 2 ^ 64.

(** The generation counts the completed updates; the cache holds the union after the
    first updates, and as long as its generation is the current one, every completed
    update is among them. *)
Record cache_inv (c : cache) : Prop := {
  ci_gen : generation c + Z.of_nat (length (pending c)) = Z.of_nat (length (updates c));
  ci_pending : NoDup (pending c) /\ Forall (λ k, (k < length (updates c))%nat) (pending c);
  ci_pos : 0 <= cached_gen c <= generation c;
  ci_cached : exists v, (v <= length (updates c))%nat /\ cached c = union_after (take v (updates c)) /\
    (cached_gen c = generation c -> forall k, completed c k -> (k < v)%nat);
  ci_loaded g : loaded c = Some g -> 0 <= g <= generation c;
}.

Lemma cache_new_inv : cache_inv cache_new.
Proof. split; [done|split; constructor|done|exists 0%nat; split_and!; [done|done|intros _ k [Hk _]; cbn in Hk; lia]|done]. Qed.

Lemma filter_out_length (k : nat) l : NoDup l -> k ∈ l -> length l = S (length (filter (λ i, i <> k) l)).
Proof.
  induction 1 as [|x l Hx Hl IH]; [by intros ?%elem_of_nil|]. intros [<-|Hk]%elem_of_cons.
  - rewrite filter_cons_False by (by intros []). cbn. f_equal. clear IH Hl. induction l as [|y l IH]; [done|].
    apply not_elem_of_cons in Hx as [Hxy Hx]. rewrite filter_cons_True by congruence. cbn. by rewrite <- IH.
  - rewrite filter_cons_True by (intros ->; done). cbn. by rewrite IH.
Qed.

Lemma cache_step_inv c op c' : cache_small c' -> cache_inv c -> cache_step c op = Some c' -> cache_inv c'.
Proof.
  intros Hsmall [Hg [Hnd Hlt] Hp (v & Hv & Hc & Hin) Hl]. unfold cache_small in Hsmall. destruct op as [f|k| |]; cbn [cache_step].
  - intros [= <-]. cbn in *. split; cbn; rewrite ?length_app; cbn; [lia| |done| |done].
    + split.
      * apply list.NoDup_app. split_and!; [done| |apply list.NoDup_singleton]. intros x Hx ->%list_elem_of_singleton.
        rewrite list.Forall_forall in Hlt. specialize (Hlt _ Hx). lia.
      * apply Forall_app. split; [|repeat constructor; lia]. eapply list.Forall_impl; [exact Hlt|]. cbn. lia.
    + exists v. rewrite take_app_le by lia. split_and!; [lia|done|]. intros E k [Hk Hnk]. cbn in *. rewrite length_app in Hk. cbn in Hk.
      apply not_elem_of_app in Hnk as [Hnk Hne]. rewrite list_elem_of_singleton in Hne. apply (Hin E). split; [lia|done].
  - destruct (decide (k ∈ pending c)) as [Hk|]; [|done]. intros [= <-]. cbn in *. unfold next_generation.
    pose proof (filter_out_length k _ Hnd Hk) as Hlen. rewrite Z.mod_small by lia. split; cbn; [lia| |lia| |intros g ?%Hl; lia].
    + split; [by apply list.NoDup_filter|]. apply list.Forall_forall. intros x [_ Hx]%list_elem_of_filter. rewrite list.Forall_forall in Hlt. by apply Hlt.
    + exists v. split_and!; [done|done|]. intros. lia.
  - intros [= <-]. cbn in *. split; cbn; [done|done|done|by exists v|]. intros g [= <-]. lia.
  - destruct (loaded c) as [g|] eqn:El; [|done]. cbn. specialize (Hl g eq_refl). unfold refresh.
    destruct (Z.eqb_spec g (cached_gen c)); intros [= <-]; cbn in *; (split; cbn; [done|done|lia| |done]); [by exists v|].
    exists (length (updates c)). rewrite firstn_all. split_and!; [lia|done|]. by intros _ k [].
Qed.

Lemma cache_step_updates c op c' : cache_step c op = Some c' -> updates c `prefix_of` updates c'.
Proof.
  destruct op as [f|k| |]; cbn [cache_step].
  - intros [= <-]. by exists [f].
  - destruct (decide _); [|done]. by intros [= <-].
  - by intros [= <-].
  - destruct (loaded c); [|done]. cbn. destruct (refresh _ _ _ _). by intros [= <-].
Qed.

Lemma cache_run_updates ops c c' : cache_run c ops = Some c' -> updates c `prefix_of` updates c'.
Proof.
  revert c. induction ops as [|op ops IH]; intros c; cbn [cache_run]; [by intros [= <-]|].
  destruct (cache_step c op) as [c1|] eqn:E; [|done]. intros Hrun. etrans; [by eapply cache_step_updates|by apply IH].
Qed.

Lemma cache_small_prefix c c' : updates c `prefix_of` updates c' -> cache_small c' -> cache_small c.
Proof. intros Hp%prefix_length. unfold cache_small. lia. Qed.

Lemma cache_run_inv ops c c' : cache_small c' -> cache_inv c -> cache_run c ops = Some c' -> cache_inv c'.
Proof.
  intros Hsmall. revert c. induction ops as [|op ops IH]; intros c Hinv; cbn [cache_run]; [by intros [= <-]|].
  destruct (cache_step c op) as [c1|] eqn:E; [|done]. cbn. intros Hrun. apply (IH c1); [|done].
  eapply cache_step_inv; [|exact Hinv|exact E]. by eapply cache_small_prefix; [eapply cache_run_updates|].
Qed.

(** The readers' steps. *)
Definition is_reader_op (op : cache_op) : bool := match op with UpdateUnion _ | BumpGeneration _ => true | _ => false end.

Lemma reader_steps_loaded ops c c' :
  forallb is_reader_op ops = true -> cache_run c ops = Some c' ->
  loaded c' = loaded c /\ cached c' = cached c /\ cached_gen c' = cached_gen c.
Proof.
  revert c. induction ops as [|op ops IH]; intros c; cbn [cache_run forallb]; [by intros _ [= <-]|].
  intros [Hop Hops]%andb_true_iff. destruct (cache_step c op) as [c1|] eqn:E; [|done]. cbn. intros Hrun.
  destruct (IH c1 Hops Hrun) as (-> & -> & ->). destruct op; try done; cbn [cache_step] in E; [by injection E as <-|].
  destruct (decide _); [|done]. by injection E as <-.
Qed.

(** C18: the cached union is never stale.  Readers make updates under the lock and
    complete them by bumping the generation, several at a time and in any
    interleaving; the publisher's checks load the generation and then, with any
    steps of readers in between, decide.  The union a check decides by is the one
    after the first [v] updates, in the order they were made, and every update
    whose reader had completed it before the check began is among these; when no
    update is under way then and during the check, it is the current union.  (Fewer
    than 2^64 updates.) *)
Theorem prefilter_never_stale (before during : list cache_op) (c0 c1 c2 c3 : cache) :
  cache_run cache_new before = Some c0 -> cache_step c0 LoadGeneration = Some c1 ->
  forallb is_reader_op during = true -> cache_run c1 during = Some c2 ->
  cache_step c2 DecideOp = Some c3 -> cache_small c3 ->
  (exists v, (v <= length (updates c3))%nat /\ cached c3 = union_after (take v (updates c3)) /\
     forall k, completed c0 k -> (k < v)%nat) /\
  (pending c0 = [] -> during = [] -> cached c3 = current c3).
Proof.
  intros H0 H1 Hd H2 H3 Hsmall. pose proof (cache_step_updates _ _ _ H3) as Hp3. pose proof (cache_run_updates _ _ _ H2) as Hp2.
  cbn [cache_step] in H1. injection H1 as <-. cbn [updates] in Hp2.
  assert (Hinv : cache_inv c0).
  { eapply cache_run_inv; [|exact cache_new_inv|exact H0]. eapply cache_small_prefix; [by etrans|done]. }
  destruct (reader_steps_loaded _ _ _ Hd H2) as (Hl & Hc & Hcg). cbn in Hl, Hc, Hcg. destruct Hinv as [Hg _ Hp (v & Hv & Hca & Hin) _].
  cbn [cache_step] in H3. rewrite Hl in H3. cbn in H3. unfold refresh in H3. rewrite Hcg, Hc in H3.
  destruct (Z.eqb_spec (generation c0) (cached_gen c0)) as [E|E]; injection H3 as <-; cbn [cached updates] in *.
  - destruct Hp2 as [k Hk]. split.
    + exists v. rewrite Hk, take_app_le, length_app by done. split_and!; [lia|done|by apply Hin].
    + intros Hpend ->. injection H2 as <-. cbn in *. unfold current. cbn.
      assert (v = length (updates c0)) as ->; [|by rewrite Hca, firstn_all].
      destruct (length (updates c0)) as [|n] eqn:En; [lia|]. assert (n < v)%nat; [|lia].
      apply Hin; [done|]. split; [lia|]. rewrite Hpend. apply not_elem_of_nil.
  - split; [|done]. exists (length (updates c2)). rewrite firstn_all. split_and!; [lia|done|].
    intros k [Hk _]. apply prefix_length in Hp2. lia.
Qed.

(** Two readers overlap: the second completes its update first. *)
Definition overlapping : list cache_op :=
  [UpdateUnion union_add_subscriber; UpdateUnion union_add_subscriber; BumpGeneration 1].
Definition meanwhile : list cache_op := [UpdateUnion union_add_subscriber; BumpGeneration 0].
Definition cache_after (ops : list cache_op) : cache := default cache_new (cache_run cache_new ops).

Lemma prefilter_never_stale_witness :
  let c0 := cache_after overlapping in let c3 := cache_after (overlapping ++ LoadGeneration :: meanwhile ++ [DecideOp]) in
  completed c0 1 /\ ~ completed c0 0 /\ exists v, cached c3 = union_after (take v (updates c3)) /\ (1 < v)%nat.
Proof.
  cbn zeta. assert (Hc : completed (cache_after overlapping) 1).
  { split; [vm_compute; lia|]. vm_compute. intros H%list_elem_of_singleton. discriminate. }
  split; [exact Hc|]. split; [intros [_ Hn]; apply Hn; vm_compute; by left|].
  destruct (prefilter_never_stale overlapping meanwhile (cache_after overlapping) (cache_after (overlapping ++ [LoadGeneration]))
    (cache_after (overlapping ++ LoadGeneration :: meanwhile)) (cache_after (overlapping ++ LoadGeneration :: meanwhile ++ [DecideOp])))
    as [(v & _ & Hv & Hin) _]; [vm_compute; reflexivity..|].
  exists v. split; [exact Hv|]. exact (Hin 1%nat Hc).
Defined.

(** ** Coalescing is invisible *)

Section workers.
Context {S K : Type} `{WireStream S} `{!Aead K}.
Implicit Types (sub : WorkerSubscriber S K) (w : Worker S K).

(** A subscriber by its subscriptions and what it has been sent. *)
Definition view sub : Z * list bytes * bytes := (ws_id sub, ws_subs sub, wire (ws_stream sub)).

Definition deliver (m : list bytes) (v : Z * list bytes * bytes) : Z * list bytes * bytes :=
  let '(id, subs, sent) := v in (id, subs, sent ++ (if worker_matches subs m then encode_multipart m [] else [])).

(** Commands one by one: the reference. *)
Fixpoint ref_run (vs : list (Z * list bytes * bytes)) (queue : list (WorkerCommand S K))
    : list (Z * list bytes * bytes) * bool :=
  match queue with
  | [] => (vs, true)
  | Broadcast m :: queue => ref_run (deliver m <$> vs) queue
  | AddSubscriber sub :: queue => ref_run (vs ++ [view sub]) queue
  | Shutdown :: _ => (vs, false)
  end.

Definition plain_sub sub : Prop := ws_cipher sub = None.
Definition plain_cmd (c : WorkerCommand S K) : Prop := match c with AddSubscriber sub => plain_sub sub | _ => True end.

(** What a batch holds for a subscriber. *)
Definition slice_of (subs : list bytes) (batch : list (list bytes)) : bytes := wire_of (List.filter (worker_matches subs) batch).

Lemma full_batch_wire batch buf : full_batch batch buf = buf ++ wire_of batch.
Proof.
  revert buf. induction batch as [|m batch IH]; intros buf; cbn [full_batch]; [cbn; by rewrite app_nil_r|].
  rewrite IH, !encode_multipart_frames. change (wire_of (m :: batch)) with (encode_multipart m [] ++ wire_of batch).
  by rewrite encode_multipart_frames, <- app_assoc.
Qed.

Lemma batch_slice_plain sub batch buf :
  plain_sub sub -> batch_slice sub batch buf = (Some (buf ++ slice_of (ws_subs sub) batch), sub).
Proof.
  intros Hp. revert buf. induction batch as [|m batch IH]; intros buf; cbn [batch_slice]; [cbn; by rewrite app_nil_r|].
  unfold slice_of. cbn [List.filter]. destruct (worker_matches (ws_subs sub) m); cbn [negb]; [|apply IH].
  rewrite Hp, IH. unfold encode_plain_wire, slice_of.
  change (wire_of (m :: ?x)) with (encode_multipart m [] ++ wire_of x). by rewrite <- app_assoc.
Qed.

Lemma subscriber_output_plain sub batch :
  plain_sub sub -> subscriber_output sub batch = (Some (slice_of (ws_subs sub) batch), sub).
Proof.
  intros Hp. unfold subscriber_output. case_bool_decide as E1; [|done]. case_bool_decide as E2; cbn [andb].
  - rewrite full_batch_wire. cbn [app]. unfold slice_of. do 3 f_equal. rewrite E2.
    induction batch as [|m batch IH]; [done|]. cbn. by rewrite <- IH.
  - by rewrite batch_slice_plain.
Qed.

(** A served subscriber has its slice on the wire; one whose write does not
    complete is dropped. *)
Lemma serve_subscriber_spec sub batch :
  plain_sub sub ->
  match serve_subscriber sub batch with
  | Some sub' => plain_sub sub' /\ ws_id sub' = ws_id sub /\ ws_subs sub' = ws_subs sub /\
      wire (ws_stream sub') = wire (ws_stream sub) ++ slice_of (ws_subs sub) batch
  | None => (stream_write_all (ws_stream sub) (slice_of (ws_subs sub) batch)).1 <> Completed (Ok tt)
  end.
Proof.
  intros Hp. unfold serve_subscriber. rewrite subscriber_output_plain by done.
  destruct (slice_of _ batch) as [|x out] eqn:E; [by rewrite app_nil_r|].
  destruct (write_all_wire (ws_stream sub) (x :: out)) as (k & _ & Hk & Hfull).
  destruct (stream_write_all _ _) as [[[[]|e]|] s']; cbn in *; [|done..]. split_and!; [done|done|done|].
  by rewrite Hk, Hfull.
Qed.

Lemma deliver_all {A} (f : A -> Z * list bytes * bytes) (l : list A) batch :
  foldl (λ vs m, deliver m <$> vs) (f <$> l) batch = (λ x, foldl (λ v m, deliver m v) (f x) batch) <$> l.
Proof.
  revert f. induction batch as [|m batch IH]; intros f; [done|]. cbn [foldl]. rewrite <- list_fmap_compose. apply IH.
Qed.

Lemma serve_batch_views subs batch :
  reliable (S := S) -> Forall plain_sub subs ->
  Forall plain_sub (serve_batch subs batch) /\ length (serve_batch subs batch) = length subs /\
  (view <$> serve_batch subs batch) = foldl (λ vs m, deliver m <$> vs) (view <$> subs) batch.
Proof.
  intros [Hrel _] Hall.
  assert (Hone : forall sub, plain_sub sub -> exists sub', serve_subscriber sub batch = Some sub' /\ plain_sub sub' /\
    view sub' = foldl (λ v m, deliver m v) (view sub) batch).
  { intros sub Hp. pose proof (serve_subscriber_spec sub batch Hp) as Hs.
    destruct (serve_subscriber sub batch) as [sub'|]; [|by destruct Hs]. destruct Hs as (Hp' & Hid & Hsu & Hw).
    exists sub'. split_and!; [done|done|]. unfold view. rewrite Hid, Hsu, Hw. generalize (wire (ws_stream sub)) as sent.
    clear. induction batch as [|m batch IH]; intros sent; [cbn; by rewrite app_nil_r|]. unfold slice_of.
    cbn [List.filter foldl deliver]. destruct (worker_matches _ m); [|by rewrite app_nil_r].
    change (wire_of (m :: ?x)) with (encode_multipart m [] ++ wire_of x). by rewrite app_assoc, <- IH. }
  rewrite deliver_all. induction Hall as [|sub subs Hp Hall IH]; [done|]. destruct (Hone sub Hp) as (sub' & E & Hp' & Hv).
  destruct IH as (H1 & H2 & H3). unfold serve_batch. cbn [omap list_omap]. rewrite E. fold (serve_batch subs batch).
  cbn [fmap list_fmap length]. split_and!; [by constructor|by rewrite H2|by rewrite Hv, H3].
Qed.

Lemma coalesce_spec (queue : list (WorkerCommand S K)) batch n batch' deferred queue' :
  coalesce queue batch n = (batch', deferred, queue') ->
  exists ms, batch' = batch ++ ms /\
    queue = (Broadcast <$> ms) ++ (match deferred with Some c => c :: queue' | None => queue' end) /\
    match deferred with Some (Broadcast _) => False | _ => True end.
Proof.
  revert batch n. induction queue as [|c queue IH]; intros batch n; cbn [coalesce]; destruct (_ && _).
  - intros [= <- <- <-]. exists []. by rewrite app_nil_r.
  - intros [= <- <- <-]. exists []. by rewrite app_nil_r.
  - destruct c as [sub|m|]; [intros [= <- <- <-]; exists []; by rewrite app_nil_r| |intros [= <- <- <-]; exists []; by rewrite app_nil_r].
    intros (ms & -> & -> & Hd)%IH. exists (m :: ms). by rewrite <- app_assoc.
  - intros [= <- <- <-]. exists []. by rewrite app_nil_r.
Qed.

Lemma ref_run_broadcasts ms vs queue :
  ref_run vs ((Broadcast <$> ms) ++ queue) = ref_run (foldl (λ vs m, deliver m <$> vs) vs ms) queue.
Proof. revert vs. induction ms as [|m ms IH]; intros vs; [done|]. cbn. apply IH. Qed.

Lemma ref_run_app vs cmds queue :
  ref_run vs (cmds ++ queue) = let '(vs', go) := ref_run vs cmds in if go then ref_run vs' queue else (vs', false).
Proof.
  revert vs. induction cmds as [|c cmds IH]; intros vs; [done|]. cbn [app ref_run]. destruct c; [apply IH|apply IH|done].
Qed.

(** One step of a worker executes the first commands of its queue, as the
    reference does. *)
Lemma worker_step_ref w :
  reliable (S := S) -> Forall plain_sub (wk_subs w) -> Forall plain_cmd (wk_queue w) -> wk_running w = true ->
  wk_queue w <> [] ->
  let w' := worker_step w in
  exists cmds, cmds <> [] /\ wk_queue w = cmds ++ wk_queue w' /\
    ref_run (view <$> wk_subs w) cmds = (view <$> wk_subs w', wk_running w') /\
    Forall plain_sub (wk_subs w') /\ Forall plain_cmd (wk_queue w') /\ wk_count w' = wk_count w.
Proof.
  intros Hrel Hsubs Hq Hrun Hne. cbn zeta. unfold worker_step. rewrite Hrun. cbn [negb].
  destruct (wk_queue w) as [|c queue] eqn:Eq; [done|]. apply list.Forall_cons in Hq as [Hc Hq]. destruct c as [sub|m|].
  - exists [AddSubscriber sub]. cbn. rewrite fmap_app. split_and!; try done. apply Forall_app. by split; [|constructor].
  - destruct (coalesce queue [m] (approx_wire_len m)) as [[batch deferred] queue'] eqn:Ec.
    apply coalesce_spec in Ec as (ms & -> & -> & Hd). apply Forall_app in Hq as [_ Hq].
    destruct (serve_batch_views (wk_subs w) ([m] ++ ms) Hrel Hsubs) as (Hp & Hl & Hv).
    assert (Hcount : wk_count w - (len (wk_subs w) - len (serve_batch (wk_subs w) ([m] ++ ms))) = wk_count w)
      by (unfold len; lia).
    change ([m] ++ ms) with (m :: ms) in *. cbn [foldl] in Hv. unfold after_batch. rewrite Hrun.
    exists (Broadcast m :: (Broadcast <$> ms) ++ option_list deferred). cbn [ref_run]. rewrite ref_run_broadcasts, <- Hv.
    destruct deferred as [[sub|m2|]|]; [|done| |]; cbn -[serve_batch]; rewrite <- ?app_assoc, ?app_nil_r.
    + apply list.Forall_cons in Hq as [Hs Hq]. rewrite fmap_app.
      split_and!; [done|done|done|apply Forall_app; by split; [|constructor]|done|exact Hcount].
    + apply list.Forall_cons in Hq as [_ Hq]. by split_and!.
    + by split_and!.
  - exists [Shutdown]. cbn. by split_and!.
Qed.

Fixpoint worker_run (n : nat) w : Worker S K := match n with O => w | Datatypes.S n => worker_run n (worker_step w) end.

Lemma worker_stopped n w : wk_running w = false -> worker_run n w = w.
Proof. intros Hr. induction n as [|n IH]; [done|]. cbn [worker_run]. unfold worker_step. by rewrite Hr. Qed.

Lemma worker_idle n w : wk_queue w = [] -> worker_run n w = w.
Proof.
  intros Hq. induction n as [|n IH]; [done|]. cbn [worker_run]. unfold worker_step. rewrite Hq. by destruct (wk_running w).
Qed.

Lemma worker_run_ref n w :
  reliable (S := S) -> Forall plain_sub (wk_subs w) -> Forall plain_cmd (wk_queue w) -> wk_running w = true ->
  (length (wk_queue w) <= n)%nat ->
  let w' := worker_run n w in
  (view <$> wk_subs w', wk_running w') = ref_run (view <$> wk_subs w) (wk_queue w) /\ wk_count w' = wk_count w /\
  (wk_running w' = true -> wk_queue w' = []).
Proof.
  intros Hrel. revert w. induction n as [|n IH]; intros w Hs Hq Hrun Hlen; cbn zeta.
  - assert (wk_queue w = []) as E by (by apply nil_length_inv; lia). cbn [worker_run]. by rewrite E, Hrun.
  - destruct (decide (wk_queue w = [])) as [E|Hne]; [rewrite worker_idle by done; by rewrite E, Hrun|].
    cbn [worker_run]. destruct (worker_step_ref w Hrel Hs Hq Hrun Hne) as (cmds & Hcmds & Eq & Href & Hs' & Hq' & Hc').
    rewrite Eq, ref_run_app, Href. assert (Hlt : (length (wk_queue (worker_step w)) < length (wk_queue w))%nat).
    { rewrite Eq, length_app. destruct cmds; [done|cbn; lia]. }
    destruct (wk_running (worker_step w)) eqn:Er.
    + destruct (IH (worker_step w) Hs' Hq' Er ltac:(lia)) as (Hv & Hc & Hi). by rewrite Hv, Hc, Hc'.
    + rewrite worker_stopped by done. rewrite Er. split_and!; [done|done|congruence].
Qed.
End workers.

(** C8: coalescing is invisible.  A worker whose subscribers have plaintext
    connections on which writes complete, and that drains its queue in coalesced
    batches (shared encodings, one write per subscriber and batch), ends, after
    at most as many steps as commands, with every subscriber having been sent
    exactly the encodings of the broadcasts issued after it was added that its
    subscriptions accept, in order, as if the commands were executed one by
    one; commands behind a [Shutdown] are not executed. *)
Theorem coalescing_invisible {S K : Type} `{WireStream S} `{!Aead K} (w : Worker S K) :
  reliable (S := S) -> Forall plain_sub (wk_subs w) -> Forall plain_cmd (wk_queue w) -> wk_running w = true ->
  let w' := worker_run (length (wk_queue w)) w in
  (view <$> wk_subs w', wk_running w') = ref_run (view <$> wk_subs w) (wk_queue w) /\
  wk_count w' = wk_count w /\ (wk_running w' = true -> wk_queue w' = []).
Proof. intros Hrel Hs Hq Hrun. by apply worker_run_ref. Qed.

Definition sample_worker : Worker SinkStream unit :=
  mk_worker [mk_worker_sub 1 (mk_sink []) [] None; mk_worker_sub 2 (mk_sink []) [ascii_bytes "a"] None] 2
    [Broadcast [ascii_bytes "a1"]; Broadcast [ascii_bytes "b1"]; AddSubscriber (mk_worker_sub 3 (mk_sink []) [] None);
     Broadcast [ascii_bytes "a2"]] true.

Lemma coalescing_invisible_witness :
  (view <$> wk_subs (worker_run 4 sample_worker)) =
    [(1, [], wire_of [[ascii_bytes "a1"]; [ascii_bytes "b1"]; [ascii_bytes "a2"]]);
     (2, [ascii_bytes "a"], wire_of [[ascii_bytes "a1"]; [ascii_bytes "a2"]]);
     (3, [], wire_of [[ascii_bytes "a2"]])].
Proof.
  destruct (coalescing_invisible sample_worker) as (H1 & _ & _).
  - split; reflexivity.
  - repeat constructor.
  - repeat constructor.
  - reflexivity.
  - apply (f_equal fst) in H1. cbn [fst] in H1. change (length (wk_queue sample_worker)) with 4%nat in H1.
    rewrite H1. vm_compute. reflexivity.
Defined.
