(* ===== verification/PubSubSync.v ===== *)
(** * SUB and PUB agree on the subscriptions

    The composition of subscriber.rs and publisher.rs: what a SUB socket's
    [subscribe] and [unsubscribe] put on the wire, read by the publisher's
    [subscription_reader] in whatever pieces it arrives. *)

From S2P Require Import Prelude.
From S2P Require Import ByteOrder.
From S2P Require Import SegBuffer.
From S2P Require Import Codec.
From S2P Require Import Options.
From S2P Require Import Subscription.
From S2P Require Import CurveMessage.
From S2P Require Import Stream.
From S2P Require Import Base.
From S2P Require Import BaseWire.
From S2P Require Import Recv.
From S2P Require Import Pipeline.
From S2P Require Import Subscriber.
From S2P Require Import Publisher.

(** ** Decoding a frame that arrives in pieces *)

(** The next frame is decoded, or some of its bytes are still to come. *)
Lemma decode_next d src f rest later :
  decoder_wf d -> segbuf_wf src -> plain_frame (max_frame_size d) f -> logical d src ++ later = encode f ++ rest ->
  exists r d' src', decode d src = Some (Ok r, d', src') /\ decoder_wf d' /\ segbuf_wf src' /\
    max_frame_size d' = max_frame_size d /\
    match r with
    | Some f' => f' = f /\ logical d' src' ++ later = rest /\ (length (logical d' src') < length (logical d src))%nat
    | None => logical d' src' = logical d src /\ later <> []
    end.
Proof.
  intros Hd Hs Hf Heq. destruct (decode_ok d src Hd Hs) as (r & d' & src' & Hdec & Hd' & Hs' & Hm & Hpost).
  destruct (parse_prefix _ _ _ _ _ Hf Heq) as [(rest0 & Hp & Hrest)|[Hp Hl]]; rewrite Hp in Hpost.
  - destruct Hpost as (-> & _ & Hlog). apply parse_frame_length in Hp. exists (Some f), d', src'.
    split_and!; [done..|by rewrite Hlog|rewrite Hlog; lia].
  - destruct Hpost as (-> & Hlog). exists None, d', src'. by split_and!.
Qed.

(** Nothing held, nothing decoded. *)
Lemma decode_nothing d src :
  decoder_wf d -> segbuf_wf src -> logical d src = [] ->
  exists d' src', decode d src = Some (Ok None, d', src') /\ decoder_wf d' /\ segbuf_wf src' /\
    max_frame_size d' = max_frame_size d /\ logical d' src' = [].
Proof.
  intros Hd Hs E. destruct (decode_ok d src Hd Hs) as (r & d' & src' & Hdec & Hd' & Hs' & Hm & Hpost).
  rewrite E in Hpost. destruct Hpost as (-> & Hlog). by exists d', src'.
Qed.

(** An event the peer's decoder accepts. *)
Definition event_fits (max : Z) (e : SubscriptionEvent) : Prop :=
  len (to_message e) <= max /\ len (to_message e) <= 0x7FFFFFFFFFFFFFFF.

Definition event_frame (e : SubscriptionEvent) : ZmtpFrame := frame_data (to_message e) false.

Lemma event_wire_frame e : event_wire e = encode (event_frame e).
Proof. unfold event_wire. rewrite encode_multipart_frames. cbn. by rewrite app_nil_r. Qed.

Lemma event_frame_plain max e : event_fits max e -> plain_frame max (event_frame e).
Proof.
  intros Hf. assert (H : Forall (plain_frame max) (message_frames [to_message e])).
  { apply message_frames_plain. by repeat constructor; apply Hf. }
  by apply list.Forall_cons in H as [? _].
Qed.

Lemma from_to_message e : from_message (to_message e) = Some e.
Proof. by destruct e. Qed.

Lemma event_wire_nonempty e : event_wire e <> [].
Proof. rewrite event_wire_frame. done. Qed.

Definition events_wire (es : list SubscriptionEvent) : bytes := concat (event_wire <$> es).

(** ** The reader *)

(** The subscriptions of one subscriber after an event. *)
Definition subs_after (subs : list bytes) (e : SubscriptionEvent) : list bytes :=
  match e with
  | Subscribe p => if bool_decide (p ∈ subs) then subs else subs ++ [p]
  | Unsubscribe p => filter (λ s, s <> p) subs
  end.

Lemma reader_event_subs subs sh e subs' sh' : reader_event subs sh e = Some (subs', sh') -> subs' = subs_after subs e.
Proof.
  destruct e as [p|p]; cbn [reader_event subs_after].
  - case_bool_decide; by intros [= <- <-].
  - destruct (_ <? _); [|by intros [= <- <-]]. by destruct (shared_update _ _); intros [= <- <-].
Qed.

Section reader.
Context {K : Type} `{Aead K}.
Implicit Types r : Reader K.

(** A reader of a plaintext connection from which, counting the bytes still to
    come, the events [es] have yet to be read. *)
Record reading r (later : bytes) (es : list SubscriptionEvent) : Prop := {
  rg_decoder : decoder_wf (rd_decoder r);
  rg_buf : segbuf_wf (rd_buf r);
  rg_plain : rd_cipher r = None;
  rg_fits : Forall (event_fits (max_frame_size (rd_decoder r))) es;
  rg_bytes : logical (rd_decoder r) (rd_buf r) ++ later = events_wire es;
}.

Lemma reader_drain_events fuel r sh others later es :
  reading r later es -> union_inv (rd_subs r :: others) (shared_union sh) ->
  (length (logical (rd_decoder r) (rd_buf r)) < fuel)%nat ->
  exists es1 es2 r' sh', es = es1 ++ es2 /\ reader_drain fuel r sh = Some (r', sh') /\
    reading r' later es2 /\ union_inv (rd_subs r' :: others) (shared_union sh') /\ rd_subs r' = foldl subs_after (rd_subs r) es1 /\
    bumped sh sh' (length es1) /\ max_frame_size (rd_decoder r') = max_frame_size (rd_decoder r) /\
    (later = [] -> es2 = []).
Proof.
  revert r sh es. induction fuel as [|fuel IH]; intros r sh es [Hd Hb Hc Hfits Hbytes] Hinv Hfuel; [lia|].
  cbn [reader_drain]. destruct es as [|e es].
  - cbn in Hbytes. apply app_nil in Hbytes as [Hl ->].
    destruct (decode_nothing _ _ Hd Hb Hl) as (d' & src' & -> & Hd' & Hb' & Hm & Hl'). cbn [mbind option_bind].
    exists [], [], (mk_reader src' d' (rd_cipher r) (rd_subs r)), sh. split_and!; try done; [|apply bumped_refl].
    split; cbn; [done..|by rewrite Hl'].
  - apply list.Forall_cons in Hfits as [He Hfits]. unfold events_wire in Hbytes.
    cbn [fmap list_fmap concat] in Hbytes. rewrite event_wire_frame in Hbytes.
    destruct (decode_next _ _ _ _ _ Hd Hb (event_frame_plain _ _ He) Hbytes)
      as (res & d' & src' & -> & Hd' & Hb' & Hm & Hres). cbn [mbind option_bind].
    set (r1 := mk_reader src' d' (rd_cipher r) (rd_subs r)). destruct res as [f|].
    + destruct Hres as (-> & Hlater & Hlt). unfold reader_payload. cbn [rd_cipher r1].
      destruct (frame_data_flags (to_message e) false) as (_ & _ & _ & Hcmd). fold (event_frame e) in Hcmd.
      rewrite Hcmd. unfold r1 in *. rewrite Hc. rewrite bool_decide_eq_false_2 by (by intros []). cbn [payload event_frame frame_data].
      rewrite from_to_message. destruct (reader_event_inv others sh (rd_subs r) e Hinv) as (s' & sh1 & E & Hinv1 & Hb1).
      cbn [rd_subs rd_buf rd_decoder rd_cipher r1]. rewrite E. cbn [mbind option_bind]. apply reader_event_subs in E as ->.
      destruct (IH (mk_reader src' d' None (subs_after (rd_subs r) e)) sh1 es)
        as (es1 & es2 & r' & sh' & -> & Hrun & Hr' & Hi' & Hs' & Hbu & Hmu & Hend).
      * by split; cbn; rewrite ?Hm.
      * done.
      * cbn. lia.
      * exists (e :: es1), es2, r', sh'. cbn in Hmu. split_and!; [done|exact Hrun|done|done|done| |congruence|done].
        apply (bumped_trans _ sh1 _ 1 _ Hb1 Hbu).
    + destruct Hres as (Hlog & Hl). exists [], (e :: es), r1, sh. split_and!; [done|done| |done|done|apply bumped_refl|done|done].
      split; cbn; rewrite ?Hm, ?Hlog; [done..|by constructor|].
      by rewrite Hbytes, <- event_wire_frame.
Qed.

Lemma logical_push d src bs : logical d (push src bs) = logical d src ++ bs.
Proof. unfold logical. rewrite flat_push. destruct (pending_flags d); by rewrite ?app_assoc. Qed.

(** Some of the bytes to come arrive, in [chunks]. *)
Lemma reader_run_events chunks later r sh others es :
  reading r (concat chunks ++ later) es -> union_inv (rd_subs r :: others) (shared_union sh) ->
  exists es1 es2 r' sh', es = es1 ++ es2 /\ reader_run r sh chunks = Some (r', sh') /\
    reading r' later es2 /\ union_inv (rd_subs r' :: others) (shared_union sh') /\ rd_subs r' = foldl subs_after (rd_subs r) es1 /\
    bumped sh sh' (length es1) /\ max_frame_size (rd_decoder r') = max_frame_size (rd_decoder r) /\
    (chunks <> [] -> later = [] -> es2 = []).
Proof.
  revert r sh es. induction chunks as [|c chunks IH]; intros r sh es Hr Hinv; cbn [reader_run].
  - exists [], es, r, sh. split_and!; try done. apply bumped_refl.
  - unfold reader_chunk. set (r1 := mk_reader _ _ _ _).
    assert (Hr1 : reading r1 (concat chunks ++ later) es).
    { destruct Hr as [H1 H2 H3 H4 H5]. split; cbn; [done|by apply push_wf|done|done|].
      rewrite logical_push, <- H5. cbn [concat]. by rewrite <- !app_assoc. }
    destruct (reader_drain_events (length (flat (rd_buf r1)) + length (staging (rd_decoder r1)) + 10) r1 sh others
      (concat chunks ++ later) es Hr1 Hinv (logical_fuel _ _)) as (es1 & es2 & r2 & sh2 & -> & -> & Hr2 & Hi2 & Hs2 & Hb2 & Hm2 & Hend).
    cbn [mbind option_bind]. destruct (IH r2 sh2 es2 Hr2 Hi2) as (es3 & es4 & r3 & sh3 & -> & -> & Hr3 & Hi3 & Hs3 & Hb3 & Hm3 & Hend').
    exists (es1 ++ es3), es4, r3, sh3. rewrite <- app_assoc, foldl_app, length_app.
    split_and!; try done; [by rewrite Hs3, Hs2|by eapply bumped_trans|by rewrite Hm3, Hm2|].
    intros _ E. destruct chunks; [|by apply Hend']. rewrite E in Hend. by pose proof (Hend eq_refl) as []%app_nil.
Qed.
End reader.

(** ** The subscriber *)

Section calls.
Context {S K : Type} `{WireStream S} `{!Aead K}.
Implicit Types s : SubSocket S K.

(** A call of [subscribe] or [unsubscribe]. *)
Definition sub_call s (e : SubscriptionEvent) : outcome unit * SubSocket S K :=
  match e with Subscribe p => sub_subscribe s p | Unsubscribe p => sub_unsubscribe s p end.

Fixpoint sub_calls s (es : list SubscriptionEvent) : outcome unit * SubSocket S K :=
  match es with
  | [] => (Returned (Ok tt), s)
  | e :: es => await! _u, s := sub_call s e in sub_calls s es
  end.

Definition same_prefixes (l l' : list bytes) : Prop := forall p, p ∈ l <-> p ∈ l'.

Lemma sub_call_sending s sent queued e :
  reliable (S := S) -> sending (sub_base s) sent queued ->
  exists s', sub_call s e = (Returned (Ok tt), s') /\ sending (sub_base s') (sent ++ event_wire e) queued /\
    same_prefixes (subs_after (sub_prefixes s) e) (sub_prefixes s').
Proof.
  intros Hrel Hs. destruct (send_sub_event_sending _ sent queued e Hrel Hs) as (b' & E & Hb & _).
  destruct e as [p|p]; cbn [sub_call event_prefix subs_after] in *.
  - unfold sub_subscribe. rewrite E. case_bool_decide as Hp; cbn [negb await_bind set_sub_base sub_base sub_frames sub_prefixes].
    + eexists. by split_and!.
    + eexists. split_and!; [done|done|]. intros q. unfold sort_bytes. cbn. by rewrite merge_sort_Permutation.
  - unfold sub_unsubscribe. cbn [sub_base]. rewrite E. eexists. by split_and!.
Qed.

Lemma subs_after_same l l' e : same_prefixes l l' -> same_prefixes (subs_after l e) (subs_after l' e).
Proof.
  intros Hl q. destruct e as [p|p]; cbn [subs_after].
  - rewrite (bool_decide_ext (p ∈ l) (p ∈ l')) by apply Hl. case_bool_decide; [apply Hl|].
    by rewrite !elem_of_app, (Hl q).
  - by rewrite !list_elem_of_filter, (Hl q).
Qed.

Lemma foldl_same es l l' : same_prefixes l l' -> same_prefixes (foldl subs_after l es) (foldl subs_after l' es).
Proof. revert l l'. induction es as [|e es IH]; intros l l' Hl; [done|]. cbn [foldl]. by apply IH, subs_after_same. Qed.

Lemma sub_calls_sending es s sent queued :
  reliable (S := S) -> sending (sub_base s) sent queued ->
  exists s', sub_calls s es = (Returned (Ok tt), s') /\ sending (sub_base s') (sent ++ events_wire es) queued /\
    same_prefixes (foldl subs_after (sub_prefixes s) es) (sub_prefixes s').
Proof.
  intros Hrel. revert s sent. induction es as [|e es IH]; intros s sent Hs; cbn [sub_calls].
  - exists s. split_and!; [done|by rewrite app_nil_r|done].
  - destruct (sub_call_sending s sent queued e Hrel Hs) as (s1 & -> & Hs1 & Hp1). cbn [await_bind].
    destruct (IH s1 _ Hs1) as (s2 & -> & Hs2 & Hp2). exists s2. split_and!; [done| |].
    + unfold events_wire in *. cbn [fmap list_fmap concat]. by rewrite app_assoc.
    + intros q. rewrite <- (Hp2 q). cbn [foldl]. by apply foldl_same.
Qed.

Lemma same_prefixes_nil l l' : same_prefixes l l' -> l = [] -> l' = [].
Proof. intros Hl ->. destruct l' as [|p l']; [done|]. by destruct (not_elem_of_nil p); apply Hl; left. Qed.

(** The two filters agree on the same subscriptions. *)
Lemma filters_same l l' topic rest :
  same_prefixes l l' -> worker_matches l (topic :: rest) = sub_matches l' (topic :: rest).
Proof.
  intros Hl. apply eq_true_iff_eq. rewrite worker_matches_spec. cbn [sub_matches].
  rewrite orb_true_iff, bool_decide_eq_true, existsb_exists. split.
  - intros [E|(p & Hp & Hpre)]; [left; by apply (same_prefixes_nil l)|right]. exists p.
    by rewrite <- list_elem_of_In, <- (Hl p), starts_with_spec.
  - intros [E|(p & Hp & Hpre)]; [left; apply (same_prefixes_nil l'); [by intros q; rewrite (Hl q)|done]|right].
    exists p. by rewrite (Hl p), list_elem_of_In, <- starts_with_spec.
Qed.
End calls.

(** C5: subscriber and publisher agree.  Whatever calls of [subscribe] and
    [unsubscribe] a SUB socket makes on a fresh plaintext connection whose writes
    complete (duplicates and unknown prefixes included; prefixes within the
    publisher's frame limit), and in whatever pieces the publisher's reader
    receives the bytes they put on the wire, the reader ends with exactly the
    subscriptions of the socket; the publisher then selects for it exactly the
    messages the socket's own filter accepts, and the shared union remains
    that of all subscribers. *)
Theorem subscriptions_synchronised {S K : Type} `{WireStream S} `{!Aead K} (s : SubSocket S K)
    (es : list SubscriptionEvent) (sent : bytes) (m : Z) (chunks : list bytes) (others : list (list bytes))
    (sh : SharedSubscriptions) :
  reliable (S := S) -> sending (sub_base s) sent [] -> sub_prefixes s = [] ->
  Forall (event_fits m) es -> union_inv ([] :: others) (shared_union sh) ->
  exists s' str, sub_calls s es = (Returned (Ok tt), s') /\ stream (sub_base s') = Some str /\
    (wire str = sent ++ concat chunks ->
     exists r sh', reader_run (reader_new (K := K) (Some m) None) sh chunks = Some (r, sh') /\
       union_inv (rd_subs r :: others) (shared_union sh') /\
       (forall p, p ∈ rd_subs r <-> p ∈ sub_prefixes s') /\
       forall topic rest, worker_matches (rd_subs r) (topic :: rest) = sub_matches (sub_prefixes s') (topic :: rest)).
Proof.
  intros Hrel Hs Hnil Hfit Hinv. destruct (sub_calls_sending es s sent [] Hrel Hs) as (s' & E & Hs' & Hp).
  destruct Hs' as ((str & Hstr & Hw) & _). exists s', str. split_and!; [done|done|]. rewrite Hw.
  intros Hc%app_inv_head. rewrite Hnil in Hp.
  destruct (reader_run_events chunks [] (reader_new (Some m) None) sh others es)
    as (es1 & es2 & r & sh' & -> & Hrun & _ & Hi & Hsubs & _ & _ & Hend).
  - split; [done|apply segbuf_new_wf|done|done|by rewrite app_nil_r].
  - done.
  - assert (es2 = []) as ->.
    { destruct chunks as [|c chunks]; [|by apply Hend]. cbn in Hc. destruct es1 as [|e es1]; cbn in Hc.
      - destruct es2 as [|e es2]; [done|]. cbn in Hc. apply app_nil in Hc as [Hc _]. by apply event_wire_nonempty in Hc.
      - apply app_nil in Hc as [Hc _]. by apply event_wire_nonempty in Hc. }
    rewrite app_nil_r in Hp. cbn in Hsubs. rewrite <- Hsubs in Hp. exists r, sh'. split_and!; [done|done|done|].
    intros topic rest. by apply filters_same.
Qed.

Definition sync_events : list SubscriptionEvent :=
  [Subscribe (ascii_bytes "b"); Subscribe (ascii_bytes "a"); Subscribe (ascii_bytes "b"); Unsubscribe (ascii_bytes "b");
   Unsubscribe (ascii_bytes "zz")].

Definition sync_sub : SubSocket SinkStream unit := mk_sub (base_new (mk_sink []) default_options) [] [].

(** The bytes arrive one by one. *)
Lemma subscriptions_synchronised_witness :
  exists r u', reader_run (reader_new (Some 100) (@None (CurveMessageCipher unit))) (mk_shared (union_add_subscriber union_default) 1)
      ((λ b, [b]) <$> events_wire sync_events) = Some (r, u') /\
    rd_subs r = [ascii_bytes "a"] /\ worker_matches (rd_subs r) [ascii_bytes "abc"] = true.
Proof.
  destruct (subscriptions_synchronised sync_sub sync_events [] 100 ((λ b, [b]) <$> events_wire sync_events) []
    (mk_shared (union_add_subscriber union_default) 1)) as (s' & str & E & Hstr & Hsync).
  - split; reflexivity.
  - unfold sending. split_and!; [exists (mk_sink []); split; reflexivity|reflexivity..].
  - reflexivity.
  - repeat constructor; vm_compute; discriminate.
  - split; [repeat constructor|constructor|reflexivity|]. intros p. reflexivity.
  - vm_compute in E. injection E as <-. vm_compute in Hstr. injection Hstr as <-.
    destruct (Hsync ltac:(vm_compute; reflexivity)) as (r & u' & Hrun & _ & _ & Hf). exists r, u'.
    split; [exact Hrun|]. split; [|rewrite Hf; vm_compute; reflexivity].
    vm_compute in Hrun. injection Hrun as <- _. reflexivity.
Defined.
