(* ===== verification/XPub.v ===== *)
(** * The XPUB socket

    monocoque-zmtp/src/xpub.rs: a publisher that reads the subscription events
    of its subscribers itself, reports them to the application (each one, or
    only the first subscription and the last cancellation of a topic), and
    sends to each subscriber the messages its own subscriptions select.

    [subscribers] is a hash map: the list is in the order of its iteration, on
    which no statement depends.  Reading from a subscriber is bounded by a timer
    of one millisecond: a stalled read is skipped. *)

From S2P Require Import Prelude.
From S2P Require Import ByteOrder.
From S2P Require Import SegBuffer.
From S2P Require Import Codec.
From S2P Require Import Options.
From S2P Require Import Subscription.
From S2P Require Import CurveMessage.
From S2P Require Import Stream.
From S2P Require Import Base.
From S2P Require Import BaseWire.
From S2P Require Import Recv.
From S2P Require Import Pipeline.
From S2P Require Import Subscriber.
From S2P Require Import Publisher.
From S2P Require Import PubSubSync.

(** ** Counting topics *)

(** [topic_refcount] and [seen_topics]. *)
Record Topics := mk_topics {
  topic_refcount : gmap bytes Z;
  seen_topics : gset bytes;
}.

(** The count, a [usize], after [*entry.or_insert(0) += 1]. *)
Definition count_subscribe (t : Topics) (key : bytes) : Z * gmap bytes Z :=
  let count := (default 0 (topic_refcount t !! key) + 1) mod 2 ^ 64 in (count, <[key := count]> (topic_refcount t)).

(** The count after [or_insert(0)] and [if *count > 0 { *count -= 1 }]. *)
Definition count_unsubscribe (t : Topics) (key : bytes) : Z * gmap bytes Z :=
  let count := default 0 (topic_refcount t !! key) in
  let count := if 0 <? count then count - 1 else count in
  (count, <[key := count]> (topic_refcount t)).

(** What an event does to the topics, and whether it is delivered. *)
Definition topic_event (verbose : bool) (t : Topics) (e : SubscriptionEvent) : bool * Topics :=
  match e with
  | Subscribe key =>
      let '(count, rc) := count_subscribe t key in
      if verbose then (true, mk_topics rc ({[key]} ∪ seen_topics t))
      else if count =? 1 then (true, mk_topics rc ({[key]} ∪ seen_topics t))
      else (false, mk_topics rc (seen_topics t))
  | Unsubscribe key =>
      let '(count, rc) := count_unsubscribe t key in
      if count =? 0 then (true, mk_topics (delete key rc) (seen_topics t ∖ {[key]}))
      else (verbose, mk_topics rc (seen_topics t))
  end.

Definition trie_event (t : SubscriptionTrie) (e : SubscriptionEvent) : SubscriptionTrie :=
  match e with Subscribe p => trie_subscribe t p | Unsubscribe p => trie_unsubscribe t p end.

(** ** The socket *)

Section xpub.
Context {S K : Type} `{AsyncStream S} `{Aead K}.

Record XPubSubscriber := mk_xsubscriber {
  xs_id : Z;
  xs_stream : S;
  xs_subscriptions : SubscriptionTrie;
  xs_recv_buf : SegmentedBuffer;
  xs_decoder : ZmtpDecoder;
  xs_cipher : option (CurveMessageCipher K);
}.

Definition set_xs_stream (x : XPubSubscriber) (s : S) : XPubSubscriber :=
  mk_xsubscriber (xs_id x) s (xs_subscriptions x) (xs_recv_buf x) (xs_decoder x) (xs_cipher x).
Definition set_xs_cipher (x : XPubSubscriber) (c : option (CurveMessageCipher K)) : XPubSubscriber :=
  mk_xsubscriber (xs_id x) (xs_stream x) (xs_subscriptions x) (xs_recv_buf x) (xs_decoder x) c.
Definition set_xs_decoder (x : XPubSubscriber) (d : ZmtpDecoder) (b : SegmentedBuffer) : XPubSubscriber :=
  mk_xsubscriber (xs_id x) (xs_stream x) (xs_subscriptions x) b d (xs_cipher x).
Definition set_xs_subscriptions (x : XPubSubscriber) (t : SubscriptionTrie) : XPubSubscriber :=
  mk_xsubscriber (xs_id x) (xs_stream x) t (xs_recv_buf x) (xs_decoder x) (xs_cipher x).

(** [XPubSubscriber::matches]. *)
Definition xs_matches (x : XPubSubscriber) (msg : list bytes) : bool :=
  match msg with first_frame :: _ => trie_matches (xs_subscriptions x) first_frame | [] => false end.

Record XPubSocket := mk_xpub {
  xp_subscribers : list XPubSubscriber;
  xp_next_id : Z;
  xp_options : SocketOptions;
  pending_events : list SubscriptionEvent;
  upstream : option (XSubSocket S K);
  xp_topics : Topics;
}.

(** [bind_with_options] once the listener is bound. *)
Definition xpub_bind (o : SocketOptions) : XPubSocket := mk_xpub [] 1 o [] None (mk_topics ∅ ∅).

(** What [accept] writes as the welcome message; an encryption error ends it. *)
Definition welcome_wire (welcome_msg : bytes) (c : option (CurveMessageCipher K)) : io_result bytes * option (CurveMessageCipher K) :=
  match c with
  | Some c =>
      match encrypt_frame c welcome_msg false with
      | (Ok body, c) => (Ok (append_zmtp_cmd_frame [] body), Some c)
      | (Err _, c) => (Err InvalidData, Some c)
      end
  | None => (Ok (encode_multipart [welcome_msg] []), None)
  end.

(** [subscribers.insert]: whoever had the id is replaced. *)
Definition subscribers_insert (xs : list XPubSubscriber) (x : XPubSubscriber) : list XPubSubscriber :=
  filter (λ y, xs_id y <> xs_id x) xs ++ [x].

(** [accept] of a connection [s] whose handshake has completed; a welcome
    message that cannot be written is only logged, one whose write stalls keeps
    the caller waiting. *)
Definition xpub_accept (p : XPubSocket) (s : S) (c : option (CurveMessageCipher K)) : outcome unit * XPubSocket :=
  let id := xp_next_id p in
  let p := mk_xpub (xp_subscribers p) ((id + 1) mod 2 ^ 64) (xp_options p) (pending_events p) (upstream p) (xp_topics p) in
  let add s c :=
    let x := mk_xsubscriber id s trie_new segbuf_new (base_decoder (xp_options p)) c in
    (Returned (Ok tt), mk_xpub (subscribers_insert (xp_subscribers p) x) (xp_next_id p) (xp_options p) (pending_events p) (upstream p) (xp_topics p)) in
  match xpub_welcome_msg (xp_options p) with
  | None => add s c
  | Some welcome_msg =>
      match welcome_wire welcome_msg c with
      | (Err e, _) => (Returned (Err e), p)
      | (Ok w, c) =>
          let '(done, s) := stream_write_all s w in
          match done with
          | Completed _ => add s c
          | Stalled => (Pending, p)
          end
      end
  end.

(** The state of [recv_subscription]'s loops: the subscriber at hand, the topics
    and the events to deliver. *)
Definition poll_state : Type := XPubSubscriber * Topics * list SubscriptionEvent.

(** A PING is answered at once. *)
Definition answer_ping (x : XPubSubscriber) (body : bytes) : completion unit * XPubSubscriber :=
  if is_ping_payload body then
    let '(c, s) := stream_write_all (xs_stream x) build_pong_frame in (c, set_xs_stream x s)
  else (Completed (Ok tt), x).

(** The payload of a frame; [Ok None] skips it ([continue]), [Stalled] is the
    PONG whose write does not complete. *)
Definition frame_payload (x : XPubSubscriber) (frame : ZmtpFrame) : completion (option bytes) * XPubSubscriber :=
  let skip x := let '(c, x) := answer_ping x (payload frame) in
    (match c with Completed _ => Completed (Ok None) | Stalled => Stalled end, x) in
  if is_command frame then
    match xs_cipher x with
    | Some c =>
        if is_curve_message (payload frame) then
          match decrypt_frame c (payload frame) with
          | (Ok (_, data), c) => (Completed (Ok (Some data)), set_xs_cipher x (Some c))
          | (Err _, c) => (Completed (Ok None), set_xs_cipher x (Some c))
          end
        else skip x
    | None => skip x
    end
  else (Completed (Ok (Some (payload frame))), x).

(** The effect of one event. *)
Definition poll_event (verbose : bool) (st : poll_state) (e : SubscriptionEvent) : poll_state :=
  let '(x, t, evs) := st in
  let x := set_xs_subscriptions x (trie_event (xs_subscriptions x) e) in
  let '(deliver, t) := topic_event verbose t e in
  (x, t, if deliver then evs ++ [e] else evs).

(** The decode loop after a read: [true] when it ended, [false] when it waits
    for the write of a PONG.  [None] is a panic or exhausted fuel. *)
Fixpoint xpub_drain (verbose : bool) (fuel : nat) (st : poll_state) : option (bool * poll_state) :=
  match fuel with
  | O => None
  | Datatypes.S fuel =>
      let '(x, t, evs) := st in
      '(res, d, buf) ← decode (xs_decoder x) (xs_recv_buf x);
      let x := set_xs_decoder x d buf in
      match res with
      | Ok (Some frame) =>
          match frame_payload x frame with
          | (Completed (Ok (Some data)), x) =>
              match from_message data with
              | Some e => xpub_drain verbose fuel (poll_event verbose (x, t, evs) e)
              | None => xpub_drain verbose fuel (x, t, evs)
              end
          | (Completed _, x) => xpub_drain verbose fuel (x, t, evs)
          | (Stalled, x) => Some (false, (x, t, evs))
          end
      | Ok None | Err _ => Some (true, (x, t, evs))
      end
  end.

(** One subscriber's turn.  A read that fails, finds EOF or stalls is ignored. *)
Definition poll_subscriber (verbose : bool) (st : poll_state) : option (bool * poll_state) :=
  let '(x, t, evs) := st in
  let '(c, s) := stream_read (xs_stream x) 256 in
  let x := set_xs_stream x s in
  match c with
  | Completed (Ok (b :: bs)) =>
      let x := set_xs_decoder x (xs_decoder x) (push (xs_recv_buf x) (b :: bs)) in
      xpub_drain verbose (length (flat (xs_recv_buf x)) + length (staging (xs_decoder x)) + 10) (x, t, evs)
  | _ => Some (true, (x, t, evs))
  end.

(** [for sub in self.subscribers.values_mut()]. *)
Fixpoint poll_all (verbose : bool) (xs : list XPubSubscriber) (t : Topics) (evs : list SubscriptionEvent)
    : option (bool * list XPubSubscriber * Topics * list SubscriptionEvent) :=
  match xs with
  | [] => Some (true, [], t, evs)
  | x :: xs =>
      match poll_subscriber verbose (x, t, evs) with
      | None => None
      | Some (true, (x, t, evs)) =>
          '(ended, xs, t, evs) ← poll_all verbose xs t evs; Some (ended, x :: xs, t, evs)
      | Some (false, (x, t, evs)) => Some (false, x :: xs, t, evs)
      end
  end.

Definition take_event (p : XPubSocket) : outcome (option SubscriptionEvent) * XPubSocket :=
  match pending_events p with
  | [] => (Returned (Ok None), p)
  | e :: evs => (Returned (Ok (Some e)), mk_xpub (xp_subscribers p) (xp_next_id p) (xp_options p) evs (upstream p) (xp_topics p))
  end.

Definition recv_subscription (p : XPubSocket) : option (outcome (option SubscriptionEvent) * XPubSocket) :=
  match pending_events p with
  | _ :: _ => Some (take_event p)
  | [] =>
      match poll_all (xpub_verbose (xp_options p)) (xp_subscribers p) (xp_topics p) (pending_events p) with
      | None => None
      | Some (ended, xs, t, evs) =>
          let p := mk_xpub xs (xp_next_id p) (xp_options p) evs (upstream p) t in
          if ended then Some (take_event p) else Some (Pending, p)
      end
  end.

(** The bytes for one subscriber; [None] when encryption fails. *)
Definition xpub_wire (x : XPubSubscriber) (msg : list bytes) : option bytes * XPubSubscriber :=
  match xs_cipher x with
  | Some c =>
      match curve_encode c msg 0 (Z.max 0 (len msg - 1)) [] with
      | (Ok _, c, buf) => (Some buf, set_xs_cipher x (Some c))
      | (Err _, c, _) => (None, set_xs_cipher x (Some c))
      end
  | None => (Some (encode_multipart msg []), x)
  end.

(** [send]'s loop; the dead are dropped after it.  The write to a subscriber has
    no timer: when it stalls, so does the caller. *)
Fixpoint xpub_send_loop (xs : list XPubSubscriber) (msg : list bytes) (dead : list Z)
    : bool * list XPubSubscriber * list Z :=
  match xs with
  | [] => (true, [], dead)
  | x :: xs =>
      if negb (xs_matches x msg) then
        let '(ended, xs, dead) := xpub_send_loop xs msg dead in (ended, x :: xs, dead)
      else match xpub_wire x msg with
      | (None, x) => let '(ended, xs, dead) := xpub_send_loop xs msg (dead ++ [xs_id x]) in (ended, x :: xs, dead)
      | (Some w, x) =>
          let '(c, s) := stream_write_all (xs_stream x) w in
          let x := set_xs_stream x s in
          match c with
          | Completed (Ok _) => let '(ended, xs, dead) := xpub_send_loop xs msg dead in (ended, x :: xs, dead)
          | Completed (Err _) => let '(ended, xs, dead) := xpub_send_loop xs msg (dead ++ [xs_id x]) in (ended, x :: xs, dead)
          | Stalled => (false, x :: xs, dead)
          end
      end
  end.

Definition xpub_send (p : XPubSocket) (msg : list bytes) : outcome unit * XPubSocket :=
  let put xs := mk_xpub xs (xp_next_id p) (xp_options p) (pending_events p) (upstream p) (xp_topics p) in
  match xpub_send_loop (xp_subscribers p) msg [] with
  | (true, xs, dead) => (Returned (Ok tt), put (filter (λ x, xs_id x ∉ dead) xs))
  | (false, xs, _) => (Pending, put xs)
  end.

Definition xpub_events (p : XPubSocket) : Z :=
  Z.lor (if bool_decide (pending_events p = []) then 0 else 1) (if bool_decide (xp_subscribers p = []) then 0 else 2).

Definition set_verbose (p : XPubSocket) (v : bool) : XPubSocket :=
  let o := xp_options p in
  mk_xpub (xp_subscribers p) (xp_next_id p) (o <| xpub_verbose := v |>) (pending_events p) (upstream p) (xp_topics p).
Definition set_manual (p : XPubSocket) (v : bool) : XPubSocket :=
  let o := xp_options p in
  mk_xpub (xp_subscribers p) (xp_next_id p) (o <| xpub_manual := v |>) (pending_events p) (upstream p) (xp_topics p).

Definition send_subscription (p : XPubSocket) (e : SubscriptionEvent) : outcome unit * XPubSocket :=
  if negb (xpub_manual (xp_options p)) then (Returned (Err InvalidInput), p)
  else match upstream p with
  | None => (Returned (Err NotConnected), p)
  | Some up =>
      let '(o, up) := send_subscription_event up e in
      (o, mk_xpub (xp_subscribers p) (xp_next_id p) (xp_options p) (pending_events p) (Some up) (xp_topics p))
  end.

(** [connect_upstream], with what [XSubSocket::connect] returned. *)
Definition connect_upstream (p : XPubSocket) (connected : io_result (XSubSocket S K)) : io_result unit * XPubSocket :=
  match connected with
  | Err e => (Err e, p)
  | Ok x => (Ok tt, mk_xpub (xp_subscribers p) (xp_next_id p) (xp_options p) (pending_events p) (Some x) (xp_topics p))
  end.

(** [Socket::recv]: an event as a message. *)
Definition xpub_recv (p : XPubSocket) : option (outcome (option (list bytes)) * XPubSocket) :=
  '(o, p) ← recv_subscription p;
  Some (match o with
        | Returned (Ok (Some e)) => Returned (Ok (Some [to_message e]))
        | Returned (Ok None) => Returned (Ok None)
        | Returned (Err e) => Returned (Err e)
        | Pending => Pending
        | Panicked => Panicked
        end, p).
End xpub.
#[global] Arguments XPubSubscriber : clear implicits.
#[global] Arguments XPubSocket : clear implicits.

(** ** Events in pieces *)

Section polling.
Context {S K : Type} `{ChunkStream S} `{!Aead K} (verbose : bool).
Implicit Types x : XPubSubscriber S K.

(** A plaintext subscriber from which, counting the bytes still to come, the
    events [es] have yet to be read. *)
Record polling x (later : bytes) (es : list SubscriptionEvent) : Prop := {
  pl_decoder : decoder_wf (xs_decoder x);
  pl_buf : segbuf_wf (xs_recv_buf x);
  pl_plain : xs_cipher x = None;
  pl_fits : Forall (event_fits (max_frame_size (xs_decoder x))) es;
  pl_bytes : logical (xs_decoder x) (xs_recv_buf x) ++ later = events_wire es;
}.

(** The subscriber apart from its subscriptions. *)
Definition same_link x x' : Prop := xs_id x' = xs_id x /\ xs_stream x' = xs_stream x.

(** What events do depends on the subscriptions alone. *)
Definition poll_view (st : poll_state (S := S) (K := K)) : SubscriptionTrie * Topics * list SubscriptionEvent :=
  let '(x, t, evs) := st in (xs_subscriptions x, t, evs).

Lemma poll_event_view st st' e : poll_view st = poll_view st' -> poll_view (poll_event verbose st e) = poll_view (poll_event verbose st' e).
Proof.
  destruct st as [[x t] evs], st' as [[x' t'] evs']. cbn. intros [= E -> ->].
  destruct (topic_event verbose t' e). cbn. by rewrite E.
Qed.

Lemma poll_fold_view es st st' :
  poll_view st = poll_view st' -> poll_view (foldl (poll_event verbose) st es) = poll_view (foldl (poll_event verbose) st' es).
Proof. revert st st'. induction es as [|e es IH]; intros st st' E; [done|]. cbn [foldl]. by apply IH, poll_event_view. Qed.

Lemma xpub_drain_events fuel x t evs later es :
  polling x later es -> (length (logical (xs_decoder x) (xs_recv_buf x)) < fuel)%nat ->
  exists es1 es2 x' t' evs', es = es1 ++ es2 /\ xpub_drain verbose fuel (x, t, evs) = Some (true, (x', t', evs')) /\
    polling x' later es2 /\ same_link x x' /\
    poll_view (x', t', evs') = poll_view (foldl (poll_event verbose) (x, t, evs) es1) /\
    (later = [] -> es2 = []).
Proof.
  revert x t evs es. induction fuel as [|fuel IH]; intros x t evs es [Hd Hb Hc Hfits Hbytes] Hfuel; [lia|].
  cbn [xpub_drain]. destruct es as [|e es].
  - cbn in Hbytes. apply app_nil in Hbytes as [Hl ->].
    destruct (decode_nothing _ _ Hd Hb Hl) as (d' & src' & -> & Hd' & Hb' & Hm & Hl'). cbn [mbind option_bind].
    eexists [], [], _, t, evs. split_and!; [done|done| |done|done|done]. split; cbn; [done..|by rewrite Hl'].
  - apply list.Forall_cons in Hfits as [He Hfits]. unfold events_wire in Hbytes.
    cbn [fmap list_fmap concat] in Hbytes. rewrite event_wire_frame in Hbytes.
    destruct (decode_next _ _ _ _ _ Hd Hb (event_frame_plain _ _ He) Hbytes)
      as (res & d' & src' & -> & Hd' & Hb' & Hm & Hres). cbn [mbind option_bind].
    set (x1 := set_xs_decoder x d' src'). destruct res as [f|].
    + destruct Hres as (-> & Hlater & Hlt). unfold frame_payload.
      destruct (frame_data_flags (to_message e) false) as (_ & _ & _ & Hcmd). fold (event_frame e) in Hcmd.
      rewrite Hcmd. cbn [payload event_frame frame_data]. rewrite from_to_message.
      cbn [poll_event foldl]. destruct (topic_event verbose t e) as [dl t1] eqn:Et.
      destruct (IH (set_xs_subscriptions x1 (trie_event (xs_subscriptions x1) e)) t1 (if dl then evs ++ [e] else evs) es)
        as (es1 & es2 & x' & t' & evs' & -> & Hrun & Hp' & Hl' & Hfold & Hend).
      * by split; cbn; rewrite ?Hm.
      * cbn. lia.
      * exists (e :: es1), es2, x', t', evs'. split_and!; [done|exact Hrun|done|done| |done].
        rewrite Hfold. cbn [foldl poll_event]. rewrite Et. by apply poll_fold_view.
    + destruct Hres as (Hlog & Hl). exists [], (e :: es), x1, t, evs. split_and!; [done|done| |done|done|done].
      split; cbn; rewrite ?Hm, ?Hlog; [done..|by constructor|]. by rewrite Hbytes, <- event_wire_frame.
Qed.

Lemma poll_subscriber_events x t evs c cs es :
  incoming (xs_stream x) = c :: cs -> c <> [] -> polling x (c ++ concat cs) es ->
  exists es1 es2 x' t' evs', es = es1 ++ es2 /\ poll_subscriber verbose (x, t, evs) = Some (true, (x', t', evs')) /\
    polling x' (concat cs) es2 /\ incoming (xs_stream x') = cs /\
    poll_view (x', t', evs') = poll_view (foldl (poll_event verbose) (x, t, evs) es1) /\
    (cs = [] -> es2 = []).
Proof.
  intros Hi Hc Hp. unfold poll_subscriber. pose proof (read_chunk (xs_stream x) 256) as Hread. rewrite Hi in Hread.
  destruct (stream_read (xs_stream x) 256) as [c1 s1]. cbn [fst snd] in Hread. destruct Hread as [-> Hs1].
  destruct c as [|b bs]; [done|]. set (x1 := set_xs_decoder _ _ _). set (n := (_ + _)%nat).
  assert (Hp1 : polling x1 (concat cs) es).
  { destruct Hp as [H1 H2 H3 H4 H5]. split; cbn -[push logical]; [done|by apply push_wf|done|done|].
    by rewrite logical_push, <- app_assoc. }
  destruct (xpub_drain_events n x1 t evs (concat cs) es Hp1) as (es1 & es2 & x' & t' & evs' & -> & -> & Hp' & (_ & Hstr) & Hv & Hend).
  { apply logical_fuel. }
  exists es1, es2, x', t', evs'. split_and!; [done|done|done|by rewrite Hstr| |by intros ->; apply Hend].
  rewrite Hv. by apply poll_fold_view.
Qed.

(** [n] rounds of reading from one subscriber. *)
Fixpoint poll_times (n : nat) (st : poll_state (S := S) (K := K)) : option poll_state :=
  match n with
  | O => Some st
  | Datatypes.S n => match poll_subscriber verbose st with Some (true, st) => poll_times n st | _ => None end
  end.

Lemma poll_times_events cs x t evs es :
  incoming (xs_stream x) = cs -> Forall (λ c, c <> []) cs -> polling x (concat cs) es -> cs <> [] ->
  exists x' t' evs', poll_times (length cs) (x, t, evs) = Some (x', t', evs') /\
    poll_view (x', t', evs') = poll_view (foldl (poll_event verbose) (x, t, evs) es).
Proof.
  revert x t evs es. induction cs as [|c cs IH]; intros x t evs es Hi Hall Hp Hne; [done|].
  apply list.Forall_cons in Hall as [Hc Hall]. cbn [concat length poll_times] in *.
  destruct (poll_subscriber_events x t evs c cs es Hi Hc Hp) as (es1 & es2 & x1 & t1 & evs1 & -> & -> & Hp1 & Hi1 & Hv1 & Hend).
  rewrite foldl_app. destruct cs as [|c' cs].
  - rewrite (Hend eq_refl). cbn. by eexists _, _, _.
  - destruct (IH x1 t1 evs1 es2 Hi1 Hall Hp1 ltac:(done)) as (x2 & t2 & evs2 & Hrun & Hv2). eexists _, _, _. split; [exact Hrun|].
    rewrite Hv2. by apply poll_fold_view.
Qed.
End polling.

(** ** Counting *)

Section counting.
Context {S K : Type}.
Implicit Types x : XPubSubscriber S K.

Definition topics_of x : list bytes := prefixes (xs_subscriptions x).

(** Every topic is counted once per subscriber that holds it, and is seen when
    one does. *)
Record counted (xs : list (XPubSubscriber S K)) (t : Topics) : Prop := {
  ct_count p : topic_refcount t !! p =
    if bool_decide (holders p (topics_of <$> xs) = 0%nat) then None else Some (Z.of_nat (holders p (topics_of <$> xs)));
  ct_seen p : p ∈ seen_topics t <-> holders p (topics_of <$> xs) <> 0%nat;
}.

Lemma counted_perm xs xs' t : xs ≡ₚ xs' -> counted xs t -> counted xs' t.
Proof.
  intros E [H1 H2]. assert (Hh : forall p, holders p (topics_of <$> xs') = holders p (topics_of <$> xs)).
  { intros p. unfold holders. by rewrite E. }
  split; intros p; rewrite Hh; [apply H1|apply H2].
Qed.

(** An event that changes the subscriptions of the subscriber it comes from. *)
Definition effective x (e : SubscriptionEvent) : Prop :=
  match e with Subscribe p => p ∉ topics_of x | Unsubscribe p => p ∈ topics_of x end.

(** The events as the application applies them to the set of topics it knows:
    none is redundant. *)
Definition replay_event (s : gset bytes) (e : SubscriptionEvent) : option (gset bytes) :=
  match e with
  | Subscribe p => if bool_decide (p ∈ s) then None else Some ({[p]} ∪ s)
  | Unsubscribe p => if bool_decide (p ∈ s) then Some (s ∖ {[p]}) else None
  end.

Fixpoint replay (s : gset bytes) (es : list SubscriptionEvent) : option (gset bytes) :=
  match es with [] => Some s | e :: es => s ← replay_event s e; replay s es end.

Lemma replay_snoc s es e : replay s (es ++ [e]) = s' ← replay s es; replay_event s' e.
Proof.
  revert s. induction es as [|e' es IH]; intros s; cbn; [by destruct (replay_event s e)|].
  destruct (replay_event s e'); [apply IH|done].
Qed.

(** The holders of a topic when [x], among [others], holds [l]. *)
Lemma holders_among x others (l : list bytes) q :
  topics_of x = l ->
  holders q (topics_of <$> (x :: others)) = ((if bool_decide (q ∈ l) then 1 else 0) + holders q (topics_of <$> others))%nat.
Proof. intros <-. apply holders_cons. Qed.

Lemma holders_other x x' others q :
  (q ∈ topics_of x' <-> q ∈ topics_of x) -> holders q (topics_of <$> (x' :: others)) = holders q (topics_of <$> (x :: others)).
Proof. intros E. rewrite !(holders_among _ _ _ _ eq_refl). by rewrite (bool_decide_ext _ _ E). Qed.

Definition after_event x (e : SubscriptionEvent) : XPubSubscriber S K :=
  set_xs_subscriptions x (trie_event (xs_subscriptions x) e).

Lemma holders_le p xs : (holders p (topics_of <$> xs) <= length xs)%nat.
Proof. unfold holders. etrans; [apply length_filter|]. by rewrite length_fmap. Qed.

Lemma subscribe_counted x others t p :
  counted (x :: others) t -> p ∉ topics_of x -> Z.of_nat (length others) + 1 < 2 ^ 64 ->
  let '(deliver, t') := topic_event false t (Subscribe p) in
  counted (after_event x (Subscribe p) :: others) t' /\
  (if deliver then replay_event (seen_topics t) (Subscribe p) = Some (seen_topics t') else seen_topics t' = seen_topics t).
Proof.
  intros [Hc Hs] Hnew Hfew. cbn [topic_event]. unfold count_subscribe. pose proof (holders_le p others) as Hle. pose proof (Hc p) as Hp. pose proof (Hs p) as Hsp.
  rewrite (holders_among _ _ _ _ eq_refl), (bool_decide_eq_false_2 (p ∈ topics_of x)) in Hp, Hsp by done.
  cbn [Nat.add] in Hp, Hsp. set (n := holders p (topics_of <$> others)) in *. rewrite Hp.
  assert (Hd : default 0 (if bool_decide (n = 0%nat) then None else Some (Z.of_nat n)) = Z.of_nat n).
  { case_bool_decide as E; [by rewrite E|done]. }
  assert (Hin : forall q, q ∈ topics_of (after_event x (Subscribe p)) <-> q = p \/ q ∈ topics_of x).
  { intros q. apply btree_insert_elem. }
  assert (Hself : holders p (topics_of <$> (after_event x (Subscribe p) :: others)) = Datatypes.S n).
  { rewrite (holders_among _ _ _ _ eq_refl), bool_decide_eq_true_2; [done|]. apply Hin. by left. }
  rewrite Hd, Z.mod_small by lia. assert (Hcount : forall seen, (forall q, q ∈ seen <-> q = p \/ q ∈ seen_topics t) ->
    counted (after_event x (Subscribe p) :: others) (mk_topics (<[p := Z.of_nat n + 1]> (topic_refcount t)) seen)).
  { intros seen Hseen. split; intros q; cbn [topic_refcount seen_topics]; [|rewrite Hseen];
      (destruct (decide (q = p)) as [->|Hq]; [rewrite Hself|rewrite (holders_other x) by (rewrite Hin; naive_solver)]).
    - rewrite lookup_insert_eq. cbn. f_equal. lia.
    - by rewrite lookup_insert_ne, Hc by congruence.
    - naive_solver.
    - rewrite <- Hs. naive_solver. }
  destruct (Z.eqb_spec (Z.of_nat n + 1) 1) as [E|E].
  - split; [apply Hcount; set_solver|]. cbn. rewrite bool_decide_eq_false_2; [done|]. rewrite Hsp. lia.
  - split; [apply Hcount|done]. intros q. split; [by right|]. intros [->|?]; [|done]. apply Hsp. lia.
Qed.

Lemma unsubscribe_counted x others t p :
  counted (x :: others) t -> p ∈ topics_of x ->
  let '(deliver, t') := topic_event false t (Unsubscribe p) in
  counted (after_event x (Unsubscribe p) :: others) t' /\
  (if deliver then replay_event (seen_topics t) (Unsubscribe p) = Some (seen_topics t') else seen_topics t' = seen_topics t).
Proof.
  intros [Hc Hs] Hold. cbn [topic_event]. unfold count_unsubscribe. pose proof (Hc p) as Hp. pose proof (Hs p) as Hsp.
  rewrite (holders_among _ _ _ _ eq_refl), (bool_decide_eq_true_2 (p ∈ topics_of x)) in Hp, Hsp by done.
  set (n := holders p (topics_of <$> others)) in *. rewrite bool_decide_eq_false_2 in Hp by lia. rewrite Hp.
  cbn [default from_option id]. rewrite (proj2 (Z.ltb_lt 0 _)) by lia.
  replace (Z.of_nat (1 + n) - 1) with (Z.of_nat n) by lia.
  assert (Hin : forall q, q ∈ topics_of (after_event x (Unsubscribe p)) <-> q <> p /\ q ∈ topics_of x).
  { intros q. apply btree_remove_elem. }
  assert (Hself : holders p (topics_of <$> (after_event x (Unsubscribe p) :: others)) = n).
  { rewrite (holders_among _ _ _ _ eq_refl), bool_decide_eq_false_2; [done|]. rewrite Hin. naive_solver. }
  assert (Hcount : forall rc seen, (forall q, q ∈ seen <-> (q <> p \/ n <> 0%nat) /\ q ∈ seen_topics t) ->
    rc !! p = (if bool_decide (n = 0%nat) then None else Some (Z.of_nat n)) ->
    (forall q, q <> p -> rc !! q = topic_refcount t !! q) ->
    counted (after_event x (Unsubscribe p) :: others) (mk_topics rc seen)).
  { intros rc seen Hseen Hrp Hrq. split; intros q; cbn [topic_refcount seen_topics]; [|rewrite Hseen];
      (destruct (decide (q = p)) as [->|Hq]; [rewrite Hself|rewrite (holders_other x) by (rewrite Hin; naive_solver)]).
    - done.
    - by rewrite Hrq, Hc by done.
    - rewrite Hsp. naive_solver lia.
    - rewrite <- Hs. naive_solver. }
  destruct (Z.eqb_spec (Z.of_nat n) 0) as [E|E].
  - split; [apply Hcount|].
    + intros q. rewrite elem_of_difference, elem_of_singleton. naive_solver lia.
    + rewrite lookup_delete_eq, bool_decide_eq_true_2 by lia. done.
    + intros q Hq. by rewrite lookup_delete_ne, lookup_insert_ne by congruence.
    + cbn. rewrite bool_decide_eq_true_2; [done|]. rewrite Hsp. lia.
  - split; [apply Hcount|done].
    + intros q. naive_solver lia.
    + rewrite lookup_insert_eq, bool_decide_eq_false_2 by lia. done.
    + intros q Hq. by rewrite lookup_insert_ne by congruence.
Qed.

(** ** What the application is told *)

(** An event [e] of the subscriber at [i]. *)
Definition xpub_step (st : list (XPubSubscriber S K) * Topics * list SubscriptionEvent) (a : nat * SubscriptionEvent)
    : list (XPubSubscriber S K) * Topics * list SubscriptionEvent :=
  let '(xs, t, evs) := st in
  match xs !! a.1 with
  | None => st
  | Some x => let '(x, t, evs) := poll_event false (x, t, evs) a.2 in (<[a.1 := x]> xs, t, evs)
  end.

(** Every event is effective when it arrives. *)
Fixpoint disciplined (st : list (XPubSubscriber S K) * Topics * list SubscriptionEvent) (acts : list (nat * SubscriptionEvent)) : Prop :=
  match acts with
  | [] => True
  | a :: acts => (exists x, st.1.1 !! a.1 = Some x /\ effective x a.2) /\ disciplined (xpub_step st a) acts
  end.

Lemma xpub_step_counted xs t evs a x :
  counted xs t -> replay ∅ evs = Some (seen_topics t) -> xs !! a.1 = Some x -> effective x a.2 -> len xs < 2 ^ 64 ->
  let '(xs', t', evs') := xpub_step (xs, t, evs) a in
  counted xs' t' /\ replay ∅ evs' = Some (seen_topics t') /\ length xs' = length xs.
Proof.
  intros Hc Hr Hx He Hfew. destruct a as [i e]. cbn [fst snd] in *. cbn [xpub_step fst snd]. rewrite Hx.
  destruct (insert_perm _ _ _ Hx) as (others & Ep & Hins).
  assert (H1 : let '(deliver, t') := topic_event false t e in counted (after_event x e :: others) t' /\
    (if deliver then replay_event (seen_topics t) e = Some (seen_topics t') else seen_topics t' = seen_topics t)).
  { apply (counted_perm _ _ _ Ep) in Hc. destruct e; [|by apply unsubscribe_counted].
    apply subscribe_counted; [done|done|]. apply Permutation_length in Ep. cbn in Ep. unfold len in Hfew. lia. }
  cbn [poll_event]. destruct (topic_event false t e) as [dl t']. destruct H1 as [H1 H2].
  split; [by apply (counted_perm (after_event x e :: others)); [symmetry; apply Hins|]|].
  split; [|by rewrite length_insert]. destruct dl; [by rewrite replay_snoc, Hr|by rewrite H2].
Qed.

Lemma xpub_run_counted acts xs t evs :
  counted xs t -> replay ∅ evs = Some (seen_topics t) -> disciplined (xs, t, evs) acts -> len xs < 2 ^ 64 ->
  let '(xs', t', evs') := foldl xpub_step (xs, t, evs) acts in counted xs' t' /\ replay ∅ evs' = Some (seen_topics t').
Proof.
  revert xs t evs. induction acts as [|a acts IH]; intros xs t evs Hc Hr Hd Hfew; [done|]. cbn [foldl disciplined] in *.
  destruct Hd as [(x & Hx & He) Hd]. pose proof (xpub_step_counted xs t evs a x Hc Hr Hx He Hfew) as H1.
  destruct (xpub_step (xs, t, evs) a) as [[xs1 t1] evs1]. destruct H1 as (? & ? & Hl). apply IH; [done|done|done|]. unfold len in *. by rewrite Hl.
Qed.

Lemma holders_exist p (xs : list (XPubSubscriber S K)) :
  holders p (topics_of <$> xs) <> 0%nat <-> exists x, x ∈ xs /\ p ∈ topics_of x.
Proof.
  unfold holders. induction xs as [|x xs IH]; cbn [fmap list_fmap]; [split; [done|by intros (x & []%not_elem_of_nil & _)]|].
  rewrite filter_cons. case_decide as Hp.
  - split; [|done]. intros _. exists x. split; [left|done].
  - rewrite IH. split; intros (y & Hy & Hpy); exists y; (split; [|done]); [by right|].
    apply elem_of_cons in Hy as [->|Hy]; done.
Qed.
End counting.

(** XPUB reports the topics that are wanted.  In non-verbose mode, for
    subscribers that only subscribe to what they do not hold and only cancel
    what they hold, in any interleaving: the events the application receives,
    applied to the empty set, never repeat a subscription it knows or cancel
    one it does not know, and give exactly the topics some subscriber holds (of
    fewer than 2^64 subscribers: the counts are [usize]). *)
Theorem xpub_reports_union {S K : Type} (xs : list (XPubSubscriber S K)) (acts : list (nat * SubscriptionEvent)) :
  Forall (λ x, topics_of x = []) xs -> disciplined (xs, mk_topics ∅ ∅, []) acts -> len xs < 2 ^ 64 ->
  let '(xs', t, evs) := foldl xpub_step (xs, mk_topics ∅ ∅, []) acts in
  exists known, replay ∅ evs = Some known /\ forall p, p ∈ known <-> exists x, x ∈ xs' /\ p ∈ topics_of x.
Proof.
  intros Hxs Hd Hfew. assert (Hc : counted xs (mk_topics ∅ ∅)).
  { assert (Hz : forall p, holders p (topics_of <$> xs) = 0%nat).
    { intros p. destruct (decide (holders p (topics_of <$> xs) = 0%nat)) as [|Hn]; [done|].
      apply holders_exist in Hn as (x & Hx & Hp). rewrite list.Forall_forall in Hxs. rewrite (Hxs x Hx) in Hp.
      by apply not_elem_of_nil in Hp. }
    split; intros p; rewrite Hz; [apply lookup_empty|set_solver]. }
  pose proof (xpub_run_counted acts xs _ [] Hc eq_refl Hd Hfew) as H1.
  destruct (foldl _ _ _) as [[xs' t] evs]. destruct H1 as [[_ Hs] Hr]. exists (seen_topics t). split; [done|].
  intros p. rewrite Hs. apply holders_exist.
Qed.

Definition idle_subscriber (id : Z) : XPubSubscriber SinkStream unit :=
  mk_xsubscriber id (mk_sink []) trie_new segbuf_new decoder_new None.

Definition sample_acts : list (nat * SubscriptionEvent) :=
  let a := ascii_bytes "a" in
  [(0%nat, Subscribe a); (1%nat, Subscribe a); (1%nat, Subscribe (ascii_bytes "b")); (0%nat, Unsubscribe a);
   (1%nat, Unsubscribe a)].

Lemma xpub_reports_union_witness :
  let '(xs, t, evs) := foldl xpub_step ([idle_subscriber 1; idle_subscriber 2], mk_topics ∅ ∅, []) sample_acts in
  evs = [Subscribe (ascii_bytes "a"); Subscribe (ascii_bytes "b"); Unsubscribe (ascii_bytes "a")] /\
  exists known, replay ∅ evs = Some known /\ ascii_bytes "b" ∈ known.
Proof.
  assert (H := xpub_reports_union [idle_subscriber 1; idle_subscriber 2] sample_acts).
  assert (Hevs : (foldl xpub_step ([idle_subscriber 1; idle_subscriber 2], mk_topics ∅ ∅, []) sample_acts).2
    = [Subscribe (ascii_bytes "a"); Subscribe (ascii_bytes "b"); Unsubscribe (ascii_bytes "a")]) by (vm_compute; reflexivity).
  assert (Hxs : topics_of <$> (foldl xpub_step ([idle_subscriber 1; idle_subscriber 2], mk_topics ∅ ∅, []) sample_acts).1.1 !! 1%nat
    = Some [ascii_bytes "b"]) by (vm_compute; reflexivity).
  destruct (foldl xpub_step _ sample_acts) as [[xs t] evs]. cbn [fst snd] in Hevs, Hxs.
  destruct H as (known & Hr & Hk).
  - repeat constructor.
  - vm_compute. repeat split; eexists; (split; [reflexivity|]).
    all: first [by apply not_elem_of_nil | by left | idtac].
    + intros Hin. inversion Hin as [? ? Heq|? ? ? Hn]; subst. inversion Hn.
  - reflexivity.
  - split; [exact Hevs|]. exists known. split; [exact Hr|]. apply Hk.
    apply fmap_Some in Hxs as (x & Hx & Ht). exists x. rewrite <- Ht. split; [by apply list_elem_of_lookup_2 in Hx|left].
Defined.

(** The count of a topic, and when its events are delivered. *)
Lemma topic_subscribe t p d t' :
  0 <= default 0 (topic_refcount t !! p) < 2 ^ 64 - 1 -> topic_event false t (Subscribe p) = (d, t') ->
  d = (default 0 (topic_refcount t !! p) + 1 =? 1) /\ topic_refcount t' !! p = Some (default 0 (topic_refcount t !! p) + 1).
Proof.
  intros Hn. unfold topic_event, count_subscribe. rewrite Z.mod_small by lia. destruct (_ =? 1) eqn:E; intros [= <- <-]; cbn [topic_refcount];
    by rewrite lookup_insert_eq.
Qed.

Lemma topic_unsubscribe t p n d t' :
  topic_refcount t !! p = Some n -> 0 < n -> topic_event false t (Unsubscribe p) = (d, t') -> d = (n =? 1).
Proof.
  intros Hn Hpos. unfold topic_event, count_unsubscribe. rewrite Hn. cbn [default from_option id].
  rewrite (proj2 (Z.ltb_lt 0 n)) by lia. destruct (Z.eqb_spec (n - 1) 0); intros [= <- _]; symmetry; [apply Z.eqb_eq|apply Z.eqb_neq]; lia.
Qed.

Lemma xpub_step_at {S K} (xs : list (XPubSubscriber S K)) t evs i e x d t' :
  xs !! i = Some x -> topic_event false t e = (d, t') ->
  xpub_step (xs, t, evs) (i, e) = (<[i := after_event x e]> xs, t', if d then evs ++ [e] else evs).
Proof. intros Hx E. cbn [xpub_step fst snd]. rewrite Hx. cbn [poll_event]. by rewrite E. Qed.

(** XPUB miscounts events that change nothing.  The reference count of a
    topic counts events, not holders.  When one of two subscribers alone holds a
    topic, a cancellation from the other, which a SUB socket sends for any
    prefix it is asked to unsubscribe from, is reported as the end of the
    topic; and when a subscriber repeats a subscription, which a SUB socket does
    on a repeated call, its cancellation is never reported. *)
Theorem xpub_miscounts {S K : Type} (x y : XPubSubscriber S K) (xs : list (XPubSubscriber S K)) (p : bytes) :
  topics_of x = [] -> topics_of y = [] ->
  let start := (x :: y :: xs, mk_topics ∅ ∅, []) in
  (let '(xs', _, evs) := foldl xpub_step start [(0%nat, Subscribe p); (1%nat, Unsubscribe p)] in
   evs = [Subscribe p; Unsubscribe p] /\ exists x', xs' !! 0%nat = Some x' /\ p ∈ topics_of x') /\
  (let '(xs', _, evs) := foldl xpub_step start [(0%nat, Subscribe p); (0%nat, Subscribe p); (0%nat, Unsubscribe p)] in
   evs = [Subscribe p] /\ exists x', xs' !! 0%nat = Some x' /\ topics_of x' = []).
Proof.
  intros Hx Hy. cbn zeta. cbn [foldl].
  destruct (topic_event false (mk_topics ∅ ∅) (Subscribe p)) as [d1 t1] eqn:E1.
  rewrite !(xpub_step_at (x :: y :: xs) _ _ 0%nat (Subscribe p) x _ _ eq_refl E1).
  apply topic_subscribe in E1 as (-> & H1); [|by cbn; rewrite lookup_empty]. cbn [topic_refcount] in H1. rewrite lookup_empty in *. split.
  - destruct (topic_event false t1 (Unsubscribe p)) as [d2 t2] eqn:E2.
    rewrite (xpub_step_at (after_event x (Subscribe p) :: y :: xs) _ _ 1%nat _ y _ _ eq_refl E2). apply (topic_unsubscribe _ _ 1) in E2 as ->; [|exact H1|lia].
    split; [done|]. eexists. split; [done|]. apply btree_insert_elem. by left.
  - destruct (topic_event false t1 (Subscribe p)) as [d2 t2] eqn:E2.
    rewrite (xpub_step_at (after_event x (Subscribe p) :: y :: xs) _ _ 0%nat _ _ _ _ eq_refl E2). apply topic_subscribe in E2 as (-> & H2); [|by rewrite H1]. rewrite H1 in *.
    destruct (topic_event false t2 (Unsubscribe p)) as [d3 t3] eqn:E3.
    rewrite (xpub_step_at (after_event (after_event x (Subscribe p)) (Subscribe p) :: y :: xs) _ _ 0%nat _ _ _ _ eq_refl E3). apply (topic_unsubscribe _ _ 2) in E3 as ->; [|exact H2|lia].
    split; [done|]. eexists. split; [done|]. unfold topics_of in *. cbn -[btree_insert btree_remove].
    rewrite Hx. cbn. rewrite (proj2 (bytes_cmp_eq p p)) by done. cbn. by rewrite decide_False by naive_solver.
Qed.

Lemma xpub_miscounts_witness :
  (foldl xpub_step ([idle_subscriber 1; idle_subscriber 2], mk_topics ∅ ∅, [])
    [(0%nat, Subscribe (ascii_bytes "a")); (1%nat, Unsubscribe (ascii_bytes "a"))]).2
  = [Subscribe (ascii_bytes "a"); Unsubscribe (ascii_bytes "a")].
Proof.
  destruct (xpub_miscounts (idle_subscriber 1) (idle_subscriber 2) [] (ascii_bytes "a")) as [H1 _]; [reflexivity..|].
  destruct (foldl _ _ _) as [[xs t] evs]. exact (proj1 H1).
Defined.

(** ** Sending *)

Section sending.
Context {S K : Type} `{WireStream S} `{!Aead K} (msg : list bytes).
Implicit Types (x : XPubSubscriber S K) (xs : list (XPubSubscriber S K)).

(** What [send] does for one subscriber, and whether it survives. *)
Definition xpub_serve x : bool * XPubSubscriber S K :=
  if negb (xs_matches x msg) then (true, x)
  else match xpub_wire x msg with
  | (None, x) => (false, x)
  | (Some w, x) =>
      let '(c, s) := stream_write_all (xs_stream x) w in
      (match c with Completed (Ok _) => true | _ => false end, set_xs_stream x s)
  end.

Definition survivor x : option (XPubSubscriber S K) := let '(alive, x) := xpub_serve x in if alive then Some x else None.

Lemma xpub_wire_id x : xs_id (xpub_wire x msg).2 = xs_id x.
Proof. unfold xpub_wire. destruct (xs_cipher x); [|done]. by destruct (curve_encode _ _ _ _ _) as [[[] ?] ?]. Qed.

Lemma xpub_serve_id x : xs_id (xpub_serve x).2 = xs_id x.
Proof.
  unfold xpub_serve. destruct (negb _); [done|]. pose proof (xpub_wire_id x) as Hid.
  destruct (xpub_wire x msg) as [[w|] x']; cbn [snd] in Hid; [|done]. by destruct (stream_write_all _ _).
Qed.

Definition doomed x : Prop := (xpub_serve x).1 = false.

#[export] Instance doomed_dec x : Decision (doomed x).
Proof. unfold doomed. apply _. Defined.

Lemma xpub_send_loop_spec xs dead xs' dead' :
  xpub_send_loop xs msg dead = (true, xs', dead') ->
  xs' = (λ x, (xpub_serve x).2) <$> xs /\ dead' = dead ++ (xs_id <$> filter doomed xs).
Proof.
  revert dead xs' dead'. induction xs as [|x xs IH]; intros dead xs' dead'; cbn [xpub_send_loop].
  { intros [= <- <-]. cbn. by rewrite app_nil_r. }
  assert (Hgo : forall alive x', xpub_serve x = (alive, x') ->
    (let '(ended, ys, d) := xpub_send_loop xs msg (if alive then dead else dead ++ [xs_id x]) in (ended, x' :: ys, d))
      = (true, xs', dead') ->
    xs' = (λ x, (xpub_serve x).2) <$> (x :: xs) /\ dead' = dead ++ (xs_id <$> filter doomed (x :: xs))).
  { intros alive x' Es. destruct (xpub_send_loop xs msg _) as [[ended ys] d] eqn:El. intros [= -> <- <-].
    apply IH in El as [-> ->]. rewrite filter_cons. cbn [fmap list_fmap]. rewrite Es. split; [done|].
    destruct alive; [rewrite decide_False|rewrite decide_True]; unfold doomed; rewrite ?Es; try done.
    cbn. by rewrite <- app_assoc. }
  unfold xpub_serve in Hgo at 1. destruct (negb (xs_matches x msg)); [by apply (Hgo true)|].
  pose proof (xpub_wire_id x) as Hid. destruct (xpub_wire x msg) as [[w|] x1]; cbn [snd] in Hid.
  - destruct (stream_write_all (xs_stream x1) w) as [[[r|e]|] s]; [by apply (Hgo true)| |done].
    cbn [set_xs_stream xs_id]. rewrite Hid. by apply (Hgo false).
  - rewrite Hid. by apply (Hgo false).
Qed.

Lemma survivors xs :
  NoDup (xs_id <$> xs) ->
  filter (λ x, xs_id x ∉ xs_id <$> filter doomed xs) ((λ x, (xpub_serve x).2) <$> xs) = omap survivor xs.
Proof.
  intros Hnd. assert (Hk : forall ys, ys ⊆+ xs ->
    filter (λ x, xs_id x ∉ xs_id <$> filter doomed xs) ((λ x, (xpub_serve x).2) <$> ys) = omap survivor ys).
  { induction ys as [|y ys IH]; intros Hsub; [done|]. cbn [fmap list_fmap omap list_omap].
    assert (Hy : y ∈ xs) by (apply (elem_of_submseteq (y :: ys)); [left|done]).
    assert (Hys : ys ⊆+ xs) by (etrans; [|exact Hsub]; by apply submseteq_cons).
    rewrite filter_cons, IH by done. destruct (xpub_serve y) as [alive y'] eqn:Ey.
    assert (Es : survivor y = if alive then Some y' else None) by (unfold survivor; by rewrite Ey). rewrite Es.
    pose proof (xpub_serve_id y) as Hid. rewrite Ey in Hid. cbn [snd] in *. rewrite Hid.
    assert (Hd : xs_id y ∈ xs_id <$> filter doomed xs <-> alive = false).
    { rewrite list_elem_of_fmap. split.
      - intros (z & Hz & [Hdz Hin]%list_elem_of_filter). assert (z = y) as ->; [|unfold doomed in Hdz; by rewrite Ey in Hdz].
        apply list_elem_of_lookup in Hin as (i & Hi). apply list_elem_of_lookup in Hy as (j & Hj).
        assert (i = j) as ->; [|congruence].
        apply (NoDup_lookup (xs_id <$> xs) i j (xs_id y)); [done| |]; rewrite list_lookup_fmap, ?Hi, ?Hj; cbn; congruence.
      - intros ->. exists y. split; [done|]. apply list_elem_of_filter. split; [|done]. unfold doomed. by rewrite Ey. }
    destruct alive; [rewrite decide_True by (by rewrite Hd)|rewrite decide_False]; [done..|].
    intros Hn. apply Hn. by apply Hd. }
  by apply Hk.
Qed.

(** A survivor has received the message if it wants it, and nothing otherwise. *)
Lemma survivor_wire x x' :
  xs_cipher x = None -> survivor x = Some x' ->
  xs_id x' = xs_id x /\ xs_subscriptions x' = xs_subscriptions x /\
  wire (xs_stream x') = wire (xs_stream x) ++ (if xs_matches x msg then encode_multipart msg [] else []).
Proof.
  intros Hc. unfold survivor, xpub_serve. destruct (xs_matches x msg); cbn [negb]; [|intros [= <-]; by rewrite app_nil_r].
  unfold xpub_wire. rewrite Hc. destruct (write_all_wire (xs_stream x) (encode_multipart msg [])) as (k & _ & Hk & Hfull).
  destruct (stream_write_all _ _) as [[[[]|e]|] s]; [|done..]. intros [= <-]. cbn in *. by rewrite Hk, Hfull.
Qed.
End sending.

(** XPUB sends by subscription.  A [send] that returns leaves, in order and
    under their ids, the subscribers whose write succeeded or was not needed; a
    plaintext one among them has received exactly the encoded message if one
    of its subscriptions is a prefix of the first frame, and nothing otherwise
    (nothing at all without a subscription); a subscriber whose write failed is
    gone; the events and topics are untouched. *)
Theorem xpub_send_selects {S K : Type} `{WireStream S} `{!Aead K} (p p' : XPubSocket S K) (topic : bytes) (rest : list bytes) :
  NoDup (xs_id <$> xp_subscribers p) -> xpub_send p (topic :: rest) = (Returned (Ok tt), p') ->
  xp_subscribers p' = omap (survivor (topic :: rest)) (xp_subscribers p) /\
  pending_events p' = pending_events p /\ xp_topics p' = xp_topics p /\
  forall x x', x ∈ xp_subscribers p -> xs_cipher x = None -> survivor (topic :: rest) x = Some x' ->
    xs_id x' = xs_id x /\ xs_subscriptions x' = xs_subscriptions x /\
    exists got, wire (xs_stream x') = wire (xs_stream x) ++ got /\
      ((got = encode_multipart (topic :: rest) [] /\ exists q, q ∈ topics_of x /\ q `prefix_of` topic) \/
       (got = [] /\ ~ exists q, q ∈ topics_of x /\ q `prefix_of` topic)).
Proof.
  intros Hnd. unfold xpub_send. destruct (xpub_send_loop _ _ _) as [[ended xs] dead] eqn:E. destruct ended; [|done].
  intros [= <-]. apply xpub_send_loop_spec in E as [-> ->]. cbn [xp_subscribers pending_events xp_topics].
  split_and!; [by apply survivors|done|done|]. intros x x' _ Hc Hs.
  destruct (survivor_wire _ _ _ Hc Hs) as (H1 & H2 & H3). split_and!; [done|done|]. eexists. split; [exact H3|].
  cbn [xs_matches]. pose proof (trie_matches_spec (xs_subscriptions x) topic) as Ht.
  destruct (trie_matches _ _); [left; by rewrite <- Ht|right]. split; [done|]. by rewrite <- Ht.
Qed.

Definition two_subscribers : XPubSocket SinkStream unit :=
  mk_xpub [mk_xsubscriber 1 (mk_sink []) (mk_trie [ascii_bytes "a"]) segbuf_new decoder_new None;
           mk_xsubscriber 2 (mk_sink []) trie_new segbuf_new decoder_new None] 3 default_options [] None (mk_topics ∅ ∅).

Lemma xpub_send_selects_witness :
  let m := [ascii_bytes "abc"; ascii_bytes "x"] in
  let p' := (xpub_send two_subscribers m).2 in
  xp_subscribers p' = omap (survivor m) (xp_subscribers two_subscribers) /\
  ((λ x, wire (xs_stream x)) <$> xp_subscribers p') = [encode_multipart m []; []].
Proof.
  destruct (xpub_send_selects two_subscribers (xpub_send two_subscribers [ascii_bytes "abc"; ascii_bytes "x"]).2
    (ascii_bytes "abc") [ascii_bytes "x"]) as (H1 & _).
  - apply (bool_decide_eq_true_1 (NoDup (xs_id <$> xp_subscribers two_subscribers))). vm_compute. reflexivity.
  - vm_compute. reflexivity.
  - split; [exact H1|]. vm_compute. reflexivity.
Defined.

(** ** Well-formed sockets *)

(** The topics counted are those seen, each at least once and at most [n] times, as
    long as the counts fit. *)
Definition topics_ok (n : Z) (t : Topics) : Prop :=
  n < 2 ^ 64 -> map_Forall (λ _ k, 0 < k <= n) (topic_refcount t) /\ dom (topic_refcount t) = seen_topics t.

Lemma topics_ok_mono n n' t : n <= n' -> topics_ok n t -> topics_ok n' t.
Proof. intros Hn Ht Hs. destruct Ht as [Hp Hd]; [lia|]. split; [|done]. intros k m Hk. specialize (Hp k m Hk). cbn in *. lia. Qed.

Lemma topic_event_ok n verbose t e : 0 <= n -> topics_ok n t -> topics_ok (n + 1) (topic_event verbose t e).2.
Proof.
  intros Hn0 Ht Hs. destruct Ht as [Hpos Hdom]; [lia|].
  assert (Hup : map_Forall (λ _ k, 0 < k <= n + 1) (topic_refcount t)).
  { intros k m Hk. specialize (Hpos k m Hk). cbn in *. lia. }
  destruct e as [p|p]; unfold topic_event, count_subscribe, count_unsubscribe.
  - assert (Hn : 0 <= default 0 (topic_refcount t !! p) <= n).
    { destruct (topic_refcount t !! p) as [m|] eqn:E; cbn; [specialize (Hpos p m E); cbn in Hpos; lia|lia]. }
    assert (Hin : default 0 (topic_refcount t !! p) <> 0 -> p ∈ seen_topics t).
    { rewrite <- Hdom, elem_of_dom. destruct (topic_refcount t !! p); [by eexists|done]. }
    rewrite Z.mod_small by lia.
    assert (Hi : map_Forall (λ _ k, 0 < k <= n + 1) (<[p := default 0 (topic_refcount t !! p) + 1]> (topic_refcount t))).
    { apply map_Forall_insert_2; [lia|done]. }
    destruct verbose; [|destruct (Z.eqb_spec (default 0 (topic_refcount t !! p) + 1) 1)]; (split; [done|]); cbn [topic_refcount seen_topics snd];
      rewrite dom_insert_L, Hdom; [done..|]. apply set_eq. set_solver by lia.
  - set (m := default 0 (topic_refcount t !! p)). set (m' := if 0 <? m then m - 1 else m).
    destruct (Z.eqb_spec m' 0) as [E|E]; (split; cbn [topic_refcount seen_topics snd]).
    + rewrite delete_insert_eq. by apply map_Forall_delete.
    + rewrite delete_insert_eq, dom_delete_L, Hdom. done.
    + apply map_Forall_insert_2; [|done]. unfold m' in *. destruct (Z.ltb_spec 0 m);
        unfold m in *; (destruct (topic_refcount t !! p) as [k|] eqn:Em; cbn in *; [specialize (Hpos p k Em); cbn in Hpos; lia|lia]).
    + rewrite dom_insert_L, Hdom. assert (p ∈ seen_topics t); [|set_solver]. rewrite <- Hdom, elem_of_dom.
      unfold m', m in E. destruct (topic_refcount t !! p); [by eexists|done].
Qed.

Section wf.
Context {S K : Type} `{AsyncStream S} `{Aead K}.
Implicit Types (x : XPubSubscriber S K) (p : XPubSocket S K).

Definition subscriber_wf x : Prop :=
  decoder_wf (xs_decoder x) /\ segbuf_wf (xs_recv_buf x) /\ btree_sorted (topics_of x).

(** The bytes of a subscriber that wait to be decoded, and those its next read gives. *)
Definition held x : Z := len (logical (xs_decoder x) (xs_recv_buf x)).
Definition read_size x : Z := match (stream_read (xs_stream x) 256).1 with Completed (Ok bs) => len bs | _ => 0 end.

Definition total (f : XPubSubscriber S K -> Z) (xs : list (XPubSubscriber S K)) : Z := foldr (λ x n, f x + n) 0 xs.

Lemma held_nonneg x : 0 <= held x.
Proof. apply len_nonneg. Qed.
Lemma read_size_nonneg x : 0 <= read_size x.
Proof. unfold read_size. destruct (stream_read _ _).1 as [[]|]; [apply len_nonneg|done|done]. Qed.
Lemma held_total_nonneg f xs : (forall x, 0 <= f x) -> 0 <= total f xs.
Proof. intros Hf. unfold total. induction xs as [|x xs IH]; cbn; [done|]. specialize (Hf x). lia. Qed.
Lemma held_total_app f xs xs' : total f (xs ++ xs') = total f xs + total f xs'.
Proof. unfold total. induction xs as [|x xs IH]; cbn; [done|]. lia. Qed.
Lemma total_filter f P `{!forall x, Decision (P x)} xs : (forall x, 0 <= f x) -> total f (filter P xs) <= total f xs.
Proof. intros Hf. unfold total. induction xs as [|x xs IH]; [done|]. rewrite filter_cons. specialize (Hf x). destruct (decide (P x)); cbn; lia. Qed.

#[local] Arguments total : simpl never.

(** After [k] calls that received [n] bytes: a subscription takes bytes, so that
    no topic has been counted more than [n] times. *)
Record xpub_wf (k n : Z) p : Prop := {
  xw_ids : NoDup (xs_id <$> xp_subscribers p);
  xw_next : Forall (λ x, xs_id x < xp_next_id p) (xp_subscribers p);
  xw_calls : 1 <= xp_next_id p <= 1 + k;
  xw_subs : Forall subscriber_wf (xp_subscribers p);
  xw_topics : exists c, 0 <= c /\ c + total held (xp_subscribers p) <= n /\ topics_ok c (xp_topics p);
}.

Lemma xpub_wf_calls k k' n p : k <= k' -> xpub_wf k n p -> xpub_wf k' n p.
Proof. intros Hk [? ? ? ? ?]. split; try done. lia. Qed.

Lemma frame_payload_wf x f : subscriber_wf x -> subscriber_wf (frame_payload x f).2 /\ xs_id (frame_payload x f).2 = xs_id x /\
  xs_decoder (frame_payload x f).2 = xs_decoder x /\ xs_recv_buf (frame_payload x f).2 = xs_recv_buf x.
Proof.
  intros Hx. unfold frame_payload, answer_ping. repeat case_match; simplify_eq/=; done.
Qed.

Lemma xpub_drain_wf verbose fuel x t evs c :
  subscriber_wf x -> 0 <= c -> topics_ok c t -> (length (logical (xs_decoder x) (xs_recv_buf x)) < fuel)%nat ->
  exists ended x' t' evs' c', xpub_drain verbose fuel (x, t, evs) = Some (ended, (x', t', evs')) /\
    subscriber_wf x' /\ xs_id x' = xs_id x /\ 0 <= c' /\ c' + held x' <= c + held x /\ topics_ok c' t'.
Proof.
  revert x t evs c. induction fuel as [|fuel IH]; intros x t evs c (Hd & Hb & Hs) Hc Ht Hf; [lia|]. cbn [xpub_drain].
  destruct (decode_ok _ _ Hd Hb) as (res & d' & src' & -> & Hd' & Hb' & _ & Hpost). cbn [mbind option_bind].
  set (x1 := set_xs_decoder x d' src'). assert (Hx1 : subscriber_wf x1) by done.
  destruct (parse_frame _ _) as [|e|f rest] eqn:Ep.
  - destruct Hpost as (-> & Hlog). exists true, x1, t, evs, c. split_and!; try done. unfold held. cbn. by rewrite Hlog.
  - destruct Hpost as (-> & -> & ->). by exists true, x1, t, evs, c.
  - destruct Hpost as (-> & _ & Hlog). apply parse_frame_length in Ep.
    destruct (frame_payload_wf x1 f Hx1) as (Hx2 & Hid & Hde & Hbu). change (xs_id x1) with (xs_id x) in Hid.
    destruct (frame_payload x1 f) as [r x2]. cbn [snd] in *.
    assert (Hheld : held x2 + 1 < held x) by (unfold held, len; rewrite Hde, Hbu; cbn; rewrite Hlog; lia).
    assert (Hlt : (length (logical (xs_decoder x2) (xs_recv_buf x2)) < fuel)%nat) by (unfold held, len in Hheld; lia).
    assert (Hgo : exists ended x' t' evs' c', xpub_drain verbose fuel (x2, t, evs) = Some (ended, (x', t', evs')) /\
      subscriber_wf x' /\ xs_id x' = xs_id x /\ 0 <= c' /\ c' + held x' <= c + held x /\ topics_ok c' t').
    { destruct (IH x2 t evs c Hx2 Hc Ht Hlt) as (? & ? & ? & ? & ? & ? & ? & ? & ? & ? & ?). eexists _, _, _, _, _. split_and!; try done; [congruence|lia]. }
    destruct r as [[[data|]|e]|]; [|done|done|eexists _, _, _, _, c; split_and!; try done; lia]. destruct (from_message data) as [e|]; [|done].
    cbn [poll_event]. pose proof (topic_event_ok c verbose t e Hc Ht) as Ht2. destruct (topic_event verbose t e) as [dl t2]. cbn [snd] in Ht2.
    destruct (IH (after_event x2 e) t2 (if dl then evs ++ [e] else evs) (c + 1)) as (? & x3 & ? & ? & c3 & ? & ? & Hid3 & ? & Hh3 & ?);
      [|lia|done|done|].
    + destruct Hx2 as (? & ? & Hs2). split_and!; [done|done|]. destruct e; cbn; unfold topics_of in *; cbn; auto with mono.
    + change (held (after_event x2 e)) with (held x2) in Hh3. eexists _, x3, _, _, c3. split_and!; [done|done| |done|lia|done].
      rewrite Hid3. cbn. congruence.
Qed.

Lemma poll_subscriber_wf verbose x t evs c :
  subscriber_wf x -> 0 <= c -> topics_ok c t ->
  exists ended x' t' evs' c', poll_subscriber verbose (x, t, evs) = Some (ended, (x', t', evs')) /\
    subscriber_wf x' /\ xs_id x' = xs_id x /\ 0 <= c' /\ c' + held x' <= c + held x + read_size x /\ topics_ok c' t'.
Proof.
  intros Hx Hc Ht. pose proof (read_size_nonneg x) as Hrs. unfold poll_subscriber.
  assert (Hnone : forall s, exists ended x' t' evs' c', Some (true, (set_xs_stream x s, t, evs)) = Some (ended, (x', t', evs')) /\
    subscriber_wf x' /\ xs_id x' = xs_id x /\ 0 <= c' /\ c' + held x' <= c + held x + read_size x /\ topics_ok c' t').
  { intros s. eexists _, _, _, _, c. split_and!; try done. change (held (set_xs_stream x s)) with (held x). lia. }
  unfold read_size in *. destruct (stream_read (xs_stream x) 256) as [[[[|b bs]|e]|] s]; [apply Hnone| |apply Hnone..].
  set (x1 := set_xs_decoder _ _ _). set (n := (_ + _)%nat).
  assert (Hx1 : subscriber_wf x1) by (destruct Hx as (? & ? & ?); split_and!; [done|by apply push_wf|done]).
  destruct (xpub_drain_wf verbose n x1 t evs c Hx1 Hc Ht) as (ended & x' & t' & evs' & c' & E & ? & ? & ? & Hh & ?); [apply logical_fuel|].
  exists ended, x', t', evs', c'. split_and!; try done. assert (Hh1 : held x1 = held x + len (b :: bs)); [|cbn [fst] in *; lia].
  unfold held, x1. cbn [set_xs_decoder xs_decoder xs_recv_buf]. by rewrite logical_push, len_app.
Qed.

Lemma poll_all_wf verbose xs t evs c :
  Forall subscriber_wf xs -> 0 <= c -> topics_ok c t ->
  exists ended xs' t' evs' c', poll_all verbose xs t evs = Some (ended, xs', t', evs') /\
    Forall subscriber_wf xs' /\ xs_id <$> xs' = xs_id <$> xs /\ 0 <= c' /\
    c' + total held xs' <= c + total held xs + total read_size xs /\ topics_ok c' t'.
Proof.
  intros Hall. revert t evs c. induction Hall as [|x xs Hx Hall IH]; intros t evs c Hc Ht; cbn [poll_all].
  { eexists _, _, _, _, c. split_and!; try done. unfold total. cbn. lia. }
  destruct (poll_subscriber_wf verbose x t evs c Hx Hc Ht) as (ended & x' & t' & evs' & c' & -> & Hx' & Hid & Hc' & Hh & Ht').
  destruct ended.
  - destruct (IH t' evs' c' Hc' Ht') as (ended & xs' & t2 & evs2 & c2 & -> & Hxs & Hids & Hc2 & Hh2 & Ht2). eexists _, _, _, _, c2.
    split; [done|]. cbn [fmap list_fmap]. rewrite Hid, Hids. split_and!; [by constructor|done|done| |done].
    unfold total in *. cbn. lia.
  - eexists _, _, _, _, c'. split; [done|]. cbn [fmap list_fmap]. rewrite Hid. split_and!; [by constructor|done|done| |done].
    pose proof (held_total_nonneg read_size xs read_size_nonneg). unfold total in *. cbn. lia.
Qed.

Lemma take_event_same p : xp_subscribers (take_event p).2 = xp_subscribers p /\ xp_next_id (take_event p).2 = xp_next_id p /\
  xp_topics (take_event p).2 = xp_topics p /\ exists e, (take_event p).1 = Returned (Ok e).
Proof. unfold take_event. destruct (pending_events p); split_and!; try done; eauto. Qed.

Lemma xpub_wf_same k n p p' :
  xp_subscribers p' = xp_subscribers p -> xp_next_id p' = xp_next_id p -> xp_topics p' = xp_topics p -> xpub_wf k n p -> xpub_wf k n p'.
Proof. intros E1 E2 E3 [? ? ? ? ?]. split; rewrite ?E1, ?E2, ?E3; done. Qed.

Lemma ids_below n (xs : list (XPubSubscriber S K)) : Forall (λ i, i < n) (xs_id <$> xs) <-> Forall (λ x, xs_id x < n) xs.
Proof. by rewrite Forall_fmap. Qed.

(** What [recv_subscription] reads. *)
Definition reads p : Z := if bool_decide (pending_events p = []) then total read_size (xp_subscribers p) else 0.

Lemma recv_subscription_wf k n p :
  xpub_wf k n p -> exists o p', recv_subscription p = Some (o, p') /\ xpub_wf k (n + reads p) p' /\
    (o = Pending \/ exists e, o = Returned (Ok e)) /\ xs_id <$> xp_subscribers p' = xs_id <$> xp_subscribers p.
Proof.
  intros Hp. unfold recv_subscription, reads. destruct (take_event_same p) as (E1 & E2 & E3 & e0 & E4).
  destruct (pending_events p) as [|e evs] eqn:Epend.
  - destruct Hp as [Hids Hnext Hcalls Hsubs (c & Hc & Hle & Htop)].
    destruct (poll_all_wf (xpub_verbose (xp_options p)) _ (xp_topics p) [] c Hsubs Hc Htop)
      as (ended & xs & t & evs & c' & -> & Hxs & Hid & Hc' & Hh & Ht').
    rewrite bool_decide_eq_true_2 by done. set (p1 := mk_xpub _ _ _ _ _ _). assert (Hp1 : xpub_wf k (n + total read_size (xp_subscribers p)) p1).
    { split; cbn; [by rewrite Hid| |done|done|exists c'; split_and!; [done|change (c' + total held xs <= n + total read_size (xp_subscribers p)); lia|done]]. apply ids_below. rewrite Hid. by apply ids_below. }
    destruct (take_event_same p1) as (F1 & F2 & F3 & e1 & F4). destruct ended.
    + destruct (take_event p1) as [o p2]. cbn in *. eexists _, _. split; [done|]. split_and!; [by apply (xpub_wf_same _ _ p1)|right; by exists e1|by rewrite F1].
    + eexists _, _. split; [done|]. by split_and!; [|left|].
  - rewrite bool_decide_eq_false_2, Z.add_0_r by done. destruct (take_event p) as [o p2]. cbn in *. eexists _, _. split; [done|].
    split_and!; [by apply (xpub_wf_same _ _ p)|right; by exists e0|by rewrite E1].
Qed.

(** A new id replaces nobody. *)
Lemma insert_fresh (xs : list (XPubSubscriber S K)) x : Forall (λ y, xs_id y < xs_id x) xs -> subscribers_insert xs x = xs ++ [x].
Proof.
  intros Hx. unfold subscribers_insert. f_equal. induction Hx as [|y xs Hy Hx IH]; [done|]. rewrite filter_cons_True by lia. by rewrite IH.
Qed.

Lemma xpub_accept_wf k n p s c :
  k < 2 ^ 64 - 2 -> xpub_wf k n p ->
  exists o p', xpub_accept p s c = (o, p') /\ xpub_wf (k + 1) n p' /\
    match o with
    | Returned (Ok _) => xs_id <$> xp_subscribers p' = (xs_id <$> xp_subscribers p) ++ [xp_next_id p]
    | Returned (Err e) => e = InvalidData /\ xpub_welcome_msg (xp_options p) <> None /\ c <> None /\ xp_subscribers p' = xp_subscribers p
    | Pending => xpub_welcome_msg (xp_options p) <> None /\ xp_subscribers p' = xp_subscribers p
    | Panicked => False
    end.
Proof.
  intros Hk Hp. pose proof (xw_calls _ _ _ Hp) as Hcalls.
  assert (Hadd : forall s c x, x = mk_xsubscriber (xp_next_id p) s trie_new segbuf_new (base_decoder (xp_options p)) c ->
    xpub_wf (k + 1) n (mk_xpub (subscribers_insert (xp_subscribers p) x) (xp_next_id p + 1) (xp_options p) (pending_events p) (upstream p) (xp_topics p)) /\
    xs_id <$> subscribers_insert (xp_subscribers p) x = (xs_id <$> xp_subscribers p) ++ [xp_next_id p]).
  { intros s' c' x ->. destruct Hp as [Hids Hnext _ Hsubs (cc & Hc & Hle & Htop)]. rewrite insert_fresh by done.
    split; [|by rewrite fmap_app]. split; cbn; [|apply Forall_app; split|lia|apply Forall_app; split|].
    - rewrite fmap_app. apply list.NoDup_app. split_and!; [done| |apply NoDup_singleton].
      intros i Hi Hin%list_elem_of_singleton. cbn in Hin. subst i. apply list_elem_of_fmap in Hi as (x & E & Hx).
      rewrite list.Forall_forall in Hnext. specialize (Hnext x Hx). cbn in Hnext. lia.
    - eapply list.Forall_impl; [exact Hnext|]. cbn. lia.
    - constructor; [cbn; lia|constructor].
    - done.
    - constructor; [|constructor]. split_and!; [apply base_decoder_wf|apply segbuf_new_wf|constructor].
    - exists cc. split_and!; [done| |done]. rewrite held_total_app. set (y := mk_xsubscriber _ _ _ _ _ _).
      assert (Hz : held y = 0) by (unfold held, y, base_decoder; cbn; by destruct (max_msg_size (xp_options p))).
      change (total held [y]) with (held y + 0). lia. }
  assert (Hplain : xpub_wf (k + 1) n (mk_xpub (xp_subscribers p) (xp_next_id p + 1) (xp_options p) (pending_events p) (upstream p) (xp_topics p))).
  { destruct Hp as [Hids Hnext _ Hsubs Htop]. split; cbn; [done| |lia|done|done]. eapply list.Forall_impl; [exact Hnext|]. cbn. lia. }
  unfold xpub_accept. cbn [xp_options xp_subscribers xp_next_id pending_events upstream xp_topics]. rewrite Z.mod_small by lia.
  destruct (xpub_welcome_msg _) as [w|]; [|eexists _, _; split; [done|]; by eapply Hadd].
  destruct (welcome_wire w c) as [[b|e] c'] eqn:Ew.
  - destruct (stream_write_all s b) as [[]]; eexists _, _; (split; [done|]); [by eapply Hadd|]. by split_and!.
  - eexists _, _. split; [done|]. unfold welcome_wire in Ew. destruct c as [c|]; [|done]. destruct (encrypt_frame c w false) as [[] ?]; [done|].
    injection Ew as <- _. by split_and!.
Qed.

(** [send] changes streams and ciphers only. *)
Definition same_state x x' : Prop :=
  xs_id x' = xs_id x /\ xs_decoder x' = xs_decoder x /\ xs_recv_buf x' = xs_recv_buf x /\
  xs_subscriptions x' = xs_subscriptions x.

Lemma xpub_send_loop_same msg xs dead : Forall2 same_state xs (xpub_send_loop xs msg dead).1.2.
Proof.
  revert dead. induction xs as [|x xs IH]; intros dead; cbn [xpub_send_loop]; [constructor|].
  assert (Hgo : forall x' d, same_state x x' ->
    Forall2 same_state (x :: xs) (let '(ended, xs, dead) := xpub_send_loop xs msg d in (ended, x' :: xs, dead)).1.2).
  { intros x' d Hx. specialize (IH d). destruct (xpub_send_loop xs msg d) as [[? ?] ?]. by constructor. }
  assert (Hw : same_state x (xpub_wire x msg).2).
  { unfold xpub_wire. destruct (xs_cipher x); [|done]. by destruct (curve_encode _ _ _ _ _) as [[[] ?] ?]. }
  destruct (negb _); [by apply Hgo|]. destruct (xpub_wire x msg) as [[w|] x']; cbn [snd] in Hw; [|by apply Hgo].
  destruct (stream_write_all (xs_stream x') w) as [[[]|] s]; [by apply Hgo..|].
  constructor; [done|]. clear. induction xs; by constructor.
Qed.

Lemma forall_filter {A} (Q P : A -> Prop) `{!forall a : A, Decision (P a)} (l : list A) : Forall Q l -> Forall Q (filter P l).
Proof. rewrite !list.Forall_forall. intros Hl x [_ Hx]%list_elem_of_filter. by apply Hl. Qed.

Lemma filter_ids P `{!forall x, Decision (P x)} (xs : list (XPubSubscriber S K)) : xs_id <$> filter P xs `sublist_of` xs_id <$> xs.
Proof.
  induction xs as [|x xs IH]; [done|]. rewrite filter_cons. destruct (decide (P x)); cbn; by constructor.
Qed.

Lemma xpub_send_wf k n p msg :
  xpub_wf k n p -> xpub_wf k n (xpub_send p msg).2 /\
    ((xpub_send p msg).1 = Returned (Ok tt) \/ (xpub_send p msg).1 = Pending) /\
    xs_id <$> xp_subscribers (xpub_send p msg).2 `sublist_of` xs_id <$> xp_subscribers p.
Proof.
  intros [Hids Hnext Hcalls Hsubs (c & Hc & Hle & Htop)]. unfold xpub_send.
  pose proof (xpub_send_loop_same msg (xp_subscribers p) []) as Hsame.
  destruct (xpub_send_loop _ _ _) as [[ended xs] dead]. cbn [fst snd] in Hsame.
  assert (Hid : xs_id <$> xs = xs_id <$> xp_subscribers p).
  { clear -Hsame. induction Hsame as [|x x' l l' (E & _) Hl IH]; [done|]. cbn. by rewrite E, IH. }
  assert (Hh : total held xs = total held (xp_subscribers p)).
  { clear -Hsame. unfold total, held. induction Hsame as [|x x' l l' (_ & E1 & E2 & _) Hl IH]; [done|]. cbn. by rewrite E1, E2, IH. }
  assert (Hwf : Forall subscriber_wf xs).
  { clear -Hsame Hsubs. revert Hsubs. induction Hsame as [|x x' l l' (_ & E1 & E2 & E3) Hl IH]; [done|].
    intros [(H1 & H2 & H3) Hsubs]%list.Forall_cons. constructor; [|by apply IH]. unfold subscriber_wf, topics_of in *.
    rewrite E1, E2, E3. done. }
  assert (Hn : Forall (λ x, xs_id x < xp_next_id p) xs) by (apply ids_below; rewrite Hid; by apply ids_below).
  destruct ended; cbn [fst snd]; split_and!; try (by left); try (by right).
  - split; cbn; [|by apply forall_filter|done|by apply forall_filter|].
    + eapply sublist_NoDup; [|apply filter_ids]. by rewrite Hid.
    + exists c. split_and!; [done| |done]. pose proof (total_filter held (λ x, xs_id x ∉ dead) xs held_nonneg). lia.
  - cbn. rewrite <- Hid. apply filter_ids.
  - split; cbn; [by rewrite Hid|done|done|done|]. exists c. split_and!; [done|lia|done].
  - cbn. by rewrite Hid.
Qed.

Inductive xpub_op :=
| XAccept (s : S) (c : option (CurveMessageCipher K))
| XRecvSubscription
| XSend (msg : list bytes)
| XConnectUpstream (connected : io_result (XSubSocket S K))
| XSendSubscription (e : SubscriptionEvent)
| XSetVerbose (v : bool)
| XSetManual (v : bool).

Definition observe {A : Type} (o : outcome A) : outcome unit :=
  match o with Returned (Ok _) => Returned (Ok tt) | Returned (Err e) => Returned (Err e) | Pending => Pending | Panicked => Panicked end.

(** What a call returns, and the bytes it received; [None]: a loop does not end, or
    the decoder panicked. *)
Definition xpub_apply p (op : xpub_op) : option (outcome unit * XPubSocket S K) :=
  match op with
  | XAccept s c => Some (xpub_accept p s c)
  | XRecvSubscription => '(o, p) ← recv_subscription p; Some (observe o, p)
  | XSend msg => Some (xpub_send p msg)
  | XConnectUpstream c => let '(r, p) := connect_upstream p c in Some (Returned r, p)
  | XSendSubscription e => Some (send_subscription p e)
  | XSetVerbose v => Some (Returned (Ok tt), set_verbose p v)
  | XSetManual v => Some (Returned (Ok tt), set_manual p v)
  end.

Definition received_by p (op : xpub_op) : Z := match op with XRecvSubscription => reads p | _ => 0 end.

Fixpoint xpub_run p (ops : list xpub_op) : option (list (outcome unit) * XPubSocket S K * Z) :=
  match ops with
  | [] => Some ([], p, 0)
  | op :: ops =>
      let n := received_by p op in
      '(o, p) ← xpub_apply p op;
      '(os, p, n') ← xpub_run p ops;
      Some (o :: os, p, n + n')
  end.

(** What a call may return, and what it does to the set of subscribers. *)
Definition answers p (op : xpub_op) (o : outcome unit) (p' : XPubSocket S K) : Prop :=
  let ids p := xs_id <$> xp_subscribers p in
  match op with
  | XAccept _ c =>
      match o with
      | Returned (Ok _) => ids p' = ids p ++ [xp_next_id p]
      | Returned (Err e) => e = InvalidData /\ xpub_welcome_msg (xp_options p) <> None /\ c <> None /\ ids p' = ids p
      | Pending => xpub_welcome_msg (xp_options p) <> None /\ ids p' = ids p
      | Panicked => False
      end
  | XRecvSubscription => (o = Returned (Ok tt) \/ o = Pending) /\ ids p' = ids p
  | XSend _ => (o = Returned (Ok tt) \/ o = Pending) /\ ids p' `sublist_of` ids p
  | XConnectUpstream (Ok _) | XSetVerbose _ | XSetManual _ => o = Returned (Ok tt) /\ ids p' = ids p
  | XConnectUpstream (Err e) => o = Returned (Err e) /\ p' = p
  | XSendSubscription _ =>
      ids p' = ids p /\
      if xpub_manual (xp_options p)
      then match upstream p with None => o = Returned (Err NotConnected) | Some _ => o <> Panicked end
      else o = Returned (Err InvalidInput)
  end.

Lemma answers_return p op p' : ~ answers p op Panicked p'.
Proof.
  destruct op as [s c| |msg|[x|e]|e|v|v]; cbn; [by intros []|by intros [[] _]|by intros [[] _]|by intros []|by intros []| |by intros []|by intros []].
  intros [_ Ha]. destruct (xpub_manual (xp_options p)); [|done]. by destruct (upstream p).
Qed.

Lemma sub_event_returns (b : SocketBase S K) cmd prefix : (send_sub_event b cmd prefix).1 <> Panicked.
Proof.
  assert (Hw : forall (b : SocketBase S K) w, (match stream b with
    | None => (Returned (Err NotConnected), b)
    | Some s => let '(c, s) := stream_write_all s w in (with_timer None c, set_stream b (Some s))
    end).1 <> Panicked).
  { intros b' w. destruct (stream b') as [s|]; [|done]. by destruct (stream_write_all s w) as [[]]. }
  unfold send_sub_event. destruct (curve_cipher b) as [c|]; [|apply Hw]. destruct (encrypt_frame c _ false) as [[] c']; [apply Hw|done].
Qed.

Lemma xpub_apply_wf k n p op :
  k < 2 ^ 64 - 2 -> xpub_wf k n p ->
  exists o p', xpub_apply p op = Some (o, p') /\ xpub_wf (k + 1) (n + received_by p op) p' /\ answers p op o p'.
Proof.
  intros Hk Hp. pose proof (xpub_wf_calls k (k + 1) n p ltac:(lia) Hp) as Hp1.
  destruct op as [s c| |msg|c|e|v|v]; cbn [xpub_apply received_by answers]; rewrite ?Z.add_0_r.
  - destruct (xpub_accept_wf k n p s c Hk Hp) as (o & p' & -> & Hp' & Ho). eexists _, _. split; [done|]. split; [done|].
    destruct o as [[u|e]| |]; cbn; [done|destruct Ho as (-> & ? & ? & ->); done|destruct Ho as (? & ->); done|done].
  - destruct (recv_subscription_wf _ _ p Hp1) as (o & p' & -> & Hp' & Ho & Hids). cbn. eexists _, _. split; [done|]. split_and!; [done| |done].
    destruct Ho as [->|[e ->]]; [by right|by left].
  - destruct (xpub_send_wf _ _ p msg Hp1) as (Hp' & Ho & Hids). destruct (xpub_send p msg) as [o p']. by eexists _, _.
  - destruct c as [x|e]; cbn; eexists _, _; (split; [done|]); [|done]. split_and!; [by apply (xpub_wf_same _ _ p)|done|done].
  - unfold send_subscription. destruct (xpub_manual (xp_options p)); cbn [negb]; [|by eexists _, _].
    destruct (upstream p) as [up|]; [|by eexists _, _]. destruct (send_subscription_event up e) as [o up'] eqn:E. eexists _, _. split; [done|].
    split_and!; [by apply (xpub_wf_same _ _ p)|done|]. intros ->. unfold send_subscription_event in E.
    destruct e as [q|q]; [pose proof (sub_event_returns (xsub_base up) (u8 0x01) q) as Hno|pose proof (sub_event_returns (xsub_base up) (u8 0x00) q) as Hno];
      destruct (send_sub_event _ _ _) as [o b]; injection E as -> _; by apply Hno.
  - eexists _, _. split; [done|]. split_and!; [by apply (xpub_wf_same _ _ p)|done|done].
  - eexists _, _. split; [done|]. split_and!; [by apply (xpub_wf_same _ _ p)|done|done].
Qed.

Lemma xpub_run_wf ops k n p :
  k + len ops < 2 ^ 64 - 2 -> xpub_wf k n p ->
  exists os p' m, xpub_run p ops = Some (os, p', m) /\ xpub_wf (k + len ops) (n + m) p' /\ Forall (λ o, o <> Panicked) os.
Proof.
  revert k n p. induction ops as [|op ops IH]; intros k n p Hk Hp; cbn [xpub_run].
  { exists [], p, 0. rewrite Z.add_0_r. split_and!; [done| |constructor]. unfold len. cbn. by rewrite Z.add_0_r. }
  rewrite len_cons in *. pose proof (len_nonneg ops).
  destruct (xpub_apply_wf k n p op ltac:(lia) Hp) as (o & p1 & -> & Hp1 & Ha). cbn [mbind option_bind].
  destruct (IH (k + 1) _ _ ltac:(lia) Hp1) as (os & p2 & m & -> & Hp2 & Hos). cbn. eexists _, _, _. split; [done|].
  split; [by rewrite !Z.add_assoc|]. constructor; [|done]. intros ->. by apply answers_return in Ha.
Qed.
End wf.
Arguments xpub_op : clear implicits.

(** C21: XPUB sockets stay well formed.  Whatever is accepted, received, sent and
    configured, starting from [bind], in fewer than 2^64 - 2 calls: no call has
    panicked and the loops of [recv_subscription] end.  Subscriber ids are pairwise
    distinct and every subscriber's decoder, buffer and sorted prefix store are valid;
    and as long as fewer than 2^64 bytes have been received, the topics counted are
    exactly the topics seen, each with a positive count.  The next call, whichever it
    is, returns one of its answers: [accept] registers one subscriber under a new id,
    waits for the write of the welcome message, or fails to encrypt it;
    [recv_subscription] and [send] wait or succeed, and only [send] drops
    subscribers; [send_subscription] is refused outside the manual mode and without
    an upstream connection. *)
Theorem xpub_well_formed {S K : Type} `{AsyncStream S} `{Aead K} (o : SocketOptions) (ops : list (xpub_op S K)) (next : xpub_op S K) :
  len ops < 2 ^ 64 - 2 ->
  exists os p n, xpub_run (xpub_bind o) ops = Some (os, p, n) /\ Forall (λ o, o <> Panicked) os /\
    NoDup (xs_id <$> xp_subscribers p) /\ Forall subscriber_wf (xp_subscribers p) /\
    (n < 2 ^ 64 -> map_Forall (λ _ k, 0 < k <= n) (topic_refcount (xp_topics p)) /\
       dom (topic_refcount (xp_topics p)) = seen_topics (xp_topics p)) /\
    exists o p', xpub_apply p next = Some (o, p') /\ answers p next o p'.
Proof.
  intros Hlen. assert (H0' : xpub_wf 0 0 (xpub_bind o : XPubSocket S K)).
  { split; cbn; [constructor|constructor|done|constructor|]. exists 0. split_and!; [done|done|]. intros _.
    split; [apply map_Forall_empty|apply dom_empty_L]. }
  destruct (xpub_run_wf ops 0 0 _ Hlen H0') as (os & p & n & Hrun & Hp & Hos). exists os, p, n.
  destruct (xpub_apply_wf _ _ p next Hlen Hp) as (o' & p' & Ha & _ & Hans).
  pose proof Hp as [Hids _ _ Hsubs (c & Hc & Hle & Ht)]. split_and!; [done|done|done|done| |by exists o', p'].
  intros Hn. pose proof (held_total_nonneg held (xp_subscribers p) held_nonneg). exact (topics_ok_mono c n _ ltac:(lia) Ht Hn).
Qed.

(** A subscriber connects and subscribes; its connection is then sent a message. *)
Definition sample_xpub_ops : list (xpub_op ScriptStream unit) :=
  [XAccept (mk_script [] [event_wire (Subscribe (ascii_bytes "a"))] []) None; XRecvSubscription; XSend [ascii_bytes "ab"]].

Lemma xpub_well_formed_witness :
  exists os p n, xpub_run (xpub_bind default_options) sample_xpub_ops = Some (os, p, n) /\
    os = [Returned (Ok tt); Returned (Ok tt); Returned (Ok tt)] /\ topic_refcount (xp_topics p) !! ascii_bytes "a" = Some 1 /\
    xs_id <$> xp_subscribers p = [1] /\
    exists p', xpub_apply p (XSendSubscription (Subscribe [])) = Some (Returned (Err InvalidInput), p').
Proof.
  destruct (xpub_well_formed default_options sample_xpub_ops (XSendSubscription (Subscribe []))) as (os & p & n & Hrun & _ & _ & _ & _ & o & p' & Ha & Hans).
  - vm_compute. reflexivity.
  - assert (Hv : (λ r : list (outcome unit) * XPubSocket ScriptStream unit * Z,
        (r.1.1, topic_refcount (xp_topics r.1.2) !! ascii_bytes "a", xs_id <$> xp_subscribers r.1.2, xpub_manual (xp_options r.1.2)))
      <$> xpub_run (xpub_bind default_options) sample_xpub_ops
      = Some ([Returned (Ok tt); Returned (Ok tt); Returned (Ok tt)], Some 1, [1], false)) by (vm_compute; reflexivity).
    rewrite Hrun in Hv. apply Some_inj in Hv. cbn [fst snd] in Hv.
    pose proof (f_equal (λ v, v.1.1.1) Hv) as E1. pose proof (f_equal (λ v, v.1.1.2) Hv) as E2. pose proof (f_equal (λ v, v.1.2) Hv) as E3.
    pose proof (f_equal snd Hv) as E4. cbn [fst snd] in E1, E2, E3, E4. exists os, p, n.
    split; [exact Hrun|]. split; [exact E1|]. split; [exact E2|]. split; [exact E3|].
    exists p'. unfold answers in Hans. rewrite E4 in Hans. destruct Hans as [_ Ho]. rewrite Ho in Ha. exact Ha.
Defined.
