(* ===== verification/Proxy.v ===== *)
(** * The proxy

    monocoque-zmtp/src/proxy.rs: messages are forwarded between two sockets, in
    both directions, with copies to an optional capture socket; the steerable
    proxy also obeys a control socket.

    [ProxySocket] is the source's trait.  A round of the loop is one [select!]:
    the branches are polled in an order the runtime chooses, which is an
    argument of the round, until one is ready; the futures of the others are
    dropped where they wait. *)

From S2P Require Import Prelude.
From S2P Require Import ByteOrder.
From S2P Require Import SegBuffer.
From S2P Require Import Codec.
From S2P Require Import Options.
From S2P Require Import Subscription.
From S2P Require Import CurveMessage.
From S2P Require Import Stream.
From S2P Require Import Zap.
From S2P Require Import Base.
From S2P Require Import BaseWire.
From S2P Require Import Recv.
From S2P Require Import Sockets.
From S2P Require Import Pipeline.
From S2P Require Import RouterPair.
From S2P Require Import Subscriber.
From S2P Require Import Publisher.
From S2P Require Import XPub.

Definition is_transient_send_error (e : ErrorKind) : bool :=
  match e with WouldBlock | Interrupted | TimedOut => true | _ => false end.

Abbreviation message := (list bytes).

(** [recv_multipart] is [None] when the model of the socket runs out of fuel. *)
Class ProxySocket (P : Type) := {
  recv_multipart : P -> option (outcome (option message) * P);
  send_multipart : P -> message -> outcome unit * P;
}.

(** ** Forwarding *)

(** How a round ends: the loop goes on, the proxy returns, it waits, or a socket
    panicked. *)
Inductive status :=
| Running
| Exited (r : io_result unit)
| Waiting
| Crashed.

Section forward.
Context {D C : Type} `{ProxySocket D} `{ProxySocket C}.

(** The copy to the capture socket. *)
Definition send_capture (capture : option C) (msg : message) : outcome unit * option C :=
  match capture with
  | None => (Returned (Ok tt), None)
  | Some cap => let '(o, cap) := send_multipart cap msg in (o, Some cap)
  end.

(** A message is copied to the capture socket, whose errors are only logged, and
    sent to [dst]; the number is what is added to the steerable proxy's counter. *)
Definition forward (dst : D) (capture : option C) (msg : message) : status * Z * D * option C :=
  let '(copied, capture) := send_capture capture msg in
  match copied with
  | Pending => (Waiting, 0, dst, capture)
  | Panicked => (Crashed, 0, dst, capture)
  | Returned _ =>
      let '(o, dst) := send_multipart dst msg in
      match o with
      | Returned (Ok _) => (Running, 1, dst, capture)
      | Returned (Err e) => (if is_transient_send_error e then Running else Exited (Err e), 0, dst, capture)
      | Pending => (Waiting, 0, dst, capture)
      | Panicked => (Crashed, 0, dst, capture)
      end
  end.
End forward.

(** ** [proxy] *)

Section proxy.
Context {F B C : Type} `{ProxySocket F} `{ProxySocket B} `{ProxySocket C}.

Record Proxy := mk_proxy {
  frontend : F;
  backend : B;
  capture : option C;
}.

(** The branch of the frontend, on what its [recv_multipart] returned. *)
Definition from_frontend (st : Proxy) (r : io_result (option message)) : status * Proxy :=
  match r with
  | Err e => (Exited (Err e), st)
  | Ok None => (Running, st)
  | Ok (Some msg) =>
      let '(s, _, b, cap) := forward (backend st) (capture st) msg in (s, mk_proxy (frontend st) b cap)
  end.

Definition from_backend (st : Proxy) (r : io_result (option message)) : status * Proxy :=
  match r with
  | Err e => (Exited (Err e), st)
  | Ok None => (Running, st)
  | Ok (Some msg) =>
      let '(s, _, f, cap) := forward (frontend st) (capture st) msg in (s, mk_proxy f (backend st) cap)
  end.

(** Polling one branch: what it gives when it is ready.  *)
Definition poll_frontend (st : Proxy) : option (option (status * Proxy) * Proxy) :=
  match recv_multipart (frontend st) with
  | None => None
  | Some (o, f) =>
      let st := mk_proxy f (backend st) (capture st) in
      Some (match o with Returned r => Some (from_frontend st r) | Pending => None | Panicked => Some (Crashed, st) end, st)
  end.

Definition poll_backend (st : Proxy) : option (option (status * Proxy) * Proxy) :=
  match recv_multipart (backend st) with
  | None => None
  | Some (o, b) =>
      let st := mk_proxy (frontend st) b (capture st) in
      Some (match o with Returned r => Some (from_backend st r) | Pending => None | Panicked => Some (Crashed, st) end, st)
  end.

(** One [select!]. *)
Definition proxy_round (front_first : bool) (st : Proxy) : option (status * Proxy) :=
  let first := if front_first then poll_frontend st else poll_backend st in
  match first with
  | None => None
  | Some (Some res, _) => Some res
  | Some (None, st) =>
      match if front_first then poll_backend st else poll_frontend st with
      | None => None
      | Some (Some res, _) => Some res
      | Some (None, st) => Some (Waiting, st)
      end
  end.

(** The loop, for the given choices of order. *)
Fixpoint proxy_run (orders : list bool) (st : Proxy) : option (status * Proxy) :=
  match orders with
  | [] => Some (Running, st)
  | o :: orders =>
      match proxy_round o st with
      | Some (Running, st) => proxy_run orders st
      | res => res
      end
  end.
End proxy.
#[global] Arguments Proxy : clear implicits.

(** ** [proxy_steerable] *)

Inductive ProxyCommand := Pause | Resume | Terminate | Statistics.

#[export] Instance ProxyCommand_eq_dec : EqDecision ProxyCommand.
Proof. solve_decision. Defined.

Definition as_bytes (c : ProxyCommand) : bytes :=
  match c with
  | Pause => ascii_bytes "PAUSE"
  | Resume => ascii_bytes "RESUME"
  | Terminate => ascii_bytes "TERMINATE"
  | Statistics => ascii_bytes "STATISTICS"
  end.

Definition from_bytes (data : bytes) : option ProxyCommand :=
  if bool_decide (data = ascii_bytes "PAUSE") then Some Pause
  else if bool_decide (data = ascii_bytes "RESUME") then Some Resume
  else if bool_decide (data = ascii_bytes "TERMINATE") then Some Terminate
  else if bool_decide (data = ascii_bytes "STATISTICS") then Some Statistics
  else None.

Inductive Branch := BControl | BFrontend | BBackend.

Section steerable.
Context {F B C T : Type} `{ProxySocket F} `{ProxySocket B} `{ProxySocket C} `{ProxySocket T}.

Record Steerable := mk_steerable {
  st_proxy : Proxy F B C;
  control : T;
  paused : bool;
  message_count : Z;
}.

Definition set_proxy (s : Steerable) (p : Proxy F B C) (n : Z) : Steerable :=
  mk_steerable p (control s) (paused s) (message_count s + n).

Definition stats_reply (n : Z) : message := [ascii_bytes "messages_forwarded=" ++ fmt_u64 n].

(** The branch of the control socket.  Anything that is not a command is
    ignored; the outcome of the reply is ignored too. *)
Definition on_control (s : Steerable) (r : io_result (option message)) : status * Steerable :=
  match r with
  | Err e => (Exited (Err e), s)
  | Ok (Some (cmd_frame :: _)) =>
      match from_bytes cmd_frame with
      | Some Pause => (Running, mk_steerable (st_proxy s) (control s) true (message_count s))
      | Some Resume => (Running, mk_steerable (st_proxy s) (control s) false (message_count s))
      | Some Terminate => (Exited (Ok tt), s)
      | Some Statistics =>
          let '(o, c) := send_multipart (control s) (stats_reply (message_count s)) in
          (match o with Returned _ => Running | Pending => Waiting | Panicked => Crashed end,
           mk_steerable (st_proxy s) c (paused s) (message_count s))
      | None => (Running, s)
      end
  | Ok _ => (Running, s)
  end.

(** A message received while paused is dropped. *)
Definition on_frontend (s : Steerable) (r : io_result (option message)) : status * Steerable :=
  match r with
  | Err e => (Exited (Err e), s)
  | Ok None => (Running, s)
  | Ok (Some msg) =>
      if paused s then (Running, s)
      else
        let p := st_proxy s in
        let '(res, n, b, cap) := forward (backend p) (capture p) msg in
        (res, set_proxy s (mk_proxy (frontend p) b cap) n)
  end.

Definition on_backend (s : Steerable) (r : io_result (option message)) : status * Steerable :=
  match r with
  | Err e => (Exited (Err e), s)
  | Ok None => (Running, s)
  | Ok (Some msg) =>
      if paused s then (Running, s)
      else
        let p := st_proxy s in
        let '(res, n, f, cap) := forward (frontend p) (capture p) msg in
        (res, set_proxy s (mk_proxy f (backend p) cap) n)
  end.

Definition poll_branch (br : Branch) (s : Steerable) : option (option (status * Steerable) * Steerable) :=
  let p := st_proxy s in
  match br with
  | BControl =>
      match recv_multipart (control s) with
      | None => None
      | Some (o, c) =>
          let s := mk_steerable p c (paused s) (message_count s) in
          Some (match o with Returned r => Some (on_control s r) | Pending => None | Panicked => Some (Crashed, s) end, s)
      end
  | BFrontend =>
      match recv_multipart (frontend p) with
      | None => None
      | Some (o, f) =>
          let s := set_proxy s (mk_proxy f (backend p) (capture p)) 0 in
          Some (match o with Returned r => Some (on_frontend s r) | Pending => None | Panicked => Some (Crashed, s) end, s)
      end
  | BBackend =>
      match recv_multipart (backend p) with
      | None => None
      | Some (o, b) =>
          let s := set_proxy s (mk_proxy (frontend p) b (capture p)) 0 in
          Some (match o with Returned r => Some (on_backend s r) | Pending => None | Panicked => Some (Crashed, s) end, s)
      end
  end.

(** One [select!] in the given order of the branches. *)
Fixpoint steer_round (order : list Branch) (s : Steerable) : option (status * Steerable) :=
  match order with
  | [] => Some (Waiting, s)
  | br :: order =>
      match poll_branch br s with
      | None => None
      | Some (Some res, _) => Some res
      | Some (None, s) => steer_round order s
      end
  end.

Fixpoint steer_run (orders : list (list Branch)) (s : Steerable) : option (status * Steerable) :=
  match orders with
  | [] => Some (Running, s)
  | o :: orders =>
      match steer_round o s with
      | Some (Running, s) => steer_run orders s
      | res => res
      end
  end.
End steerable.
#[global] Arguments Steerable : clear implicits.

(** ** The sockets *)

Section instances.
Context {S K : Type} `{AsyncStream S} `{Aead K} (clock : nat -> Z) (fuel : nat) (waits : nat -> bool).

(** XSUB takes the messages of XPUB: a command and a topic, in two frames or in
    one. *)
Definition xsub_send_multipart (x : XSubSocket S K) (msg : message) : outcome unit * XSubSocket S K :=
  match msg with
  | [] => (Returned (Ok tt), x)
  | cmd_frame :: parts =>
      match cmd_frame with
      | [] => (Returned (Ok tt), x)
      | cmd_byte :: tl =>
          let topic := match parts with t :: _ => t | [] => tl end in
          if u8_val cmd_byte =? 0x01 then send_subscription_event x (Subscribe topic)
          else if u8_val cmd_byte =? 0x00 then send_subscription_event x (Unsubscribe topic)
          else (Returned (Ok tt), x)
      end
  end.

Definition xsub_proxy : ProxySocket (XSubSocket S K) :=
  {| recv_multipart := xsub_recv clock fuel; send_multipart := xsub_send_multipart |}.

Definition event_message (e : SubscriptionEvent) : message :=
  match e with Subscribe topic => [[u8 0x01]; topic] | Unsubscribe topic => [[u8 0x00]; topic] end.

Definition xpub_recv_multipart (x : XPubSocket S K) : option (outcome (option message) * XPubSocket S K) :=
  match recv_subscription x with
  | None => None
  | Some (o, x) =>
      Some (match o with
            | Returned (Ok (Some e)) => Returned (Ok (Some (event_message e)))
            | Returned (Ok None) => Returned (Ok None)
            | Returned (Err e) => Returned (Err e)
            | Pending => Pending
            | Panicked => Panicked
            end, x)
  end.

Definition xpub_proxy : ProxySocket (XPubSocket S K) :=
  {| recv_multipart := xpub_recv_multipart; send_multipart := xpub_send |}.

Definition dealer_proxy : ProxySocket (DealerSocket S K) :=
  {| recv_multipart := dealer_recv clock fuel; send_multipart := dealer_send |}.

Definition router_proxy : ProxySocket (RouterSocket S K) :=
  {| recv_multipart := router_recv clock fuel; send_multipart := router_send |}.

(** PULL does not send, PUSH and PUB do not receive, SUB does not send. *)
Definition pull_proxy : ProxySocket (PullSocket S K) :=
  {| recv_multipart := pull_recv clock fuel; send_multipart p _ := (Returned (Ok tt), p) |}.

Definition push_proxy (now : Z) : ProxySocket (PushSocket S K) :=
  {| recv_multipart p := Some (Returned (Ok None), p); send_multipart := push_send now |}.

Definition req_proxy : ProxySocket (ReqSocket S K) :=
  {| recv_multipart := req_recv clock fuel; send_multipart := req_send |}.

Definition rep_proxy : ProxySocket (RepSocket S K) :=
  {| recv_multipart := rep_recv clock fuel; send_multipart := rep_send |}.

Definition pair_proxy : ProxySocket (PairSocket S K) :=
  {| recv_multipart := pair_recv clock fuel; send_multipart := pair_send |}.

Definition pub_proxy : ProxySocket (PubSocket S K) :=
  {| recv_multipart p := Some (Returned (Ok None), p);
     send_multipart p msg := let '(r, p) := pub_send waits p msg in (Returned r, p) |}.

Definition sub_proxy : ProxySocket (SubSocket S K) :=
  {| recv_multipart := sub_recv clock fuel; send_multipart s _ := (Returned (Ok tt), s) |}.
End instances.

(** ** What a proxied socket promises

    A socket's log: what its receives returned, and the messages it was offered
    with what came of them. *)

Inductive call :=
| Received (r : io_result (option message))
| Offered (m : message) (o : outcome unit).

Definition taken_of (c : call) : option message := match c with Received (Ok (Some m)) => Some m | _ => None end.
Definition accepted_of (c : call) : option message := match c with Offered m (Returned (Ok _)) => Some m | _ => None end.

(** The messages taken from a socket, and those it has accepted. *)
Definition taken (l : list call) : list message := omap taken_of l.
Definition accepted (l : list call) : list message := omap accepted_of l.

Lemma taken_app l l' : taken (l ++ l') = taken l ++ taken l'.
Proof. apply omap_app. Qed.
Lemma accepted_app l l' : accepted (l ++ l') = accepted l ++ accepted l'.
Proof. apply omap_app. Qed.

(** [px_inv p ins l]: the messages [ins] are still to be received from [p], and [l]
    is its log.  A receive that does not deliver, one that was dropped while
    waiting included, loses nothing, and no call panics. *)
Class ProxySpec (P : Type) `{ProxySocket P} := {
  px_inv : P -> list message -> list call -> Prop;
  px_recv p ins l :
    px_inv p ins l ->
    exists o p', recv_multipart p = Some (o, p') /\ o <> Panicked /\
      exists ins', px_inv p' ins' (l ++ match o with Returned r => [Received r] | _ => [] end) /\
        ins = (match o with Returned (Ok (Some m)) => [m] | _ => [] end) ++ ins';
  px_send p m ins l :
    px_inv p ins l ->
    exists o p', send_multipart p m = (o, p') /\ o <> Panicked /\ px_inv p' ins (l ++ [Offered m o]);
}.

(** A socket that takes every message, and one that delivers what it has at once. *)
Definition accepting (P : Type) `{ProxySpec P} : Prop :=
  forall p m ins l, px_inv p ins l -> (send_multipart p m).1 = Returned (Ok tt).
Definition delivering (P : Type) `{ProxySpec P} : Prop :=
  forall p m ins l, px_inv p (m :: ins) l -> exists p', recv_multipart p = Some (Returned (Ok (Some m)), p').

(** ** What the proxy is meant to do *)

Inductive side := Front | Back.
#[export] Instance side_eq_dec : EqDecision side.
Proof. solve_decision. Defined.
Definition other (x : side) : side := match x with Front => Back | Back => Front end.
Definition at_side {A : Type} (x : side) (front back : A) : A := match x with Front => front | Back => back end.

(** What came of one [select!]: the side that was ready had no message, it failed,
    or gave one, which was copied and, unless the copy did not complete, offered to
    the other side. *)
Inductive deed :=
| Idled (x : side)
| Lost (x : side) (e : ErrorKind)
| Passed (x : side) (m : message) (copy : outcome unit) (sent : option (outcome unit)).

(** The errors after which the proxy goes on. *)
Definition transient : list ErrorKind := [WouldBlock; Interrupted; TimedOut].

Inductive after_send : outcome unit -> status -> Prop :=
| after_ok : after_send (Returned (Ok tt)) Running
| after_transient e : e ∈ transient -> after_send (Returned (Err e)) Running
| after_fatal e : e ∉ transient -> after_send (Returned (Err e)) (Exited (Err e))
| after_stuck : after_send Pending Waiting.

(** Whatever comes of the copy, the message is offered to the other side. *)
Inductive ends_in : deed -> status -> Prop :=
| ends_idled x : ends_in (Idled x) Running
| ends_lost x e : ends_in (Lost x e) (Exited (Err e))
| ends_uncopied x m : ends_in (Passed x m Pending None) Waiting
| ends_passed x m r o st : after_send o st -> ends_in (Passed x m (Returned r) (Some o)) st.

(** A run: deeds after which the loop goes on, and at last perhaps one after which
    it does not. *)
Inductive relays : list deed -> status -> Prop :=
| relays_start : relays [] Running
| relays_waits : relays [] Waiting
| relays_ends d st : ends_in d st -> st <> Running -> relays [d] st
| relays_goes d ds st : ends_in d Running -> relays ds st -> relays (d :: ds) st.

(** What a deed adds to the log of a side, and to that of the capture socket. *)
Definition calls_at (y : side) (d : deed) : list call :=
  match d with
  | Idled x => if decide (x = y) then [Received (Ok None)] else []
  | Lost x e => if decide (x = y) then [Received (Err e)] else []
  | Passed x m _ sent =>
      if decide (x = y) then [Received (Ok (Some m))] else from_option (λ o, [Offered m o]) [] sent
  end.
Definition copy_of (d : deed) : list call := match d with Passed _ m copy _ => [Offered m copy] | _ => [] end.

Definition log_at (y : side) (ds : list deed) : list call := concat (calls_at y <$> ds).
Definition copies (ds : list deed) : list call := concat (copy_of <$> ds).

Lemma log_at_app y ds ds' : log_at y (ds ++ ds') = log_at y ds ++ log_at y ds'.
Proof. unfold log_at. by rewrite fmap_app, concat_app. Qed.
Lemma copies_app ds ds' : copies (ds ++ ds') = copies ds ++ copies ds'.
Proof. unfold copies. by rewrite fmap_app, concat_app. Qed.

(** A log that may be absent. *)
Definition log (oc : option (list call)) (cs : list call) : option (list call) := (λ l, l ++ cs) <$> oc.

Lemma log_nil oc : log oc [] = oc.
Proof. destruct oc; [|done]. cbn. by rewrite app_nil_r. Qed.

Lemma log_app oc a b : log (log oc a) b = log oc (a ++ b).
Proof. destruct oc; [|done]. cbn. by rewrite app_assoc. Qed.

(** The capture socket is absent, or has the log [oc]. *)
Definition capture_inv {C : Type} `{ProxySpec C} (cap : option C) (oc : option (list call)) : Prop :=
  match cap, oc with
  | None, None => True
  | Some c, Some oc => exists inc, px_inv c inc oc
  | _, _ => False
  end.

Lemma is_transient_spec e : is_transient_send_error e = bool_decide (e ∈ transient).
Proof. by destruct e. Qed.

(** A message taken is offered, unless its copy does not complete. *)
Definition offered (m : message) (sent : option (outcome unit)) : list call := from_option (λ o, [Offered m o]) [] sent.

Lemma forward_spec {D C : Type} `{ProxySpec D} `{ProxySpec C} (x : side) (dst : D) (cap : option C) m ins l oc :
  px_inv dst ins l -> capture_inv cap oc ->
  exists st copy sent dst' cap', forward dst cap m = (st, len (accepted (offered m sent)), dst', cap') /\
    ends_in (Passed x m copy sent) st /\ px_inv dst' ins (l ++ offered m sent) /\ capture_inv cap' (log oc [Offered m copy]) /\
    (accepting D -> accepting C -> copy = Returned (Ok tt) /\ sent = Some (Returned (Ok tt))).
Proof.
  intros Hd Hc. unfold forward. assert (Hcap : exists copy cap', send_capture cap m = (copy, cap') /\ copy <> Panicked /\
    capture_inv cap' (log oc [Offered m copy]) /\ (accepting C -> copy = Returned (Ok tt))).
  { unfold send_capture. destruct cap as [c|], oc as [oc|]; try done; [|by exists (Returned (Ok tt)), None].
    destruct Hc as (inc & Hc). destruct (px_send c m inc oc Hc) as (o & c' & E & Hnp & Hc').
    rewrite E. exists o, (Some c'). split_and!; [done|done|by exists inc|].
    intros Ha. specialize (Ha c m inc oc Hc). by rewrite E in Ha. }
  destruct Hcap as (copy & cap' & -> & Hnp & Hcap' & Hacc). destruct copy as [r| |]; [| |done].
  - destruct (px_send dst m ins l Hd) as (o & dst' & E & Hno & Hd'). rewrite E.
    assert (Hall : accepting D -> accepting C -> @Returned unit r = Returned (Ok tt) /\ Some o = Some (Returned (Ok tt))).
    { intros Ha Hb. specialize (Ha dst m ins l Hd). rewrite E in Ha. cbn in Ha. by rewrite Ha, (Hacc Hb). }
    destruct o as [[[]|e]| |]; [| | |done].
    + eexists _, (Returned r), (Some (Returned (Ok tt))), dst', cap'. split; [reflexivity|]. split; [by repeat constructor|done].
    + eexists _, (Returned r), (Some (Returned (Err e))), dst', cap'. split; [reflexivity|]. split; [|done]. constructor.
      rewrite is_transient_spec. case_bool_decide; by constructor.
    + eexists _, (Returned r), (Some Pending), dst', cap'. split; [reflexivity|]. split; [by repeat constructor|done].
  - exists Waiting, Pending, None, dst, cap'. rewrite app_nil_r. split_and!; [done|constructor|done|done|].
    intros _ Hb. by discriminate (Hacc Hb).
Qed.

Section forwarding.
Context {F B C : Type} `{ProxySpec F} `{ProxySpec B} `{ProxySpec C}.

(** The three sockets of a proxy with what they have yet to deliver and their
    logs. *)
Definition proxy_inv (p : Proxy F B C) (inf : list message) (lf : list call) (inb : list message) (lb : list call)
    (oc : option (list call)) : Prop :=
  px_inv (frontend p) inf lf /\ px_inv (backend p) inb lb /\ capture_inv (capture p) oc.

Definition flawless (d : deed) : Prop :=
  match d with Passed _ _ copy sent => copy = Returned (Ok tt) /\ sent = Some (Returned (Ok tt)) | _ => True end.

(** What some rounds did. *)
Definition did (p' : Proxy F B C) (inf : list message) (lf : list call) (inb : list message) (lb : list call)
    (oc : option (list call)) (ds : list deed) (inf' inb' : list message) : Prop :=
  inf = taken (log_at Front ds) ++ inf' /\ inb = taken (log_at Back ds) ++ inb' /\
  proxy_inv p' inf' (lf ++ log_at Front ds) inb' (lb ++ log_at Back ds) (log oc (copies ds)) /\
  (accepting F -> accepting B -> accepting C -> Forall flawless ds).

(** Polling a branch finds nothing and changes nothing that matters, or does one
    deed.  A side that delivers what it has is not found without. *)
Definition polled (x : side) (ready : Prop) (r : option (option (status * Proxy F B C) * Proxy F B C))
    (inf : list message) (lf : list call) (inb : list message) (lb : list call) (oc : option (list call)) : Prop :=
  match r with
  | None => False
  | Some (None, p) => proxy_inv p inf lf inb lb oc /\ (ready -> at_side x inf inb = [])
  | Some (Some (st, p), _) => exists d inf' inb', ends_in d st /\ did p inf lf inb lb oc [d] inf' inb' /\
      (ready -> at_side x inf inb = [] \/ exists m, taken (calls_at x d) = [m])
  end.

Lemma from_frontend_did p inf lf inb lb oc m :
  proxy_inv p inf (lf ++ [Received (Ok (Some m))]) inb lb oc ->
  exists st p' copy sent, from_frontend p (Ok (Some m)) = (st, p') /\ ends_in (Passed Front m copy sent) st /\
    did p' (m :: inf) lf inb lb oc [Passed Front m copy sent] inf inb.
Proof.
  intros (Hf & Hb & Hc). cbn [from_frontend].
  destruct (forward_spec Front (backend p) (capture p) m inb lb oc Hb Hc) as (st & copy & sent & b' & cap' & -> & He & Hb' & Hc' & Hacc).
  eexists st, _, copy, sent. split; [done|]. split; [done|]. split_and!; [done| | |].
  - by destruct sent.
  - split_and!; [done| |done]. unfold log_at. cbn. by rewrite app_nil_r.
  - intros _ Ha Hc2. repeat constructor; by apply Hacc.
Qed.

Lemma from_backend_did p inf lf inb lb oc m :
  proxy_inv p inf lf inb (lb ++ [Received (Ok (Some m))]) oc ->
  exists st p' copy sent, from_backend p (Ok (Some m)) = (st, p') /\ ends_in (Passed Back m copy sent) st /\
    did p' inf lf (m :: inb) lb oc [Passed Back m copy sent] inf inb.
Proof.
  intros (Hf & Hb & Hc). cbn [from_backend].
  destruct (forward_spec Back (frontend p) (capture p) m inf lf oc Hf Hc) as (st & copy & sent & f' & cap' & -> & He & Hf' & Hc' & Hacc).
  eexists st, _, copy, sent. split; [done|]. split; [done|]. split_and!; [ |done| |].
  - by destruct sent.
  - split_and!; [|done|done]. unfold log_at. cbn. by rewrite app_nil_r.
  - intros Ha _ Hc2. repeat constructor; by apply Hacc.
Qed.

(** A deed without a message. *)
Lemma did_quietly p inf lf inb lb oc d :
  (forall y, taken (calls_at y d) = []) -> copy_of d = [] -> flawless d ->
  proxy_inv p inf (lf ++ calls_at Front d) inb (lb ++ calls_at Back d) oc -> did p inf lf inb lb oc [d] inf inb.
Proof.
  intros Ht Hc Hfl Hp. unfold did, log_at, copies. cbn. rewrite !app_nil_r, Hc, log_nil, !Ht. split_and!; [done|done|done|].
  intros _ _ _. by constructor.
Qed.

Lemma poll_frontend_polled p inf lf inb lb oc :
  proxy_inv p inf lf inb lb oc -> polled Front (delivering F) (poll_frontend p) inf lf inb lb oc.
Proof.
  intros (Hf & Hb & Hc). unfold poll_frontend. destruct (px_recv _ _ _ Hf) as (o & f' & E & Hnp & ins' & Hf' & Hins). rewrite E.
  assert (Hnone : (forall m, o <> Returned (Ok (Some m))) -> delivering F -> inf = []).
  { intros Hno Hd. destruct inf as [|m inf]; [done|]. destruct (Hd _ _ _ _ Hf) as [f2 E2]. rewrite E in E2.
    injection E2 as -> _. by destruct (Hno m). }
  destruct o as [[[m|]|e]| |]; cbn [polled from_frontend]; [| | | |done]; cbn in Hins; subst inf.
  - destruct (from_frontend_did (mk_proxy f' (backend p) (capture p)) ins' lf inb lb oc m) as (st & p' & copy & sent & E' & He & Hd); [done|].
    cbn [from_frontend] in E'. rewrite E'. eexists _, _, _. split_and!; [exact He|exact Hd|]. intros _. right. by exists m.
  - exists (Idled Front), ins', inb. split_and!; [constructor| |intros Hd; left; by apply Hnone].
    apply did_quietly; [by intros []|done|done|]. cbn. rewrite app_nil_r. by split_and!.
  - exists (Lost Front e), ins', inb. split_and!; [constructor| |intros Hd; left; by apply Hnone].
    apply did_quietly; [by intros []|done|done|]. cbn. rewrite app_nil_r. by split_and!.
  - rewrite app_nil_r in Hf'. split; [by split_and!|]. by apply Hnone.
Qed.

Lemma poll_backend_polled p inf lf inb lb oc :
  proxy_inv p inf lf inb lb oc -> polled Back (delivering B) (poll_backend p) inf lf inb lb oc.
Proof.
  intros (Hf & Hb & Hc). unfold poll_backend. destruct (px_recv _ _ _ Hb) as (o & b' & E & Hnp & ins' & Hb' & Hins). rewrite E.
  assert (Hnone : (forall m, o <> Returned (Ok (Some m))) -> delivering B -> inb = []).
  { intros Hno Hd. destruct inb as [|m inb]; [done|]. destruct (Hd _ _ _ _ Hb) as [b2 E2]. rewrite E in E2.
    injection E2 as -> _. by destruct (Hno m). }
  destruct o as [[[m|]|e]| |]; cbn [polled from_backend]; [| | | |done]; cbn in Hins; subst inb.
  - destruct (from_backend_did (mk_proxy (frontend p) b' (capture p)) inf lf ins' lb oc m) as (st & p' & copy & sent & E' & He & Hd); [done|].
    cbn [from_backend] in E'. rewrite E'. eexists _, _, _. split_and!; [exact He|exact Hd|]. intros _. right. by exists m.
  - exists (Idled Back), inf, ins'. split_and!; [constructor| |intros Hd; left; by apply Hnone].
    apply did_quietly; [by intros []|done|done|]. cbn. rewrite app_nil_r. by split_and!.
  - exists (Lost Back e), inf, ins'. split_and!; [constructor| |intros Hd; left; by apply Hnone].
    apply did_quietly; [by intros []|done|done|]. cbn. rewrite app_nil_r. by split_and!.
  - rewrite app_nil_r in Hb'. split; [by split_and!|]. by apply Hnone.
Qed.

Definition ready_at (x : side) : Prop := match x with Front => delivering F | Back => delivering B end.

Lemma proxy_round_did (front_first : bool) p inf lf inb lb oc :
  proxy_inv p inf lf inb lb oc ->
  exists st p', proxy_round front_first p = Some (st, p') /\
    ((st = Waiting /\ proxy_inv p' inf lf inb lb oc) \/
     exists d inf' inb', ends_in d st /\ did p' inf lf inb lb oc [d] inf' inb' /\
       let x := if front_first then Front else Back in
       (ready_at x -> at_side x inf inb = [] \/ exists m, taken (calls_at x d) = [m])).
Proof.
  intros Hp. unfold proxy_round. set (x := if front_first then Front else Back).
  assert (Hfst : polled x (ready_at x) (if front_first then poll_frontend p else poll_backend p) inf lf inb lb oc)
    by (destruct front_first; [by apply poll_frontend_polled|by apply poll_backend_polled]).
  destruct (if front_first then poll_frontend p else poll_backend p) as [[[[st p']|] p1]|]; [| |done].
  { destruct Hfst as (d & inf' & inb' & He & Hd & Hr). eexists _, _. split; [done|]. right. by exists d, inf', inb'. }
  destruct Hfst as [Hp1 Hr1].
  assert (Hsnd : exists y R, polled y R (if front_first then poll_backend p1 else poll_frontend p1) inf lf inb lb oc)
    by (destruct front_first; eexists _, _; [by apply poll_backend_polled|by apply poll_frontend_polled]).
  destruct Hsnd as (y & R & Hsnd).
  destruct (if front_first then poll_backend p1 else poll_frontend p1) as [[[[st p']|] p2]|]; [| |done].
  - destruct Hsnd as (d & inf' & inb' & He & Hd & Hr). eexists _, _. split; [done|]. right. exists d, inf', inb'.
    split_and!; [done|done|]. intros Hrd. left. by apply Hr1.
  - eexists _, _. split; [done|]. left. by destruct Hsnd.
Qed.

Lemma did_trans p p' inf lf inb lb oc d ds inf1 inb1 inf2 inb2 :
  did p inf lf inb lb oc [d] inf1 inb1 ->
  did p' inf1 (lf ++ log_at Front [d]) inb1 (lb ++ log_at Back [d]) (log oc (copies [d])) ds inf2 inb2 ->
  did p' inf lf inb lb oc (d :: ds) inf2 inb2.
Proof.
  intros (-> & -> & _ & Hacc) (-> & -> & Hp & Hacc'). change (d :: ds) with ([d] ++ ds). unfold did.
  rewrite !log_at_app, copies_app, !taken_app, <- !app_assoc, log_app in *. split_and!; [done|done|done|].
  intros. apply Forall_app. auto.
Qed.

(** How often a side is asked first. *)
Definition asked (x : side) (orders : list bool) : nat :=
  length (filter (λ o : bool, o = at_side x true false) orders).

Lemma asked_cons x o orders : asked x (o :: orders) = ((if decide ((if o then Front else Back) = x) then 1 else 0) + asked x orders)%nat.
Proof. unfold asked. rewrite filter_cons. by destruct o, x. Qed.

Lemma proxy_run_did orders p inf lf inb lb oc :
  proxy_inv p inf lf inb lb oc ->
  exists st p' ds inf' inb', proxy_run orders p = Some (st, p') /\ relays ds st /\ did p' inf lf inb lb oc ds inf' inb' /\
    (st = Running -> length ds = length orders /\
       forall x, ready_at x -> at_side x inf' inb' = [] \/ (asked x orders <= length (taken (log_at x ds)))%nat).
Proof.
  revert p inf lf inb lb oc. induction orders as [|o orders IH]; intros p inf lf inb lb oc Hp; cbn [proxy_run].
  { exists Running, p, [], inf, inb. split_and!; [done|constructor| |].
    - unfold did, log_at, copies. cbn. rewrite !app_nil_r, log_nil. by split_and!.
    - intros _. split; [done|]. intros x _. right. cbn. lia. }
  destruct (proxy_round_did o p _ _ _ _ _ Hp) as (st & p1 & -> & [[-> Hp1]|(d & inf1 & inb1 & He & Hd & Hr)]).
  { exists Waiting, p1, [], inf, inb. split_and!; [done|constructor| |done].
    unfold did, log_at, copies. cbn. rewrite !app_nil_r, log_nil. by split_and!. }
  assert (st = Running \/ st <> Running) as [->|Hne] by (destruct st; [by left|by right..]).
  - pose proof Hd as (E1 & E2 & Hp1 & _). destruct (IH _ _ _ _ _ _ Hp1) as (st & p2 & ds & inf2 & inb2 & E & Hrel & Hd2 & Hrun). rewrite E.
    exists st, p2, (d :: ds), inf2, inb2. split_and!; [done|by constructor|by eapply did_trans|]. intros Hst.
    destruct (Hrun Hst) as [Hlen Hask]. split; [cbn; by rewrite Hlen|]. intros x Hx. destruct (Hask x Hx) as [?|Hle]; [by left|].
    rewrite asked_cons. change (d :: ds) with ([d] ++ ds). rewrite log_at_app, taken_app, length_app.
    case_decide as Ex; [|right; lia]. subst x. cbn beta zeta in Hr. destruct (Hr Hx) as [Ein|[m Em]].
    + left. destruct Hd2 as (E3 & E4 & _). destruct o; cbn in Ein |- *.
      * rewrite E1, E3 in Ein. apply app_nil in Ein as [_ Ein]. by apply app_nil in Ein as [_ ?].
      * rewrite E2, E4 in Ein. apply app_nil in Ein as [_ Ein]. by apply app_nil in Ein as [_ ?].
    + right. unfold log_at at 1. cbn [fmap list_fmap concat]. rewrite app_nil_r, Em. cbn. lia.
  - exists st, p1, [d], inf1, inb1. split_and!; [by destruct st|by constructor|done|done].
Qed.
End forwarding.

(** A message that was not accepted is one whose send failed. *)
Lemma relays_accepted x ds st :
  relays ds st -> accepted (log_at (other x) ds) `sublist_of` taken (log_at x ds).
Proof.
  assert (Hone : forall d st, ends_in d st ->
    accepted (log_at (other x) [d]) `sublist_of` taken (log_at x [d])).
  { intros d st' He. unfold log_at. cbn. rewrite !app_nil_r.
    destruct He as [y|y e|y m|y m r o st'' Ho]; [by destruct x, y|by destruct x, y|destruct x, y; cbn; first [done|apply sublist_nil_l]|].
    destruct Ho; destruct x, y; cbn; first [done|apply sublist_nil_l]. }
  induction 1 as [| |d st He _|d ds st He _ IH]; [done|done|by eapply Hone|].
  change (d :: ds) with ([d] ++ ds). rewrite !log_at_app, accepted_app, taken_app. apply sublist_app; [by eapply Hone|done].
Qed.

Lemma flawless_accepted x ds :
  Forall flawless ds -> accepted (log_at (other x) ds) = taken (log_at x ds).
Proof.
  induction 1 as [|d ds Hd _ IH]; [done|]. change (d :: ds) with ([d] ++ ds). rewrite !log_at_app, accepted_app, taken_app, IH. f_equal.
  unfold log_at. cbn. rewrite !app_nil_r. destruct d as [y|y e|y m copy sent]; destruct x, y; try done; by destruct Hd as [-> ->].
Qed.


(** ** A socket made of two queues

    It refuses the messages of a list, each with an error. *)

Record QueueSocket := mk_queue { q_in : list message; q_out : list message; q_refuses : list (message * ErrorKind) }.

Definition refuses (q : QueueSocket) (m : message) : option ErrorKind :=
  snd <$> List.find (λ r, bool_decide (r.1 = m)) (q_refuses q).

#[export] Instance queue_proxy : ProxySocket QueueSocket := {
  recv_multipart q :=
    Some (match q_in q with
          | [] => (Pending, q)
          | m :: ms => (Returned (Ok (Some m)), mk_queue ms (q_out q) (q_refuses q))
          end);
  send_multipart q m :=
    match refuses q m with
    | Some e => (Returned (Err e), q)
    | None => (Returned (Ok tt), mk_queue (q_in q) (q_out q ++ [m]) (q_refuses q))
    end;
}.

#[export] Instance queue_spec : ProxySpec QueueSocket.
Proof.
  refine {| px_inv q ins l := q_in q = ins /\ q_out q = accepted l |}.
  - intros q ins l [<- Hl]. cbn. destruct (q_in q) as [|m ms] eqn:E; eexists _, _; (split; [done|]); (split; [done|]).
    + exists []. by rewrite app_nil_r, E.
    + exists ms. by rewrite accepted_app, app_nil_r.
  - intros q m ins l [<- Hl]. cbn. destruct (refuses q m); eexists _, _; (split; [done|]); rewrite accepted_app; cbn;
      rewrite ?app_nil_r, ?Hl; by split_and!.
Defined.

(** The backend refuses "b" for the moment, the capture socket is gone. *)
Definition sample_proxy : Proxy QueueSocket QueueSocket QueueSocket :=
  mk_proxy (mk_queue [[ascii_bytes "a"]; [ascii_bytes "b"]; [ascii_bytes "c"]] [] [])
    (mk_queue [[ascii_bytes "r"]] [] [([ascii_bytes "b"], WouldBlock)])
    (Some (mk_queue [] [] [([ascii_bytes "a"], BrokenPipe)])).


(** ** PULL and PUSH keep the promises *)

Section forwarder.
Context {S T K : Type} `{WireStream S} `{ChunkStream T} `{!Aead K} (clock : nat -> Z) (fuel : nat) (max now : Z) (base : bytes).
Context (Hrel : reliable (S := S)).

(** What is sent to a PULL socket goes nowhere. *)
Definition pull_spec : @ProxySpec (PullSocket T K) (pull_proxy clock fuel).
Proof.
  refine {| px_inv p ins l := pulling max p ins /\ enough_fuel fuel p ins |}.
  - intros p ins l [Hp Hf]. cbn. destruct ins as [|m ins].
    + destruct (pulling_recv_idle clock max fuel p Hp (proj1 Hf)) as (o & p' & -> & Ho & Hp' & Hc).
      exists o, p'. split; [done|]. split; [by destruct Ho as [->| ->]|]. exists [].
      split; [|by destruct Ho as [->| ->]]. split; [done|]. by split; [apply Hf|].
    + destruct Hf as [Hpos [Hm Hf]%list.Forall_cons].
      destruct (pulling_recv clock max fuel p m ins Hp Hm) as (p' & -> & Hp' & Hc).
      eexists _, p'. split; [done|]. split; [done|]. exists ins. split; [|done]. split; [done|].
      apply (enough_fuel_le fuel p p' [m]); [|done]. by split; [|constructor].
  - intros p m ins l Hp. exists (Returned (Ok tt)), p. split; [done|]. by split.
Defined.

(** [base] was on the wire before. *)
Definition push_spec : @ProxySpec (PushSocket S K) (push_proxy now).
Proof.
  refine {| px_inv p ins l := ins = [] /\ exists sent queued, pushing p sent queued /\ sent ++ queued = base ++ wire_of (accepted l) |}.
  - intros p ins l (-> & Hp). eexists _, p. split; [done|]. split; [done|]. exists []. by rewrite accepted_app, app_nil_r.
  - intros p m ins l (-> & sent & queued & Hp & E). cbn.
    destruct (push_step_pushing now p sent queued (SendOp m) Hrel Hp) as (p' & sent' & queued' & Es & Hp' & E' & _).
    cbn [push_step] in Es. eexists _, p'. split; [exact Es|]. split; [done|]. split; [done|]. exists sent', queued'.
    split; [done|]. rewrite E', app_assoc, E, accepted_app, wire_of_app. by rewrite <- app_assoc.
Defined.

Lemma pull_accepting : @accepting _ _ pull_spec.
Proof. done. Qed.

Lemma push_accepting : @accepting _ _ push_spec.
Proof.
  intros p m ins l (-> & sent & queued & Hp & E).
  destruct (push_step_pushing now p sent queued (SendOp m) Hrel Hp) as (p' & sent' & queued' & Es & _).
  cbn [push_step] in Es. cbn. by rewrite Es.
Qed.
End forwarder.

(** The PULL-PUSH forwarder.  Between a PULL and a PUSH socket whose writes
    complete, for any scheduling, what reaches the wire of the PUSH socket (or
    waits in its buffer) is exactly the encodings of the messages taken from
    the PULL socket, whole, in order and once each, whatever pieces they
    arrived in; what remains is still to be received. *)
Theorem forwarder_relays {S T K : Type} `{WireStream S} `{ChunkStream T} `{!Aead K} (clock : nat -> Z) (fuel : nat) (now : Z)
    (pull : PullSocket T K) (push : PushSocket S K) (sent : bytes) (ms : list message) (orders : list bool) :
  let max := max_frame_size (decoder (pull_base pull)) in
  let _ := pull_proxy clock fuel in let _ := push_proxy now in
  reliable (S := S) -> pulling max pull ms -> enough_fuel fuel pull ms -> pushing push sent [] ->
  exists s p' taken rest sent' queued',
    proxy_run orders (mk_proxy pull push (@None (PullSocket T K))) = Some (s, p') /\
    ms = taken ++ rest /\ pulling max (frontend p') rest /\
    pushing (backend p') sent' queued' /\ sent' ++ queued' = sent ++ wire_of taken.
Proof.
  intros max PL PS Hrel Hpull Hfuel Hpush.
  pose (SL := pull_spec (K := K) clock fuel max). pose (SS := push_spec (K := K) now sent Hrel).
  destruct (proxy_run_did orders (mk_proxy pull push (@None (PullSocket T K))) ms [] [] [] None) as
    (s & p' & ds & inf' & inb' & Hrun & _ & (-> & Hb & (Hf' & Hb' & _) & Hacc) & _).
  - split; [by split|]. split; [|done]. split; [done|]. exists sent, []. split; [done|]. by rewrite !app_nil_r.
  - specialize (Hacc (pull_accepting _ _ _) (push_accepting _ _ _) (pull_accepting _ _ _)). pose proof (flawless_accepted Front ds Hacc : accepted (log_at Back ds) = _) as Ea.
    destruct Hf' as [Hf' _], Hb' as (_ & sent' & queued' & Hpu & E). exists s, p', (taken (log_at Front ds)), inf', sent', queued'.
    split_and!; [done|done|done|done|]. rewrite E. cbn [app]. by rewrite Ea.
Qed.

Definition relay_pull : PullSocket ScriptStream unit :=
  sample_pull (wire_of [[ascii_bytes "a"; ascii_bytes "b"]; [ascii_bytes "c"]]).

Lemma forwarder_relays_witness :
  exists s p', proxy_run (H := pull_proxy (λ _, 0) 100) (H0 := push_proxy 0) (H1 := pull_proxy (λ _, 0) 100)
      [true; true; false; true] (mk_proxy relay_pull (mk_push (base_new (mk_sink []) default_options) : PushSocket SinkStream unit)
        (@None (PullSocket ScriptStream unit))) = Some (s, p') /\
    option_map wire (stream (push_base (backend p'))) = Some (wire_of [[ascii_bytes "a"; ascii_bytes "b"]; [ascii_bytes "c"]]).
Proof.
  destruct (forwarder_relays (λ _, 0) 100 0 relay_pull (mk_push (base_new (mk_sink []) default_options) : PushSocket SinkStream unit) []
    [[ascii_bytes "a"; ascii_bytes "b"]; [ascii_bytes "c"]] [true; true; false; true])
    as (s & p' & taken & rest & sent' & queued' & Hrun & _).
  - split; reflexivity.
  - apply pulling_between.
    + reflexivity.
    + reflexivity.
    + repeat constructor; vm_compute; discriminate.
    + split; try reflexivity.
      * vm_compute. split; reflexivity.
      * apply segbuf_new_wf.
      * eexists. split; [reflexivity|]. split; [repeat constructor; vm_compute; discriminate|vm_compute; reflexivity].
  - split; [lia|]. repeat constructor; vm_compute; lia.
  - unfold pushing, sending. split_and!; [exists (mk_sink []); split; reflexivity|reflexivity..].
  - exists s, p'. split; [exact Hrun|]. vm_compute in Hrun. injection Hrun as _ <-. vm_compute. reflexivity.
Defined.

(** ** The steerable proxy keeps account *)

Section accounting.
Context {F B C T : Type} `{ProxySpec F} `{ProxySpec B} `{ProxySpec C} `{ProxySpec T}.
Implicit Types s : Steerable F B C T.

Definition steer_inv s (inf : list message) (lf : list call) (inb : list message) (lb : list call) (oc : option (list call))
    (inc : list message) : Prop :=
  proxy_inv (st_proxy s) inf lf inb lb oc /\ exists lc, px_inv (control s) inc lc.

(** Some rounds made the calls [cf] and [cb] at the two sides and took the control
    messages [cc]; the counter counts what was accepted; paused and without a
    command, nothing was. *)
Definition steered s s' (inf : list message) (lf : list call) (inb : list message) (lb : list call) (oc : option (list call))
    (inc : list message) (cf cb : list call) (cc : list message) : Prop :=
  exists inf' inb' inc' kc, inf = taken cf ++ inf' /\ inb = taken cb ++ inb' /\ inc = cc ++ inc' /\
    accepted cb `sublist_of` taken cf /\ accepted cf `sublist_of` taken cb /\
    steer_inv s' inf' (lf ++ cf) inb' (lb ++ cb) (log oc kc) inc' /\
    message_count s' = message_count s + len (accepted cb) + len (accepted cf) /\
    (paused s = true -> cc = [] -> paused s' = true /\ accepted cb = [] /\ accepted cf = []).

(** Rounds that took and delivered no message. *)
Lemma steered_quietly s s' inf lf inb lb oc inc inc' cf cb cc :
  taken cf = [] -> taken cb = [] -> accepted cf = [] -> accepted cb = [] -> inc = cc ++ inc' ->
  steer_inv s' inf (lf ++ cf) inb (lb ++ cb) oc inc' -> message_count s' = message_count s -> (cc = [] -> paused s' = paused s) ->
  steered s s' inf lf inb lb oc inc cf cb cc.
Proof.
  intros Tf Tb Af Ab Ei Hs Hc Hp. exists inf, inb, inc', []. rewrite log_nil, Tf, Tb, Af, Ab.
  split_and!; [done|done|done|done|done|done|rewrite Hc; unfold len; cbn; lia|]. intros ? ?. split_and!; [by rewrite Hp|done|done].
Qed.

(** A polled branch: nothing is ready, or the loop's body ran. *)
Definition steer_polled (x : option (option (status * Steerable F B C T) * Steerable F B C T)) s
    (inf : list message) (lf : list call) (inb : list message) (lb : list call) (oc : option (list call)) (inc : list message) : Prop :=
  match x with
  | None => False
  | Some (None, s') => steer_inv s' inf lf inb lb oc inc /\ message_count s' = message_count s /\ paused s' = paused s
  | Some (Some (_, s'), _) => exists cf cb cc, steered s s' inf lf inb lb oc inc cf cb cc
  end.

Lemma poll_control s inf lf inb lb oc inc :
  steer_inv s inf lf inb lb oc inc -> steer_polled (poll_branch BControl s) s inf lf inb lb oc inc.
Proof.
  intros [Hp (lc & Hc)]. cbn [poll_branch]. destruct (px_recv _ _ _ Hc) as (o & c' & -> & Hnp & inc' & Hc' & ->).
  set (s1 := mk_steerable _ _ _ _). assert (Hs1 : steer_inv s1 inf lf inb lb oc inc') by (split; [done|eauto]).
  assert (Hone : forall s2 cc, steer_inv s2 inf lf inb lb oc inc' -> message_count s2 = message_count s ->
    (cc = [] -> paused s2 = paused s) -> exists cf cb cc', steered s s2 inf lf inb lb oc (cc ++ inc') cf cb cc').
  { intros s2 cc Hs2 Hm Hpa. exists [], [], cc. apply (steered_quietly _ _ _ _ _ _ _ _ inc'); try done. by rewrite !app_nil_r. }
  destruct o as [[[m|]|e]| |]; cbn [steer_polled on_control]; [|by apply (Hone _ [])..|done|done].
  destruct m as [|cmd parts]; [by apply (Hone _ [_])|]. destruct (from_bytes cmd) as [[]|]; [by apply (Hone _ [_])..| |by apply (Hone _ [_])].
  destruct (px_send c' (stats_reply (message_count s1)) inc' _ Hc') as (o & c2 & E & _ & Hc2). cbn [control s1]. rewrite E.
  apply (Hone _ [_]); [|done|done]. split; [done|]. eauto.
Qed.

Lemma poll_front s inf lf inb lb oc inc :
  steer_inv s inf lf inb lb oc inc -> steer_polled (poll_branch BFrontend s) s inf lf inb lb oc inc.
Proof.
  intros [(Hf & Hb & Hc) Hctl]. cbn [poll_branch]. destruct (px_recv _ _ _ Hf) as (o & f' & -> & Hnp & inf' & Hf' & ->).
  set (s1 := set_proxy _ _ _). assert (Hc1 : message_count s1 = message_count s) by (cbn; lia).
  destruct o as [[[m|]|e]| |]; cbn [steer_polled on_frontend]; [| | |by rewrite app_nil_r in Hf'|done].
  2: exists [Received (Ok None)], [], [].
  3: exists [Received (Err e)], [], [].
  2-3: apply (steered_quietly _ _ _ _ _ _ _ _ inc); try done; rewrite app_nil_r; by split.
  change (paused s1) with (paused s). destruct (paused s) eqn:Ep.
  - exists [Received (Ok (Some m))], [], [], inf', inb, inc, []. rewrite app_nil_r, log_nil. cbn.
    split_and!; try done; [apply sublist_nil_l|unfold len; cbn; lia].
  - destruct (forward_spec Front (backend (st_proxy s1)) (capture (st_proxy s1)) m inb lb oc Hb Hc)
      as (st & copy & sent & b' & cap' & -> & He & Hb' & Hc' & _).
    assert (Hsub : accepted (offered m sent) `sublist_of` [m]) by (destruct sent as [[[]| |]|]; first [done|apply sublist_nil_l]).
    assert (Ht : taken (offered m sent) = []) by (by destruct sent).
    exists [Received (Ok (Some m))], (offered m sent), [], inf', inb, inc, [Offered m copy]. rewrite Ht.
    split_and!; try done; try congruence. cbn. unfold len in *. cbn. lia.
Qed.

Lemma poll_back s inf lf inb lb oc inc :
  steer_inv s inf lf inb lb oc inc -> steer_polled (poll_branch BBackend s) s inf lf inb lb oc inc.
Proof.
  intros [(Hf & Hb & Hc) Hctl]. cbn [poll_branch]. destruct (px_recv _ _ _ Hb) as (o & b' & -> & Hnp & inb' & Hb' & ->).
  set (s1 := set_proxy _ _ _). assert (Hc1 : message_count s1 = message_count s) by (cbn; lia).
  destruct o as [[[m|]|e]| |]; cbn [steer_polled on_backend]; [| | |by rewrite app_nil_r in Hb'|done].
  2: exists [], [Received (Ok None)], [].
  3: exists [], [Received (Err e)], [].
  2-3: apply (steered_quietly _ _ _ _ _ _ _ _ inc); try done; rewrite app_nil_r; by split.
  change (paused s1) with (paused s). destruct (paused s) eqn:Ep.
  - exists [], [Received (Ok (Some m))], [], inf, inb', inc, []. rewrite app_nil_r, log_nil. cbn.
    split_and!; try done; [apply sublist_nil_l|unfold len; cbn; lia].
  - destruct (forward_spec Back (frontend (st_proxy s1)) (capture (st_proxy s1)) m inf lf oc Hf Hc)
      as (st & copy & sent & f' & cap' & -> & He & Hf' & Hc' & _).
    assert (Hsub : accepted (offered m sent) `sublist_of` [m]) by (destruct sent as [[[]| |]|]; first [done|apply sublist_nil_l]).
    assert (Ht : taken (offered m sent) = []) by (by destruct sent).
    exists (offered m sent), [Received (Ok (Some m))], [], inf, inb', inc, [Offered m copy]. rewrite Ht.
    split_and!; try done; congruence.
Qed.

Lemma steer_round_steered order s inf lf inb lb oc inc :
  steer_inv s inf lf inb lb oc inc ->
  exists r s' cf cb cc, steer_round order s = Some (r, s') /\ steered s s' inf lf inb lb oc inc cf cb cc.
Proof.
  intros Hs. assert (Hgo : forall s1, steer_inv s1 inf lf inb lb oc inc -> message_count s1 = message_count s ->
    paused s1 = paused s ->
    exists r s' cf cb cc, steer_round order s1 = Some (r, s') /\ steered s s' inf lf inb lb oc inc cf cb cc); [|by apply Hgo].
  induction order as [|br order IH]; intros s1 Hs1 Hc1 Hp1; cbn [steer_round].
  { eexists _, _, [], [], []. split; [done|]. apply (steered_quietly _ _ _ _ _ _ _ _ inc); try done. by rewrite !app_nil_r. }
  assert (Hpoll : steer_polled (poll_branch br s1) s1 inf lf inb lb oc inc)
    by (destruct br; [by apply poll_control|by apply poll_front|by apply poll_back]).
  destruct (poll_branch br s1) as [[[[r s2]|] s3]|]; cbn [steer_polled] in Hpoll; [| |done].
  - destruct Hpoll as (cf & cb & cc & Hst). unfold steered in Hst. rewrite Hc1, Hp1 in Hst. by eexists _, _, _, _, _.
  - destruct Hpoll as (Hs3 & Hc3 & Hp3). apply IH; [done|congruence|congruence].
Qed.

Lemma steer_run_steered orders s inf lf inb lb oc inc :
  steer_inv s inf lf inb lb oc inc ->
  exists r s' cf cb cc, steer_run orders s = Some (r, s') /\ steered s s' inf lf inb lb oc inc cf cb cc.
Proof.
  revert s inf lf inb lb oc inc. induction orders as [|o orders IH]; intros s inf lf inb lb oc inc Hs; cbn [steer_run].
  { eexists _, _, [], [], []. split; [done|]. apply (steered_quietly _ _ _ _ _ _ _ _ inc); try done. by rewrite !app_nil_r. }
  destruct (steer_round_steered o s _ _ _ _ _ _ Hs) as (r & s1 & cf & cb & cc & -> & Hst).
  destruct r; [|by eexists _, _, _, _, _..].
  destruct Hst as (inf1 & inb1 & inc1 & kc & -> & -> & -> & Hsf & Hsb & Hs1 & Hn1 & Hp1).
  destruct (IH _ _ _ _ _ _ _ Hs1) as (r & s2 & cf' & cb' & cc' & -> & inf2 & inb2 & inc2 & kc' & -> & -> & -> & Hsf' & Hsb' & Hs2 & Hn2 & Hp2).
  exists r, s2, (cf ++ cf'), (cb ++ cb'), (cc ++ cc'). split; [done|]. exists inf2, inb2, inc2, (kc ++ kc').
  rewrite !taken_app, !accepted_app, <- !app_assoc in *. rewrite log_app in Hs2.
  split_and!; try done; [by apply sublist_app..|rewrite !len_app; lia|].
  intros Hp [-> ->]%app_nil. destruct (Hp1 Hp eq_refl) as (Hp' & -> & ->). by apply Hp2.
Qed.
End accounting.

(** The steerable proxy keeps account, and a paused one drops.  For sockets
    that keep the promises of [ProxySpec], any scheduling and any commands: the
    counter that STATISTICS reports grows by exactly the number of messages
    the two sides accepted, which are in order and without duplicates among
    those received.  While it is paused and no command arrives, the messages it
    receives are consumed and none of them is ever delivered. *)
Theorem steerable_accounting {F B C T : Type} `{ProxySpec F} `{ProxySpec B} `{ProxySpec C} `{ProxySpec T}
    (s : Steerable F B C T) (orders : list (list Branch)) (inf : list message) (lf : list call) (inb : list message) (lb : list call)
    (oc : option (list call)) (inc : list message) :
  steer_inv s inf lf inb lb oc inc ->
  exists r s' cf inf' cb inb' cc inc' kc, steer_run orders s = Some (r, s') /\
    inf = taken cf ++ inf' /\ inb = taken cb ++ inb' /\ inc = cc ++ inc' /\
    accepted cb `sublist_of` taken cf /\ accepted cf `sublist_of` taken cb /\
    steer_inv s' inf' (lf ++ cf) inb' (lb ++ cb) (log oc kc) inc' /\
    message_count s' = message_count s + len (accepted cb) + len (accepted cf) /\
    (paused s = true -> cc = [] -> paused s' = true /\ accepted cb = [] /\ accepted cf = []).
Proof.
  intros Hs. destruct (steer_run_steered orders s _ _ _ _ _ _ Hs)
    as (r & s' & cf & cb & cc & Hrun & inf' & inb' & inc' & kc & Hst).
  by exists r, s', cf, inf', cb, inb', cc, inc', kc.
Qed.

Definition sample_steerable : Steerable QueueSocket QueueSocket QueueSocket QueueSocket :=
  mk_steerable (mk_proxy (mk_queue [[ascii_bytes "a"]; [ascii_bytes "b"]] [] []) (mk_queue [] [] []) None)
    (mk_queue [[as_bytes Pause]; [as_bytes Resume]; [as_bytes Statistics]; [as_bytes Terminate]] [] []) false 0.

(** The first message arrives while the proxy is paused, the second after. *)
Lemma steerable_accounting_witness :
  exists s', steer_run [[BControl]; [BFrontend]; [BControl]; [BFrontend]; [BControl]; [BControl; BFrontend]] sample_steerable
      = Some (Exited (Ok tt), s') /\
    q_out (backend (st_proxy s')) = [[ascii_bytes "b"]] /\ message_count s' = 1 /\
    q_out (control s') = [[ascii_bytes "messages_forwarded=1"]].
Proof.
  destruct (steerable_accounting sample_steerable
    [[BControl]; [BFrontend]; [BControl]; [BFrontend]; [BControl]; [BControl; BFrontend]]
    [[ascii_bytes "a"]; [ascii_bytes "b"]] [] [] [] None
    [[as_bytes Pause]; [as_bytes Resume]; [as_bytes Statistics]; [as_bytes Terminate]])
    as (r & s' & cf & inf' & cb & inb' & cc & inc' & kc & Hrun & _).
  - split; [split; [split; reflexivity|]; split; [split; reflexivity|exact I]|]. exists []. split; reflexivity.
  - vm_compute in Hrun. injection Hrun as <- <-. eexists. split; [vm_compute; reflexivity|]. vm_compute. repeat split; reflexivity.
Defined.

(** ** A backend that never waits *)

(** The PULL-PUSH forwarder never waits.  A PUSH socket's [recv_multipart]
    returns at once, so while the frontend has nothing to deliver every round
    ends without a message and the loop starts over: in no scheduling does the
    proxy ever wait for its sockets. *)
Theorem forwarder_never_waits {F C S K : Type} `{ProxySocket F} `{ProxySocket C} `{AsyncStream S} `{Aead K} (now : Z)
    (idle : F -> Prop) (p : Proxy F (PushSocket S K) C) (orders : list bool) :
  let _ := push_proxy now : ProxySocket (PushSocket S K) in
  (forall f, idle f -> exists f', recv_multipart f = Some (Pending, f') /\ idle f') -> idle (frontend p) ->
  exists p', proxy_run orders p = Some (Running, p') /\ idle (frontend p') /\
    backend p' = backend p /\ capture p' = capture p.
Proof.
  intros PS Hidle. revert p. induction orders as [|o orders IH]; intros p Hp; cbn [proxy_run]; [by exists p|].
  assert (Hround : exists f', proxy_round o p = Some (Running, mk_proxy f' (backend p) (capture p)) /\ idle f').
  { unfold proxy_round. destruct o; unfold poll_frontend, poll_backend.
    - destruct (Hidle _ Hp) as (f' & -> & Hf'). by exists f'.
    - by exists (frontend p). }
  destruct Hround as (f' & -> & Hf'). destruct (IH (mk_proxy f' (backend p) (capture p)) Hf') as (p' & -> & ?). by exists p'.
Qed.

Lemma forwarder_never_waits_witness :
  let _ := push_proxy 0 : ProxySocket (PushSocket SinkStream unit) in
  exists p', proxy_run [true; false; true; true; false]
      (mk_proxy (mk_queue [] [] []) (mk_push (base_new (mk_sink []) default_options)) (@None QueueSocket)) = Some (Running, p').
Proof.
  intros PS. destruct (forwarder_never_waits (S := SinkStream) (K := unit) 0 (λ q : QueueSocket, q_in q = [])
    (mk_proxy (mk_queue [] [] []) (mk_push (base_new (mk_sink []) default_options)) (@None QueueSocket))
    [true; false; true; true; false]) as (p' & Hrun & _).
  - intros f Hf. exists f. cbn. rewrite Hf. split; reflexivity.
  - reflexivity.
  - exists p'. exact Hrun.
Defined.

(** ** The broker of subscriptions *)

(** The broker passes subscriptions on.  An event XPUB has collected is
    handed to XSUB by the proxy as a message of two frames; XSUB announces
    exactly this event on its wire, also when command and topic share one
    frame, as they do in [Socket::recv]. *)
Theorem broker_forwards_events {S K : Type} `{WireStream S} `{!Aead K} (p : XPubSocket S K) (x : XSubSocket S K)
    (e : SubscriptionEvent) (evs : list SubscriptionEvent) (sent queued : bytes) :
  reliable (S := S) -> pending_events p = e :: evs -> sending (xsub_base x) sent queued ->
  exists p' m x', xpub_recv_multipart p = Some (Returned (Ok (Some m)), p') /\ pending_events p' = evs /\
    xsub_send_multipart x m = (Returned (Ok tt), x') /\ xsub_send_multipart x [to_message e] = (Returned (Ok tt), x') /\
    sending (xsub_base x') (sent ++ event_wire e) queued /\ xsub_subscriptions x' = xsub_subscriptions x.
Proof.
  intros Hrel Hp Hx. destruct (send_sub_event_sending _ sent queued e Hrel Hx) as (b' & E & Hb & _).
  assert (Hsend : send_subscription_event x e = (Returned (Ok tt), set_xsub_base x b')).
  { unfold send_subscription_event. by destruct e; cbn [event_prefix] in E; rewrite E. }
  eexists _, (event_message e), (set_xsub_base x b'). unfold xpub_recv_multipart, recv_subscription, take_event. rewrite Hp.
  split; [done|]. split; [done|]. split_and!; [by destruct e|by destruct e|done|done].
Qed.

Lemma broker_forwards_events_witness :
  exists x', xsub_send_multipart (mk_xsub (base_new (mk_sink []) default_options : SocketBase SinkStream unit) trie_new)
      (event_message (Subscribe (ascii_bytes "a"))) = (Returned (Ok tt), x') /\
    option_map wire (stream (xsub_base x')) = Some (event_wire (Subscribe (ascii_bytes "a"))).
Proof.
  destruct (broker_forwards_events
    (mk_xpub [] 1 default_options [Subscribe (ascii_bytes "a")] None (mk_topics ∅ ∅) : XPubSocket SinkStream unit)
    (mk_xsub (base_new (mk_sink []) default_options) trie_new) (Subscribe (ascii_bytes "a")) [] [] [])
    as (p' & m & x' & Hrecv & _ & Hsend & _ & ((s & Hs & Hw) & _) & _).
  - split; reflexivity.
  - reflexivity.
  - unfold sending. split_and!; [exists (mk_sink []); split; reflexivity|reflexivity..].
  - cbn in Hrecv. injection Hrecv as <- <-. exists x'. split; [exact Hsend|]. rewrite Hs. cbn [option_map]. by rewrite Hw.
Defined.

