(* ===== verification/Fan.v ===== *)
(** * Fan-out and fan-in

    monocoque/src/zmq/push_fanout.rs spreads messages over a pool of PUSH
    connections; monocoque/src/zmq/pull_fanin.rs merges the messages of a pool of
    PULL connections, each driven by a task of its own, through a bounded
    channel.  The tasks and the consumer are interleaved one channel operation at
    a time. *)

From S2P Require Import Prelude.
From S2P Require Import SegBuffer.
From S2P Require Import Codec.
From S2P Require Import Options.
From S2P Require Import CurveMessage.
From S2P Require Import Stream.
From S2P Require Import Base.
From S2P Require Import BaseWire.
From S2P Require Import Recv.
From S2P Require Import Pipeline.

(** ** Fan-out *)

Section fanout.
Context {S K : Type} `{AsyncStream S} `{Aead K}.

Record PushFanOut := mk_fanout {
  workers : list (PushSocket S K);
  next : nat;
}.

(** [accept_workers] on connections whose handshake has completed. *)
Definition accept_workers (o : SocketOptions) (conns : list (S * option (CurveMessageCipher K))) : PushFanOut :=
  mk_fanout ((λ c, push_with_options c.1 o c.2) <$> conns) 0.

(** [accept]: the new worker has default options. *)
Definition fanout_accept (f : PushFanOut) (s : S) (c : option (CurveMessageCipher K)) : PushFanOut :=
  mk_fanout (workers f ++ [push_with_options s default_options c]) (next f).

(** The loop of [send] and [send_one], which differ in the [send] of the worker;
    every iteration that goes on removes a worker. *)
Fixpoint fanout_loop (send : PushSocket S K -> outcome unit * PushSocket S K) (fuel : nat) (f : PushFanOut)
    : outcome unit * PushFanOut :=
  match fuel with
  | O => (Returned (Err NotConnected), f)
  | Datatypes.S fuel =>
      if bool_decide (workers f = []) then (Returned (Err NotConnected), f)
      else
        let idx := (next f mod length (workers f))%nat in
        match workers f !! idx with
        | None => (Panicked, f)
        | Some w =>
            if negb (is_connected (push_base w)) then fanout_loop send fuel (mk_fanout (delete idx (workers f)) idx)
            else
              let '(o, w) := send w in
              match o with
              | Returned (Ok _) => (Returned (Ok tt), mk_fanout (<[idx := w]> (workers f)) (idx + 1))
              | Returned (Err e) => (Returned (Err e), mk_fanout (delete idx (workers f)) idx)
              | Pending => (Pending, mk_fanout (<[idx := w]> (workers f)) (next f))
              | Panicked => (Panicked, mk_fanout (<[idx := w]> (workers f)) (next f))
              end
        end
  end.

Definition fanout_send (now : Z) (f : PushFanOut) (msg : list bytes) : outcome unit * PushFanOut :=
  fanout_loop (λ w, push_send now w msg) (Datatypes.S (length (workers f))) f.

Definition fanout_send_one (now : Z) (f : PushFanOut) (frame : bytes) : outcome unit * PushFanOut :=
  fanout_loop (λ w, push_send_one now w frame) (Datatypes.S (length (workers f))) f.

(** [flush] stops at the first worker that fails. *)
Fixpoint flush_all (ws : list (PushSocket S K)) : outcome unit * list (PushSocket S K) :=
  match ws with
  | [] => (Returned (Ok tt), [])
  | w :: ws =>
      match push_flush w with
      | (Returned (Ok _), w) => let '(o, ws) := flush_all ws in (o, w :: ws)
      | (o, w) => (o, w :: ws)
      end
  end.

Definition fanout_flush (f : PushFanOut) : outcome unit * PushFanOut :=
  let '(o, ws) := flush_all (workers f) in (o, mk_fanout ws (next f)).
End fanout.
#[global] Arguments PushFanOut : clear implicits.

(** ** Fan-in *)

Definition MAX_ITEM_MESSAGES : nat := 128.
Definition CHANNEL_CAPACITY : nat := 64.

Section fanin.
Context {S K : Type} `{AsyncStream S} `{Aead K} (clock : nat -> Z) (fuel : nat).

(** A reader task: its socket, the messages of the current batch that are not
    yet in the channel, and whether it still runs. *)
Record FanReader := mk_fan_reader {
  fr_pull : PullSocket S K;
  fr_cur : list (list bytes);
  fr_alive : bool;
}.

Record PullFanIn := mk_fanin {
  rx : list (list (list bytes));
  buf : list (list bytes);
  readers : list FanReader;
}.

Definition fanin_accept_workers (o : SocketOptions) (conns : list (S * option (CurveMessageCipher K))) : PullFanIn :=
  mk_fanin [] [] ((λ c, mk_fan_reader (pull_with_options c.1 o c.2) [] true) <$> conns).

(** One step of [read_into_channel]: the next batch is received, or the next
    chunk is sent; the channel is full when the task does not move. *)
Definition reader_step (ch : list (list (list bytes))) (r : FanReader) : option (list (list (list bytes)) * FanReader) :=
  if negb (fr_alive r) then Some (ch, r)
  else if bool_decide (fr_cur r = []) then
    match pull_recv_batch clock fuel (fr_pull r) with
    | None => None
    | Some (Returned (Ok (Some batch)), p) => Some (ch, mk_fan_reader p batch true)
    | Some (Pending, p) => Some (ch, mk_fan_reader p [] true)
    | Some (_, p) => Some (ch, mk_fan_reader p [] false)
    end
  else if (length ch <? CHANNEL_CAPACITY)%nat then
    Some (ch ++ [take MAX_ITEM_MESSAGES (fr_cur r)], mk_fan_reader (fr_pull r) (drop MAX_ITEM_MESSAGES (fr_cur r)) true)
  else Some (ch, r).

(** The channel is closed when every reader task has ended. *)
Definition closed (f : PullFanIn) : bool := negb (existsb fr_alive (readers f)).

(** [recv_async] when the channel has no item. *)
Definition wait_or_end {A} (f : PullFanIn) : outcome (option A) := if closed f then Returned (Ok None) else Pending.

Definition fanin_recv (f : PullFanIn) : outcome (option (list bytes)) * PullFanIn :=
  match buf f with
  | m :: ms => (Returned (Ok (Some m)), mk_fanin (rx f) ms (readers f))
  | [] =>
      match rx f with
      | [] => (wait_or_end f, f)
      | batch :: ch => (Returned (Ok (head batch)), mk_fanin ch (tail batch) (readers f))
      end
  end.

Definition fanin_try_recv (f : PullFanIn) : outcome (option (list bytes)) * PullFanIn :=
  match buf f with
  | m :: ms => (Returned (Ok (Some m)), mk_fanin (rx f) ms (readers f))
  | [] =>
      match rx f with
      | [] => (Returned (Ok None), f)
      | batch :: ch => (Returned (Ok (head batch)), mk_fanin ch (tail batch) (readers f))
      end
  end.

(** The buffered messages, or the next item; then all items of the channel. *)
Definition fanin_recv_batch (f : PullFanIn) : outcome (option (list (list bytes))) * PullFanIn :=
  match buf f with
  | _ :: _ => (Returned (Ok (Some (buf f ++ concat (rx f)))), mk_fanin [] [] (readers f))
  | [] =>
      match rx f with
      | [] => (wait_or_end f, f)
      | batch :: ch => (Returned (Ok (Some (batch ++ concat ch))), mk_fanin [] [] (readers f))
      end
  end.
End fanin.
#[global] Arguments FanReader : clear implicits.
#[global] Arguments PullFanIn : clear implicits.

(** ** Round robin *)

Section round_robin.
Context {S K : Type} `{WireStream S} `{!Aead K} (now : Z).
Implicit Types (w : PushSocket S K) (f : PushFanOut S K).

(** [w] is healthy, and has accepted [ms] since [base] was on its wire: they are
    on the wire or in its buffer. *)
Definition accepted w (base : bytes) (ms : list (list bytes)) : Prop :=
  exists sent queued, pushing w sent queued /\ sent ++ queued = base ++ wire_of ms.

Lemma accepted_connected w base ms : accepted w base ms -> is_connected (push_base w) = true.
Proof.
  intros (sent & queued & ((((s & Hs & _) & _) & _) & _)). unfold is_connected. rewrite Hs. by apply bool_decide_eq_true_2.
Qed.

Lemma accepted_send w base ms m :
  reliable (S := S) -> accepted w base ms ->
  exists w', push_send now w m = (Returned (Ok tt), w') /\ accepted w' base (ms ++ [m]).
Proof.
  intros Hrel (sent & queued & Hp & E).
  destruct (push_step_pushing now w sent queued (SendOp m) Hrel Hp) as (w' & sent' & queued' & Es & Hp' & E' & _).
  cbn [push_step] in Es. exists w'. split; [done|]. exists sent', queued'. split; [done|].
  rewrite E', app_assoc, E, wire_of_app. by rewrite <- app_assoc.
Qed.

(** The messages that a dealer at position [k] of a pool of [n] gives to [i]. *)
Fixpoint dealt (n i k : nat) (ms : list (list bytes)) : list (list bytes) :=
  match ms with
  | [] => []
  | m :: ms => (if bool_decide ((k mod n)%nat = i) then [m] else []) ++ dealt n i (Datatypes.S k) ms
  end.

Lemma succ_mod n k : (Datatypes.S k mod n = (k mod n + 1) mod n)%nat.
Proof. rewrite Nat.Div0.add_mod_idemp_l. f_equal. lia. Qed.

Lemma dealt_mod n i k k' ms : n <> 0%nat -> (k mod n = k' mod n)%nat -> dealt n i k ms = dealt n i k' ms.
Proof.
  intros Hn. revert k k'. induction ms as [|m ms IH]; intros k k' E; cbn; [done|]. rewrite E. f_equal. apply IH.
  by rewrite !succ_mod, E.
Qed.

Lemma fanout_send_next f m w w' :
  workers f !! (next f mod length (workers f))%nat = Some w -> is_connected (push_base w) = true ->
  push_send now w m = (Returned (Ok tt), w') ->
  fanout_send now f m =
    (Returned (Ok tt), mk_fanout (<[(next f mod length (workers f))%nat := w']> (workers f)) (next f mod length (workers f) + 1)).
Proof.
  intros Hw Hc Hs. unfold fanout_send. cbn [fanout_loop]. rewrite bool_decide_eq_false_2.
  - by rewrite Hw, Hc, Hs.
  - intros E. by rewrite E in Hw.
Qed.

Fixpoint fanout_sends f (ms : list (list bytes)) : outcome unit * PushFanOut S K :=
  match ms with
  | [] => (Returned (Ok tt), f)
  | m :: ms => await! _u, f := fanout_send now f m in fanout_sends f ms
  end.

Lemma fanout_sends_dealt ms f (got : nat -> list (list bytes)) (bases : nat -> bytes) :
  reliable (S := S) -> workers f <> [] ->
  (forall i w, workers f !! i = Some w -> accepted w (bases i) (got i)) ->
  exists f', fanout_sends f ms = (Returned (Ok tt), f') /\ length (workers f') = length (workers f) /\
    forall i w, workers f' !! i = Some w -> accepted w (bases i) (got i ++ dealt (length (workers f)) i (next f) ms).
Proof.
  intros Hrel. revert f got. induction ms as [|m ms IH]; intros f got Hne Hall; cbn [fanout_sends].
  { exists f. split_and!; [done|done|]. intros i w Hw. rewrite app_nil_r. by apply Hall. }
  set (n := length (workers f)). assert (Hn : n <> 0%nat) by (unfold n; by destruct (workers f)).
  set (idx := (next f mod n)%nat). assert (Hidx : (idx < n)%nat) by (by apply Nat.mod_upper_bound).
  destruct (lookup_lt_is_Some_2 (workers f) idx Hidx) as (w & Hw).
  destruct (accepted_send w _ _ m Hrel (Hall _ _ Hw)) as (w' & Hs & Hacc).
  rewrite (fanout_send_next f m w w' Hw (accepted_connected _ _ _ (Hall _ _ Hw)) Hs). cbn [await_bind]. fold n. fold idx.
  destruct (IH (mk_fanout (<[idx := w']> (workers f)) (idx + 1))
    (λ i, got i ++ if bool_decide (idx = i) then [m] else [])) as (f' & -> & Hl & Hgot).
  - cbn. intros E. apply (f_equal length) in E. rewrite length_insert in E. cbn in E. fold n in E. lia.
  - cbn [workers]. intros i v Hv. destruct (decide (idx = i)) as [<-|Hi].
    + rewrite list_lookup_insert_eq in Hv by done. injection Hv as <-. by rewrite bool_decide_eq_true_2.
    + rewrite list_lookup_insert_ne in Hv by done. rewrite bool_decide_eq_false_2, app_nil_r by done. by apply Hall.
  - exists f'. split; [done|]. cbn [workers] in Hl. rewrite length_insert in Hl. split; [done|]. intros i v Hv.
    specialize (Hgot i v Hv). cbn [workers next] in Hgot. rewrite length_insert, <- app_assoc in Hgot. cbn [dealt]. fold n in Hgot.
    rewrite (dealt_mod n i (idx + 1) (Datatypes.S (next f)) ms Hn) in Hgot; [exact Hgot|].
    symmetry. apply succ_mod.
Qed.
End round_robin.

(** Fan-out is round robin.  A pool of healthy workers takes every message,
    each by exactly one of them: worker [i] of [n] accepts, in order and whole,
    exactly those of the messages whose turn it is, starting from the worker
    the pool points at. *)
Theorem fanout_round_robin {S K : Type} `{WireStream S} `{!Aead K} (now : Z) (f : PushFanOut S K) (bases : nat -> bytes)
    (ms : list (list bytes)) :
  reliable (S := S) -> workers f <> [] ->
  (forall i w, workers f !! i = Some w -> accepted w (bases i) []) ->
  exists f', fanout_sends now f ms = (Returned (Ok tt), f') /\ length (workers f') = length (workers f) /\
    forall i w, workers f' !! i = Some w -> accepted w (bases i) (dealt (length (workers f)) i (next f) ms).
Proof. intros Hrel Hne Hall. by apply (fanout_sends_dealt now ms f (λ _, [])). Qed.

Definition sample_pool : PushFanOut SinkStream unit :=
  accept_workers default_options [(mk_sink [], None); (mk_sink [], None); (mk_sink [], None)].

Lemma fanout_round_robin_witness :
  let ms := [[ascii_bytes "a"]; [ascii_bytes "b"]; [ascii_bytes "c"]; [ascii_bytes "d"]] in
  exists f', fanout_sends 0 sample_pool ms = (Returned (Ok tt), f') /\
    ((λ w, option_map wire (stream (push_base w))) <$> workers f') =
      [Some (wire_of [[ascii_bytes "a"]; [ascii_bytes "d"]]); Some (wire_of [[ascii_bytes "b"]]); Some (wire_of [[ascii_bytes "c"]])].
Proof.
  intros ms. destruct (fanout_round_robin 0 sample_pool (λ _, []) ms) as (f' & Hrun & _).
  - split; reflexivity.
  - discriminate.
  - intros i w Hw. assert (w = mk_push (set_cipher (base_new (mk_sink []) default_options) None)) as ->.
    { destruct i as [|[|[|i]]]; [symmetry; apply (inj Some); exact Hw..|].
      apply lookup_lt_Some in Hw. change (length (workers sample_pool)) with 3%nat in Hw. lia. }
    exists [], []. split; [|reflexivity]. unfold pushing, sending.
    split_and!; [exists (mk_sink []); split; reflexivity|reflexivity..].
  - exists f'. split; [exact Hrun|]. vm_compute in Hrun. injection Hrun as <-. vm_compute. reflexivity.
Defined.

(** ** Dead workers *)

Section dead_workers.
Context {S K : Type} `{AsyncStream S} `{Aead K} (send : PushSocket S K -> outcome unit * PushSocket S K).
Implicit Types (w : PushSocket S K) (f : PushFanOut S K).

Definition live w : Prop := is_connected (push_base w) = true.

#[export] Instance live_dec w : Decision (live w).
Proof. unfold live. apply _. Defined.

Lemma delete_dead (ws : list (PushSocket S K)) i w :
  ws !! i = Some w -> ~ live w -> filter live (delete i ws) = filter live ws.
Proof.
  intros Hi Hw. rewrite <- (take_drop_middle ws i w Hi) at 2. rewrite delete_take_drop, !list.filter_app.
  by rewrite filter_cons, decide_False.
Qed.

(** What the loop does with the worker it settles on. *)
Definition settle (ws : list (PushSocket S K)) (nx idx : nat) w : outcome unit * PushFanOut S K :=
  match send w with
  | (Returned (Ok _), w') => (Returned (Ok tt), mk_fanout (<[idx := w']> ws) (idx + 1))
  | (Returned (Err e), _) => (Returned (Err e), mk_fanout (delete idx ws) idx)
  | (Pending, w') => (Pending, mk_fanout (<[idx := w']> ws) nx)
  | (Panicked, w') => (Panicked, mk_fanout (<[idx := w']> ws) nx)
  end.

Lemma fanout_loop_spec fuel f :
  (length (workers f) < fuel)%nat ->
  (filter live (workers f) = [] /\ exists nx, fanout_loop send fuel f = (Returned (Err NotConnected), mk_fanout [] nx)) \/
  (exists ws nx idx w, ws `sublist_of` workers f /\ filter live ws = filter live (workers f) /\ ws !! idx = Some w /\ live w /\
     fanout_loop send fuel f = settle ws nx idx w).
Proof.
  revert f. induction fuel as [|fuel IH]; intros [ws nx] Hf; [lia|]. cbn [fanout_loop workers next] in *.
  case_bool_decide as E; [subst ws; left; by split; [|exists nx]|].
  set (idx := (nx mod length ws)%nat).
  assert (Hidx : (idx < length ws)%nat) by (apply Nat.mod_upper_bound; by destruct ws).
  destruct (lookup_lt_is_Some_2 ws idx Hidx) as (w & Hw). rewrite Hw.
  destruct (is_connected (push_base w)) eqn:Hl; cbn [negb].
  - right. exists ws, nx, idx, w. split_and!; [done|done|done|done|]. unfold settle. by destruct (send w) as [[[]| |] w'].
  - assert (Hd : ~ live w) by (unfold live; congruence). pose proof (delete_dead ws idx w Hw Hd) as Hfl.
    destruct (IH (mk_fanout (delete idx ws) idx)) as [(Hn & nx' & ->)|(ws' & nx' & idx' & w' & Hs & Hfl' & Hrest)]; cbn [workers] in *.
    + rewrite length_delete by (by eexists). lia.
    + left. rewrite <- Hfl. by split; [|exists nx'].
    + right. exists ws', nx', idx', w'. rewrite <- Hfl. split; [|done]. etrans; [exact Hs|]. apply sublist_delete.
Qed.
End dead_workers.

(** Fan-out routes around dead workers.  [send] finds a connected worker if
    there is one, whatever the state of the others and the position; it hands
    the message to that one alone, and drops from the pool only workers that
    are disconnected and the one whose send failed.  Without a connected worker
    it reports [NotConnected] and empties the pool. *)
Theorem fanout_routes_around {S K : Type} `{AsyncStream S} `{Aead K} (now : Z) (f : PushFanOut S K) (msg : list bytes) :
  (filter live (workers f) = [] /\ exists nx, fanout_send now f msg = (Returned (Err NotConnected), mk_fanout [] nx)) \/
  (exists ws nx idx w, ws `sublist_of` workers f /\ filter live ws = filter live (workers f) /\ ws !! idx = Some w /\ live w /\
     fanout_send now f msg = settle (λ w, push_send now w msg) ws nx idx w).
Proof. apply fanout_loop_spec. lia. Qed.

(** A connected worker in good order whose options say never to wait. *)
Definition never_waits {S K : Type} (w : PushSocket S K) : Prop :=
  (exists s, stream (push_base w) = Some s) /\ is_poisoned (push_base w) = false /\ curve_cipher (push_base w) = None /\
  send_buffer (push_base w) = [] /\ is_zero_timeout (send_timeout (options (push_base w))) = true /\
  write_coalescing (options (push_base w)) = false.

Lemma never_waits_send {S K : Type} `{AsyncStream S} `{Aead K} (now : Z) (w : PushSocket S K) msg :
  never_waits w -> msg <> [] -> (push_send now w msg).1 = Returned (Err WouldBlock).
Proof.
  intros ((s & Hs) & Hp & Hc & Hq & Hz & Hco) Hm. unfold push_send. rewrite Hco. destruct (should_vectored_write _ _).
  - unfold send_vectored. rewrite bool_decide_eq_false_2 by done. rewrite bool_decide_eq_true_2 by done. cbn [await_bind].
    by rewrite Hp, Hz.
  - unfold send_now, encode_message_to_write_buf, encode_into. rewrite Hc. unfold write_from_buf.
    cbn [is_poisoned stream options set_cipher set_write_buf]. by rewrite Hp, Hs, Hz.
Qed.

(** Fan-out discards healthy workers.  Any failed send removes the worker.
    With a send timeout of zero, which makes every write report [WouldBlock]
    without touching the connection, each call drops a worker that is connected
    and not poisoned: after as many calls as there were workers the pool is
    empty. *)
Theorem fanout_discards_healthy {S K : Type} `{AsyncStream S} `{Aead K} (now : Z) (f : PushFanOut S K) (msg : list bytes) :
  Forall never_waits (workers f) -> msg <> [] ->
  workers (Nat.iter (length (workers f)) (λ f, (fanout_send now f msg).2) f) = [].
Proof.
  intros Hall Hm. remember (length (workers f)) as n eqn:En. revert f Hall En.
  induction n as [|n IH]; intros f Hall En; [by apply nil_length_inv|]. rewrite Nat.iter_succ_r.
  set (idx := (next f mod length (workers f))%nat).
  assert (Hidx : (idx < length (workers f))%nat) by (apply Nat.mod_upper_bound; lia).
  destruct (lookup_lt_is_Some_2 (workers f) idx Hidx) as (w & Hw).
  assert (Hnw : never_waits w) by (by apply (list.Forall_lookup_1 _ _ _ _ Hall Hw)).
  assert (Hs : (fanout_send now f msg).2 = mk_fanout (delete idx (workers f)) idx).
  { unfold fanout_send. cbn [fanout_loop]. rewrite bool_decide_eq_false_2 by (intros E; rewrite E in En; done).
    fold idx. rewrite Hw. pose proof Hnw as ((s & Es) & _). unfold is_connected. rewrite Es, bool_decide_eq_true_2 by done.
    cbn [negb]. pose proof (never_waits_send now w msg Hnw Hm) as Ho. destruct (push_send now w msg) as [o w']. cbn in Ho. by subst o. }
  rewrite Hs. apply IH; cbn [workers].
  - by apply list.Forall_delete.
  - rewrite length_delete by (by eexists). lia.
Qed.

Definition impatient_pool : PushFanOut SinkStream unit :=
  accept_workers (with_send_timeout default_options 0) [(mk_sink [], None); (mk_sink [], None)].

Lemma fanout_discards_healthy_witness :
  workers (Nat.iter 2 (λ f, (fanout_send 0 f [ascii_bytes "a"]).2) impatient_pool) = [].
Proof.
  apply (fanout_discards_healthy 0 impatient_pool [ascii_bytes "a"]).
  - repeat constructor; exists (mk_sink []); reflexivity.
  - discriminate.
Defined.

(** ** Merging *)

(** [l] interleaves the sequences [ls], piece by piece. *)
Inductive interleaves : list (list (list bytes)) -> list (list bytes) -> Prop :=
| il_start n : interleaves (replicate n []) []
| il_more ls l i li chunk :
    interleaves ls l -> ls !! i = Some li -> interleaves (<[i := li ++ chunk]> ls) (l ++ chunk).

Inductive fan_op := FReader (i : nat) | FRecv | FTryRecv | FRecvBatch.

Section merging.
Context {S K : Type} `{ChunkStream S} `{!Aead K} (clock : nat -> Z) (fuel : nat) (max : Z).
Implicit Types f : PullFanIn S K.

(** A step of a reader task or a call of the consumer, with the messages the
    consumer gets. *)
Definition fan_step f (op : fan_op) : option (list (list bytes) * PullFanIn S K) :=
  match op with
  | FReader i =>
      match readers f !! i with
      | None => Some ([], f)
      | Some r => '(ch, r) ← reader_step clock fuel (rx f) r; Some ([], mk_fanin ch (buf f) (<[i := r]> (readers f)))
      end
  | FRecv => let '(o, f) := fanin_recv f in Some (returned_msg o, f)
  | FTryRecv => let '(o, f) := fanin_try_recv f in Some (returned_msg o, f)
  | FRecvBatch =>
      let '(o, f) := fanin_recv_batch f in Some (match o with Returned (Ok (Some ms)) => ms | _ => [] end, f)
  end.

Fixpoint fan_run f (ops : list fan_op) : option (list (list bytes) * PullFanIn S K) :=
  match ops with
  | [] => Some ([], f)
  | op :: ops => '(ms, f) ← fan_step f op; '(ms', f) ← fan_run f ops; Some (ms ++ ms', f)
  end.

(** Of the messages of one worker, [sent] went into the channel; the others are
    held by its reader or still to be received. *)
Definition reader_inv (r : FanReader S K) (ms sent : list (list bytes)) : Prop :=
  exists rest, ms = sent ++ fr_cur r ++ rest /\ pulling max (fr_pull r) rest /\ enough_fuel fuel (fr_pull r) rest.

Record fan_inv f (mss sents : list (list (list bytes))) (got : list (list bytes)) : Prop := {
  fi_merged : interleaves sents (got ++ buf f ++ concat (rx f));
  fi_readers i r : readers f !! i = Some r -> exists ms sent, mss !! i = Some ms /\ sents !! i = Some sent /\ reader_inv r ms sent;
  fi_capacity : (length (rx f) <= CHANNEL_CAPACITY)%nat;
  fi_items : Forall (λ item, item <> [] /\ (length item <= MAX_ITEM_MESSAGES)%nat) (rx f);
}.

Lemma reader_step_inv ch r ms sent :
  reader_inv r ms sent ->
  exists chunk ch' r', reader_step clock fuel ch r = Some (ch', r') /\ reader_inv r' ms (sent ++ chunk) /\
    ((chunk = [] /\ ch' = ch) \/
     (ch' = ch ++ [chunk] /\ (length ch < CHANNEL_CAPACITY)%nat /\ chunk <> [] /\ (length chunk <= MAX_ITEM_MESSAGES)%nat)).
Proof.
  intros (rest & -> & Hp & Hf). unfold reader_step. destruct (fr_alive r); cbn [negb].
  2:{ exists [], ch, r. rewrite app_nil_r. split; [done|]. split; [by exists rest|by left]. }
  case_bool_decide as Ec.
  - assert (Hb : exists o p got rest', pull_recv_batch clock fuel (fr_pull r) = Some (o, p) /\ rest = got ++ rest' /\
      pulling max p rest' /\ enough_fuel fuel p rest' /\
      ((o = Returned (Ok (Some got))) \/ (got = [] /\ (o = Pending \/ o = Returned (Err TimedOut))))).
    { destruct rest as [|m rest].
      - destruct (pulling_recv_idle clock max fuel _ Hp (proj1 Hf)) as (o & p & Hr & Ho & Hp' & Hc).
        unfold pull_recv_batch. rewrite Hr.
        destruct Ho as [->| ->]; eexists _, p, [], []; (split; [done|]); (split; [done|]); (split; [done|]);
          (split; [split; [apply Hf|constructor]|by right; eauto]).
      - destruct Hf as [Hpos [Hm Hf]%list.Forall_cons].
        destruct (pulling_batch clock max fuel _ m rest Hp Hm) as (got & rest' & p & -> & -> & Hp' & Hc & _).
        exists (Returned (Ok (Some (m :: got)))), p, (m :: got), rest'. split_and!; [done|done|done| |by left].
        apply (enough_fuel_le fuel (fr_pull r) p got); [|done]. by split. }
    destruct Hb as (o & p & got & rest' & -> & -> & Hp' & Hf' & Ho).
    assert (Hinv : forall a, reader_inv (mk_fan_reader p got a) (sent ++ fr_cur r ++ got ++ rest') (sent ++ [])).
    { intros a. exists rest'. rewrite app_nil_r, Ec. by split_and!. }
    destruct Ho as [->|[-> [->| ->]]]; eexists [], ch, _; (split; [done|]); (split; [apply Hinv|by left]).
  - destruct (Nat.ltb_spec (length ch) CHANNEL_CAPACITY) as [Hl|Hl].
    + eexists (take MAX_ITEM_MESSAGES (fr_cur r)), _, _. split; [done|]. split.
      * exists rest. split_and!; [|done|done]. cbn [fr_cur]. rewrite <- !app_assoc, (app_assoc (take _ _)). by rewrite take_drop.
      * right. split_and!; [done|done| |rewrite length_take; lia]. by destruct (fr_cur r).
    + exists [], ch, r. rewrite app_nil_r. split; [done|]. split; [by exists rest|by left].
Qed.

(** The consumer's calls that return one message. *)
Lemma try_recv_recv f :
  (let '(o, f) := fanin_recv f in Some (returned_msg o, f)) = (let '(o, f) := fanin_try_recv f in Some (returned_msg o, f)).
Proof.
  unfold fanin_recv, fanin_try_recv, wait_or_end. destruct (buf f); [|done]. destruct (rx f); [|done]. by destruct (closed f).
Qed.

Lemma fan_recv_inv f mss sents got :
  fan_inv f mss sents got ->
  exists ms f' sents', (let '(o, f) := fanin_recv f in Some (returned_msg o, f)) = Some (ms, f') /\ fan_inv f' mss sents' (got ++ ms).
Proof.
  intros [Hm Hr Hcap Hit]. unfold fanin_recv. destruct (buf f) as [|m ms] eqn:Eb; [destruct (rx f) as [|item ch] eqn:Ex|].
  - exists [], f, sents. unfold wait_or_end. rewrite app_nil_r. split; [by destruct (closed f)|].
    split; [by rewrite Eb, Ex|done|by rewrite Ex|by rewrite Ex].
  - apply list.Forall_cons in Hit as [[Hne _] Hit]. destruct item as [|m item]; [done|].
    eexists [m], _, sents. split; [done|]. split; cbn in *; [by rewrite <- !app_assoc in *|done|lia|done].
  - eexists [m], _, sents. split; [done|]. split; cbn in *; [by rewrite <- !app_assoc in *|done|done|done].
Qed.

Lemma fan_step_inv f op mss sents got :
  fan_inv f mss sents got ->
  exists ms f' sents', fan_step f op = Some (ms, f') /\ fan_inv f' mss sents' (got ++ ms).
Proof.
  intros Hi. pose proof Hi as [Hm Hr Hcap Hit]. destruct op as [i| | |]; cbn [fan_step].
  - destruct (readers f !! i) as [r|] eqn:Ei; [|exists [], f, sents; rewrite app_nil_r; by split].
    destruct (Hr i r Ei) as (ms & sent & Hms & Hsent & Hinv).
    destruct (reader_step_inv (rx f) r ms sent Hinv) as (chunk & ch' & r' & -> & Hinv' & Hch). cbn [mbind option_bind].
    eexists [], _, (<[i := sent ++ chunk]> sents). split; [done|]. rewrite app_nil_r.
    assert (Hlen : (i < length sents)%nat) by (by apply lookup_lt_Some in Hsent).
    assert (Hrd : forall j q, <[i := r']> (readers f) !! j = Some q ->
      exists ms sent', mss !! j = Some ms /\ <[i := sent ++ chunk]> sents !! j = Some sent' /\ reader_inv q ms sent').
    { intros j q Hq. destruct (decide (i = j)) as [<-|Hj].
      - rewrite list_lookup_insert_eq in Hq by (by apply lookup_lt_Some in Ei). injection Hq as <-.
        exists ms, (sent ++ chunk). by rewrite list_lookup_insert_eq.
      - rewrite list_lookup_insert_ne in Hq by done. rewrite list_lookup_insert_ne by done. by apply Hr. }
    destruct Hch as [[-> ->]|(-> & Hl & Hne & Hle)].
    + split; cbn [rx buf readers]; [|done|done|done]. rewrite app_nil_r, list_insert_id by done. done.
    + split; cbn [rx buf readers]; [|done| |].
      * rewrite concat_app, !app_assoc. cbn [concat]. rewrite app_nil_r. apply il_more; [|done]. by rewrite <- !app_assoc.
      * rewrite length_app. cbn. lia.
      * apply Forall_app. split; [done|]. by constructor.
  - by apply (fan_recv_inv f mss sents got).
  - rewrite <- try_recv_recv. by apply (fan_recv_inv f mss sents got).
  - unfold fanin_recv_batch. destruct (buf f) as [|m ms] eqn:Eb; [destruct (rx f) as [|item ch] eqn:Ex|].
    + exists [], f, sents. unfold wait_or_end. rewrite app_nil_r. split; [by destruct (closed f)|].
      split; [by rewrite Eb, Ex|done|by rewrite Ex|by rewrite Ex].
    + eexists _, _, sents. split; [done|]. split; cbn in *; [by rewrite app_nil_r|done|lia|constructor].
    + eexists _, _, sents. split; [done|]. split; cbn in *; [by rewrite app_nil_r|done|lia|constructor].
Qed.

Lemma fan_run_inv ops f mss sents got :
  fan_inv f mss sents got ->
  exists ms f' sents', fan_run f ops = Some (ms, f') /\ fan_inv f' mss sents' (got ++ ms).
Proof.
  revert f sents got. induction ops as [|op ops IH]; intros f sents got Hi; cbn [fan_run].
  - exists [], f, sents. by rewrite app_nil_r.
  - destruct (fan_step_inv f op mss sents got Hi) as (ms & f1 & sents1 & -> & Hi1). cbn [mbind option_bind].
    destruct (IH f1 sents1 _ Hi1) as (ms' & f2 & sents2 & -> & Hi2). cbn [mbind option_bind].
    exists (ms ++ ms'), f2, sents2. by rewrite app_assoc.
Qed.
End merging.

(** C22: fan-in merges exactly once.  Over healthy plaintext connections, whatever
    the interleaving of the reader tasks and of the consumer's [recv], [try_recv] and [recv_batch]: what the
    consumer has got, followed by what is buffered and queued, is an
    interleaving of a prefix of each worker's messages, every message whole,
    once, and in its worker's order; the rest of each worker's messages is with
    its reader or still to be received.  The channel never holds more than 64
    items of at most 128 messages. *)
Theorem fanin_merges {S K : Type} `{ChunkStream S} `{!Aead K} (clock : nat -> Z) (fuel : nat) (max : Z) (f : PullFanIn S K)
    (mss : list (list (list bytes))) (ops : list fan_op) :
  rx f = [] -> buf f = [] ->
  Forall2 (λ r ms, fr_cur r = [] /\ pulling max (fr_pull r) ms /\ enough_fuel fuel (fr_pull r) ms) (readers f) mss ->
  exists got f' sents, fan_run clock fuel f ops = Some (got, f') /\
    interleaves sents (got ++ buf f' ++ concat (rx f')) /\
    (forall i r, readers f' !! i = Some r -> exists sent rest, sents !! i = Some sent /\
       mss !! i = Some (sent ++ fr_cur r ++ rest) /\ pulling max (fr_pull r) rest) /\
    (length (concat (rx f')) <= 64 * 128)%nat.
Proof.
  intros Hrx Hbuf Hall. destruct (fan_run_inv clock fuel max ops f mss (replicate (length mss) []) [])
    as (got & f' & sents & Hrun & [Hm Hr Hcap Hit]).
  - split; rewrite ?Hrx, ?Hbuf; [constructor| |cbn; lia|constructor]. intros i r Hi.
    destruct (Forall2_lookup_l _ _ _ _ _ Hall Hi) as (ms & Hms & Hcur & Hp & Hf). exists ms, []. split_and!; [done| |].
    + apply lookup_replicate. split; [done|]. by apply lookup_lt_Some in Hms.
    + exists ms. by rewrite Hcur.
  - exists got, f', sents. split_and!; [done|done| |].
    + intros i r Hi. destruct (Hr i r Hi) as (ms & sent & Hms & Hsent & rest & -> & Hp & _). eauto 10.
    + enough (length (concat (rx f')) <= length (rx f') * 128)%nat by (unfold CHANNEL_CAPACITY in Hcap; lia).
      clear -Hit. induction Hit as [|item items [_ Hi] Hit IH]; [done|]. cbn [concat length]. rewrite length_app.
      unfold MAX_ITEM_MESSAGES in Hi. lia.
Qed.

Definition sample_fanin : PullFanIn ScriptStream unit :=
  mk_fanin [] []
    [mk_fan_reader (sample_pull (wire_of [[ascii_bytes "a"; ascii_bytes "b"]; [ascii_bytes "c"]])) [] true;
     mk_fan_reader (sample_pull (wire_of [[ascii_bytes "x"]; [ascii_bytes "y"]; [ascii_bytes "z"]])) [] true].

Definition sample_schedule : list fan_op :=
  [FReader 0; FReader 1; FReader 1; FReader 0; FRecv; FReader 0; FReader 1; FReader 0; FReader 1; FRecvBatch].

Lemma sample_pulling (ms : list (list bytes)) :
  Forall (sendable default_max_frame_size) ms -> ztake 7 (wire_of ms) <> [] -> zdrop 7 (wire_of ms) <> [] ->
  pulling default_max_frame_size (sample_pull (wire_of ms)) ms.
Proof.
  intros Hs H1 H2. apply pulling_between; [reflexivity|reflexivity|done|].
  split; try reflexivity; [vm_compute; split; reflexivity|apply segbuf_new_wf|].
  eexists. split; [reflexivity|]. split; [by repeat constructor|]. cbn [incoming sc_input script_chunks concat].
  rewrite app_nil_r, ztake_zdrop. done.
Qed.

Lemma fanin_merges_witness :
  exists got f', fan_run (λ _, 0) 100 sample_fanin sample_schedule = Some (got, f') /\
    got = [[ascii_bytes "x"]; [ascii_bytes "y"]; [ascii_bytes "a"; ascii_bytes "b"]; [ascii_bytes "c"]; [ascii_bytes "z"]].
Proof.
  destruct (fanin_merges (λ _, 0) 100 default_max_frame_size sample_fanin
    [[[ascii_bytes "a"; ascii_bytes "b"]; [ascii_bytes "c"]]; [[ascii_bytes "x"]; [ascii_bytes "y"]; [ascii_bytes "z"]]]
    sample_schedule) as (got & f' & sents & Hrun & _).
  - reflexivity.
  - reflexivity.
  - constructor; [|constructor; [|constructor]]; (split; [reflexivity|]); (split; [apply sample_pulling|split; [lia|]]);
      first [repeat constructor; vm_compute; discriminate | vm_compute; discriminate | repeat constructor; vm_compute; lia].
  - exists got, f'. split; [exact Hrun|]. vm_compute in Hrun. injection Hrun as <- _. reflexivity.
Defined.
