(* ===== verification/StreamSocket.v ===== *)
(** * The STREAM socket

    monocoque-zmtp/src/stream.rs: plain TCP connections behind routing ids.
    Every accepted connection has a reader task, which feeds the socket's inbound
    channel, and a writer task, which drains the peer's outbound channel.  The
    tasks and the application are interleaved one channel or stream operation
    at a time; [conns] holds the state of the tasks by routing id, and a peer is
    in the socket's table while [cn_open]. *)

From S2P Require Import Prelude.
From S2P Require Import Options.
From S2P Require Import Stream.
From S2P Require Import BaseWire.
From S2P Require Import Recv.

(** The states of [peer_reader]: before the notification of the connection, in
    the loop, with data to hand over, past the loop, ended. *)
Inductive reader_phase :=
| PStart
| PReading
| PDeliver (data : bytes)
| PLeaving
| PDone.

Section stream_socket.
Context {S : Type} `{AsyncStream S}.

Record Conn := mk_conn {
  cn_reader : S;
  cn_phase : reader_phase;
  cn_open : bool;              (** the peer's handle is in the table *)
  cn_out : list bytes;         (** the outbound channel *)
  cn_writer : S;
  cn_writing : bool;           (** the writer task runs *)
}.

Record StreamSocket := mk_stream {
  ss_inbound : list (list bytes);
  ss_conns : gmap bytes Conn;
  ss_next_id : Z;
  ss_options : SocketOptions;
}.

Definition stream_bind : StreamSocket := mk_stream [] ∅ 1 default_options.

Definition put_conn (k : StreamSocket) (id : bytes) (c : Conn) : StreamSocket :=
  mk_stream (ss_inbound k) (<[id := c]> (ss_conns k)) (ss_next_id k) (ss_options k).

Definition put_inbound (k : StreamSocket) (q : list (list bytes)) : StreamSocket :=
  mk_stream q (ss_conns k) (ss_next_id k) (ss_options k).

(** A channel bounded by a high-water mark, which is unbounded when zero. *)
Definition has_room {A} (hwm : Z) (q : list A) : bool := (hwm =? 0) || (len q <? hwm).

(** The inbound channel is created by [bind], with the default options. *)
Definition inbound_room (k : StreamSocket) : bool := has_room (recv_hwm default_options) (ss_inbound k).

Definition routing_id (n : Z) : bytes := be_bytes 8 n.

(** [accept_raw], with the halves of the accepted stream. *)
Definition accept_raw (k : StreamSocket) (r w : S) : bytes * StreamSocket :=
  let id := routing_id (ss_next_id k) in
  (id, mk_stream (ss_inbound k) (<[id := mk_conn r PStart true [] w true]> (ss_conns k))
         ((ss_next_id k + 1) mod 2 ^ 64) (ss_options k)).

Definition set_phase (c : Conn) (s : S) (p : reader_phase) : Conn :=
  mk_conn s p (cn_open c) (cn_out c) (cn_writer c) (cn_writing c).

(** One step of [peer_reader].  A message waits while the channel is full; the
    notification at the end is dropped instead.  The shutdown branch comes
    first. *)
Definition reader_step (k : StreamSocket) (id : bytes) : StreamSocket :=
  match ss_conns k !! id with
  | None => k
  | Some c =>
      match cn_phase c with
      | PStart =>
          if inbound_room k
          then put_conn (put_inbound k (ss_inbound k ++ [[id; []; []]])) id (set_phase c (cn_reader c) PReading) else k
      | PReading =>
          if negb (cn_open c) then put_conn k id (set_phase c (cn_reader c) PLeaving)
          else
            let '(done, s) := stream_read (cn_reader c) (read_buffer_size (ss_options k)) in
            match done with
            | Stalled => put_conn k id (set_phase c s PReading)
            | Completed (Ok []) => put_conn k id (set_phase c s PLeaving)
            | Completed (Ok data) => put_conn k id (set_phase c s (PDeliver data))
            | Completed (Err _) => put_conn k id (set_phase c s PLeaving)
            end
      | PDeliver data =>
          if inbound_room k
          then put_conn (put_inbound k (ss_inbound k ++ [[id; []; data]])) id (set_phase c (cn_reader c) PReading) else k
      | PLeaving =>
          put_conn (if inbound_room k then put_inbound k (ss_inbound k ++ [[id; []; []]]) else k) id (set_phase c (cn_reader c) PDone)
      | PDone => k
      end
  end.

(** One step of [peer_writer]: it ends when a write fails, or when the queue is
    empty and the peer's handle is gone; while a write does not complete the
    task does not move. *)
Definition writer_step (k : StreamSocket) (id : bytes) : StreamSocket :=
  match ss_conns k !! id with
  | None => k
  | Some c =>
      if negb (cn_writing c) then k
      else match cn_out c with
      | [] => if cn_open c then k else put_conn k id (mk_conn (cn_reader c) (cn_phase c) false [] (cn_writer c) false)
      | data :: out =>
          let '(done, s) := stream_write_all (cn_writer c) data in
          match done with
          | Completed (Ok _) => put_conn k id (mk_conn (cn_reader c) (cn_phase c) (cn_open c) out s true)
          | Completed (Err _) => put_conn k id (mk_conn (cn_reader c) (cn_phase c) (cn_open c) out s false)
          | Stalled => k
          end
      end
  end.

(** [recv]: the socket itself holds a sender, so the channel is never closed. *)
Definition stream_recv (k : StreamSocket) : outcome (option (list bytes)) * StreamSocket :=
  match ss_inbound k with
  | [] => (Pending, k)
  | m :: q => (Returned (Ok (Some m)), put_inbound k q)
  end.

Definition close_peer (k : StreamSocket) (id : bytes) : bool * StreamSocket :=
  match ss_conns k !! id with
  | Some c =>
      if cn_open c then (true, put_conn k id (mk_conn (cn_reader c) (cn_phase c) false (cn_out c) (cn_writer c) (cn_writing c)))
      else (false, k)
  | None => (false, k)
  end.

(** The first frame after the routing id that is not empty. *)
Definition payload_of (frames : list bytes) : bytes := default [] (find (λ f, negb (bool_decide (f = []))) frames).

Definition stream_send (k : StreamSocket) (msg : list bytes) : io_result unit * StreamSocket :=
  match msg with
  | [] => (Err InvalidInput, k)
  | id :: frames =>
      let data := payload_of frames in
      if bool_decide (data = []) then (Ok tt, (close_peer k id).2)
      else match ss_conns k !! id with
      | Some c =>
          if negb (cn_open c) then (Ok tt, k)
          else if negb (cn_writing c) then (Err BrokenPipe, k)
          else if negb (has_room (send_hwm (ss_options k)) (cn_out c)) then (Err WouldBlock, k)
          else (Ok tt, put_conn k id (mk_conn (cn_reader c) (cn_phase c) true (cn_out c ++ [data]) (cn_writer c) true))
      | None => (Ok tt, k)
      end
  end.

Definition peer_count (k : StreamSocket) : nat := length (filter (λ e, cn_open e.2 = true) (map_to_list (ss_conns k))).
End stream_socket.
#[global] Arguments Conn : clear implicits.
#[global] Arguments StreamSocket : clear implicits.

(** ** What the application receives *)

Inductive stream_op {S : Type} :=
| SAccept (r w : S)
| SReader (id : bytes)
| SWriter (id : bytes)
| SRecv
| SSend (msg : list bytes)
| SClose (id : bytes).
Arguments stream_op : clear implicits.

Section receiving.
Context {S : Type} `{ChunkStream S}.
Implicit Types k : StreamSocket S.

(** What the application learns from a call: the routing id of the connection it
    accepted, whose peer writes to [r], or a message. *)
Inductive stream_event :=
| Accepted (id : bytes) (r : S)
| Arrived (m : list bytes).

Definition stream_step k (op : stream_op S) : list stream_event * StreamSocket S :=
  match op with
  | SAccept r w => let '(id, k) := accept_raw k r w in ([Accepted id r], k)
  | SReader id => ([], reader_step k id)
  | SWriter id => ([], writer_step k id)
  | SRecv => let '(o, k) := stream_recv k in (match o with Returned (Ok (Some m)) => [Arrived m] | _ => [] end, k)
  | SSend msg => ([], (stream_send k msg).2)
  | SClose id => ([], (close_peer k id).2)
  end.

Fixpoint stream_run k (ops : list (stream_op S)) : list stream_event * StreamSocket S :=
  match ops with
  | [] => ([], k)
  | op :: ops => let '(ms, k) := stream_step k op in let '(ms', k) := stream_run k ops in (ms ++ ms', k)
  end.

(** The messages received, and the connections accepted, with their routing ids. *)
Definition arrived_in (es : list stream_event) : list (list bytes) := omap (λ e, match e with Arrived m => Some m | _ => None end) es.
Definition accepted_in (es : list stream_event) : list (bytes * S) := omap (λ e, match e with Accepted id r => Some (id, r) | _ => None end) es.

(** The payloads of the messages that carry a routing id. *)
Definition payloads (id : bytes) (msgs : list (list bytes)) : list bytes :=
  omap (λ m, match m with [i; _; data] => if bool_decide (i = id) then Some data else None | _ => None end) msgs.

(** The sequence the application sees of one connection whose peer sends
    [total]: a notification, then the bytes in order and in pieces that are not
    empty, then perhaps another notification. *)
Definition seen (c : Conn S) (total : bytes) (ps : list bytes) : Prop :=
  match cn_phase c with
  | PStart => ps = [] /\ concat (incoming (cn_reader c)) = total
  | PReading => exists ds, ps = [] :: ds /\ Forall (λ d, d <> []) ds /\ concat ds ++ concat (incoming (cn_reader c)) = total
  | PDeliver data => exists ds, ps = [] :: ds /\ Forall (λ d, d <> []) ds /\ data <> [] /\
      concat ds ++ data ++ concat (incoming (cn_reader c)) = total
  | PLeaving => exists ds, ps = [] :: ds /\ Forall (λ d, d <> []) ds /\ concat ds `prefix_of` total
  | PDone => exists ds tl, ps = [] :: ds ++ tl /\ Forall (λ d, d <> []) ds /\ concat ds `prefix_of` total /\ (tl = [] \/ tl = [[]])
  end.

(** Every connection shows what the peer it was accepted from had to give; [rs] are
    the connections accepted so far. *)
Record stream_inv k (got : list (list bytes)) (rs : list (bytes * S)) : Prop := {
  si_fresh id c : ss_conns k !! id = Some c -> (exists n, 0 <= n < ss_next_id k /\ id = routing_id n) /\ id ∈ rs.*1;
  si_seen id r : (id, r) ∈ rs -> exists c, ss_conns k !! id = Some c /\ seen c (concat (incoming r)) (payloads id (got ++ ss_inbound k));
  si_ids : NoDup rs.*1;
  si_other id : ss_conns k !! id = None -> payloads id (got ++ ss_inbound k) = [];
}.

Lemma payloads_app id a b : payloads id (a ++ b) = payloads id a ++ payloads id b.
Proof. unfold payloads. apply omap_app. Qed.

Lemma payloads_one id i d : payloads id [[i; []; d]] = if bool_decide (i = id) then [d] else [].
Proof. unfold payloads. cbn. by destruct (bool_decide (i = id)). Qed.

(** A task replaces its connection's state and may put one message in the
    channel. *)
Lemma task_inv k got rs id c c' (ms : list bytes) :
  stream_inv k got rs -> ss_conns k !! id = Some c ->
  (forall r, seen c (concat (incoming r)) (payloads id (got ++ ss_inbound k)) ->
     seen c' (concat (incoming r)) (payloads id (got ++ ss_inbound k) ++ ms)) ->
  stream_inv (put_conn (put_inbound k (ss_inbound k ++ ((λ d, [id; []; d]) <$> ms))) id c') got rs.
Proof.
  intros [Hf Hs Hd Ho] Hc Hstep.
  assert (Hp : forall i, payloads i ((λ d, [id; []; d]) <$> ms) = if bool_decide (id = i) then ms else []).
  { intros i. clear Hstep. induction ms as [|m ms IH]; cbn [fmap list_fmap]; [by case_bool_decide|].
    etrans; [apply (payloads_app i [[id; []; m]])|]. rewrite payloads_one, IH. by case_bool_decide. }
  split; cbn [ss_conns ss_inbound ss_next_id put_conn put_inbound]; [intros i|intros i|done|intros i].
  - intros c0. destruct (decide (id = i)) as [<-|Hi]; [intros _; by apply (Hf _ c)|]. rewrite lookup_insert_ne by done. apply Hf.
  - intros r Hr. destruct (Hs i r Hr) as (c0 & Hc0 & Hseen). rewrite app_assoc, payloads_app, Hp. destruct (decide (id = i)) as [<-|Hi].
    + rewrite lookup_insert_eq, bool_decide_eq_true_2 by done. exists c'. split; [done|]. apply Hstep. congruence.
    + rewrite lookup_insert_ne, bool_decide_eq_false_2, app_nil_r by done. eauto.
  - destruct (decide (id = i)) as [<-|Hi]; [by rewrite lookup_insert_eq|]. rewrite lookup_insert_ne by done.
    rewrite app_assoc, payloads_app, Hp, bool_decide_eq_false_2, app_nil_r by done. apply Ho.
Qed.

(** The same without a message. *)
Lemma quiet_inv k got rs id c c' :
  stream_inv k got rs -> ss_conns k !! id = Some c ->
  (forall r ps, seen c (concat (incoming r)) ps -> seen c' (concat (incoming r)) ps) -> stream_inv (put_conn k id c') got rs.
Proof.
  intros Hi Hc Hstep. pose proof (task_inv k got rs id c c' [] Hi Hc) as Ht. cbn in Ht. destruct k as [q cs n o].
  cbn in *. rewrite !app_nil_r in Ht. apply Ht. intros r. apply Hstep.
Qed.

Lemma peer_reader_inv k got rs id : stream_inv k got rs -> stream_inv (reader_step k id) got rs.
Proof.
  intros Hi. unfold reader_step. destruct (ss_conns k !! id) as [c|] eqn:Hc; [|done]. destruct (cn_phase c) as [| |data| |] eqn:Ep.
  - destruct (inbound_room k); [|done]. apply (task_inv k got rs id c _ [[]] Hi Hc). intros r. unfold seen. rewrite Ep. cbn.
    intros [-> E]. exists []. by split_and!.
  - destruct (cn_open c); cbn [negb].
    + pose proof (read_chunk (cn_reader c) (read_buffer_size (ss_options k))) as Hread.
      destruct (stream_read (cn_reader c) _) as [o s]. cbn [fst snd] in Hread. destruct (incoming (cn_reader c)) as [|ch chs] eqn:Ei.
      * destruct Hread as [-> Hs]. apply (quiet_inv k got rs id c _ Hi Hc). intros r ps. unfold seen. rewrite Ep. cbn. by rewrite Ei, Hs.
      * destruct Hread as [-> Hs]. destruct ch as [|x ch]; apply (quiet_inv k got rs id c _ Hi Hc); intros r ps; unfold seen;
          rewrite Ep; cbn; rewrite Ei; intros (ds & -> & Hd & E); exists ds; split_and!; try done; [by eexists|by rewrite Hs].
    + apply (quiet_inv k got rs id c _ Hi Hc). intros r ps. unfold seen. rewrite Ep. cbn. intros (ds & -> & Hd & <-).
      exists ds. split_and!; [done|done|by eexists].
  - destruct (inbound_room k); [|done]. apply (task_inv k got rs id c _ [data] Hi Hc). intros r. unfold seen. rewrite Ep. cbn.
    intros (ds & -> & Hd & Hne & <-). exists (ds ++ [data]). rewrite concat_app, <- app_assoc. cbn. rewrite app_nil_r.
    split_and!; [done| |done]. apply Forall_app. by split; [|constructor].
  - destruct (inbound_room k).
    + apply (task_inv k got rs id c _ [[]] Hi Hc). intros r. unfold seen. rewrite Ep. cbn.
      intros (ds & -> & Hd & Hpre). exists ds, [[]]. split_and!; [done|done|done|by right].
    + apply (quiet_inv k got rs id c _ Hi Hc). intros r ps. unfold seen. rewrite Ep. cbn.
      intros (ds & -> & Hd & Hpre). exists ds, []. rewrite app_nil_r. split_and!; [done|done|done|by left].
  - done.
Qed.

(** The phase and the reader decide what is seen. *)
Lemma seen_same c c' total ps : cn_phase c' = cn_phase c -> cn_reader c' = cn_reader c -> seen c total ps -> seen c' total ps.
Proof. unfold seen. intros -> ->. done. Qed.

Lemma writer_step_inv k got rs id : stream_inv k got rs -> stream_inv (writer_step k id) got rs.
Proof.
  intros Hi. unfold writer_step. destruct (ss_conns k !! id) as [c|] eqn:Hc; [|done]. destruct (negb (cn_writing c)); [done|].
  assert (Hq : forall c', cn_phase c' = cn_phase c -> cn_reader c' = cn_reader c -> stream_inv (put_conn k id c') got rs).
  { intros c' E1 E2. apply (quiet_inv k got rs id c c' Hi Hc). intros r ps. by apply seen_same. }
  destruct (cn_out c) as [|d out]; [destruct (cn_open c); [done|by apply Hq]|].
  destruct (stream_write_all _ _) as [[[]|] s]; [by apply Hq..|done].
Qed.

Lemma close_peer_inv k got rs id : stream_inv k got rs -> stream_inv (close_peer k id).2 got rs.
Proof.
  intros Hi. unfold close_peer. destruct (ss_conns k !! id) as [c|] eqn:Hc; [|done]. destruct (cn_open c); [|done].
  apply (quiet_inv k got rs id c _ Hi Hc). intros r ps. by apply seen_same.
Qed.

Lemma send_inv k got rs msg : stream_inv k got rs -> stream_inv (stream_send k msg).2 got rs.
Proof.
  intros Hi. unfold stream_send. destruct msg as [|id frames]; [done|]. case_bool_decide; [by apply close_peer_inv|].
  destruct (ss_conns k !! id) as [c|] eqn:Hc; [|done]. destruct (negb (cn_open c)); [done|].
  destruct (negb (cn_writing c)); [done|]. destruct (negb _); [done|].
  apply (quiet_inv k got rs id c _ Hi Hc). intros r ps. by apply seen_same.
Qed.

Lemma routing_id_inj a b : 0 <= a < 2 ^ 64 -> 0 <= b < 2 ^ 64 -> routing_id a = routing_id b -> a = b.
Proof. intros Ha Hb E. apply (f_equal be_val) in E. unfold routing_id in E. rewrite !be_val_be_bytes in E; lia. Qed.

Lemma accept_inv k got rs r w :
  0 <= ss_next_id k -> ss_next_id k + 1 < 2 ^ 64 -> stream_inv k got rs -> stream_inv (accept_raw k r w).2 got (rs ++ [((accept_raw k r w).1, r)]).
Proof.
  intros Hge Hlt [Hf Hs Hd Ho]. set (id := routing_id (ss_next_id k)).
  assert (Hnew : ss_conns k !! id = None).
  { destruct (ss_conns k !! id) as [c|] eqn:E; [|done]. destruct (Hf id c E) as ((n & Hn & En) & _).
    apply routing_id_inj in En; lia. }
  split; cbn [accept_raw fst snd ss_conns ss_inbound ss_next_id]; fold id; rewrite ?Z.mod_small by lia; [intros i|intros i|idtac|intros i].
  - intros c. destruct (decide (id = i)) as [<-|Hi]; rewrite fmap_app, elem_of_app;
      [intros _; split; [exists (ss_next_id k); split; [lia|done]|by right; left]|].
    rewrite lookup_insert_ne by done. intros Hc. destruct (Hf i c Hc) as ((n & Hn & ->) & Hin). split; [exists n; split; [lia|done]|by left].
  - intros r0 [Hr|[= -> ->]%list_elem_of_singleton]%elem_of_app.
    + destruct (Hs i r0 Hr) as (c & Hc & Hseen). exists c. rewrite lookup_insert_ne by congruence. done.
    + exists (mk_conn r PStart true [] w true). rewrite lookup_insert_eq. split; [done|]. split; [by apply Ho|done].
  - rewrite fmap_app. apply list.NoDup_app. split_and!; [done| |apply list.NoDup_singleton]. intros i Hi Hin%list_elem_of_singleton.
    cbn in Hin. subst i. apply list_elem_of_fmap in Hi as ([i r0] & E & Hr). cbn in E. destruct (Hs i r0 Hr) as (c & Hc & _). congruence.
  - destruct (decide (id = i)) as [<-|Hi]; [by rewrite lookup_insert_eq|]. rewrite lookup_insert_ne by done. apply Ho.
Qed.

(** Only [accept_raw] takes routing ids. *)
Lemma reader_step_next k id : ss_next_id (reader_step k id) = ss_next_id k.
Proof. unfold reader_step. by repeat case_match. Qed.

Lemma writer_step_next k id : ss_next_id (writer_step k id) = ss_next_id k.
Proof. unfold writer_step. by repeat case_match. Qed.

Lemma close_peer_next k id : ss_next_id (close_peer k id).2 = ss_next_id k.
Proof. unfold close_peer. by repeat case_match. Qed.

Lemma stream_send_next k msg : ss_next_id (stream_send k msg).2 = ss_next_id k.
Proof. unfold stream_send. repeat case_match; try done. apply close_peer_next. Qed.

Lemma stream_run_inv ops k got rs :
  0 <= ss_next_id k -> ss_next_id k + Z.of_nat (length ops) < 2 ^ 64 -> stream_inv k got rs ->
  let '(es, k') := stream_run k ops in stream_inv k' (got ++ arrived_in es) (rs ++ accepted_in es).
Proof.
  revert k got rs. induction ops as [|op ops IH]; intros k got rs Hge Hlt Hi; cbn [stream_run]; [by rewrite !app_nil_r|].
  cbn [length] in Hlt.
  assert (Hstep : let '(es, k1) := stream_step k op in stream_inv k1 (got ++ arrived_in es) (rs ++ accepted_in es) /\
    0 <= ss_next_id k1 <= ss_next_id k + 1).
  { destruct op as [r w|id|id| |msg|id]; cbn [stream_step]; cbn [arrived_in accepted_in omap list_omap]; rewrite ?app_nil_r.
    - pose proof (accept_inv k got rs r w Hge ltac:(lia) Hi) as Ha. assert (Hn : 0 <= ss_next_id (accept_raw k r w).2 <= ss_next_id k + 1).
      { cbn. rewrite Z.mod_small by lia. lia. }
      destruct (accept_raw k r w) as [id k1]. cbn in *. by rewrite app_nil_r.
    - split; [by apply peer_reader_inv|]. rewrite reader_step_next. lia.
    - split; [by apply writer_step_inv|]. rewrite writer_step_next. lia.
    - unfold stream_recv. destruct (ss_inbound k) as [|m q] eqn:Eq; cbn [arrived_in accepted_in omap list_omap];
        [split; [by rewrite !app_nil_r|lia]|]. split; [|cbn; lia].
      destruct Hi as [Hf Hs Hd Ho]. rewrite Eq, ?app_nil_r in *. split; cbn; [done|intros i c; rewrite <- app_assoc; apply Hs|done|].
      intros i. rewrite <- app_assoc. apply Ho.
    - split; [by apply send_inv|]. rewrite stream_send_next. lia.
    - split; [by apply close_peer_inv|]. rewrite close_peer_next. lia. }
  destruct (stream_step k op) as [es k1]. destruct Hstep as [Hi1 Hn]. specialize (IH k1 _ _ (proj1 Hn) ltac:(lia) Hi1).
  destruct (stream_run k1 ops) as [es' k2]. unfold arrived_in, accepted_in in *. by rewrite !omap_app, !app_assoc.
Qed.
End receiving.

(** C23: STREAM delivers each connection's bytes in order, under its routing id.  In
    every interleaving of the application's calls with the reader and writer tasks of
    all connections (fewer than 2^64 - 1 steps), [accept_raw] returns a different
    routing id for each connection; and for each routing id it returned, the messages
    under this id that the application has received or that are queued for it are those
    of the connection accepted then: nothing yet; or a connection notification, then
    pieces that are not empty and whose concatenation is a prefix of what that peer
    sent, with nothing lost while the connection is read, then at most one notification
    of its end.  Nothing arrives under any other id. *)
Theorem stream_in_order {S : Type} `{ChunkStream S} (ops : list (stream_op S)) :
  Z.of_nat (length ops) < 2 ^ 64 - 1 ->
  let '(es, k) := stream_run stream_bind ops in
  NoDup (accepted_in es).*1 /\
  (forall id r, (id, r) ∈ accepted_in es ->
     exists c, ss_conns k !! id = Some c /\ seen c (concat (incoming r)) (payloads id (arrived_in es ++ ss_inbound k))) /\
  (forall id, id ∉ (accepted_in es).*1 -> payloads id (arrived_in es ++ ss_inbound k) = []).
Proof.
  intros Hlen. pose proof (stream_run_inv ops stream_bind [] []) as Hinv. destruct (stream_run stream_bind ops) as [es k].
  destruct Hinv as [Hf Hs Hd Ho]; [done|cbn; lia|by split; [..|intros ? ? []%not_elem_of_nil|constructor|]|]. cbn [app] in *. split_and!; [done|done|].
  intros id Hid. apply Ho. destruct (ss_conns k !! id) as [c|] eqn:Hc; [|done]. by destruct (Hf id c Hc).
Qed.

Definition two_peers : list (stream_op ScriptStream) :=
  let r1 := mk_script [] [ascii_bytes "GE"; ascii_bytes "T"; []] [] in
  let r2 := mk_script [] [ascii_bytes "x"] [] in
  let w := mk_script [] [] [] in
  [SAccept r1 w; SAccept r2 w] ++ concat (replicate 6 [SReader (routing_id 1); SReader (routing_id 2)]) ++
  replicate 5 SRecv ++ [SReader (routing_id 1); SReader (routing_id 1); SRecv].

Lemma stream_in_order_witness :
  accepted_in (stream_run stream_bind two_peers).1 !! 1%nat = Some (routing_id 2, mk_script [] [ascii_bytes "x"] []) /\
  payloads (routing_id 1) (arrived_in (stream_run stream_bind two_peers).1) = [[]; ascii_bytes "GE"; ascii_bytes "T"; []] /\
  exists c, ss_conns (stream_run stream_bind two_peers).2 !! routing_id 2 = Some c /\
    seen c (ascii_bytes "x") (payloads (routing_id 2)
      (arrived_in (stream_run stream_bind two_peers).1 ++ ss_inbound (stream_run stream_bind two_peers).2)).
Proof.
  assert (Hin : accepted_in (stream_run stream_bind two_peers).1 !! 1%nat = Some (routing_id 2, mk_script [] [ascii_bytes "x"] []))
    by (vm_compute; reflexivity).
  split; [exact Hin|]. split; [vm_compute; reflexivity|].
  pose proof (stream_in_order two_peers ltac:(vm_compute; reflexivity)) as H1.
  destruct (stream_run stream_bind two_peers) as [es k]. destruct H1 as (_ & H1 & _). cbn [fst snd] in *.
  exact (H1 (routing_id 2) _ (list_elem_of_lookup_2 _ _ _ Hin)).
Defined.

(** STREAM sends one frame of a message.  Of a message with several frames
    that are not empty after the routing id, [send] reports success and queues
    the first alone: the others are never written. *)
Theorem stream_send_truncates {S : Type} `{AsyncStream S} (k : StreamSocket S) (id data : bytes) (c : Conn S) (rest : list bytes) :
  ss_conns k !! id = Some c -> cn_open c = true -> cn_writing c = true ->
  has_room (send_hwm (ss_options k)) (cn_out c) = true -> data <> [] ->
  stream_send k (id :: [] :: data :: rest) = stream_send k [id; []; data] /\
  exists k', stream_send k (id :: [] :: data :: rest) = (Ok tt, k') /\
    cn_out <$> ss_conns k' !! id = Some (cn_out c ++ [data]).
Proof.
  intros Hc Ho Hw Hr Hd. unfold stream_send, payload_of. cbn [find]. rewrite (bool_decide_eq_true_2 ([] = [])) by done. cbn [negb].
  rewrite (bool_decide_eq_false_2 (data = [])) by done. cbn [negb default from_option]. rewrite bool_decide_eq_false_2 by done.
  rewrite Hc, Ho, Hw, Hr. cbn [negb]. split; [done|]. eexists. split; [done|]. cbn. by rewrite lookup_insert_eq.
Qed.

Definition one_peer : StreamSocket ScriptStream := (accept_raw stream_bind (mk_script [] [] []) (mk_script [] [] [])).2.

Lemma stream_send_truncates_witness :
  exists k', stream_send one_peer [routing_id 1; []; ascii_bytes "head"; ascii_bytes "body"] = (Ok tt, k') /\
    cn_out <$> ss_conns k' !! routing_id 1 = Some [ascii_bytes "head"].
Proof.
  destruct (stream_send_truncates one_peer (routing_id 1) (ascii_bytes "head")
    (mk_conn (mk_script [] [] []) PStart true [] (mk_script [] [] []) true) [ascii_bytes "body"]) as [_ (k' & H1 & H2)];
    [vm_compute; reflexivity..|discriminate|]. exists k'. split; [exact H1|exact H2].
Defined.
