(* ===== verification/Adapters.v ===== *)
(** * Adapters, monitor, socket types

    monocoque-zmtp/src/adapters.rs: sockets as a [Stream] and a [Sink] of
    messages; stream_sink.rs: the second family of adapters, which refuse to
    send and receive; monocoque-core/src/monitor.rs: the bounded channel of
    lifecycle events; socket_type.rs: which sockets may talk to each other.

    [SendSocket] is the trait the sinks are built on; [SinkLog] says what its
    methods are for: a message a socket has taken is appended to what it has
    taken before, one it has not taken (pending or failed) is not. *)

From S2P Require Import Prelude.
From S2P Require Import Options.
From S2P Require Import Address.
From S2P Require Import Base.

Inductive poll (A : Type) :=
| Ready (a : A)
| NotReady.
Arguments Ready {A} _.
Arguments NotReady {A}.

Definition message : Type := list bytes.

(** ** adapters.rs *)

Class RecvSocket (S : Type) := {
  poll_recv : S -> poll (option (io_result message)) * S;
}.

Class SendSocket (S : Type) := {
  sock_poll_ready : S -> poll (io_result unit) * S;
  sock_poll_send : S -> message -> poll (io_result unit) * S;
  sock_poll_flush : S -> poll (io_result unit) * S;
}.

(** [SocketStream::poll_next]: the socket is the whole state. *)
Definition poll_next {S} `{RecvSocket S} (s : S) : poll (option (io_result message)) * S := poll_recv s.

(** [SocketSink] and [SocketStreamSink] have the same fields and methods. *)
Record SocketSink (S : Type) := mk_sink_adapter {
  sink_socket : S;
  sink_pending : option message;
}.
Arguments mk_sink_adapter {S} _ _.
Arguments sink_socket {S} _.
Arguments sink_pending {S} _.

Section sink.
Context {S : Type} `{SendSocket S}.
Implicit Types k : SocketSink S.

Definition sink_new (s : S) : SocketSink S := mk_sink_adapter s None.

Definition sink_poll_ready k : poll (io_result unit) * SocketSink S :=
  let '(r, s) := sock_poll_ready (sink_socket k) in (r, mk_sink_adapter s (sink_pending k)).

Definition start_send k (item : message) : io_result unit * SocketSink S :=
  (Ok tt, mk_sink_adapter (sink_socket k) (Some item)).

Definition flush_socket (s : S) : poll (io_result unit) * SocketSink S :=
  let '(r, s) := sock_poll_flush s in (r, mk_sink_adapter s None).

Definition sink_poll_flush k : poll (io_result unit) * SocketSink S :=
  match sink_pending k with
  | Some msg =>
      match sock_poll_send (sink_socket k) msg with
      | (Ready (Ok _), s) => flush_socket s
      | (Ready (Err e), s) => (Ready (Err e), mk_sink_adapter s None)
      | (NotReady, s) => (NotReady, mk_sink_adapter s (Some msg))
      end
  | None => flush_socket (sink_socket k)
  end.

Definition sink_poll_close k : poll (io_result unit) * SocketSink S := sink_poll_flush k.
End sink.

(** ** stream_sink.rs *)

(** [poll_next] of both stream adapters, and [SocketSink]: nothing is stored. *)
Definition stub_poll_next : poll (option (io_result message)) := Ready (Some (Err Unsupported)).
Definition stub_start_send (item : message) : io_result unit := Err Unsupported.
Definition stub_poll_flush : poll (io_result unit) := Ready (Ok tt).

Record SocketStreamSink (S : Type) := mk_stream_sink {
  ss_socket : S;
  pending_send : option message;
}.
Arguments mk_stream_sink {S} _ _.
Arguments ss_socket {S} _.
Arguments pending_send {S} _.

Definition ss_start_send {S} (k : SocketStreamSink S) (item : message) : io_result unit * SocketStreamSink S :=
  (Ok tt, mk_stream_sink (ss_socket k) (Some item)).

Definition ss_poll_flush {S} (k : SocketStreamSink S) : poll (io_result unit) :=
  if bool_decide (is_Some (pending_send k)) then Ready (Err Unsupported) else Ready (Ok tt).

(** ** monitor.rs *)

Inductive SocketEvent :=
| Connected (e : Endpoint)
| Disconnected (e : Endpoint)
| Bound (e : Endpoint)
| BindFailed (e : Endpoint) (reason : bytes)
| ConnectFailed (e : Endpoint) (reason : bytes)
| Listening (e : Endpoint)
| Accepted (e : Endpoint).

Definition MONITOR_CHANNEL_CAP : Z := 256.

Record monitor := mk_monitor {
  mon_queue : list SocketEvent;
  mon_open : bool;               (** the receiver is alive *)
}.

Definition create_monitor : monitor := mk_monitor [] true.

Definition emit (m : monitor) (e : SocketEvent) : monitor :=
  if mon_open m && (len (mon_queue m) <? MONITOR_CHANNEL_CAP) then mk_monitor (mon_queue m ++ [e]) true else m.

Inductive monitor_op :=
| Emit (e : SocketEvent)
| Drain
| DropReceiver.

(** What the application has received, and the channel. *)
Definition monitor_step (st : list SocketEvent * monitor) (op : monitor_op) : list SocketEvent * monitor :=
  let '(got, m) := st in
  match op with
  | Emit e => (got, emit m e)
  | Drain => match mon_queue m with
             | e :: q => if mon_open m then (got ++ [e], mk_monitor q true) else st
             | [] => st
             end
  | DropReceiver => (got, mk_monitor [] false)
  end.

(** ** socket_type.rs *)

Module Core.
Inductive SocketType :=
| Pair | Pub | Sub | Req | Rep | Dealer | Router | Pull | Push | XPub | XSub | Stream.

Definition type_str (t : SocketType) : bytes :=
  ascii_bytes match t with
  | Pair => "PAIR" | Pub => "PUB" | Sub => "SUB" | Req => "REQ" | Rep => "REP" | Dealer => "DEALER"
  | Router => "ROUTER" | Pull => "PULL" | Push => "PUSH" | XPub => "XPUB" | XSub => "XSUB" | Stream => "STREAM"
  end.

Definition is_compatible (self peer : SocketType) : bool :=
  match self, peer with
  | Pair, Pair | Pub, Sub | Sub, Pub => true
  | (Req | Dealer), Rep => true
  | (Rep | Router), Req => true
  | (Req | Dealer | Router), Router => true
  | (Rep | Router | Dealer), Dealer => true
  | Push, Pull | Pull, Push | XPub, XSub | XSub, XPub => true
  | _, _ => false
  end.

(** Compatibility is mutual: if one side accepts its peer, so does the peer. *)
Theorem is_compatible_sym (a b : SocketType) : is_compatible a b = is_compatible b a.
Proof. by destruct a, b. Qed.

(** The pairs of PUB with XSUB and of XPUB with SUB, which the sockets of this
    library serve, are not among the compatible ones. *)
Theorem extended_pubsub_incompatible :
  is_compatible Pub XSub = false /\ is_compatible XPub Sub = false.
Proof. done. Qed.
End Core.

(** ** The sinks deliver exactly once, if they are flushed *)

Class SinkLog (S : Type) `{SendSocket S} := {
  taken : S -> list message;
  ready_taken s : taken (sock_poll_ready s).2 = taken s;
  flush_taken s : taken (sock_poll_flush s).2 = taken s;
  send_taken s m :
    taken (sock_poll_send s m).2 = taken s ++ match (sock_poll_send s m).1 with Ready (Ok _) => [m] | _ => [] end;
}.

Inductive sink_op :=
| PollReady
| StartSend (m : message)
| PollFlush
| PollClose.

Definition started (op : sink_op) : list message := match op with StartSend m => [m] | _ => [] end.

Section sink_log.
Context {S : Type} `{SinkLog S}.
Implicit Types k : SocketSink S.

Definition sink_step k (op : sink_op) : SocketSink S :=
  match op with
  | PollReady => (sink_poll_ready k).2
  | StartSend m => (start_send k m).2
  | PollFlush => (sink_poll_flush k).2
  | PollClose => (sink_poll_close k).2
  end.

(** Waiting in the adapter. *)
Definition waiting k : list message := option_list (sink_pending k).

(** An item is started only when none is waiting, and no send fails. *)
Definition proper_step k (op : sink_op) : Prop :=
  match op with
  | PollReady => True
  | StartSend _ => sink_pending k = None
  | PollFlush | PollClose => forall m, sink_pending k = Some m -> forall e, (sock_poll_send (sink_socket k) m).1 <> Ready (Err e)
  end.

Fixpoint proper k (ops : list sink_op) : Prop :=
  match ops with [] => True | op :: ops => proper_step k op /\ proper (sink_step k op) ops end.

(** From [k] to [k'], with [items] started, the socket has taken [new]; what is
    neither taken nor waiting is lost, which proper use excludes. *)
Definition moved (ok : Prop) k k' (items : list message) : Prop :=
  exists new, taken (sink_socket k') = taken (sink_socket k) ++ new /\
    new ++ waiting k' `sublist_of` waiting k ++ items /\ (ok -> new ++ waiting k' = waiting k ++ items).

Lemma flush_socket_taken (s : S) : taken (sink_socket (flush_socket s).2) = taken s /\ waiting (flush_socket s).2 = [].
Proof. pose proof (flush_taken s) as Hf. unfold flush_socket. by destruct (sock_poll_flush s) as [r s']. Qed.

Lemma poll_flush_moved k : moved (proper_step k PollFlush) k (sink_poll_flush k).2 [].
Proof.
  unfold moved, sink_poll_flush, proper_step. rewrite !app_nil_r. unfold waiting at 2 4.
  destruct (sink_pending k) as [m|]; cbn [option_list].
  - pose proof (send_taken (sink_socket k) m) as Hs.
    destruct (sock_poll_send (sink_socket k) m) as [[[[]|e]|] s] eqn:E; cbn [fst snd] in *.
    + destruct (flush_socket_taken s) as [-> ->]. by exists [m].
    + exists []. split; [done|]. split; [apply sublist_nil_l|]. intros Hp. destruct (Hp m eq_refl e). by rewrite E.
    + by exists [].
  - destruct (flush_socket_taken (sink_socket k)) as [-> ->]. exists []. by rewrite app_nil_r.
Qed.

Lemma sink_step_moved k op : moved (proper_step k op) k (sink_step k op) (started op).
Proof.
  destruct op as [|m| |]; [| |apply poll_flush_moved..]; unfold moved; cbn [sink_step started].
  - exists []. unfold sink_poll_ready, waiting. pose proof (ready_taken (sink_socket k)) as Hr.
    destruct (sock_poll_ready _) as [r s]. cbn in *. by rewrite !app_nil_r.
  - exists []. cbn. rewrite app_nil_r. split; [done|]. split; [by apply sublist_inserts_l|].
    intros Hp. unfold waiting. by rewrite Hp.
Qed.

Lemma sink_run_moved ops k : moved (proper k ops) k (foldl sink_step k ops) (concat (started <$> ops)).
Proof.
  revert k. induction ops as [|op ops IH]; intros k; cbn [foldl fmap list_fmap concat proper].
  { exists []. by rewrite !app_nil_r. }
  destruct (sink_step_moved k op) as (new & Ht & Hs & Hp). destruct (IH (sink_step k op)) as (new' & Ht' & Hs' & Hp').
  exists (new ++ new'). rewrite Ht', Ht, <- !app_assoc. split; [done|]. split.
  - etrans; [by apply sublist_app|]. rewrite !app_assoc. by apply sublist_app.
  - intros [H1 H2]. by rewrite (Hp' H2), !app_assoc, (Hp H1).
Qed.
End sink_log.

(** The sink adapters deliver in order and at most once.  Whatever sequence
    of polls and started items, the socket takes some of the items started,
    each at most once and in order, and at most one waits; when an item is
    started only after the previous one was taken and no send fails, none is
    lost, however often a poll is pending. *)
Theorem sink_at_most_once {S : Type} `{SinkLog S} (s : S) (ops : list sink_op) :
  let k := foldl sink_step (sink_new s) ops in
  exists new, taken (sink_socket k) = taken s ++ new /\ new ++ waiting k `sublist_of` concat (started <$> ops) /\
    (proper (sink_new s) ops -> new ++ waiting k = concat (started <$> ops)).
Proof. apply (sink_run_moved ops (sink_new s)). Qed.

(** An item fed before the previous one was flushed replaces it.
    [poll_ready] asks the socket alone and answers for a sink that still holds
    an item what it answers for an empty one; of two items started in a row the
    first is never sent: whatever polls follow, the socket takes at most the
    second. *)
Theorem unflushed_item_lost {S : Type} `{SinkLog S} (s : S) (m1 m2 : message) (polls : list sink_op) :
  concat (started <$> polls) = [] ->
  let k1 := sink_step (sink_new s) (StartSend m1) in
  (sink_poll_ready k1).1 = (sink_poll_ready (sink_new s)).1 /\
  let k := foldl sink_step k1 ([PollReady; StartSend m2] ++ polls) in
  exists new, taken (sink_socket k) = taken s ++ new /\ new `sublist_of` [m2].
Proof.
  intros Hpolls k1. split; [by unfold sink_poll_ready; cbn; destruct (sock_poll_ready s)|].
  cbn [app foldl]. set (k2 := sink_step (sink_step k1 PollReady) (StartSend m2)).
  assert (Ht : taken (sink_socket k2) = taken s).
  { unfold k2. cbn. pose proof (ready_taken s) as Hr. unfold sink_poll_ready. cbn. by destruct (sock_poll_ready s). }
  destruct (sink_run_moved polls k2) as (new & -> & Hs & _). rewrite Hpolls, app_nil_r in Hs. exists new. rewrite Ht.
  split; [done|]. etrans; [|exact Hs]. by apply sublist_inserts_r.
Qed.

(** ** The monitor never blocks and never grows *)

(** The monitor channel.  Whatever is emitted and drained, it holds at most
    256 events; what the application has received and what is queued are events
    emitted, in order and once each, and until the channel is full or the
    receiver dropped none is missing. *)
Theorem monitor_bounded (ops : list monitor_op) :
  let '(got, m) := foldl monitor_step ([], create_monitor) ops in
  let emitted := omap (λ op, match op with Emit e => Some e | _ => None end) ops in
  len (mon_queue m) <= MONITOR_CHANNEL_CAP /\ got ++ mon_queue m `sublist_of` emitted /\
  (len emitted <= MONITOR_CHANNEL_CAP -> mon_open m = true -> got ++ mon_queue m = emitted).
Proof.
  induction ops as [|op ops IH] using rev_ind; [cbn; unfold MONITOR_CHANNEL_CAP; by split_and!|].
  rewrite foldl_snoc. destruct (foldl monitor_step _ ops) as [got m]. rewrite omap_app.
  set (emitted := omap _ ops) in *. destruct IH as (Hcap & Hsub & Hall). destruct op as [e| |]; cbn [monitor_step omap list_omap].
  - unfold emit. destruct (mon_open m) eqn:Eo; cbn [andb].
    + destruct (Z.ltb_spec (len (mon_queue m)) MONITOR_CHANNEL_CAP) as [Hlt|Hge]; cbn [mon_queue mon_open].
      * rewrite !app_assoc, !len_app. change (len [e]) with 1. split_and!; [lia|by apply sublist_app|].
        intros He _. by rewrite Hall by (done || lia).
      * split_and!; [done|by apply sublist_inserts_r|]. rewrite len_app. change (len [e]) with 1. intros He _.
        apply sublist_length in Hsub. rewrite length_app in Hsub. unfold len in *. lia.
    + split_and!; [done|by apply sublist_inserts_r|congruence].
  - rewrite app_nil_r. destruct (mon_queue m) as [|e q] eqn:Eq; [rewrite Eq; by split_and!|].
    destruct (mon_open m) eqn:Eo; [|rewrite Eq, Eo; by split_and!]. cbn [mon_queue mon_open]. rewrite <- app_assoc. cbn [app].
    rewrite len_cons in Hcap. split_and!; [lia|done..].
  - cbn [mon_queue mon_open]. rewrite !app_nil_r. unfold MONITOR_CHANNEL_CAP. split_and!; [done| |done].
    etrans; [|exact Hsub]. by apply sublist_inserts_r.
Qed.

(** A socket that is busy for a number of polls before it takes a message. *)
Record LazySocket := mk_lazy {
  lazy_taken : list message;
  lazy_busy : nat;
}.

#[export] Instance lazy_send : SendSocket LazySocket := {
  sock_poll_ready s := (Ready (Ok tt), s);
  sock_poll_send s m :=
    match lazy_busy s with
    | O => (Ready (Ok tt), mk_lazy (lazy_taken s ++ [m]) 1)
    | S n => (NotReady, mk_lazy (lazy_taken s) n)
    end;
  sock_poll_flush s := (Ready (Ok tt), s);
}.

#[export] Instance lazy_log : SinkLog LazySocket.
Proof.
  refine {| taken := lazy_taken |}; [done..|]. intros s m. cbn. destruct (lazy_busy s); cbn; by rewrite ?app_nil_r.
Defined.

Lemma unflushed_item_lost_witness :
  exists new, lazy_taken (sink_socket (foldl sink_step (sink_new (mk_lazy [] 1))
    [StartSend [ascii_bytes "a"]; PollReady; StartSend [ascii_bytes "b"]; PollFlush; PollFlush])) = new /\
    new `sublist_of` [[ascii_bytes "b"]].
Proof.
  destruct (unflushed_item_lost (mk_lazy [] 1) [ascii_bytes "a"] [ascii_bytes "b"] [PollFlush; PollFlush])
    as [_ (new & E & Hs)]; [reflexivity|]. exists new. split; [exact E|exact Hs].
Defined.
