(* ===== verification/Connect.v ===== *)
(** * Making sockets

    The constructors of the sockets of monocoque-zmtp that connect, accept or
    take over a stream: [connect_with_options], [from_tcp_with_options],
    [with_options] and the short forms.  The operating system and the handshake
    are the class [Network].  An address given as [impl ToSocketAddrs] is a
    [SocketAddr]; a constructor that fails drops what it has built. *)

From S2P Require Import Prelude.
From S2P Require Import Options.
From S2P Require Import Address.
From S2P Require Import Reconnect.
From S2P Require Import Ready.
From S2P Require Import CurveMessage.
From S2P Require Import Stream.
From S2P Require Import Base.
From S2P Require Import Sockets.
From S2P Require Import Pipeline.
From S2P Require Import RouterPair.
From S2P Require Import Subscriber.

(** What the peer's handshake yields: the identity it announces and the cipher. *)
Record Peer (K : Type) := mk_peer {
  announced : option bytes;
  cipher_of : option (CurveMessageCipher K);
}.
Arguments mk_peer {K} _ _.
Arguments announced {K} _.
Arguments cipher_of {K} _.

Class Network (S K : Type) := {
  Listener : Type;
  tcp_bind : SocketAddr -> completion Listener;
  tcp_accept : Listener -> completion S;
  tcp_connect : SocketAddr -> completion S;
  ipc_connect : bytes -> completion S;
  peer_addr_of : S -> io_result SocketAddr;
  configure_tcp_stream : S -> SocketOptions -> io_result unit;
  handshake : S -> SocketType -> SocketOptions -> completion (Peer K) * S;
}.

Section connect.
Context {S K : Type} `{AsyncStream S} `{Aead K} `{N : Network S K}.

(** What a reconnection uses of the network. *)
#[export] Instance network_connector : Connector S K := {
  connect_tcp := tcp_connect;
  tune_tcp := configure_tcp_stream;
  client_handshake s t o :=
    match handshake s t o with
    | (Completed (Ok p), s) => (Completed (Ok (cipher_of p)), s)
    | (Completed (Err e), s) => (Completed (Err e), s)
    | (Stalled, s) => (Stalled, s)
    end;
}.

Definition then_do {A B} (c : completion A) (k : A -> outcome B) : outcome B :=
  match c with
  | Completed (Ok a) => k a
  | Completed (Err e) => Returned (Err e)
  | Stalled => Pending
  end.

Definition then_try {A B} (r : io_result A) (k : A -> outcome B) : outcome B :=
  match r with Ok a => k a | Err e => Returned (Err e) end.

(** [perform_handshake_with_options], its error wrapped by [io::Error::other]. *)
Definition handshaken {X} (t : SocketType) (s : S) (o : SocketOptions) (k : Peer K -> S -> outcome X) : outcome X :=
  match handshake s t o with
  | (Stalled, _) => Pending
  | (Completed (Err _), _) => Returned (Err OtherError)
  | (Completed (Ok p), s) => k p s
  end.

(** [connect_with_options] of every connecting socket: [mk] builds it. *)
Definition connecting {X} (t : SocketType) (addr : SocketAddr) (o : SocketOptions)
    (mk : S -> SocketAddr -> option (CurveMessageCipher K) -> X) : outcome X :=
  then_do (tcp_connect addr) (λ s,
  then_try (peer_addr_of s) (λ peer_addr,
  then_try (configure_tcp_stream s o) (λ _,
  handshaken t s o (λ p s, Returned (Ok (mk s peer_addr (cipher_of p))))))).

(** [from_tcp_with_options]: [k] is [with_options]. *)
Definition tuned {X} (s : S) (o : SocketOptions) (k : outcome X) : outcome X := then_try (configure_tcp_stream s o) (λ _, k).

(** [bind]: the listener and the socket of its first connection. *)
Definition binding {X} (addr : SocketAddr) (from_tcp : S -> outcome X) : outcome (Listener * X) :=
  then_do (tcp_bind addr) (λ l,
  then_do (tcp_accept l) (λ s,
  match from_tcp s with
  | Returned (Ok x) => Returned (Ok (l, x))
  | Returned (Err e) => Returned (Err e)
  | Pending => Pending
  | Panicked => Panicked
  end)).

(** ** DEALER *)

Definition dealer_on (s : S) (o : SocketOptions) : outcome (DealerSocket S K) :=
  handshaken Dealer s o (λ p s, Returned (Ok (dealer_with_options s o (cipher_of p)))).
Definition dealer_from_tcp_with_options (s : S) (o : SocketOptions) : outcome (DealerSocket S K) := tuned s o (dealer_on s o).
Definition dealer_from_tcp (s : S) : outcome (DealerSocket S K) := dealer_from_tcp_with_options s default_options.
Definition dealer_connect_with_options (addr : SocketAddr) (o : SocketOptions) : outcome (DealerSocket S K) :=
  connecting Dealer addr o (λ s peer c, mk_dealer (set_cipher (with_endpoint s (Tcp peer) o) c) []).
Definition dealer_bind (addr : SocketAddr) : outcome (Listener * DealerSocket S K) := binding addr dealer_from_tcp.

(** ** ROUTER; the counter of generated identities is global *)

Definition router_on (counter : Z) (s : S) (o : SocketOptions) : outcome (RouterSocket S K * Z) :=
  handshaken Router s o (λ p s, Returned (Ok (router_with_options s o (announced p) (cipher_of p) counter))).
Definition router_from_tcp_with_options (counter : Z) (s : S) (o : SocketOptions) : outcome (RouterSocket S K * Z) :=
  tuned s o (router_on counter s o).
Definition router_from_tcp (counter : Z) (s : S) : outcome (RouterSocket S K * Z) :=
  router_from_tcp_with_options counter s default_options.

(** ** REQ and REP *)

Definition req_on (s : S) (o : SocketOptions) : outcome (ReqSocket S K) :=
  handshaken Req s o (λ p s, Returned (Ok (req_with_options s o (cipher_of p)))).
Definition req_from_tcp_with_options (s : S) (o : SocketOptions) : outcome (ReqSocket S K) := tuned s o (req_on s o).
Definition req_from_tcp (s : S) : outcome (ReqSocket S K) := req_from_tcp_with_options s default_options.
Definition req_connect_with_options (addr : SocketAddr) (o : SocketOptions) : outcome (ReqSocket S K) :=
  connecting Req addr o (λ s peer c, mk_req (set_cipher (with_endpoint s (Tcp peer) o) c) [] Idle 0 None).
Definition req_connect (addr : SocketAddr) : outcome (ReqSocket S K) := req_connect_with_options addr default_options.

Definition rep_on (s : S) (o : SocketOptions) : outcome (RepSocket S K) :=
  handshaken Rep s o (λ p s, Returned (Ok (rep_with_options s o (cipher_of p)))).
Definition rep_from_tcp_with_options (s : S) (o : SocketOptions) : outcome (RepSocket S K) := tuned s o (rep_on s o).
Definition rep_from_tcp (s : S) : outcome (RepSocket S K) := rep_from_tcp_with_options s default_options.

(** ** PUSH, PULL and PAIR *)

Definition push_on (s : S) (o : SocketOptions) : outcome (PushSocket S K) :=
  handshaken Push s o (λ p s, Returned (Ok (push_with_options s o (cipher_of p)))).
Definition push_from_tcp_with_options (s : S) (o : SocketOptions) : outcome (PushSocket S K) := tuned s o (push_on s o).
Definition push_from_tcp (s : S) : outcome (PushSocket S K) := push_from_tcp_with_options s default_options.
Definition push_connect_with_options (addr : SocketAddr) (o : SocketOptions) : outcome (PushSocket S K) :=
  connecting Push addr o (λ s peer c, push_connected s peer o c).
Definition push_connect (addr : SocketAddr) : outcome (PushSocket S K) := push_connect_with_options addr default_options.

Definition pull_on (s : S) (o : SocketOptions) : outcome (PullSocket S K) :=
  handshaken Pull s o (λ p s, Returned (Ok (pull_with_options s o (cipher_of p)))).
Definition pull_from_tcp_with_options (s : S) (o : SocketOptions) : outcome (PullSocket S K) := tuned s o (pull_on s o).
Definition pull_from_tcp (s : S) : outcome (PullSocket S K) := pull_from_tcp_with_options s default_options.
Definition pull_connect_with_options (addr : SocketAddr) (o : SocketOptions) : outcome (PullSocket S K) :=
  connecting Pull addr o (λ s peer c, pull_connected s peer o c).
Definition pull_connect (addr : SocketAddr) : outcome (PullSocket S K) := pull_connect_with_options addr default_options.

Definition pair_on (s : S) (o : SocketOptions) : outcome (PairSocket S K) :=
  handshaken Pair s o (λ p s, Returned (Ok (pair_with_options s o (cipher_of p)))).
Definition pair_from_tcp_with_options (s : S) (o : SocketOptions) : outcome (PairSocket S K) := tuned s o (pair_on s o).
Definition pair_from_tcp (s : S) : outcome (PairSocket S K) := pair_from_tcp_with_options s default_options.
Definition pair_connect_with_options (addr : SocketAddr) (o : SocketOptions) : outcome (PairSocket S K) :=
  connecting Pair addr o (λ s peer c, pair_connected s peer o c).
Definition pair_bind (addr : SocketAddr) : outcome (Listener * PairSocket S K) := binding addr pair_from_tcp.

(** ** SUB: taking over a stream applies the subscriptions of the options *)

Definition sub_on (s : S) (o : SocketOptions) : outcome (SubSocket S K) :=
  handshaken Sub s o (λ p s,
    match sub_with_options s o (cipher_of p) with
    | (Returned (Ok _), x) => Returned (Ok x)
    | (Returned (Err e), _) => Returned (Err e)
    | (Pending, _) => Pending
    | (Panicked, _) => Panicked
    end).
Definition sub_from_tcp_with_options (s : S) (o : SocketOptions) : outcome (SubSocket S K) := tuned s o (sub_on s o).
Definition sub_from_tcp (s : S) : outcome (SubSocket S K) := sub_from_tcp_with_options s default_options.
Definition sub_connect_with_options (addr : SocketAddr) (o : SocketOptions) : outcome (SubSocket S K) :=
  connecting Sub addr o (λ s peer c, sub_connected s peer o c).
Definition sub_connect (addr : SocketAddr) : outcome (SubSocket S K) := sub_connect_with_options addr default_options.
End connect.

#[export] Instance dealer_has_base {S K} : HasBase (DealerSocket S K) S K :=
  { base_of := dealer_base; put_base := set_dealer_base }.
#[export] Instance req_has_base {S K} : HasBase (ReqSocket S K) S K := {
  base_of := req_base;
  put_base r b := mk_req b (req_frames r) (req_state r) (request_id r) (expected_request_id r);
}.

(** ** What making a socket promises

    [from_stream] is [from_tcp_with_options], [connect_to] is
    [connect_with_options]. *)

Class TcpSocket (X S K : Type) `{HasBase X S K} `{Network S K} := {
  tcp_type : SocketType;
  from_stream : S -> SocketOptions -> outcome X;
  connect_to : SocketAddr -> SocketOptions -> outcome X;
  from_stream_base s o x : from_stream s o = Returned (Ok x) -> endpoint (base_of x) = None;
  connect_to_base addr o x :
    connect_to addr o = Returned (Ok x) ->
    exists s s' peer p,
      tcp_connect addr = Completed (Ok s) /\ peer_addr_of s = Ok peer /\ configure_tcp_stream s o = Ok tt /\
      handshake s tcp_type o = (Completed (Ok p), s') /\
      base_of x = set_cipher (with_endpoint s' (Tcp peer) o) (cipher_of p);
}.

Section makers.
Context {S K : Type} `{AsyncStream S} `{Aead K} `{N : Network S K}.

Lemma handshaken_ok {X} t s o (k : Peer K -> S -> outcome X) x :
  handshaken t s o k = Returned (Ok x) -> exists p s', handshake s t o = (Completed (Ok p), s') /\ k p s' = Returned (Ok x).
Proof. unfold handshaken. destruct (handshake s t o) as [[[p|e]|] s'] eqn:E; intros Hk; try done. by exists p, s'. Qed.

Lemma tuned_ok {X} s o (k : outcome X) x : tuned s o k = Returned (Ok x) -> k = Returned (Ok x).
Proof. unfold tuned, then_try. by destruct (configure_tcp_stream s o). Qed.

Lemma connecting_ok {X} t addr o (mk : S -> SocketAddr -> option (CurveMessageCipher K) -> X) x :
  connecting t addr o mk = Returned (Ok x) ->
  exists s s' peer p,
    tcp_connect addr = Completed (Ok s) /\ peer_addr_of s = Ok peer /\ configure_tcp_stream s o = Ok tt /\
    handshake s t o = (Completed (Ok p), s') /\ x = mk s' peer (cipher_of p).
Proof.
  unfold connecting, then_do, then_try. destruct (tcp_connect addr) as [[s|e]|] eqn:E1; try done.
  destruct (peer_addr_of s) as [peer|] eqn:E2; [|done]. destruct (configure_tcp_stream s o) as [[]|] eqn:E3; [|done].
  intros (p & s' & E4 & [= <-])%handshaken_ok. by exists s, s', peer, p.
Qed.

(** Subscribing does not touch the endpoint. *)
Lemma send_sub_event_endpoint (b : SocketBase S K) cmd prefix : endpoint (send_sub_event b cmd prefix).2 = endpoint b.
Proof.
  unfold send_sub_event. destruct (curve_cipher b) as [c|].
  - destruct (encrypt_frame c _ false) as [[body|] c']; [|done]. destruct (stream (set_cipher b (Some c'))); [|done].
    by destruct (stream_write_all _ _).
  - destruct (stream b); [|done]. by destruct (stream_write_all _ _).
Qed.

Definition sub_endpoint_kept (f : SubSocket S K -> bytes -> outcome unit * SubSocket S K) : Prop :=
  forall s prefix, endpoint (sub_base (f s prefix).2) = endpoint (sub_base s).

Lemma sub_apply_endpoint f (s : SubSocket S K) prefixes :
  sub_endpoint_kept f -> endpoint (sub_base (sub_apply f s prefixes).2) = endpoint (sub_base s).
Proof.
  intros Hf. revert s. induction prefixes as [|p ps IH]; intros s; cbn [sub_apply]; [done|]. specialize (Hf s p).
  destruct (f s p) as [[[[]|]| |] s'] eqn:E; cbn [await_bind snd] in Hf |- *; try done. by rewrite IH.
Qed.

Lemma subscribe_endpoint : sub_endpoint_kept sub_subscribe.
Proof.
  intros s prefix. unfold sub_subscribe. pose proof (send_sub_event_endpoint (sub_base s) (u8 1) prefix) as E.
  destruct (negb _); destruct (send_sub_event (sub_base s) (u8 1) prefix) as [[[[]|]| |] b]; cbn in E |- *; done.
Qed.

Lemma unsubscribe_endpoint : sub_endpoint_kept sub_unsubscribe.
Proof.
  intros s prefix. unfold sub_unsubscribe. cbn [sub_base].
  pose proof (send_sub_event_endpoint (sub_base s) (u8 0) prefix) as E.
  by destruct (send_sub_event (sub_base s) (u8 0) prefix) as [o b].
Qed.

Ltac taken_over := intros s o x (p & s' & _ & [= <-])%tuned_ok%handshaken_ok.
Ltac connected := intros addr o x (s & s' & peer & p & ? & ? & ? & ? & ->)%connecting_ok; exists s, s', peer, p.

#[export] Program Instance dealer_tcp : TcpSocket (DealerSocket S K) S K := {
  tcp_type := Dealer; from_stream := dealer_from_tcp_with_options; connect_to := dealer_connect_with_options;
}.
Next Obligation. by taken_over. Qed.
Next Obligation. by connected. Qed.

#[export] Program Instance req_tcp : TcpSocket (ReqSocket S K) S K := {
  tcp_type := Req; from_stream := req_from_tcp_with_options; connect_to := req_connect_with_options;
}.
Next Obligation. by taken_over. Qed.
Next Obligation. by connected. Qed.

#[export] Program Instance push_tcp : TcpSocket (PushSocket S K) S K := {
  tcp_type := Push; from_stream := push_from_tcp_with_options; connect_to := push_connect_with_options;
}.
Next Obligation. by taken_over. Qed.
Next Obligation. by connected. Qed.

#[export] Program Instance pull_tcp : TcpSocket (PullSocket S K) S K := {
  tcp_type := Pull; from_stream := pull_from_tcp_with_options; connect_to := pull_connect_with_options;
}.
Next Obligation. by taken_over. Qed.
Next Obligation. by connected. Qed.

#[export] Program Instance pair_tcp : TcpSocket (PairSocket S K) S K := {
  tcp_type := Pair; from_stream := pair_from_tcp_with_options; connect_to := pair_connect_with_options;
}.
Next Obligation. by taken_over. Qed.
Next Obligation. by connected. Qed.

#[export] Program Instance sub_tcp : TcpSocket (SubSocket S K) S K := {
  tcp_type := Sub; from_stream := sub_from_tcp_with_options; connect_to := sub_connect_with_options;
}.
Next Obligation.
  intros s o x (p & s' & _ & E)%tuned_ok%handshaken_ok. cbn in E |- *.
  assert (Hx : endpoint (sub_base (sub_with_options s' o (cipher_of p)).2) = None).
  { unfold sub_with_options. set (s0 := mk_sub _ _ _).
    pose proof (sub_apply_endpoint sub_subscribe s0 (subscriptions o) subscribe_endpoint) as E1.
    destruct (sub_apply sub_subscribe s0 (subscriptions o)) as [[[[]|]| |] s1]; cbn in E1 |- *; try done.
    by rewrite sub_apply_endpoint by apply unsubscribe_endpoint. }
  destruct (sub_with_options s' o (cipher_of p)) as [[[[]|]| |] x']; cbn in Hx; try done. by injection E as <-.
Qed.
Next Obligation. by connected. Qed.
End makers.

(** A socket made by [connect_with_options] remembers the address of its peer,
    and in any later state that still has it, whatever was lost since, a network
    that accepts the address again brings the socket back: connected, unpoisoned,
    with empty buffers, a fresh cipher and the same endpoint. A socket made from a
    stream has no endpoint, and in any state without one [try_reconnect] answers
    [Unsupported]. This holds of DEALER, REQ, PUSH, PULL, PAIR and SUB. *)
Theorem connect_remembers_peer {S K X : Type} `{AsyncStream S} `{Aead K} `{TcpSocket X S K} (addr : SocketAddr)
    (o : SocketOptions) (x : X) (b : SocketBase S K) :
  (connect_to addr o = Returned (Ok x) ->
   exists s peer,
     tcp_connect addr = Completed (Ok s) /\ peer_addr_of s = Ok peer /\ is_connected (base_of x) = true /\
     endpoint (base_of x) = Some (Tcp peer) /\ last_endpoint (base_of x) = Some (endpoint_display (Tcp peer)) /\
     (endpoint b = endpoint (base_of x) ->
      forall s1 s2 p, tcp_connect peer = Completed (Ok s1) -> configure_tcp_stream s1 (options b) = Ok tt ->
        handshake s1 tcp_type (options b) = (Completed (Ok p), s2) ->
        exists b', try_reconnect b tcp_type = (Returned (Ok tt), b') /\ stream b' = Some s2 /\
          endpoint b' = endpoint b /\ is_poisoned b' = false /\ send_buffer b' = [] /\ curve_cipher b' = cipher_of p)) /\
  (forall s, from_stream s o = Returned (Ok x) -> endpoint b = endpoint (base_of x) ->
   try_reconnect b tcp_type = (Returned (Err Unsupported), b)).
Proof.
  split.
  - intros (s & s' & peer & p & E1 & E2 & E3 & E4 & Hb)%connect_to_base. exists s, peer. rewrite Hb.
    split_and!; [done..|]. intros He s1 s2 p' F1 F2 F3. unfold try_reconnect. rewrite He. cbn.
    rewrite F1, F2, F3. by eexists.
  - intros s E%from_stream_base He. unfold try_reconnect. by rewrite He, E.
Qed.

(** A network that accepts everything. *)
#[export] Instance open_network : Network SinkStream unit := {
  Listener := unit;
  tcp_bind _ := Completed (Ok tt);
  tcp_accept _ := Completed (Ok (mk_sink []));
  tcp_connect _ := Completed (Ok (mk_sink []));
  ipc_connect _ := Completed (Ok (mk_sink []));
  peer_addr_of _ := Ok (V4 [127; 0; 0; 1] 5555);
  configure_tcp_stream _ _ := Ok tt;
  handshake s _ _ := (Completed (Ok (mk_peer None None)), s);
}.

Definition reborn : SocketBase SinkStream unit :=
  set_stream (with_endpoint (mk_sink []) (Tcp (V4 [127; 0; 0; 1] 5555)) default_options) None.

Lemma connect_remembers_peer_witness :
  exists b', try_reconnect reborn Req = (Returned (Ok tt), b') /\ is_poisoned b' = false.
Proof.
  destruct (connect_remembers_peer (X := ReqSocket SinkStream unit) (V4 [127; 0; 0; 1] 5555) default_options
    (mk_req (with_endpoint (mk_sink []) (Tcp (V4 [127; 0; 0; 1] 5555)) default_options) [] Idle 0 None) reborn) as [Hc _].
  destruct Hc as (s & peer & _ & [= <-] & _ & _ & _ & Hr); [reflexivity|].
  destruct (Hr eq_refl (mk_sink []) (mk_sink []) (mk_peer None None)) as (b' & E & _ & _ & Hp & _); [reflexivity..|].
  by exists b'.
Defined.
