(* ===== verification/Facade.v ===== *)
(** * The facade

    monocoque/src/zmq: the sockets an application uses.  Each wraps a socket of
    monocoque-zmtp ([inner]) and a monitor.  The monitor channels of the process
    are a list, and a socket holds the index of its own; a constructor, which
    may announce an event, threads the list.  [recv] calls take the clock and
    the fuel of the wrapped call.

    Not kept: the queries that only read a field of the wrapped socket. *)

From S2P Require Import Prelude.
From S2P Require Import Options.
From S2P Require Import Address.
From S2P Require Import Adapters.
From S2P Require Import Ready.
From S2P Require Import CurveMessage.
From S2P Require Import Stream.
From S2P Require Import Base.
From S2P Require Import Sockets.
From S2P Require Import Pipeline.
From S2P Require Import RouterPair.
From S2P Require Import Subscriber.
From S2P Require Import Publisher.
From S2P Require Import Proxy.
From S2P Require Import Connect.

(** ** common.rs *)

Definition channel_to_io_error {A} (r : io_result A) : io_result A :=
  match r with Ok a => Ok a | Err _ => Err BrokenPipe end.

(** [channel_to_io_error(call.await)]. *)
Definition channel_outcome {A} (o : outcome A) : outcome A :=
  match o with Returned r => Returned (channel_to_io_error r) | Pending => Pending | Panicked => Panicked end.

(** ** The wrapper *)

Record Facade (X : Type) := mk_facade {
  inner : X;
  monitor_ix : option nat;
}.
Arguments mk_facade {X} _ _.
Arguments inner {X} _.
Arguments monitor_ix {X} _.

Definition monitors : Type := list monitor.

(** [monitor(&mut self)]: the index is also what the caller keeps as receiver. *)
Definition attach_monitor {X} (f : Facade X) (ms : monitors) : nat * Facade X * monitors :=
  (length ms, mk_facade (inner f) (Some (length ms)), ms ++ [create_monitor]).

Definition emit_event {X} (f : Facade X) (e : SocketEvent) (ms : monitors) : monitors :=
  match monitor_ix f with Some i => alter (λ m, emit m e) i ms | None => ms end.

(** [Ok(Self { inner: call.await?, monitor: None })]. *)
Definition wrapped {X} (o : outcome X) : outcome (Facade X) :=
  match o with
  | Returned (Ok x) => Returned (Ok (mk_facade x None))
  | Returned (Err e) => Returned (Err e)
  | Pending => Pending
  | Panicked => Panicked
  end.

(** The socket is wrapped, then it announces its connection. *)
Definition announced_as {X} (e : Endpoint) (o : outcome X) (ms : monitors) : outcome (Facade X) * monitors :=
  match wrapped o with
  | Returned (Ok f) => (Returned (Ok f), emit_event f (Connected e) ms)
  | o => (o, ms)
  end.

(** A call of the wrapped socket. *)
Definition lift {X A} (f : Facade X) (r : A * X) : A * Facade X := (r.1, mk_facade r.2 (monitor_ix f)).
Definition lift_recv {X A} (f : Facade X) (r : option (A * X)) : option (A * Facade X) := lift f <$> r.
Definition lift_send {X A} (f : Facade X) (r : outcome A * X) : outcome A * Facade X := lift f (channel_outcome r.1, r.2).
Definition lift_now {X A} (f : Facade X) (r : io_result A * X) : io_result A * Facade X := lift f (channel_to_io_error r.1, r.2).

(** [*options_mut() = g(options)]: the fields of the record, nothing else. *)
Definition update_options {S K} (b : SocketBase S K) (g : SocketOptions -> SocketOptions) : SocketBase S K :=
  mk_base (stream b) (endpoint b) (reconnect b) (decoder b) (recv_buf b) (write_buf b) (send_buffer b) (g (options b))
    (last_endpoint b) (is_poisoned b) (buffered_messages b) (last_recv_instant b) (ping_sent_at b) (awaiting_pong b)
    (curve_cipher b).

Definition options_mut {X S K} `{HasBase X S K} (f : Facade X) (g : SocketOptions -> SocketOptions) : Facade X :=
  mk_facade (put_base (inner f) (update_options (base_of (inner f)) g)) (monitor_ix f).

(** The text after [ipc://], or all of it. *)
Definition ipc_path (path : bytes) : bytes := default path (strip_prefix path (ascii_bytes "ipc://")).

Section facade.
Context {S K : Type} `{AsyncStream S} `{Aead K} `{N : Network S K} (clock : nat -> Z) (fuel : nat) (now : Z).

(** ** dealer.rs *)

Definition facade_dealer_connect_with_options (text : bytes) (o : SocketOptions) (ms : monitors)
    : outcome (Facade (DealerSocket S K)) * monitors :=
  match parse_tcp_endpoint text with
  | Err e => (Returned (Err e), ms)
  | Ok addr => announced_as (Tcp addr) (dealer_connect_with_options addr o) ms
  end.

Definition facade_dealer_connect (text : bytes) (ms : monitors) : outcome (Facade (DealerSocket S K)) * monitors :=
  match parse_tcp_endpoint text with
  | Err e => (Returned (Err e), ms)
  | Ok addr => announced_as (Tcp addr) (dealer_connect_with_options addr default_options) ms
  end.

Definition facade_dealer_from_unix_stream (s : S) : outcome (Facade (DealerSocket S K)) :=
  wrapped (dealer_on s default_options).
Definition facade_dealer_from_unix_stream_with_options (s : S) (o : SocketOptions) : outcome (Facade (DealerSocket S K)) :=
  wrapped (dealer_on s o).

Definition facade_dealer_connect_ipc (path : bytes) (ms : monitors) : outcome (Facade (DealerSocket S K)) * monitors :=
  announced_as (Ipc (ipc_path path)) (then_do (ipc_connect (ipc_path path)) (λ s, dealer_on s default_options)) ms.

Definition facade_dealer_from_tcp (s : S) : outcome (Facade (DealerSocket S K)) := wrapped (dealer_from_tcp s).
Definition facade_dealer_from_tcp_with_options (s : S) (o : SocketOptions) : outcome (Facade (DealerSocket S K)) :=
  wrapped (dealer_from_tcp_with_options s o).
Definition facade_dealer_with_options (s : S) (o : SocketOptions) : outcome (Facade (DealerSocket S K)) := wrapped (dealer_on s o).
Definition facade_dealer_bind (addr : SocketAddr) : outcome (Listener * Facade (DealerSocket S K)) :=
  binding addr facade_dealer_from_tcp.

Definition facade_dealer_send (f : Facade (DealerSocket S K)) (msg : list bytes) : outcome unit * Facade (DealerSocket S K) :=
  lift_send f (dealer_send (inner f) msg).
Definition facade_dealer_send_buffered (f : Facade (DealerSocket S K)) (msg : list bytes)
    : io_result unit * Facade (DealerSocket S K) :=
  lift_now f (dealer_send_buffered (inner f) msg).
Definition facade_dealer_flush (f : Facade (DealerSocket S K)) : outcome unit * Facade (DealerSocket S K) :=
  lift_send f (dealer_flush (inner f)).
Definition facade_dealer_send_batch (f : Facade (DealerSocket S K)) (msgs : list (list bytes))
    : outcome unit * Facade (DealerSocket S K) :=
  lift_send f (dealer_send_batch (inner f) msgs).
Definition facade_dealer_recv (f : Facade (DealerSocket S K))
    : option (outcome (option (list bytes)) * Facade (DealerSocket S K)) :=
  lift_recv f (dealer_recv clock fuel (inner f)).

(** ** router.rs *)

(** The counter of generated identities is in the result of a success. *)
Definition wrapped_counted {X} (o : outcome (X * Z)) : outcome (Facade X * Z) :=
  match o with
  | Returned (Ok (x, counter)) => Returned (Ok (mk_facade x None, counter))
  | Returned (Err e) => Returned (Err e)
  | Pending => Pending
  | Panicked => Panicked
  end.

Definition facade_router_from_stream (counter : Z) (s : S) : outcome (Facade (RouterSocket S K) * Z) :=
  wrapped_counted (router_on counter s default_options).
Definition facade_router_from_tcp (counter : Z) (s : S) : outcome (Facade (RouterSocket S K) * Z) :=
  wrapped_counted (router_from_tcp counter s).
Definition facade_router_from_tcp_with_options (counter : Z) (s : S) (o : SocketOptions)
    : outcome (Facade (RouterSocket S K) * Z) :=
  wrapped_counted (router_from_tcp_with_options counter s o).
Definition facade_router_with_options (counter : Z) (s : S) (o : SocketOptions) : outcome (Facade (RouterSocket S K) * Z) :=
  wrapped_counted (router_on counter s o).
Definition facade_router_from_unix_stream (counter : Z) (s : S) : outcome (Facade (RouterSocket S K) * Z) :=
  wrapped_counted (router_on counter s default_options).
Definition facade_router_from_unix_stream_with_options (counter : Z) (s : S) (o : SocketOptions)
    : outcome (Facade (RouterSocket S K) * Z) :=
  wrapped_counted (router_on counter s o).
Definition facade_router_bind (counter : Z) (addr : SocketAddr) : outcome (Listener * (Facade (RouterSocket S K) * Z)) :=
  binding addr (facade_router_from_tcp counter).

Definition facade_router_send (f : Facade (RouterSocket S K)) (msg : list bytes) : outcome unit * Facade (RouterSocket S K) :=
  lift_send f (router_send (inner f) msg).
Definition facade_router_send_buffered (f : Facade (RouterSocket S K)) (msg : list bytes)
    : io_result unit * Facade (RouterSocket S K) :=
  lift_now f (router_send_buffered (inner f) msg).
Definition facade_router_flush (f : Facade (RouterSocket S K)) : outcome unit * Facade (RouterSocket S K) :=
  lift_send f (router_flush (inner f)).
Definition facade_router_send_batch (f : Facade (RouterSocket S K)) (msgs : list (list bytes))
    : outcome unit * Facade (RouterSocket S K) :=
  lift_send f (router_send_batch (inner f) msgs).
Definition facade_router_recv (f : Facade (RouterSocket S K))
    : option (outcome (option (list bytes)) * Facade (RouterSocket S K)) :=
  lift_recv f (router_recv clock fuel (inner f)).

#[export] Instance router_has_base : HasBase (RouterSocket S K) S K :=
  { base_of := router_base; put_base := set_router_base }.

Definition facade_set_connect_routing_id (f : Facade (RouterSocket S K)) (id : bytes)
    : io_result unit * Facade (RouterSocket S K) :=
  match validate_router_identity id with
  | Err e => (Err e, f)
  | Ok _ => (Ok tt, options_mut f (λ o, o <| connect_routing_id := Some id |>))
  end.
Definition facade_set_router_mandatory (f : Facade (RouterSocket S K)) (enabled : bool) : Facade (RouterSocket S K) :=
  options_mut f (λ o, o <| router_mandatory := enabled |>).
Definition facade_set_router_handover (f : Facade (RouterSocket S K)) (enabled : bool) : Facade (RouterSocket S K) :=
  options_mut f (λ o, o <| router_handover := enabled |>).

(** ** req.rs *)

(** [connect] spells out what [parse_tcp_endpoint] does. *)
Definition facade_req_connect (text : bytes) (ms : monitors) : outcome (Facade (ReqSocket S K)) * monitors :=
  match parse_tcp_endpoint text with
  | Err e => (Returned (Err e), ms)
  | Ok addr => announced_as (Tcp addr) (req_connect addr) ms
  end.

(** The stream is connected here and handed over, so the socket has no endpoint. *)
Definition facade_req_connect_with_options (text : bytes) (o : SocketOptions) (ms : monitors)
    : outcome (Facade (ReqSocket S K)) * monitors :=
  match parse_tcp_endpoint text with
  | Err e => (Returned (Err e), ms)
  | Ok addr => announced_as (Tcp addr) (then_do (tcp_connect addr) (λ s, req_from_tcp_with_options s o)) ms
  end.

Definition facade_req_connect_ipc (path : bytes) (ms : monitors) : outcome (Facade (ReqSocket S K)) * monitors :=
  announced_as (Ipc (ipc_path path)) (then_do (ipc_connect (ipc_path path)) (λ s, req_on s default_options)) ms.

Definition facade_req_from_tcp (s : S) : outcome (Facade (ReqSocket S K)) := wrapped (req_from_tcp s).
Definition facade_req_from_tcp_with_options (s : S) (o : SocketOptions) : outcome (Facade (ReqSocket S K)) :=
  wrapped (req_from_tcp_with_options s o).
Definition facade_req_with_options (s : S) (o : SocketOptions) : outcome (Facade (ReqSocket S K)) := wrapped (req_on s o).
Definition facade_req_from_unix_stream (s : S) : outcome (Facade (ReqSocket S K)) := wrapped (req_on s default_options).
Definition facade_req_from_unix_stream_with_options (s : S) (o : SocketOptions) : outcome (Facade (ReqSocket S K)) :=
  wrapped (req_on s o).

Definition facade_req_send (f : Facade (ReqSocket S K)) (msg : list bytes) : outcome unit * Facade (ReqSocket S K) :=
  lift_send f (req_send (inner f) msg).
Definition facade_req_recv (f : Facade (ReqSocket S K)) : option (outcome (option (list bytes)) * Facade (ReqSocket S K)) :=
  lift_recv f (req_recv clock fuel (inner f)).
Definition facade_req_try_reconnect (f : Facade (ReqSocket S K)) : outcome unit * Facade (ReqSocket S K) :=
  lift f (base_reconnect Req (inner f)).
Definition facade_req_send_with_reconnect (f : Facade (ReqSocket S K)) (msg : list bytes)
    : option (outcome unit * Facade (ReqSocket S K)) :=
  lift_recv f (req_send_with_reconnect fuel 0 (inner f) msg).
Definition facade_req_recv_with_reconnect (f : Facade (ReqSocket S K))
    : option (outcome (option (list bytes)) * Facade (ReqSocket S K)) :=
  lift_recv f (req_recv_with_reconnect clock fuel 0 (inner f)).
Definition facade_req_set_options (f : Facade (ReqSocket S K)) (o : SocketOptions) : Facade (ReqSocket S K) :=
  mk_facade (put_base (inner f) (set_options (base_of (inner f)) o)) (monitor_ix f).

(** ** rep.rs *)

(** [from_tcp_with_options] is [with_options]: the stream is not tuned. *)
Definition facade_rep_from_tcp (s : S) : outcome (Facade (RepSocket S K)) := wrapped (rep_from_tcp s).
Definition facade_rep_from_tcp_with_options (s : S) (o : SocketOptions) : outcome (Facade (RepSocket S K)) :=
  wrapped (rep_on s o).
Definition facade_rep_with_options (s : S) (o : SocketOptions) : outcome (Facade (RepSocket S K)) := wrapped (rep_on s o).
Definition facade_rep_from_unix_stream (s : S) : outcome (Facade (RepSocket S K)) := wrapped (rep_on s default_options).
Definition facade_rep_from_unix_stream_with_options (s : S) (o : SocketOptions) : outcome (Facade (RepSocket S K)) :=
  wrapped (rep_on s o).
Definition facade_rep_bind (addr : SocketAddr) : outcome (Listener * Facade (RepSocket S K)) := binding addr facade_rep_from_tcp.
Definition facade_rep_bind_with_options (addr : SocketAddr) (o : SocketOptions) : outcome (Listener * Facade (RepSocket S K)) :=
  binding addr (λ s, facade_rep_from_tcp_with_options s o).

Definition facade_rep_recv (f : Facade (RepSocket S K)) : option (outcome (option (list bytes)) * Facade (RepSocket S K)) :=
  lift_recv f (rep_recv clock fuel (inner f)).
Definition facade_rep_send (f : Facade (RepSocket S K)) (msg : list bytes) : outcome unit * Facade (RepSocket S K) :=
  lift_send f (rep_send (inner f) msg).

#[export] Instance rep_has_base : HasBase (RepSocket S K) S K :=
  { base_of := rep_base; put_base r b := mk_rep b (rep_frames r) (rep_state r) }.

(** ** push.rs *)

Definition facade_push_connect (addr : SocketAddr) : outcome (Facade (PushSocket S K)) := wrapped (push_connect addr).
Definition facade_push_connect_with_options (addr : SocketAddr) (o : SocketOptions) : outcome (Facade (PushSocket S K)) :=
  wrapped (push_connect_with_options addr o).
Definition facade_push_from_tcp (s : S) : outcome (Facade (PushSocket S K)) := wrapped (push_from_tcp s).
Definition facade_push_from_tcp_with_options (s : S) (o : SocketOptions) : outcome (Facade (PushSocket S K)) :=
  wrapped (push_from_tcp_with_options s o).
Definition facade_push_new (s : S) : outcome (Facade (PushSocket S K)) := wrapped (push_on s default_options).
Definition facade_push_with_options (s : S) (o : SocketOptions) : outcome (Facade (PushSocket S K)) := wrapped (push_on s o).
Definition facade_push_from_unix_stream (s : S) : outcome (Facade (PushSocket S K)) := wrapped (push_on s default_options).
Definition facade_push_from_unix_stream_with_options (s : S) (o : SocketOptions) : outcome (Facade (PushSocket S K)) :=
  wrapped (push_on s o).
Definition facade_push_bind (addr : SocketAddr) : outcome (Listener * Facade (PushSocket S K)) := binding addr facade_push_from_tcp.

Definition facade_push_try_reconnect (f : Facade (PushSocket S K)) : outcome unit * Facade (PushSocket S K) :=
  lift f (base_reconnect Push (inner f)).
Definition facade_push_send_with_reconnect (f : Facade (PushSocket S K)) (msg : list bytes)
    : option (outcome unit * Facade (PushSocket S K)) :=
  lift_recv f (push_send_with_reconnect now fuel (inner f) msg).
Definition facade_push_send (f : Facade (PushSocket S K)) (msg : list bytes) : outcome unit * Facade (PushSocket S K) :=
  lift f (push_send now (inner f) msg).
Definition facade_push_send_one (f : Facade (PushSocket S K)) (frame : bytes) : outcome unit * Facade (PushSocket S K) :=
  lift f (push_send_one now (inner f) frame).
Definition facade_push_flush (f : Facade (PushSocket S K)) : outcome unit * Facade (PushSocket S K) := lift f (push_flush (inner f)).
Definition facade_push_send_batch (f : Facade (PushSocket S K)) (msgs : list (list bytes)) : outcome Z * Facade (PushSocket S K) :=
  lift f (push_send_batch now (inner f) msgs).

(** ** pull.rs *)

Definition facade_pull_connect (addr : SocketAddr) : outcome (Facade (PullSocket S K)) := wrapped (pull_connect addr).
Definition facade_pull_connect_with_options (addr : SocketAddr) (o : SocketOptions) : outcome (Facade (PullSocket S K)) :=
  wrapped (pull_connect_with_options addr o).
Definition facade_pull_from_tcp (s : S) : outcome (Facade (PullSocket S K)) := wrapped (pull_from_tcp s).
Definition facade_pull_from_tcp_with_options (s : S) (o : SocketOptions) : outcome (Facade (PullSocket S K)) :=
  wrapped (pull_from_tcp_with_options s o).
Definition facade_pull_new (s : S) : outcome (Facade (PullSocket S K)) := wrapped (pull_on s default_options).
Definition facade_pull_with_options (s : S) (o : SocketOptions) : outcome (Facade (PullSocket S K)) := wrapped (pull_on s o).
Definition facade_pull_from_unix_stream (s : S) : outcome (Facade (PullSocket S K)) := wrapped (pull_on s default_options).
Definition facade_pull_from_unix_stream_with_options (s : S) (o : SocketOptions) : outcome (Facade (PullSocket S K)) :=
  wrapped (pull_on s o).
Definition facade_pull_bind (addr : SocketAddr) : outcome (Listener * Facade (PullSocket S K)) := binding addr facade_pull_from_tcp.

Definition facade_pull_try_reconnect (f : Facade (PullSocket S K)) : outcome unit * Facade (PullSocket S K) :=
  lift f (base_reconnect Pull (inner f)).
Definition facade_pull_recv_with_reconnect (f : Facade (PullSocket S K))
    : option (outcome (option (list bytes)) * Facade (PullSocket S K)) :=
  lift_recv f (pull_recv_with_reconnect clock fuel fuel (inner f)).
Definition facade_pull_try_recv (f : Facade (PullSocket S K)) : option (outcome (option (list bytes)) * Facade (PullSocket S K)) :=
  lift_recv f (pull_try_recv (inner f)).
Definition facade_pull_recv (f : Facade (PullSocket S K)) : option (outcome (option (list bytes)) * Facade (PullSocket S K)) :=
  lift_recv f (pull_recv clock fuel (inner f)).

(** The call fills [out], which it returns. *)
Definition lift_into {X A B} (f : Facade X) (r : option (A * X * B)) : option (A * Facade X * B) :=
  (λ x, (lift f x.1, x.2)) <$> r.
Definition facade_pull_recv_into (f : Facade (PullSocket S K)) (out : list bytes)
    : option (outcome bool * Facade (PullSocket S K) * list bytes) :=
  lift_into f (pull_recv_into clock fuel (inner f) out).
Definition facade_pull_try_recv_into (f : Facade (PullSocket S K)) (out : list bytes)
    : option (outcome bool * Facade (PullSocket S K) * list bytes) :=
  lift_into f (pull_try_recv_into (inner f) out).
Definition facade_pull_recv_batch (f : Facade (PullSocket S K))
    : option (outcome (option (list (list bytes))) * Facade (PullSocket S K)) :=
  lift_recv f (pull_recv_batch clock fuel (inner f)).

(** ** subscriber.rs *)

Definition facade_sub_connect (text : bytes) (ms : monitors) : outcome (Facade (SubSocket S K)) * monitors :=
  match parse_tcp_endpoint text with
  | Err e => (Returned (Err e), ms)
  | Ok addr => announced_as (Tcp addr) (sub_connect addr) ms
  end.
Definition facade_sub_connect_ipc (path : bytes) (ms : monitors) : outcome (Facade (SubSocket S K)) * monitors :=
  announced_as (Ipc (ipc_path path)) (then_do (ipc_connect (ipc_path path)) (λ s, sub_on s default_options)) ms.
Definition facade_sub_from_tcp (s : S) : outcome (Facade (SubSocket S K)) := wrapped (sub_from_tcp s).
Definition facade_sub_from_tcp_with_options (s : S) (o : SocketOptions) : outcome (Facade (SubSocket S K)) :=
  wrapped (sub_from_tcp_with_options s o).
Definition facade_sub_with_options (s : S) (o : SocketOptions) : outcome (Facade (SubSocket S K)) := wrapped (sub_on s o).
Definition facade_sub_from_unix_stream (s : S) : outcome (Facade (SubSocket S K)) := wrapped (sub_on s default_options).
Definition facade_sub_from_unix_stream_with_options (s : S) (o : SocketOptions) : outcome (Facade (SubSocket S K)) :=
  wrapped (sub_on s o).

Definition facade_sub_try_reconnect (f : Facade (SubSocket S K)) : outcome unit * Facade (SubSocket S K) :=
  lift f (sub_try_reconnect (inner f)).
Definition facade_sub_recv_with_reconnect (f : Facade (SubSocket S K))
    : option (outcome (option (list bytes)) * Facade (SubSocket S K)) :=
  lift_recv f (sub_recv_with_reconnect clock fuel fuel (inner f)).
Definition facade_sub_subscribe (f : Facade (SubSocket S K)) (topic : bytes) : outcome unit * Facade (SubSocket S K) :=
  lift f (sub_subscribe (inner f) topic).
Definition facade_sub_unsubscribe (f : Facade (SubSocket S K)) (topic : bytes) : outcome unit * Facade (SubSocket S K) :=
  lift f (sub_unsubscribe (inner f) topic).
Definition facade_sub_recv (f : Facade (SubSocket S K)) : option (outcome (option (list bytes)) * Facade (SubSocket S K)) :=
  lift_recv f (sub_recv clock fuel (inner f)).

(** ** publisher.rs; the wrapped value is the socket and its listener *)

(** [PubSocket::new] of monocoque-zmtp starts a worker per processor, two to [DEFAULT_MAX_WORKERS]. *)
Definition DEFAULT_MAX_WORKERS : nat := 16.
Definition pub_default_workers (cpus : nat) : nat := Nat.min (Nat.max cpus 2) DEFAULT_MAX_WORKERS.

Definition facade_pub_bind_with_workers (addr : SocketAddr) (n : nat) : outcome (Facade (PubSocket S K * Listener)) :=
  then_do (tcp_bind addr) (λ l, wrapped (Returned (Ok (pub_with_workers_opts n default_options, l)))).
Definition facade_pub_bind (cpus : nat) (addr : SocketAddr) : outcome (Facade (PubSocket S K * Listener)) :=
  facade_pub_bind_with_workers addr (pub_default_workers cpus).

Definition facade_pub_accept_subscriber (f : Facade (PubSocket S K * Listener))
    : outcome Z * Facade (PubSocket S K * Listener) :=
  let '(p, l) := inner f in
  match then_do (tcp_accept l) (λ s, then_try (configure_tcp_stream s (pub_options p)) (λ _,
          handshaken Pub s (pub_options p) (λ peer s, Returned (Ok (s, cipher_of peer))))) with
  | Returned (Ok (s, c)) =>
      match pub_accept p s c with
      | Some (r, p) => (Returned r, mk_facade (p, l) (monitor_ix f))
      | None => (Panicked, f)
      end
  | Returned (Err e) => (Returned (Err e), f)
  | Pending => (Pending, f)
  | Panicked => (Panicked, f)
  end.

Definition facade_pub_send (waits : nat -> bool) (f : Facade (PubSocket S K * Listener)) (msg : list bytes)
    : io_result unit * Facade (PubSocket S K * Listener) :=
  let '(r, p) := pub_send waits (inner f).1 msg in (r, mk_facade (p, (inner f).2) (monitor_ix f)).
Definition facade_pub_send_frames (waits : nat -> bool) (f : Facade (PubSocket S K * Listener)) (frames : list bytes)
    : io_result unit * Facade (PubSocket S K * Listener) :=
  let '(r, p) := pub_send_frames waits (inner f).1 frames in (r, mk_facade (p, (inner f).2) (monitor_ix f)).

Definition facade_pub_options_mut (f : Facade (PubSocket S K * Listener)) (g : SocketOptions -> SocketOptions)
    : Facade (PubSocket S K * Listener) :=
  let '(p, l) := inner f in
  mk_facade (mk_pub (pub_workers p) (pub_shared p) (pub_local_union p) (pub_local_gen p) (pub_next_id p)
    (pub_next_worker p) (g (pub_options p)) (pub_subscriber_count p) (pub_is_poisoned p) (pub_drop_count p), l) (monitor_ix f).

(** ** The [ProxySocket] implementations *)

Definition facade_dealer_proxy : ProxySocket (Facade (DealerSocket S K)) :=
  {| recv_multipart := facade_dealer_recv; send_multipart := facade_dealer_send |}.
Definition facade_router_proxy : ProxySocket (Facade (RouterSocket S K)) :=
  {| recv_multipart := facade_router_recv; send_multipart := facade_router_send |}.
End facade.

(** ** An application

    The sockets it has made, the monitors it has asked for, and the counter of
    generated identities.  [makes] has a rule for every constructor, [calls] one
    for every method that changes its socket. *)

Inductive FSocket (S K : Type) `{Network S K} :=
| FDealer (f : Facade (DealerSocket S K))
| FRouter (f : Facade (RouterSocket S K))
| FReq (f : Facade (ReqSocket S K))
| FRep (f : Facade (RepSocket S K))
| FPush (f : Facade (PushSocket S K))
| FPull (f : Facade (PullSocket S K))
| FSub (f : Facade (SubSocket S K))
| FPub (f : Facade (PubSocket S K * Listener)).
Arguments FDealer {S K _} _.
Arguments FRouter {S K _} _.
Arguments FReq {S K _} _.
Arguments FRep {S K _} _.
Arguments FPush {S K _} _.
Arguments FPull {S K _} _.
Arguments FSub {S K _} _.
Arguments FPub {S K _} _.

(** [monitor(&mut self)] of each socket. *)
Definition watch {S K} `{Network S K} (x : FSocket S K) (ms : monitors) : FSocket S K * monitors :=
  match x with
  | FDealer f => let '(_, f, ms) := attach_monitor f ms in (FDealer f, ms)
  | FRouter f => let '(_, f, ms) := attach_monitor f ms in (FRouter f, ms)
  | FReq f => let '(_, f, ms) := attach_monitor f ms in (FReq f, ms)
  | FRep f => let '(_, f, ms) := attach_monitor f ms in (FRep f, ms)
  | FPush f => let '(_, f, ms) := attach_monitor f ms in (FPush f, ms)
  | FPull f => let '(_, f, ms) := attach_monitor f ms in (FPull f, ms)
  | FSub f => let '(_, f, ms) := attach_monitor f ms in (FSub f, ms)
  | FPub f => let '(_, f, ms) := attach_monitor f ms in (FPub f, ms)
  end.

Section application.
Context {S K : Type} `{AsyncStream S} `{Aead K} `{N : Network S K}.

(** What a constructor returned. *)
Inductive gives {X} : outcome (Facade X) -> Facade X -> Prop :=
| gives_socket f : gives (Returned (Ok f)) f.

Inductive gives_bound {L X} : outcome (L * X) -> X -> Prop :=
| gives_pair l x : gives_bound (Returned (Ok (l, x))) x.

Inductive makes (ms : monitors) (counter : Z) : FSocket S K -> monitors -> Z -> Prop :=
| makes_dealer_connect text f ms' :
    facade_dealer_connect text ms = (Returned (Ok f), ms') -> makes ms counter (FDealer f) ms' counter
| makes_dealer_connect_with_options text o f ms' :
    facade_dealer_connect_with_options text o ms = (Returned (Ok f), ms') -> makes ms counter (FDealer f) ms' counter
| makes_dealer_connect_ipc path f ms' :
    facade_dealer_connect_ipc path ms = (Returned (Ok f), ms') -> makes ms counter (FDealer f) ms' counter
| makes_dealer o f :
    (exists s, gives (facade_dealer_from_tcp s) f \/ gives (facade_dealer_from_tcp_with_options s o) f \/
               gives (facade_dealer_with_options s o) f \/ gives (facade_dealer_from_unix_stream s) f \/
               gives (facade_dealer_from_unix_stream_with_options s o) f) \/
    (exists addr, gives_bound (facade_dealer_bind addr) f) -> makes ms counter (FDealer f) ms counter
| makes_router o f counter' :
    (exists s, facade_router_from_stream counter s = Returned (Ok (f, counter')) \/
               facade_router_from_tcp counter s = Returned (Ok (f, counter')) \/
               facade_router_from_tcp_with_options counter s o = Returned (Ok (f, counter')) \/
               facade_router_with_options counter s o = Returned (Ok (f, counter')) \/
               facade_router_from_unix_stream counter s = Returned (Ok (f, counter')) \/
               facade_router_from_unix_stream_with_options counter s o = Returned (Ok (f, counter'))) \/
    (exists addr, gives_bound (facade_router_bind counter addr) (f, counter')) -> makes ms counter (FRouter f) ms counter'
| makes_req_connect text f ms' :
    facade_req_connect text ms = (Returned (Ok f), ms') -> makes ms counter (FReq f) ms' counter
| makes_req_connect_with_options text o f ms' :
    facade_req_connect_with_options text o ms = (Returned (Ok f), ms') -> makes ms counter (FReq f) ms' counter
| makes_req_connect_ipc path f ms' :
    facade_req_connect_ipc path ms = (Returned (Ok f), ms') -> makes ms counter (FReq f) ms' counter
| makes_req s o f :
    gives (facade_req_from_tcp s) f \/ gives (facade_req_from_tcp_with_options s o) f \/
    gives (facade_req_with_options s o) f \/ gives (facade_req_from_unix_stream s) f \/
    gives (facade_req_from_unix_stream_with_options s o) f -> makes ms counter (FReq f) ms counter
| makes_rep o f :
    (exists s, gives (facade_rep_from_tcp s) f \/ gives (facade_rep_from_tcp_with_options s o) f \/
               gives (facade_rep_with_options s o) f \/ gives (facade_rep_from_unix_stream s) f \/
               gives (facade_rep_from_unix_stream_with_options s o) f) \/
    (exists addr, gives_bound (facade_rep_bind addr) f \/ gives_bound (facade_rep_bind_with_options addr o) f) ->
    makes ms counter (FRep f) ms counter
| makes_push o f :
    (exists s, gives (facade_push_from_tcp s) f \/ gives (facade_push_from_tcp_with_options s o) f \/
               gives (facade_push_new s) f \/ gives (facade_push_with_options s o) f \/
               gives (facade_push_from_unix_stream s) f \/ gives (facade_push_from_unix_stream_with_options s o) f) \/
    (exists addr, gives (facade_push_connect addr) f \/ gives (facade_push_connect_with_options addr o) f \/
                  gives_bound (facade_push_bind addr) f) -> makes ms counter (FPush f) ms counter
| makes_pull o f :
    (exists s, gives (facade_pull_from_tcp s) f \/ gives (facade_pull_from_tcp_with_options s o) f \/
               gives (facade_pull_new s) f \/ gives (facade_pull_with_options s o) f \/
               gives (facade_pull_from_unix_stream s) f \/ gives (facade_pull_from_unix_stream_with_options s o) f) \/
    (exists addr, gives (facade_pull_connect addr) f \/ gives (facade_pull_connect_with_options addr o) f \/
                  gives_bound (facade_pull_bind addr) f) -> makes ms counter (FPull f) ms counter
| makes_sub_connect text f ms' :
    facade_sub_connect text ms = (Returned (Ok f), ms') -> makes ms counter (FSub f) ms' counter
| makes_sub_connect_ipc path f ms' :
    facade_sub_connect_ipc path ms = (Returned (Ok f), ms') -> makes ms counter (FSub f) ms' counter
| makes_sub s o f :
    gives (facade_sub_from_tcp s) f \/ gives (facade_sub_from_tcp_with_options s o) f \/
    gives (facade_sub_with_options s o) f \/ gives (facade_sub_from_unix_stream s) f \/
    gives (facade_sub_from_unix_stream_with_options s o) f -> makes ms counter (FSub f) ms counter
| makes_pub addr cpus n f :
    gives (facade_pub_bind cpus addr) f \/ gives (facade_pub_bind_with_workers addr n) f -> makes ms counter (FPub f) ms counter.

Inductive calls : FSocket S K -> FSocket S K -> Prop :=
| calls_dealer_send f msg : calls (FDealer f) (FDealer (facade_dealer_send f msg).2)
| calls_dealer_send_buffered f msg : calls (FDealer f) (FDealer (facade_dealer_send_buffered f msg).2)
| calls_dealer_flush f : calls (FDealer f) (FDealer (facade_dealer_flush f).2)
| calls_dealer_send_batch f msgs : calls (FDealer f) (FDealer (facade_dealer_send_batch f msgs).2)
| calls_dealer_recv clock fuel f o f' : facade_dealer_recv clock fuel f = Some (o, f') -> calls (FDealer f) (FDealer f')
| calls_dealer_options f g : calls (FDealer f) (FDealer (options_mut f g))
| calls_router_send f msg : calls (FRouter f) (FRouter (facade_router_send f msg).2)
| calls_router_send_buffered f msg : calls (FRouter f) (FRouter (facade_router_send_buffered f msg).2)
| calls_router_flush f : calls (FRouter f) (FRouter (facade_router_flush f).2)
| calls_router_send_batch f msgs : calls (FRouter f) (FRouter (facade_router_send_batch f msgs).2)
| calls_router_recv clock fuel f o f' : facade_router_recv clock fuel f = Some (o, f') -> calls (FRouter f) (FRouter f')
| calls_router_set_id f id : calls (FRouter f) (FRouter (facade_set_connect_routing_id f id).2)
| calls_router_set_mandatory f e : calls (FRouter f) (FRouter (facade_set_router_mandatory f e))
| calls_router_set_handover f e : calls (FRouter f) (FRouter (facade_set_router_handover f e))
| calls_router_options f g : calls (FRouter f) (FRouter (options_mut f g))
| calls_req_send f msg : calls (FReq f) (FReq (facade_req_send f msg).2)
| calls_req_recv clock fuel f o f' : facade_req_recv clock fuel f = Some (o, f') -> calls (FReq f) (FReq f')
| calls_req_reconnect f : calls (FReq f) (FReq (facade_req_try_reconnect f).2)
| calls_req_send_reconnect fuel f msg o f' : facade_req_send_with_reconnect fuel f msg = Some (o, f') -> calls (FReq f) (FReq f')
| calls_req_recv_reconnect clock fuel f o f' :
    facade_req_recv_with_reconnect clock fuel f = Some (o, f') -> calls (FReq f) (FReq f')
| calls_req_options f g : calls (FReq f) (FReq (options_mut f g))
| calls_req_set_options f o : calls (FReq f) (FReq (facade_req_set_options f o))
| calls_rep_send f msg : calls (FRep f) (FRep (facade_rep_send f msg).2)
| calls_rep_recv clock fuel f o f' : facade_rep_recv clock fuel f = Some (o, f') -> calls (FRep f) (FRep f')
| calls_rep_options f g : calls (FRep f) (FRep (options_mut f g))
| calls_push_send now f msg : calls (FPush f) (FPush (facade_push_send now f msg).2)
| calls_push_send_one now f frame : calls (FPush f) (FPush (facade_push_send_one now f frame).2)
| calls_push_flush f : calls (FPush f) (FPush (facade_push_flush f).2)
| calls_push_send_batch now f msgs : calls (FPush f) (FPush (facade_push_send_batch now f msgs).2)
| calls_push_reconnect f : calls (FPush f) (FPush (facade_push_try_reconnect f).2)
| calls_push_send_reconnect fuel now f msg o f' :
    facade_push_send_with_reconnect fuel now f msg = Some (o, f') -> calls (FPush f) (FPush f')
| calls_push_options f g : calls (FPush f) (FPush (options_mut f g))
| calls_pull_recv clock fuel f o f' : facade_pull_recv clock fuel f = Some (o, f') -> calls (FPull f) (FPull f')
| calls_pull_try_recv f o f' : facade_pull_try_recv f = Some (o, f') -> calls (FPull f) (FPull f')
| calls_pull_recv_into clock fuel f out o f' out' :
    facade_pull_recv_into clock fuel f out = Some (o, f', out') -> calls (FPull f) (FPull f')
| calls_pull_try_recv_into f out o f' out' : facade_pull_try_recv_into f out = Some (o, f', out') -> calls (FPull f) (FPull f')
| calls_pull_recv_batch clock fuel f o f' : facade_pull_recv_batch clock fuel f = Some (o, f') -> calls (FPull f) (FPull f')
| calls_pull_reconnect f : calls (FPull f) (FPull (facade_pull_try_reconnect f).2)
| calls_pull_recv_reconnect clock fuel f o f' :
    facade_pull_recv_with_reconnect clock fuel f = Some (o, f') -> calls (FPull f) (FPull f')
| calls_pull_options f g : calls (FPull f) (FPull (options_mut f g))
| calls_sub_subscribe f topic : calls (FSub f) (FSub (facade_sub_subscribe f topic).2)
| calls_sub_unsubscribe f topic : calls (FSub f) (FSub (facade_sub_unsubscribe f topic).2)
| calls_sub_recv clock fuel f o f' : facade_sub_recv clock fuel f = Some (o, f') -> calls (FSub f) (FSub f')
| calls_sub_reconnect f : calls (FSub f) (FSub (facade_sub_try_reconnect f).2)
| calls_sub_recv_reconnect clock fuel f o f' :
    facade_sub_recv_with_reconnect clock fuel f = Some (o, f') -> calls (FSub f) (FSub f')
| calls_sub_options f g : calls (FSub f) (FSub (options_mut f g))
| calls_pub_accept f : calls (FPub f) (FPub (facade_pub_accept_subscriber f).2)
| calls_pub_send waits f msg : calls (FPub f) (FPub (facade_pub_send waits f msg).2)
| calls_pub_send_frames waits f frames : calls (FPub f) (FPub (facade_pub_send_frames waits f frames).2)
| calls_pub_options f g : calls (FPub f) (FPub (facade_pub_options_mut f g)).

Record App := mk_app {
  app_sockets : list (FSocket S K);
  app_monitors : monitors;
  app_counter : Z;
}.

Definition app_new : App := mk_app [] [] 1.

Inductive app_step : App -> App -> Prop :=
| app_make a x ms counter :
    makes (app_monitors a) (app_counter a) x ms counter -> app_step a (mk_app (app_sockets a ++ [x]) ms counter)
| app_call a i x x' :
    app_sockets a !! i = Some x -> calls x x' -> app_step a (mk_app (<[i := x']> (app_sockets a)) (app_monitors a) (app_counter a))
| app_watch a i x x' ms :
    app_sockets a !! i = Some x -> watch x (app_monitors a) = (x', ms) ->
    app_step a (mk_app (<[i := x']> (app_sockets a)) ms (app_counter a))
| app_drop a i : app_step a (mk_app (delete i (app_sockets a)) (app_monitors a) (app_counter a))
| app_receive a i m e q :
    app_monitors a !! i = Some m -> mon_queue m = e :: q ->
    app_step a (mk_app (app_sockets a) (<[i := mk_monitor q (mon_open m)]> (app_monitors a)) (app_counter a)).
End application.
#[global] Arguments App S K {_}.

(** ** Monitors *)

Definition silent (ms : monitors) : Prop := Forall (λ m, mon_queue m = []) ms.

Section monitoring.
Context {S K : Type} `{AsyncStream S} `{Aead K} `{N : Network S K}.

(** A socket that has just been wrapped has no monitor. *)
Lemma announced_as_silent {X} e (o : outcome X) ms r ms' : announced_as e o ms = (r, ms') -> ms' = ms.
Proof. unfold announced_as. destruct o as [[x|e']| |]; cbn; congruence. Qed.

Lemma parsed_silent {X} text (k : SocketAddr -> outcome (Facade X) * monitors) ms r ms' :
  (forall addr r ms', k addr = (r, ms') -> ms' = ms) ->
  match parse_tcp_endpoint text with Err e => (Returned (Err e), ms) | Ok addr => k addr end = (r, ms') -> ms' = ms.
Proof. intros Hk. destruct (parse_tcp_endpoint text); [apply Hk|congruence]. Qed.

Lemma makes_silent (x : FSocket S K) ms counter ms' counter' : makes ms counter x ms' counter' -> ms' = ms.
Proof.
  destruct 1 as [text f ms' E|text o f ms' E|path f ms' E| | |text f ms' E|text o f ms' E|path f ms' E| | | | |text f ms' E|path f ms' E| |];
    try done; first [exact (announced_as_silent _ _ _ _ _ E)|eapply parsed_silent; [|exact E]; intros *; apply announced_as_silent].
Qed.

Lemma watch_silent (x x' : FSocket S K) ms ms' : watch x ms = (x', ms') -> ms' = ms ++ [create_monitor].
Proof. by destruct x; intros [= _ <-]. Qed.

Lemma app_step_silent (a b : App S K) : app_step a b -> silent (app_monitors a) -> silent (app_monitors b).
Proof.
  intros Hs Ha. destruct Hs as [a x ms counter ->%makes_silent|a i x x' _ _|a i x x' ms _ ->%watch_silent|a i|a i m e q Hi Hq]; cbn; try done.
  - apply Forall_app. split; [done|]. by constructor.
  - unfold silent in Ha. rewrite Forall_lookup in Ha. by rewrite (Ha i m Hi) in Hq.
Qed.
End monitoring.

(** Whatever an application does, with any number of sockets of any type, no
    monitor ever holds an event: the only events are announced by constructors,
    whose sockets cannot have a monitor yet. The documentation promises connection
    and disconnection events. *)
Theorem monitors_stay_silent {S K : Type} `{AsyncStream S} `{Aead K} `{N : Network S K} (a : App S K) :
  rtc app_step app_new a -> Forall (λ m, mon_queue m = []) (app_monitors a).
Proof.
  intros Hr. change (silent (app_monitors a)). assert (Hnew : silent (app_monitors (S := S) (K := K) app_new)) by constructor.
  revert Hnew. induction Hr as [a|a b c Hab _ IH]; [done|]. intros Ha. by apply IH, (app_step_silent a b).
Qed.

(** Connecting, then asking for a monitor. *)
Lemma monitors_stay_silent_witness :
  exists a : App SinkStream unit, rtc app_step app_new a /\ length (app_sockets a) = 1%nat /\
    length (app_monitors a) = 1%nat /\ Forall (λ m, mon_queue m = []) (app_monitors a).
Proof.
  pose (d := mk_dealer (S := SinkStream) (K := unit)
               (with_endpoint (mk_sink []) (Tcp (V4 [127; 0; 0; 1] 5555)) default_options) []).
  pose (a := mk_app (S := SinkStream) (K := unit) [FDealer (mk_facade d (Some 0%nat))] [create_monitor] 1).
  exists a. assert (Hr : rtc app_step app_new a).
  { eapply rtc_l; [apply (app_make app_new (FDealer (mk_facade d None)) [] 1)|].
    - apply (makes_dealer_connect _ _ (ascii_bytes "127.0.0.1:5555")). vm_compute. reflexivity.
    - eapply rtc_l; [|apply rtc_refl].
      apply (app_watch (mk_app [FDealer (mk_facade d None)] [] 1) 0 (FDealer (mk_facade d None))
               (FDealer (mk_facade d (Some 0%nat))) [create_monitor]); reflexivity. }
  split; [exact Hr|]. split; [reflexivity|]. split; [reflexivity|]. exact (monitors_stay_silent a Hr).
Defined.

(** ** The identity policy of ROUTER *)

Section mandatory.
Context {S K : Type} `{AsyncStream S} `{Aead K} `{N : Network S K}.

(** What decides over a message to an identity. *)
Definition policy (r : RouterSocket S K) : bytes * bool := (peer_identity r, mandatory r).

Lemma router_batch_policy (r : RouterSocket S K) msgs : policy (router_batch_encode r msgs).2 = policy r.
Proof.
  revert r. induction msgs as [|m ms IH]; intros r; cbn [router_batch_encode]; [done|].
  repeat (case_match; try done); rewrite ?IH; done.
Qed.

Lemma router_recv_policy clock fuel (r r' : RouterSocket S K) o : router_recv clock fuel r = Some (o, r') -> policy r' = policy r.
Proof. intros ([[o' b] fs] & _ & E)%bind_Some. by destruct o' as [[[msg|]|]| |]; injection E as _ <-. Qed.

Lemma calls_policy f (y : FSocket S K) :
  calls (FRouter f) y -> exists f', y = FRouter f' /\ policy (inner f') = policy (inner f).
Proof.
  inversion 1 as [| | | | | |? msg|? msg| |? msgs|clock fuel ? o f' E|? id|?|?|?| | | | | | | | | | | | | | | | | | | | | | | | | | | | | | | | | | |];
    subst; eexists; (split; [done|]); cbn; try done.
  - unfold router_send. repeat (case_match; try done).
  - unfold router_send_buffered. repeat (case_match; try done).
  - unfold router_flush. repeat (case_match; try done).
  - unfold router_send_batch, router_flush. pose proof (router_batch_policy (inner f) msgs) as Hp.
    destruct (router_batch_encode (inner f) msgs) as [[[]|] r']; [|done]. by destruct (flush_send_buffer _).
  - apply fmap_Some in E as ([o' r] & E & [= _ ->]). by apply router_recv_policy in E.
  - unfold facade_set_connect_routing_id. by case_match.
Qed.

Lemma runs_policy f (y : FSocket S K) :
  rtc calls (FRouter f) y -> exists f', y = FRouter f' /\ policy (inner f') = policy (inner f).
Proof.
  intros Hr. remember (FRouter f) as x eqn:Ex. revert f Ex.
  induction Hr as [x|x y z Hxy _ IH]; intros f ->; [by exists f|].
  apply calls_policy in Hxy as (f' & -> & Hp). destruct (IH f' eq_refl) as (f'' & -> & Hp'). exists f''. by rewrite Hp'.
Qed.
End mandatory.

(** A ROUTER treats a message for an identity other than its peer's by the
    setting it was made with, for ever: after any calls, [set_router_mandatory]
    and writes through [options_mut] included, the facade answers such a send with
    success and drops the message when the socket was made without the option, and
    with [BrokenPipe] when it was made with it, and changes nothing; the setter of
    the wrapped socket would turn the refusal on. *)
Theorem facade_mandatory_fixed {S K : Type} `{AsyncStream S} `{Aead K} `{N : Network S K}
    (f f' : Facade (RouterSocket S K)) (id : bytes) (m : list bytes) :
  rtc calls (FRouter f) (FRouter f') -> id <> peer_identity (inner f) ->
  let answer : io_result unit := if mandatory (inner f) then Err BrokenPipe else Ok tt in
  facade_router_send f' (id :: m) = (Returned answer, f') /\
  facade_router_send_buffered f' (id :: m) = (answer, f') /\
  (router_send (set_router_mandatory (inner f') true) (id :: m)).1 = Returned (Err NotFound).
Proof.
  intros (g & [= ->] & [= Hid Hm])%runs_policy Hne answer.
  assert (Hb : bool_decide (id = peer_identity (inner g)) = false) by (apply bool_decide_eq_false_2; congruence).
  unfold facade_router_send, facade_router_send_buffered, router_send, router_send_buffered, set_router_mandatory.
  cbn [peer_identity mandatory]. rewrite Hb, Hm. subst answer. destruct g as [r ix].
  by destruct (mandatory (inner f)).
Qed.

Definition lax_router : Facade (RouterSocket SinkStream unit) :=
  mk_facade (router_with_options (mk_sink []) default_options (Some (ascii_bytes "peer")) None 1).1 None.

Lemma facade_mandatory_fixed_witness :
  facade_router_send (facade_set_router_mandatory lax_router true) [ascii_bytes "other"; ascii_bytes "x"] =
    (Returned (Ok tt), facade_set_router_mandatory lax_router true).
Proof.
  apply (facade_mandatory_fixed lax_router (facade_set_router_mandatory lax_router true) (ascii_bytes "other") [ascii_bytes "x"]).
  - apply rtc_once, (calls_router_set_mandatory lax_router true).
  - by vm_compute.
Defined.

(** ** Proxies over facade sockets *)

(** The [ProxySocket] of a facade socket, from that of the socket it wraps. *)
Definition facade_proxy_of {X} (P : ProxySocket X) : ProxySocket (Facade X) := {|
  recv_multipart f := lift_recv f (recv_multipart (inner f));
  send_multipart f msg := lift_send f (send_multipart (inner f) msg);
|}.

Lemma facade_proxies_wrap {S K} `{AsyncStream S} `{Aead K} clock fuel :
  facade_dealer_proxy clock fuel = facade_proxy_of (dealer_proxy (S := S) (K := K) clock fuel) /\
  facade_router_proxy clock fuel = facade_proxy_of (router_proxy (S := S) (K := K) clock fuel).
Proof. done. Qed.

(** What the facade makes of how a round ends. *)
Inductive ends_as : status -> status -> Prop :=
| ends_same st : ends_as st st
| ends_refused e : ends_as (Exited (Err e)) (Exited (Err BrokenPipe))
| ends_early : ends_as Running (Exited (Err BrokenPipe)).

Section facade_proxies.
Context {F B C : Type} (PF : ProxySocket F) (PB : ProxySocket B) `{PC : ProxySocket C}.

#[local] Instance front_facade : ProxySocket (Facade F) := facade_proxy_of PF.
#[local] Instance back_facade : ProxySocket (Facade B) := facade_proxy_of PB.

(** The proxy over the wrapped sockets. *)
Definition unwrap (p : Proxy (Facade F) (Facade B) C) : Proxy F B C :=
  mk_proxy (inner (frontend p)) (inner (backend p)) (capture p).

Lemma forward_unwraps {X} (P : ProxySocket X) (dst : Facade X) (cap : option C) msg :
  let '(st, n, d, cap1) := forward (D := X) (inner dst) cap msg in
  let '(st', n', d', cap1') := forward (H := facade_proxy_of P) dst cap msg in
  ends_as st st' /\ n' = n /\ inner d' = d /\ cap1' = cap1.
Proof.
  unfold forward. destruct (send_capture cap msg) as [[r| |] cap1]; cbn; [|by split; [constructor|]..].
  destruct (send_multipart (inner dst) msg) as [[[[]|e]| |] d] eqn:E; cbn; split_and!; try done; try constructor.
  destruct (is_transient_send_error e); constructor.
Qed.

Definition round_unwraps (st : status) (p : Proxy F B C) (st' : status) (p' : Proxy (Facade F) (Facade B) C) : Prop :=
  ends_as st st' /\ p = unwrap p'.

Lemma from_frontend_unwraps p r :
  round_unwraps (from_frontend (unwrap p) r).1 (from_frontend (unwrap p) r).2 (from_frontend p r).1 (from_frontend p r).2.
Proof.
  unfold from_frontend. destruct r as [[msg|]|e]; [|by split; [constructor|]..].
  pose proof (forward_unwraps PB (backend p) (capture p) msg) as Hf. cbn [unwrap frontend backend capture].
  destruct (forward (inner (backend p)) (capture p) msg) as [[[st n] d] cap]. unfold back_facade.
  destruct (forward (backend p) (capture p) msg) as [[[st' n'] d'] cap']. destruct Hf as (Hs & _ & <- & <-). by split.
Qed.

Lemma from_backend_unwraps p r :
  round_unwraps (from_backend (unwrap p) r).1 (from_backend (unwrap p) r).2 (from_backend p r).1 (from_backend p r).2.
Proof.
  unfold from_backend. destruct r as [[msg|]|e]; [|by split; [constructor|]..].
  pose proof (forward_unwraps PF (frontend p) (capture p) msg) as Hf. cbn [unwrap frontend backend capture].
  destruct (forward (inner (frontend p)) (capture p) msg) as [[[st n] d] cap]. unfold front_facade.
  destruct (forward (frontend p) (capture p) msg) as [[[st' n'] d'] cap']. destruct Hf as (Hs & _ & <- & <-). by split.
Qed.

(** A branch of the wrapped proxy and of the facade's. *)
Definition branch_unwraps (x : option (option (status * Proxy F B C) * Proxy F B C))
    (y : option (option (status * Proxy (Facade F) (Facade B) C) * Proxy (Facade F) (Facade B) C)) : Prop :=
  match x, y with
  | None, None => True
  | Some (Some (st, p), _), Some (Some (st', p'), _) => round_unwraps st p st' p'
  | Some (None, p), Some (None, p') => p = unwrap p'
  | _, _ => False
  end.

Lemma poll_frontend_unwraps p : branch_unwraps (poll_frontend (unwrap p)) (poll_frontend p).
Proof.
  unfold poll_frontend. cbn. destruct (recv_multipart (inner (frontend p))) as [[[r| |] f]|]; cbn; [|done|by split; [constructor|]|done].
  pose proof (from_frontend_unwraps (mk_proxy (mk_facade f (monitor_ix (frontend p))) (backend p) (capture p)) r) as Hf.
  unfold unwrap in Hf at 1 2. cbn in Hf. destruct (from_frontend (mk_proxy f _ _) r), (from_frontend (mk_proxy (mk_facade f _) _ _) r). done.
Qed.

Lemma poll_backend_unwraps p : branch_unwraps (poll_backend (unwrap p)) (poll_backend p).
Proof.
  unfold poll_backend. cbn. destruct (recv_multipart (inner (backend p))) as [[[r| |] b]|]; cbn; [|done|by split; [constructor|]|done].
  pose proof (from_backend_unwraps (mk_proxy (frontend p) (mk_facade b (monitor_ix (backend p))) (capture p)) r) as Hf.
  unfold unwrap in Hf at 1 2. cbn in Hf. destruct (from_backend (mk_proxy _ b _) r), (from_backend (mk_proxy _ (mk_facade b _) _) r). done.
Qed.

Lemma poll_unwraps (front : bool) p :
  branch_unwraps (if front then poll_frontend (unwrap p) else poll_backend (unwrap p)) (if front then poll_frontend p else poll_backend p).
Proof. destruct front; [apply poll_frontend_unwraps|apply poll_backend_unwraps]. Qed.

Lemma proxy_round_unwraps order p st' p' :
  proxy_round order p = Some (st', p') ->
  exists st, proxy_round order (unwrap p) = Some (st, unwrap p') /\ ends_as st st'.
Proof.
  unfold proxy_round. pose proof (poll_unwraps order p) as H1.
  destruct (if order then poll_frontend p else poll_backend p) as [[[[st1' p1']|] q']|] eqn:E1;
    destruct (if order then poll_frontend (unwrap p) else poll_backend (unwrap p)) as [[[[st1 p1]|] q]|]; cbn in H1; try done.
  - intros [= <- <-]. destruct H1 as [Hs ->]. by exists st1.
  - subst q. pose proof (poll_unwraps (negb order) q') as H2.
    replace (if order then poll_backend q' else poll_frontend q') with (if negb order then poll_frontend q' else poll_backend q') by (by destruct order).
    replace (if order then poll_backend (unwrap q') else poll_frontend (unwrap q'))
      with (if negb order then poll_frontend (unwrap q') else poll_backend (unwrap q')) by (by destruct order).
    destruct (if negb order then poll_frontend q' else poll_backend q') as [[[[st2' p2']|] q2']|];
      destruct (if negb order then poll_frontend (unwrap q') else poll_backend (unwrap q')) as [[[[st2 p2]|] q2]|]; cbn in H2; try done.
    + intros [= <- <-]. destruct H2 as [Hs ->]. by exists st2.
    + intros [= <- <-]. subst q2. eexists. split; [done|constructor].
Qed.

Lemma proxy_run_unwraps orders p st' p' :
  proxy_run orders p = Some (st', p') ->
  exists done st, done `prefix_of` orders /\ proxy_run done (unwrap p) = Some (st, unwrap p') /\ ends_as st st'.
Proof.
  revert p. induction orders as [|o orders IH]; intros p E; cbn [proxy_run] in E.
  { injection E as <- <-. exists [], Running. split_and!; [done..|constructor]. }
  destruct (proxy_round o p) as [[st1' p1']|] eqn:E1; [|done]. apply proxy_round_unwraps in E1 as (st1 & E1 & Hs).
  destruct st1'; cycle 1.
  1-3: injection E as <- <-; exists [o], st1; (split_and!; [by apply prefix_cons, prefix_nil| |done]); cbn; rewrite E1; by destruct st1.
  - inversion Hs; subst. apply IH in E as (dn & st & Hd & E & Hst). exists (o :: dn), st.
    split_and!; [by apply prefix_cons| |done]. cbn. by rewrite E1.
Qed.
End facade_proxies.

(** A proxy between a facade ROUTER and a facade DEALER does what the proxy
    between the wrapped sockets does, except that it may end sooner: every run of it is
    a run of the other over some of the same rounds, to the same sockets, with every
    send error turned into [BrokenPipe]. It does end sooner: at a send that fails
    for the moment ([WouldBlock], [Interrupted], [TimedOut]) the wrapped proxy drops
    the message and goes on, the facade's exits with [BrokenPipe]. *)
Theorem facade_proxy_ends_early {S K C : Type} `{AsyncStream S} `{Aead K} `{ProxySocket C} (clock : nat -> Z) (fuel : nat)
    (p : Proxy (Facade (RouterSocket S K)) (Facade (DealerSocket S K)) C) :
  let PR := router_proxy clock fuel in let PD := dealer_proxy clock fuel in
  let FR := facade_router_proxy clock fuel in let FD := facade_dealer_proxy clock fuel in
  (forall orders st' p', proxy_run orders p = Some (st', p') ->
   exists done st, done `prefix_of` orders /\ proxy_run done (unwrap p) = Some (st, unwrap p') /\ ends_as st st') /\
  (forall msg e d, dealer_send (inner (backend p)) msg = (Returned (Err e), d) -> is_transient_send_error e = true ->
   capture p = None ->
   from_frontend (unwrap p) (Ok (Some msg)) = (Running, mk_proxy (inner (frontend p)) d None) /\
   from_frontend p (Ok (Some msg)) = (Exited (Err BrokenPipe), mk_proxy (frontend p) (mk_facade d (monitor_ix (backend p))) None)).
Proof.
  intros PR PD FR FD. split.
  - intros orders. apply (proxy_run_unwraps PR PD orders p).
  - intros msg e d E He Hc. unfold from_frontend, forward, send_capture. cbn. rewrite Hc. cbn. rewrite E. cbn. by rewrite He.
Qed.

(** A DEALER that must not wait: [send_timeout] zero. *)
Definition impatient_dealer : DealerSocket SinkStream unit :=
  dealer_with_options (mk_sink []) (default_options <| send_timeout := Some 0 |>) None.

Definition broker : Proxy (Facade (RouterSocket SinkStream unit)) (Facade (DealerSocket SinkStream unit)) QueueSocket :=
  mk_proxy lax_router (mk_facade impatient_dealer None) None.

Lemma facade_proxy_ends_early_witness :
  (@from_frontend _ _ _ (facade_dealer_proxy (λ _, 0) 10) _ broker (Ok (Some [ascii_bytes "x"]))).1 = Exited (Err BrokenPipe).
Proof.
  destruct (facade_proxy_ends_early (λ _, 0) 10 broker) as [_ Hs].
  assert (Ho : (dealer_send impatient_dealer [ascii_bytes "x"]).1 = Returned (Err WouldBlock)) by (vm_compute; reflexivity).
  destruct (dealer_send impatient_dealer [ascii_bytes "x"]) as [o d] eqn:E. cbn in Ho. subst o. destruct (Hs [ascii_bytes "x"] WouldBlock d E eq_refl eq_refl) as [_ Hf]. by rewrite Hf.
Defined.

(** REQ: [connect] keeps the peer's address, [connect_with_options] does not, so a
    socket made with options can never reconnect. *)
Theorem facade_req_options_forget {S K : Type} `{AsyncStream S} `{Aead K} `{N : Network S K} (text : bytes) (o : SocketOptions)
    (ms ms' : monitors) (f : Facade (ReqSocket S K)) :
  (facade_req_connect_with_options text o ms = (Returned (Ok f), ms') ->
   last_endpoint (base_of (inner f)) = None /\ facade_req_try_reconnect f = (Returned (Err Unsupported), f)) /\
  (facade_req_connect text ms = (Returned (Ok f), ms') ->
   exists peer, endpoint (base_of (inner f)) = Some (Tcp peer) /\
     last_endpoint (base_of (inner f)) = Some (endpoint_display (Tcp peer))).
Proof.
  unfold facade_req_connect_with_options, facade_req_connect. split; destruct (parse_tcp_endpoint text) as [addr|]; try done.
  - unfold then_do, announced_as. destruct (tcp_connect addr) as [[s|]|]; try done.
    destruct (req_from_tcp_with_options s o) as [[r|]| |] eqn:E; try done. intros [= <- _].
    apply tuned_ok, handshaken_ok in E as (p & s' & _ & [= <-]). done.
  - unfold announced_as. destruct (req_connect addr) as [[r|]| |] eqn:E; try done. intros [= <- _].
    apply connecting_ok in E as (s & s' & peer & p & _ & _ & _ & _ & ->). by exists peer.
Qed.
