(* ===== verification/Transport.v ===== *)
(** * TCP tuning, IPC listeners, read buffers

    monocoque-core/src/tcp.rs with [configure_tcp_stream] of
    monocoque-zmtp/src/utils.rs, monocoque-core/src/ipc.rs and
    [take_read_buffer] of monocoque-core/src/io.rs (the Unix variants).

    The kernel is a table of open descriptors and the options set on them; which
    calls it refuses is a parameter, and so is which options [set_tcp_keepalive] of
    socket2 sets ([Socket2]).  A [socket2::Socket] made by [from_raw_fd]
    owns the descriptor: dropping it closes it, [mem::forget] does not. *)

From S2P Require Import Prelude.
From S2P Require Import Options.
From S2P Require Import Address.

(** ** Descriptors *)

Inductive SockOpt :=
| NoDelay (on : bool)
| SendBufferSize (n : Z)
| RecvBufferSize (n : Z)
| KeepAlive (on : bool)
| ReuseAddress (on : bool)
| ReusePort (on : bool)
| KeepIdle (seconds : Z)
| KeepInterval (seconds : Z)
| KeepCount (probes : Z)
| NonBlocking (on : bool).

Record Kernel := mk_kernel {
  open_fds : gset Z;
  applied : list (Z * SockOpt);
}.

Definition close_fd (k : Kernel) (fd : Z) : Kernel := mk_kernel (open_fds k ∖ {[fd]}) (applied k).

(** [open], [accept], ... return the lowest number that is free. *)
Fixpoint lowest_free (fuel : nat) (fd : Z) (fds : gset Z) : Z :=
  match fuel with
  | O => fd
  | S fuel => if bool_decide (fd ∈ fds) then lowest_free fuel (fd + 1) fds else fd
  end.

Definition open_fd (k : Kernel) : Z * Kernel :=
  let fd := lowest_free (size (open_fds k)) 0 (open_fds k) in (fd, mk_kernel ({[fd]} ∪ open_fds k) (applied k)).

(** [socket2::TcpKeepalive]. *)
Record TcpKeepalive := mk_keepalive {
  ka_time : option Z;
  ka_interval : option Z;
  ka_retries : option Z;
}.

(** The options that [Socket::set_tcp_keepalive] of the socket2 crate sets, one
    [setsockopt] call each, up to the first that fails.  As its documentation says,
    it enables keepalive and sets the parameters given; nothing is said of the
    order. *)
Class Socket2 := {
  keepalive_calls : TcpKeepalive -> list SockOpt;
  keepalive_calls_spec p opt :
    opt ∈ keepalive_calls p <->
    match opt with
    | KeepAlive on => on = true
    | KeepIdle n => ka_time p = Some n
    | KeepInterval n => ka_interval p = Some n
    | KeepCount n => ka_retries p = Some n
    | _ => False
    end;
}.

Section tcp.
Context `{Sock : Socket2} (refuses : Z -> SockOpt -> option ErrorKind).

Definition setsockopt (k : Kernel) (fd : Z) (opt : SockOpt) : io_result unit * Kernel :=
  if bool_decide (fd ∈ open_fds k) then
    match refuses fd opt with
    | Some e => (Err e, k)
    | None => (Ok tt, mk_kernel (open_fds k) (applied k ++ [(fd, opt)]))
    end
  else (Err OtherError, k).

(** A run of [setsockopt] calls with [?] after each. *)
Fixpoint set_all (k : Kernel) (fd : Z) (opts : list SockOpt) : io_result unit * Kernel :=
  match opts with
  | [] => (Ok tt, k)
  | opt :: opts =>
      match setsockopt k fd opt with
      | (Ok _, k) => set_all k fd opts
      | (Err e, k) => (Err e, k)
      end
  end.

(** [?] returns before [mem::forget(sock)]: the socket is dropped. *)
Definition forgotten_unless_error (fd : Z) (r : io_result unit * Kernel) : io_result unit * Kernel :=
  match r with (Ok _, k) => (Ok tt, k) | (Err e, k) => (Err e, close_fd k fd) end.

Definition enable_tcp_nodelay (k : Kernel) (fd : Z) : io_result unit * Kernel :=
  forgotten_unless_error fd (set_all k fd [NoDelay true]).

(** The closure's result is kept until the socket has been forgotten. *)
Definition configure_socket_buffers (k : Kernel) (fd sndbuf rcvbuf : Z) : io_result unit * Kernel :=
  if (sndbuf <=? 0) && (rcvbuf <=? 0) then (Ok tt, k)
  else set_all k fd ((if 0 <? sndbuf then [SendBufferSize sndbuf] else []) ++
                     (if 0 <? rcvbuf then [RecvBufferSize rcvbuf] else [])).

Definition set_tcp_keepalive (k : Kernel) (fd : Z) (params : TcpKeepalive) : io_result unit * Kernel :=
  set_all k fd (keepalive_calls params).

Definition with_time (p : TcpKeepalive) (n : Z) : TcpKeepalive := mk_keepalive (Some n) (ka_interval p) (ka_retries p).
Definition with_interval (p : TcpKeepalive) (n : Z) : TcpKeepalive := mk_keepalive (ka_time p) (Some n) (ka_retries p).
Definition with_retries (p : TcpKeepalive) (n : Z) : TcpKeepalive := mk_keepalive (ka_time p) (ka_interval p) (Some n).

(** The Linux variant, which also sets the number of probes. *)
Definition configure_tcp_keepalive (k : Kernel) (fd keepalive keepalive_cnt keepalive_idle keepalive_intvl : Z) : io_result unit * Kernel :=
  forgotten_unless_error fd
    match (if 0 <=? keepalive then setsockopt k fd (KeepAlive (negb (keepalive =? 0))) else (Ok tt, k)) with
    | (Err e, k) => (Err e, k)
    | (Ok _, k) =>
        if keepalive =? 1 then
          let params := mk_keepalive None None None in
          let params := if 0 <? keepalive_idle then with_time params keepalive_idle else params in
          let params := if 0 <? keepalive_intvl then with_interval params keepalive_intvl else params in
          let params := if 0 <? keepalive_cnt then with_retries params keepalive_cnt else params in
          set_tcp_keepalive k fd params
        else (Ok tt, k)
    end.

(** [configure_tcp_stream] of utils.rs. *)
Definition tune_stream (k : Kernel) (fd : Z) (o : SocketOptions) : io_result unit * Kernel :=
  match enable_tcp_nodelay k fd with
  | (Err e, k) => (Err e, k)
  | (Ok _, k) =>
      match (if (0 <? sndbuf o) || (0 <? rcvbuf o) then configure_socket_buffers k fd (sndbuf o) (rcvbuf o) else (Ok tt, k)) with
      | (Err e, k) => (Err e, k)
      | (Ok _, k) =>
          configure_tcp_keepalive k fd (tcp_keepalive o) (tcp_keepalive_cnt o) (tcp_keepalive_idle o) (tcp_keepalive_intvl o)
      end
  end.

Inductive Domain := IPV4 | IPV6.
Definition domain_of (addr : SocketAddr) : Domain := match addr with V4 _ _ => IPV4 | V6 _ _ _ _ => IPV6 end.

(** [socket], [bind] and [listen] answer as the parameters say; here the socket is
    owned, so an error rightly closes it. *)
Definition reuseport_listener (socket : Domain -> io_result unit) (bind listen : Z -> SocketAddr -> io_result unit)
    (k : Kernel) (addr : SocketAddr) : io_result Z * Kernel :=
  match socket (domain_of addr) with
  | Err e => (Err e, k)
  | Ok _ =>
      let '(fd, k) := open_fd k in
      match set_all k fd [ReuseAddress true; ReusePort true] with
      | (Err e, k) => (Err e, close_fd k fd)
      | (Ok _, k) =>
          match bind fd addr with
          | Err e => (Err e, close_fd k fd)
          | Ok _ => match listen fd addr with Err e => (Err e, close_fd k fd) | Ok _ => (Ok fd, k) end
          end
      end
  end.

(** *** Windows and other platforms

    The Windows variants differ from the Unix ones in the number of probes, which
    they do not set; elsewhere nothing is set. *)

Definition windows_enable_tcp_nodelay (k : Kernel) (raw : Z) : io_result unit * Kernel :=
  forgotten_unless_error raw (set_all k raw [NoDelay true]).

Definition windows_configure_socket_buffers (k : Kernel) (raw sndbuf rcvbuf : Z) : io_result unit * Kernel :=
  if (sndbuf <=? 0) && (rcvbuf <=? 0) then (Ok tt, k)
  else set_all k raw ((if 0 <? sndbuf then [SendBufferSize sndbuf] else []) ++
                      (if 0 <? rcvbuf then [RecvBufferSize rcvbuf] else [])).

Definition windows_configure_tcp_keepalive (k : Kernel) (raw keepalive keepalive_cnt keepalive_idle keepalive_intvl : Z)
    : io_result unit * Kernel :=
  forgotten_unless_error raw
    match (if 0 <=? keepalive then setsockopt k raw (KeepAlive (negb (keepalive =? 0))) else (Ok tt, k)) with
    | (Err e, k) => (Err e, k)
    | (Ok _, k) =>
        if keepalive =? 1 then
          let params := mk_keepalive None None None in
          let params := if 0 <? keepalive_idle then with_time params keepalive_idle else params in
          let params := if 0 <? keepalive_intvl then with_interval params keepalive_intvl else params in
          set_tcp_keepalive k raw params
        else (Ok tt, k)
    end.

Definition other_enable_tcp_nodelay (k : Kernel) (fd : Z) : io_result unit * Kernel := (Ok tt, k).
Definition other_configure_socket_buffers (k : Kernel) (fd sndbuf rcvbuf : Z) : io_result unit * Kernel := (Ok tt, k).
Definition other_configure_tcp_keepalive (k : Kernel) (fd keepalive cnt idle intvl : Z) : io_result unit * Kernel := (Ok tt, k).
Definition other_reuseport_listener (k : Kernel) (addr : SocketAddr) : io_result Z * Kernel := (Err Unsupported, k).

(** [configure_tcp_stream], with the variants of a platform. *)
Definition tune_with (nodelay : Kernel -> Z -> io_result unit * Kernel)
    (buffers : Kernel -> Z -> Z -> Z -> io_result unit * Kernel)
    (keepalive : Kernel -> Z -> Z -> Z -> Z -> Z -> io_result unit * Kernel) (k : Kernel) (fd : Z) (o : SocketOptions)
    : io_result unit * Kernel :=
  match nodelay k fd with
  | (Err e, k) => (Err e, k)
  | (Ok _, k) =>
      match (if (0 <? sndbuf o) || (0 <? rcvbuf o) then buffers k fd (sndbuf o) (rcvbuf o) else (Ok tt, k)) with
      | (Err e, k) => (Err e, k)
      | (Ok _, k) => keepalive k fd (tcp_keepalive o) (tcp_keepalive_cnt o) (tcp_keepalive_idle o) (tcp_keepalive_intvl o)
      end
  end.

(** A Windows socket is tuned as a Unix one for which no number of probes is asked. *)
Lemma windows_tuning k fd o :
  tune_with windows_enable_tcp_nodelay windows_configure_socket_buffers windows_configure_tcp_keepalive k fd o =
    tune_stream k fd (o <| tcp_keepalive_cnt := -1 |>).
Proof. done. Qed.

Lemma other_tuning k fd o :
  tune_with other_enable_tcp_nodelay other_configure_socket_buffers other_configure_tcp_keepalive k fd o = (Ok tt, k).
Proof. unfold tune_with. cbn. by destruct (_ || _). Qed.

(** ** What tuning does *)

(** What the documentation of the options asks for: no delay, always; a buffer size
    that is positive; keepalive off at 0 and on above, untouched below; and its
    parameters at 1, each if it is positive. *)
Definition asked (o : SocketOptions) (opt : SockOpt) : Prop :=
  match opt with
  | NoDelay on => on = true
  | SendBufferSize n => n = sndbuf o /\ 0 < n
  | RecvBufferSize n => n = rcvbuf o /\ 0 < n
  | KeepAlive on => (tcp_keepalive o = 0 /\ on = false) \/ (0 < tcp_keepalive o /\ on = true)
  | KeepIdle n => tcp_keepalive o = 1 /\ n = tcp_keepalive_idle o /\ 0 < n
  | KeepInterval n => tcp_keepalive o = 1 /\ n = tcp_keepalive_intvl o /\ 0 < n
  | KeepCount n => tcp_keepalive o = 1 /\ n = tcp_keepalive_cnt o /\ 0 < n
  | _ => False
  end.

(** The order in which the options are set. *)
Definition stage (opt : SockOpt) : nat :=
  match opt with NoDelay _ => 0 | SendBufferSize _ => 1 | RecvBufferSize _ => 2 | _ => 3 end.

(** The calls tuning makes. *)
Definition keepalive_opts (keepalive cnt idle intvl : Z) : list SockOpt :=
  let params := mk_keepalive (if 0 <? idle then Some idle else None) (if 0 <? intvl then Some intvl else None)
                  (if 0 <? cnt then Some cnt else None) in
  (if 0 <=? keepalive then [KeepAlive (negb (keepalive =? 0))] else []) ++
  (if keepalive =? 1 then keepalive_calls params else []).

Definition wanted_opts (o : SocketOptions) : list SockOpt :=
  [NoDelay true] ++ (if 0 <? sndbuf o then [SendBufferSize (sndbuf o)] else []) ++
  (if 0 <? rcvbuf o then [RecvBufferSize (rcvbuf o)] else []) ++
  keepalive_opts (tcp_keepalive o) (tcp_keepalive_cnt o) (tcp_keepalive_idle o) (tcp_keepalive_intvl o).

Lemma set_all_app k fd l1 l2 :
  set_all k fd (l1 ++ l2) = match set_all k fd l1 with (Ok _, k) => set_all k fd l2 | (Err e, k) => (Err e, k) end.
Proof.
  revert k. induction l1 as [|opt l1 IH]; intros k; [done|]. cbn [app set_all]. destruct (setsockopt k fd opt) as [[] k1]; [apply IH|done].
Qed.

Lemma configure_tcp_keepalive_calls k fd keepalive cnt idle intvl :
  configure_tcp_keepalive k fd keepalive cnt idle intvl = forgotten_unless_error fd (set_all k fd (keepalive_opts keepalive cnt idle intvl)).
Proof.
  unfold configure_tcp_keepalive, keepalive_opts. f_equal. rewrite set_all_app.
  assert (Hfirst : set_all k fd (if 0 <=? keepalive then [KeepAlive (negb (keepalive =? 0))] else []) =
    if 0 <=? keepalive then setsockopt k fd (KeepAlive (negb (keepalive =? 0))) else (Ok tt, k)).
  { destruct (0 <=? keepalive); [|done]. cbn [set_all]. by destruct (setsockopt k fd _) as [[[]|] k1]. }
  rewrite Hfirst. destruct (if 0 <=? keepalive then setsockopt k fd _ else _) as [[] k1]; [|done]. destruct (keepalive =? 1); [|done].
  unfold set_tcp_keepalive, with_time, with_interval, with_retries. by destruct (0 <? idle), (0 <? intvl), (0 <? cnt).
Qed.

Lemma keepalive_opts_spec keepalive cnt idle intvl opt :
  opt ∈ keepalive_opts keepalive cnt idle intvl <->
  match opt with
  | KeepAlive on => (keepalive = 0 /\ on = false) \/ (0 < keepalive /\ on = true)
  | KeepIdle n => keepalive = 1 /\ n = idle /\ 0 < n
  | KeepInterval n => keepalive = 1 /\ n = intvl /\ 0 < n
  | KeepCount n => keepalive = 1 /\ n = cnt /\ 0 < n
  | _ => False
  end.
Proof. clear refuses.
  unfold keepalive_opts. set (params := mk_keepalive _ _ _). rewrite elem_of_app.
  assert (H1 : opt ∈ (if 0 <=? keepalive then [KeepAlive (negb (keepalive =? 0))] else []) <->
    0 <= keepalive /\ opt = KeepAlive (negb (keepalive =? 0))).
  { destruct (Z.leb_spec 0 keepalive); rewrite ?list_elem_of_singleton; [naive_solver|]. split; [by intros ?%not_elem_of_nil|intros [? _]; lia]. }
  assert (H2 : opt ∈ (if keepalive =? 1 then keepalive_calls params else []) <-> keepalive = 1 /\ opt ∈ keepalive_calls params).
  { destruct (Z.eqb_spec keepalive 1); [naive_solver|]. split; [by intros ?%not_elem_of_nil|naive_solver]. }
  assert (Hpos : forall n m, (if 0 <? m then Some m else None) = Some n <-> n = m /\ 0 < n).
  { intros n m. destruct (Z.ltb_spec 0 m); naive_solver lia. }
  rewrite H1, H2, keepalive_calls_spec. unfold params. cbn [ka_time ka_interval ka_retries].
  clear H1 H2. destruct opt; rewrite ?Hpos; clear Hpos; try (intuition (done || congruence)).
  destruct (Z.eqb_spec keepalive 0); cbn [negb]; split.
  - intros [[? [= ->]]|[? ->]]; [by left|lia].
  - intros [[_ ->]|[? _]]; [left; by split; [lia|]|lia].
  - intros [[? [= ->]]|[? ->]]; right; by split; [lia|].
  - intros [[? _]|[? ->]]; [lia|]. left. by split; [lia|].
Qed.

Lemma wanted_opts_spec o opt : opt ∈ wanted_opts o <-> asked o opt.
Proof. clear refuses.
  unfold wanted_opts. rewrite !elem_of_app, keepalive_opts_spec, list_elem_of_singleton.
  assert (Hb : forall n (f : Z -> SockOpt), opt ∈ (if 0 <? n then [f n] else []) <-> 0 < n /\ opt = f n).
  { intros n f. destruct (Z.ltb_spec 0 n); rewrite ?list_elem_of_singleton; [naive_solver|]. split; [by intros ?%not_elem_of_nil|intros [? _]; lia]. }
  rewrite (Hb _ SendBufferSize), (Hb _ RecvBufferSize). destruct opt; cbn; naive_solver.
Qed.

Lemma sorted_stage_app l1 l2 :
  StronglySorted le (stage <$> l1) -> StronglySorted le (stage <$> l2) ->
  (forall x y, x ∈ l1 -> y ∈ l2 -> (stage x <= stage y)%nat) -> StronglySorted le (stage <$> (l1 ++ l2)).
Proof.
  clear Sock refuses. intros H1 H2 Hxy. induction l1 as [|x l1 IH]; [done|]. cbn in *. apply StronglySorted_inv in H1 as [H1 Hx].
  constructor; [apply IH; [done|]; intros; apply Hxy; [by right|done]|]. rewrite fmap_app. apply Forall_app. split; [done|].
  apply Forall_fmap, list.Forall_forall. intros y Hy. apply Hxy; [by left|done].
Qed.

Lemma keepalive_opts_stage keepalive cnt idle intvl opt : opt ∈ keepalive_opts keepalive cnt idle intvl -> stage opt = 3%nat.
Proof. clear refuses. rewrite keepalive_opts_spec. by destruct opt. Qed.

Lemma wanted_opts_ordered o : StronglySorted le (stage <$> wanted_opts o).
Proof. clear refuses.
  assert (Hka : forall l, (forall opt, opt ∈ l -> stage opt = 3%nat) -> StronglySorted le (stage <$> l)).
  { induction l as [|x l IH]; intros Hl; cbn; [constructor|]. constructor; [apply IH; intros; apply Hl; by right|].
    apply Forall_fmap, list.Forall_forall. intros y Hy. cbn. rewrite (Hl x), (Hl y); [lia|by right|by left]. }
  unfold wanted_opts. assert (Hone : forall opt, StronglySorted le (stage <$> [opt])) by (intros; repeat constructor).
  assert (Hopt : forall (b : bool) opt, StronglySorted le (stage <$> (if b then [opt] else []))) by (intros [] opt; [apply Hone|constructor]).
  assert (Hin : forall (b : bool) (opt x : SockOpt), x ∈ (if b then [opt] else []) -> x = opt)
    by (intros [] opt x; [by rewrite list_elem_of_singleton|by intros ?%not_elem_of_nil]).
  assert (Hkos := λ cnt idle intvl, Hka _ (keepalive_opts_stage (tcp_keepalive o) cnt idle intvl)).
  apply sorted_stage_app; [apply Hone|apply sorted_stage_app; [apply Hopt|apply sorted_stage_app; [apply Hopt|apply Hkos|]|]|].
  - intros x y ->%Hin Hy%keepalive_opts_stage. cbn. lia.
  - intros x y ->%Hin [->%Hin|Hy%keepalive_opts_stage]%elem_of_app; cbn; lia.
  - intros x y ->%list_elem_of_singleton _. cbn. lia.
Qed.

Definition is_buffer_opt (opt : SockOpt) : bool := match opt with SendBufferSize _ | RecvBufferSize _ => true | _ => false end.

(** [opts] up to the first one that is refused. *)
Fixpoint accepted_opts (fd : Z) (opts : list SockOpt) : list SockOpt * option (SockOpt * ErrorKind) :=
  match opts with
  | [] => ([], None)
  | opt :: opts =>
      match refuses fd opt with
      | Some e => ([], Some (opt, e))
      | None => let '(done, err) := accepted_opts fd opts in (opt :: done, err)
      end
  end.

Definition with_opts (k : Kernel) (fd : Z) (opts : list SockOpt) : Kernel :=
  mk_kernel (open_fds k) (applied k ++ ((λ opt, (fd, opt)) <$> opts)).

Lemma with_opts_nil k fd : with_opts k fd [] = k.
Proof. unfold with_opts. rewrite app_nil_r. by destruct k. Qed.

Lemma with_opts_app k fd l1 l2 : with_opts (with_opts k fd l1) fd l2 = with_opts k fd (l1 ++ l2).
Proof. unfold with_opts. cbn. by rewrite fmap_app, <- app_assoc. Qed.

Lemma set_all_accepted k fd opts :
  fd ∈ open_fds k ->
  set_all k fd opts =
    (match (accepted_opts fd opts).2 with Some (_, e) => Err e | None => Ok tt end, with_opts k fd (accepted_opts fd opts).1).
Proof.
  revert k. induction opts as [|opt opts IH]; intros k Hfd; cbn [set_all accepted_opts]; [by rewrite with_opts_nil|].
  unfold setsockopt. rewrite bool_decide_eq_true_2 by done.
  destruct (refuses fd opt) as [e|]; [by cbn; rewrite with_opts_nil|]. rewrite IH by done.
  destruct (accepted_opts fd opts) as [dn err]. cbn. f_equal. apply (with_opts_app k fd [opt] dn).
Qed.

Lemma accepted_opts_app fd l1 l2 :
  accepted_opts fd (l1 ++ l2) =
    match accepted_opts fd l1 with
    | (done, None) => let '(done', err) := accepted_opts fd l2 in (done ++ done', err)
    | r => r
    end.
Proof.
  induction l1 as [|opt l1 IH]; cbn [app accepted_opts]; [by destruct (accepted_opts fd l2)|].
  destruct (refuses fd opt); [done|]. rewrite IH. destruct (accepted_opts fd l1) as [dn [[]|]]; [done|].
  by destruct (accepted_opts fd l2).
Qed.

Lemma accepted_all fd opts : (accepted_opts fd opts).2 = None -> (accepted_opts fd opts).1 = opts.
Proof.
  induction opts as [|opt opts IH]; cbn [accepted_opts]; [done|]. destruct (refuses fd opt); [done|].
  destruct (accepted_opts fd opts) as [dn err]. cbn in *. intros E. by rewrite IH.
Qed.

(** The option refused is one of those asked for. *)
Lemma accepted_refused fd opts opt e : (accepted_opts fd opts).2 = Some (opt, e) -> opt ∈ opts.
Proof.
  induction opts as [|x opts IH]; cbn [accepted_opts]; [done|]. destruct (refuses fd x); [by intros [= <- _]; left|].
  destruct (accepted_opts fd opts) as [dn err]. cbn. intros E. right. by apply IH.
Qed.

Definition buffer_opts (o : SocketOptions) : list SockOpt :=
  (if 0 <? sndbuf o then [SendBufferSize (sndbuf o)] else []) ++ (if 0 <? rcvbuf o then [RecvBufferSize (rcvbuf o)] else []).

Lemma tune_buffers k fd o :
  (if (0 <? sndbuf o) || (0 <? rcvbuf o) then configure_socket_buffers k fd (sndbuf o) (rcvbuf o) else (Ok tt, k)) =
    set_all k fd (buffer_opts o).
Proof.
  unfold configure_socket_buffers, buffer_opts.
  by destruct (Z.ltb_spec 0 (sndbuf o)), (Z.ltb_spec 0 (rcvbuf o)), (Z.leb_spec (sndbuf o) 0), (Z.leb_spec (rcvbuf o) 0); try lia.
Qed.

Definition tuned_as (k : Kernel) (fd : Z) (r : list SockOpt * option (SockOpt * ErrorKind)) : io_result unit * Kernel :=
  match r with
  | (opts, None) => (Ok tt, with_opts k fd opts)
  | (opts, Some (opt, e)) => (Err e, if is_buffer_opt opt then with_opts k fd opts else close_fd (with_opts k fd opts) fd)
  end.

Lemma tune_stream_exact k fd o : fd ∈ open_fds k -> tune_stream k fd o = tuned_as k fd (accepted_opts fd (wanted_opts o)).
Proof.
  intros Hfd. unfold tune_stream, enable_tcp_nodelay.
  set (kos := keepalive_opts (tcp_keepalive o) (tcp_keepalive_cnt o) (tcp_keepalive_idle o) (tcp_keepalive_intvl o)).
  replace (wanted_opts o) with ([NoDelay true] ++ buffer_opts o ++ kos) by (unfold wanted_opts, buffer_opts; by rewrite !app_assoc).
  rewrite (accepted_opts_app fd [NoDelay true]), set_all_accepted by done.
  destruct (accepted_opts fd [NoDelay true]) as [d1 [[opt1 e1]|]] eqn:E1; cbn [fst snd forgotten_unless_error].
  { apply (f_equal snd), accepted_refused in E1. by apply list_elem_of_singleton in E1 as ->. }
  rewrite tune_buffers, set_all_accepted by done. rewrite (accepted_opts_app fd (buffer_opts o)).
  destruct (accepted_opts fd (buffer_opts o)) as [d2 [[opt2 e2]|]] eqn:E2; cbn [fst snd tuned_as].
  { apply (f_equal snd), accepted_refused in E2. rewrite with_opts_app.
    assert (Hb : is_buffer_opt opt2 = true); [|by rewrite Hb].
    unfold buffer_opts in E2. apply elem_of_app in E2.
    by destruct E2 as [E2|E2]; case_match; try (by apply not_elem_of_nil in E2); apply list_elem_of_singleton in E2 as ->. }
  rewrite configure_tcp_keepalive_calls. fold kos. rewrite set_all_accepted by done. rewrite !with_opts_app.
  destruct (accepted_opts fd kos) as [d3 [[opt3 e3]|]] eqn:E3; cbn [fst snd forgotten_unless_error tuned_as app].
  2:{ by rewrite app_assoc. }
  apply (f_equal snd), accepted_refused in E3. rewrite app_assoc.
  assert (Hb : is_buffer_opt opt3 = false); [|by rewrite Hb].
  apply keepalive_opts_spec in E3. by destruct opt3.
Qed.
End tcp.

Lemma accepted_split refuses fd opts opt e done :
  accepted_opts refuses fd opts = (done, Some (opt, e)) -> exists rest, opts = done ++ opt :: rest /\ refuses fd opt = Some e.
Proof.
  revert done. induction opts as [|x opts IH]; intros dn; cbn [accepted_opts]; [done|].
  destruct (refuses fd x) as [e'|] eqn:E; [intros [= <- <- <-]; by exists opts|].
  destruct (accepted_opts refuses fd opts) as [d [err|]]; [|done]. intros [= <- ->].
  destruct (IH d eq_refl) as (rest & -> & ?). by exists rest.
Qed.


(** socket2 on Linux. *)
Definition linux_keepalive_calls (p : TcpKeepalive) : list SockOpt :=
  KeepAlive true :: (if ka_time p is Some n then [KeepIdle n] else []) ++
    (if ka_interval p is Some n then [KeepInterval n] else []) ++ (if ka_retries p is Some n then [KeepCount n] else []).

Definition linux_socket2 : Socket2.
Proof.
  refine {| keepalive_calls := linux_keepalive_calls |}.
  intros [time interval retries] opt. unfold linux_keepalive_calls. cbn. destruct time, interval, retries; destruct opt; set_solver.
Defined.

(** A kernel that refuses keepalive. *)
Definition no_keepalive (fd : Z) (opt : SockOpt) : option ErrorKind :=
  match opt with KeepAlive _ => Some Unsupported | _ => None end.


(** A number that is given out is free. *)
Lemma lowest_free_taken fuel fd fds :
  lowest_free fuel fd fds ∈ fds -> forall x, fd <= x <= fd + Z.of_nat fuel -> x ∈ fds.
Proof.
  revert fd. induction fuel as [|fuel IH]; intros fd Hin x Hx; cbn [lowest_free] in Hin.
  - by replace x with fd by lia.
  - destruct (bool_decide (fd ∈ fds)) eqn:E; [|by apply bool_decide_eq_false in E]. apply bool_decide_eq_true in E.
    destruct (decide (x = fd)) as [->|]; [done|]. apply (IH _ Hin). lia.
Qed.

(** Numbers are reused, lowest first. *)
Lemma lowest_free_spec fuel fd0 fd fds :
  (forall x, fd0 <= x < fd -> x ∈ fds) -> fd ∉ fds -> fd0 <= fd -> fd - fd0 <= Z.of_nat fuel -> lowest_free fuel fd0 fds = fd.
Proof.
  revert fd0. induction fuel as [|fuel IH]; intros fd0 Hin Hout Hle Hf; cbn [lowest_free]; [lia|].
  destruct (decide (fd0 = fd)) as [->|]; [by rewrite bool_decide_eq_false_2|].
  rewrite bool_decide_eq_true_2 by (apply Hin; lia). apply IH; [|done|lia|lia]. intros x Hx. apply Hin. lia.
Qed.

Lemma size_below fds fd : (forall x, 0 <= x < fd -> x ∈ fds) -> 0 <= fd -> fd <= Z.of_nat (size (fds : gset Z)).
Proof.
  intros Hin Hfd. assert (Hs : (list_to_set (seqZ 0 fd) : gset Z) ⊆ fds).
  { intros x Hx. apply Hin. rewrite elem_of_list_to_set in Hx. apply elem_of_seqZ in Hx. lia. }
  apply subseteq_size in Hs. rewrite size_list_to_set in Hs by apply NoDup_seqZ. rewrite length_seqZ in Hs. lia.
Qed.

Lemma open_fd_fresh k : (open_fd k).1 ∉ open_fds k.
Proof.
  unfold open_fd. cbn. intros Hin. pose proof (lowest_free_taken _ _ _ Hin) as Hall.
  pose proof (size_below (open_fds k) (Z.of_nat (size (open_fds k)) + 1)) as Hs. apply Z.lt_irrefl with (Z.of_nat (size (open_fds k))).
  enough (Z.of_nat (size (open_fds k)) + 1 <= Z.of_nat (size (open_fds k))) by lia. apply Hs; [|lia]. intros x Hx. apply Hall. lia.
Qed.

(** Dropping the stream after a failed tuning closes a descriptor that meanwhile
    belongs to somebody else: the number it gave back is the next one to be used. *)
Theorem failed_tuning_closes_foreign_fd `{Socket2} (refuses : Z -> SockOpt -> option ErrorKind) (k : Kernel) (fd : Z) (o : SocketOptions)
    (e : ErrorKind) :
  fd ∈ open_fds k -> 0 <= fd -> (forall x, 0 <= x < fd -> x ∈ open_fds k) -> refuses fd (NoDelay true) = Some e ->
  exists k1 k2, tune_stream refuses k fd o = (Err e, k1) /\ open_fd k1 = (fd, k2) /\ fd ∈ open_fds k2 /\
    fd ∉ open_fds (close_fd k2 fd).
Proof.
  intros Hfd H0 Hbelow He. unfold tune_stream, enable_tcp_nodelay. cbn. unfold setsockopt.
  rewrite bool_decide_eq_true_2, He by done. eexists _, _. split; [done|].
  assert (Hb : forall x, 0 <= x < fd -> x ∈ open_fds k ∖ {[fd]}).
  { intros x Hx. apply elem_of_difference. split; [by apply Hbelow|]. rewrite elem_of_singleton. lia. }
  unfold open_fd. cbn [open_fds close_fd applied]. rewrite (lowest_free_spec _ _ fd).
  - split; [done|]. cbn. set_solver.
  - done.
  - set_solver.
  - done.
  - pose proof (size_below _ _ Hb H0). lia.
Qed.

(** ** ipc.rs

    The nodes of the file system that matter here; a link is what it points to
    for [Path::exists] and itself for [symlink_metadata].  A socket node belongs
    to the listener that created it. *)

Inductive Node :=
| Regular (content : bytes)
| Directory
| SocketNode (owner : nat)
| Link (target_exists : bool).

#[export] Instance node_eq_dec : EqDecision Node.
Proof. solve_decision. Defined.

Record Files := mk_files {
  nodes : gmap bytes Node;
  next_listener : nat;
  listening : gset nat;          (** listeners that have not been dropped *)
}.

Record IpcListener := mk_ipc {
  ipc_id : nat;
  ipc_bound : bytes;
}.

Definition is_socket (n : Node) : bool := match n with SocketNode _ => true | _ => false end.

Definition path_exists (fs : Files) (path : bytes) : bool :=
  match nodes fs !! path with Some (Link target) => target | Some _ => true | None => false end.

Section ipc.
(** Paths whose directory cannot be changed. *)
Context (denied : bytes -> option ErrorKind).

Definition remove_file (fs : Files) (path : bytes) : io_result unit * Files :=
  match denied path with
  | Some e => (Err e, fs)
  | None =>
      match nodes fs !! path with
      | None => (Err NotFound, fs)
      | Some Directory => (Err OtherError, fs)
      | Some _ => (Ok tt, mk_files (delete path (nodes fs)) (next_listener fs) (listening fs))
      end
  end.

(** [UnixListener::bind] creates the node; it does not replace one. *)
Definition unix_bind (fs : Files) (path : bytes) : io_result IpcListener * Files :=
  match denied path with
  | Some e => (Err e, fs)
  | None =>
      match nodes fs !! path with
      | Some _ => (Err AddrInUse, fs)
      | None =>
          let id := next_listener fs in
          (Ok (mk_ipc id path), mk_files (<[path := SocketNode id]> (nodes fs)) (S id) ({[id]} ∪ listening fs))
      end
  end.

Definition ipc_bind (fs : Files) (path : bytes) : io_result IpcListener * Files :=
  if path_exists fs path then
    match nodes fs !! path with
    | None => (Err NotFound, fs)
    | Some n =>
        if is_socket n then
          match remove_file fs path with
          | (Err e, fs) => (Err e, fs)
          | (Ok _, fs) => unix_bind fs path
          end
        else (Err AlreadyExists, fs)
    end
  else unix_bind fs path.

(** [Drop for IpcListener]; the listener itself is closed with it. *)
Definition ipc_drop (fs : Files) (l : IpcListener) : Files :=
  let fs :=
    match nodes fs !! ipc_bound l with
    | Some n => if is_socket n then (remove_file fs (ipc_bound l)).2 else fs
    | None => fs
    end in
  mk_files (nodes fs) (next_listener fs) (listening fs ∖ {[ipc_id l]}).

(** [connect]: the listener that is reached. *)
Definition ipc_reach (fs : Files) (path : bytes) : io_result nat :=
  match nodes fs !! path with
  | Some (SocketNode id) => if bool_decide (id ∈ listening fs) then Ok id else Err ConnectionRefused
  | Some _ => Err ConnectionRefused
  | None => Err NotFound
  end.

Inductive ipc_op := IpcBind (path : bytes) | IpcDrop (l : IpcListener).

Definition ipc_step (fs : Files) (op : ipc_op) : Files :=
  match op with IpcBind path => (ipc_bind fs path).2 | IpcDrop l => ipc_drop fs l end.

Definition ipc_run (fs : Files) (ops : list ipc_op) : Files := foldl ipc_step fs ops.

(** *** Other people's files *)

Lemma remove_file_other fs path p n : is_socket n = false -> nodes fs !! p = Some n ->
  (forall m, nodes fs !! path = Some m -> is_socket m = true) -> nodes (remove_file fs path).2 !! p = Some n.
Proof.
  intros Hn Hp Hs. unfold remove_file. destruct (denied path); [done|].
  assert (Hne : path <> p) by (intros ->; specialize (Hs n Hp); congruence).
  destruct (nodes fs !! path) as [[]|]; try done; cbn; by rewrite lookup_delete_ne.
Qed.

Lemma unix_bind_other fs path p n : nodes fs !! p = Some n -> nodes (unix_bind fs path).2 !! p = Some n.
Proof.
  intros Hp. unfold unix_bind. destruct (denied path); [done|]. destruct (nodes fs !! path) eqn:E; [done|].
  cbn. rewrite lookup_insert_ne; [done|]. congruence.
Qed.

Lemma ipc_step_other fs op p n : is_socket n = false -> nodes fs !! p = Some n -> nodes (ipc_step fs op) !! p = Some n.
Proof.
  intros Hn Hp. destruct op as [path|l]; cbn [ipc_step].
  - unfold ipc_bind. destruct (path_exists fs path); [|by apply unix_bind_other].
    destruct (nodes fs !! path) as [m|] eqn:E; [|done]. destruct (is_socket m) eqn:Es; [|done].
    pose proof (remove_file_other fs path p n Hn Hp) as Hr.
    destruct (remove_file fs path) as [[[]|e] fs']; [apply unix_bind_other|]; apply Hr; intros m' Hm'; congruence.
  - unfold ipc_drop. cbn [nodes]. destruct (nodes fs !! ipc_bound l) as [m|] eqn:E; [|done].
    destruct (is_socket m) eqn:Es; [|done]. apply remove_file_other; [done..|]. intros m' Hm'. congruence.
Qed.

(** What a successful bind has done. *)
Record bound (fs : Files) (path : bytes) (l : IpcListener) (fs' : Files) : Prop := {
  bound_path : ipc_bound l = path;
  bound_id : ipc_id l = next_listener fs;
  bound_next : next_listener fs' = S (next_listener fs);
  bound_node : nodes fs' !! path = Some (SocketNode (ipc_id l));
  bound_listening : ipc_id l ∈ listening fs';
  bound_allowed : denied path = None;
}.

Lemma unix_bind_bound fs path l fs' : unix_bind fs path = (Ok l, fs') -> bound fs path l fs'.
Proof.
  unfold unix_bind. destruct (denied path) eqn:Ed; [done|]. destruct (nodes fs !! path); [done|]. intros [= <- <-].
  split; cbn; [done..|by rewrite lookup_insert_eq|set_solver|done].
Qed.

Lemma ipc_bind_bound fs path l fs' : ipc_bind fs path = (Ok l, fs') -> bound fs path l fs'.
Proof.
  unfold ipc_bind. destruct (path_exists fs path); [|apply unix_bind_bound]. destruct (nodes fs !! path) as [m|]; [|done].
  destruct (is_socket m); [|done]. unfold remove_file. destruct (denied path) eqn:Ed; [done|].
  destruct (nodes fs !! path) as [[]|]; try done; intros [? ? ? ? ? ?]%unix_bind_bound; by split.
Qed.

Lemma bound_reach fs path l fs' : bound fs path l fs' -> ipc_reach fs' path = Ok (ipc_id l).
Proof. intros [_ _ _ Hn Hl _]. unfold ipc_reach. by rewrite Hn, bool_decide_eq_true_2. Qed.
End ipc.

(** However IPC listeners are bound and dropped, no node that is not a socket is
    ever removed or replaced: a bind over it fails ([AlreadyExists], or [AddrInUse]
    over a dangling link). A bind that succeeds can be reached at its path. *)
Theorem ipc_spares_files (denied : bytes -> option ErrorKind) (fs : Files) (ops : list ipc_op) (path : bytes) (n : Node) :
  nodes fs !! path = Some n -> is_socket n = false ->
  nodes (ipc_run denied fs ops) !! path = Some n /\
  (exists e, (ipc_bind denied (ipc_run denied fs ops) path).1 = Err e) /\
  (forall path' l fs', ipc_bind denied fs path' = (Ok l, fs') -> path' <> path /\ ipc_reach fs' path' = Ok (ipc_id l)).
Proof.
  intros Hp Hn.
  assert (Hrun : nodes (ipc_run denied fs ops) !! path = Some n).
  { unfold ipc_run. revert fs Hp. induction ops as [|op ops IH]; intros fs Hp; [done|]. cbn. apply IH. by apply ipc_step_other. }
  assert (Herr : forall fs, nodes fs !! path = Some n -> exists e, (ipc_bind denied fs path).1 = Err e).
  { intros fs1 H1. unfold ipc_bind. destruct (path_exists fs1 path) eqn:Ee; [rewrite H1, Hn; by eexists|].
    unfold unix_bind. destruct (denied path); [by eexists|]. rewrite H1. by eexists. }
  split; [done|]. split; [by apply Herr|]. intros path' l fs' Hb. split.
  - intros ->. destruct (Herr fs Hp) as [e He]. by rewrite Hb in He.
  - by eapply bound_reach, ipc_bind_bound.
Qed.

Lemma ipc_spares_files_witness :
  nodes (ipc_run (λ _, None) (mk_files {[ascii_bytes "/tmp/a" := Regular (ascii_bytes "keep")]} 0 ∅)
           [IpcBind (ascii_bytes "/tmp/a"); IpcDrop (mk_ipc 0 (ascii_bytes "/tmp/a"))]) !! ascii_bytes "/tmp/a" =
    Some (Regular (ascii_bytes "keep")).
Proof. apply (ipc_spares_files (λ _, None) _ _ _ (Regular (ascii_bytes "keep"))); [by vm_compute|reflexivity]. Defined.

(** A listener bound over the path of an earlier one loses its node when the
    earlier one is dropped, and can no longer be reached although it listens. *)
Theorem stale_drop_unlinks (denied : bytes -> option ErrorKind) (fs fs1 fs2 : Files) (path : bytes) (l1 l2 : IpcListener) :
  ipc_bind denied fs path = (Ok l1, fs1) -> ipc_bind denied fs1 path = (Ok l2, fs2) ->
  ipc_id l2 ∈ listening (ipc_drop denied fs2 l1) /\ ipc_reach fs2 path = Ok (ipc_id l2) /\
  ipc_reach (ipc_drop denied fs2 l1) path = Err NotFound.
Proof.
  intros H1%ipc_bind_bound H2%ipc_bind_bound. pose proof (bound_reach _ _ _ _ _ H2) as Hr.
  destruct H1 as [Hp1 Hi1 Hn1 _ _ _], H2 as [_ Hi2 _ Hn2 Hl2 Hd].
  unfold ipc_drop, remove_file, ipc_reach. rewrite Hp1, Hn2. cbn. rewrite Hd. cbn.
  split_and!; [|by rewrite bool_decide_eq_true_2|by rewrite lookup_delete_eq].
  apply elem_of_difference. split; [done|]. rewrite elem_of_singleton. lia.
Qed.

(** ** io.rs: the read slab

    [BytesMut] is a window onto an allocation: it starts at an address and has a
    length and a capacity.  [W] is the state of the allocator. *)

Class BytesMut (B W : Type) := {
  bm_start : B -> Z;
  bm_len : B -> Z;
  bm_capacity : B -> Z;
  bm_with_capacity : Z -> W -> B * W;
  bm_set_len : B -> Z -> B;
  bm_split_off : B -> Z -> B * B;          (** what is kept, what is returned *)
  allocated : W -> Z -> Prop;              (** addresses handed out so far *)
}.

Definition covers {B W} `{BytesMut B W} (b : B) (a : Z) : Prop := bm_start b <= a < bm_start b + bm_capacity b.

(** What the documentation of the [bytes] crate says of the calls used. *)
Class BytesMutLaws (B W : Type) `{BytesMut B W} := {
  with_capacity_spec n w b w' : 0 <= n -> bm_with_capacity n w = (b, w') ->
    n <= bm_capacity b /\ bm_len b = 0 /\ (forall a, covers b a -> ~ allocated w a) /\
    (forall a, allocated w' a <-> allocated w a \/ covers b a);
  set_len_spec b n : 0 <= n <= bm_capacity b ->
    bm_start (bm_set_len b n) = bm_start b /\ bm_capacity (bm_set_len b n) = bm_capacity b /\ bm_len (bm_set_len b n) = n;
  split_off_spec b at_ front tail : 0 <= at_ <= bm_capacity b -> bm_split_off b at_ = (front, tail) ->
    bm_start front = bm_start b /\ bm_capacity front = at_ /\ bm_len front = Z.min (bm_len b) at_ /\
    bm_start tail = bm_start b + at_ /\ bm_capacity tail = bm_capacity b - at_ /\ bm_len tail = Z.max 0 (bm_len b - at_);
}.

Section slab.
Context {B W : Type} `{BM : BytesMut B W}.

(** The buffer handed out, the stash and the allocator after it. *)
Definition take_read_buffer (stash : B) (w : W) (read_size : Z) : B * B * W :=
  let '(stash, w) :=
    if bm_capacity stash <? read_size then bm_with_capacity (Z.max read_size read_slab_size) w else (stash, w) in
  let stash := if bm_len stash <? read_size then bm_set_len stash read_size else stash in
  let '(front, tail) := bm_split_off stash read_size in
  (front, tail, w).

Fixpoint take_read_buffers (stash : B) (w : W) (sizes : list Z) : list B * B * W :=
  match sizes with
  | [] => ([], stash, w)
  | n :: sizes =>
      let '(b, stash, w) := take_read_buffer stash w n in
      let '(bs, stash, w) := take_read_buffers stash w sizes in
      (b :: bs, stash, w)
  end.

Context `{!BytesMutLaws B W}.

Lemma take_read_buffer_spec stash w n b stash' w' :
  0 <= n -> 0 <= bm_capacity stash -> (forall a, covers stash a -> allocated w a) ->
  take_read_buffer stash w n = (b, stash', w') ->
  bm_len b = n /\ bm_capacity b = n /\ 0 <= bm_capacity stash' /\
  (forall a, covers stash' a -> allocated w' a) /\ (forall a, allocated w a -> allocated w' a) /\
  (forall a, covers b a -> allocated w' a /\ ~ covers stash' a /\ (covers stash a \/ ~ allocated w a)) /\
  (forall a, covers stash' a -> covers stash a \/ ~ allocated w a).
Proof.
  intros Hn Hc Hst. unfold take_read_buffer.
  destruct (if bm_capacity stash <? n then _ else _) as [st1 w1] eqn:E1.
  assert (H1 : n <= bm_capacity st1 /\ (forall a, covers st1 a -> allocated w1 a) /\ (forall a, allocated w a -> allocated w1 a) /\
               (forall a, covers st1 a -> covers stash a \/ ~ allocated w a)).
  { destruct (Z.ltb_spec (bm_capacity stash) n).
    - apply with_capacity_spec in E1 as (Hcap & _ & Hfresh & Hall); [|lia]. split_and!; [lia| | |].
      + intros a Ha. apply Hall. by right.
      + intros a Ha. apply Hall. by left.
      + intros a Ha. right. by apply Hfresh.
    - injection E1 as <- <-. split_and!; [done|done|done|]. intros a Ha. by left. }
  destruct H1 as (Hcap & Hc1 & Hmono & Horig).
  set (st2 := if bm_len st1 <? n then bm_set_len st1 n else st1). assert (H2 : bm_start st2 = bm_start st1 /\ bm_capacity st2 = bm_capacity st1 /\ n <= bm_len st2).
  { unfold st2. destruct (Z.ltb_spec (bm_len st1) n); [|done]. destruct (set_len_spec st1 n) as (-> & -> & ->); [lia|]. done. }
  destruct H2 as (Hs2 & Hc2 & Hl2). destruct (bm_split_off st2 n) as [front tail] eqn:E3.
  apply split_off_spec in E3 as (F1 & F2 & F3 & T1 & T2 & _); [|lia]. intros [= <- <- <-].
  unfold covers in *. rewrite F1, F2, F3, T1, T2, Hs2, Hc2.
  split_and!; [lia|lia|lia|intros a Ha; apply Hc1; lia|done| |intros a Ha; apply Horig; lia].
  intros a Ha. split_and!; [apply Hc1; lia|lia|apply Horig; lia].
Qed.

Definition apart (b1 b2 : B) : Prop := forall a, covers b1 a -> covers b2 a -> False.

Lemma take_read_buffers_apart stash w sizes bs stash' w' :
  Forall (λ n, 0 <= n) sizes -> 0 <= bm_capacity stash -> (forall a, covers stash a -> allocated w a) ->
  take_read_buffers stash w sizes = (bs, stash', w') ->
  bm_len <$> bs = sizes /\
  (forall b a, b ∈ bs -> covers b a -> covers stash a \/ ~ allocated w a) /\
  (forall i j b1 b2, bs !! i = Some b1 -> bs !! j = Some b2 -> i <> j -> apart b1 b2).
Proof.
  intros Hs. revert stash w bs. induction Hs as [|n sizes Hn Hs IH]; intros stash w bs Hc Hst E; cbn [take_read_buffers] in E.
  { injection E as <- <- <-. split_and!; [done| |done]. intros b a Hb. by apply not_elem_of_nil in Hb. }
  destruct (take_read_buffer stash w n) as [[b st1] w1] eqn:E1.
  apply take_read_buffer_spec in E1 as (Hl & _ & Hc1 & Hst1 & Hmono & Hb & Htail); [|done..].
  destruct (take_read_buffers st1 w1 sizes) as [[bs1 st2] w2] eqn:E2. injection E as <- <- <-.
  apply IH in E2 as (Hls & Horig & Hap); [|done..].
  assert (Hnew : forall b' a, b' ∈ bs1 -> covers b' a -> covers b a -> False).
  { intros b' a Hin Ha Hba. destruct (Hb a Hba) as (Hal & Hnt & _). destruct (Horig b' a Hin Ha) as [?|?]; done. }
  split_and!.
  - cbn. by rewrite Hl, Hls.
  - intros b' a Hin Ha. apply list_elem_of_In in Hin as [<-|Hin]; [by apply Hb|].
    apply list_elem_of_In in Hin. destruct (Horig b' a Hin Ha) as [?|Hna]; [by apply Htail|]. right. intros Hal. by apply Hna, Hmono.
  - intros i j b1 b2 H1 H2 Hne a Ha1 Ha2. destruct i as [|i], j as [|j]; cbn in H1, H2; [done| | |].
    + injection H1 as <-. apply list_elem_of_lookup_2 in H2. by apply (Hnew b2 a).
    + injection H2 as <-. apply list_elem_of_lookup_2 in H1. by apply (Hnew b1 a).
    + apply (Hap i j b1 b2 H1 H2 ltac:(congruence) a Ha1 Ha2).
Qed.
End slab.

(** C33: the buffers that [take_read_buffer] hands out, for any sizes asked for in any
    order, each have the size asked for and never share a byte with one another,
    whether they were cut from the same slab or not. *)
Theorem read_buffers_apart {B W : Type} `{BytesMutLaws B W} (stash : B) (w : W) (sizes : list Z) :
  Forall (λ n, 0 <= n) sizes -> 0 <= bm_capacity stash -> (forall a, covers stash a -> allocated w a) ->
  let bs := (take_read_buffers stash w sizes).1.1 in
  bm_len <$> bs = sizes /\ forall i j b1 b2, bs !! i = Some b1 -> bs !! j = Some b2 -> i <> j -> apart b1 b2.
Proof.
  intros Hs Hc Hst. destruct (take_read_buffers stash w sizes) as [[bs st'] w'] eqn:E.
  apply take_read_buffers_apart in E as (? & _ & ?); done.
Qed.

(** A bump allocator. *)
Record Window := mk_window { win_start : Z; win_len : Z; win_capacity : Z }.

#[export] Instance bump_bytes : BytesMut Window Z := {
  bm_start := win_start;
  bm_len := win_len;
  bm_capacity := win_capacity;
  bm_with_capacity n w := (mk_window (Z.max 0 w) 0 n, Z.max 0 w + n);
  bm_set_len b n := mk_window (win_start b) n (win_capacity b);
  bm_split_off b n :=
    (mk_window (win_start b) (Z.min (win_len b) n) n,
     mk_window (win_start b + n) (Z.max 0 (win_len b - n)) (win_capacity b - n));
  allocated w a := 0 <= a < w;
}.

#[export] Instance bump_bytes_laws : BytesMutLaws Window Z.
Proof.
  split.
  - intros n w b w' Hn [= <- <-]. unfold covers; cbn. split_and!; [lia|done|lia|]. intros a. lia.
  - done.
  - intros b n front tail Hn [= <- <-]. done.
Qed.

Lemma read_buffers_apart_witness :
  let bs := (take_read_buffers (mk_window 0 0 0) 0 [8192; 65536; 8192]).1.1 in
  bs = [mk_window 0 8192 8192; mk_window 65536 65536 65536; mk_window 131072 8192 8192] /\
  forall i j b1 b2, bs !! i = Some b1 -> bs !! j = Some b2 -> i <> j -> apart b1 b2.
Proof.
  split; [vm_compute; reflexivity|].
  apply (read_buffers_apart (mk_window 0 0 0) 0 [8192; 65536; 8192]); [by repeat constructor|done|unfold covers; cbn; lia].
Defined.
