(* ===== verification/SocketTrait.v ===== *)
(** * The trait [Socket]

    monocoque-zmtp/src/socket_trait.rs: the trait, the macro that implements it
    and its uses.  The macro's methods call [self.send(msg)] and [self.recv()]:
    a socket's own method when it has one; otherwise the name resolves to the
    trait's method, which is the caller itself.  [depth] is the stack that is
    left, one unit per nested call; [None] is a stack that overflows (or, as
    everywhere, exhausted fuel of a receive loop). *)

From S2P Require Import Prelude.
From S2P Require Import Options.
From S2P Require Import Ready.
From S2P Require Import CurveMessage.
From S2P Require Import Stream.
From S2P Require Import Base.
From S2P Require Import Sockets.
From S2P Require Import Pipeline.
From S2P Require Import RouterPair.
From S2P Require Import Subscriber.
From S2P Require Import Publisher.
From S2P Require Import XPub.

Definition send_fn (X : Type) : Type := X -> list bytes -> option (outcome unit * X).
Definition recv_fn (X : Type) : Type := X -> option (outcome (option (list bytes)) * X).

(** The trait. *)
Class Socket (X : Type) := {
  socket_send : nat -> send_fn X;
  socket_recv : nat -> recv_fn X;
  socket_type : SocketType;
  socket_has_more : X -> bool;
}.

(** The default body of [has_more]; no implementation overrides it. *)
Definition default_has_more {X} (x : X) : bool := false.

(** The inherent methods a type has. *)
Record Inherent (X : Type) := mk_inherent {
  own_send : option (send_fn X);
  own_recv : option (recv_fn X);
}.
Arguments mk_inherent {X} _ _.
Arguments own_send {X} _.
Arguments own_recv {X} _.

(** [self.send(msg).await] inside [impl Socket]. *)
Fixpoint macro_send {X} (i : Inherent X) (depth : nat) (x : X) (msg : list bytes) : option (outcome unit * X) :=
  match depth with
  | O => None
  | S depth => match own_send i with Some f => f x msg | None => macro_send i depth x msg end
  end.

Fixpoint macro_recv {X} (i : Inherent X) (depth : nat) (x : X) : option (outcome (option (list bytes)) * X) :=
  match depth with
  | O => None
  | S depth => match own_recv i with Some f => f x | None => macro_recv i depth x end
  end.

Definition impl_socket_trait {X} (i : Inherent X) (t : SocketType) : Socket X :=
  {| socket_send := macro_send i; socket_recv := macro_recv i; socket_type := t; socket_has_more := default_has_more |}.

Section impls.
Context {S K : Type} `{AsyncStream S} `{Aead K} (clock : nat -> Z) (fuel : nat) (now : Z) (waits : nat -> bool).

Definition returns {X A} (f : X -> list bytes -> A * X) : X -> list bytes -> option (A * X) := λ x msg, Some (f x msg).

Definition dealer_socket : Socket (DealerSocket S K) :=
  impl_socket_trait (mk_inherent (Some (returns dealer_send)) (Some (dealer_recv clock fuel))) Dealer.
Definition router_socket : Socket (RouterSocket S K) :=
  impl_socket_trait (mk_inherent (Some (returns router_send)) (Some (router_recv clock fuel))) Router.
Definition req_socket : Socket (ReqSocket S K) :=
  impl_socket_trait (mk_inherent (Some (returns req_send)) (Some (req_recv clock fuel))) Req.
Definition rep_socket : Socket (RepSocket S K) :=
  impl_socket_trait (mk_inherent (Some (returns rep_send)) (Some (rep_recv clock fuel))) Rep.
Definition pair_socket : Socket (PairSocket S K) :=
  impl_socket_trait (mk_inherent (Some (returns pair_send)) (Some (pair_recv clock fuel))) Pair.
(** PUSH has no [recv]; PULL, SUB and XSUB have no [send]. *)
Definition push_socket : Socket (PushSocket S K) := impl_socket_trait (mk_inherent (Some (returns (push_send now))) None) Push.
Definition pull_socket : Socket (PullSocket S K) := impl_socket_trait (mk_inherent None (Some (pull_recv clock fuel))) Pull.
Definition sub_socket : Socket (SubSocket S K) := impl_socket_trait (mk_inherent None (Some (sub_recv clock fuel))) Sub.
Definition xsub_socket : Socket (XSubSocket S K) := impl_socket_trait (mk_inherent None (Some (xsub_recv clock fuel))) Xsub.

(** PUB and XPUB implement the trait by hand. *)
Definition pub_socket : Socket (PubSocket S K) := {|
  socket_send depth p msg := let '(r, p) := pub_send waits p msg in Some (Returned r, p);
  socket_recv depth p := Some (Returned (Err Unsupported), p);
  socket_type := Pub;
  socket_has_more := default_has_more;
|}.
Definition xpub_socket : Socket (XPubSocket S K) := {|
  socket_send depth p msg := Some (xpub_send p msg);
  socket_recv depth p := xpub_recv p;
  socket_type := Xpub;
  socket_has_more := default_has_more;
|}.
End impls.

Lemma macro_send_own {X} (i : Inherent X) f depth x msg : own_send i = Some f -> macro_send i (S depth) x msg = f x msg.
Proof. intros E. cbn. by rewrite E. Qed.

Lemma macro_recv_own {X} (i : Inherent X) f depth x : own_recv i = Some f -> macro_recv i (S depth) x = f x.
Proof. intros E. cbn. by rewrite E. Qed.

Lemma macro_send_missing {X} (i : Inherent X) depth x msg : own_send i = None -> macro_send i depth x msg = None.
Proof. intros E. induction depth as [|depth IH]; [done|]. cbn. by rewrite E. Qed.

Lemma macro_recv_missing {X} (i : Inherent X) depth x : own_recv i = None -> macro_recv i depth x = None.
Proof. intros E. induction depth as [|depth IH]; [done|]. cbn. by rewrite E. Qed.

(** Through the trait, the sockets that send and receive do what their own methods
    do; but receiving on a PUSH and sending on a PULL, SUB or XSUB calls itself
    for ever: on no stack, however large, does it return, not even with an error.
    PUB, written by hand, answers [Unsupported]. *)
Theorem socket_trait_recursion {S K : Type} `{AsyncStream S} `{Aead K} (clock : nat -> Z) (fuel : nat) (now : Z)
    (waits : nat -> bool) (depth : nat) (msg : list bytes) :
  (forall d : DealerSocket S K, @socket_send _ (dealer_socket clock fuel) (Datatypes.S depth) d msg = Some (dealer_send d msg) /\
     @socket_recv _ (dealer_socket clock fuel) (Datatypes.S depth) d = dealer_recv clock fuel d) /\
  (forall p : PushSocket S K, @socket_send _ (push_socket now) (Datatypes.S depth) p msg = Some (push_send now p msg) /\
     @socket_recv _ (push_socket now) depth p = None) /\
  (forall p : PullSocket S K, @socket_recv _ (pull_socket clock fuel) (Datatypes.S depth) p = pull_recv clock fuel p /\
     @socket_send _ (pull_socket clock fuel) depth p msg = None) /\
  (forall s : SubSocket S K, @socket_send _ (sub_socket clock fuel) depth s msg = None) /\
  (forall x : XSubSocket S K, @socket_send _ (xsub_socket clock fuel) depth x msg = None) /\
  (forall p : PubSocket S K, @socket_recv _ (pub_socket waits) depth p = Some (Returned (Err Unsupported), p)).
Proof.
  split_and!; intros; try split; try done; (by apply macro_send_missing) || (by apply macro_recv_missing).
Qed.
