(* ===== verification/Support.v ===== *)
(** * Messages, errors, configuration

    monocoque-core/src/message_builder.rs (less the serialisation to JSON and
    MessagePack, which other crates do), error.rs and config.rs. *)

From S2P Require Import Prelude.
From S2P Require Import Options.
From S2P Require Import Proxy.

(** ** message_builder.rs *)

Definition MAX_PREALLOCATED_FRAMES : Z := 1024.

(** The frames, and the capacity the vector was made with. *)
Record Message := mk_message {
  frames : list bytes;
  reserved : Z;
}.

Definition message_new : Message := mk_message [] 0.
Definition message_with_capacity (capacity : Z) : Message := mk_message [] (Z.min capacity MAX_PREALLOCATED_FRAMES).
Definition push_frame (m : Message) (frame : bytes) : Message := mk_message (frames m ++ [frame]) (reserved m).
Definition push_str (m : Message) (s : bytes) : Message := push_frame m s.
Definition push_empty (m : Message) : Message := push_frame m [].
Definition push_u32 (m : Message) (value : Z) : Message := push_frame m (be_bytes 4 value).
Definition push_u64 (m : Message) (value : Z) : Message := push_frame m (be_bytes 8 value).
Definition into_frames (m : Message) : list bytes := frames m.
Definition from_frames (fs : list bytes) : Message := mk_message fs 0.

Inductive part :=
| Frame (b : bytes)
| Str (s : bytes)
| Empty
| U32 (value : Z)
| U64 (value : Z).

Definition push_part (m : Message) (p : part) : Message :=
  match p with
  | Frame b => push_frame m b
  | Str s => push_str m s
  | Empty => push_empty m
  | U32 v => push_u32 m v
  | U64 v => push_u64 m v
  end.

Definition build (m : Message) (parts : list part) : Message := foldl push_part m parts.

(** What a receiver reads back from the frame of a part. *)
Definition reads_as (p : part) (frame : bytes) : Prop :=
  match p with
  | Frame b | Str b => frame = b
  | Empty => frame = []
  | U32 v => len frame = 4 /\ be_val frame = v
  | U64 v => len frame = 8 /\ be_val frame = v
  end.

Definition part_ok (p : part) : Prop :=
  match p with U32 v => 0 <= v < 2 ^ 32 | U64 v => 0 <= v < 2 ^ 64 | _ => True end.

Lemma push_part_frames m p : exists f, frames (push_part m p) = frames m ++ [f] /\ (part_ok p -> reads_as p f).
Proof.
  destruct p as [b|s| |v|v]; eexists; (split; [reflexivity|]); intros Hp; cbn; try done.
  - unfold len. rewrite length_be_bytes. split; [done|]. by apply be_val_be_bytes.
  - unfold len. rewrite length_be_bytes. split; [done|]. by apply be_val_be_bytes.
Qed.

(** A message has one frame per part, in order, and every part can be read back
    from its frame; the capacity asked for is not seen. *)
Theorem build_reads_back (m : Message) (parts : list part) :
  Forall part_ok parts ->
  exists fs, into_frames (build m parts) = frames m ++ fs /\ Forall2 reads_as parts fs.
Proof.
  intros Hp. revert m. induction Hp as [|p parts Hp _ IH]; intros m; cbn [build foldl].
  { exists []. by rewrite app_nil_r. }
  destruct (push_part_frames m p) as (f & Hf & Hr). destruct (IH (push_part m p)) as (fs & E & H).
  exists (f :: fs). unfold build in E. rewrite E, Hf, <- app_assoc. split; [done|]. constructor; auto.
Qed.

(** ** error.rs *)

(** An [io::Error] is its kind and text; durations are in nanoseconds. *)
Inductive MonocoqueError :=
| EIo (kind : ErrorKind) (text : bytes)
| EProtocol (msg : bytes)
| EHandshakeTimeout (d : Z)
| EInvalidGreeting (msg : bytes)
| EInvalidFrame (msg : bytes)
| ESocketClosed
| EChannelSend
| EChannelRecv
| EPeerDisconnected (peer : bytes)
| EInvalidRoutingId
| EMessageTooLarge (size max : Z)
| ESubscription (msg : bytes).

Definition add_context (ctx : bytes) (e : MonocoqueError) : MonocoqueError :=
  match e with
  | EIo kind text => EIo kind (ctx ++ ascii_bytes ": " ++ text)
  | EProtocol msg => EProtocol (ctx ++ ascii_bytes ": " ++ msg)
  | other => other
  end.

Definition context {T} (r : result MonocoqueError T) (ctx : bytes) : result MonocoqueError T :=
  match r with Ok x => Ok x | Err e => Err (add_context ctx e) end.

(** The closure is only called on an error. *)
Definition with_context {T} (r : result MonocoqueError T) (f : unit -> bytes) : result MonocoqueError T :=
  match r with Ok x => Ok x | Err e => Err (add_context (f tt) e) end.

Definition is_recoverable (e : MonocoqueError) : bool :=
  match e with
  | EIo kind _ => match kind with Interrupted | WouldBlock | TimedOut => true | _ => false end
  | _ => false
  end.

Definition error_is_connection_error (e : MonocoqueError) : bool :=
  match e with ESocketClosed | EPeerDisconnected _ | EHandshakeTimeout _ => true | _ => false end.

(** Context never changes how an error is classified, and the recoverable I/O
    errors are those a proxy survives. *)
Theorem context_keeps_class {T} (r : result MonocoqueError T) (ctx : bytes) :
  with_context r (λ _, ctx) = context r ctx /\
  match r, context r ctx with
  | Ok x, Ok y => x = y
  | Err e, Err e' =>
      is_recoverable e' = is_recoverable e /\ error_is_connection_error e' = error_is_connection_error e /\
      forall kind text, e = EIo kind text -> is_recoverable e = is_transient_send_error kind
  | _, _ => False
  end.
Proof. split; [done|]. destruct r as [x|e]; [done|]. destruct e; cbn; (split; [done|split; [done|]]); by intros ? ? [= <- _]. Qed.

(** ** config.rs *)

Definition DEFAULT_BUF_SIZE : Z := 8192.
Definition SMALL_BUF_SIZE : Z := 4096.
Definition LARGE_BUF_SIZE : Z := 16384.
Definition STAGING_BUF_INITIAL_CAP : Z := 256.

Record BufferConfig := mk_buffer_config { read_buf_size : Z; write_buf_size : Z }.

Definition buffer_config_default : BufferConfig := mk_buffer_config DEFAULT_BUF_SIZE DEFAULT_BUF_SIZE.
Definition buffer_config_small : BufferConfig := mk_buffer_config SMALL_BUF_SIZE SMALL_BUF_SIZE.
Definition buffer_config_large : BufferConfig := mk_buffer_config LARGE_BUF_SIZE LARGE_BUF_SIZE.
Definition buffer_config_custom (r w : Z) : BufferConfig := mk_buffer_config r w.
