(* ===== verification/DealerRouter.v ===== *)
(** * DEALER and ROUTER joined by a connection

    dealer.rs and router.rs of monocoque-zmtp over the two directions of a
    connection: both sides send and receive when they like, several messages may
    be under way each way, and what is on a wire arrives any number of bytes at a
    time: a call may find part of a message and another call the rest.  The
    specification is two lanes of messages, [LinkLanes]. *)

From S2P Require Import Prelude.
From S2P Require Import SegBuffer.
From S2P Require Import Codec.
From S2P Require Import Options.
From S2P Require Import CurveMessage.
From S2P Require Import Stream.
From S2P Require Import Base.
From S2P Require Import BaseWire.
From S2P Require Import Recv.
From S2P Require Import Sockets.
From S2P Require Import Pipeline.
From S2P Require Import RouterPair.
From S2P Require Import Arrival.

Inductive link_op :=
| DealerSend (m : list bytes)
| RouterSend (to : bytes) (m : list bytes)
| Forth (n : nat) (cuts : list nat)        (** the next [n] bytes DEALER has written arrive *)
| Back (n : nat) (cuts : list nat)         (** the next [n] bytes ROUTER has written arrive *)
| DealerRecv
| RouterRecv.

Inductive link_event :=
| Done
| Refused                                  (** no route, in mandatory mode *)
| Got (m : list bytes)
| Waits.

(** ** Specification *)

Record LinkLanes := mk_lanes {
  to_router : Lane;
  to_dealer : Lane;
}.

(** [id] is the identity ROUTER knows DEALER by. *)
Definition link_spec (id : bytes) (must_route : bool) (q : LinkLanes) (op : link_op) : link_event * LinkLanes :=
  let '(mk_lanes forth back) := q in
  match op with
  | DealerSend m => (Done, mk_lanes (lane_send forth m) back)
  | RouterSend to m =>
      if bool_decide (to = id) then (Done, mk_lanes forth (lane_send back m))
      else (if must_route then Refused else Done, q)
  | Forth n _ => (Done, mk_lanes (lane_arrive forth n) back)
  | Back n _ => (Done, mk_lanes forth (lane_arrive back n))
  | DealerRecv => match lane_recv back with Some (m, back) => (Got m, mk_lanes forth back) | None => (Waits, q) end
  | RouterRecv => match lane_recv forth with Some (m, forth) => (Got (id :: m), mk_lanes forth back) | None => (Waits, q) end
  end.

Fixpoint link_spec_run (id : bytes) (must_route : bool) (q : LinkLanes) (ops : list link_op) : list link_event * LinkLanes :=
  match ops with
  | [] => ([], q)
  | op :: ops =>
      let '(e, q) := link_spec id must_route q op in
      let '(es, q) := link_spec_run id must_route q ops in (e :: es, q)
  end.

(** ** The two sockets *)

Section link.
Context {S K : Type} `{DuplexStream S} `{!Aead K} (clock : nat -> Z) (fuel : nat).

(** The sockets, and how many bytes of each wire have arrived. *)
Record Link := mk_link {
  lk_dealer : DealerSocket S K;
  lk_router : RouterSocket S K;
  lk_forth : Z;
  lk_back : Z;
}.

(** What a receive call showed. *)
Definition recv_event (o : outcome (option (list bytes))) : option link_event :=
  match o with
  | Returned (Ok (Some m)) => Some (Got m)
  | Pending | Returned (Err TimedOut) => Some Waits
  | _ => None
  end.

(** [None]: a call ended in any other way. *)
Definition link_step (l : Link) (op : link_op) : option (link_event * Link) :=
  let '(mk_link d r forth back) := l in
  match op with
  | DealerSend m =>
      match dealer_send d m with (Returned (Ok _), d) => Some (Done, mk_link d r forth back) | _ => None end
  | RouterSend to m =>
      match router_send r (to :: m) with
      | (Returned (Ok _), r) => Some (Done, mk_link d r forth back)
      | (Returned (Err NotFound), r) => Some (Refused, mk_link d r forth back)
      | _ => None
      end
  | Forth n cuts =>
      let w := next_bytes n forth (wire_bytes (dealer_base d)) in
      Some (Done, mk_link d (set_router_base r (base_deliver (router_base r) (pieces cuts w))) (forth + len w) back)
  | Back n cuts =>
      let w := next_bytes n back (wire_bytes (router_base r)) in
      Some (Done, mk_link (set_dealer_base d (base_deliver (dealer_base d) (pieces cuts w))) r forth (back + len w))
  | DealerRecv => '(o, d) ← dealer_recv clock fuel d; e ← recv_event o; Some (e, mk_link d r forth back)
  | RouterRecv => '(o, r) ← router_recv clock fuel r; e ← recv_event o; Some (e, mk_link d r forth back)
  end.

Fixpoint link_run (l : Link) (ops : list link_op) : option (list link_event * Link) :=
  match ops with
  | [] => Some ([], l)
  | op :: ops => '(e, l) ← link_step l op; '(es, l) ← link_run l ops; Some (e :: es, l)
  end.

(** ** Both ends *)

Record link_inv (id : bytes) (must_route : bool) (dmax rmax : Z) (n : nat) (l : Link) (q : LinkLanes) : Prop := {
  li_policy : peer_identity (lk_router l) = id /\ mandatory (lk_router l) = must_route;
  li_ends : exists dsent rsent,
    end_at dmax (dealer_base (lk_dealer l)) (dealer_frames (lk_dealer l)) (to_dealer q) dsent n /\
    end_at rmax (router_base (lk_router l)) (router_frames (lk_router l)) (to_router q) rsent n /\
    on_way dsent (lk_forth l) (to_router q) /\ on_way rsent (lk_back l) (to_dealer q);
}.

(** The messages fit the other side's limit, and the fuel; [more_pieces] is the
    number of pieces an operation adds. *)
Definition op_fits (dmax rmax : Z) (longest : nat) (op : link_op) : Prop :=
  match op with
  | DealerSend m => sendable rmax m /\ (length m <= longest)%nat
  | RouterSend _ m => sendable dmax m /\ (length m <= longest)%nat
  | _ => True
  end.

Definition more_pieces (op : link_op) : nat :=
  match op with Forth _ cuts | Back _ cuts => Datatypes.S (length cuts) | _ => 0 end.

Definition lanes_short (longest : nat) (q : LinkLanes) : Prop :=
  Forall (λ m, (length m <= longest)%nat) (coming (to_router q)) /\ Forall (λ m, (length m <= longest)%nat) (coming (to_dealer q)).

Lemma step_dealer_send id must dmax rmax n l q m :
  reliable (S := S) -> link_inv id must dmax rmax n l q -> sendable rmax m ->
  exists l', link_step l (DealerSend m) = Some (Done, l') /\
    link_inv id must dmax rmax n l' (link_spec id must q (DealerSend m)).2.
Proof.
  intros Hrel [Hpo (ds & rs & Hd & Hr & Hu & Hu')] Hm. destruct l as [d r forth back], q as [lf lb].
  cbn in *. destruct (end_send _ _ _ _ _ _ m Hrel Hd) as (b' & E & Hd' & _). unfold dealer_send. rewrite E.
  eexists. split; [done|]. split; [done|]. exists (ds ++ encode_multipart m []), rs. cbn.
  split_and!; [done|by apply end_written|by apply on_way_send; [apply Hr|]|done].
Qed.

Lemma step_router_send id must dmax rmax n l q to m :
  reliable (S := S) -> link_inv id must dmax rmax n l q -> sendable dmax m ->
  exists l', link_step l (RouterSend to m) = Some ((link_spec id must q (RouterSend to m)).1, l') /\
    link_inv id must dmax rmax n l' (link_spec id must q (RouterSend to m)).2.
Proof.
  intros Hrel [[Hid Hma] (ds & rs & Hd & Hr & Hu & Hu')] Hm.
  destruct l as [d r forth back], q as [lf lb]. cbn in *. unfold router_send. rewrite Hid, Hma.
  case_bool_decide as Hto; cbn [negb].
  - destruct (end_send _ _ _ _ _ _ m Hrel Hr) as (b' & E & Hr' & _). rewrite E. eexists. split; [done|]. split; [done|].
    exists ds, (rs ++ encode_multipart m []). cbn. split_and!; [by apply end_written|done|done|by apply on_way_send; [apply Hd|]].
  - destruct must; eexists; (split; [done|]); (split; [done|]); by exists ds, rs.
Qed.

Lemma link_forth id must dmax rmax n l q k cuts :
  link_inv id must dmax rmax n l q ->
  exists l', link_step l (Forth k cuts) = Some (Done, l') /\
    link_inv id must dmax rmax (n + Datatypes.S (length cuts)) l' (link_spec id must q (Forth k cuts)).2.
Proof.
  intros [Hpo (ds & rs & Hd & Hr & Hu & Hu')]. destruct l as [d r forth back], q as [lf lb].
  cbn [link_step link_spec snd lk_dealer lk_router lk_forth lk_back to_router to_dealer] in *.
  rewrite (end_wire _ _ _ _ _ _ Hd). destruct (on_way_arrive _ _ _ k (ea_lane _ _ _ _ _ _ Hr) Hu) as [Eb Hu2].
  eexists. split; [done|]. split; [done|]. exists ds, rs.
  cbn [lk_dealer lk_router lk_forth lk_back set_router_base router_base router_frames to_router to_dealer].
  split_and!; [apply (end_mono _ _ _ _ _ n); [lia|done]|rewrite Eb; by apply end_deliver|done|done].
Qed.

Lemma link_back id must dmax rmax n l q k cuts :
  link_inv id must dmax rmax n l q ->
  exists l', link_step l (Back k cuts) = Some (Done, l') /\
    link_inv id must dmax rmax (n + Datatypes.S (length cuts)) l' (link_spec id must q (Back k cuts)).2.
Proof.
  intros [Hpo (ds & rs & Hd & Hr & Hu & Hu')]. destruct l as [d r forth back], q as [lf lb].
  cbn [link_step link_spec snd lk_dealer lk_router lk_forth lk_back to_router to_dealer] in *.
  rewrite (end_wire _ _ _ _ _ _ Hr). destruct (on_way_arrive _ _ _ k (ea_lane _ _ _ _ _ _ Hd) Hu') as [Eb Hu2].
  eexists. split; [done|]. split; [done|]. exists ds, rs.
  cbn [lk_dealer lk_router lk_forth lk_back set_dealer_base dealer_base dealer_frames to_router to_dealer].
  split_and!; [rewrite Eb; by apply end_deliver|apply (end_mono _ _ _ _ _ n); [lia|done]|done|done].
Qed.

Lemma link_idle_waits (b : SocketBase S K) : recv_event (idle_outcome b) = Some Waits.
Proof. unfold idle_outcome. by destruct (recv_timeout (options b)). Qed.

Lemma on_way_recv sent pos l m l' : lane_ok l -> lane_recv l = Some (m, l') -> on_way sent pos l -> on_way sent pos l'.
Proof. intros Hl Hr [Hp Hz]. split; [done|]. destruct (lane_recv_later l m l' Hl Hr) as [-> _]. done. Qed.

Lemma step_dealer_recv id must dmax rmax n longest l q :
  link_inv id must dmax rmax n l q -> lanes_short longest q -> (2 * n + longest < fuel)%nat ->
  exists l', link_step l DealerRecv = Some ((link_spec id must q DealerRecv).1, l') /\
    link_inv id must dmax rmax n l' (link_spec id must q DealerRecv).2.
Proof.
  intros [Hpo (ds & rs & Hd & Hr & Hu & Hu')] [_ Hq] Hfuel. destruct l as [d r forth back], q as [lf lb]. cbn in *.
  destruct (end_recv clock fuel 0 _ _ _ _ _ _ _ Hd Hq Hfuel) as (o & b' & fr & E & _ & Hres).
  unfold dealer_recv. rewrite E. cbn [mbind option_bind]. destruct (lane_recv lb) as [[m lb']|] eqn:El.
  - destruct Hres as (-> & -> & Hd'). eexists. split; [done|]. split; [done|]. exists ds, rs. cbn.
    split_and!; [done..|]. by eapply on_way_recv; [apply Hd|..].
  - destruct Hres as (-> & Hd'). rewrite link_idle_waits. eexists. split; [done|]. split; [done|]. by exists ds, rs.
Qed.

Lemma step_router_recv id must dmax rmax n longest l q :
  link_inv id must dmax rmax n l q -> lanes_short longest q -> (2 * n + longest < fuel)%nat ->
  exists l', link_step l RouterRecv = Some ((link_spec id must q RouterRecv).1, l') /\
    link_inv id must dmax rmax n l' (link_spec id must q RouterRecv).2.
Proof.
  intros [[Hid Hma] (ds & rs & Hd & Hr & Hu & Hu')] [Hq _] Hfuel. destruct l as [d r forth back], q as [lf lb]. cbn in *.
  destruct (end_recv clock fuel 0 _ _ _ _ _ _ _ Hr Hq Hfuel) as (o & b' & fr & E & _ & Hres).
  unfold router_recv. rewrite E. cbn [mbind option_bind]. destruct (lane_recv lf) as [[m lf']|] eqn:El.
  - destruct Hres as (-> & -> & Hr'). cbn. rewrite Hid. eexists. split; [done|]. split; [done|]. exists ds, rs. cbn.
    split_and!; [done..| |done]. by eapply on_way_recv; [apply Hr|..].
  - destruct Hres as (-> & Hr'). unfold idle_outcome.
    destruct (recv_timeout _); cbn; (eexists; split; [done|]; split; [done|]; by exists ds, rs).
Qed.

Lemma lane_recv_short longest l m l' :
  lane_recv l = Some (m, l') -> Forall (λ m, (length m <= longest)%nat) (coming l) ->
  Forall (λ m, (length m <= longest)%nat) (coming l').
Proof.
  unfold lane_recv. destruct (coming l) as [|x ms]; [done|]. destruct (_ <=? _); [|done]. intros [= _ <-].
  by intros [_ ?]%list.Forall_cons.
Qed.

Lemma link_spec_short id must longest q op :
  lanes_short longest q -> match op with DealerSend m | RouterSend _ m => (length m <= longest)%nat | _ => True end ->
  lanes_short longest (link_spec id must q op).2.
Proof.
  unfold lanes_short. destruct q as [lf lb]. cbn [to_router to_dealer]. intros (H1 & H2) Hop.
  destruct op as [m|to m|k cuts|k cuts| |]; cbn [link_spec]; [|case_bool_decide| | |destruct (lane_recv lb) as [[m lb']|] eqn:E|destruct (lane_recv lf) as [[m lf']|] eqn:E];
    cbn [snd to_router to_dealer lane_send lane_arrive coming]; rewrite ?Forall_app; split_and!; try done;
    try (by eapply lane_recv_short); by constructor.
Qed.

Lemma link_step_refines id must dmax rmax n longest l q op :
  reliable (S := S) -> link_inv id must dmax rmax n l q -> lanes_short longest q -> op_fits dmax rmax longest op ->
  (2 * n + longest < fuel)%nat ->
  exists l', link_step l op = Some ((link_spec id must q op).1, l') /\
    link_inv id must dmax rmax (n + more_pieces op) l' (link_spec id must q op).2 /\
    lanes_short longest (link_spec id must q op).2.
Proof.
  intros Hrel Hinv Hq Hop Hfuel.
  assert (Hs : lanes_short longest (link_spec id must q op).2) by (apply link_spec_short; [done|]; destruct op; (done || apply Hop)).
  assert (Hgo : exists l', link_step l op = Some ((link_spec id must q op).1, l') /\
    link_inv id must dmax rmax (n + more_pieces op) l' (link_spec id must q op).2).
  2:{ destruct Hgo as (l' & ? & ?). by exists l'. }
  destruct op as [m|to m|k cuts|k cuts| |]; cbn [more_pieces]; rewrite ?Nat.add_0_r.
  - destruct (step_dealer_send id must dmax rmax n l q m Hrel Hinv (proj1 Hop)) as (l' & -> & ?). exists l'. by destruct q.
  - by apply step_router_send; [|done|apply Hop].
  - destruct (link_forth id must dmax rmax n l q k cuts Hinv) as (l' & -> & ?). exists l'. by destruct q.
  - destruct (link_back id must dmax rmax n l q k cuts Hinv) as (l' & -> & ?). exists l'. by destruct q.
  - by eapply step_dealer_recv.
  - by eapply step_router_recv.
Qed.

Definition all_pieces (ops : list link_op) : nat := sum_list_with more_pieces ops.

Lemma link_run_refines id must dmax rmax longest ops n l q :
  reliable (S := S) -> link_inv id must dmax rmax n l q -> lanes_short longest q ->
  Forall (op_fits dmax rmax longest) ops -> (2 * (n + all_pieces ops) + longest < fuel)%nat ->
  exists l', link_run l ops = Some ((link_spec_run id must q ops).1, l') /\
    link_inv id must dmax rmax (n + all_pieces ops) l' (link_spec_run id must q ops).2.
Proof.
  intros Hrel Hinv Hq Hops. revert n l q Hinv Hq.
  induction Hops as [|op ops Hop Hops IH]; intros n l q Hinv Hq Hfuel; cbn [link_run link_spec_run all_pieces sum_list_with].
  { rewrite Nat.add_0_r. by exists l. }
  cbn [all_pieces sum_list_with] in Hfuel. unfold all_pieces in *. cbn in Hfuel.
  destruct (link_step_refines id must dmax rmax n longest l q op Hrel Hinv Hq Hop) as (l1 & -> & Hinv1 & Hq1); [lia|].
  destruct (link_spec id must q op) as [e q1]. cbn [fst snd mbind option_bind] in *.
  destruct (IH (n + more_pieces op)%nat l1 q1 Hinv1 Hq1) as (l2 & -> & Hinv2); [lia|].
  destruct (link_spec_run id must q1 ops) as [es q2]. exists l2. split; [done|]. by rewrite Nat.add_assoc.
Qed.

(** A new connection: nothing sent, nothing to read. *)
Record fresh_link (d : DealerSocket S K) (r : RouterSocket S K) : Prop := {
  fl_dframes : dealer_frames d = [];
  fl_rframes : router_frames r = [];
  fl_dealer : linked (dealer_base d) [] [];
  fl_router : linked (router_base r) [] [];
}.

Definition empty_lanes : LinkLanes := mk_lanes (mk_lane [] 0) (mk_lane [] 0).

Lemma fresh_link_inv d r :
  fresh_link d r ->
  link_inv (peer_identity r) (mandatory r) (max_frame_size (decoder (dealer_base d))) (max_frame_size (decoder (router_base r)))
    0 (mk_link d r 0 0) empty_lanes.
Proof.
  intros [Hdf Hrf Hd Hr]. split; [done|]. exists [], []. cbn. rewrite Hdf, Hrf.
  split_and!; [by apply end_new|by apply end_new|apply (on_way_new [])..].
Qed.
End link.

(** C24: DEALER and ROUTER over a plaintext connection whose writes complete, without
    heartbeats and with messages within the other side's frame limit, behave as two
    lanes of messages.  Whatever both applications send and receive, in whatever
    order, with any number of messages under way, and however many bytes at a time
    and in whatever pieces these arrive, every call returns exactly what the lanes
    say: a receive call returns the next message if its last byte has arrived, and
    otherwise waits and loses nothing of what it has read; ROUTER gets the messages
    of DEALER once, whole, in order, the identity in front; DEALER gets the replies
    addressed to it once, whole, in order; a message for another identity is dropped,
    or refused in mandatory mode, and disturbs nothing. *)
Theorem dealer_router_queues {S K : Type} `{DuplexStream S} `{!Aead K} (clock : nat -> Z) (fuel : nat)
    (d : DealerSocket S K) (r : RouterSocket S K) (longest : nat) (ops : list link_op) :
  reliable (S := S) -> fresh_link d r ->
  Forall (op_fits (max_frame_size (decoder (dealer_base d))) (max_frame_size (decoder (router_base r))) longest) ops ->
  (2 * all_pieces ops + longest < fuel)%nat ->
  exists l, link_run clock fuel (mk_link d r 0 0) ops =
    Some ((link_spec_run (peer_identity r) (mandatory r) empty_lanes ops).1, l).
Proof.
  intros Hrel Hf Hops Hfuel.
  destruct (link_run_refines clock fuel _ _ _ _ longest ops 0 _ _ Hrel (fresh_link_inv d r Hf)) as (l & E & _);
    [by repeat constructor|done|lia|by exists l].
Qed.

(** ** Example *)

Definition link_dealer : DealerSocket PipeStream unit := dealer_with_options (mk_pipe [] []) default_options None.
Definition link_router : RouterSocket PipeStream unit :=
  (router_with_options (mk_pipe [] []) default_options (Some (ascii_bytes "d1")) None 1).1.

Lemma link_fresh : fresh_link link_dealer link_router.
Proof. split; try done; by apply pipe_linked. Qed.

(** The second message of DEALER has two frames; ROUTER asks for it when only the
    first has arrived. *)
Definition link_ops : list link_op :=
  [DealerSend [ascii_bytes "a"]; DealerSend [ascii_bytes "b"; ascii_bytes "c"]; RouterRecv; Forth 7 [0; 2]%nat; RouterRecv; RouterRecv;
   RouterSend (ascii_bytes "d1") [ascii_bytes "x"]; RouterSend (ascii_bytes "d2") [ascii_bytes "y"]; Forth 9 []; RouterRecv;
   Back 2 []; DealerRecv; Back 1 []; DealerRecv; DealerRecv].

Lemma dealer_router_queues_witness :
  exists l, link_run (λ _, 0) 20 (mk_link link_dealer link_router 0 0) link_ops =
    Some ([Done; Done; Waits; Done; Got [ascii_bytes "d1"; ascii_bytes "a"]; Waits; Done; Done; Done;
           Got [ascii_bytes "d1"; ascii_bytes "b"; ascii_bytes "c"]; Done; Waits; Done; Got [ascii_bytes "x"]; Waits], l).
Proof.
  destruct (dealer_router_queues (λ _, 0) 20 link_dealer link_router 2 link_ops) as (l & E).
  - done.
  - apply link_fresh.
  - repeat constructor; vm_compute; try discriminate; lia.
  - vm_compute. lia.
  - exists l. rewrite E. reflexivity.
Defined.
