(* ===== verification/PubSubNet.v ===== *)
(** * A publisher and its subscribers, end to end

    publisher.rs and subscriber.rs of monocoque-zmtp over connections: a PUB
    socket with its readers and worker threads, and any number of SUB sockets.
    What one side has written arrives at the other any number of bytes at a time, in
    any pieces: a reader may find part of an event and a receive call part of a
    message.  The applications call when they like, and the workers run when they like.
    [PubNet] is the whole system, [net_step] one step of it. *)

From S2P Require Import Prelude.
From S2P Require Import SegBuffer.
From S2P Require Import Codec.
From S2P Require Import Options.
From S2P Require Import Subscription.
From S2P Require Import CurveMessage.
From S2P Require Import Stream.
From S2P Require Import Base.
From S2P Require Import BaseWire.
From S2P Require Import Recv.
From S2P Require Import Pipeline.
From S2P Require Import Subscriber.
From S2P Require Import Publisher.
From S2P Require Import PubSubSync.
From S2P Require Import Arrival.

(** ** The system *)

Inductive net_event :=
| Done
| Sent                                     (** handed to every worker with subscribers, or wanted by nobody *)
| Dropped                                  (** the channel of a worker was full *)
| Got (i : nat) (m : list bytes)
| Waits.

Section net.
Context {S K : Type} `{DuplexStream S} `{!Aead K} (clock : nat -> Z).

(** A connection: the reader at the publisher, the SUB socket, and how much of
    what each side has written has arrived. *)
Record Line := mk_line {
  ln_reader : Reader K;
  ln_sub : SubSocket S K;
  ln_up : Z;
  ln_down : Z;
}.

Record PubNet := mk_net {
  pn_pub : PubSocket S K;
  pn_lines : list Line;
}.

(** Subscriber [i] counts from 0; [srv] is the publisher's end of its stream. *)
Inductive net_op :=
| Join (srv : S) (s : SubSocket S K)
| Call (i : nat) (e : SubscriptionEvent)   (** [subscribe] or [unsubscribe] *)
| Up (i n : nat) (cuts : list nat)         (** the next [n] bytes subscriber [i] has written arrive *)
| Publish (m : list bytes) (waits : nat -> bool)
| Work (j : nat)                           (** worker [j] does one iteration *)
| Down (i n : nat) (cuts : list nat)       (** the next [n] bytes written to subscriber [i] arrive *)
| Take (i : nat).                          (** subscriber [i] calls [recv] *)

Definition line_id (i : nat) : Z := Z.of_nat i + 1.

(** The worker subscriber [i] was assigned to. *)
Definition home (p : PubSocket S K) (i : nat) : option (Worker S K) :=
  pub_workers p !! (i mod length (pub_workers p))%nat.

Definition find_sub (id : Z) (subs : list (WorkerSubscriber S K)) : option (WorkerSubscriber S K) :=
  List.find (λ sub, ws_id sub =? id) subs.

(** What has been written to subscriber [i], once its worker has registered it
    (and started its reader). *)
Definition sent_to (p : PubSocket S K) (i : nat) : option bytes :=
  w ← home p i; sub ← find_sub (line_id i) (wk_subs w); Some (wire (ws_stream sub)).

(** The subscriptions are shared with the reader: the worker sees what it holds. *)
Definition see_subs (lines : list Line) (sub : WorkerSubscriber S K) : WorkerSubscriber S K :=
  match lines !! Z.to_nat (ws_id sub - 1) with
  | Some l => mk_worker_sub (ws_id sub) (ws_stream sub) (rd_subs (ln_reader l)) (ws_cipher sub)
  | None => sub
  end.

Definition see_cmd (lines : list Line) (c : WorkerCommand S K) : WorkerCommand S K :=
  match c with AddSubscriber sub => AddSubscriber (see_subs lines sub) | c => c end.

Definition seeing (lines : list Line) (w : Worker S K) : Worker S K :=
  mk_worker (see_subs lines <$> wk_subs w) (wk_count w) (see_cmd lines <$> wk_queue w) (wk_running w).

Definition set_workers (p : PubSocket S K) (ws : list (Worker S K)) : PubSocket S K :=
  mk_pub ws (pub_shared p) (pub_local_union p) (pub_local_gen p) (pub_next_id p) (pub_next_worker p) (pub_options p)
    (pub_subscriber_count p) (pub_is_poisoned p) (pub_drop_count p).

Definition set_shared (p : PubSocket S K) (sh : SharedSubscriptions) : PubSocket S K :=
  mk_pub (pub_workers p) sh (pub_local_union p) (pub_local_gen p) (pub_next_id p) (pub_next_worker p) (pub_options p)
    (pub_subscriber_count p) (pub_is_poisoned p) (pub_drop_count p).

(** Every round of the receive loop reads a piece, decodes a frame or ends. *)
Definition recv_budget (s : SubSocket S K) : nat := Datatypes.S (chunks_left (sub_base s) + length (unread (sub_base s))).

(** [None]: a call failed or panicked. *)
Definition net_step (n : PubNet) (op : net_op) : option (net_event * PubNet) :=
  let '(mk_net p lines) := n in
  match op with
  | Join srv s =>
      '(r, p') ← pub_accept p srv None;
      match r with
      | Ok _ => Some (Done, mk_net p' (lines ++ [mk_line (reader_new (max_msg_size (pub_options p)) None) s
                                                    (len (wire_bytes (sub_base s))) (len (wire srv))]))
      | Err _ => None
      end
  | Call i e =>
      match lines !! i with
      | None => Some (Done, n)
      | Some l =>
          match sub_call (ln_sub l) e with
          | (Returned (Ok _), s) => Some (Done, mk_net p (<[i := mk_line (ln_reader l) s (ln_up l) (ln_down l)]> lines))
          | _ => None
          end
      end
  | Up i k cuts =>
      match lines !! i, sent_to p i with
      | Some l, Some _ =>
          let w := next_bytes k (ln_up l) (wire_bytes (sub_base (ln_sub l))) in
          '(r, sh) ← reader_run (ln_reader l) (pub_shared p) (pieces cuts w);
          Some (Done, mk_net (set_shared p sh) (<[i := mk_line r (ln_sub l) (ln_up l + len w) (ln_down l)]> lines))
      | _, _ => Some (Done, n)
      end
  | Publish m waits =>
      match pub_send waits p m with
      | (Ok _, p') => Some (if pub_drop_count p' =? pub_drop_count p then Sent else Dropped, mk_net p' lines)
      | (Err _, _) => None
      end
  | Work j =>
      match pub_workers p !! j with
      | None => Some (Done, n)
      | Some w => Some (Done, mk_net (set_workers p (<[j := worker_step (seeing lines w)]> (pub_workers p))) lines)
      end
  | Down i k cuts =>
      match lines !! i, sent_to p i with
      | Some l, Some sent =>
          let w := next_bytes k (ln_down l) sent in
          let s := set_sub_base (ln_sub l) (base_deliver (sub_base (ln_sub l)) (pieces cuts w)) in
          Some (Done, mk_net p (<[i := mk_line (ln_reader l) s (ln_up l) (ln_down l + len w)]> lines))
      | _, _ => Some (Done, n)
      end
  | Take i =>
      match lines !! i with
      | None => Some (Waits, n)
      | Some l =>
          '(o, s) ← sub_recv clock (recv_budget (ln_sub l)) (ln_sub l);
          let n := mk_net p (<[i := mk_line (ln_reader l) s (ln_up l) (ln_down l)]> lines) in
          match o with
          | Returned (Ok (Some m)) => Some (Got i m, n)
          | Pending | Returned (Err TimedOut) => Some (Waits, n)
          | _ => None
          end
      end
  end.

Fixpoint net_run (n : PubNet) (ops : list net_op) : option (list net_event * PubNet) :=
  match ops with
  | [] => Some ([], n)
  | op :: ops => '(e, n) ← net_step n op; '(es, n) ← net_run n ops; Some (e :: es, n)
  end.

(** What subscriber [i] has received, and what has been published. *)
Definition got_of (i : nat) (e : net_event) : list (list bytes) :=
  match e with Got k m => if bool_decide (k = i) then [m] else [] | _ => [] end.
Definition received (i : nat) (es : list net_event) : list (list bytes) := concat (got_of i <$> es).

Definition published_by (op : net_op) : list (list bytes) := match op with Publish m _ => [m] | _ => [] end.
Definition published (ops : list net_op) : list (list bytes) := concat (published_by <$> ops).
End net.
#[global] Arguments Line : clear implicits.
#[global] Arguments PubNet : clear implicits.
#[global] Arguments net_op : clear implicits.


(** ** One worker *)

Section worker.
Context {S K : Type} `{WireStream S} `{!Aead K}.
Implicit Types (w : Worker S K) (sub : WorkerSubscriber S K).

Definition bcasts (queue : list (WorkerCommand S K)) : list (list bytes) :=
  omap (λ c, match c with Broadcast m => Some m | _ => None end) queue.

Definition adds (id : Z) (c : WorkerCommand S K) : Prop := match c with AddSubscriber sub => ws_id sub = id | _ => False end.

(** Where subscriber [id] stands: registered, or still in the queue.  [q] are the
    broadcasts it has before it. *)
Definition at_worker (id : Z) w (subs : list bytes) (sent : bytes) (q : list (list bytes)) : Prop :=
  (exists sub, find_sub id (wk_subs w) = Some sub /\ ws_subs sub = subs /\ wire (ws_stream sub) = sent /\
     q = bcasts (wk_queue w)) \/
  (exists pre sub post, find_sub id (wk_subs w) = None /\ wk_queue w = pre ++ AddSubscriber sub :: post /\
     Forall (λ c, ~ adds id c) pre /\ ws_id sub = id /\ ws_subs sub = subs /\ wire (ws_stream sub) = sent /\ q = bcasts post).

Definition find_view (id : Z) (vs : list (Z * list bytes * bytes)) : option (Z * list bytes * bytes) :=
  List.find (λ v, v.1.1 =? id) vs.

Lemma find_view_subs id (subs : list (WorkerSubscriber S K)) : find_view id (view <$> subs) = view <$> find_sub id subs.
Proof. induction subs as [|sub subs IH]; [done|]. cbn. by destruct (ws_id sub =? id). Qed.

Lemma find_view_deliver id m vs : find_view id (Publisher.deliver m <$> vs) = Publisher.deliver m <$> find_view id vs.
Proof. induction vs as [|[[k subs] sent] vs IH]; [done|]. cbn. by destruct (k =? id). Qed.

Lemma find_view_app id vs vs' :
  find_view id (vs ++ vs') = match find_view id vs with Some v => Some v | None => find_view id vs' end.
Proof. induction vs as [|v vs IH]; [done|]. cbn. by destruct (v.1.1 =? id). Qed.

Lemma slice_of_app subs ms ms' : slice_of subs (ms ++ ms') = slice_of subs ms ++ slice_of subs ms'.
Proof. unfold slice_of. by rewrite List.filter_app, wire_of_app. Qed.

(** The reference, seen from one subscriber. *)
Lemma ref_run_find id (cmds : list (WorkerCommand S K)) vs vs' k subs sent :
  ref_run vs cmds = (vs', true) -> find_view id vs = Some (k, subs, sent) ->
  find_view id vs' = Some (k, subs, sent ++ slice_of subs (bcasts cmds)).
Proof.
  revert vs sent. induction cmds as [|c cmds IH]; intros vs sent; cbn [ref_run].
  { intros [= <-] ->. cbn. by rewrite app_nil_r. }
  destruct c as [sub|m|]; [| |done]; intros Hrun Hf.
  - apply (IH _ sent Hrun). by rewrite find_view_app, Hf.
  - change (bcasts (Broadcast m :: cmds)) with ([m] ++ bcasts cmds). rewrite slice_of_app, app_assoc.
    apply (IH _ _ Hrun). rewrite find_view_deliver, Hf. cbn. do 2 f_equal. unfold slice_of. cbn.
    destruct (worker_matches subs m); [|done]. cbn. by rewrite app_nil_r.
Qed.

Lemma ref_run_unknown id (cmds : list (WorkerCommand S K)) vs vs' :
  ref_run vs cmds = (vs', true) -> Forall (λ c, ~ adds id c) cmds -> find_view id vs = None -> find_view id vs' = None.
Proof.
  revert vs. induction cmds as [|c cmds IH]; intros vs; cbn [ref_run]; [by intros [= <-]|].
  destruct c as [sub|m|]; [| |done]; intros Hrun [Hc Hcs]%list.Forall_cons Hf; apply (IH _ Hrun Hcs).
  - rewrite find_view_app, Hf. cbn. by rewrite (proj2 (Z.eqb_neq _ _) Hc).
  - by rewrite find_view_deliver, Hf.
Qed.

Lemma bcasts_app (q q' : list (WorkerCommand S K)) : bcasts (q ++ q') = bcasts q ++ bcasts q'.
Proof. apply omap_app. Qed.

Definition no_shutdown (c : WorkerCommand S K) : Prop := match c with Shutdown => False | _ => True end.

Lemma ref_run_goes (cmds : list (WorkerCommand S K)) vs : Forall no_shutdown cmds -> (ref_run vs cmds).2 = true.
Proof. intros Hc. revert vs. induction Hc as [|c cmds Hc Hcs IH]; intros vs; [done|]. destruct c; [apply IH|apply IH|done]. Qed.

(** A running plaintext worker whose subscribers are among [ids]. *)
Record worker_ok (ids : Z -> Prop) w : Prop := {
  wo_subs : Forall plain_sub (wk_subs w);
  wo_queue : Forall plain_cmd (wk_queue w);
  wo_running : wk_running w = true;
  wo_goes : Forall no_shutdown (wk_queue w);
  wo_ids : Forall (λ sub, ids (ws_id sub)) (wk_subs w) /\ Forall (λ c, forall id, adds id c -> ids id) (wk_queue w);
}.

Lemma ref_run_ids (ids : Z -> Prop) (cmds : list (WorkerCommand S K)) vs :
  Forall (λ c, forall id, adds id c -> ids id) cmds -> Forall (λ v, ids v.1.1) vs -> Forall (λ v, ids v.1.1) (ref_run vs cmds).1.
Proof.
  intros Hc. revert vs. induction Hc as [|c cmds Hc Hcs IH]; intros vs Hv; [done|]. destruct c as [sub|m|]; cbn [ref_run]; [| |done].
  - apply IH, Forall_app. split; [done|]. repeat constructor. by apply Hc.
  - apply IH. apply Forall_fmap. eapply list.Forall_impl; [exact Hv|]. by intros [[k su] se].
Qed.

(** A step serves a prefix of what a subscriber has before it. *)
Lemma worker_step_at (ids : Z -> Prop) w :
  reliable (S := S) -> worker_ok ids w ->
  worker_ok ids (worker_step w) /\ wk_count (worker_step w) = wk_count w /\
  (wk_queue w <> [] -> (length (wk_queue (worker_step w)) < length (wk_queue w))%nat) /\
  forall id subs sent q, at_worker id w subs sent q ->
    exists ms q', q = ms ++ q' /\ at_worker id (worker_step w) subs (sent ++ slice_of subs ms) q'.
Proof.
  intros Hrel Hok. destruct (decide (wk_queue w = [])) as [E|Hne].
  { assert (worker_step w = w) as -> by (unfold worker_step; rewrite E; by destruct (wk_running w)).
    split_and!; [done|done|done|]. intros id subs sent q Ha. exists [], q. cbn. by rewrite app_nil_r. }
  destruct Hok as [Hs Hq Hr Hg [Hi1 Hi2]].
  destruct (worker_step_ref w Hrel Hs Hq Hr Hne) as (cmds & Hc & Eq & Href & Hs' & Hq' & Hcount).
  rewrite Eq in Hg, Hi2. apply Forall_app in Hg as [Hg Hg']. apply Forall_app in Hi2 as [Hi2 Hi2'].
  assert (Hrun : wk_running (worker_step w) = true) by (rewrite <- (ref_run_goes cmds (view <$> wk_subs w) Hg); by rewrite Href).
  rewrite Hrun in Href. split_and!; [|done| |].
  - split; [done..|]. split; [|done]. pose proof (ref_run_ids ids cmds (view <$> wk_subs w) Hi2) as Hids.
    rewrite Href in Hids. cbn [fst] in Hids. rewrite !Forall_fmap in Hids. by apply Hids.
  - intros _. rewrite Eq, length_app. destruct cmds; [done|]. cbn. lia.
  - intros id subs sent q Ha.
    assert (Hreg : forall post, find_view id (view <$> wk_subs (worker_step w)) = Some (id, subs, sent ++ slice_of subs post) ->
      at_worker id (worker_step w) subs (sent ++ slice_of subs post) (bcasts (wk_queue (worker_step w)))).
    { intros post Hf. left. rewrite find_view_subs in Hf. destruct (find_sub id _) as [sub|]; [|done].
      injection Hf as _ <- Hf. exists sub. by rewrite Hf. }
    destruct Ha as [(sub & Hf & <- & <- & ->)|(pre & sub & post & Hf & Epre & Hpre & Hid & <- & <- & ->)].
    + exists (bcasts cmds), (bcasts (wk_queue (worker_step w))). rewrite Eq, bcasts_app. split; [done|]. apply Hreg.
      assert (Hk : ws_id sub = id) by (apply List.find_some in Hf as [_ Hf]; lia).
      apply (ref_run_find id cmds (view <$> wk_subs w)); [done|]. rewrite find_view_subs, Hf. unfold view. cbn. by rewrite Hk.
    + rewrite Eq in Epre. apply app_eq_inv in Epre as [(k & -> & Ek)|(k & -> & Ek)].
      * destruct k as [|c k].
        { exists [], (bcasts post). split; [done|]. cbn in Ek. cbn. rewrite app_nil_r. right. exists [], sub, post.
          rewrite app_nil_r in Href. split_and!; try done. pose proof (ref_run_unknown id _ _ _ Href Hpre) as Hu.
          rewrite !find_view_subs, Hf in Hu. by apply (fmap_None view), Hu. }
        injection Ek as <- ->. exists (bcasts k), (bcasts (wk_queue (worker_step w))). rewrite bcasts_app. split; [done|].
        apply Hreg. rewrite ref_run_app in Href. destruct (ref_run (view <$> wk_subs w) pre) as [vs1 go] eqn:E1.
        destruct go; [|done]. cbn [ref_run] in Href. apply (ref_run_find id k _ _ _ _ _ Href).
        rewrite find_view_app, (ref_run_unknown id _ _ _ E1 Hpre) by (by rewrite find_view_subs, Hf).
        unfold view. cbn. by rewrite (proj2 (Z.eqb_eq _ _) Hid), Hid.
      * apply Forall_app in Hpre as [Hpre1 Hpre2]. exists [], (bcasts post). split; [done|]. cbn. rewrite app_nil_r. right.
        exists k, sub, post. split_and!; try done. pose proof (ref_run_unknown id _ _ _ Href Hpre1) as Hu.
        rewrite !find_view_subs, Hf in Hu. by apply (fmap_None view), Hu.
Qed.
End worker.

(** ** The subscriber's end *)

Section subscriber.
Context {S K : Type} `{DuplexStream S} `{!Aead K} (clock : nat -> Z).
Implicit Types (s : SubSocket S K) (b : SocketBase S K).

Lemma encode_two (f : ZmtpFrame) : (2 <= length (encode f))%nat.
Proof. unfold encode. destruct (256 <=? _); cbn -[be_bytes]; rewrite ?length_app, ?length_be_bytes; lia. Qed.

(** [recv] passes over the messages nobody asked for and takes the first that is
    wanted, if its last byte has arrived; otherwise it waits and keeps what it has. *)
Lemma sub_loop_takes fuel i max b frames ps later ms :
  collecting max b frames later ms -> (chunks_left b + length (unread b) < fuel)%nat ->
  exists o b' frames' ms' pre, sub_recv_loop clock fuel i (mk_sub b frames ps) = Some (o, mk_sub b' frames' ps) /\
    collecting max b' frames' later ms' /\ send_buffer b' = send_buffer b /\ quiet b b' /\ wanted ps pre = [] /\
    ((exists m, ms = pre ++ m :: ms' /\ sub_matches ps m = true /\ o = Returned (Ok (Some m))) \/
     (ms = pre ++ ms' /\ o = idle_outcome b /\ unarrived later ms')).
Proof.
  revert i b frames ms. induction fuel as [|fuel IH]; intros i b frames ms Hcg Hfuel; [lia|].
  destruct Hcg as [Hmax Hfit Hnow]. cbn [sub_recv_loop sub_base sub_frames sub_prefixes]. destruct ms as [|m ms].
  { destruct Hnow as (-> & -> & Hrc). destruct (idle_read_exact b (clock i) Hrc) as (b1 & b' & -> & -> & Hrc' & _ & Hm & Hq & Hqu).
    exists (idle_outcome b), b', [], [], []. unfold idle_outcome. split; [by destruct (recv_timeout (options b))|].
    split_and!; [|done..|by right]. apply (collecting_between max b' []); [congruence|done..]. }
  destruct Hnow as (fs & bs & -> & Htail & Hfs & Hrc & Heq). destruct fs as [|f fs]; [inversion Htail|].
  apply list.Forall_cons in Hfs as [Hf Hfs]. cbn [fmap list_fmap concat] in Heq. rewrite <- app_assoc in Heq.
  rewrite (receiving_unread _ _ Hrc) in Hfuel. rewrite <- Hmax in Hf.
  destruct (process_part b bs f _ later Hrc Hf Heq) as (r & b1 & -> & Hs1 & Hq1 & Hm1 & Hqu1 & Hres).
  assert (Hcl : chunks_left b1 = chunks_left b) by (unfold chunks_left; by rewrite Hs1).
  assert (Hidle : forall b2, quiet b b2 -> idle_outcome (A := option (list bytes)) b2 = idle_outcome b).
  { intros b2 (_ & E & _). unfold idle_outcome. by rewrite E. }
  destruct Hres as [(-> & bs1 & Hrc1 & Heq1)|(-> & Hrc1 & Hshort)].
  - assert (Hlt : (chunks_left b1 + length (unread b1) < fuel)%nat).
    { rewrite (receiving_unread _ _ Hrc1). pose proof (f_equal length Heq) as Hl. rewrite <- Heq1 in Hl. rewrite !length_app in Hl.
      pose proof (encode_two f). lia. }
    inversion Htail as [f0 Hlast|f0 fs0 Hmore Htail']; subst f0; [subst fs|subst fs0].
    + rewrite Hlast. cbn [negb fmap list_fmap].
      assert (Hnext : collecting max b1 [] later ms) by (apply (collecting_between max b1 bs1); [congruence|done|done|exact Heq1]).
      destruct (sub_matches ps (frames ++ [payload f])) eqn:Em.
      * eexists _, b1, [], ms, []. split_and!; [done|done|done|done|done|]. left. by eexists.
      * destruct (IH i b1 [] ms Hnext Hlt) as (o & b2 & fr & ms' & pre & E & Hcg2 & Hq2 & Hqu2 & Hpre & Hres).
        exists o, b2, fr, ms', ((frames ++ [payload f]) :: pre). split_and!; [exact E|done|congruence|by transitivity b1| |].
        { unfold wanted. cbn [List.filter]. by rewrite Em. }
        destruct Hres as [(m & -> & Hm & ->)|(-> & -> & Hun)]; [left; by exists m|right]. by split_and!; [|apply Hidle|].
    + rewrite Hmore. cbn [negb].
      destruct (IH i b1 (frames ++ [payload f]) ((frames ++ (payload <$> (f :: fs))) :: ms)) as (o & b2 & fr & ms' & pre & E & Hcg2 & Hq2 & Hqu2 & Hpre & Hres).
      { split; [congruence|done|]. exists fs, bs1. rewrite <- app_assoc. by split_and!. }
      { done. }
      exists o, b2, fr, ms', pre. split_and!; [exact E|done|congruence|by transitivity b1|done|].
      destruct Hres as [?|(? & -> & ?)]; [by left|right]. by split_and!; [|apply Hidle|].
  - destruct (decide (chunks_left b = 0%nat)) as [E0|Hne].
    + destruct (read_stalls b1 bs (clock i) Hrc1) as (b2 & Hread & Hrc2 & Hcl2 & Hd2 & Hq2 & Hqu2); [lia|]. rewrite Hread.
      exists (idle_outcome b), b2, frames, ((frames ++ (payload <$> (f :: fs))) :: ms), [].
      assert (Hio : idle_outcome (A := Z) b1 = idle_outcome b) by (unfold idle_outcome; by destruct Hqu1 as (_ & -> & _)).
      rewrite Hio. unfold idle_outcome. split; [by destruct (recv_timeout (options b))|].
      split_and!; [|congruence|by transitivity b1|done|].
      * split; [congruence|done|]. exists (f :: fs), bs. cbn [fmap list_fmap concat]. rewrite <- app_assoc. split_and!; [done|done| |done|done].
        constructor; [by rewrite <- Hmax|done].
      * right. split_and!; [done|done|]. cbn [unarrived]. pose proof (f_equal len Heq) as Hl. rewrite !len_app in Hl. specialize (Hshort E0).
        pose proof (len_nonneg (concat (encode <$> fs))). lia.
    + destruct (read_chunk_step b1 bs (clock i) Hrc1) as (n & b2 & -> & Hn & Hrc2 & Hcl2 & Hd2 & Hq2 & Hqu2); [lia|].
      rewrite (proj2 (Z.eqb_neq _ _)) by done.
      assert (Hhb : check_heartbeat b2 (clock (Datatypes.S i)) = Some (Ok false, b2)).
      { unfold check_heartbeat. by rewrite (rc_heartbeat _ _ Hrc2). }
      rewrite Hhb. cbn [set_sub_base sub_frames sub_prefixes].
      destruct (IH (Datatypes.S (Datatypes.S i)) b2 frames ((frames ++ (payload <$> (f :: fs))) :: ms)) as (o & b3 & fr & ms' & pre & E & Hcg3 & Hq3 & Hqu3 & Hpre & Hres).
      { split; [congruence|done|]. exists (f :: fs), bs. cbn [fmap list_fmap concat]. rewrite <- app_assoc. split_and!; [done|done| |done|done].
        constructor; [by rewrite <- Hmax|done]. }
      { rewrite (receiving_unread _ _ Hrc2). lia. }
      exists o, b3, fr, ms', pre. split_and!; [exact E|done|congruence|by transitivity b1; [|transitivity b2]|done|].
      destruct Hres as [?|(? & -> & ?)]; [by left|right]. split_and!; [done|apply Hidle; by transitivity b1|done].
Qed.

Lemma sub_takes max s later ms up :
  collecting max (sub_base s) (sub_frames s) later ms -> sending (sub_base s) up [] ->
  exists o b' frames' ms' pre, sub_recv clock (recv_budget s) s = Some (o, mk_sub b' frames' (sub_prefixes s)) /\
    collecting max b' frames' later ms' /\ sending b' up [] /\ wanted (sub_prefixes s) pre = [] /\
    ((exists m, ms = pre ++ m :: ms' /\ sub_matches (sub_prefixes s) m = true /\ o = Returned (Ok (Some m))) \/
     (ms = pre ++ ms' /\ o = idle_outcome (sub_base s) /\ unarrived later ms')).
Proof.
  intros Hcg Hs. destruct s as [b frames ps]. cbn [sub_base sub_frames sub_prefixes] in *.
  destruct (sub_loop_takes (recv_budget (mk_sub b frames ps)) 0 max b frames ps later ms Hcg) as (o & b' & fr & ms' & pre & E & Hcg' & Hq & Hqu & Hpre & Hres).
  { unfold recv_budget. cbn [sub_base]. lia. }
  exists o, b', fr, ms', pre. split_and!; [exact E|done| |done|done].
  destruct (collecting_receiving _ _ _ _ _ Hcg') as [bs' Hrc']. eapply quiet_sending; [exact Hqu|done|apply Hrc'|done].
Qed.

(** A call writes its event and leaves what is to be read alone. *)
Lemma sub_call_base s e str :
  stream (sub_base s) = Some str -> curve_cipher (sub_base s) = None ->
  sub_base (sub_call s e).2 = set_stream (sub_base s) (Some (stream_write_all str (event_wire e)).2) /\
  sub_frames (sub_call s e).2 = sub_frames s.
Proof.
  intros Hs Hc. destruct e as [q|q]; cbn [sub_call]; unfold sub_subscribe, sub_unsubscribe, send_sub_event; cbn [sub_base];
    rewrite Hc, Hs; unfold event_wire, to_message; cbn [app]; destruct (stream_write_all str _) as [[[[]|er]|] s'];
    cbn; try case_bool_decide; done.
Qed.

Lemma sub_call_collecting max s later ms up e :
  reliable (S := S) -> collecting max (sub_base s) (sub_frames s) later ms -> sending (sub_base s) up [] ->
  exists s', sub_call s e = (Returned (Ok tt), s') /\ collecting max (sub_base s') (sub_frames s') later ms /\
    sending (sub_base s') (up ++ event_wire e) [] /\ same_prefixes (subs_after (sub_prefixes s) e) (sub_prefixes s').
Proof.
  intros Hrel Hcg Hsend. destruct (collecting_receiving _ _ _ _ _ Hcg) as [bs [Hd Hr Hc Hh Ht (str & Hs & Hne & Hbs)]].
  destruct (sub_call_sending s up [] e Hrel Hsend) as (s' & E & Hsend' & Hsame).
  destruct (sub_call_base s e str Hs Hc) as [Hb Hf]. rewrite E in Hb, Hf. cbn [snd] in Hb, Hf. exists s'.
  split_and!; [done| |done|done]. rewrite Hb, Hf. eapply collecting_stream; [done|done|apply write_incoming].
Qed.
End subscriber.

(** ** Workers in the system *)

Section seeing.
Context {S K : Type} `{WireStream S} `{!Aead K}.
Implicit Types (w : Worker S K) (lines : list (Line S K)).

Lemma see_subs_keeps lines (sub : WorkerSubscriber S K) :
  ws_id (see_subs lines sub) = ws_id sub /\ ws_stream (see_subs lines sub) = ws_stream sub /\
  ws_cipher (see_subs lines sub) = ws_cipher sub.
Proof. unfold see_subs. by destruct (lines !! _). Qed.

Lemma find_sub_seeing lines id subs : find_sub id (see_subs lines <$> subs) = see_subs lines <$> find_sub id subs.
Proof.
  induction subs as [|sub subs IH]; [done|]. unfold find_sub in *. cbn. destruct (see_subs_keeps lines sub) as (-> & _).
  by destruct (ws_id sub =? id).
Qed.

Lemma bcasts_seeing lines q : bcasts (see_cmd lines <$> q) = bcasts q.
Proof. induction q as [|[sub|m|] q IH]; [done|exact IH|cbn; by f_equal|exact IH]. Qed.

Lemma seeing_at lines l i w subs sent q :
  lines !! i = Some l -> at_worker (line_id i) w subs sent q -> at_worker (line_id i) (seeing lines w) (rd_subs (ln_reader l)) sent q.
Proof.
  intros Hl Ha.
  assert (Hsee : forall sub, ws_id sub = line_id i -> ws_subs (see_subs lines sub) = rd_subs (ln_reader l)).
  { intros sub E. unfold see_subs. rewrite E. unfold line_id. replace (Z.to_nat (Z.of_nat i + 1 - 1)) with i by lia. by rewrite Hl. }
  destruct Ha as [(sub & Hf & <- & <- & ->)|(pre & sub & post & Hf & Eq & Hpre & Hid & <- & <- & ->)].
  - left. exists (see_subs lines sub). cbn [seeing wk_subs wk_queue]. rewrite find_sub_seeing, Hf, bcasts_seeing.
    split_and!; [done|apply Hsee|by destruct (see_subs_keeps lines sub) as (_ & -> & _)|done].
    apply List.find_some in Hf as [_ Hf]. lia.
  - right. exists (see_cmd lines <$> pre), (see_subs lines sub), (see_cmd lines <$> post). cbn [seeing wk_subs wk_queue].
    rewrite find_sub_seeing, Hf, Eq, fmap_app, bcasts_seeing. destruct (see_subs_keeps lines sub) as (-> & -> & _).
    split_and!; try done; [|by apply Hsee]. apply Forall_fmap. eapply list.Forall_impl; [exact Hpre|].
    intros [sub'|m|] Hn; [|done..]. cbn in *. by destruct (see_subs_keeps lines sub') as (-> & _).
Qed.

Lemma seeing_ok ids lines w : worker_ok ids w -> worker_ok ids (seeing lines w).
Proof.
  intros [Hs Hq Hr Hg [Hi1 Hi2]]. split; cbn; [| |done| |split]; apply Forall_fmap;
    [apply (list.Forall_impl _ _ _ Hs)|apply (list.Forall_impl _ _ _ Hq)|apply (list.Forall_impl _ _ _ Hg)
    |apply (list.Forall_impl _ _ _ Hi1)|apply (list.Forall_impl _ _ _ Hi2)].
  - intros sub Hp. change (ws_cipher (see_subs lines sub) = None). by destruct (see_subs_keeps lines sub) as (_ & _ & ->).
  - intros [sub|m|] Hp; [|done..]. change (ws_cipher (see_subs lines sub) = None). by destruct (see_subs_keeps lines sub) as (_ & _ & ->).
  - by intros [sub|m|].
  - intros sub Hp. change (ids (ws_id (see_subs lines sub))). by destruct (see_subs_keeps lines sub) as (-> & _).
  - intros [sub|m|] Hp; [|done..]. cbn [compose see_cmd adds]. by destruct (see_subs_keeps lines sub) as (-> & _).
Qed.

Lemma enqueue_at id w subs sent q c : at_worker id w subs sent q -> at_worker id (enqueue w c) subs sent (q ++ bcasts [c]).
Proof.
  intros [(sub & Hf & Hsu & Hse & ->)|(pre & sub & post & Hf & Eq & Hpre & Hid & Hsu & Hse & ->)].
  - left. exists sub. cbn [enqueue wk_subs wk_queue]. by rewrite bcasts_app.
  - right. exists pre, sub, (post ++ [c]). cbn [enqueue wk_subs wk_queue]. rewrite bcasts_app, Eq, <- app_assoc. by split_and!.
Qed.

Lemma enqueue_ok (ids : Z -> Prop) w c :
  worker_ok ids w -> plain_cmd c -> no_shutdown c -> (forall id, adds id c -> ids id) -> worker_ok ids (enqueue w c).
Proof.
  intros [Hs Hq Hr Hg [Hi1 Hi2]] Hp Hn Hi. split; cbn; [done| |done| |split; [done|]]; apply Forall_app; (split; [done|]); by repeat constructor.
Qed.

Lemma worker_ok_mono (ids ids' : Z -> Prop) w : (forall id, ids id -> ids' id) -> worker_ok ids w -> worker_ok ids' w.
Proof.
  intros Hi [Hs Hq Hr Hg [Hi1 Hi2]]. split; [done..|].
  split; [apply (list.Forall_impl _ _ _ Hi1)|apply (list.Forall_impl _ _ _ Hi2)]; cbn; eauto.
Qed.

(** Every running worker with subscribers gets the message, unless it is full. *)
Lemma dispatch_ok hwm waits i (ws : list (Worker S K)) m d :
  Forall (λ w, wk_running w = true) ws ->
  exists ws' d', dispatch hwm waits i ws m d = (Ok tt, ws', d') /\ d <= d' /\
    Forall2 (λ w w', w' = enqueue w (Broadcast m) \/ w' = w /\ (wk_count w = 0 \/ d < d')) ws ws'.
Proof.
  intros Hr. revert i d. induction Hr as [|w ws Hw Hws IH]; intros i d; cbn [dispatch]; [exists [], d; split_and!; [done|lia|done]|].
  rewrite Hw. cbn [negb]. destruct (Z.eqb_spec (wk_count w) 0) as [Hz|Hz].
  - destruct (IH (Datatypes.S i) d) as (ws' & d' & -> & Hd & Hall). exists (w :: ws'), d'. split_and!; [done|done|].
    constructor; [by right; split; [|left]|done].
  - destruct (channel_full hwm (waits i) w).
    + destruct (IH (Datatypes.S i) (d + 1)) as (ws' & d' & -> & Hd & Hall). exists (w :: ws'), d'. split_and!; [done|lia|].
      constructor; [right; split; [done|right; lia]|]. eapply list.Forall2_impl; [exact Hall|].
      intros w1 w2 [->|[-> [?|?]]]; [by left|..]; right; split; try done; [by left|right; lia].
    + destruct (IH (Datatypes.S i) d) as (ws' & d' & -> & Hd & Hall). exists (enqueue w (Broadcast m) :: ws'), d'. split_and!; [done|done|].
      constructor; [by left|done].
Qed.
End seeing.

(** ** The invariant

    For each subscriber, what is on its way: the subscription events the publisher
    has not read yet, the broadcasts before it in the queue of its worker, and the
    messages written to it that it has not received. *)

Record Ghost := mk_ghost {
  g_asked : list SubscriptionEvent;
  g_known : list bytes;                    (** its subscriptions, as the publisher knows them *)
  g_wants : list bytes;                    (** as the SUB socket knows them *)
  g_queue : list (list bytes);
  g_coming : list (list bytes);
}.

Lemma sum_insert {A} (f : A -> nat) (l : list A) i x y :
  l !! i = Some x -> (sum_list_with f (<[i := y]> l) + f x = sum_list_with f l + f y)%nat.
Proof.
  revert i. induction l as [|z l IH]; intros [|i] E; [done|done| |].
  - injection E as ->. change (<[0%nat := y]> (x :: l)) with (y :: l). cbn. lia.
  - change (<[Datatypes.S i := y]> (z :: l)) with (z :: <[i := y]> l). cbn. specialize (IH i E). lia.
Qed.

Section invariant.
Context {S K : Type} `{DuplexStream S} `{!Aead K} (clock : nat -> Z) (smax rmax : Z).
Implicit Types (w : Worker S K) (p : PubSocket S K) (n : PubNet S K).

Record line_inv w (i : nat) (l : Line S K) (g : Ghost) : Prop := {
  lv_known : rd_subs (ln_reader l) = g_known g;
  lv_wants : sub_prefixes (ln_sub l) = g_wants g;
  lv_same : same_prefixes (foldl subs_after (g_known g) (g_asked g)) (g_wants g);
  lv_rmax : max_frame_size (rd_decoder (ln_reader l)) = rmax;
  lv_smax : smax <= max_frame_size (decoder (sub_base (ln_sub l)));
  lv_up : exists up, sending (sub_base (ln_sub l)) up [] /\ 0 <= ln_up l <= len up /\
    reading (ln_reader l) (zdrop (ln_up l) up) (g_asked g) /\ (zdrop (ln_up l) up = [] -> g_asked g = []);
  lv_down : exists subs sent, at_worker (line_id i) w subs sent (g_queue g) /\ 0 <= ln_down l <= len sent /\
    collecting (max_frame_size (decoder (sub_base (ln_sub l)))) (sub_base (ln_sub l)) (sub_frames (ln_sub l))
      (zdrop (ln_down l) sent) (g_coming g);
  lv_count : 0 < wk_count w;
  lv_fits : Forall (sendable smax) (g_coming g ++ g_queue g);
}.

(** [N] bounds the updates of the union, made and still to come. *)
Record net_inv (N : Z) n (gs : list Ghost) : Prop := {
  ni_workers : pub_workers (pn_pub n) <> [] /\
    Forall (worker_ok (λ id, 1 <= id <= len (pn_lines n))) (pub_workers (pn_pub n)) /\
    Forall (λ w, 0 <= wk_count w) (pub_workers (pn_pub n));
  ni_turn : pub_next_worker (pn_pub n) = Z.of_nat (length (pn_lines n) mod length (pub_workers (pn_pub n))) /\
    pub_next_id (pn_pub n) = line_id (length (pn_lines n));
  ni_length : length gs = length (pn_lines n);
  ni_lines i l g : pn_lines n !! i = Some l -> gs !! i = Some g -> exists w, home (pn_pub n) i = Some w /\ line_inv w i l g;
  ni_union : union_inv ((λ l, rd_subs (ln_reader l)) <$> pn_lines n) (shared_union (pub_shared (pn_pub n)));
  ni_sound : pub_is_poisoned (pn_pub n) = false;
  ni_cache : 0 <= pub_local_gen (pn_pub n) <= shared_gen (pub_shared (pn_pub n)) /\
    (pub_local_gen (pn_pub n) = shared_gen (pub_shared (pn_pub n)) ->
     pub_local_union (pn_pub n) = shared_union (pub_shared (pn_pub n)));
  ni_budget : shared_gen (pub_shared (pn_pub n)) + Z.of_nat (sum_list_with (λ g, length (g_asked g)) gs) <= N;
  ni_reader : max_frame_size (rd_decoder (reader_new (K := K) (max_msg_size (pub_options (pn_pub n))) None)) = rmax;
}.

Lemma ni_line N n gs i l :
  net_inv N n gs -> pn_lines n !! i = Some l -> exists g w, gs !! i = Some g /\ home (pn_pub n) i = Some w /\ line_inv w i l g.
Proof.
  intros Hinv Hl. destruct (gs !! i) as [g|] eqn:Hg.
  - destruct (ni_lines _ _ _ Hinv i l g Hl Hg) as (w & Hw & Hli). eauto.
  - apply lookup_ge_None in Hg. apply lookup_lt_Some in Hl. rewrite (ni_length _ _ _ Hinv) in Hg. lia.
Qed.

Lemma set_shared_id p : set_shared p (pub_shared p) = p.
Proof. by destruct p. Qed.

(** One line changes, and with it perhaps the union. *)
Lemma net_inv_line N N' p sh lines gs i l g l' g' w :
  net_inv N (mk_net p lines) gs -> lines !! i = Some l -> gs !! i = Some g -> home p i = Some w -> line_inv w i l' g' ->
  union_inv ((λ l, rd_subs (ln_reader l)) <$> <[i := l']> lines) (shared_union sh) ->
  shared_gen (pub_shared p) <= shared_gen sh ->
  (shared_gen sh = shared_gen (pub_shared p) -> shared_union sh = shared_union (pub_shared p)) ->
  shared_gen sh + Z.of_nat (length (g_asked g')) + N <= shared_gen (pub_shared p) + Z.of_nat (length (g_asked g)) + N' ->
  net_inv N' (mk_net (set_shared p sh) (<[i := l']> lines)) (<[i := g']> gs).
Proof.
  intros [Hwk Ht Hlen Hli Hu Hs [Hc1 Hc2] Hb Hr] Hl Hg Hw Hli' Hu' Hg1 Hg2 HN. cbn [pn_pub pn_lines] in *.
  split; cbn [pn_pub pn_lines set_shared pub_workers pub_next_worker pub_next_id pub_shared pub_is_poisoned pub_local_gen
    pub_local_union pub_options]; rewrite ?length_insert; try done.
  - unfold len in *. by rewrite length_insert.
  - intros k lk gk. destruct (decide (k = i)) as [->|Hk].
    + rewrite !list_lookup_insert_eq by (by eapply lookup_lt_Some). intros [= <-] [= <-]. by exists w.
    + rewrite !list_lookup_insert_ne by done. apply Hli.
  - split; [lia|]. intros E. rewrite Hg2 by lia. apply Hc2. lia.
  - pose proof (sum_insert (λ g, length (g_asked g)) gs i g g' Hg) as Hsum. cbn beta in Hsum. lia.
Qed.

(** One line changes in what does not concern the union. *)
Lemma net_inv_local N N' p lines gs i l g l' g' w :
  net_inv N (mk_net p lines) gs -> lines !! i = Some l -> gs !! i = Some g -> home p i = Some w -> line_inv w i l' g' ->
  rd_subs (ln_reader l') = rd_subs (ln_reader l) ->
  Z.of_nat (length (g_asked g')) + N <= Z.of_nat (length (g_asked g)) + N' ->
  net_inv N' (mk_net p (<[i := l']> lines)) (<[i := g']> gs).
Proof.
  intros Hinv Hl Hg Hw Hli Hk HN. rewrite <- (set_shared_id p). eapply net_inv_line; try eassumption; [|lia|done|lia].
  pose proof (ni_union _ _ _ Hinv) as Hu. cbn in *. rewrite list_fmap_insert, Hk, list_insert_id; [done|].
  by rewrite list_lookup_fmap, Hl.
Qed.

Lemma net_inv_mono N N' n gs : N <= N' -> net_inv N n gs -> net_inv N' n gs.
Proof. intros HN [? ? ? ? ? ? ? ? ?]. split; try done. lia. Qed.

(** ** The steps *)

(** What there is for a subscriber. *)
Definition stock (g : Ghost) : list (list bytes) := g_coming g ++ g_queue g.

(** Operations that concern subscriber [i] leave the others alone. *)
Definition elsewhere (i : nat) (gs gs' : list Ghost) : Prop := forall k, k <> i -> gs' !! k = gs !! k.

Lemma elsewhere_insert i g gs : elsewhere i gs (<[i := g]> gs).
Proof. intros k Hk. by apply list_lookup_insert_ne. Qed.

Lemma foldl_after_app subs es e : foldl subs_after subs (es ++ [e]) = subs_after (foldl subs_after subs es) e.
Proof. by rewrite foldl_app. Qed.

Lemma step_call N p lines gs i e :
  reliable (S := S) -> net_inv N (mk_net p lines) gs -> event_fits rmax e ->
  exists n' gs', net_step clock (mk_net p lines) (Call i e) = Some (Done, n') /\ net_inv (N + 1) n' gs' /\ elsewhere i gs gs' /\
    stock <$> gs' !! i = stock <$> gs !! i.
Proof.
  intros Hrel Hinv He. cbn [net_step]. destruct (lines !! i) as [l|] eqn:Hl.
  2: { eexists _, gs. split_and!; [done|by apply (net_inv_mono N); [lia|]|done|done]. }
  destruct (ni_line _ _ _ _ _ Hinv Hl) as (g & w & Hg & Hw & Hli).
  destruct Hli as [Hk Hwa Hsame Hrm Hsm (up & Hsd & Hup & Hrd & _) (subs & sent & Hat & Hdn & Hcg) Hct Hfi].
  destruct (sub_call_collecting _ (ln_sub l) _ _ up e Hrel Hcg Hsd) as (s' & -> & Hcg' & Hsd' & Hp').
  eexists _, (<[i := mk_ghost (g_asked g ++ [e]) (g_known g) (sub_prefixes s') (g_queue g) (g_coming g)]> gs).
  split_and!; [done| |apply elsewhere_insert|rewrite Hg, list_lookup_insert_eq by (by eapply lookup_lt_Some); done].
  eapply net_inv_local; [exact Hinv|exact Hl|exact Hg|exact Hw| |done|cbn; rewrite length_app; cbn; lia].
  pose proof (cg_max _ _ _ _ _ Hcg') as Hm'.
  split; cbn; [done|done| |done|by rewrite Hm'| | |done|done].
  - rewrite foldl_after_app. intros q. rewrite <- (Hp' q), Hwa. by apply subs_after_same.
  - exists (up ++ event_wire e). pose proof (len_nonneg (event_wire e)). split_and!; [done|lia|rewrite len_app; lia| |].
    2: { rewrite zdrop_app_le by lia. intros [_ E]%app_nil. by apply event_wire_nonempty in E. }
    destruct Hrd as [Hrd1 Hrd2 Hrd3 Hrd4 Hrd5]. split; try done.
    + apply Forall_app. split; [done|]. constructor; [by rewrite Hrm|done].
    + rewrite zdrop_app_le by lia. rewrite app_assoc, Hrd5. unfold events_wire. rewrite fmap_app, concat_app. cbn. by rewrite app_nil_r.
  - exists subs, sent. split_and!; [done|lia|lia|]. by rewrite Hm'.
Qed.

Lemma sending_wire (b : SocketBase S K) up queued : sending b up queued -> wire_bytes b = up.
Proof. intros ((str & Hs & Hw) & _). unfold wire_bytes. by rewrite Hs. Qed.

(** The next bytes, and those after them. *)
Lemma next_bytes_split k pos (w : bytes) :
  0 <= pos <= len w ->
  zdrop pos w = next_bytes k pos w ++ zdrop (pos + len (next_bytes k pos w)) w /\ 0 <= pos + len (next_bytes k pos w) <= len w.
Proof.
  intros Hp. unfold next_bytes. rewrite ztake_zdrop_min, len_zdrop by lia. split; [|lia].
  destruct (Z.le_gt_cases (Z.of_nat k) (len w - pos)).
  - rewrite Z.min_l by lia. rewrite <- zdrop_zdrop by lia. by rewrite ztake_zdrop.
  - rewrite Z.min_r by lia. rewrite (zdrop_ge (pos + _)), app_nil_r by lia. rewrite ztake_ge; [done|]. rewrite len_zdrop by lia. lia.
Qed.

Lemma sum_element {A} (f : A -> nat) (l : list A) i x : l !! i = Some x -> (f x <= sum_list_with f l)%nat.
Proof. revert i. induction l as [|z l IH]; intros [|i] E; try done; cbn; [injection E as ->; lia|]. specialize (IH i E). lia. Qed.

Lemma step_up N p lines gs i k cuts :
  N < 2 ^ 64 -> net_inv N (mk_net p lines) gs ->
  exists n' gs', net_step clock (mk_net p lines) (Up i k cuts) = Some (Done, n') /\ net_inv N n' gs' /\ elsewhere i gs gs' /\
    stock <$> gs' !! i = stock <$> gs !! i /\ forall g, gs !! i = Some g -> g_asked g = [] -> gs' !! i = Some g.
Proof.
  intros HN Hinv. cbn [net_step]. destruct (lines !! i) as [l|] eqn:Hl; [|by eexists _, gs].
  destruct (sent_to p i) as [w0|]; [|by eexists _, gs].
  destruct (ni_line _ _ _ _ _ Hinv Hl) as (g & w & Hg & Hw & Hli).
  destruct Hli as [Hk Hwa Hsame Hrm Hsm (up & Hsd & Hup & Hrd & Hidle) Hdn Hct Hfi].
  rewrite (sending_wire _ _ _ Hsd). destruct (next_bytes_split k (ln_up l) up Hup) as [Hz Hup']. set (t := next_bytes k (ln_up l) up) in *.
  destruct (pieces_spec cuts t) as (Hc & Hne & _).
  assert (Hat : ((λ l, rd_subs (ln_reader l)) <$> lines) !! i = Some (rd_subs (ln_reader l))) by (by rewrite list_lookup_fmap, Hl).
  destruct (insert_perm _ _ _ Hat) as (others & Hperm & Hins). pose proof (ni_union _ _ _ Hinv) as Hu.
  cbn [pn_pub pn_lines] in Hu. apply (union_inv_perm _ _ _ Hperm) in Hu. rewrite Hz, <- Hc in Hrd.
  destruct (reader_run_events _ _ _ (pub_shared p) others _ Hrd Hu) as (es1 & es2 & r & sh & Hes & -> & Hrd' & Hu' & Hsubs & Hb & Hm & Hend).
  cbn [mbind option_bind].
  pose proof (sum_element (λ g, length (g_asked g)) gs i g Hg) as Hle. cbn beta in Hle. pose proof (ni_budget _ _ _ Hinv) as Hbud.
  pose proof (f_equal length Hes) as Hel. rewrite length_app in Hel.
  cbn [pn_pub] in Hbud. destruct (ni_cache _ _ _ Hinv) as [Hc1 _]. cbn [pn_pub] in Hc1. destruct Hb as [Hb1 Hb2]; [lia|lia|].
  eexists _, (<[i := mk_ghost es2 (rd_subs r) (g_wants g) (g_queue g) (g_coming g)]> gs).
  split_and!; [done| |apply elsewhere_insert|rewrite Hg, list_lookup_insert_eq by (by eapply lookup_lt_Some); done|].
  - eapply net_inv_line; [exact Hinv|exact Hl|exact Hg|exact Hw| | |lia|done|cbn; lia].
    + split; cbn; try done; [|congruence|].
      * by rewrite Hsubs, Hk, <- foldl_app, <- Hes.
      * rewrite Hc in Hrd', Hend. exists up. split_and!; [done|lia|lia|exact Hrd'|]. intros E.
        destruct (decide (pieces cuts t = [])) as [Ep|Hp]; [|by apply Hend].
        rewrite Ep in Hc. cbn in Hc. rewrite Hidle in Hes by (rewrite Hz, E, <- Hc; done). by symmetry in Hes; apply app_nil in Hes as [_ ->].
    + rewrite list_fmap_insert. apply (union_inv_perm (rd_subs r :: others)); [by rewrite Hins|done].
  - intros g0 [= <-]%(eq_trans (eq_sym Hg)) Ea. rewrite list_lookup_insert_eq by (by eapply lookup_lt_Some).
    rewrite Ea in Hes. symmetry in Hes. apply app_nil in Hes as [-> ->].
    cbn in Hsubs. rewrite Hsubs, Hk. destruct g. cbn in *. by rewrite Ea.
Qed.

(** What a subscriber is still to get does not change. *)
Definition carried (g g' : Ghost) : Prop :=
  g_asked g' = g_asked g /\ g_known g' = g_known g /\ g_wants g' = g_wants g /\
  g_coming g' ++ List.filter (worker_matches (g_known g)) (g_queue g') =
  g_coming g ++ List.filter (worker_matches (g_known g)) (g_queue g) /\
  stock g' `sublist_of` stock g.

Lemma carried_refl g : carried g g.
Proof. by split_and!. Qed.

Lemma carried_insert i g g' gs : gs !! i = Some g -> carried g g' -> Forall2 carried gs (<[i := g']> gs).
Proof.
  intros Hg Hc. apply Forall2_same_length_lookup. rewrite length_insert. split; [done|]. intros k x y Hx.
  destruct (decide (k = i)) as [->|Hk].
  - rewrite list_lookup_insert_eq by (by eapply lookup_lt_Some). intros [= <-]. rewrite Hg in Hx. by injection Hx as <-.
  - rewrite list_lookup_insert_ne by done. rewrite Hx. by intros [= ->].
Qed.

Lemma carried_all gs : Forall2 carried gs gs.
Proof. induction gs as [|g gs IH]; constructor; [apply carried_refl|done]. Qed.

Lemma sent_to_at p i w subs sent q sent' :
  home p i = Some w -> at_worker (line_id i) w subs sent q -> sent_to p i = Some sent' ->
  sent' = sent /\ q = bcasts (wk_queue w).
Proof.
  intros Hw Ha. unfold sent_to. rewrite Hw. cbn [mbind option_bind].
  destruct Ha as [(sub & -> & _ & <- & ->)|(pre & sub & post & -> & _)]; [|done]. cbn. by intros [= <-].
Qed.

Lemma step_down N p lines gs i k cuts :
  net_inv N (mk_net p lines) gs ->
  exists n' gs', net_step clock (mk_net p lines) (Down i k cuts) = Some (Done, n') /\ net_inv N n' gs' /\ Forall2 carried gs gs'.
Proof.
  intros Hinv. cbn [net_step]. destruct (lines !! i) as [l|] eqn:Hl; [|eexists _, gs; split_and!; [done|done|apply carried_all]].
  destruct (sent_to p i) as [w0|] eqn:Esent; [|eexists _, gs; split_and!; [done|done|apply carried_all]].
  destruct (ni_line _ _ _ _ _ Hinv Hl) as (g & w & Hg & Hw & Hli).
  destruct Hli as [Hk Hwa Hsame Hrm Hsm (up & Hsd & Hup & Hrd & Hidle) (subs & sent & Hat & Hdn & Hcg) Hct Hfi].
  destruct (sent_to_at p i w subs sent _ w0 Hw Hat Esent) as [-> _].
  destruct (next_bytes_split k (ln_down l) sent Hdn) as [Hz Hdn']. set (t := next_bytes k (ln_down l) sent) in *.
  destruct (pieces_spec cuts t) as (Hc & Hne & _). rewrite Hz, <- Hc in Hcg.
  destruct (collecting_deliver _ _ _ _ _ _ Hcg Hne) as [Hcg' _].
  eexists _, (<[i := g]> gs). split_and!; [done| |by apply (carried_insert i g); [|apply carried_refl]].
  eapply net_inv_local; [exact Hinv|exact Hl|exact Hg|exact Hw| |done|lia]. split; cbn; try done.
  - exists up. split_and!; [|lia|lia|done|done]. destruct Hsd as ((str & Hs & Hw') & Hq). split; [|exact Hq].
    destruct (deliver_pieces (pieces cuts t) str) as [_ Hd]. exists (foldl Arrival.deliver str (pieces cuts t)).
    split; [by cbn; rewrite Hs|]. by rewrite Hd.
  - exists subs, sent. rewrite Hc in Hcg'. split_and!; [done|lia|lia|exact Hcg'].
Qed.

Lemma sendable_mono max max' m : max <= max' -> sendable max m -> sendable max' m.
Proof. intros Hm [Hne Ha]. split; [done|]. apply (list.Forall_impl _ _ _ Ha). intros x []. lia. Qed.

Definition set_coming (g : Ghost) (ms : list (list bytes)) : Ghost :=
  mk_ghost (g_asked g) (g_known g) (g_wants g) (g_queue g) ms.

(** The first message that is wanted, if it has arrived, or nothing; [later] is
    still on the way. *)
Definition took (i : nat) (e : net_event) (later : bytes) (gs gs' : list Ghost) : Prop :=
  elsewhere i gs gs' /\
  match gs !! i with
  | None => e = Waits /\ gs' !! i = None
  | Some g => exists pre ms, gs' !! i = Some (set_coming g ms) /\ wanted (g_wants g) pre = [] /\
      ((exists m, g_coming g = pre ++ m :: ms /\ sub_matches (g_wants g) m = true /\ e = Got i m) \/
       (g_coming g = pre ++ ms /\ e = Waits /\ unarrived later ms))
  end.

(** What has been written to subscriber [i] and has not arrived. *)
Definition later_of n (i : nat) (l : Line S K) : bytes := from_option (zdrop (ln_down l)) [] (sent_to (pn_pub n) i).

Lemma step_take N p lines gs i :
  net_inv N (mk_net p lines) gs ->
  exists e n' gs' later, net_step clock (mk_net p lines) (Take i) = Some (e, n') /\ net_inv N n' gs' /\ took i e later gs gs' /\
    pn_pub n' = p /\
    forall l, lines !! i = Some l -> exists l', pn_lines n' !! i = Some l' /\ ln_down l' = ln_down l /\
      (forall sent, sent_to p i = Some sent -> later = zdrop (ln_down l) sent).
Proof.
  intros Hinv. cbn [net_step]. destruct (lines !! i) as [l|] eqn:Hl.
  2: { eexists _, _, gs, []. split_and!; [done|done| |done|done]. split; [done|]. apply lookup_ge_None in Hl.
       pose proof (ni_length _ _ _ Hinv) as Hlen. cbn in Hlen. by rewrite !(proj2 (lookup_ge_None gs i)) by lia. }
  destruct (ni_line _ _ _ _ _ Hinv Hl) as (g & w & Hg & Hw & Hli).
  destruct Hli as [Hk Hwa Hsame Hrm Hsm (up & Hsd & Hup & Hrd & Hidle) (subs & sent & Hat & Hdn & Hcg) Hct Hfi].
  destruct (sub_takes clock _ (ln_sub l) _ _ up Hcg Hsd) as (o & b' & fr & ms & pre & E & Hcg' & Hsd' & Hpre & Hres).
  rewrite E. cbn [mbind option_bind]. rewrite Hwa in *. pose proof (cg_max _ _ _ _ _ Hcg') as Hm'.
  assert (Hsuf : exists k, g_coming g = k ++ ms).
  { destruct Hres as [(m & -> & _)|(-> & _)]; [exists (pre ++ [m])|exists pre]; by rewrite <- ?app_assoc. }
  assert (Hnew : net_inv N (mk_net p (<[i := mk_line (ln_reader l) (mk_sub b' fr (g_wants g)) (ln_up l) (ln_down l)]> lines))
    (<[i := set_coming g ms]> gs)).
  { eapply net_inv_local; [exact Hinv|exact Hl|exact Hg|exact Hw| |done|cbn; lia]. split; cbn; try done.
    - by rewrite Hm'.
    - exists up. split_and!; try done; lia.
    - exists subs, sent. split_and!; [done|lia|lia|by rewrite Hm'].
    - destruct Hsuf as [k Hsuf]. rewrite Hsuf, <- app_assoc in Hfi. by apply Forall_app in Hfi as [_ ?]. }
  assert (Htaken : forall e, ((exists m, g_coming g = pre ++ m :: ms /\ sub_matches (g_wants g) m = true /\ e = Got i m) \/
       (g_coming g = pre ++ ms /\ e = Waits /\ unarrived (zdrop (ln_down l) sent) ms)) ->
      took i e (zdrop (ln_down l) sent) gs (<[i := set_coming g ms]> gs)).
  { intros e He. split; [apply elsewhere_insert|]. rewrite Hg. exists pre, ms.
    split; [|done]. rewrite list_lookup_insert_eq by (by eapply lookup_lt_Some). done. }
  assert (Hline : forall l0, Some l = Some l0 -> exists l',
    <[i := mk_line (ln_reader l) (mk_sub b' fr (g_wants g)) (ln_up l) (ln_down l)]> lines !! i = Some l' /\ ln_down l' = ln_down l0 /\
    (forall sent', sent_to p i = Some sent' -> zdrop (ln_down l) sent = zdrop (ln_down l0) sent')).
  { intros l0 [= <-]. eexists. split; [by apply list_lookup_insert_eq; eapply lookup_lt_Some|]. split; [done|].
    intros sent' Es. by destruct (sent_to_at p i w subs sent _ sent' Hw Hat Es) as [-> _]. }
  destruct Hres as [(m & Hc & Hmm & ->)|(Hc & -> & Hun)].
  - eexists _, _, _, _. split; [done|]. split; [exact Hnew|]. split; [apply Htaken; left; by exists m|]. split; [done|exact Hline].
  - exists Waits. eexists _, _, _. unfold idle_outcome. split; [by destruct (recv_timeout (options (sub_base (ln_sub l))))|].
    split; [exact Hnew|]. split; [apply Htaken; by right|]. split; [done|exact Hline].
Qed.

Lemma choose_all {A B} (R : nat -> A -> B -> Prop) (l : list A) :
  (forall i x, l !! i = Some x -> exists y, R i x y) ->
  exists l', length l' = length l /\ forall i x y, l !! i = Some x -> l' !! i = Some y -> R i x y.
Proof.
  induction l as [|x l IH] using rev_ind; intros Hall; [by exists []|].
  destruct IH as (l' & Hlen & Hl'). { intros i y Hy. apply (Hall i y). rewrite lookup_app_l; [done|by eapply lookup_lt_Some]. }
  destruct (Hall (length l) x) as [y Hy]; [by rewrite list_lookup_middle|]. exists (l' ++ [y]).
  rewrite !length_app, Hlen. split; [done|]. intros i a b.
  destruct (decide (i < length l)%nat) as [Hi|Hi].
  - rewrite !lookup_app_l by lia. apply Hl'.
  - intros Ha Hb. assert (i = length l) as ->.
    { apply lookup_lt_Some in Ha. rewrite length_app in Ha. cbn in Ha. lia. }
    rewrite list_lookup_middle in Ha by done. rewrite list_lookup_middle in Hb by done. congruence.
Qed.

(** The workers change; the lines follow. *)
Lemma net_inv_workers N p lines gs ws' (R : Ghost -> Ghost -> Prop) :
  net_inv N (mk_net p lines) gs -> length ws' = length (pub_workers p) ->
  Forall (worker_ok (λ id, 1 <= id <= len lines)) ws' -> Forall (λ w, 0 <= wk_count w) ws' ->
  (forall i l g w w', lines !! i = Some l -> home p i = Some w -> ws' !! (i mod length (pub_workers p))%nat = Some w' ->
     line_inv w i l g -> exists g', line_inv w' i l g' /\ g_asked g' = g_asked g /\ R g g') ->
  exists gs', net_inv N (mk_net (set_workers p ws') lines) gs' /\ Forall2 R gs gs'.
Proof.
  intros Hinv Hlen Hok Hct Hstep. pose proof Hinv as [Hwk Ht Hgl Hli Hu Hs Hc Hb Hr]. cbn [pn_pub pn_lines] in *.
  assert (Hhome : forall i w, home p i = Some w -> exists w', ws' !! (i mod length (pub_workers p))%nat = Some w').
  { intros i w Hw. apply lookup_lt_is_Some_2. rewrite Hlen. by eapply lookup_lt_Some. }
  destruct (choose_all (λ i g g', forall l, lines !! i = Some l -> exists w', ws' !! (i mod length (pub_workers p))%nat = Some w' /\
    line_inv w' i l g' /\ g_asked g' = g_asked g /\ R g g') gs) as (gs' & Hl' & Hall).
  { intros i g Hg. destruct (lines !! i) as [l|] eqn:Hl; [|by exists g]. destruct (Hli i l g Hl Hg) as (w & Hw & Hi).
    destruct (Hhome i w Hw) as [w' Hw']. destruct (Hstep i l g w w' Hl Hw Hw' Hi) as (g' & Hg'). exists g'.
    intros l0 [= <-]. by exists w'. }
  assert (Hlines : forall i g g', gs !! i = Some g -> gs' !! i = Some g' -> exists l, lines !! i = Some l).
  { intros i g g' Hg _. apply lookup_lt_is_Some_2. rewrite <- Hgl. by eapply lookup_lt_Some. }
  assert (HR : Forall2 (λ g g', g_asked g' = g_asked g /\ R g g') gs gs').
  { apply Forall2_same_length_lookup. split; [done|]. intros i g g' Hg Hg'. destruct (Hlines i g g' Hg Hg') as [l Hl].
    destruct (Hall i g g' Hg Hg' l Hl) as (w' & _ & _ & Ha & HR). done. }
  exists gs'. split; [|by eapply list.Forall2_impl; [exact HR|]; intros ? ? []].
  split; cbn [pn_pub pn_lines set_workers pub_workers pub_next_worker pub_next_id pub_shared pub_is_poisoned pub_local_gen
    pub_local_union pub_options]; try done.
  - split_and!; [|done|done]. destruct Hwk as [Hne _]. intros E. apply Hne, nil_length_inv. by rewrite <- Hlen, E.
  - by rewrite Hlen.
  - congruence.
  - intros i l g' Hl Hg'. destruct (lookup_lt_is_Some_2 gs i) as [g Hg]; [rewrite <- Hl'; by eapply lookup_lt_Some|].
    destruct (Hall i g g' Hg Hg' l Hl) as (w' & Hw' & Hi & _). exists w'. unfold home. cbn. by rewrite Hlen.
  - assert (Hsum : sum_list_with (λ g, length (g_asked g)) gs' = sum_list_with (λ g, length (g_asked g)) gs).
    { clear -HR. induction HR as [|g g' gs gs' [Ha _] HR IH]; [done|]. cbn. by rewrite Ha, IH. }
    by rewrite Hsum.
Qed.

Lemma filter_shorter {A} (f : A -> bool) l : List.filter f l `sublist_of` l.
Proof. induction l as [|x l IH]; [done|]. cbn. destruct (f x); [by apply sublist_skip|by apply sublist_cons]. Qed.

Lemma step_work N p lines gs j :
  reliable (S := S) -> net_inv N (mk_net p lines) gs ->
  exists n' gs', net_step clock (mk_net p lines) (Work j) = Some (Done, n') /\ net_inv N n' gs' /\ Forall2 carried gs gs'.
Proof.
  intros Hrel Hinv. cbn [net_step]. destruct (pub_workers p !! j) as [w|] eqn:Hj.
  2: { eexists _, gs. split_and!; [done|done|apply carried_all]. }
  pose proof (ni_workers _ _ _ Hinv) as (_ & Hok & Hct). cbn [pn_pub pn_lines] in Hok, Hct.
  pose proof (Forall_lookup_1 _ _ _ _ Hok Hj) as Hw. pose proof (Forall_lookup_1 _ _ _ _ Hct Hj) as Hwc.
  destruct (worker_step_at _ (seeing lines w) Hrel (seeing_ok _ lines w Hw)) as (Hok' & Hc' & _ & Hat).
  edestruct (net_inv_workers N p lines gs (<[j := worker_step (seeing lines w)]> (pub_workers p)) carried) as (gs' & Hinv' & HR);
    [done|by rewrite length_insert|by apply Forall_insert|apply Forall_insert; [done|cbn beta; rewrite Hc'; exact Hwc]| |
     by eexists _, gs'].
  intros i l g w1 w' Hl Hw1 Hw' Hli. unfold home in Hw1. destruct (decide (i mod length (pub_workers p) = j)%nat) as [Ej|Ej].
  2: { rewrite list_lookup_insert_ne in Hw' by done. rewrite Hw1 in Hw'. injection Hw' as <-. exists g. split_and!; [done|done|apply carried_refl]. }
  rewrite Ej in *. rewrite list_lookup_insert_eq in Hw' by (by eapply lookup_lt_Some). injection Hw' as <-.
  rewrite Hj in Hw1. injection Hw1 as <-.
  destruct Hli as [Hk Hwa Hsame Hrm Hsm Hup (subs & sent & Ha & Hdn & Hcg) Hco Hfi].
  apply (seeing_at lines l i w) in Ha; [|done]. apply Hat in Ha as (ms & q' & Eq & Ha). rewrite Hk in Ha.
  set (new := List.filter (worker_matches (g_known g)) ms).
  exists (mk_ghost (g_asked g) (g_known g) (g_wants g) q' (g_coming g ++ new)).
  assert (Hnew : Forall (sendable smax) new).
  { rewrite Eq in Hfi. rewrite !Forall_app in Hfi. destruct Hfi as (_ & H3 & _). apply list.Forall_forall.
    intros x [Hx _]%list_elem_of_In%filter_In. rewrite list.Forall_forall in H3. by apply H3, list_elem_of_In. }
  split_and!; [|done|].
  - split; cbn; try done.
    + exists (g_known g), (sent ++ slice_of (g_known g) ms). change (slice_of (g_known g) ms) with (wire_of new).
      pose proof (len_nonneg (wire_of new)). split_and!; [done|lia|rewrite len_app; lia|].
      rewrite zdrop_app_le by lia. apply collecting_written_all; [done|]. apply (list.Forall_impl _ _ _ Hnew). intros x. by apply sendable_mono.
    + rewrite Hc'. exact Hco.
    + rewrite Eq in Hfi. rewrite !Forall_app in Hfi |- *. destruct Hfi as (H1 & H3 & H4). by split_and!.
  - unfold carried, stock. cbn. rewrite Eq, List.filter_app, <- !app_assoc. split_and!; try done.
    apply sublist_app; [done|]. apply sublist_app; [apply filter_shorter|done].
Qed.

(** The message is put before a subscriber, unless a channel was full or the
    publisher knows no subscription that selects it. *)
Definition offered (m : list bytes) (e : net_event) (g g' : Ghost) : Prop :=
  g' = mk_ghost (g_asked g) (g_known g) (g_wants g) (g_queue g ++ [m]) (g_coming g) \/
  (g' = g /\ (e = Dropped \/ worker_matches (g_known g) m = false)).

Lemma net_inv_cache N p lines gs u lg :
  net_inv N (mk_net p lines) gs -> 0 <= lg <= shared_gen (pub_shared p) ->
  (lg = shared_gen (pub_shared p) -> u = shared_union (pub_shared p)) -> net_inv N (mk_net (set_local p u lg) lines) gs.
Proof. intros [? ? ? ? ? ? ? ? ?] H1 H2. by split. Qed.

Lemma prefilter_ok N p lines gs topic :
  net_inv N (mk_net p lines) gs ->
  exists allowed p', prefilter_allows p topic = (allowed, p') /\ net_inv N (mk_net p' lines) gs /\
    pub_workers p' = pub_workers p /\ pub_options p' = pub_options p /\ pub_drop_count p' = pub_drop_count p /\
    pub_is_poisoned p' = pub_is_poisoned p /\
    (allowed = false -> union_matches (shared_union (pub_shared p)) topic = false).
Proof.
  intros Hinv. unfold prefilter_allows. destruct (invert_matching (pub_options p)); [exists true, p; by split_and!|].
  pose proof (ni_cache _ _ _ Hinv) as [Hc1 Hc2]. cbn [pn_pub] in *. unfold refresh.
  destruct (Z.eqb_spec (shared_gen (pub_shared p)) (pub_local_gen p)) as [E|E].
  - eexists _, _. split; [done|]. rewrite Hc2 by done. split_and!; try done. by apply net_inv_cache.
  - eexists _, _. split; [done|]. split_and!; try done. apply net_inv_cache; [done|lia|done].
Qed.

Lemma step_publish N p lines gs m waits :
  net_inv N (mk_net p lines) gs -> sendable smax m ->
  exists e n' gs', net_step clock (mk_net p lines) (Publish m waits) = Some (e, n') /\ (e = Sent \/ e = Dropped) /\
    net_inv N n' gs' /\ Forall2 (offered m e) gs gs'.
Proof.
  intros Hinv Hm. cbn [net_step]. unfold pub_send. pose proof (ni_sound _ _ _ Hinv) as Hpo. cbn [pn_pub] in Hpo. rewrite Hpo.
  destruct m as [|topic rest]; [by destruct Hm|].
  destruct (prefilter_ok N p lines gs topic Hinv) as (allowed & p1 & -> & Hinv1 & Hw1 & Ho1 & Hd1 & _ & Hfalse).
  destruct allowed; cbn [negb].
  2: { rewrite Hd1, Z.eqb_refl. eexists _, _, gs. split_and!; [done|by left|done|].
       apply Forall2_same_length_lookup. split; [done|]. intros i g g' Hg Hg'. rewrite Hg in Hg'. injection Hg' as <-.
       right. split; [done|right]. specialize (Hfalse eq_refl). pose proof (ni_union _ _ _ Hinv) as Hu. cbn [pn_lines pn_pub] in Hu.
       rewrite (union_matches_spec _ _ topic rest Hu) in Hfalse. destruct (lookup_lt_is_Some_2 lines i) as [l Hl].
       { pose proof (ni_length _ _ _ Hinv) as Hlen. cbn in Hlen. rewrite <- Hlen. by eapply lookup_lt_Some. }
       destruct (ni_lines _ _ _ Hinv i l g Hl Hg) as (w & _ & Hli). rewrite <- (lv_known _ _ _ _ Hli).
       destruct (worker_matches (rd_subs (ln_reader l)) (topic :: rest)) eqn:E; [|done]. rewrite <- Hfalse. symmetry.
       apply existsb_exists. exists (rd_subs (ln_reader l)). split; [|done].
       rewrite <- list_elem_of_In. apply list_elem_of_fmap. exists l. split; [done|]. by eapply list_elem_of_lookup_2. }
  pose proof (ni_workers _ _ _ Hinv1) as (_ & Hok & Hct). cbn [pn_pub pn_lines] in Hok, Hct.
  destruct (dispatch_ok (send_hwm (pub_options p1)) waits 0 (pub_workers p1) (topic :: rest) (pub_drop_count p1)) as (ws' & d' & -> & Hd & Hws).
  { apply (list.Forall_impl _ _ _ Hok). intros w Hw. apply Hw. }
  rewrite <- Hd1. cbn [pub_drop_count]. set (e := if d' =? pub_drop_count p1 then Sent else Dropped).
  edestruct (net_inv_workers N p1 lines gs ws' (offered (topic :: rest) e)) as (gs' & Hinv' & HR).
  - done.
  - symmetry. by eapply Forall2_length.
  - apply Forall_lookup. intros j w' Hw'. destruct (Forall2_lookup_r _ _ _ _ _ Hws Hw') as (w & Hw & Hor).
    pose proof (Forall_lookup_1 _ _ _ _ Hok Hw) as Hokw. destruct Hor as [->|[-> _]]; [|done].
    apply enqueue_ok; [done|done|done|by intros ? []].
  - apply Forall_lookup. intros j w' Hw'. destruct (Forall2_lookup_r _ _ _ _ _ Hws Hw') as (w & Hw & Hor).
    pose proof (Forall_lookup_1 _ _ _ _ Hct Hw) as Hctw. destruct Hor as [->|[-> _]]; exact Hctw.
  - intros i l g w w' Hl Hw Hw' Hli. destruct (Forall2_lookup_lr _ _ _ _ _ _ Hws Hw Hw') as [->|[-> Hwhy]].
    + destruct Hli as [Hk Hwa Hsame Hrm Hsm Hup (subs & sent & Ha & Huw) Hco Hfi].
      exists (mk_ghost (g_asked g) (g_known g) (g_wants g) (g_queue g ++ [topic :: rest]) (g_coming g)).
      split_and!; [|done|by left]. split; cbn; try done.
      * exists subs, sent. split; [by apply (enqueue_at _ _ _ _ _ (Broadcast (topic :: rest)))|done].
      * rewrite !Forall_app in Hfi. destruct Hfi as (H1 & H2). rewrite !Forall_app. split_and!; try done. by constructor.
    + exists g. split_and!; [done|done|]. right. split; [done|left]. unfold e. destruct Hwhy as [Hz|Hlt].
      * pose proof (lv_count _ _ _ _ Hli). lia.
      * by rewrite (proj2 (Z.eqb_neq _ _)) by lia.
  - eexists e, _, gs'. split_and!; [done|unfold e; destruct (_ =? _); eauto| |exact HR].
    destruct Hinv' as [? ? ? ? ? ? ? ? ?]. by split.
Qed.

(** A SUB socket after its handshake. *)
Definition fresh_sub (s : SubSocket S K) : Prop :=
  sub_frames s = [] /\ sub_prefixes s = [] /\ smax <= max_frame_size (decoder (sub_base s)) /\
  linked (sub_base s) [] (wire_bytes (sub_base s)).

(** The worker after [accept_subscriber]. *)
Definition joined w (sub : WorkerSubscriber S K) : Worker S K :=
  enqueue (mk_worker (wk_subs w) (wk_count w + 1) (wk_queue w) (wk_running w)) (AddSubscriber sub).

Lemma joined_at id w (sub : WorkerSubscriber S K) subs sent q : at_worker id w subs sent q -> at_worker id (joined w sub) subs sent q.
Proof.
  intros Ha. rewrite <- (app_nil_r q). change [] with (bcasts (S := S) (K := K) [AddSubscriber sub]). by apply enqueue_at.
Qed.

Lemma joined_ok L w sub :
  worker_ok (λ id, 1 <= id <= L) w -> 0 <= L -> plain_sub sub -> ws_id sub = L + 1 -> worker_ok (λ id, 1 <= id <= L + 1) (joined w sub).
Proof.
  intros Hok HL Hp Hid. apply enqueue_ok; [|done|done|cbn; lia].
  apply (worker_ok_mono (λ id, 1 <= id <= L)); [lia|]. by destruct Hok as [? ? ? ? ?].
Qed.

Lemma joined_new w sub L :
  worker_ok (λ id, 1 <= id <= L) w -> ws_id sub = L + 1 -> at_worker (L + 1) (joined w sub) (ws_subs sub) (wire (ws_stream sub)) [].
Proof.
  intros [_ _ _ _ [Hi1 Hi2]] Hid. right. exists (wk_queue w), sub, []. split_and!; try done.
  - cbn. destruct (find_sub (L + 1) (wk_subs w)) as [x|] eqn:E; [|done]. apply List.find_some in E as [Hin Hx].
    rewrite list.Forall_forall in Hi1. apply list_elem_of_In, Hi1 in Hin. lia.
  - apply (list.Forall_impl _ _ _ Hi2). intros c Hc Ha%Hc. lia.
Qed.

Lemma fresh_line w (s : SubSocket S K) (srv : S) i o (sub : WorkerSubscriber S K) :
  fresh_sub s -> wire (ws_stream sub) = wire srv -> at_worker (line_id i) w (ws_subs sub) (wire (ws_stream sub)) [] -> 0 < wk_count w ->
  max_frame_size (rd_decoder (reader_new (K := K) o None)) = rmax ->
  line_inv w i (mk_line (reader_new o None) s (len (wire_bytes (sub_base s))) (len (wire srv))) (mk_ghost [] [] [] [] []).
Proof.
  intros (Hf & Hp & Hm & Hl) Hw Ha Hc Hr. split; cbn; try done.
  - exists (wire_bytes (sub_base s)). rewrite zdrop_ge by lia.
    pose proof (len_nonneg (wire_bytes (sub_base s))). split_and!; [apply Hl|lia|lia| |done].
    split; cbn; [by destruct o|apply segbuf_new_wf|done|constructor|by destruct o].
  - eexists _, _. split; [exact Ha|]. rewrite Hw, zdrop_ge by lia. pose proof (len_nonneg (wire srv)). split; [lia|]. rewrite Hf.
    by apply (collecting_between _ _ []); [|constructor|apply Hl|].
Qed.

Lemma step_join N p lines gs srv s :
  N + 1 < 2 ^ 64 -> net_inv N (mk_net p lines) gs -> fresh_sub s ->
  exists n' gs', net_step clock (mk_net p lines) (Join srv s) = Some (Done, n') /\ net_inv (N + 1) n' gs' /\
    exists g, gs' = gs ++ [g] /\ stock g = [].
Proof.
  intros HN [(Hne & Hok & Hct) [Ht1 Ht2] Hgl Hli Hu Hs [Hc1 Hc2] Hb Hr] Hfresh. cbn [pn_pub pn_lines] in *.
  set (n := length (pub_workers p)) in *. set (L := length lines) in *.
  assert (Hn : n <> 0%nat) by (intros E; by apply nil_length_inv in E).
  destruct (lookup_lt_is_Some_2 (pub_workers p) (L mod n)%nat) as [w Hw]; [by apply Nat.mod_upper_bound|].
  pose proof (Forall_lookup_1 _ _ _ _ Hok Hw) as Hokw. pose proof (Forall_lookup_1 _ _ _ _ Hct Hw) as Hctw. cbn beta in Hctw.
  set (sub := mk_worker_sub (line_id L) srv [] (@None (CurveMessageCipher K))).
  cbn [net_step]. unfold pub_accept. rewrite Ht1, Nat2Z.id, Hw, Ht2. cbn [mbind option_bind wk_running shared_update].
  assert (negb (wk_running w) = false) as -> by (by rewrite (wo_running _ _ Hokw)). cbn [mbind option_bind]. fold sub. fold (joined w sub).
  eexists _, (gs ++ [mk_ghost [] [] [] [] []]). split_and!; [done| |eauto].
  assert (Hlen : len (lines ++ [mk_line (reader_new (max_msg_size (pub_options p)) None) s (len (wire_bytes (sub_base s))) (len (wire srv))]) = len lines + 1)
    by (by rewrite len_app).
  pose proof (len_nonneg lines) as Hnn. assert (HL : line_id L = len lines + 1) by done.
  split; cbn [pn_pub pn_lines pub_workers pub_next_worker pub_next_id pub_shared pub_is_poisoned pub_local_gen pub_local_union pub_options shared_gen shared_union];
    rewrite ?length_insert, ?length_app; cbn [length]; fold n; fold L.
  - rewrite Hlen. split_and!.
    + intros E. apply (f_equal length) in E. by rewrite length_insert in E.
    + apply Forall_insert; [|by apply joined_ok]. apply (list.Forall_impl _ _ _ Hok). intros x. apply worker_ok_mono. lia.
    + apply Forall_insert; [done|]. cbn. lia.
  - split; [|unfold line_id; lia]. unfold len. fold n. rewrite !Nat2Z.inj_mod, Nat2Z.inj_add. by rewrite Z.add_mod_idemp_l by lia.
  - congruence.
  - intros i l g. unfold home. cbn [pub_workers]. rewrite length_insert. fold n. destruct (decide (i < L)%nat) as [Hi|Hi].
    + rewrite !lookup_app_l by (unfold L in *; lia). intros Hl Hg. destruct (Hli i l g Hl Hg) as (w0 & Hw0 & Hinv0). unfold home in Hw0. fold n in Hw0.
      destruct (decide (i mod n = L mod n)%nat) as [E|E]; [|rewrite list_lookup_insert_ne by done; by exists w0].
      rewrite E in *. rewrite list_lookup_insert_eq by (by eapply lookup_lt_Some). exists (joined w sub). split; [done|].
      rewrite Hw in Hw0. injection Hw0 as <-. destruct Hinv0 as [? ? ? ? ? ? (subs & sent & Ha & Huw) Hco ?]. split; try done; [|cbn; lia].
      exists subs, sent. split; [by apply joined_at|done].
    + intros Hl Hg. assert (i = L) as -> by (apply lookup_lt_Some in Hl; rewrite length_app in Hl; cbn in Hl; unfold L in *; lia).
      rewrite list_lookup_middle in Hl by done. rewrite list_lookup_middle in Hg by (by rewrite Hgl). injection Hl as <-. injection Hg as <-.
      rewrite list_lookup_insert_eq by (by eapply lookup_lt_Some). eexists. split; [done|].
      apply (fresh_line _ _ _ _ _ sub); try done; [by rewrite HL; apply joined_new|cbn; lia].
  - rewrite fmap_app. by apply union_add_inv.
  - done.
  - unfold next_generation. rewrite Z.mod_small by lia. split; [lia|]. intros. lia.
  - unfold next_generation. rewrite Z.mod_small by lia. rewrite sum_list_with_app. cbn. lia.
  - done.
Qed.

(** ** The ledger *)

Definition net_fits (op : net_op S K) : Prop :=
  match op with Join _ s => fresh_sub s | Call _ e => event_fits rmax e | Publish m _ => sendable smax m | _ => True end.

Definition calls_of (i : nat) (op : net_op S K) : bool := match op with Call k _ => bool_decide (k = i) | _ => false end.

(** What there is for subscriber [i], and what of it will reach its application. *)
Definition stock_of (gs : list Ghost) (i : nat) : list (list bytes) := from_option stock [] (gs !! i).
Definition owed (g : Ghost) : list (list bytes) :=
  wanted (g_wants g) (g_coming g ++ List.filter (worker_matches (g_known g)) (g_queue g)).

(** Nothing comes twice, out of order or from nowhere; and a subscriber whose
    subscriptions have reached the publisher and do not change gets what it wants. *)
Definition ledger (i : nat) (ops : list (net_op S K)) (es : list net_event) (gs gs' : list Ghost) : Prop :=
  received i es ++ stock_of gs' i `sublist_of` stock_of gs i ++ published ops /\
  forall g, gs !! i = Some g -> exists g', gs' !! i = Some g' /\
    (g_asked g = [] -> existsb (calls_of i) ops = false -> Dropped ∉ es ->
     g_asked g' = [] /\ g_wants g' = g_wants g /\ received i es ++ owed g' = owed g ++ wanted (g_wants g) (published ops)).

Lemma wanted_app ps ms ms' : wanted ps (ms ++ ms') = wanted ps ms ++ wanted ps ms'.
Proof. apply List.filter_app. Qed.

Lemma ledger_trans i ops1 ops2 es1 es2 gs gs1 gs2 :
  ledger i ops1 es1 gs gs1 -> ledger i ops2 es2 gs1 gs2 -> ledger i (ops1 ++ ops2) (es1 ++ es2) gs gs2.
Proof.
  unfold ledger, received, published. rewrite !fmap_app, !concat_app, existsb_app. intros [Hs1 Hg1] [Hs2 Hg2]. split.
  - etrans; [|rewrite app_assoc; apply sublist_app; [exact Hs1|done]]. rewrite <- !app_assoc. by apply sublist_app.
  - intros g Hg. destruct (Hg1 g Hg) as (g1 & Hg1' & H1). destruct (Hg2 g1 Hg1') as (g2 & Hg2' & H2). exists g2.
    split; [done|]. intros Ha [Hc1 Hc2]%orb_false_iff Hd. rewrite not_elem_of_app in Hd. destruct Hd as [Hd1 Hd2].
    destruct (H1 Ha Hc1 Hd1) as (Ha1 & Hw1 & E1). destruct (H2 Ha1 Hc2 Hd2) as (Ha2 & Hw2 & E2). rewrite Hw1 in *.
    split_and!; [done|done|]. by rewrite <- app_assoc, E2, app_assoc, E1, wanted_app, <- app_assoc.
Qed.

Lemma ledger_nil i gs : ledger i [] [] gs gs.
Proof. split; [cbn; by rewrite app_nil_r|]. intros g Hg. exists g. split; [done|]. intros. cbn. by rewrite app_nil_r. Qed.

(** Steps that leave subscriber [i] as it was. *)
Lemma ledger_same i op e gs gs' :
  got_of i e = [] -> published_by op = [] -> gs' !! i = gs !! i -> ledger i [op] [e] gs gs'.
Proof.
  intros He Hp E. unfold ledger, received, published, stock_of. cbn. rewrite He, Hp, E. cbn. rewrite app_nil_r. split; [done|].
  intros g Hg. exists g. split; [done|]. by rewrite app_nil_r.
Qed.

Lemma ledger_none i op e gs gs' :
  gs !! i = None -> got_of i e = [] -> published_by op = [] -> stock_of gs' i = [] -> ledger i [op] [e] gs gs'.
Proof.
  intros Hn He Hp Hh. unfold ledger, received, published. cbn. rewrite He, Hp, Hh. cbn. split; [apply sublist_nil_l|].
  intros g Hg. by rewrite Hn in Hg.
Qed.

Lemma ledger_held i op e gs gs' :
  got_of i e = [] -> published_by op = [] -> stock <$> gs' !! i = stock <$> gs !! i ->
  (forall g, gs !! i = Some g -> calls_of i op = false -> g_asked g = [] -> gs' !! i = Some g) -> ledger i [op] [e] gs gs'.
Proof.
  intros He Hp Hh Hs. unfold ledger, received, published, stock_of. cbn. rewrite He, Hp. cbn. rewrite app_nil_r.
  destruct (gs !! i) as [g|]; destruct (gs' !! i) as [g'|]; try done; cbn in *.
  injection Hh as Hh. rewrite Hh. split; [done|]. intros g0 [= <-]. exists g'. split; [done|]. rewrite orb_false_r. intros Ha Hc _.
  specialize (Hs g eq_refl Hc Ha). injection Hs as ->. by rewrite app_nil_r.
Qed.

Lemma ledger_carried i op gs gs' : published_by op = [] -> Forall2 carried gs gs' -> ledger i [op] [Done] gs gs'.
Proof.
  intros Hp Hc. unfold ledger, received, published, stock_of. cbn. rewrite Hp. cbn. rewrite app_nil_r.
  split.
  - destruct (gs !! i) as [g|] eqn:Hg.
    + destruct (Forall2_lookup_l _ _ _ i g Hc Hg) as (g' & -> & _ & _ & _ & _ & Hh). exact Hh.
    + apply lookup_ge_None in Hg. rewrite (list.Forall2_length _ _ _ Hc) in Hg. by rewrite (proj2 (lookup_ge_None gs' i)).
  - intros g Hg. destruct (Forall2_lookup_l _ _ _ i g Hc Hg) as (g' & -> & Ha & Hk & Hw & E & _). exists g'. split; [done|].
    intros Hs _ _. split_and!; [congruence|done|]. unfold owed. rewrite Hw, Hk, E. by rewrite app_nil_r.
Qed.

Lemma taken_ledger i k e later gs gs' : took k e later gs gs' -> ledger i [Take k] [e] gs gs'.
Proof.
  intros [Helse Ht]. destruct (decide (i = k)) as [->|Hik].
  2: { apply ledger_same; [|done|by apply Helse]. destruct (gs !! k) as [g|]; [|by destruct Ht as [-> _]].
       destruct Ht as (pre & ms & _ & _ & [(m & _ & _ & ->)|(_ & -> & _)]); [|done]. cbn. by rewrite bool_decide_eq_false_2. }
  unfold ledger, received, published, stock_of. cbn. rewrite !app_nil_r. destruct (gs !! k) as [g|] eqn:Hg.
  2: { destruct Ht as [-> ->]. by split. }
  destruct Ht as (pre & ms & -> & Hpre & [(m & Hc & Hm & ->)|(Hc & -> & _)]); cbn.
  - rewrite bool_decide_eq_true_2 by done. cbn. split.
    + unfold stock. cbn. rewrite Hc, <- app_assoc. cbn. by apply sublist_inserts_l.
    + intros g0 [= <-]. eexists. split; [done|]. intros Ha _ _. split_and!; try done. unfold owed. cbn [g_wants g_coming g_known g_queue set_coming].
      rewrite Hc, app_nil_r, <- app_assoc, (wanted_app _ pre), Hpre. unfold wanted. cbn. by rewrite Hm.
  - split; [unfold stock; cbn; rewrite Hc, <- app_assoc; by apply sublist_inserts_l|]. intros g0 [= <-]. eexists. split; [done|].
    intros Ha _ _. split_and!; try done. unfold owed. cbn [g_wants g_coming g_known g_queue set_coming].
    by rewrite Hc, app_nil_r, <- app_assoc, (wanted_app _ pre), Hpre.
Qed.

(** The filters agree for a subscriber whose subscriptions have been read. *)
Lemma settled_filters w i l g m :
  line_inv w i l g -> g_asked g = [] -> m <> [] -> worker_matches (g_known g) m = sub_matches (g_wants g) m.
Proof.
  intros Hli Ha Hm. pose proof (lv_same _ _ _ _ Hli) as Hsame. rewrite Ha in Hsame. cbn in Hsame.
  destruct m as [|topic rest]; [done|]. by apply filters_same.
Qed.

Lemma offered_ledger i m waits e N n gs gs' :
  net_inv N n gs -> sendable smax m -> e = Sent \/ e = Dropped -> Forall2 (offered m e) gs gs' -> ledger i [Publish m waits] [e] gs gs'.
Proof.
  intros Hinv [Hm _] He Ho. assert (Hgot : received i [e] = []) by (by destruct He as [->| ->]).
  unfold ledger, stock_of. rewrite Hgot. cbn [app]. split.
  - destruct (gs !! i) as [g|] eqn:Hg.
    + destruct (Forall2_lookup_l _ _ _ i g Ho Hg) as (g' & -> & [->|[-> _]]); cbn [from_option].
      * unfold stock, published. cbn. by rewrite <- !app_assoc.
      * by apply sublist_inserts_r.
    + apply lookup_ge_None in Hg. rewrite (list.Forall2_length _ _ _ Ho) in Hg. rewrite (proj2 (lookup_ge_None gs' i)) by done. apply sublist_nil_l.
  - intros g Hg. destruct (Forall2_lookup_l _ _ _ i g Ho Hg) as (g' & -> & Hor). exists g'. split; [done|]. intros Ha _ Hd.
    destruct (lookup_lt_is_Some_2 (pn_lines n) i) as [l Hl]; [rewrite <- (ni_length _ _ _ Hinv); by eapply lookup_lt_Some|].
    destruct (ni_lines _ _ _ Hinv i l g Hl Hg) as (w & _ & Hli). pose proof (settled_filters w i l g m Hli Ha Hm) as Hfil.
    change (published [Publish m waits]) with [m]. destruct Hor as [->|[-> Hwhy]]; unfold owed; cbn [g_wants g_coming g_known g_queue g_asked].
    + assert (Hone : wanted (g_wants g) (List.filter (worker_matches (g_known g)) [m]) = wanted (g_wants g) [m]).
      { cbn. rewrite Hfil. destruct (sub_matches (g_wants g) m) eqn:E; cbn; [by rewrite E|done]. }
      split_and!; try done. by rewrite List.filter_app, !wanted_app, Hone, <- !app_assoc.
    + destruct Hwhy as [->|Hno]; [by destruct Hd; left|]. rewrite Hfil in Hno. split_and!; try done. cbn. rewrite Hno. by rewrite app_nil_r.
Qed.

Lemma net_step_ok N n gs op :
  reliable (S := S) -> N + 1 < 2 ^ 64 -> net_inv N n gs -> net_fits op ->
  exists e n' gs', net_step clock n op = Some (e, n') /\ net_inv (N + 1) n' gs' /\ forall i, ledger i [op] [e] gs gs'.
Proof.
  intros Hrel HN Hinv Hop. destruct n as [p lines]. assert (Hmono : forall n' gs', net_inv N n' gs' -> net_inv (N + 1) n' gs')
    by (intros n' gs'; apply net_inv_mono; lia).
  destruct op as [srv s|k ev|k b cuts|m waits|j|k b cuts|k]; cbn [net_fits] in Hop.
  - destruct (step_join N p lines gs srv s HN Hinv Hop) as (n' & gs' & E & Hinv' & g & -> & Hg). exists Done, n', (gs ++ [g]).
    split_and!; [done|done|]. intros i. destruct (decide (i < length gs)%nat) as [Hi|Hi].
    { apply ledger_same; [done|done|by rewrite lookup_app_l]. }
    apply ledger_none; [apply lookup_ge_None; lia|done|done|]. unfold stock_of. rewrite lookup_app_r by lia.
    destruct (i - length gs)%nat as [|k]; cbn; [done|]. by destruct k.
  - destruct (step_call N p lines gs k ev Hrel Hinv Hop) as (n' & gs' & E & Hinv' & Helse & Hheld). exists Done, n', gs'. split_and!; [done|done|].
    intros i. destruct (decide (i = k)) as [->|Hik]; [|by apply ledger_same; [| |apply Helse]].
    apply ledger_held; [done|done|done|]. intros g Hg Hno. cbn in Hno. by rewrite bool_decide_eq_true_2 in Hno.
  - destruct (step_up N p lines gs k b cuts) as (n' & gs' & E & Hinv' & Helse & Hheld & Hsame); [lia|done|]. exists Done, n', gs'.
    split_and!; [done|by apply Hmono|]. intros i. destruct (decide (i = k)) as [->|Hik]; [|by apply ledger_same; [| |apply Helse]].
    apply ledger_held; [done|done|done|]. intros g Hg _ Ha. by apply Hsame.
  - destruct (step_publish N p lines gs m waits Hinv Hop) as (e & n' & gs' & E & He & Hinv' & Ho). exists e, n', gs'.
    split_and!; [done|by apply Hmono|]. intros i. by eapply offered_ledger.
  - destruct (step_work N p lines gs j Hrel Hinv) as (n' & gs' & E & Hinv' & Hc). exists Done, n', gs'.
    split_and!; [done|by apply Hmono|]. intros i. by apply ledger_carried.
  - destruct (step_down N p lines gs k b cuts Hinv) as (n' & gs' & E & Hinv' & Hc). exists Done, n', gs'.
    split_and!; [done|by apply Hmono|]. intros i. by apply ledger_carried.
  - destruct (step_take N p lines gs k Hinv) as (e & n' & gs' & later & E & Hinv' & Ht & _). exists e, n', gs'.
    split_and!; [done|by apply Hmono|]. intros i. by eapply taken_ledger.
Qed.

Lemma net_run_app n ops1 ops2 :
  net_run clock n (ops1 ++ ops2) = ('(es1, n1) ← net_run clock n ops1; '(es2, n2) ← net_run clock n1 ops2; Some (es1 ++ es2, n2)).
Proof.
  revert n. induction ops1 as [|op ops1 IH]; intros n; cbn.
  - destruct (net_run clock n ops2) as [[es2 n2]|]; done.
  - destruct (net_step clock n op) as [[e n1]|]; [|done]. cbn. rewrite IH.
    destruct (net_run clock n1 ops1) as [[es1 n2]|]; [|done]. cbn. by destruct (net_run clock n2 ops2) as [[es2 n3]|].
Qed.

Lemma net_run_ok N n gs ops :
  reliable (S := S) -> N + len ops < 2 ^ 64 -> net_inv N n gs -> Forall net_fits ops ->
  exists es n' gs', net_run clock n ops = Some (es, n') /\ net_inv (N + len ops) n' gs' /\ forall i, ledger i ops es gs gs'.
Proof.
  intros Hrel HN Hinv Hops. revert N n gs HN Hinv. induction Hops as [|op ops Hop Hops IH]; intros N n gs HN Hinv; cbn [net_run].
  { exists [], n, gs. split_and!; [done|by apply (net_inv_mono N); [unfold len; cbn; lia|]|intros i; apply ledger_nil]. }
  rewrite len_cons in *. pose proof (len_nonneg ops). destruct (net_step_ok N n gs op Hrel ltac:(lia) Hinv Hop) as (e & n1 & gs1 & -> & Hinv1 & Hled1).
  cbn [mbind option_bind]. destruct (IH (N + 1) n1 gs1 ltac:(lia) Hinv1) as (es & n2 & gs2 & -> & Hinv2 & Hled2).
  exists (e :: es), n2, gs2. split_and!; [done|by replace (N + (1 + len ops)) with (N + 1 + len ops) by lia|].
  intros i. apply (ledger_trans i [op] ops [e] es gs gs1 gs2); [apply Hled1|apply Hled2].
Qed.

(** ** Draining *)

(** The worker of subscriber [i] catches up, its bytes arrive, and it receives. *)
Definition flush_ops (i : nat) n (bytes k : nat) : list (net_op S K) :=
  repeat (Work (i mod length (pub_workers (pn_pub n))))%nat (from_option (λ w, length (wk_queue w)) 0%nat (home (pn_pub n) i)) ++
  [Down i bytes []] ++ repeat (Take i) k.

Lemma works_drain N j k n gs w :
  reliable (S := S) -> net_inv N n gs -> pub_workers (pn_pub n) !! j = Some w -> (length (wk_queue w) <= k)%nat ->
  exists n' gs' w', net_run clock n (repeat (Work j) k) = Some (repeat Done k, n') /\ net_inv N n' gs' /\
    (forall i, ledger i (repeat (Work j) k) (repeat Done k) gs gs') /\
    pub_workers (pn_pub n') !! j = Some w' /\ wk_queue w' = [] /\
    length (pub_workers (pn_pub n')) = length (pub_workers (pn_pub n)) /\ pn_lines n' = pn_lines n.
Proof.
  intros Hrel. revert n gs w. induction k as [|k IH]; intros n gs w Hinv Hw Hk; cbn [repeat net_run].
  { exists n, gs, w. split_and!; try done; [intros i; apply ledger_nil|]. by apply nil_length_inv; lia. }
  destruct n as [p lines]. destruct (step_work N p lines gs j Hrel Hinv) as (n1 & gs1 & E & Hinv1 & Hc).
  pose proof E as E'. cbn [net_step] in E'. cbn [pn_pub] in Hw. rewrite Hw in E'. injection E' as <-.
  pose proof (ni_workers _ _ _ Hinv) as (_ & Hok & _). pose proof (Forall_lookup_1 _ _ _ _ Hok Hw) as Hokw.
  destruct (worker_step_at _ (seeing lines w) Hrel (seeing_ok _ lines w Hokw)) as (_ & _ & Hless & _).
  rewrite E. cbn [mbind option_bind].
  destruct (IH (mk_net (set_workers p (<[j := worker_step (seeing lines w)]> (pub_workers p))) lines) gs1 (worker_step (seeing lines w)))
    as (n2 & gs2 & w2 & -> & Hinv2 & Hled2 & Hw2 & Hq2 & Hl2 & Hln2).
  - done.
  - cbn. rewrite list_lookup_insert_eq by (by eapply lookup_lt_Some). done.
  - destruct (decide (wk_queue w = [])) as [E0|Hne].
    + change (worker_step (seeing lines w)) with (worker_run 1 (seeing lines w)).
      rewrite worker_idle by (cbn; by rewrite E0). cbn. rewrite E0. cbn. lia.
    + cbn in Hless. rewrite length_fmap in Hless. assert (Hlt : (see_cmd lines <$> wk_queue w) <> []) by (by destruct (wk_queue w)).
      specialize (Hless Hlt). lia.
  - exists n2, gs2, w2. cbn [pn_lines pn_pub set_workers pub_workers] in *. rewrite length_insert in Hl2. split_and!; try done.
    intros i. apply (ledger_trans i [Work j] (repeat (Work j) k) [Done] (repeat Done k) gs gs1 gs2); [by apply ledger_carried|apply Hled2].
Qed.

Lemma takes_all N i n gs g l :
  net_inv N n gs -> gs !! i = Some g -> pn_lines n !! i = Some l -> is_Some (sent_to (pn_pub n) i) -> later_of n i l = [] ->
  exists es n', net_run clock n (repeat (Take i) (length (wanted (g_wants g) (g_coming g)))) = Some (es, n') /\
    received i es = wanted (g_wants g) (g_coming g).
Proof.
  remember (wanted (g_wants g) (g_coming g)) as ms eqn:Ems. revert n gs g l Ems.
  induction ms as [|m ms IH]; intros n gs g l Ems Hinv Hg Hl [sent Hsent] Hlater; cbn [length repeat net_run]; [by exists [], n|].
  destruct n as [p lines]. cbn [pn_pub pn_lines] in *.
  destruct (step_take N p lines gs i Hinv) as (e & n1 & gs1 & later & -> & Hinv1 & [_ Ht] & Hpub & Hline).
  destruct (Hline l Hl) as (l1 & Hl1 & Hd1 & Hlat). rewrite Hg in Ht. destruct Ht as (pre & rest & Hg1 & Hpre & Hres).
  assert (El : later = []).
  { rewrite (Hlat sent Hsent). unfold later_of in Hlater. cbn [pn_pub] in Hlater. by rewrite Hsent in Hlater. }
  destruct Hres as [(m' & Hc & Hm & ->)|(Hc & _ & Hun)].
  - rewrite Hc, wanted_app, Hpre in Ems. unfold wanted in Ems. cbn [app List.filter] in Ems. rewrite Hm in Ems. injection Ems as <- Ems.
    cbn [mbind option_bind]. destruct (IH n1 gs1 (set_coming g rest) l1) as (es & n2 & E2 & Hrec); [done|done|done|done| | |].
    { rewrite Hpub. by exists sent. }
    { unfold later_of in *. by rewrite Hpub, Hd1. }
    exists (Got i m :: es), n2. rewrite E2. split; [done|]. unfold received in *. cbn. rewrite bool_decide_eq_true_2 by done. cbn. by rewrite Hrec.
  - rewrite El in Hun. destruct rest as [|x rest]; [by rewrite Hc, app_nil_r, Hpre in Ems|]. cbn in Hun.
    pose proof (len_nonneg (wire_of rest)). change (len []) with 0 in Hun. lia.
Qed.

(** Once the worker has caught up and all has arrived, a subscriber can collect
    what it is owed. *)
Lemma flush_collects N n gs i g :
  reliable (S := S) -> net_inv N n gs -> gs !! i = Some g -> g_asked g = [] ->
  exists bytes es n', net_run clock n (flush_ops i n bytes (length (owed g))) = Some (es, n') /\ received i es = owed g.
Proof.
  intros Hrel Hinv Hg Ha. destruct (lookup_lt_is_Some_2 (pn_lines n) i) as [l Hl].
  { rewrite <- (ni_length _ _ _ Hinv). by eapply lookup_lt_Some. }
  destruct (ni_lines _ _ _ Hinv i l g Hl Hg) as (w & Hw & _). unfold flush_ops. rewrite Hw. cbn [from_option].
  set (j := (i mod length (pub_workers (pn_pub n)))%nat) in *. set (k := length (wk_queue w)).
  destruct (works_drain N j k n gs w Hrel Hinv Hw (Nat.le_refl _)) as (n1 & gs1 & w1 & E1 & Hinv1 & Hled1 & Hw1 & Hq1 & Hl1 & Hln1).
  destruct n1 as [p1 lines1]. cbn [pn_pub pn_lines] in *. subst lines1.
  assert (Hh1 : home p1 i = Some w1) by (unfold home; by rewrite Hl1).
  destruct (lookup_lt_is_Some_2 gs1 i) as [g1 Hg1]; [rewrite (ni_length _ _ _ Hinv1); by eapply lookup_lt_Some|].
  destruct (ni_lines _ _ _ Hinv1 i l g1 Hl Hg1) as (w1' & Hw1' & Hli1). cbn [pn_pub] in Hw1'. rewrite Hh1 in Hw1'. injection Hw1' as <-.
  destruct (lv_down _ _ _ _ Hli1) as (subs & sent & Hat1 & Hdn1 & _).
  assert (Hsent : sent_to p1 i = Some sent).
  { unfold sent_to. rewrite Hh1. cbn [mbind option_bind].
    destruct Hat1 as [(sub & Hf & _ & Hs & _)|(pre & sub & post & _ & Eq & _)]; [by rewrite Hf; cbn; rewrite Hs|].
    rewrite Hq1 in Eq. by destruct pre. }
  exists (length sent). destruct (step_down N p1 (pn_lines n) gs1 i (length sent) [] Hinv1) as (n2 & gs2 & E2 & Hinv2 & Hc2).
  pose proof (ledger_trans i _ [Down i (length sent) []] _ [Done] _ _ _ (Hled1 i) (ledger_carried i (Down i (length sent) []) _ _ eq_refl Hc2)) as [_ Hled].
  destruct (Hled g Hg) as (g2 & Hg2 & Hset). destruct Hset as (Ha2 & Hw2 & Eo); [done| | |].
  { rewrite existsb_app. cbn. rewrite orb_false_r. clear. induction k as [|k IH]; [done|]. exact IH. }
  { rewrite not_elem_of_app. split; [intros Hin%list_elem_of_In%repeat_spec; done|set_solver]. }
  assert (Hrec : received i (repeat Done k ++ [Done]) = []).
  { unfold received. clear. induction k as [|k IH]; [done|]. cbn. exact IH. }
  assert (Hpub : published (repeat (Work j) k ++ [Down i (length sent) []] : list (net_op S K)) = []).
  { unfold published. clear. induction k as [|k IH]; [done|]. cbn. exact IH. }
  rewrite Hrec, Hpub, app_nil_r in Eo. cbn [app] in Eo.
  pose proof E2 as E2'. cbn [net_step] in E2'. rewrite Hl, Hsent in E2'. injection E2' as <-. cbn [pn_pub pn_lines] in *.
  match type of Hinv2 with net_inv _ (mk_net _ (<[_ := ?x]> _)) _ => set (l2 := x) in * end.
  assert (Hl2 : <[i := l2]> (pn_lines n) !! i = Some l2) by (by apply list_lookup_insert_eq; eapply lookup_lt_Some).
  assert (Hq2 : g_queue g2 = []).
  { destruct (ni_lines _ _ _ Hinv2 i l2 g2 Hl2 Hg2) as (w2 & Hw2' & Hli2). cbn [pn_pub] in Hw2'. rewrite Hh1 in Hw2'. injection Hw2' as <-.
    destruct (lv_down _ _ _ _ Hli2) as (? & ? & [(_ & _ & _ & _ & ->)|(pre & sub & post & _ & Eq & _)] & _); [by rewrite Hq1|].
    rewrite Hq1 in Eq. by destruct pre. }
  assert (Eo' : wanted (g_wants g2) (g_coming g2) = owed g) by (rewrite <- Eo; unfold owed; by rewrite Hq2, app_nil_r).
  destruct (takes_all N i _ gs2 g2 l2 Hinv2 Hg2 Hl2) as (es & n3 & E3 & Hr3).
  { by exists sent. }
  { unfold later_of. cbn [pn_pub]. rewrite Hsent. cbn [from_option l2 ln_down]. destruct (next_bytes_split (length sent) (ln_down l) sent Hdn1) as [_ Hb].
    apply zdrop_ge. unfold next_bytes in *. rewrite ztake_zdrop_min, len_zdrop in * by lia. unfold len in *. lia. }
  rewrite Eo' in E3, Hr3.
  rewrite net_run_app, E1. cbn [mbind option_bind app net_run]. rewrite E2. cbn [mbind option_bind]. rewrite E3. cbn.
  eexists _, n3. split; [done|]. unfold received in *. rewrite fmap_app, concat_app in *. cbn in *. apply app_nil in Hrec as [Hrec _]. by rewrite Hrec.
Qed.
End invariant.

(** The limit of the publisher's readers. *)
Definition reader_limit (K : Type) (o : SocketOptions) : Z :=
  max_frame_size (rd_decoder (reader_new (K := K) (max_msg_size o) None)).

(** Everything the subscriber has written has been read by the publisher. *)
Definition settled {S K : Type} `{WireStream S} (l : Line S K) : Prop := ln_up l = len (wire_bytes (sub_base (ln_sub l))).

Lemma net_start {S K : Type} `{DuplexStream S} `{!Aead K} (smax : Z) (workers : nat) (o : SocketOptions) :
  workers <> 0%nat -> net_inv (S := S) (K := K) smax (reader_limit K o) 0 (mk_net (pub_with_workers_opts workers o) []) [].
Proof.
  intros Hw. split; cbn; try done.
  - split_and!; [by destruct workers|..]; apply list.Forall_forall; intros w ->%list_elem_of_In%repeat_spec; [by split|done].
  - rewrite repeat_length. by rewrite Nat.Div0.mod_0_l.
  - apply union_empty_inv.
Qed.

(** C4: publish-subscribe, end to end, over plaintext connections whose writes
    complete, without heartbeats at the subscribers and with messages and events
    within the frame limits.  A PUB socket with its readers and worker threads and
    any number of SUB sockets, in every interleaving of joining, subscribing,
    publishing, working, receiving and of bytes arriving any number at a time and in
    any pieces: no call fails or panics, and what a subscriber has received and is
    still to receive ([left]) is a part of what was published, whole messages in
    order and without duplicates.  From the moment the publisher has read a
    subscriber's subscriptions ([settled]), and as long as that subscriber does not
    change them and no worker's channel overflows ([Dropped]), it gets exactly the
    messages they select, however the others come and behave: what it has received
    followed by [rest] is what was left before followed by the matching messages
    published since; and once its worker has caught up and the bytes have arrived,
    the next calls return [rest]. *)
Theorem pubsub_end_to_end {S K : Type} `{DuplexStream S} `{!Aead K} (clock : nat -> Z) (smax : Z) (workers : nat)
    (o : SocketOptions) (before : list (net_op S K)) :
  reliable (S := S) -> workers <> 0%nat -> Forall (net_fits smax (reader_limit K o)) before -> len before < 2 ^ 64 ->
  exists es n, net_run clock (mk_net (pub_with_workers_opts workers o) []) before = Some (es, n) /\
  forall i l, pn_lines n !! i = Some l ->
  exists left, received i es ++ left `sublist_of` published before /\
  (settled l -> forall after, Forall (net_fits smax (reader_limit K o)) after -> len before + len after < 2 ^ 64 ->
   existsb (calls_of i) after = false ->
   exists es' n', net_run clock n after = Some (es', n') /\
   (Dropped ∉ es' ->
    exists rest, received i es' ++ rest = left ++ wanted (sub_prefixes (ln_sub l)) (published after) /\
    exists bytes es'' n'', net_run clock n' (flush_ops i n' bytes (length rest)) = Some (es'', n'') /\ received i es'' = rest)).
Proof.
  intros Hrel Hw Hb HN. destruct (net_run_ok clock smax _ 0 _ [] before Hrel HN (net_start smax workers o Hw) Hb)
    as (es & n & gs & Hrun & Hinv & Hled). exists es, n. split; [done|]. intros i l Hl.
  destruct (ni_line _ _ _ _ _ _ _ Hinv Hl) as (g & w & Hg & _ & Hli). exists (owed g). split.
  { destruct (Hled i) as [Hs _]. unfold stock_of in Hs. rewrite Hg in Hs. cbn in Hs. etrans; [|exact Hs]. apply sublist_app; [done|].
    unfold owed, wanted, stock. etrans; [apply filter_shorter|]. apply sublist_app; [done|]. apply filter_shorter. }
  intros Hset after Ha HN' Hcalls. destruct (net_run_ok clock smax _ _ n gs after Hrel HN' Hinv Ha) as (es' & n' & gs' & Hrun' & Hinv' & Hled').
  exists es', n'. split; [done|]. intros Hd. destruct (Hled' i) as [_ Hl']. destruct (Hl' g Hg) as (g' & Hg' & Hfin).
  assert (Hasked : g_asked g = []).
  { destruct (lv_up _ _ _ _ _ _ Hli) as (up & Hsd & _ & _ & Hidle). apply Hidle. unfold settled in Hset.
    rewrite Hset, (sending_wire _ _ _ Hsd). by apply zdrop_ge. }
  destruct (Hfin Hasked Hcalls Hd) as (Ha' & _ & E). exists (owed g'). rewrite (lv_wants _ _ _ _ _ _ Hli). split; [done|].
  by eapply flush_collects.
Qed.

(** ** Example *)

Definition new_sub : SubSocket PipeStream unit := mk_sub (set_cipher (base_new (mk_pipe [] []) default_options) None) [] [].

(** Two subscribers; the first subscribes to "a" and the publisher reads it. *)
Definition net_before : list (net_op PipeStream unit) :=
  [Join (mk_pipe [] []) new_sub; Join (mk_pipe [] []) new_sub; Call 0 (Subscribe (ascii_bytes "a")); Work 0; Work 1; Up 0 2 []; Up 0 9 [1]%nat].

(** Two messages; the second subscriber subscribes meanwhile. *)
Definition net_after : list (net_op PipeStream unit) :=
  [Publish [ascii_bytes "ax"] (λ _, false); Call 1 (Subscribe (ascii_bytes "b")); Publish [ascii_bytes "bx"; ascii_bytes "q"] (λ _, false);
   Publish [ascii_bytes "ay"; ascii_bytes "z"] (λ _, false); Work 0; Down 0 8 [2]%nat; Take 0; Take 0].

Lemma new_sub_fresh : fresh_sub 1000 new_sub.
Proof. split_and!; [done|done|by vm_compute|by apply pipe_linked]. Qed.

Lemma pubsub_end_to_end_witness :
  exists es n es' n' rest,
    net_run (λ _, 0) (mk_net (pub_with_workers_opts 2 default_options) []) net_before = Some (es, n) /\
    net_run (λ _, 0) n net_after = Some (es', n') /\ received 0 es' = [[ascii_bytes "ax"]] /\
    received 0 es' ++ rest = [[ascii_bytes "ax"]; [ascii_bytes "ay"; ascii_bytes "z"]] /\
    exists bytes es'' n'', net_run (λ _, 0) n' (flush_ops 0 n' bytes (length rest)) = Some (es'', n'') /\ received 0 es'' = rest.
Proof.
  destruct (pubsub_end_to_end (λ _, 0) 1000 2 default_options net_before) as (es & n & Hrun & Hall).
  - split; reflexivity.
  - discriminate.
  - repeat constructor; try apply new_sub_fresh; vm_compute; discriminate.
  - vm_compute. reflexivity.
  - exists es, n. pose proof Hrun as Hn. vm_compute in Hn. injection Hn as <- <-.
    destruct (Hall 0%nat _ eq_refl) as (left & Hsub & Hset). cbn in Hsub. apply sublist_nil_r in Hsub as ->.
    destruct (Hset ltac:(vm_compute; reflexivity) net_after) as (es' & n' & Hrun' & Hfin).
    + repeat constructor; vm_compute; discriminate.
    + vm_compute. reflexivity.
    + reflexivity.
    + exists es', n'. pose proof Hrun' as Hn'. vm_compute in Hn'. injection Hn' as <- <-.
      destruct Hfin as (rest & Hr & Hf); [rewrite list_elem_of_In; cbn; intuition discriminate|]. exists rest. split_and!; [exact Hrun|exact Hrun'|reflexivity|exact Hr|exact Hf].
Defined.
