(* ===== verification/Backends.v ===== *)
(** * Runtime backends: streams

    The adapters of monocoque-core/src/rt/smol.rs and rt/tokio.rs that put
    compio's owned-buffer interface on a smol or tokio stream, and the helpers
    they share, [fill_read] and [with_vectored_slices] of
    monocoque-core/src/io.rs.

    The runtimes, [socket2] and the [compio-io] traits are outside the
    repository.  [SockRef] is what the smol adapter calls, [TokioIo] what the
    tokio adapter calls, [Reactor] how an operation that would block is driven
    on; their law classes state what is documented of them.  [OwnedIo] is the
    interface the adapters implement and [OwnedIoLaws] what it promises; with
    the extension methods of [compio-io] ([WriteExt]) it is an [AsyncStream] as
    the sockets use it, and a [WireStream]. *)

From Stdlib Require Import Init.Byte.
From S2P Require Import Prelude.
From S2P Require Import Options.
From S2P Require Import Stream.

(** ** Owned buffers

    A cell of memory that has not been initialised ([MaybeUninit]) is [None]. *)

Abbreviation cells := (list (option byte)).

Class IoBufMut (B : Type) := {
  buf_len : B -> Z;               (** how many bytes count as initialised *)
  as_uninit : B -> cells;         (** the memory of the buffer *)
  put_cells : B -> cells -> B;    (** a store through that slice *)
  buf_set_len : B -> Z -> B;
}.

Class IoBufMutLaws (B : Type) `{IoBufMut B} := {
  put_cells_spec b m : length m = length (as_uninit b) ->
    as_uninit (put_cells b m) = m /\ buf_len (put_cells b m) = buf_len b;
  buf_set_len_spec b n : 0 <= n <= len (as_uninit b) ->
    as_uninit (buf_set_len b n) = as_uninit b /\ buf_len (buf_set_len b n) = n;
}.

(** The bytes a buffer exposes; [None]: one of them was never initialised. *)
Definition as_init {B} `{IoBufMut B} (b : B) : option bytes := mapM id (ztake (buf_len b) (as_uninit b)).

(** Memory whose front has been overwritten. *)
Definition over (spare : cells) (bs : bytes) : cells := (Some <$> bs) ++ zdrop (len bs) spare.

Lemma over_nil spare : over spare [] = spare.
Proof. done. Qed.

Lemma over_length spare bs : len bs <= len spare -> length (over spare bs) = length spare.
Proof. unfold over, zdrop, len. rewrite length_app, length_fmap, length_drop. lia. Qed.

Lemma over_front spare bs : mapM id (ztake (len bs) (over spare bs)) = Some bs.
Proof.
  unfold over, ztake, len. rewrite Nat2Z.id, take_app_le, <- length_fmap with (f := @Some byte), firstn_all by (by rewrite length_fmap).
  apply mapM_Some. induction bs; constructor; done.
Qed.

Section fill.
Context {S : Type}.

(** [read] is the closure: the slice it is given, and as it leaves it. *)
Definition fill_read {B} `{IoBufMut B} (buf : B) (read : cells -> S -> completion Z * cells * S) (s : S)
    : completion Z * B * S :=
  let '(outcome, spare, s) := read (as_uninit buf) s in
  let buf := put_cells buf spare in
  match outcome with
  | Completed (Ok n) => (Completed (Ok n), buf_set_len buf n, s)
  | Completed (Err e) => (Completed (Err e), buf, s)
  | Stalled => (Stalled, buf, s)
  end.

(** [f] is given one [IoSlice] per buffer, of its initialised bytes. *)
Definition with_vectored_slices {R} (bufs : list bytes) (f : list bytes -> R) : R := f bufs.
End fill.

(** ** What the libraries provide *)

(** [op] is tried, and tried again after each notification, while it would
    block ([None]); [X] is what it borrows. *)
Inductive driven {S X A : Type} (wakes : S -> S -> Prop) (op : S -> X -> option (io_result A) * X * S)
  : S -> X -> completion A -> X -> S -> Prop :=
| driven_ready s x r x' s' : op s x = (Some r, x', s') -> driven wakes op s x (Completed r) x' s'
| driven_again s x x1 s1 s2 c y t :
    op s x = (None, x1, s1) -> wakes s1 s2 -> driven wakes op s2 x1 c y t -> driven wakes op s x c y t
| driven_stalled s x x' s' : op s x = (None, x', s') -> driven wakes op s x Stalled x' s'.

(** [Async::read_with] and [write_with] under smol, awaiting a [poll_fn] under
    tokio. *)
Class Reactor (S : Type) := {
  wakes : S -> S -> Prop;
  drive : forall {X A : Type}, (S -> X -> option (io_result A) * X * S) -> S -> X -> completion A * X * S;
  drive_spec X A (op : S -> X -> option (io_result A) * X * S) s x :
    driven wakes op s x (drive op s x).1.1 (drive op s x).1.2 (drive op s x).2;
}.

(** [socket2::SockRef] on a non-blocking descriptor. *)
Class SockRef (S : Type) := {
  sock_recv : S -> cells -> option (io_result Z) * cells * S;
  sock_send : S -> bytes -> option (io_result Z) * S;
  sock_send_vectored : S -> list bytes -> option (io_result Z) * S;
  sock_shutdown : S -> io_result unit * S;
}.

(** [tokio::io::ReadBuf] over a slice. *)
Record ReadBuf := mk_read_buf { rb_cells : cells; rb_filled : Z }.

Class TokioIo (S : Type) := {
  poll_read : S -> ReadBuf -> option (io_result unit) * ReadBuf * S;
  poll_write : S -> bytes -> option (io_result Z) * S;
  poll_write_vectored : S -> list bytes -> option (io_result Z) * S;
  poll_flush : S -> option (io_result unit) * S;
  poll_shutdown : S -> option (io_result unit) * S;
}.

(** The two directions of a connection: bytes accepted from us, bytes handed to
    us. *)
Class Traffic (S : Type) := {
  sent : S -> bytes;
  received : S -> bytes;
}.

Definition quiet_io {S} `{Traffic S} (s s' : S) : Prop := sent s' = sent s /\ received s' = received s.

#[export] Instance quiet_io_preorder {S} `{Traffic S} : PreOrder quiet_io.
Proof. split; [done|]. intros s1 s2 s3 [? ?] [? ?]. split; congruence. Qed.

(** A send of [buf]: it takes a front part of it, or nothing. *)
Definition sends {S} `{Traffic S} (s : S) (buf : bytes) (r : option (io_result Z)) (s' : S) : Prop :=
  match r with
  | Some (Ok n) => 0 <= n <= len buf /\ sent s' = sent s ++ ztake n buf /\ received s' = received s
  | _ => quiet_io s s'
  end.

(** A receive into [spare]. *)
Definition receives {S} `{Traffic S} (s : S) (spare spare' : cells) (r : option (io_result Z)) (s' : S) : Prop :=
  match r with
  | Some (Ok n) => exists bs, n = len bs /\ len bs <= len spare /\ spare' = over spare bs /\
      sent s' = sent s /\ received s' = received s ++ bs
  | _ => spare' = spare /\ quiet_io s s'
  end.

Class SockRefLaws (S : Type) `{Traffic S} `{SockRef S} := {
  sock_recv_spec s spare : receives s spare (sock_recv s spare).1.2 (sock_recv s spare).1.1 (sock_recv s spare).2;
  sock_send_spec s buf : sends s buf (sock_send s buf).1 (sock_send s buf).2;
  sock_send_vectored_spec s bufs : sends s (concat bufs) (sock_send_vectored s bufs).1 (sock_send_vectored s bufs).2;
  sock_shutdown_spec s : quiet_io s (sock_shutdown s).2;
}.

(** A read appends to what is filled; here the [ReadBuf] is fresh. *)
Class TokioIoLaws (S : Type) `{Traffic S} `{TokioIo S} := {
  poll_read_spec s spare :
    let '(r, rb, s') := poll_read s (mk_read_buf spare 0) in
    match r with
    | Some (Ok _) => exists bs, rb_filled rb = len bs /\ len bs <= len spare /\ rb_cells rb = over spare bs /\
        sent s' = sent s /\ received s' = received s ++ bs
    | _ => rb = mk_read_buf spare 0 /\ quiet_io s s'
    end;
  poll_write_spec s buf : sends s buf (poll_write s buf).1 (poll_write s buf).2;
  poll_write_vectored_spec s bufs : sends s (concat bufs) (poll_write_vectored s bufs).1 (poll_write_vectored s bufs).2;
  poll_flush_spec s : quiet_io s (poll_flush s).2;
  poll_shutdown_spec s : quiet_io s (poll_shutdown s).2;
}.

Class ReactorLaws (S : Type) `{Traffic S} `{Reactor S} := {
  wakes_spec s s' : wakes s s' -> quiet_io s s';
}.

(** ** The adapters *)

(** A [TcpStream] or one of its halves: the library's stream. *)
Record SmolStream (S : Type) := mk_smol { smol_inner : S }.
Arguments mk_smol {S} _.
Arguments smol_inner {S} _.

Record TokioStream (S : Type) := mk_tokio { tokio_inner : S }.
Arguments mk_tokio {S} _.
Arguments tokio_inner {S} _.

(** The tokio adapter of Unix streams, written out without the macro. *)
Record TokioUnixStream (S : Type) := mk_tokio_unix { tokio_unix_inner : S }.
Arguments mk_tokio_unix {S} _.
Arguments tokio_unix_inner {S} _.

(** [match result { Ok(n) => BufResult(Ok(n), buf), Err(e) => .. }]. *)
Definition with_buf {S B} (r : completion Z * unit * S) (buf : B) : completion Z * B * S :=
  let '(c, _, s) := r in
  match c with
  | Completed (Ok n) => (Completed (Ok n), buf, s)
  | Completed (Err e) => (Completed (Err e), buf, s)
  | Stalled => (Stalled, buf, s)
  end.

(** An operation that borrows nothing. *)
Definition plain_op {S A} (op : S -> option (io_result A) * S) (s : S) (x : unit) : option (io_result A) * unit * S :=
  let '(r, s) := op s in (r, x, s).

Section smol.
Context {S : Type} `{Reactor S} `{SockRef S}.

Definition smol_read_into {B} `{IoBufMut B} (stream : S) (buf : B) : completion Z * B * S :=
  fill_read buf (λ spare s, drive (λ inner spare, sock_recv inner spare) s spare) stream.

Definition smol_write_from (stream : S) (buf : bytes) : completion Z * bytes * S :=
  with_buf (drive (plain_op (λ inner, sock_send inner buf)) stream tt) buf.

Definition smol_write_vectored_from (stream : S) (buf : list bytes) : completion Z * list bytes * S :=
  with_buf (drive (plain_op (λ inner, with_vectored_slices buf (λ slices, sock_send_vectored inner slices))) stream tt) buf.

Definition smol_flush (stream : S) : completion unit * S := (Completed (Ok tt), stream).

Definition smol_shutdown (stream : S) : completion unit * S :=
  let '(r, s) := sock_shutdown stream in (Completed r, s).
End smol.

Section tokio.
Context {S : Type} `{Reactor S} `{TokioIo S}.

(** The closure of [read_into]: [poll_read(..).await?], then the count. *)
Definition tokio_fill (spare : cells) (reader : S) : completion Z * cells * S :=
  let '(c, read_buf, reader) := drive poll_read reader (mk_read_buf spare 0) in
  (match c with
   | Completed (Ok _) => Completed (Ok (rb_filled read_buf))
   | Completed (Err e) => Completed (Err e)
   | Stalled => Stalled
   end, rb_cells read_buf, reader).

Definition tokio_read_into {B} `{IoBufMut B} (reader : S) (buf : B) : completion Z * B * S :=
  fill_read buf tokio_fill reader.

Definition tokio_write_from (writer : S) (buf : bytes) : completion Z * bytes * S :=
  with_buf (drive (plain_op (λ w, poll_write w buf)) writer tt) buf.

Definition tokio_write_vectored_from (writer : S) (buf : list bytes) : completion Z * list bytes * S :=
  with_buf (drive (plain_op (λ w, with_vectored_slices buf (λ slices, poll_write_vectored w slices))) writer tt) buf.

Definition tokio_flush (s : S) : completion unit * S := let '(c, _, s) := drive (plain_op poll_flush) s tt in (c, s).
Definition tokio_shutdown (s : S) : completion unit * S := let '(c, _, s) := drive (plain_op poll_shutdown) s tt in (c, s).
End tokio.

(** [compio_io::AsyncRead] and [AsyncWrite]. *)
Class OwnedIo (T : Type) := {
  io_read : forall {B : Type} `{IoBufMut B}, T -> B -> completion Z * B * T;
  io_write : T -> bytes -> completion Z * bytes * T;
  io_write_vectored : T -> list bytes -> completion Z * list bytes * T;
  io_flush : T -> completion unit * T;
  io_shutdown : T -> completion unit * T;
}.

Definition on_inner {S T R} (mk : S -> T) (r : R * S) : R * T := (r.1, mk r.2).

#[export] Instance smol_owned_io {S} `{Reactor S} `{SockRef S} : OwnedIo (SmolStream S) := {
  io_read _ _ t buf := on_inner mk_smol (smol_read_into (smol_inner t) buf);
  io_write t buf := on_inner mk_smol (smol_write_from (smol_inner t) buf);
  io_write_vectored t bufs := on_inner mk_smol (smol_write_vectored_from (smol_inner t) bufs);
  io_flush t := on_inner mk_smol (smol_flush (smol_inner t));
  io_shutdown t := on_inner mk_smol (smol_shutdown (smol_inner t));
}.

#[export] Instance tokio_owned_io {S} `{Reactor S} `{TokioIo S} : OwnedIo (TokioStream S) := {
  io_read _ _ t buf := on_inner mk_tokio (tokio_read_into (tokio_inner t) buf);
  io_write t buf := on_inner mk_tokio (tokio_write_from (tokio_inner t) buf);
  io_write_vectored t bufs := on_inner mk_tokio (tokio_write_vectored_from (tokio_inner t) bufs);
  io_flush t := on_inner mk_tokio (tokio_flush (tokio_inner t));
  io_shutdown t := on_inner mk_tokio (tokio_shutdown (tokio_inner t));
}.

(** [write_vectored] is not overridden here: it is the default of the trait, built
    on [write]. *)
Class WriteVectoredDefault (T : Type) :=
  default_write_vectored : (T -> bytes -> completion Z * bytes * T) -> T -> list bytes -> completion Z * list bytes * T.

#[export] Instance tokio_unix_owned_io {S} `{Reactor S} `{TokioIo S} `{WriteVectoredDefault S} : OwnedIo (TokioUnixStream S) := {
  io_read _ _ t buf := on_inner mk_tokio_unix (tokio_read_into (tokio_unix_inner t) buf);
  io_write t buf := on_inner mk_tokio_unix (tokio_write_from (tokio_unix_inner t) buf);
  io_write_vectored t bufs := on_inner mk_tokio_unix (default_write_vectored tokio_write_from (tokio_unix_inner t) bufs);
  io_flush t := on_inner mk_tokio_unix (tokio_flush (tokio_unix_inner t));
  io_shutdown t := on_inner mk_tokio_unix (tokio_shutdown (tokio_unix_inner t));
}.

(** ** What the interface promises *)

Definition wrote {S} `{Traffic S} (s : S) (buf : bytes) (c : completion Z) (s' : S) : Prop :=
  match c with
  | Completed (Ok n) => 0 <= n <= len buf /\ sent s' = sent s ++ ztake n buf /\ received s' = received s
  | _ => quiet_io s s'
  end.

(** The bytes read are those at the front of the buffer and nothing else of it is
    exposed; a read that does not succeed leaves the buffer and the connection. *)
Definition did_read {S B} `{Traffic S} `{IoBufMut B} (s : S) (buf : B) (c : completion Z) (buf' : B) (s' : S) : Prop :=
  sent s' = sent s /\
  match c with
  | Completed (Ok n) => exists bs, n = len bs /\ len bs <= len (as_uninit buf) /\ as_init buf' = Some bs /\
      as_uninit buf' = over (as_uninit buf) bs /\ received s' = received s ++ bs
  | _ => as_uninit buf' = as_uninit buf /\ buf_len buf' = buf_len buf /\ received s' = received s
  end.

Class OwnedIoLaws (T : Type) `{Traffic T} `{OwnedIo T} := {
  io_read_spec B `{IoBufMutLaws B} t (buf : B) :
    did_read t buf (io_read t buf).1.1 (io_read t buf).1.2 (io_read t buf).2;
  io_write_spec t buf :
    (io_write t buf).1.2 = buf /\ wrote t buf (io_write t buf).1.1 (io_write t buf).2;
  io_write_vectored_spec t bufs :
    (io_write_vectored t bufs).1.2 = bufs /\
    wrote t (concat bufs) (io_write_vectored t bufs).1.1 (io_write_vectored t bufs).2;
  io_flush_spec t : quiet_io t (io_flush t).2;
  io_shutdown_spec t : quiet_io t (io_shutdown t).2;
}.

(** An operation that is driven comes to an attempt that did not block, having
    left what blocked attempts and notifications leave. *)
Lemma driven_inv {S X A} (wk : S -> S -> Prop) (op : S -> X -> option (io_result A) * X * S) (P : S -> X -> Prop) s x c y t :
  (forall s x x' s', P s x -> op s x = (None, x', s') -> P s' x') -> (forall s s' x, P s x -> wk s s' -> P s' x) ->
  driven wk op s x c y t -> P s x ->
  match c with
  | Completed r => exists s1 x1, P s1 x1 /\ op s1 x1 = (Some r, y, t)
  | Stalled => P t y
  end.
Proof.
  intros Hop Hwk Hd. induction Hd as [s x r x' s' E|s x x1 s1 s2 c y t E Hw _ IH|s x x' s' E]; intros HP.
  - by exists s, x.
  - apply IH. eapply Hwk; [|done]. by eapply Hop.
  - by eapply Hop.
Qed.

Section adapters.
Context {S : Type} `{Tr : Traffic S} `{Re : Reactor S} `{!ReactorLaws S}.

Lemma drive_sends (op : S -> option (io_result Z) * S) buf s :
  (forall s, sends s buf (op s).1 (op s).2) -> wrote s buf (drive (plain_op op) s tt).1.1 (drive (plain_op op) s tt).2.
Proof.
  intros Hop. pose proof (drive_spec _ _ (plain_op op) s tt) as Hd.
  destruct (drive (plain_op op) s tt) as [[c []] s']. cbn in *.
  apply (driven_inv _ _ (λ s1 _, quiet_io s s1)) in Hd; [| | |done].
  - destruct c as [r|]; [|done]. destruct Hd as (s1 & [] & Hq & E). unfold plain_op in E. specialize (Hop s1).
    destruct (op s1) as [r1 s2]. injection E as -> ->. cbn in *. destruct r as [n|e]; cbn; [|by transitivity s1].
    destruct Hop as (? & -> & ->), Hq as [-> ->]. done.
  - intros s1 [] [] s2 Hq E. specialize (Hop s1). unfold plain_op in E. destruct (op s1) as [r1 s3].
    injection E as -> ->. by transitivity s1.
  - intros s1 s2 _ Hq Hw%wakes_spec. by transitivity s1.
Qed.

Lemma drive_quiet {A} (op : S -> option (io_result A) * S) s :
  (forall s, quiet_io s (op s).2) -> quiet_io s (drive (plain_op op) s tt).2.
Proof.
  intros Hop. pose proof (drive_spec _ _ (plain_op op) s tt) as Hd.
  destruct (drive (plain_op op) s tt) as [[c []] s']. cbn in *.
  apply (driven_inv _ _ (λ s1 _, quiet_io s s1)) in Hd; [| | |done].
  - destruct c as [r|]; [|done]. destruct Hd as (s1 & [] & Hq & E). unfold plain_op in E. specialize (Hop s1).
    destruct (op s1) as [r1 s2]. injection E as -> ->. by transitivity s1.
  - intros s1 [] [] s2 Hq E. specialize (Hop s1). unfold plain_op in E. destruct (op s1) as [r1 s3].
    injection E as -> ->. by transitivity s1.
  - intros s1 s2 _ Hq Hw%wakes_spec. by transitivity s1.
Qed.

(** What a closure of [fill_read] owes to it. *)
Definition fills (s : S) (spare : cells) (r : completion Z * cells * S) : Prop :=
  receives s spare r.1.2 (match r.1.1 with Completed r => Some r | Stalled => None end) r.2.

Lemma fill_read_spec {B} `{IoBufMutLaws B} (buf : B) read s :
  fills s (as_uninit buf) (read (as_uninit buf) s) ->
  did_read s buf (fill_read buf read s).1.1 (fill_read buf read s).1.2 (fill_read buf read s).2.
Proof.
  unfold fills, fill_read, did_read. destruct (read (as_uninit buf) s) as [[c spare] s']. cbn. destruct c as [[n|e]|]; cbn.
  - intros (bs & -> & Hle & -> & Hs & Hr). split; [done|]. exists bs.
    destruct (put_cells_spec buf (over (as_uninit buf) bs)) as [Hm Hl]; [by apply over_length|].
    destruct (buf_set_len_spec (put_cells buf (over (as_uninit buf) bs)) (len bs)) as [Hm' Hl'].
    { rewrite Hm. pose proof (over_length _ _ Hle). unfold len in *. lia. }
    unfold as_init. rewrite Hm', Hl', Hm. split_and!; [done|done|apply over_front|done|done].
  - intros [-> [Hs Hr]]. destruct (put_cells_spec buf (as_uninit buf)) as [-> ->]; done.
  - intros [-> [Hs Hr]]. destruct (put_cells_spec buf (as_uninit buf)) as [-> ->]; done.
Qed.

Lemma drive_receives (op : S -> cells -> option (io_result Z) * cells * S) s spare :
  (forall s spare, receives s spare (op s spare).1.2 (op s spare).1.1 (op s spare).2) ->
  fills s spare (drive op s spare).
Proof.
  intros Hop. pose proof (drive_spec _ _ op s spare) as Hd. unfold fills.
  destruct (drive op s spare) as [[c spare'] s']. cbn in *.
  apply (driven_inv _ _ (λ s1 x, x = spare /\ quiet_io s s1)) in Hd; [| | |done].
  - destruct c as [r|]; [|done]. destruct Hd as (s1 & x1 & [-> Hq] & E). specialize (Hop s1 spare). rewrite E in Hop.
    destruct r as [n|e]; cbn in *; [|by destruct Hop as [-> ?]; split; [|transitivity s1]].
    destruct Hop as (bs & -> & ? & -> & -> & ->), Hq as [-> ->]. by exists bs.
  - intros s1 x x' s2 [-> Hq] E. specialize (Hop s1 spare). rewrite E in Hop. destruct Hop as [? ?]. cbn in *.
    split; [done|]. by transitivity s1.
  - intros s1 s2 x [-> Hq] Hw%wakes_spec. split; [done|]. by transitivity s1.
Qed.

Lemma with_buf_wrote {B} (r : completion Z * unit * S) (b : B) s buf :
  wrote s buf r.1.1 r.2 -> (with_buf r b).1.2 = b /\ wrote s buf (with_buf r b).1.1 (with_buf r b).2.
Proof. by destruct r as [[[[n|e]|] []] s']. Qed.

Lemma tokio_fills `{TI : TokioIo S} `{!TokioIoLaws S} spare s : fills s spare (tokio_fill spare s).
Proof.
  unfold fills, tokio_fill. pose proof (drive_spec _ _ poll_read s (mk_read_buf spare 0)) as Hd.
  destruct (drive poll_read s (mk_read_buf spare 0)) as [[c rb] s']. cbn in *.
  apply (driven_inv _ _ (λ s1 x, x = mk_read_buf spare 0 /\ quiet_io s s1)) in Hd; [| | |done].
  - destruct c as [r|]; cbn; [|by destruct Hd as [-> ?]]. destruct Hd as (s1 & x1 & [-> Hq] & E).
    pose proof (poll_read_spec s1 spare) as Hp. rewrite E in Hp.
    destruct r as [u|e]; cbn in *; [|by destruct Hp as [-> ?]; split; [|transitivity s1]].
    destruct Hp as (bs & -> & ? & -> & -> & ->), Hq as [-> ->]. by exists bs.
  - intros s1 x x' s2 [-> Hq] E. pose proof (poll_read_spec s1 spare) as Hp. rewrite E in Hp. destruct Hp as [-> ?].
    split; [done|]. by transitivity s1.
  - intros s1 s2 x [-> Hq] Hw%wakes_spec. split; [done|]. by transitivity s1.
Qed.

Section smol_laws.
Context `{SockRef S} `{!SockRefLaws S}.

Lemma smol_did_read {B} `{IoBufMutLaws B} (s : S) (buf : B) :
  did_read s buf (smol_read_into s buf).1.1 (smol_read_into s buf).1.2 (smol_read_into s buf).2.
Proof. apply fill_read_spec, drive_receives, sock_recv_spec. Qed.

Lemma smol_wrote (s : S) buf :
  (smol_write_from s buf).1.2 = buf /\ wrote s buf (smol_write_from s buf).1.1 (smol_write_from s buf).2.
Proof. apply with_buf_wrote, drive_sends. intros s'. apply sock_send_spec. Qed.

Lemma smol_wrote_vectored (s : S) bufs :
  (smol_write_vectored_from s bufs).1.2 = bufs /\
  wrote s (concat bufs) (smol_write_vectored_from s bufs).1.1 (smol_write_vectored_from s bufs).2.
Proof. apply with_buf_wrote, drive_sends. intros s'. apply sock_send_vectored_spec. Qed.
End smol_laws.

Section tokio_laws.
Context `{TokioIo S} `{!TokioIoLaws S}.

Lemma tokio_did_read {B} `{IoBufMutLaws B} (s : S) (buf : B) :
  did_read s buf (tokio_read_into s buf).1.1 (tokio_read_into s buf).1.2 (tokio_read_into s buf).2.
Proof. apply fill_read_spec, tokio_fills. Qed.

Lemma tokio_wrote (s : S) buf :
  (tokio_write_from s buf).1.2 = buf /\ wrote s buf (tokio_write_from s buf).1.1 (tokio_write_from s buf).2.
Proof. apply with_buf_wrote, drive_sends. intros s'. apply poll_write_spec. Qed.

Lemma tokio_wrote_vectored (s : S) bufs :
  (tokio_write_vectored_from s bufs).1.2 = bufs /\
  wrote s (concat bufs) (tokio_write_vectored_from s bufs).1.1 (tokio_write_vectored_from s bufs).2.
Proof. apply with_buf_wrote, drive_sends. intros s'. apply poll_write_vectored_spec. Qed.
End tokio_laws.
End adapters.

#[export] Instance smol_traffic {S} `{Traffic S} : Traffic (SmolStream S) :=
  { sent t := sent (smol_inner t); received t := received (smol_inner t) }.
#[export] Instance tokio_traffic {S} `{Traffic S} : Traffic (TokioStream S) :=
  { sent t := sent (tokio_inner t); received t := received (tokio_inner t) }.
#[export] Instance tokio_unix_traffic {S} `{Traffic S} : Traffic (TokioUnixStream S) :=
  { sent t := sent (tokio_unix_inner t); received t := received (tokio_unix_inner t) }.

#[export] Instance smol_owned_io_laws {S} `{Traffic S} `{Reactor S} `{!ReactorLaws S} `{SockRef S} `{!SockRefLaws S} :
  OwnedIoLaws (SmolStream S).
Proof.
  split.
  - intros B ? ? t buf. exact (smol_did_read (smol_inner t) buf).
  - intros t buf. exact (smol_wrote (smol_inner t) buf).
  - intros t bufs. exact (smol_wrote_vectored (smol_inner t) bufs).
  - done.
  - intros t. cbn. pose proof (sock_shutdown_spec (smol_inner t)) as Hs. unfold smol_shutdown. by destruct (sock_shutdown _).
Qed.

#[export] Instance tokio_owned_io_laws {S} `{Traffic S} `{Reactor S} `{!ReactorLaws S} `{TokioIo S} `{!TokioIoLaws S} :
  OwnedIoLaws (TokioStream S).
Proof.
  split.
  - intros B ? ? t buf. exact (tokio_did_read (tokio_inner t) buf).
  - intros t buf. exact (tokio_wrote (tokio_inner t) buf).
  - intros t bufs. exact (tokio_wrote_vectored (tokio_inner t) bufs).
  - intros t. cbn. pose proof (drive_quiet poll_flush (tokio_inner t) poll_flush_spec) as Hs. unfold tokio_flush.
    by destruct (drive _ _ _) as [[]].
  - intros t. cbn. pose proof (drive_quiet poll_shutdown (tokio_inner t) poll_shutdown_spec) as Hs. unfold tokio_shutdown.
    by destruct (drive _ _ _) as [[]].
Qed.

(** ** Streams for the sockets *)

(** The buffers of the read path: [take_read_buffer] hands out [n] bytes that
    count as initialised and are not. *)
Record SlabBuf := mk_slab { slab_cells : cells; slab_len : Z }.

#[export] Instance slab_io_buf : IoBufMut SlabBuf := {
  buf_len := slab_len;
  as_uninit := slab_cells;
  put_cells b m := mk_slab m (slab_len b);
  buf_set_len b n := mk_slab (slab_cells b) n;
}.

#[export] Instance slab_io_buf_laws : IoBufMutLaws SlabBuf.
Proof. by split. Qed.

Definition fresh_slab (n : Z) : SlabBuf := mk_slab (replicate (Z.to_nat n) None) n.

(** [BytesMut::truncate]. *)
Definition slab_truncate (b : SlabBuf) (n : Z) : SlabBuf := mk_slab (slab_cells b) (Z.min n (slab_len b)).

(** Truncating a buffer to what it holds. *)
Lemma truncate_whole b bs : as_init b = Some bs -> as_init (slab_truncate b (len bs)) = as_init b.
Proof.
  unfold as_init, slab_truncate, ztake. cbn. intros Hi. apply mapM_Some_1, Forall2_length in Hi.
  rewrite Z2Nat.inj_min. f_equal. unfold len. rewrite Nat2Z.id, <- take_take. apply take_ge. lia.
Qed.

(** [AsyncWriteExt::write_all] and [write_vectored_all]: [write] again and again
    on what is left. *)
Inductive all_written {T Buf : Type} (flat : Buf -> bytes) (write : T -> Buf -> completion Z * Buf * T)
  : T -> Buf -> completion unit -> T -> Prop :=
| aw_done t b : flat b = [] -> all_written flat write t b (Completed (Ok tt)) t
| aw_more t b n b1 c t' :
    flat b <> [] -> (write t b).1.1 = Completed (Ok n) -> 0 < n -> flat b1 = zdrop n (flat b) ->
    all_written flat write (write t b).2 b1 c t' -> all_written flat write t b c t'
| aw_zero t b :
    flat b <> [] -> (write t b).1.1 = Completed (Ok 0) -> all_written flat write t b (Completed (Err WriteZero)) (write t b).2
| aw_again t b c t' :
    flat b <> [] -> (write t b).1.1 = Completed (Err Interrupted) -> all_written flat write (write t b).2 b c t' ->
    all_written flat write t b c t'
| aw_error t b e :
    flat b <> [] -> (write t b).1.1 = Completed (Err e) -> all_written flat write t b (Completed (Err e)) (write t b).2
| aw_stalled t b : flat b <> [] -> (write t b).1.1 = Stalled -> all_written flat write t b Stalled (write t b).2.

Class WriteExt (T : Type) `{OwnedIo T} := {
  io_write_all : T -> bytes -> completion unit * T;
  io_write_vectored_all : T -> list bytes -> completion unit * T;
  io_write_all_spec t buf : all_written id io_write t buf (io_write_all t buf).1 (io_write_all t buf).2;
  io_write_vectored_all_spec t bufs :
    all_written (@concat byte) io_write_vectored t bufs (io_write_vectored_all t bufs).1 (io_write_vectored_all t bufs).2;
}.

(** The read of [SocketBase::read_raw]: a slab, [read], [truncate]; [None] would
    be memory that was never written. *)
Definition read_slab {T} `{OwnedIo T} (t : T) (n : Z) : completion (option bytes) * T :=
  let '(c, buf, t) := io_read t (fresh_slab n) in
  (match c with
   | Completed (Ok k) => Completed (Ok (as_init (slab_truncate buf k)))
   | Completed (Err e) => Completed (Err e)
   | Stalled => Stalled
   end, t).

Definition exposed (c : completion (option bytes)) : completion bytes :=
  match c with
  | Completed (Ok bs) => Completed (Ok (default [] bs))
  | Completed (Err e) => Completed (Err e)
  | Stalled => Stalled
  end.

#[export] Instance owned_stream {T} `{OwnedIo T} `{!WriteExt T} : AsyncStream T := {
  stream_read t n := let '(c, t) := read_slab t n in (exposed c, t);
  stream_write_all := io_write_all;
  stream_write_vectored_all := io_write_vectored_all;
  stream_shutdown := io_shutdown;
}.

(** A write of [buf] has put a front part of it on the connection, all of it if it
    succeeded. *)
Definition front_sent {T} `{Traffic T} (t : T) (buf : bytes) (r : completion unit * T) : Prop :=
  received r.2 = received t /\
  exists k, k `prefix_of` buf /\ sent r.2 = sent t ++ k /\ (r.1 = Completed (Ok tt) -> k = buf).

(** A read of at most [n] bytes has given what was received. *)
Definition handed_over {T} `{Traffic T} (t : T) (n : Z) (r : completion (option bytes) * T) : Prop :=
  sent r.2 = sent t /\
  match r.1 with
  | Completed (Ok obs) => exists bs, obs = Some bs /\ len bs <= n /\ received r.2 = received t ++ bs
  | _ => received r.2 = received t
  end.

Section owned_wire.
Context {T : Type} `{Traffic T} `{OwnedIo T} `{!OwnedIoLaws T}.

Lemma all_written_sent {Buf} (flat : Buf -> bytes) (write : T -> Buf -> completion Z * Buf * T) t b c t' :
  (forall t b, wrote t (flat b) (write t b).1.1 (write t b).2) -> all_written flat write t b c t' ->
  front_sent t (flat b) (c, t').
Proof.
  unfold front_sent. intros Hw Hall. cbn. induction Hall as [t b E|t b n b1 c t' Hne E Hn Hb1 _ IH|t b Hne E|t b c t' Hne E _ IH|t b e Hne E|t b Hne E].
  - split; [done|]. exists []. split_and!; [apply prefix_nil|by rewrite app_nil_r|done].
  - pose proof (Hw t b) as Hs. rewrite E in Hs. destruct Hs as (Hle & Hs & Hr), IH as (Hr' & k & [x Hk] & Hs' & Hok).
    rewrite Hr', Hs', Hs, Hr. split; [done|]. exists (ztake n (flat b) ++ k). split_and!.
    + exists x. by rewrite <- app_assoc, <- Hk, Hb1, ztake_zdrop.
    + by rewrite app_assoc.
    + intros Hc. by rewrite (Hok Hc), Hb1, ztake_zdrop.
  - pose proof (Hw t b) as Hs. rewrite E in Hs. destruct Hs as (_ & Hs & Hr). split; [done|].
    exists []. split_and!; [apply prefix_nil|done|done].
  - pose proof (Hw t b) as Hs. rewrite E in Hs. destruct Hs as [Hs Hr]. rewrite <- Hs, <- Hr. exact IH.
  - pose proof (Hw t b) as Hs. rewrite E in Hs. destruct Hs as [Hs Hr]. split; [done|].
    exists []. split_and!; [apply prefix_nil|by rewrite app_nil_r|done].
  - pose proof (Hw t b) as Hs. rewrite E in Hs. destruct Hs as [Hs Hr]. split; [done|].
    exists []. split_and!; [apply prefix_nil|by rewrite app_nil_r|done].
Qed.

(** A read gives what was received, at most what was asked for, and never
    memory that was not written. *)
Lemma read_slab_received t n : 0 <= n -> handed_over t n (read_slab t n).
Proof.
  unfold handed_over. intros Hn. pose proof (io_read_spec SlabBuf t (fresh_slab n)) as [Hs Hr]. unfold read_slab.
  destruct (io_read t (fresh_slab n)) as [[c buf] t'] eqn:E. cbn in *. split; [done|].
  destruct c as [[k|e]|]; [|by destruct Hr as (_ & _ & ?)..]. cbn. destruct Hr as (bs & -> & Hle & Hi & _ & Hr).
  exists bs. split_and!; [|unfold len in *; rewrite length_replicate in Hle; lia|done].
  rewrite <- Hi. by apply truncate_whole.
Qed.

Lemma owned_write_effect `{!WriteExt T} t buf : front_sent t buf (io_write_all t buf).
Proof. apply (all_written_sent id io_write _ _ _ _ (λ t b, proj2 (io_write_spec t b)) (io_write_all_spec t buf)). Qed.

Lemma owned_vectored_effect `{!WriteExt T} t bufs : front_sent t (concat bufs) (io_write_vectored_all t bufs).
Proof. apply (all_written_sent _ _ _ _ _ _ (λ t b, proj2 (io_write_vectored_spec t b)) (io_write_vectored_all_spec t bufs)). Qed.

#[export] Instance owned_wire_stream `{!WriteExt T} : WireStream T.
Proof.
  refine {| wire := sent |}.
  - apply owned_write_effect.
  - apply owned_vectored_effect.
  - intros t n. cbn. unfold read_slab. pose proof (io_read_spec SlabBuf t (fresh_slab n)) as [Hs _].
    by destruct (io_read t (fresh_slab n)) as [[c buf] t'].
  - intros t. apply io_shutdown_spec.
Defined.
End owned_wire.

(** ** A scripted connection, to run the adapters

    [None] among the arrivals or in the room is an attempt that would block. *)

Record ScriptSocket := mk_ssock {
  ss_sent : bytes;
  ss_received : bytes;
  ss_arrivals : list (option bytes);
  ss_room : list (option Z);
}.

Definition ss_recv (s : ScriptSocket) (spare : cells) : option (io_result Z) * cells * ScriptSocket :=
  match ss_arrivals s with
  | [] => (None, spare, s)
  | None :: l => (None, spare, mk_ssock (ss_sent s) (ss_received s) l (ss_room s))
  | Some bs :: l =>
      let got := ztake (len spare) bs in
      let rest := zdrop (len spare) bs in
      (Some (Ok (len got)), over spare got,
       mk_ssock (ss_sent s) (ss_received s ++ got) (if bool_decide (rest = []) then l else Some rest :: l) (ss_room s))
  end.

Definition ss_send (s : ScriptSocket) (buf : bytes) : option (io_result Z) * ScriptSocket :=
  match ss_room s with
  | [] => (None, s)
  | None :: l => (None, mk_ssock (ss_sent s) (ss_received s) (ss_arrivals s) l)
  | Some n :: l =>
      let took := ztake n buf in
      (Some (Ok (len took)), mk_ssock (ss_sent s ++ took) (ss_received s) (ss_arrivals s) l)
  end.

Fixpoint drive_loop {X A} (fuel : nat) (op : ScriptSocket -> X -> option (io_result A) * X * ScriptSocket) (s : ScriptSocket) (x : X)
    : completion A * X * ScriptSocket :=
  match op s x with
  | (Some r, x, s) => (Completed r, x, s)
  | (None, x, s) => match fuel with O => (Stalled, x, s) | Datatypes.S fuel => drive_loop fuel op s x end
  end.

#[export] Instance script_reactor : Reactor ScriptSocket.
Proof.
  refine {| wakes := eq; drive X A op s x := drive_loop 8 op s x |}.
  intros X A op. generalize 8%nat. induction n as [|n IH]; intros s x; cbn [drive_loop];
    destruct (op s x) as [[[r|] x'] s'] eqn:E; [by constructor|by constructor|by constructor|].
  by eapply driven_again.
Defined.

#[export] Instance script_traffic : Traffic ScriptSocket := { sent := ss_sent; received := ss_received }.
#[export] Instance script_reactor_laws : ReactorLaws ScriptSocket.
Proof. split. by intros s s' ->. Qed.

#[export] Instance script_sock_ref : SockRef ScriptSocket := {
  sock_recv := ss_recv;
  sock_send := ss_send;
  sock_send_vectored s bufs := ss_send s (concat bufs);
  sock_shutdown s := (Ok tt, s);
}.

#[export] Instance script_tokio_io : TokioIo ScriptSocket := {
  poll_read s rb :=
    let '(r, spare, s) := ss_recv s (zdrop (rb_filled rb) (rb_cells rb)) in
    (match r with Some (Ok _) => Some (Ok tt) | Some (Err e) => Some (Err e) | None => None end,
     mk_read_buf (ztake (rb_filled rb) (rb_cells rb) ++ spare)
       (rb_filled rb + match r with Some (Ok n) => n | _ => 0 end), s);
  poll_write := ss_send;
  poll_write_vectored s bufs := ss_send s (concat bufs);
  poll_flush s := (Some (Ok tt), s);
  poll_shutdown s := (Some (Ok tt), s);
}.

Lemma ss_recv_spec s spare : receives s spare (ss_recv s spare).1.2 (ss_recv s spare).1.1 (ss_recv s spare).2.
Proof.
  unfold ss_recv. destruct (ss_arrivals s) as [|[bs|] l]; [by cbn| |by cbn]. cbn. eexists. split_and!; [done| |done|done|done].
  unfold ztake, len. rewrite length_take. lia.
Qed.

Lemma ss_send_spec s buf : sends s buf (ss_send s buf).1 (ss_send s buf).2.
Proof.
  unfold ss_send. destruct (ss_room s) as [|[n|] l]; [by cbn| |by cbn]. cbn.
  split; [unfold ztake, len; rewrite length_take; lia|]. split; [|done].
  f_equal. unfold ztake, len. by rewrite Nat2Z.id, length_take, <- take_take, firstn_all.
Qed.

#[export] Instance script_sock_ref_laws : SockRefLaws ScriptSocket.
Proof. split; [apply ss_recv_spec|apply ss_send_spec|intros s bufs; apply ss_send_spec|done]. Qed.

#[export] Instance script_tokio_io_laws : TokioIoLaws ScriptSocket.
Proof.
  split; [|apply ss_send_spec|intros s bufs; apply ss_send_spec|done|done].
  intros s spare. cbn. change (zdrop 0 spare) with spare. pose proof (ss_recv_spec s spare) as Hr.
  destruct (ss_recv s spare) as [[[[n|e]|] spare'] s']; cbn in *.
  - destruct Hr as (bs & -> & ? & -> & ? & ?). by exists bs.
  - by destruct Hr as [-> ?].
  - by destruct Hr as [-> ?].
Qed.

(** [write_all] as a loop: every write that succeeds takes something. *)
Fixpoint write_all_loop {T Buf} (flat : Buf -> bytes) (unflat : bytes -> Buf) (write : T -> Buf -> completion Z * Buf * T)
    (fuel : nat) (t : T) (b : Buf) : completion unit * T :=
  if bool_decide (flat b = []) then (Completed (Ok tt), t)
  else
    match fuel with
    | O => (Stalled, t)
    | Datatypes.S fuel =>
        let '(c, _, t) := write t b in
        match c with
        | Completed (Ok n) =>
            if n =? 0 then (Completed (Err WriteZero), t) else write_all_loop flat unflat write fuel t (unflat (zdrop n (flat b)))
        | Completed (Err e) => (Completed (Err e), t)
        | Stalled => (Stalled, t)
        end
    end.

Lemma write_all_loop_spec {T Buf} `{Traffic T} (flat : Buf -> bytes) unflat (write : T -> Buf -> completion Z * Buf * T) fuel t b :
  (forall bs, flat (unflat bs) = bs) -> (forall t b, wrote t (flat b) (write t b).1.1 (write t b).2) ->
  (length (flat b) <= fuel)%nat ->
  all_written flat write t b (write_all_loop flat unflat write fuel t b).1 (write_all_loop flat unflat write fuel t b).2.
Proof.
  intros Hf Hw. revert t b. induction fuel as [|fuel IH]; intros t b Hl; cbn [write_all_loop];
    (case_bool_decide as Hb; [by apply aw_done|]); [by destruct (flat b); cbn in Hl; [|lia]|].
  pose proof (Hw t b) as Hwr. destruct (write t b) as [[c b'] t'] eqn:E. destruct c as [[n|e]|]; cbn in Hwr.
  - destruct (Z.eqb_spec n 0) as [->|Hn].
    + replace t' with (write t b).2 by (by rewrite E). apply aw_zero; [done|by rewrite E].
    + eapply (aw_more _ _ _ _ n); [done|by rewrite E|lia|apply Hf|]. rewrite E. apply IH. rewrite Hf.
      unfold zdrop. rewrite length_drop. unfold len in *. lia.
  - replace t' with (write t b).2 by (by rewrite E). apply aw_error; [done|by rewrite E].
  - replace t' with (write t b).2 by (by rewrite E). apply aw_stalled; [done|by rewrite E].
Qed.

(** The extension methods of any stream that keeps the contract. *)
Definition looping_write_ext {T} `{Traffic T} `{OwnedIo T} `{!OwnedIoLaws T} : WriteExt T.
Proof.
  refine {| io_write_all t buf := write_all_loop id id io_write (length buf) t buf;
            io_write_vectored_all t bufs :=
              write_all_loop (@concat byte) (λ bs, [bs]) io_write_vectored (length (concat bufs)) t bufs |}.
  - intros t buf. apply write_all_loop_spec; [done| |done]. intros t' b. apply io_write_spec.
  - intros t bufs. apply write_all_loop_spec; [intros bs; apply app_nil_r| |done]. intros t' b. apply io_write_vectored_spec.
Defined.

#[local] Existing Instance looping_write_ext.

(** ** What the adapters promise *)

(** C20: a read through the smol or the tokio adapter, into the uninitialised slab the
    read path hands it, gives exactly the bytes the connection has handed over, at
    most as many as the slab holds, and never memory that was not written; a read
    that fails or is abandoned while waiting has consumed nothing.  Nothing is sent. *)
Theorem backend_reads {S : Type} `{Traffic S} `{Reactor S} `{!ReactorLaws S} `{SockRef S} `{!SockRefLaws S} `{TokioIo S}
    `{!TokioIoLaws S} (s : S) (n : Z) :
  0 <= n ->
  handed_over (mk_smol s) n (read_slab (mk_smol s) n) /\ handed_over (mk_tokio s) n (read_slab (mk_tokio s) n).
Proof. intros Hn. split; by apply read_slab_received. Qed.

Lemma backend_reads_witness :
  let s := mk_ssock [] [] [None; Some [x01; x02; x03]] [] in
  (exists s', read_slab (mk_smol s) 2 = (Completed (Ok (Some [x01; x02])), s')) /\
  handed_over (mk_smol s) 2 (read_slab (mk_smol s) 2) /\ handed_over (mk_tokio s) 2 (read_slab (mk_tokio s) 2).
Proof. split; [eexists; reflexivity|]. apply backend_reads. lia. Defined.

(** C19: [write_all] and [write_vectored_all] through either adapter put a front part
    of what they are given on the connection, all of it when they succeed, whatever
    short writes, blocked attempts and errors occur on the way, and consume nothing
    of what is to be read: the adapters are the streams the sockets assume. *)
Theorem backend_writes {S : Type} `{Traffic S} `{Reactor S} `{!ReactorLaws S} `{SockRef S} `{!SockRefLaws S} `{TokioIo S}
    `{!TokioIoLaws S} (e1 : WriteExt (SmolStream S)) (e2 : WriteExt (TokioStream S)) (s : S) (bufs : list bytes) :
  front_sent (mk_smol s) (concat bufs) (@io_write_vectored_all _ _ e1 (mk_smol s) bufs) /\
  front_sent (mk_tokio s) (concat bufs) (@io_write_vectored_all _ _ e2 (mk_tokio s) bufs) /\
  front_sent (mk_smol s) (concat bufs) (@io_write_all _ _ e1 (mk_smol s) (concat bufs)) /\
  front_sent (mk_tokio s) (concat bufs) (@io_write_all _ _ e2 (mk_tokio s) (concat bufs)).
Proof. split_and!; [apply owned_vectored_effect|apply owned_vectored_effect|apply owned_write_effect|apply owned_write_effect]. Qed.

Lemma backend_writes_witness :
  let s := mk_ssock [] [] [] [Some 1; None; Some 5] in
  (exists s', io_write_vectored_all (mk_smol s) [[x01; x02]; [x03]] = (Completed (Ok tt), s')) /\
  front_sent (mk_smol s) [x01; x02; x03] (io_write_vectored_all (mk_smol s) [[x01; x02]; [x03]]) /\
  front_sent (mk_tokio s) [x01; x02; x03] (io_write_all (mk_tokio s) [x01; x02; x03]).
Proof.
  split; [eexists; reflexivity|]. split; apply (backend_writes looping_write_ext looping_write_ext _ [[x01; x02]; [x03]]).
Defined.
