(* ===== verification/Runtime.v ===== *)
(** * Runtime backends: timers, tasks, connections

    The rest of monocoque-core/src/rt: [timeout] of the smol backend, spawning
    and joining under the three backends, and how they resolve addresses, adopt
    listeners and share a split stream.

    The runtimes are outside the repository: a timer, [select], the executor and
    the attaching of a descriptor to a reactor are arguments, with what is
    documented of them as laws. *)

From S2P Require Import Prelude.
From S2P Require Import Options.
From S2P Require Import Address.
From S2P Require Import Stream.
From S2P Require Import Transport.
From S2P Require Import Backends.

(** ** Timers *)

(** A future: its state, and what polling it in a world does. *)
Abbreviation poll_fn F A W := (F -> W -> option A * F * W).

Class TimerLib (W : Type) := {
  now : W -> Z;
  Timer : Type;
  timer_after : Z -> W -> Timer;                   (** [Timer::after] *)
  timer_poll : poll_fn Timer unit W;
}.

(** [futures::future::select]. *)
Class SelectLib (W : Type) :=
  select_poll : forall {F G A B : Type}, poll_fn F A W -> poll_fn G B W -> poll_fn (F * G) (A + B) W.

Class TimerLaws (W : Type) `{TimerLib W} `{SelectLib W} := {
  (** a timer is ready once its time has come, and changes nothing *)
  timer_spec dur w0 w :
    timer_poll (timer_after dur w0) w = (if now w0 + dur <=? now w then Some tt else None, timer_after dur w0, w);
  (** the first future is polled first, the second one only if it is pending *)
  select_spec F G A B (pf : poll_fn F A W) (pg : poll_fn G B W) f g w :
    select_poll pf pg (f, g) w =
      (let '(a, f, w) := pf f w in
       match a with
       | Some a => (Some (inl a), (f, g), w)
       | None => let '(b, g, w) := pg g w in (inr <$> b, (f, g), w)
       end);
}.

Inductive Elapsed := mk_elapsed.

Section timeout.
Context {W : Type} `{TimerLib W} `{SelectLib W}.

(** The body of [timeout] runs from its first poll on: the timer starts there. *)
Inductive timeout_state (F : Type) :=
| Unpolled (fut : F)
| Selecting (sel : F * Timer).
Arguments Unpolled {F} _.
Arguments Selecting {F} _.

Definition timeout_poll {F A} (dur : Z) (poll : poll_fn F A W) : poll_fn (timeout_state F) (result Elapsed A) W :=
  λ st w,
    let sel := match st with Unpolled fut => (fut, timer_after dur w) | Selecting sel => sel end in
    let '(r, sel, w) := select_poll poll timer_poll sel w in
    (match r with Some (inl val) => Some (Ok val) | Some (inr _) => Some (Err mk_elapsed) | None => None end, Selecting sel, w).

(** A task is polled, and again after each change of the world that wakes it. *)
Fixpoint run_polls {F A} (poll : poll_fn F A W) (f : F) (w : W) (env : list (W -> W)) : option A * F * W :=
  match poll f w with
  | (Some a, f, w) => (Some a, f, w)
  | (None, f, w) => match env with [] => (None, f, w) | step :: env => run_polls poll f (step w) env end
  end.

Context `{!TimerLaws W}.

(** What is promised of a run under a deadline: it ends with the value if the
    future is ready first, also when the deadline has come by then, otherwise at
    the first poll that finds the deadline passed. *)
Definition within {F A} (poll : poll_fn F A W) (deadline : Z) (f : F) (w : W) (env : list (W -> W))
    (r : option (result Elapsed A)) (w' : W) : Prop :=
  exists env1, env1 `prefix_of` env /\ (run_polls poll f w env1).2 = w' /\
    (forall env2, env2 `prefix_of` env1 -> env2 <> env1 ->
       (run_polls poll f w env2).1.1 = None /\ now (run_polls poll f w env2).2 < deadline) /\
    match r with
    | Some (Ok a) => (run_polls poll f w env1).1.1 = Some a
    | Some (Err _) => (run_polls poll f w env1).1.1 = None /\ deadline <= now w'
    | None => (run_polls poll f w env1).1.1 = None /\ now w' < deadline /\ env1 = env
    end.

Lemma timeout_poll_selecting {F A} (poll : poll_fn F A W) dur w0 f w :
  timeout_poll dur poll (Selecting (f, timer_after dur w0)) w =
    match poll f w with
    | (Some a, f, w) => (Some (Ok a), Selecting (f, timer_after dur w0), w)
    | (None, f, w) =>
        (if now w0 + dur <=? now w then Some (Err mk_elapsed) else None, Selecting (f, timer_after dur w0), w)
    end.
Proof.
  unfold timeout_poll. rewrite select_spec. destruct (poll f w) as [[[a|] f'] w']; [done|]. rewrite timer_spec.
  by destruct (now w0 + dur <=? now w').
Qed.

Lemma selecting_within {F A} (poll : poll_fn F A W) dur w0 f w env :
  within poll (now w0 + dur) f w env (run_polls (timeout_poll dur poll) (Selecting (f, timer_after dur w0)) w env).1.1
    (run_polls (timeout_poll dur poll) (Selecting (f, timer_after dur w0)) w env).2.
Proof.
  assert (Hnil : forall (env2 : list (W -> W)), env2 `prefix_of` [] -> env2 <> [] -> False).
  { by intros env2 ?%prefix_nil_inv. }
  revert f w. induction env as [|step env IH]; intros f w; cbn [run_polls]; rewrite timeout_poll_selecting;
    destruct (poll f w) as [[[a|] f'] w'] eqn:E; cbn.
  - exists []. cbn. rewrite E. split_and!; [done|done|by intros ? ? ?; exfalso; eapply Hnil|done].
  - exists []. cbn. rewrite E.
    destruct (Z.leb_spec (now w0 + dur) (now w')); cbn; split_and!; try done; by intros ? ? ?; exfalso; eapply Hnil.
  - exists []. cbn. rewrite E. split_and!; [apply prefix_nil|done|by intros ? ? ?; exfalso; eapply Hnil|done].
  - destruct (Z.leb_spec (now w0 + dur) (now w')); cbn.
    + exists []. cbn. rewrite E. split_and!; [apply prefix_nil|done|by intros ? ? ?; exfalso; eapply Hnil|done|done].
    + destruct (IH f' (step w')) as (env1 & Hp & Hw & Hb & Hr). exists (step :: env1). cbn [run_polls]. rewrite E.
      split_and!; [by apply prefix_cons|done| |].
      * intros env2 Hp2 Hne. destruct env2 as [|step2 env2]; cbn [run_polls]; rewrite E; [done|].
        apply prefix_cons_inv_1 in Hp2 as Hs. subst step2. apply prefix_cons_inv_2 in Hp2. apply Hb; [done|congruence].
      * destruct (run_polls (timeout_poll dur poll) _ _ env).1.1 as [[|]|]; [done|done|].
        destruct Hr as (? & ? & ->). done.
Qed.

Lemma unpolled_selecting {F A} (poll : poll_fn F A W) dur f w env :
  run_polls (timeout_poll dur poll) (Unpolled f) w env =
    run_polls (timeout_poll dur poll) (Selecting (f, timer_after dur w)) w env.
Proof. by destruct env. Qed.
End timeout.
Arguments Unpolled {W _ F} _.
Arguments Selecting {W _ F} _.

(** C25: under the smol backend's [timeout], whatever wakes the task in between, a
    future ends with its value if it is ready at or before the first poll that finds
    the deadline passed, a tie included, and with [Elapsed] at that poll otherwise;
    it is pending only while the deadline has not come.  Until then the future runs
    as it would alone, and it is not polled again afterwards. *)
Theorem timeout_outcome {W : Type} `{TimerLib W} `{SelectLib W} `{!TimerLaws W} {F A : Type} (poll : poll_fn F A W) (dur : Z)
    (f : F) (w : W) (env : list (W -> W)) :
  let '(r, _, w') := run_polls (timeout_poll dur poll) (Unpolled f) w env in within poll (now w + dur) f w env r w'.
Proof.
  rewrite unpolled_selecting. pose proof (selecting_within poll dur w f w env) as Hw.
  by destruct (run_polls _ _ _ _) as [[r st] w'].
Qed.

(** A clock in milliseconds. *)
#[export] Instance clock_timer : TimerLib Z := {
  now w := w;
  Timer := Z;
  timer_after dur w := w + dur;
  timer_poll t w := (if t <=? w then Some tt else None, t, w);
}.

#[export] Instance ordered_select : SelectLib Z := λ F G A B pf pg '(f, g) w,
  let '(a, f, w) := pf f w in
  match a with
  | Some a => (Some (inl a), (f, g), w)
  | None => let '(b, g, w) := pg g w in (inr <$> b, (f, g), w)
  end.

#[export] Instance clock_laws : TimerLaws Z.
Proof. by split. Qed.

(** Ready at a time, with the number of polls it took. *)
Definition ready_at (t : Z) : poll_fn nat nat Z := λ n w, (if t <=? w then Some n else None, Datatypes.S n, w).

Lemma timeout_outcome_witness :
  (run_polls (timeout_poll 10 (ready_at 10)) (Unpolled 0%nat) 0 [Z.add 4; Z.add 6; Z.add 5]).1.1 = Some (Ok 2%nat) /\
  (run_polls (timeout_poll 10 (ready_at 11)) (Unpolled 0%nat) 0 [Z.add 4; Z.add 6; Z.add 5]).1.1 = Some (Err mk_elapsed) /\
  within (ready_at 11) 10 0%nat 0 [Z.add 4; Z.add 6; Z.add 5] (Some (Err mk_elapsed)) 10.
Proof.
  split; [reflexivity|]. split; [reflexivity|].
  exact (timeout_outcome (ready_at 11) 10 0%nat 0 [Z.add 4; Z.add 6; Z.add 5]).
Defined.

(** ** Tasks

    The executors: tasks are known by a number, and a task goes on running while
    nobody has cancelled it. *)

Inductive TaskStatus (A : Type) :=
| Running
| Finished (a : A)
| Crashed          (** its future panicked *)
| Cancelled.
Arguments Running {A}.
Arguments Finished {A} _.
Arguments Crashed {A}.
Arguments Cancelled {A}.

Class TaskLib (X F A : Type) := {
  task_status : X -> nat -> option (TaskStatus A);
  lib_spawn : X -> F -> nat * X;
  lib_detach : X -> nat -> X;
  lib_drop_handle : X -> nat -> X;
}.

(** What the documentation of an executor says; they differ in what dropping a
    handle does. *)
Class TaskLaws (X F A : Type) `{TaskLib X F A} (cancel_on_drop : bool) := {
  lib_spawn_spec x f t x' : lib_spawn x f = (t, x') ->
    task_status x t = None /\ task_status x' t = Some Running /\ forall u, u <> t -> task_status x' u = task_status x u;
  lib_detach_spec x t u : task_status (lib_detach x t) u = task_status x u;
  lib_drop_spec x t :
    task_status (lib_drop_handle x t) t =
      match task_status x t with
      | Some Running => Some (if cancel_on_drop then Cancelled else Running)
      | st => st
      end;
  lib_drop_other x t u : u <> t -> task_status (lib_drop_handle x t) u = task_status x u;
}.

Inductive Backend := Compio | Tokio | Smol.

(** The Cargo features that are on; [None] is a [compile_error!]. *)
Definition select_backend (runtime_compio runtime_tokio runtime_smol : bool) : option Backend :=
  if runtime_compio && runtime_tokio then None
  else if runtime_compio && runtime_smol then None
  else if runtime_tokio && runtime_smol then None
  else if negb (runtime_compio || runtime_tokio || runtime_smol) then None
  else if runtime_compio then Some Compio
  else if runtime_tokio && negb runtime_compio then Some Tokio
  else if runtime_smol && negb runtime_compio && negb runtime_tokio then Some Smol
  else None.

Lemma select_backend_spec c t s b :
  select_backend c t s = Some b <->
    (c, t, s) = match b with Compio => (true, false, false) | Tokio => (false, true, false) | Smol => (false, false, true) end.
Proof. by destruct c, t, s, b. Qed.

(** What the three [JoinHandle] types are documented to do when dropped. *)
Definition cancels_on_drop (b : Backend) : bool := match b with Smol => true | Compio | Tokio => false end.

Inductive JoinError := mk_join_error.

Section tasks.
Context {X F A : Type} `{TaskLib X F A}.

Definition compio_spawn_detached (x : X) (fut : F) : X := let '(t, x) := lib_spawn x fut in lib_detach x t.
Definition tokio_spawn_detached (x : X) (fut : F) : X := let '(t, x) := lib_spawn x fut in lib_drop_handle x t.
Definition smol_spawn_detached (x : X) (fut : F) : X := let '(t, x) := lib_spawn x fut in lib_detach x t.

Definition spawn_detached (b : Backend) : X -> F -> X :=
  match b with
  | Compio => compio_spawn_detached
  | Tokio => tokio_spawn_detached
  | Smol => smol_spawn_detached
  end.

(** [join]: awaiting a handle gives a [Result] under compio and tokio, which
    [expect] unwraps, and the output itself under smol; [None] is a panic. *)
Definition compio_join (awaited : result JoinError A) : option A := match awaited with Ok a => Some a | Err _ => None end.
Definition tokio_join (awaited : result JoinError A) : option A := match awaited with Ok a => Some a | Err _ => None end.
Definition smol_join (awaited : option A) : option A := awaited.

(** [spawn_blocking] unwraps in the same way. *)
Definition compio_spawn_blocking (awaited : result JoinError A) : option A :=
  match awaited with Ok a => Some a | Err _ => None end.
Definition tokio_spawn_blocking (awaited : result JoinError A) : option A :=
  match awaited with Ok a => Some a | Err _ => None end.

(** The fields of a [PullFanIn] are dropped, the reader handles among them. *)
Definition drop_readers (x : X) (readers : list nat) : X := foldl lib_drop_handle x readers.

(** [PullFanIn::accept_workers]: each connection accepted and set up gives the
    future of its reader; an error returns, and drops the readers there are. *)
Fixpoint spawn_readers (x : X) (accepts : list (io_result F)) (readers : list nat) : io_result (list nat) * X :=
  match accepts with
  | [] => (Ok readers, x)
  | Ok fut :: accepts => let '(t, x) := lib_spawn x fut in spawn_readers x accepts (readers ++ [t])
  | Err e :: _ => (Err e, drop_readers x readers)
  end.

(** [PullFanIn::bind_with_options]; [listen] is [TcpListener::bind]. *)
Definition fanin_bind {L} (listen : io_result L) (x : X) (accepts : list (io_result F)) : io_result (L * list nat) * X :=
  match listen with
  | Err e => (Err e, x)
  | Ok l => match spawn_readers x accepts [] with (Ok rs, x) => (Ok (l, rs), x) | (Err e, x) => (Err e, x) end
  end.

Context (b : Backend) `{!TaskLaws X F A (cancels_on_drop b)}.

Lemma spawn_detached_running x fut :
  exists t, task_status x t = None /\ task_status (spawn_detached b x fut) t = Some Running /\
    forall u, u <> t -> task_status (spawn_detached b x fut) u = task_status x u.
Proof.
  unfold spawn_detached. destruct b;
    unfold compio_spawn_detached, tokio_spawn_detached, smol_spawn_detached;
    destruct (lib_spawn x fut) as [t x'] eqn:E; apply lib_spawn_spec in E as (Hn & Hr & Ho);
    exists t; (split; [done|]).
  1,3: split; [by rewrite lib_detach_spec|]; intros u Hu; rewrite lib_detach_spec; by apply Ho.
  split; [by rewrite lib_drop_spec, Hr|]. intros u Hu. rewrite lib_drop_other by done. by apply Ho.
Qed.

Lemma drop_readers_other x readers u : u ∉ readers -> task_status (drop_readers x readers) u = task_status x u.
Proof.
  revert x. induction readers as [|t readers IH]; intros x Hu; [done|]. apply not_elem_of_cons in Hu as [Hne Hu].
  cbn. rewrite (IH _ Hu). by apply lib_drop_other.
Qed.

Lemma drop_readers_status x readers t :
  NoDup readers -> t ∈ readers -> task_status x t = Some Running ->
  task_status (drop_readers x readers) t = Some (if cancels_on_drop b then Cancelled else Running).
Proof.
  intros Hnd. revert x. induction Hnd as [|u readers Hu Hnd IH]; intros x Ht Hr; [by apply not_elem_of_nil in Ht|].
  cbn. destruct (decide (t = u)) as [->|Hne].
  - etransitivity; [by apply (drop_readers_other (lib_drop_handle x u))|]. by rewrite lib_drop_spec, Hr.
  - apply IH; [set_solver|]. by rewrite lib_drop_other.
Qed.

(** A failed [accept_workers] leaves other tasks alone; the readers it had spawned
    are cancelled under smol and go on running, for a sink that does not exist, under
    compio and tokio. *)
Lemma spawn_readers_spec x0 x accepts readers :
  NoDup readers -> (forall t, t ∈ readers -> task_status x0 t = None /\ task_status x t = Some Running) ->
  (forall u, u ∉ readers -> task_status x u = task_status x0 u) ->
  match spawn_readers x accepts readers with
  | (Ok rs, x') => NoDup rs /\ (forall t, t ∈ rs -> task_status x' t = Some Running) /\
      (forall u, u ∉ rs -> task_status x' u = task_status x0 u) /\ length rs = (length readers + length accepts)%nat
  | (Err _, x') => forall t, task_status x' t = task_status x0 t \/
      (task_status x0 t = None /\ task_status x' t = Some (if cancels_on_drop b then Cancelled else Running))
  end.
Proof.
  revert x readers. induction accepts as [|[fut|e] accepts IH]; intros x readers Hnd Hr Ho; cbn [spawn_readers].
  - split_and!; [done| |done|cbn; lia]. intros t Ht. by apply Hr.
  - destruct (lib_spawn x fut) as [t x'] eqn:E. apply lib_spawn_spec in E as (Hn & Hrun & Hoth).
    assert (Hfresh : t ∉ readers) by (intros Hin; destruct (Hr t Hin) as [_ ?]; congruence).
    replace (length readers + length (Ok fut :: accepts))%nat with (length (readers ++ [t]) + length accepts)%nat
      by (rewrite length_app; cbn; lia).
    apply IH.
    + apply list.NoDup_app. split_and!; [done| |apply NoDup_singleton]. intros u Hu Hu'%list_elem_of_singleton. by subst u.
    + intros u [Hu|Hu%list_elem_of_singleton]%elem_of_app; [|subst u; split; [|done]; by rewrite <- Ho].
      destruct (Hr u Hu) as [? ?]. split; [done|]. rewrite Hoth; [done|]. by intros ->.
    + intros u Hu. apply not_elem_of_app in Hu as [Hu Hu'%not_elem_of_cons]. rewrite Hoth; [by apply Ho|]. apply Hu'.
  - intros t. destruct (decide (t ∈ readers)) as [Ht|Ht].
    + right. destruct (Hr t Ht) as [? ?]. split; [done|]. by apply drop_readers_status.
    + left. rewrite drop_readers_other by done. by apply Ho.
Qed.
End tasks.

(** A task spawned detached runs, under each of the three backends, and no other
    task is touched; dropping a fan-in sink cancels its running readers under smol,
    and under compio and tokio leaves every one of them running. *)
Theorem detached_and_dropped_tasks {X F A : Type} `{TaskLib X F A} (b : Backend) `{!TaskLaws X F A (cancels_on_drop b)} (x : X)
    (fut : F) (readers : list nat) :
  NoDup readers -> (forall t, t ∈ readers -> task_status x t = Some Running) ->
  (exists t, task_status x t = None /\ task_status (spawn_detached b x fut) t = Some Running /\
     forall u, u <> t -> task_status (spawn_detached b x fut) u = task_status x u) /\
  (forall t, t ∈ readers ->
     task_status (drop_readers x readers) t = Some (match b with Smol => Cancelled | Compio | Tokio => Running end)) /\
  (forall u, u ∉ readers -> task_status (drop_readers x readers) u = task_status x u).
Proof.
  intros Hnd Hr. split_and!.
  - by apply spawn_detached_running.
  - intros t Ht. rewrite (drop_readers_status b) by auto. by destruct b.
  - intros u Hu. by apply (drop_readers_other b).
Qed.

(** An executor as a table of tasks. *)
Record TaskTable (F : Type) := mk_tasks { tt_next : nat; tt_tasks : gmap nat (TaskStatus unit) }.
Arguments mk_tasks {F} _ _.
Arguments tt_next {F} _.
Arguments tt_tasks {F} _.

Definition table_lib (cancel : bool) {F} : TaskLib (TaskTable F) F unit := {|
  task_status x t := if bool_decide (t < tt_next x)%nat then tt_tasks x !! t else None;
  lib_spawn x _ := (tt_next x, mk_tasks (Datatypes.S (tt_next x)) (<[tt_next x := Running]> (tt_tasks x)));
  lib_detach x t := x;
  lib_drop_handle x t :=
    match tt_tasks x !! t with
    | Some Running => if cancel then mk_tasks (tt_next x) (<[t := Cancelled]> (tt_tasks x)) else x
    | _ => x
    end;
|}.

Lemma table_laws (cancel : bool) {F} : @TaskLaws (TaskTable F) F unit (table_lib cancel) cancel.
Proof.
  split; cbn.
  - intros x f t x' [= <- <-]. cbn [tt_next tt_tasks]. split_and!; [by rewrite bool_decide_eq_false_2 by lia|
      by rewrite bool_decide_eq_true_2, lookup_insert_eq by lia|].
    intros u Hu. cbn. rewrite lookup_insert_ne by done. destruct (decide (u < tt_next x)%nat).
    + by rewrite !bool_decide_eq_true_2 by lia.
    + by rewrite !bool_decide_eq_false_2 by lia.
  - done.
  - intros x t. destruct (decide (t < tt_next x)%nat) as [Hlt|Hge].
    + rewrite (bool_decide_eq_true_2 (t < tt_next x)%nat) by done.
      destruct (tt_tasks x !! t) as [[]|] eqn:E; try by rewrite bool_decide_eq_true_2, E by done.
      destruct cancel; cbn; rewrite bool_decide_eq_true_2 by done; [by rewrite lookup_insert_eq|done].
    + rewrite (bool_decide_eq_false_2 (t < tt_next x)%nat) by done.
      destruct (tt_tasks x !! t) as [[]|], cancel; by rewrite bool_decide_eq_false_2.
  - intros x t u Hu. destruct (tt_tasks x !! t) as [[]|], cancel; cbn; try done. by rewrite lookup_insert_ne.
Qed.

Lemma detached_and_dropped_tasks_witness :
  let x := mk_tasks 2 {[0%nat := Running; 1%nat := Running]} : TaskTable unit in
  @task_status _ _ _ (table_lib true) (@drop_readers _ _ _ (table_lib true) x [0%nat; 1%nat]) 1%nat = Some Cancelled /\
  @task_status _ _ _ (table_lib false) (@drop_readers _ _ _ (table_lib false) x [0%nat; 1%nat]) 1%nat = Some Running.
Proof.
  split.
  - apply (@detached_and_dropped_tasks _ _ _ (table_lib true) Smol (table_laws true) _ tt [0%nat; 1%nat]);
      [by apply (bool_decide_unpack _); vm_compute|by intros t [->|[->|[]%not_elem_of_nil]%elem_of_cons]%elem_of_cons|set_solver].
  - apply (@detached_and_dropped_tasks _ _ _ (table_lib false) Tokio (table_laws false) _ tt [0%nat; 1%nat]);
      [by apply (bool_decide_unpack _); vm_compute|by intros t [->|[->|[]%not_elem_of_nil]%elem_of_cons]%elem_of_cons|set_solver].
Defined.

(** ** Addresses, listeners, split streams *)

Section connections.
Context (refuses : Z -> SockOpt -> option ErrorKind).
Context (socket : Domain -> io_result unit) (bind listen : Z -> SocketAddr -> io_result unit).
(** Attaching a descriptor to the reactor: [Async::new], [from_std] of tokio and
    compio.  The stream is owned: an error drops it. *)
Context (attach : Z -> io_result unit).

(** The smol backend resolves by itself, to one address. *)
Definition resolve {A} (to_socket_addrs : A -> io_result (list SocketAddr)) (addr : A) : io_result SocketAddr :=
  match to_socket_addrs addr with
  | Err e => Err e
  | Ok [] => Err InvalidInput
  | Ok (a :: _) => Ok a
  end.

(** [TcpStream::connect] and [TcpListener::bind] of the smol backend. *)
Definition smol_resolved {A S} (to_socket_addrs : A -> io_result (list SocketAddr)) (open : SocketAddr -> completion S) (addr : A)
    : completion S :=
  match resolve to_socket_addrs addr with
  | Err e => Completed (Err e)
  | Ok target => open target
  end.

(** [TcpStream::connect] and [accept], [UnixStream::connect] and [accept]: the
    library's stream in the adapter. *)
Definition in_adapter {S T} (mk : S -> T) (c : completion S) : completion T :=
  match c with
  | Completed (Ok s) => Completed (Ok (mk s))
  | Completed (Err e) => Completed (Err e)
  | Stalled => Stalled
  end.

Definition smol_connect {A S} (to_socket_addrs : A -> io_result (list SocketAddr)) (connect : SocketAddr -> completion S) (addr : A)
    : completion (SmolStream S) :=
  in_adapter mk_smol (smol_resolved to_socket_addrs connect addr).

Definition smol_unix_connect {S} (connect : bytes -> completion S) (path : bytes) : completion (SmolStream S) :=
  in_adapter mk_smol (connect path).

Definition smol_accept {S Addr} (accept : completion (S * Addr)) : completion (SmolStream S * Addr) :=
  in_adapter (λ r, (mk_smol r.1, r.2)) accept.

Definition tokio_connect {A S} (connect : A -> completion S) (addr : A) : completion (TokioStream S) :=
  in_adapter mk_tokio (connect addr).

Definition tokio_unix_connect {S} (connect : bytes -> completion S) (path : bytes) : completion (TokioUnixStream S) :=
  in_adapter mk_tokio_unix (connect path).

Definition tokio_accept {S Addr} (accept : completion (S * Addr)) : completion (TokioStream S * Addr) :=
  in_adapter (λ r, (mk_tokio r.1, r.2)) accept.

(** A connection is attempted to the first address alone. *)
Lemma smol_connect_first {A S} to_socket_addrs (connect : SocketAddr -> completion S) (addr : A) :
  smol_connect to_socket_addrs connect addr =
    match to_socket_addrs addr with
    | Ok (a :: _) => in_adapter mk_smol (connect a)
    | Ok [] => Completed (Err InvalidInput)
    | Err e => Completed (Err e)
    end.
Proof. unfold smol_connect, smol_resolved, resolve. by destruct (to_socket_addrs addr) as [[|a l]|e]. Qed.

(** [LocalRuntime::new]: [build] is what the runtime's builder gives; smol's
    executor is there already. *)
Definition compio_runtime_new {R} (build : io_result R) : io_result R := match build with Ok r => Ok r | Err e => Err e end.
Definition tokio_runtime_new {R L} (build : io_result R) (local_set : L) : io_result (R * L) :=
  match build with Ok r => Ok (r, local_set) | Err e => Err e end.
Definition smol_runtime_new : io_result unit := Ok tt.

Definition adopt (k : Kernel) (fd : Z) : io_result Z * Kernel :=
  match attach fd with Ok _ => (Ok fd, k) | Err e => (Err e, close_fd k fd) end.

(** [from_std] of the adapters, for streams and listeners; compio's is the
    library's own. *)
Definition smol_from_std (k : Kernel) (fd : Z) : io_result Z * Kernel := adopt k fd.

Definition tokio_from_std (k : Kernel) (fd : Z) : io_result Z * Kernel :=
  match setsockopt refuses k fd (NonBlocking true) with
  | (Err e, k) => (Err e, close_fd k fd)
  | (Ok _, k) => adopt k fd
  end.

Definition from_std (b : Backend) : Kernel -> Z -> io_result Z * Kernel :=
  match b with Compio => adopt | Smol => smol_from_std | Tokio => tokio_from_std end.

Definition bind_reuseport (b : Backend) (k : Kernel) (addr : SocketAddr) : io_result Z * Kernel :=
  match reuseport_listener refuses socket bind listen k addr with
  | (Err e, k) => (Err e, k)
  | (Ok fd, k) => from_std b k fd
  end.

(** The options a listener ends up with. *)
Definition listener_opts (b : Backend) : list SockOpt :=
  [ReuseAddress true; ReusePort true] ++ (match b with Tokio => [NonBlocking true] | Compio | Smol => [] end).

(** A descriptor opened on [k] and still open, with the options [opts]. *)
Definition opened (k : Kernel) (fd : Z) (opts : list SockOpt) (k' : Kernel) : Prop :=
  (fd ∉ open_fds k) /\ open_fds k' = {[fd]} ∪ open_fds k /\ applied k' = applied k ++ ((λ opt, (fd, opt)) <$> opts).

Lemma opened_close k fd opts k' : opened k fd opts k' -> open_fds (close_fd k' fd) = open_fds k.
Proof. intros (Hf & Ho & _). cbn. rewrite Ho. set_solver. Qed.

Lemma set_all_opened k fd l k1 opts :
  opened k fd l k1 ->
  match set_all refuses k1 fd opts with
  | (Ok _, k2) => opened k fd (l ++ opts) k2
  | (Err _, k2) => open_fds (close_fd k2 fd) = open_fds k
  end.
Proof.
  intros Ho. destruct Ho as (Hf & Hop & Hap). rewrite set_all_accepted by (rewrite Hop; set_solver).
  pose proof (accepted_all refuses fd opts) as Hall.
  destruct (accepted_opts refuses fd opts) as [dn [[o e]|]]; cbn in *.
  - rewrite Hop. set_solver.
  - rewrite Hall by done. split_and!; [done|done|]. cbn. by rewrite Hap, fmap_app, app_assoc.
Qed.

Lemma reuseport_listener_opened k addr :
  match reuseport_listener refuses socket bind listen k addr with
  | (Ok fd, k') => opened k fd [ReuseAddress true; ReusePort true] k'
  | (Err _, k') => open_fds k' = open_fds k
  end.
Proof.
  unfold reuseport_listener. destruct (socket (domain_of addr)); [|done].
  pose proof (open_fd_fresh k) as Hf. destruct (open_fd k) as [fd k1] eqn:Eo. cbn in Hf.
  assert (Ho : opened k fd [] k1).
  { unfold open_fd in Eo. injection Eo as <- <-. split_and!; [done|done|]. by rewrite app_nil_r. }
  pose proof (set_all_opened k fd [] k1 [ReuseAddress true; ReusePort true] Ho) as Hs.
  destruct (set_all refuses k1 fd _) as [[u|e] k2]; [|done]. cbn in Hs.
  destruct (bind fd addr); [|by apply (opened_close _ _ _ _ Hs)]. destruct (listen fd addr); [done|]. by apply (opened_close _ _ _ _ Hs).
Qed.

Lemma adopt_opened k fd opts k1 : opened k fd opts k1 ->
  match adopt k1 fd with
  | (Ok fd', k') => fd' = fd /\ opened k fd opts k'
  | (Err _, k') => open_fds k' = open_fds k
  end.
Proof. intros Ho. unfold adopt. destruct (attach fd); [done|]. by eapply opened_close. Qed.

Lemma bind_reuseport_opened b k addr :
  match bind_reuseport b k addr with
  | (Ok fd, k') => opened k fd (listener_opts b) k'
  | (Err _, k') => open_fds k' = open_fds k
  end.
Proof.
  unfold bind_reuseport. pose proof (reuseport_listener_opened k addr) as Hr.
  destruct (reuseport_listener refuses socket bind listen k addr) as [[fd|e] k1]; [|done].
  unfold from_std, smol_from_std, tokio_from_std. destruct b.
  1,3: pose proof (adopt_opened _ _ _ _ Hr) as Ha; destruct (adopt k1 fd) as [[fd'|e] k']; [by destruct Ha as [-> Ha]|done].
  pose proof (set_all_opened k fd _ k1 [NonBlocking true] Hr) as Hs. cbn [set_all] in Hs.
  destruct (setsockopt refuses k1 fd (NonBlocking true)) as [[u|e] k2]; [|done].
  pose proof (adopt_opened _ _ _ _ Hs) as Ha. destruct (adopt k2 fd) as [[fd'|e] k']; [by destruct Ha as [-> Ha]|done].
Qed.
End connections.

(** Binding a shared port, under each backend, gives a descriptor that was free,
    open and with [SO_REUSEADDR], [SO_REUSEPORT] and, under tokio, non-blocking mode
    set in that order; whichever step fails, no descriptor stays open that was not
    open before, and none is lost. *)
Theorem bind_reuseport_outcome (refuses : Z -> SockOpt -> option ErrorKind) (socket : Domain -> io_result unit)
    (bind listen : Z -> SocketAddr -> io_result unit) (attach : Z -> io_result unit) (b : Backend) (k : Kernel) (addr : SocketAddr) :
  match bind_reuseport refuses socket bind listen attach b k addr with
  | (Ok fd, k') => (fd ∉ open_fds k) /\ open_fds k' = {[fd]} ∪ open_fds k /\
      applied k' = applied k ++ ((λ opt, (fd, opt)) <$>
        [ReuseAddress true; ReusePort true] ++ (match b with Tokio => [NonBlocking true] | Compio | Smol => [] end))
  | (Err _, k') => open_fds k' = open_fds k
  end.
Proof. apply bind_reuseport_opened. Qed.

(** ** Accepting without descriptors

    An error is known by its OS code.  [accept] of XPUB and STREAM sleeps before it
    returns an error that says that the descriptors are used up. *)

Definition ACCEPT_FD_EXHAUSTION_BACKOFF : Z := 10.

Definition is_fd_exhaustion (raw_os_error : option Z) : bool :=
  match raw_os_error with Some code => (code =? 23) || (code =? 24) | None => false end.

(** When it returns, if it is called at [now]. *)
Definition backoff_on_fd_exhaustion (raw_os_error : option Z) (now : Z) : Z :=
  if is_fd_exhaustion raw_os_error then now + ACCEPT_FD_EXHAUSTION_BACKOFF else now.

(** A loop of accepts that fail at once with the given errors. *)
Definition accept_loop (now : Z) (errors : list (option Z)) : Z := foldl (λ now e, backoff_on_fd_exhaustion e now) now errors.

(** It does not spin: [n] accepts without descriptors take ten times [n]
    milliseconds. *)
Lemma accept_loop_throttled now errors :
  accept_loop now errors = now + ACCEPT_FD_EXHAUSTION_BACKOFF * len (filter (λ e, is_fd_exhaustion e = true) errors).
Proof.
  unfold accept_loop. revert now. induction errors as [|e errors IH]; intros now; [unfold len; cbn; lia|]. cbn [foldl].
  rewrite IH, filter_cons. unfold backoff_on_fd_exhaustion. unfold ACCEPT_FD_EXHAUSTION_BACKOFF.
  destruct (is_fd_exhaustion e) eqn:E; [rewrite decide_True by done|rewrite decide_False by done]; rewrite ?len_cons; lia.
Qed.

(** *** Split streams

    A smol stream is an [Arc]: its descriptor is closed with the last handle. *)

Record Shared := mk_shared { sh_kernel : Kernel; sh_handles : gmap Z nat }.

Definition arc_clone (s : Shared) (fd : Z) : Shared := mk_shared (sh_kernel s) (alter Datatypes.S fd (sh_handles s)).

Definition arc_drop (s : Shared) (fd : Z) : Shared :=
  match sh_handles s !! fd with
  | Some (Datatypes.S (Datatypes.S n)) => mk_shared (sh_kernel s) (<[fd := Datatypes.S n]> (sh_handles s))
  | Some _ => mk_shared (close_fd (sh_kernel s) fd) (delete fd (sh_handles s))
  | None => s
  end.

(** The read half is a clone, the write half takes the handle over. *)
Definition smol_into_split (s : Shared) (fd : Z) : Z * Z * Shared := (fd, fd, arc_clone s fd).

(** A descriptor with a handle is open. *)
Definition shared_ok (s : Shared) : Prop := forall fd n, sh_handles s !! fd = Some n -> (0 < n)%nat /\ fd ∈ open_fds (sh_kernel s).

Lemma arc_clone_ok s fd : shared_ok s -> shared_ok (arc_clone s fd).
Proof.
  intros Hs x n. cbn. destruct (decide (x = fd)) as [->|Hne].
  - rewrite lookup_alter_eq. destruct (sh_handles s !! fd) as [m|] eqn:E; [|done]. intros [= <-]. split; [lia|]. by eapply Hs.
  - rewrite lookup_alter_ne by done. apply Hs.
Qed.

Lemma arc_drop_ok s fd : shared_ok s -> shared_ok (arc_drop s fd).
Proof.
  intros Hs x n. unfold arc_drop. destruct (sh_handles s !! fd) as [[|[|m]]|] eqn:E; cbn; [| | |apply Hs].
  1,2: destruct (decide (x = fd)) as [->|Hne]; [by rewrite lookup_delete_eq|];
    rewrite lookup_delete_ne by done; intros Hx; apply Hs in Hx as [? ?]; split; [done|set_solver].
  destruct (decide (x = fd)) as [->|Hne].
  - rewrite lookup_insert_eq. intros [= <-]. split; [lia|]. by eapply Hs.
  - rewrite lookup_insert_ne by done. apply Hs.
Qed.

(** Either half of a split stream keeps the connection open; with the second one it
    is closed. *)
Lemma split_halves s fd r w s1 :
  shared_ok s -> sh_handles s !! fd = Some 1%nat -> smol_into_split s fd = (r, w, s1) ->
  fd ∈ open_fds (sh_kernel (arc_drop s1 r)) /\ fd ∈ open_fds (sh_kernel (arc_drop s1 w)) /\
  fd ∉ open_fds (sh_kernel (arc_drop (arc_drop s1 r) w)).
Proof.
  intros Hs E [= <- <- <-]. unfold arc_drop, arc_clone. cbn. rewrite lookup_alter_eq, E. cbn. rewrite lookup_insert_eq. cbn.
  split_and!; [by eapply Hs|by eapply Hs|set_solver].
Qed.
