(* ===== verification/Redaction.v ===== *)
(** * Debug output

    The [fmt::Debug] implementations written by hand: [SocketOptions] of
    monocoque-core/src/options.rs, [PlainCredentials], [StaticPlainHandler],
    [ZapRequest], the keys and the cipher of monocoque-zmtp/src/security, and
    the sockets of base.rs and xpub.rs.  A value is formatted to the tree of
    what it passes to the formatter; the text is a function of that tree.

    What is formatted ends up in logs, so that what matters is what it does not
    depend on. *)

From S2P Require Import Prelude.
From S2P Require Import SegBuffer.
From S2P Require Import Codec.
From S2P Require Import Options.
From S2P Require Import Address.
From S2P Require Import Reconnect.
From S2P Require Import Greeting.
From S2P Require Import Subscription.
From S2P Require Import CurveMessage.
From S2P Require Import Stream.
From S2P Require Import Zap.
From S2P Require Import ZapAuth.
From S2P Require Import Plain.
From S2P Require Import CurveHandshake.
From S2P Require Import Base.
From S2P Require Import XPub.

(** ** What a formatter is given *)

Inductive Dbg :=
| DNum (z : Z)
| DBool (b : bool)
| DBytes (bs : bytes)
| DText (s : string)                                        (** [write_str] and string literals *)
| DNone
| DSome (d : Dbg)
| DList (ds : list Dbg)
| DStruct (name : string) (fields : list (string * Dbg)) (finish : bool).   (** [finish] or [finish_non_exhaustive] *)

Class Debug (A : Type) := debug : A -> Dbg.

#[export] Instance debug_Z : Debug Z := DNum.
#[export] Instance debug_bool : Debug bool := DBool.
#[export] Instance debug_bytes : Debug bytes := DBytes.
#[export] Instance debug_string : Debug string := DText.
#[export] Instance debug_option {A} `{Debug A} : Debug (option A) :=
  λ x, match x with None => DNone | Some a => DSome (debug a) end.
#[export] Instance debug_list {A} `{Debug A} : Debug (list A) := λ l, DList (debug <$> l).

(** ** Options *)

Definition redacted : string := "[REDACTED]".

#[export] Instance debug_options : Debug SocketOptions := λ o,
  DStruct "SocketOptions" [
    ("read_buffer_size", debug (effective_read_buffer_size o));
    ("write_buffer_size", debug (write_buffer_size o));
    ("recv_timeout", debug (recv_timeout o));
    ("send_timeout", debug (send_timeout o));
    ("handshake_timeout", debug (handshake_timeout o));
    ("linger", debug (linger o));
    ("reconnect_ivl", debug (reconnect_ivl o));
    ("reconnect_ivl_max", debug (reconnect_ivl_max o));
    ("connect_timeout", debug (connect_timeout o));
    ("recv_hwm", debug (recv_hwm o));
    ("send_hwm", debug (send_hwm o));
    ("immediate", debug (immediate o));
    ("max_msg_size", debug (max_msg_size o));
    ("routing_id", debug (routing_id o));
    ("connect_routing_id", debug (connect_routing_id o));
    ("router_mandatory", debug (router_mandatory o));
    ("router_handover", debug (router_handover o));
    ("probe_router", debug (probe_router o));
    ("xpub_verbose", debug (xpub_verbose o));
    ("xpub_manual", debug (xpub_manual o));
    ("xpub_welcome_msg", debug (xpub_welcome_msg o));
    ("xsub_verbose_unsubs", debug (xsub_verbose_unsubs o));
    ("conflate", debug (conflate o));
    ("tcp_keepalive", debug (tcp_keepalive o));
    ("tcp_keepalive_cnt", debug (tcp_keepalive_cnt o));
    ("tcp_keepalive_idle", debug (tcp_keepalive_idle o));
    ("tcp_keepalive_intvl", debug (tcp_keepalive_intvl o));
    ("req_correlate", debug (req_correlate o));
    ("req_relaxed", debug (req_relaxed o));
    ("rate", debug (rate o));
    ("recovery_ivl", debug (recovery_ivl o));
    ("sndbuf", debug (sndbuf o));
    ("rcvbuf", debug (rcvbuf o));
    ("reuse_port", debug (reuse_port o));
    ("multicast_hops", debug (multicast_hops o));
    ("tos", debug (tos o));
    ("multicast_maxtpdu", debug (multicast_maxtpdu o));
    ("ipv6", debug (ipv6 o));
    ("bind_to_device", debug (bind_to_device o));
    ("plain_server", debug (plain_server o));
    ("plain_username", debug (plain_username o));
    ("plain_password", debug ((λ _, redacted) <$> plain_password o));
    ("curve_server", debug (curve_server o));
    ("curve_publickey", debug (curve_publickey o));
    ("curve_secretkey", debug ((λ _, redacted) <$> curve_secretkey o));
    ("curve_serverkey", debug (curve_serverkey o));
    ("zap_domain", debug (zap_domain o));
    ("subscriptions", debug (subscriptions o));
    ("unsubscriptions", debug (unsubscriptions o));
    ("max_reconnect_attempts", debug (max_reconnect_attempts o));
    ("heartbeat_ivl", debug (heartbeat_ivl o));
    ("heartbeat_ttl", debug (heartbeat_ttl o));
    ("heartbeat_timeout", debug (heartbeat_timeout o));
    ("router_raw", debug (router_raw o));
    ("stream_notify", debug (stream_notify o));
    ("xpub_nodrop", debug (xpub_nodrop o));
    ("invert_matching", debug (invert_matching o));
    ("write_coalescing", debug (write_coalescing o));
    ("write_coalesce_threshold", debug (write_coalesce_threshold o));
    ("vectored_write_threshold", debug (vectored_write_threshold o))] true.

(** ** Credentials and keys *)

#[export] Instance debug_plain_credentials : Debug PlainCredentials := λ c,
  DStruct "PlainCredentials" [("username", debug (pc_username c)); ("password", DText "<redacted>")] true.

#[export] Instance debug_static_handler : Debug StaticPlainHandler := λ h,
  DStruct "StaticPlainHandler" [("credential_count", debug (Z.of_nat (size (credentials h))))] true.

(** [derive(Debug)] on the mechanisms. *)
#[export] Instance debug_zap_mechanism : Debug ZapMechanism := λ m,
  match m with ZapNull => DText "Null" | ZapPlain => DText "Plain" | ZapCurve => DText "Curve" end.

(** [ZapRequestCredentialsDebug]: [len] is formatted into the text. *)
Definition debug_credential_frames (n : Z) : Dbg :=
  if n =? 0 then DText "[]" else DList [DText "[<"; DNum n; DText " credential frame(s) redacted>]"].

#[export] Instance debug_zap_request : Debug ZapRequest := λ q,
  DStruct "ZapRequest" [
    ("version", debug (zq_version q));
    ("request_id", debug (zq_request_id q));
    ("domain", debug (zq_domain q));
    ("address", debug (zq_address q));
    ("identity", debug (zq_identity q));
    ("mechanism", debug (zq_mechanism q));
    ("credentials", debug_credential_frames (len (zq_credentials q)))] true.

(** [CurveSecretKey]; [CurveKeyPair] derives its implementation. *)
Definition debug_secret_key (secret : bytes) : Dbg := DText "CurveSecretKey([REDACTED])".

#[export] Instance debug_keypair : Debug CurveKeyPair := λ kp,
  DStruct "CurveKeyPair" [("public", debug (kp_public kp)); ("secret", debug_secret_key (kp_secret kp))] true.

#[export] Instance debug_cipher {K} : Debug (CurveMessageCipher K) := λ c,
  DStruct "CurveMessageCipher" [
    ("send_nonce", debug (send_nonce c)); ("recv_nonce", debug (recv_nonce c)); ("is_client", debug (is_client c))] false.

(** ** Sockets *)

Definition debug_base {S K} `{!Debug Endpoint} (b : SocketBase S K) : Dbg :=
  DStruct "SocketBase" [
    ("connected", debug (is_connected b));
    ("poisoned", debug (is_poisoned b));
    ("buffered_messages", debug (buffered_messages b));
    ("buffered_bytes", debug (len (send_buffer b)));
    ("endpoint", debug (endpoint b));
    ("awaiting_pong", debug (awaiting_pong b))] true.

Definition debug_xpub {S K} (x : XPubSocket S K) : Dbg :=
  DStruct "XPubSocket" [
    ("subscribers", debug (len (xp_subscribers x)));
    ("verbose", debug (xpub_verbose (xp_options x)));
    ("manual", debug (xpub_manual (xp_options x)));
    ("has_upstream", debug (bool_decide (is_Some (upstream x))))] true.

(** ** What debug output depends on *)

Definition same_presence {A} (x y : option A) : Prop := is_Some x <-> is_Some y.

#[export] Instance debug_bytes_inj : Inj (=) (=) (@debug bytes _).
Proof. by intros x y [= ->]. Qed.
#[export] Instance debug_Z_inj : Inj (=) (=) (@debug Z _).
Proof. by intros x y [= ->]. Qed.
#[export] Instance debug_option_inj {A} `{Debug A} `{!Inj (=) (=) (@debug A _)} : Inj (=) (=) (@debug (option A) _).
Proof. intros [x|] [y|] E; try done. injection E as E. by apply (inj debug) in E as ->. Qed.
#[export] Instance debug_list_inj {A} `{Debug A} `{!Inj (=) (=) (@debug A _)} : Inj (=) (=) (@debug (list A) _).
Proof. intros l k E. injection E as E. by apply (inj (fmap debug)) in E. Qed.

Lemma debug_redacted (x y : option bytes) :
  debug ((λ _, redacted) <$> x) = debug ((λ _, redacted) <$> y) <-> same_presence x y.
Proof.
  unfold same_presence. destruct x, y; split; try done.
  - intros [H _]. by destruct (H ltac:(eauto)).
  - intros [_ H]. by destruct (H ltac:(eauto)).
Qed.

(** The options with what is hidden of them replaced. *)
Definition with_hidden (o : SocketOptions) (size : Z) (password secret : option bytes) : SocketOptions :=
  o <| read_buffer_size := size |> <| plain_password := password |> <| curve_secretkey := secret |>.

(** Two configurations print alike exactly when they differ in nothing but the
    password and the secret key, of which only the presence shows, and in how far
    the read buffer exceeds its cap. *)
Lemma debug_options_iff o o' :
  debug o = debug o' <->
  exists size password secret, o' = with_hidden o size password secret /\
    effective_read_buffer_size (o <| read_buffer_size := size |>) = effective_read_buffer_size o /\
    same_presence (plain_password o) password /\ same_presence (curve_secretkey o) secret.
Proof.
  split.
  - intros E. exists (read_buffer_size o'), (plain_password o'), (curve_secretkey o').
    rewrite <- !debug_redacted. unfold effective_read_buffer_size.
    destruct o, o'. unfold debug at 1 2, debug_options, effective_read_buffer_size in E. cbn in *. injection E as E. intros.
    split_and!; [|done..]. unfold with_hidden; cbn. f_equal;
      first [done|by symmetry|by apply (inj debug); symmetry|by apply (inj (fmap debug)); symmetry].
  - intros (size & p & k & -> & Hs & Hp & Hk). apply debug_redacted in Hp, Hk.
    unfold debug at 1 2, debug_options. unfold effective_read_buffer_size in *. cbn in *. by rewrite Hp, Hk, Hs.
Qed.

(** C36: what is printed for debugging does not depend on a secret: two socket
    configurations print alike exactly when they differ in nothing but the PLAIN
    password and the CURVE secret key, whose presence alone shows, and in how far the
    read buffer size exceeds its cap; a credential map shows how many users it has, a
    ZAP request, of its credentials, how many frames they are, a key pair its public key, a cipher its
    counters and role. *)
Theorem debug_hides_secrets (K : Type) :
  (forall o o', debug o = debug o' <->
     exists size password secret, o' = with_hidden o size password secret /\
       effective_read_buffer_size (o <| read_buffer_size := size |>) = effective_read_buffer_size o /\
       same_presence (plain_password o) password /\ same_presence (curve_secretkey o) secret) /\
  (forall c c', debug c = debug c' <-> pc_username c = pc_username c') /\
  (forall h h', debug h = debug h' <-> size (credentials h) = size (credentials h')) /\
  (forall q cs, debug (mk_zap_request (zq_version q) (zq_request_id q) (zq_domain q) (zq_address q) (zq_identity q)
                         (zq_mechanism q) cs) = debug q <-> length cs = length (zq_credentials q)) /\
  (forall kp kp', debug kp = debug kp' <-> kp_public kp = kp_public kp') /\
  (forall (c c' : CurveMessageCipher K), debug c = debug c' <->
     send_nonce c = send_nonce c' /\ recv_nonce c = recv_nonce c' /\ is_client c = is_client c').
Proof.
  split_and!.
  - apply debug_options_iff.
  - intros c c'. split; [by intros [= ?]|]. intros E. unfold debug, debug_plain_credentials. by rewrite E.
  - intros h h'. split; [intros [= E]; lia|]. intros E. unfold debug, debug_static_handler. by rewrite E.
  - intros q cs. unfold debug, debug_zap_request. cbn. unfold debug_credential_frames, len. split.
    + intros [= E]. destruct (Z.eqb_spec (Z.of_nat (length cs)) 0), (Z.eqb_spec (Z.of_nat (length (zq_credentials q))) 0); try done; [lia|].
      injection E as E. lia.
    + intros E. by rewrite E.
  - intros kp kp'. split; [by intros [= ?]|]. intros E. unfold debug, debug_keypair. by rewrite E.
  - intros c c'. split; [by intros [= ? ? ?]|]. intros (E1 & E2 & E3). unfold debug, debug_cipher. by rewrite E1, E2, E3.
Qed.

(** Nor does what a socket prints: neither its options nor its cipher, and of its
    buffers the number of bytes alone. *)
Lemma debug_base_hides {S K} `{!Debug Endpoint} (b b' : SocketBase S K) :
  is_connected b = is_connected b' -> is_poisoned b = is_poisoned b' -> buffered_messages b = buffered_messages b' ->
  len (send_buffer b) = len (send_buffer b') -> endpoint b = endpoint b' -> awaiting_pong b = awaiting_pong b' ->
  debug_base b = debug_base b'.
Proof. unfold debug_base. by intros -> -> -> -> -> ->. Qed.

(** ** Dropping a secret key

    [Drop for CurveSecretKey] asks the key for its bytes, which gives it a copy, and
    overwrites those. *)

(** Memory cells by address: the key is at [key], the copy is put at [raw]. *)
Definition drop_secret_key (mem : gmap Z bytes) (key raw : Z) : gmap Z bytes :=
  match mem !! key with
  | None => mem
  | Some secret => <[raw := zeros (length secret)]> (<[raw := secret]> mem)
  end.

(** The bytes of the key itself are as they were. *)
Lemma drop_keeps_secret mem key raw secret :
  mem !! key = Some secret -> key <> raw ->
  drop_secret_key mem key raw !! key = Some secret /\ drop_secret_key mem key raw !! raw = Some (zeros (length secret)).
Proof.
  intros E Hne. unfold drop_secret_key. rewrite E. rewrite lookup_insert_eq. rewrite !lookup_insert_ne by done. done.
Qed.
