(* ===== verification/CurveBox.v ===== *)
(** * CURVE message boxes of the handshake objects

    [CurveBox] of monocoque-zmtp/src/security/curve.rs, and [encrypt_message] and
    [decrypt_message] of [CurveClient] and [CurveServer]: the messages the two
    ends of a completed handshake exchange with the box and the counters they
    hold themselves.  [box_step] lets both ends send and receive in any order
    over the two directions of a connection. *)

From S2P Require Import Prelude.
From S2P Require Import Options.
From S2P Require Import CurveMessage.
From S2P Require Import Stream.
From S2P Require Import CurveHandshake.

Section boxes.
Context `{Aead bytes}.

(** [CurveBox]; the key is the box. *)
Definition box_encrypt (key plaintext nonce : bytes) : result CurveError bytes :=
  match aead_encrypt key nonce plaintext with Some ct => Ok ct | None => Err EncryptionFailed end.

Definition box_decrypt (key ciphertext nonce : bytes) : result CurveError bytes :=
  match aead_decrypt key nonce ciphertext with Some pt => Ok pt | None => Err DecryptionFailed end.

Definition set_client_nonces (c : CurveClient) (send recv : Z) : CurveClient :=
  mk_curve_client (cc_client_keypair c) (cc_server_public c) (cc_short_keypair c) (cc_server_short_public c) (cc_cookie c)
    (cc_local_socket_type c) (cc_local_identity c) (cc_peer_socket_type c) (cc_peer_identity_recv c) send recv (cc_message_box c).

Definition set_server_nonces (s : CurveServer) (send recv : Z) : CurveServer :=
  mk_curve_server (cs_server_keypair s) (cs_short_keypair s) (cs_client_short_public s) (cs_client_public s) (cs_cookie_key s)
    (cs_local_socket_type s) (cs_peer_socket_type s) (cs_peer_identity_recv s) send recv (cs_message_box s).

Definition client_encrypt_message (c : CurveClient) (plaintext : bytes) : result CurveError bytes * CurveClient :=
  let '(r, n) := box_encrypt_message (cc_message_box c) false (cc_send_nonce c) plaintext in
  (r, set_client_nonces c n (cc_recv_nonce c)).

Definition client_decrypt_message (c : CurveClient) (message : bytes) : result CurveError bytes * CurveClient :=
  let '(r, n) := box_decrypt_message (cc_message_box c) true (cc_recv_nonce c) message in
  (r, set_client_nonces c (cc_send_nonce c) n).

Definition server_encrypt_message (s : CurveServer) (plaintext : bytes) : result CurveError bytes * CurveServer :=
  match cs_message_box s with
  | None => (Err ProtocolViolation, s)
  | Some message_box =>
      let short := be_bytes 8 (cs_send_nonce s) in
      let nonce := ascii_bytes "CurveZMQMESSAGES" ++ short in
      match next_nonce (cs_send_nonce s) with
      | None => (Err ProtocolViolation, s)
      | Some n =>
          let s := set_server_nonces s n (cs_recv_nonce s) in
          match box_encrypt message_box plaintext nonce with
          | Err e => (Err e, s)
          | Ok ct => (Ok (CURVE_MESSAGE ++ short ++ ct), s)
          end
      end
  end.

Definition server_decrypt_message (s : CurveServer) (message : bytes) : result CurveError bytes * CurveServer :=
  match parse_curve_message message with
  | Err e => (Err e, s)
  | Ok parts =>
      match cs_message_box s with
      | None => (Err ProtocolViolation, s)
      | Some message_box =>
          let counter := be_val (short_nonce parts) in
          if counter <? cs_recv_nonce s then (Err ProtocolViolation, s)
          else
            match next_nonce counter with
            | None => (Err ProtocolViolation, s)
            | Some n =>
                let s := set_server_nonces s (cs_send_nonce s) n in
                let nonce := ascii_bytes "CurveZMQMESSAGEC" ++ short_nonce parts in
                match box_decrypt message_box (ciphertext parts) nonce with
                | Err e => (Err e, s)
                | Ok pt => (Ok pt, s)
                end
            end
      end
  end.

Lemma set_server_nonces_same s : set_server_nonces s (cs_send_nonce s) (cs_recv_nonce s) = s.
Proof. by destruct s. Qed.

(** The server's methods are the client's, with the directions exchanged. *)
Lemma server_encrypt_box s pt :
  server_encrypt_message s pt =
    (let '(r, n) := box_encrypt_message (cs_message_box s) true (cs_send_nonce s) pt in (r, set_server_nonces s n (cs_recv_nonce s))).
Proof.
  unfold server_encrypt_message, box_encrypt_message, box_encrypt. destruct (cs_message_box s) as [key|]; [|by rewrite set_server_nonces_same].
  destruct (next_nonce (cs_send_nonce s)); [|by rewrite set_server_nonces_same]. cbn [negb nonce_prefix]. by destruct (aead_encrypt _ _ _).
Qed.

Lemma server_decrypt_box s m :
  server_decrypt_message s m =
    (let '(r, n) := box_decrypt_message (cs_message_box s) false (cs_recv_nonce s) m in (r, set_server_nonces s (cs_send_nonce s) n)).
Proof.
  unfold server_decrypt_message, box_decrypt_message, box_decrypt. destruct (parse_curve_message m) as [parts|e]; [|by rewrite set_server_nonces_same].
  destruct (cs_message_box s) as [key|]; [|by rewrite set_server_nonces_same].
  destruct (_ <? _); [by rewrite set_server_nonces_same|]. destruct (next_nonce _); [|by rewrite set_server_nonces_same].
  cbn [negb nonce_prefix]. by destruct (aead_decrypt _ _ _).
Qed.

(** ** A conversation *)

Record BoxNet := mk_box_net {
  bn_client : CurveClient;
  bn_server : CurveServer;
  to_server : list bytes;              (** on the wire *)
  to_client : list bytes;
  client_sent : list bytes;            (** plaintexts *)
  server_sent : list bytes;
  server_got : list (result CurveError bytes);
  client_got : list (result CurveError bytes);
}.

Inductive box_op := ClientSend (pt : bytes) | ServerSend (pt : bytes) | ServerRecv | ClientRecv.

Definition box_step (n : BoxNet) (op : box_op) : BoxNet :=
  let '(mk_box_net c s ts tc cs ss sg cg) := n in
  match op with
  | ClientSend pt =>
      match client_encrypt_message c pt with
      | (Ok m, c) => mk_box_net c s (ts ++ [m]) tc (cs ++ [pt]) ss sg cg
      | (Err _, c) => mk_box_net c s ts tc cs ss sg cg
      end
  | ServerSend pt =>
      match server_encrypt_message s pt with
      | (Ok m, s) => mk_box_net c s ts (tc ++ [m]) cs (ss ++ [pt]) sg cg
      | (Err _, s) => mk_box_net c s ts tc cs ss sg cg
      end
  | ServerRecv =>
      match ts with
      | [] => n
      | m :: ts => let '(r, s) := server_decrypt_message s m in mk_box_net c s ts tc cs ss (sg ++ [r]) cg
      end
  | ClientRecv =>
      match tc with
      | [] => n
      | m :: tc => let '(r, c) := client_decrypt_message c m in mk_box_net c s ts tc cs ss sg (cg ++ [r])
      end
  end.

Definition box_run (n : BoxNet) (ops : list box_op) : BoxNet := foldl box_step n ops.

Hypothesis aead_correct : forall k nonce pt ct : bytes, aead_encrypt k nonce pt = Some ct -> aead_decrypt k nonce ct = Some pt.

Definition wire_message (n : Z) (ct : bytes) : bytes := CURVE_MESSAGE ++ be_bytes 8 n ++ ct.

(** Messages under way: their counters grow, from what the receiver expects to what
    the sender will use next. *)
Inductive under_way (key : bytes) (from_server : bool) : Z -> Z -> list bytes -> list bytes -> Prop :=
| uw_nil r s : r <= s -> under_way key from_server r s [] []
| uw_cons r s n ct pt q pts :
    r <= n -> 0 <= n -> n + 1 <= u64_max -> aead_decrypt key (nonce_prefix (negb from_server) ++ be_bytes 8 n) ct = Some pt ->
    under_way key from_server (n + 1) s q pts ->
    under_way key from_server r s (wire_message n ct :: q) (pt :: pts).

Lemma under_way_le key dir r s q pts : under_way key dir r s q pts -> r <= s.
Proof. induction 1; lia. Qed.

Lemma under_way_later key dir r s s' q pts : under_way key dir r s q pts -> s <= s' -> under_way key dir r s' q pts.
Proof. induction 1 as [r s|]; intros Hs; econstructor; eauto. lia. Qed.

Lemma under_way_snoc key dir r s q pts ct pt :
  under_way key dir r s q pts -> 0 <= s -> s + 1 <= u64_max -> aead_decrypt key (nonce_prefix (negb dir) ++ be_bytes 8 s) ct = Some pt ->
  under_way key dir r (s + 1) (q ++ [wire_message s ct]) (pts ++ [pt]).
Proof.
  induction 1 as [r s Hr|]; intros Hs0 Hu Hd; cbn [app]; econstructor; eauto. apply uw_nil. lia.
Qed.

Lemma box_encrypt_sends key dir r s q pts pt :
  under_way key dir r s q pts -> 0 <= s ->
  let '(res, s') := box_encrypt_message (Some key) dir s pt in
  0 <= s' /\
  match res with
  | Ok m => under_way key dir r s' (q ++ [m]) (pts ++ [pt])
  | Err _ => under_way key dir r s' q pts
  end.
Proof.
  intros Hq Hs. unfold box_encrypt_message, next_nonce. destruct (Z.leb_spec (s + 1) u64_max); [|done].
  destruct (aead_encrypt key _ pt) as [ct|] eqn:E.
  - split; [lia|]. apply under_way_snoc; [done|done|done|by apply aead_correct].
  - split; [lia|]. apply (under_way_later _ _ _ s); [done|lia].
Qed.

Lemma box_decrypt_receives key dir r s m q pts :
  under_way key dir r s (m :: q) pts ->
  exists pt pts' r', pts = pt :: pts' /\ box_decrypt_message (Some key) dir r m = (Ok pt, r') /\ under_way key dir r' s q pts'.
Proof.
  intros Hq. inversion Hq as [|? ? n ct pt ? pts' Hr H0 Hu Hd Hrest]; subst. exists pt, pts', (n + 1). split; [done|].
  split; [|done]. unfold box_decrypt_message, wire_message. rewrite parse_curve_message_app by apply len_be_bytes. cbn [short_nonce ciphertext].
  rewrite be_val_be_bytes by (change (256 ^ Z.of_nat 8) with (2 ^ 64); unfold u64_max in *; lia).
  rewrite (proj2 (Z.ltb_ge n r)) by done. unfold next_nonce. rewrite (proj2 (Z.leb_le _ _)) by done. by rewrite Hd.
Qed.

(** What holds throughout: everything sent has been received in order or is under
    way, in both directions. *)
Definition box_inv (key : bytes) (n : BoxNet) : Prop :=
  cc_message_box (bn_client n) = Some key /\ cs_message_box (bn_server n) = Some key /\
  0 <= cc_send_nonce (bn_client n) /\ 0 <= cs_send_nonce (bn_server n) /\
  (exists pts, under_way key false (cs_recv_nonce (bn_server n)) (cc_send_nonce (bn_client n)) (to_server n) pts /\
     Ok <$> client_sent n = server_got n ++ (Ok <$> pts)) /\
  (exists pts, under_way key true (cc_recv_nonce (bn_client n)) (cs_send_nonce (bn_server n)) (to_client n) pts /\
     Ok <$> server_sent n = client_got n ++ (Ok <$> pts)).

Lemma box_step_inv key n op : box_inv key n -> box_inv key (box_step n op).
Proof.
  destruct n as [c s ts tc cs ss sg cg]. intros (Hc & Hs & H0c & H0s & (p1 & Hq1 & Hg1) & (p2 & Hq2 & Hg2)). cbn in *.
  destruct op as [pt|pt| |]; cbn.
  - unfold client_encrypt_message. rewrite Hc. pose proof (box_encrypt_sends _ _ _ _ _ _ pt Hq1 H0c) as Hb.
    destruct (box_encrypt_message (Some key) false (cc_send_nonce c) pt) as [[m|e] n']; destruct Hb as [H0 Hb];
      (split_and!; cbn; [done|done|done|done| |by exists p2]).
    + exists (p1 ++ [pt]). split; [done|]. by rewrite !fmap_app, Hg1, app_assoc.
    + by exists p1.
  - rewrite server_encrypt_box, Hs. pose proof (box_encrypt_sends _ _ _ _ _ _ pt Hq2 H0s) as Hb.
    destruct (box_encrypt_message (Some key) true (cs_send_nonce s) pt) as [[m|e] n']; destruct Hb as [H0 Hb];
      (split_and!; cbn; [done|done|done|done|by exists p1|]).
    + exists (p2 ++ [pt]). split; [done|]. by rewrite !fmap_app, Hg2, app_assoc.
    + by exists p2.
  - destruct ts as [|m ts]; [split_and!; cbn; eauto|].
    destruct (box_decrypt_receives _ _ _ _ _ _ _ Hq1) as (pt & p1' & r' & -> & E & Hq'). rewrite server_decrypt_box, Hs, E.
    split_and!; cbn; [done|done|done|done| |by exists p2]. exists p1'. split; [done|]. by rewrite Hg1, <- app_assoc.
  - destruct tc as [|m tc]; [split_and!; cbn; eauto|].
    destruct (box_decrypt_receives _ _ _ _ _ _ _ Hq2) as (pt & p2' & r' & -> & E & Hq'). unfold client_decrypt_message. rewrite Hc, E.
    split_and!; cbn; [done|done|done|done|by exists p1|]. exists p2'. split; [done|]. by rewrite Hg2, <- app_assoc.
Qed.

Lemma box_run_inv key n ops : box_inv key n -> box_inv key (box_run n ops).
Proof. revert n. induction ops as [|op ops IH]; intros n Hn; [done|]. cbn. by apply IH, box_step_inv. Qed.
End boxes.

(** A client and a server that hold the same box, before any message. *)
Definition box_start (c : CurveClient) (s : CurveServer) : BoxNet := mk_box_net c s [] [] [] [] [] [].

(** Whatever the order in which the two ends of a completed CURVE handshake
    encrypt, send, receive and decrypt messages, each end gets exactly the plaintexts
    the other one has sent, in order and all of them accepted, up to those still
    under way; once nothing is under way it has got all of them. *)
Theorem curve_boxes_deliver `{Aead bytes} (key : bytes) (c : CurveClient) (s : CurveServer) (ops : list box_op) :
  (forall k nonce pt ct : bytes, aead_encrypt k nonce pt = Some ct -> aead_decrypt k nonce ct = Some pt) ->
  cc_message_box c = Some key -> cs_message_box s = Some key ->
  0 <= cs_recv_nonce s <= cc_send_nonce c -> 0 <= cc_recv_nonce c <= cs_send_nonce s ->
  let n := box_run (box_start c s) ops in
  (exists pending, Ok <$> client_sent n = server_got n ++ (Ok <$> pending) /\ length pending = length (to_server n)) /\
  (exists pending, Ok <$> server_sent n = client_got n ++ (Ok <$> pending) /\ length pending = length (to_client n)).
Proof.
  intros Ha Hc Hs H1 H2. cbn zeta.
  assert (Hi : box_inv key (box_start c s)).
  { split_and!; [done|done|cbn; lia|cbn; lia|exists []|exists []]; (split; [apply uw_nil; cbn; lia|done]). }
  destruct (box_run_inv Ha key _ ops Hi) as (_ & _ & _ & _ & (p1 & Hq1 & Hg1) & (p2 & Hq2 & Hg2)).
  split; [exists p1|exists p2]; (split; [done|]); [clear Hg1|clear Hg2].
  - revert Hq1. clear. induction 1; cbn; congruence.
  - revert Hq2. clear. induction 1; cbn; congruence.
Qed.

Definition example_client (key : bytes) : CurveClient :=
  mk_curve_client (mk_keypair [] []) [] (mk_keypair [] []) None None [] None None None 3 2 (Some key).
Definition example_server (key : bytes) : CurveServer :=
  mk_curve_server (mk_keypair [] []) (mk_keypair [] []) None None [] [] None None 2 3 (Some key).

Lemma curve_boxes_deliver_witness :
  let n := @box_run toy_aead (box_start (example_client (ascii_bytes "key")) (example_server (ascii_bytes "key")))
             [ClientSend [u8 1]; ServerSend [u8 9]; ClientSend [u8 2]; ServerRecv; ClientRecv] in
  server_got n = [Ok [u8 1]] /\ client_got n = [Ok [u8 9]] /\
  exists pending, Ok <$> client_sent n = server_got n ++ (Ok <$> pending) /\ length pending = length (to_server n).
Proof.
  cbn zeta. split; [vm_compute; reflexivity|]. split; [vm_compute; reflexivity|].
  apply (@curve_boxes_deliver toy_aead (ascii_bytes "key")); [exact toy_aead_correct|reflexivity|reflexivity|cbn; lia|cbn; lia].
Defined.
