(* ===== verification/Broker.v ===== *)
(** * A broker of publishers and subscribers

    The proxy (proxy.rs) between an XSUB socket (xsub.rs), which the publishers
    reach, and an XPUB socket (xpub.rs), which the subscribers reach.  Messages
    go down to the subscribers whose subscriptions they match, subscription
    events go up.

    What the publishers write arrives at the XSUB socket any number of bytes at a
    time.  A round of the proxy drops the receive that is not ready, and XSUB then
    forgets the frames it had collected ([xsub_abandoned_recv_truncates]); so a round
    that asks the frontend must not find the first message [torn], some of its frames
    there and others not.  [broker_spec] is what the broker does under this condition;
    messages of one part are never torn ([broker_spec_single]). *)

From S2P Require Import Prelude.
From S2P Require Import SegBuffer.
From S2P Require Import Codec.
From S2P Require Import Options.
From S2P Require Import Subscription.
From S2P Require Import CurveMessage.
From S2P Require Import Stream.
From S2P Require Import Base.
From S2P Require Import BaseWire.
From S2P Require Import Recv.
From S2P Require Import Sockets.
From S2P Require Import Pipeline.
From S2P Require Import Subscriber.
From S2P Require Import XPub.
From S2P Require Import Proxy.
From S2P Require Import Arrival.

(** ** What the broker is meant to do *)

(** The size of a frame with this payload, and of a message. *)
Definition part_size (part : bytes) : Z := len part + (if 256 <=? len part then 9 else 2).
Definition message_size (m : message) : Z := foldr (λ part n, part_size part + n) 0 m.

Lemma encode_size f : len (encode f) = part_size (payload f).
Proof.
  unfold encode, part_size. rewrite !len_app. destruct (256 <=? len (payload f)).
  - rewrite len_be_bytes. unfold len. cbn. lia.
  - unfold len. cbn. lia.
Qed.

Lemma frames_size fs : len (concat (encode <$> fs)) = message_size (payload <$> fs).
Proof. induction fs as [|f fs IH]; [done|]. cbn [fmap list_fmap concat message_size foldr]. by rewrite len_app, encode_size, IH. Qed.

Lemma multipart_size m : len (encode_multipart m []) = message_size m.
Proof. rewrite encode_multipart_frames. cbn [app]. by rewrite frames_size, message_frames_payload. Qed.

Lemma message_size_app m m' : message_size (m ++ m') = message_size m + message_size m'.
Proof. unfold message_size. induction m as [|part m IH]; [done|]. cbn. rewrite IH. lia. Qed.

Lemma message_size_nonneg m : 0 <= message_size m.
Proof.
  unfold message_size, part_size. induction m as [|part m IH]; [done|]. cbn. pose proof (len_nonneg part).
  destruct (256 <=? len part); lia.
Qed.

(** The first message has arrived in part, its first frame with it. *)
Definition torn (l : Lane) : bool :=
  match coming l with
  | [] => false
  | m :: _ => match m with [] => false | part :: _ => (part_size part <=? arrived l) && (arrived l <? message_size m) end
  end.

Lemma lane_recv_size l :
  lane_recv l = match coming l with
                | [] => None
                | m :: ms => if message_size m <=? arrived l then Some (m, mk_lane ms (arrived l - message_size m)) else None
                end.
Proof. unfold lane_recv. destruct (coming l) as [|m ms]; [done|]. by rewrite multipart_size. Qed.

Inductive broker_op :=
| Posts (m : message)                      (** a publisher writes a message *)
| Arrives (n : nat) (cuts : list nat)      (** the next [n] bytes written arrive, cut at [cuts] *)
| Round (front_first : bool).              (** a [select!] of the proxy *)

(** The messages on their way to the frontend and the events the backend holds;
    what was taken and told so far. *)
Record BrokerSpec := mk_bspec {
  bs_lane : Lane;
  bs_events : list SubscriptionEvent;
  bs_taken : list message;
  bs_told : list SubscriptionEvent;
}.

(** XPUB answers at once, also when it has no event, so that the frontend is asked
    only when it comes first.  [None]: the first message is torn. *)
Definition tell_one (st : BrokerSpec) : BrokerSpec :=
  mk_bspec (bs_lane st) (tail (bs_events st)) (bs_taken st) (bs_told st ++ take 1 (bs_events st)).

Definition broker_spec (st : BrokerSpec) (op : broker_op) : option BrokerSpec :=
  match op with
  | Posts m => Some (mk_bspec (lane_send (bs_lane st) m) (bs_events st) (bs_taken st) (bs_told st))
  | Arrives n _ => Some (mk_bspec (lane_arrive (bs_lane st) n) (bs_events st) (bs_taken st) (bs_told st))
  | Round false => Some (tell_one st)
  | Round true =>
      if torn (bs_lane st) then None
      else match lane_recv (bs_lane st) with
           | Some (m, l) => Some (mk_bspec l (bs_events st) (bs_taken st ++ [m]) (bs_told st))
           | None => Some (tell_one st)
           end
  end.

Fixpoint broker_spec_run (ops : list broker_op) (st : BrokerSpec) : option BrokerSpec :=
  match ops with
  | [] => Some st
  | op :: ops => st ← broker_spec st op; broker_spec_run ops st
  end.

Definition posted_by (op : broker_op) : list message := match op with Posts m => [m] | _ => [] end.
Definition posted (ops : list broker_op) : list message := concat (posted_by <$> ops).

Lemma broker_spec_run_app ops ops' st :
  broker_spec_run (ops ++ ops') st = st' ← broker_spec_run ops st; broker_spec_run ops' st'.
Proof. revert st. induction ops as [|op ops IH]; intros st; [done|]. cbn. destruct (broker_spec st op); [apply IH|done]. Qed.

Lemma lane_recv_coming l m l' : lane_recv l = Some (m, l') -> coming l = m :: coming l'.
Proof. rewrite lane_recv_size. destruct l as [[|x ms] a]; [done|]. cbn. case_match; [|done]. by intros [= <- <-]. Qed.

(** Nothing is lost. *)
Lemma broker_spec_keeps ops st st' :
  broker_spec_run ops st = Some st' ->
  bs_taken st ++ coming (bs_lane st) ++ posted ops = bs_taken st' ++ coming (bs_lane st') /\
  bs_told st ++ bs_events st = bs_told st' ++ bs_events st'.
Proof.
  revert st. induction ops as [|op ops IH]; intros st; cbn [broker_spec_run]; [intros [= <-]; by rewrite app_nil_r|].
  destruct (broker_spec st op) as [st1|] eqn:E; [|done]. intros [<- <-]%IH.
  assert (Htl : forall evs : list SubscriptionEvent, evs = take 1 evs ++ tail evs) by (by intros []).
  assert (Htell : bs_told st ++ bs_events st = (bs_told st ++ take 1 (bs_events st)) ++ tail (bs_events st))
    by (rewrite <- app_assoc; by rewrite <- Htl).
  destruct op as [m|n cuts|[]]; cbn in E.
  - injection E as <-. cbn. by rewrite <- app_assoc.
  - by injection E as <-.
  - destruct (torn (bs_lane st)); [done|]. destruct (lane_recv (bs_lane st)) as [[m l]|] eqn:El; injection E as <-; [|by split].
    cbn. rewrite (lane_recv_coming _ _ _ El), <- !app_assoc. done.
  - injection E as <-. by split.
Qed.

(** Once everything has arrived, enough rounds of either kind forward it. *)
Lemma broker_spec_drains orders st :
  lane_ok (bs_lane st) -> lane_later (bs_lane st) = [] ->
  (length (coming (bs_lane st)) <= length (filter (λ o, o = true) orders))%nat ->
  (length (bs_events st) <= length (filter (λ o, o = false) orders))%nat ->
  exists st', broker_spec_run (Round <$> orders) st = Some st' /\ coming (bs_lane st') = [] /\ bs_events st' = [].
Proof.
  revert st. induction orders as [|o orders IH]; intros st Hok Hl Hm He; cbn [fmap list_fmap broker_spec_run].
  { exists st. cbn in Hm, He. by destruct (coming (bs_lane st)), (bs_events st); cbn in *; try lia. }
  rewrite !filter_cons in Hm, He.
  assert (Hgo : forall st1, lane_ok (bs_lane st1) -> lane_later (bs_lane st1) = [] -> broker_spec st (Round o) = Some st1 ->
    (length (coming (bs_lane st1)) <= length (filter (λ o, o = true) orders))%nat ->
    (length (bs_events st1) <= length (filter (λ o, o = false) orders))%nat ->
    exists st', (st0 ← broker_spec st (Round o); broker_spec_run (Round <$> orders) st0) = Some st' /\
      coming (bs_lane st') = [] /\ bs_events st' = []) by (intros st1 H1 H2 -> H3 H4; by apply IH).
  pose proof (Hl : zdrop _ _ = []) as Hz. apply (f_equal len) in Hz. rewrite len_zdrop in Hz by done.
  destruct o; repeat case_decide; try done; cbn [length] in Hm, He.
  - destruct (coming (bs_lane st)) as [|m ms] eqn:Ec.
    + apply (Hgo (tell_one st)); [done|done| |cbn; rewrite Ec; cbn; lia|cbn; destruct (bs_events st); cbn in *; lia].
      cbn. unfold torn. by rewrite lane_recv_size, Ec.
    + assert (Ha : message_size m <= arrived (bs_lane st)).
      { change (wire_of (m :: ms)) with (encode_multipart m [] ++ wire_of ms) in Hz. rewrite len_app, multipart_size in Hz.
        pose proof (len_nonneg (wire_of ms)). change (len (@nil byte)) with 0 in Hz. lia. }
      assert (Er : lane_recv (bs_lane st) = Some (m, mk_lane ms (arrived (bs_lane st) - message_size m))).
      { rewrite lane_recv_size, Ec. by rewrite (proj2 (Z.leb_le _ _)). }
      destruct (lane_recv_later _ _ _ Hok Er) as [Hl' Hok'].
      apply (Hgo (mk_bspec (mk_lane ms (arrived (bs_lane st) - message_size m)) (bs_events st) (bs_taken st ++ [m]) (bs_told st)));
        [done|by rewrite <- Hl| |cbn in *; lia|cbn in *; lia].
      cbn. rewrite Er. unfold torn. rewrite Ec. destruct m as [|part m]; [done|].
      by rewrite (proj2 (Z.ltb_ge _ _)), andb_false_r by lia.
  - apply (Hgo (tell_one st)); [done|done|done|done|]. cbn. destruct (bs_events st); cbn in *; lia.
Qed.

(** Messages of one part are never torn. *)
Lemma broker_spec_single ops st :
  Forall (λ m, length m = 1%nat) (coming (bs_lane st)) -> Forall (λ m, length m = 1%nat) (posted ops) ->
  exists st', broker_spec_run ops st = Some st'.
Proof.
  revert st. induction ops as [|op ops IH]; intros st Hst Hops; cbn [broker_spec_run]; [by exists st|].
  unfold posted in Hops. cbn [fmap list_fmap concat] in Hops. apply Forall_app in Hops as [Hop Hops].
  assert (E : exists st1, broker_spec st op = Some st1 /\ Forall (λ m, length m = 1%nat) (coming (bs_lane st1))).
  { destruct op as [m|n cuts|[]]; cbn in *; [|by eexists..| |by eexists].
    - eexists. split; [done|]. cbn. by apply Forall_app.
    - assert (torn (bs_lane st) = false) as ->.
      { unfold torn. destruct Hst as [|[|part []] ms Hm _]; [done|done| |done]. unfold message_size. cbn [foldr]. rewrite Z.add_0_r.
        destruct (Z.leb_spec (part_size part) (arrived (bs_lane st))); [|done]. cbn [andb]. by apply Z.ltb_ge. }
      destruct (lane_recv (bs_lane st)) as [[m l]|] eqn:El; eexists; (split; [done|]); [|done]. cbn.
      rewrite (lane_recv_coming _ _ _ El) in Hst. by apply list.Forall_cons in Hst as [_ ?]. }
  destruct E as (st1 & -> & Hst1). by apply IH.
Qed.

(** ** The subscribers *)

Section broker.
Context {T S K : Type} `{DuplexStream T} `{DuplexStream S} `{!Aead K} (clock : nat -> Z) (fuel : nat).
Context (Hrel_up : reliable (S := T)) (Hrel : reliable (S := S)).
Implicit Types (x : XPubSubscriber S K) (p : XPubSocket S K) (u : XSubSocket T K).

(** The messages of [ms] that a subscriber has asked for. *)
Definition asked_for x (ms : list message) : list message := filter (λ m, xs_matches x m = true) ms.

(** A subscriber as it was, with what it asked for of [ms] on its wire, and which
    has nothing to say. *)
Definition served (ms : list message) x0 x : Prop :=
  xs_id x = xs_id x0 /\ xs_subscriptions x = xs_subscriptions x0 /\ xs_cipher x = None /\ incoming (xs_stream x) = [] /\
  wire (xs_stream x) = wire (xs_stream x0) ++ wire_of (asked_for x0 ms).

Lemma served_matches ms x0 x m : served ms x0 x -> xs_matches x m = xs_matches x0 m.
Proof. intros (_ & Hs & _). unfold xs_matches. by rewrite Hs. Qed.

Lemma served_read ms x0 x n : served ms x0 x -> served ms x0 (set_xs_stream x (stream_read (xs_stream x) n).2).
Proof.
  intros (Hi & Hs & Hc & Hn & Hw). pose proof (read_chunk (xs_stream x) n) as Hr. rewrite Hn in Hr. destruct Hr as [_ Hr].
  split_and!; [done|done|done|done|]. cbn. by rewrite read_wire.
Qed.

(** Polling subscribers that say nothing. *)
Lemma poll_all_idle verbose ms xs0 xs t evs :
  Forall2 (served ms) xs0 xs -> exists xs', poll_all verbose xs t evs = Some (true, xs', t, evs) /\ Forall2 (served ms) xs0 xs'.
Proof.
  induction 1 as [|x0 x xs0 xs Hx Hxs (xs' & IH & IH')]; [by exists []|]. cbn [poll_all]. unfold poll_subscriber.
  pose proof (served_read _ _ _ 256 Hx) as Hx'. destruct Hx as (_ & _ & _ & Hn & _).
  pose proof (read_chunk (xs_stream x) 256) as Hr. rewrite Hn in Hr.
  destruct (stream_read (xs_stream x) 256) as [c s]. cbn in Hr, Hx'. destruct Hr as [-> _]. rewrite IH. cbn.
  eexists. split; [done|]. by constructor.
Qed.

(** A send to subscribers whose writes complete. *)
Lemma send_loop_served ms m xs0 xs dead :
  Forall2 (served ms) xs0 xs ->
  exists xs', xpub_send_loop xs m dead = (true, xs', dead) /\ Forall2 (served (ms ++ [m])) xs0 xs'.
Proof.
  induction 1 as [|x0 x xs0 xs Hx Hxs (xs' & IH & IH')]; [by exists []|]. cbn [xpub_send_loop].
  rewrite (served_matches _ _ _ m Hx). destruct Hx as (Hi & Hs & Hc & Hn & Hw).
  assert (Ha : asked_for x0 (ms ++ [m]) = asked_for x0 ms ++ (if xs_matches x0 m then [m] else [])).
  { unfold asked_for. rewrite list.filter_app. f_equal. by destruct (xs_matches x0 m) eqn:E; cbn; rewrite ?decide_True, ?decide_False by congruence. }
  destruct (xs_matches x0 m) eqn:Em; cbn [negb].
  - unfold xpub_wire. rewrite Hc. destruct (write_all_wire (xs_stream x) (encode_multipart m [])) as (k & _ & Hk & Hfull).
    specialize (Hfull (proj1 Hrel _ _)). pose proof (proj1 Hrel (xs_stream x) (encode_multipart m [])) as Hok.
    pose proof (write_incoming (xs_stream x) (encode_multipart m [])) as Hin.
    destruct (stream_write_all _ _) as [c s]. cbn in Hok, Hk, Hin. subst c k. rewrite IH. eexists. split; [done|].
    constructor; [|done]. split_and!; [done|done|done|by cbn; rewrite Hin|]. cbn. rewrite Hk, Hw, Ha, wire_of_app, wire_of_one.
    by rewrite app_assoc.
  - rewrite IH. eexists. split; [done|]. constructor; [|done]. split_and!; [done|done|done|done|]. by rewrite Ha, app_nil_r.
Qed.

(** Nobody is removed after it. *)
Lemma none_dead (xs : list (XPubSubscriber S K)) : filter (λ x, xs_id x ∉ []) xs = xs.
Proof. induction xs as [|x xs IH]; [done|]. rewrite filter_cons_True by apply not_elem_of_nil. by rewrite IH. Qed.

(** ** The front *)

(** Frames are collected only of a torn message. *)
Lemma collecting_untorn max (b : SocketBase T K) frames l :
  lane_ok l -> collecting max b frames (lane_later l) (coming l) -> torn l = false -> lane_recv l = None -> frames = [].
Proof.
  unfold lane_ok, lane_later. rewrite lane_recv_size. intros Hok [_ _ Hnow]. unfold torn. destruct l as [ms a]. cbn [coming arrived] in *.
  destruct ms as [|m ms]; [by destruct Hnow|]. destruct Hnow as (fs & bs & -> & _ & _ & _ & Heq).
  change (wire_of (?m :: ms)) with (encode_multipart m [] ++ wire_of ms) in *.
  destruct frames as [|part frames]; [done|]. apply (f_equal len) in Heq.
  rewrite !len_app, len_zdrop, frames_size, len_app, multipart_size, message_size_app in Heq by done. pose proof (len_nonneg bs).
  pose proof (message_size_nonneg frames) as Hn. change (message_size (part :: frames)) with (part_size part + message_size frames) in Heq.
  cbn [app]. rewrite (proj2 (Z.leb_le (part_size part) a)) by lia. cbn [andb].
  destruct (Z.ltb_spec a (message_size (part :: frames ++ (payload <$> fs)))) as [|Hge]; [done|].
  by rewrite (proj2 (Z.leb_le _ _)) by lia.
Qed.

(** An XSUB socket that has [l] coming and [sent] on its wire, with at most [n]
    pieces to be read. *)
Definition fronted max u (l : Lane) (sent : bytes) (n : nat) : Prop :=
  end_at max (xsub_base u) [] l sent n /\ recv_timeout (options (xsub_base u)) = None.

Lemma fronted_recv max u l sent n longest :
  fronted max u l sent n -> Forall (λ m, (length m <= longest)%nat) (coming l) -> (2 * n + longest < fuel)%nat -> torn l = false ->
  exists o u', xsub_recv clock fuel u = Some (o, u') /\
    match lane_recv l with
    | Some (m, l') => o = Returned (Ok (Some m)) /\ fronted max u' l' sent n
    | None => o = Pending /\ fronted max u' l sent n
    end.
Proof.
  intros [He Ht] Hl Hf Htorn. destruct (end_recv clock fuel 0 max _ [] l sent n longest He Hl Hf) as (o & b' & fr & E & Ho & Hres).
  unfold xsub_recv. rewrite E. cbn. eexists _, _. split; [done|].
  destruct (lane_recv l) as [[m l']|] eqn:El; [destruct Hres as (-> & -> & He')|destruct Hres as (-> & He')].
  - split; [done|]. split; [done|]. cbn. by rewrite Ho.
  - assert (fr = []) as -> by (eapply collecting_untorn; [apply He'|apply He'|done|done]).
    unfold idle_outcome. rewrite Ht. split; [done|]. split; [done|]. cbn. by rewrite Ho.
Qed.

(** Announcing an event leaves what is to be received. *)
Lemma fronted_send max u l sent n e :
  fronted max u l sent n ->
  exists u', xsub_send_multipart u (event_message e) = (Returned (Ok tt), u') /\ fronted max u' l (sent ++ event_wire e) n.
Proof.
  intros [[Hok Hcg Hsend Hn] Ht]. destruct (send_sub_event_sending _ sent [] e Hrel_up Hsend) as (b' & E & Hsend' & Ho).
  assert (Hstep : xsub_send_multipart u (event_message e) = (Returned (Ok tt), set_xsub_base u b')).
  { by destruct e; cbn [event_message event_prefix] in *; unfold xsub_send_multipart, send_subscription_event; cbn; rewrite E. }
  exists (set_xsub_base u b'). split; [done|]. destruct (collecting_receiving _ _ _ _ _ Hcg) as [bs [Hd Hr Hc Hh Hz (s & Hs & Hne & Hbs)]].
  assert (Hb : exists s', b' = set_stream (xsub_base u) (Some s') /\ incoming s' = incoming s).
  { unfold send_sub_event in E. rewrite Hc, Hs in E.
    pose proof (write_incoming s (encode_multipart [[match e with Subscribe _ => u8 1 | Unsubscribe _ => u8 0 end] ++ event_prefix e] [])) as Hi.
    destruct (stream_write_all s _) as [c s']. cbn in Hi. injection E as _ <-. by exists s'. }
  destruct Hb as (s' & -> & Hi). split; [|done]. cbn [xsub_base set_xsub_base]. split; [done|by eapply collecting_stream|done|].
  unfold chunks_left in *. cbn. rewrite Hs in Hn. cbn in Hn. by rewrite Hi.
Qed.

(** ** The whole *)

#[local] Instance front_socket : ProxySocket (XSubSocket T K) := xsub_proxy clock fuel.
#[local] Instance back_socket : ProxySocket (XPubSocket S K) := xpub_proxy.
#[local] Instance no_capture : ProxySocket (PullSocket T K) := pull_proxy clock fuel.

Abbreviation Broker := (Proxy (XSubSocket T K) (XPubSocket S K) (PullSocket T K)).

(** The broker, what the publishers have written to it, and how much of it has
    arrived. *)
Record BrokerNet := mk_bnet {
  bn_broker : Broker;
  bn_written : bytes;
  bn_pos : Z;
}.

(** [None]: the proxy has ended, or waits. *)
Definition broker_step (n : BrokerNet) (op : broker_op) : option BrokerNet :=
  let '(mk_bnet br written pos) := n in
  match op with
  | Posts m => Some (mk_bnet br (written ++ encode_multipart m []) pos)
  | Arrives k cuts =>
      let w := next_bytes k pos written in
      let u := set_xsub_base (frontend br) (base_deliver (xsub_base (frontend br)) (pieces cuts w)) in
      Some (mk_bnet (mk_proxy u (backend br) (capture br)) written (pos + len w))
  | Round o =>
      match proxy_round o br with
      | Some (Running, br) => Some (mk_bnet br written pos)
      | _ => None
      end
  end.

Fixpoint broker_run (ops : list broker_op) (n : BrokerNet) : option BrokerNet :=
  match ops with
  | [] => Some n
  | op :: ops => n ← broker_step n op; broker_run ops n
  end.

Lemma broker_run_app ops ops' n : broker_run (ops ++ ops') n = n' ← broker_run ops n; broker_run ops' n'.
Proof. revert n. induction ops as [|op ops IH]; intros n; [done|]. cbn. destruct (broker_step n op); [apply IH|done]. Qed.

(** The broker is where its specification is. *)
Record brokering (max : Z) (longest : nat) (xs0 : list (XPubSubscriber S K)) (sent : bytes) (net : BrokerNet) (st : BrokerSpec)
    (n : nat) : Prop := {
  br_front : fronted max (frontend (bn_broker net)) (bs_lane st) (sent ++ concat (event_wire <$> bs_told st)) n;
  br_way : on_way (bn_written net) (bn_pos net) (bs_lane st);
  br_short : Forall (λ m, (length m <= longest)%nat) (coming (bs_lane st));
  br_events : pending_events (backend (bn_broker net)) = bs_events st;
  br_subs : Forall2 (served (bs_taken st)) xs0 (xp_subscribers (backend (bn_broker net)));
  br_capture : capture (bn_broker net) = None;
}.

Lemma tells max longest xs0 sent net st n :
  brokering max longest xs0 sent net st n ->
  exists br1 br', poll_backend (bn_broker net) = Some (Some (Running, br'), br1) /\
    brokering max longest xs0 sent (mk_bnet br' (bn_written net) (bn_pos net)) (tell_one st) n.
Proof.
  intros [Hf Hw Hsh He Hxs Hc]. unfold poll_backend. cbn [recv_multipart back_socket xpub_proxy].
  unfold xpub_recv_multipart, recv_subscription, take_event. rewrite He. destruct (bs_events st) as [|e evs] eqn:Ee.
  - destruct (poll_all_idle (xpub_verbose (xp_options (backend (bn_broker net)))) (bs_taken st) xs0 _ (xp_topics (backend (bn_broker net))) [] Hxs)
      as (xs' & -> & Hxs').
    cbn. eexists _, _. split; [done|]. unfold tell_one. rewrite Ee. cbn. by rewrite app_nil_r.
  - destruct (fronted_send _ _ _ _ _ e Hf) as (u' & E & Hf'). cbn [from_backend]. unfold forward. cbn [capture frontend].
    rewrite Hc. cbn [send_capture send_multipart front_socket xsub_proxy]. rewrite E. eexists _, _. split; [done|].
    unfold tell_one. rewrite Ee. split; try done. cbn. rewrite fmap_app, concat_app, app_assoc. cbn. by rewrite app_nil_r.
Qed.

Definition op_fits (max : Z) (longest : nat) (op : broker_op) : Prop :=
  match op with Posts m => sendable max m /\ (length m <= longest)%nat | _ => True end.

Definition op_pieces (op : broker_op) : nat := match op with Arrives _ cuts => Datatypes.S (length cuts) | _ => 0 end.

Lemma brokering_step max longest xs0 sent net st n op st' :
  brokering max longest xs0 sent net st n -> op_fits max longest op -> (2 * n + longest < fuel)%nat -> broker_spec st op = Some st' ->
  exists net', broker_step net op = Some net' /\ brokering max longest xs0 sent net' st' (n + op_pieces op).
Proof.
  intros Hb Hfit Hfuel. pose proof Hb as [[Hf Ht] Hw Hsh He Hxs Hc]. pose proof (ea_lane _ _ _ _ _ _ Hf) as Hok.
  destruct net as [br written pos]. cbn [bn_broker bn_written bn_pos] in *.
  destruct op as [m|k cuts|[]]; cbn [broker_spec broker_step op_pieces]; rewrite ?Nat.add_0_r.
  - intros [= <-]. destruct Hfit as [Hm Hlm]. eexists. split; [done|]. split; cbn; try done.
    + split; [by apply end_written|done].
    + by apply on_way_send.
    + apply Forall_app. split; [done|]. by repeat constructor.
  - intros [= <-]. destruct (on_way_arrive _ _ _ k Hok Hw) as [-> Hw']. eexists. split; [done|]. split; cbn; try done.
    split; [by apply end_deliver|done].
  - destruct (torn (bs_lane st)) eqn:Etorn; [done|]. intros Hst.
    destruct (fronted_recv _ _ _ _ _ _ (conj Hf Ht) Hsh Hfuel Etorn) as (o & u' & E & Hres).
    unfold proxy_round, poll_frontend. cbn [recv_multipart front_socket xsub_proxy]. rewrite E.
    destruct (lane_recv (bs_lane st)) as [[m l]|] eqn:El; injection Hst as <-; destruct Hres as [-> Hf'].
    + cbn [from_frontend]. unfold forward. cbn [capture backend frontend]. rewrite Hc. cbn [send_capture send_multipart back_socket xpub_proxy].
      unfold xpub_send. destruct (send_loop_served (bs_taken st) m _ _ [] Hxs) as (xs' & -> & Hxs').
      eexists. split; [done|]. destruct (lane_recv_later _ _ _ Hok El) as [Hl _]. split; cbn; try done.
      * destruct Hw as [Hp Hz]. split; [done|]. by rewrite Hl.
      * rewrite (lane_recv_coming _ _ _ El) in Hsh. by apply list.Forall_cons in Hsh as [_ ?].
      * by rewrite none_dead.
    + destruct (tells max longest xs0 sent (mk_bnet (mk_proxy u' (backend br) (capture br)) written pos) st n) as (br1 & br' & Hp & Hb').
      { by split. }
      cbn [bn_broker bn_written bn_pos] in Hp, Hb'. rewrite Hp. by eexists.
  - intros [= <-]. destruct (tells _ _ _ _ _ _ _ Hb) as (br1 & br' & Hp & Hb'). cbn [bn_broker bn_written bn_pos] in Hp, Hb'.
    unfold proxy_round. rewrite Hp. by eexists.
Qed.

Definition ops_pieces (ops : list broker_op) : nat := sum_list_with op_pieces ops.

Lemma brokering_run max longest xs0 sent net st n ops st' :
  brokering max longest xs0 sent net st n -> Forall (op_fits max longest) ops -> (2 * (n + ops_pieces ops) + longest < fuel)%nat ->
  broker_spec_run ops st = Some st' ->
  exists net', broker_run ops net = Some net' /\ brokering max longest xs0 sent net' st' (n + ops_pieces ops).
Proof.
  unfold ops_pieces. revert net st n. induction ops as [|op ops IH]; intros net st n Hb Hops Hfuel; cbn [broker_spec_run broker_run sum_list_with] in *.
  { intros [= <-]. exists net. by rewrite Nat.add_0_r. }
  apply list.Forall_cons in Hops as [Hop Hops]. destruct (broker_spec st op) as [st1|] eqn:E; [|done]. cbn. intros Hrun.
  destruct (brokering_step _ _ _ _ _ _ _ _ st1 Hb Hop) as (net1 & -> & Hb1); [lia|done|].
  rewrite Nat.add_assoc in *. by apply (IH net1 st1).
Qed.
End broker.


Definition pipe_subscriber (id : Z) (topics : list bytes) : XPubSubscriber PipeStream unit :=
  mk_xsubscriber id (mk_pipe [] []) (mk_trie topics) segbuf_new decoder_new None.

Definition example_front : XSubSocket PipeStream unit :=
  mk_xsub (set_cipher (base_new (mk_pipe [] []) default_options) None) trie_new.

Definition example_back : XPubSocket PipeStream unit :=
  mk_xpub [pipe_subscriber 1 [ascii_bytes "a"]; pipe_subscriber 2 []; pipe_subscriber 3 [ascii_bytes "b"]] 4 default_options
    [Subscribe (ascii_bytes "b")] None (mk_topics ∅ ∅).

(** Four bytes of the first message arrive, then the rest of it in two pieces with
    the first byte of the second, then all. *)
Definition example_broker_ops : list broker_op :=
  [Posts [ascii_bytes "abc"; ascii_bytes "1"]; Posts [ascii_bytes "b"]; Arrives 4 []; Round true; Arrives 5 [1]%nat; Round true;
   Arrives 9 []].

